(* ===== verification/_CoqProject ===== *)
-Q . S2P
Prelude.v
Frames.v
Boot.v
Pmm.v
Paging.v
PageTree.v
PagingSpec.v
PagingProps.v
PagingInit.v
Mapper.v
PagingMapper.v
PageHuge.v
PagingInitSpec.v
PagingInitProps.v
Vmalloc.v
VmallocSpec.v
VmallocDemo.v
Startup.v
StartupDemo.v
Kmalloc.v
KmallocSpec.v
KmallocDemo.v
Disk.v
Str.v
Gpt.v
Heap.v
KmallocHeap.v
KernMem.v
KernelStart.v
Fat32.v
Fat32Spec.v
Fat32Props.v
FsDemo.v
Vfs.v
VfsSpec.v
Fat32Vfs.v
Fat32VfsSpec.v
VfsDemo.v
Percpu.v
Sched.v
SchedSpec.v
SchedDemo.v
Irq.v
IrqSpec.v
IrqDemo.v
Ipi.v
Font.v
Printk.v
PrintkSpec.v
PrintkDemo.v
Vblk.v
VblkSpec.v
VblkDemo.v
Ps2.v
Acpi.v
AcpiSpec.v
AcpiDemo.v
Ioapic.v
IoapicSpec.v
IoapicDemo.v
Descriptors.v
Devices.v
Pci.v
PciSpec.v
PciEnum.v
PciDemo.v
Nvme.v
NvmeSpec.v
NvmeFlight.v
NvmeTransfer.v
NvmeDemo.v
Lapic.v
LapicSpec.v
LapicDemo.v
NvmeInit.v
NvmeAdmin.v
NvmeInitSpec.v
NvmeInitDemo.v
Cpuid.v
