(* ===== verification/Prelude.v ===== *)
(** * VeloxOS: a verification development

    VeloxOS is a small x86_64 kernel in C. This library models its memory
    management, its storage stack, its scheduler and interrupt path, its console,
    its device drivers and its start-up, and proves the properties that
    make them correct.

    ** The program and its parts

    At boot, boot/boot.c copies what the boot loader reports (memory map,
    framebuffer, direct-map offset). mm/pmm.c builds a bitmap of physical pages
    from the memory map and hands out 4 KiB frames. mm/paging.c builds the
    kernel's own 4-level page tables out of such frames, switches to them,
    reclaims the boot loader's memory, and from then on maps, unmaps and protects
    pages. mm/vmalloc.c hands out regions of kernel virtual memory backed page by
    page through the two layers below it, and mm/kmalloc.c is a block heap in
    4 MiB pools taken from vmalloc. kernel/memory.c runs the three initialisations
    in order.

    arch/x86_64/gdt.c and idt.c build the descriptor tables; cpu/acpi.c and
    cpu/madt.c read the firmware's tables, from which cpu/ioapic.c programs the
    I/O interrupt controllers; cpu/apic.c sets up and calibrates each processor's
    own controller, cpu/vendor.h reads the processor's identification, and
    cpu/smp.c starts the other processors.
    kernel/sched.c keeps a round-robin queue of threads per processor.
    isr_handler.c receives every interrupt, dispatches it to the handler irq.c
    has for it, and on a timer tick or a reschedule request asks the scheduler
    which frame to resume; kernel/ipi.c sends interrupts to other processors.
    drivers/IO/ps2_keyboard.c decodes scan codes and hands key events to a list
    of listeners. include/printk.c formats text and draws it on the frame buffer.

    On the storage side the ATA driver (drivers/block/virtio/vblk.c) reads and
    writes sectors; drivers/block/pci.c enumerates the PCI bus, on which
    drivers/block/nvme.c finds an NVMe controller, brings it up and transfers
    blocks through its queues. fs/partition/gpt.c finds the partitions, fs/fat32.c reads a
    FAT32 volume (FAT chains, directories with long names, files),
    fs/vfs/vfs.c provides mounts, nodes, path resolution and open files, and
    fs/vfs/fat32_vfs.c plugs FAT32 into it with a directory cache. Buffers,
    nodes and mounts come from kmalloc.

    ** Files

    - Prelude.v: outcomes, the state-passing monad and its program logic, machine
      integers and the alignment helpers every C file repeats.
    - Frames.v: the interface of the frame allocator (class FrameAllocator and
      its laws), used by paging.
    - Boot.v: boot/boot.h, boot/boot.c.
    - Pmm.v: mm/pmm.c, with its invariant, the proofs of its operations, and the
      instance of the frame-allocator interface.
    - Paging.v: mm/paging.c without bring-up. PageTree.v: the tree of tables in
      memory and what translation reads from it. PagingSpec.v: the proofs of
      the operations. PagingProps.v: the properties.
    - PagingInit.v: paging_init and the mappers only it uses. PageHuge.v: 2 MiB
      entries, canonical addresses and tables that no write disturbs.
      PagingInitSpec.v: page maps and the proofs of the mappers.
      PagingInitProps.v: the theorem on paging_init.
    - Mapper.v: the interface vmalloc uses (map, unmap, frames).
      PagingMapper.v: paging implements it.
    - Vmalloc.v, VmallocSpec.v, VmallocDemo.v: mm/vmalloc.c, its proofs, and
      concrete states.
    - Startup.v, StartupDemo.v: kernel/memory.c, the composition of pmm_init,
      paging_init and vmalloc_init; a concrete boot.
    - Kmalloc.v, KmallocSpec.v, KmallocDemo.v: mm/kmalloc.c over the
      region-allocator interface, which vmalloc implements (end of
      KmallocSpec.v).
    - Disk.v: bytes, little-endian fields, the block-device contract. Str.v:
      lib/string.c, whose loops do what the list operations of Disk.v say. Heap.v: the
      heap interface the file systems use. KmallocHeap.v: kmalloc implements it.
      KernMem.v: the interface of blocks and regions together, used by the
      scheduler and SMP start, implemented by kmalloc over vmalloc. KernelStart.v:
      the memory steps of kmain, from the boot loader to that interface.
    - Gpt.v: fs/partition/gpt.c with its proofs.
    - Fat32.v: fs/fat32.c. Fat32Spec.v: the reference view of chains, directories
      and paths, and the proofs. Fat32Props.v: the properties, long names, and
      damaged volumes. FsDemo.v: a concrete disk.
    - Vfs.v, VfsSpec.v: fs/vfs/vfs.c and its proofs. Fat32Vfs.v,
      Fat32VfsSpec.v: fs/vfs/fat32_vfs.c and its proofs. VfsDemo.v: the concrete
      disk mounted, a file opened.
    - Percpu.v: cpu/percpu.h, kernel/cpu.c, cpu/smp.c: the processor table.
    - Sched.v, SchedSpec.v, SchedDemo.v: kernel/sched.c; the abstract round-robin
      queues and the refinement; concrete threads.
    - Irq.v, IrqSpec.v, IrqDemo.v: irq.c, isr_handler.c and the acknowledge path
      of cpu/apic.c, over the scheduler. Ipi.v: kernel/ipi.c.
    - Descriptors.v: gdt.c, tss.h, idt.c.
    - Acpi.v, AcpiSpec.v, AcpiDemo.v: cpu/acpi.c, cpu/madt.c over a byte-addressed
      memory; the reference reading of tables; a concrete machine.
    - Ioapic.v, IoapicSpec.v, IoapicDemo.v: cpu/ioapic.c over a device contract; a
      device that meets it.
    - Ps2.v: drivers/IO/ps2_keyboard.c with its proofs. Devices.v: the start of the
      devices (arch_irq_init), where dispatch, I/O controllers and keyboard meet.
    - Font.v, Printk.v, PrintkSpec.v, PrintkDemo.v: include/font.h,
      include/printk.c; the terminal the frame buffer shows.
    - Vblk.v, VblkSpec.v, VblkDemo.v: the ATA driver over its ports; the abstract
      drive, which proceeds by itself while it is busy and can fail; a drive that
      takes its time, with the partition reader on top of it.
    - Pci.v, PciSpec.v, PciEnum.v, PciDemo.v: pci.c over configuration space behind
      its two ports; access and capabilities; enumeration against the reference
      list of functions; a concrete bus.
    - Nvme.v: the queues and transfers of nvme.c. NvmeSpec.v: the commands built;
      NvmeFlight.v: commands in flight, submission and completion;
      NvmeTransfer.v: scatter lists and whole transfers; NvmeDemo.v: a controller.
    - NvmeInit.v, NvmeAdmin.v, NvmeInitSpec.v, NvmeInitDemo.v: nvme_init, the admin
      commands it issues, its theorem, and a controller it brings up.
    - Lapic.v, LapicSpec.v, LapicDemo.v: the set-up and calibration half of
      cpu/apic.c over a register contract. Cpuid.v: cpu/vendor.h with its proofs.

    ** How code is modelled

    A C function is a function of the same name in the monad [M S]: it takes the
    component's state (a record with the static variables of the C file and the
    memory it owns) and returns [Ok] with a result and the new state, [Halt] for
    panic, [Hang] for a loop or lock that never ends, or [Fault] for an access
    outside the object it indexes. Output parameters are part of the result.
    Integers are [Z] with the wrap-around of their C width written out ([wrap],
    [u16], [u32], [u64]) wherever it can happen. A lower layer is a type class
    with operations and laws; the layer's file gives the instance, and the
    client's theorems hold for every instance. Hardware (the drive behind its
    ports, the interrupt controller behind its two registers) is a class too: its
    laws state what the data sheet says, and a demo file has a device for which
    they hold. Where the code relies on more than the data sheet promises, that
    is a class of its own: AtaPlain of Vblk.v says what the disk driver needs of
    a drive beyond the ATA protocol, and VblkDemo.v shows what happens without.

    A spinlock is a flag: one CPU taking a lock it already holds hangs; other
    CPUs contending for it are not modelled, and interrupt masking is implied by
    the lock. The scheduler's state holds all processors, and a step names the
    processor it runs on, so that traces interleave them step by step. Calls of
    printk and the log text are left out of the other components.

    Fuel. Loops whose count is known use [for_loop] or [for_each] with that
    count. The free list of the heap, the sibling lists of the VFS and the list
    of keyboard listeners are walked with as much fuel as there are headers,
    nodes or listeners, which suffices for any list without a repetition. The
    walk over firmware records has the length of the table, as a record takes at
    least two bytes. The walks over FAT chains take the fuel as an argument: the
    theorems say that any fuel above the length of the chain gives the result,
    and fat32_read_dir_cycle_never_returns that for a cyclic chain no fuel does.
    The cache-growing loop of fat32_vfs.c has 28 rounds, since 64 doubles 26 times
    in 32 bits. The polling loops of the ATA driver have the 10,000,000 rounds of
    the code. The recursion over PCI bridges takes its depth as an argument:
    255 levels are enough when every bridge leads to a higher bus, and PciDemo.v
    has a bridge that leads back to its own bus, for which 1000 are not. A transfer
    waits for its completion without a bound, and the theorem says that some fuel
    is enough; an admin command is answered within a bounded number of looks by
    the controller's contract, and any fuel above it is enough; calibration waits
    for the time-stamp counter likewise.

    ** What the theorems show

    - Pages: pmm_init marks free exactly the usable unreserved pages; allocation
      is next-fit and frees are exact; frames are never shared between clients.
    - Page tables: map, unmap, protect and map-range change exactly the
      translation they are asked to, a new page has exactly the rights asked for,
      only free frames become tables and only the emptied tables are freed, and
      the only panic is for want of frames.
    - Start-up: paging_init moves to tables that translate exactly the kernel image,
      the direct map, the stack window and the frame buffer, writes no frame in use
      and reclaims the boot loader's memory around the stack; mem_init brings the
      three managers up together; with kmalloc_init the memory contract holds from
      which the scheduler and the file systems start.
    - vmalloc, kmalloc: results are aligned, disjoint from everything live and
      backed; frees give every frame back, leave no translation, and merge with
      the free blocks behind; over any sequence of calls live regions never
      overlap; double frees are detected.
    - Scheduler: the linked queues refine abstract round-robin queues; every
      waiting thread runs after as many ticks as there are threads before it;
      spawning gives back everything when it fails; the processor table lets
      every processor find its own entry.
    - Interrupts: a tick resumes the next thread, unless that was last saved by a
      reschedule interrupt, and acknowledges once; a
      registered handler runs; exceptions panic with their message; every vector
      has its gate; broadcasts reach exactly the other processors.
    - Firmware and I/O controllers: the first intact table with a signature is
      found; the walk over any record list, damaged ones included, ends and
      records exactly what it says within the arrays; routing programs exactly
      one entry with the right fields; masking flips one bit; device start
      connects the keyboard and leaves every other input masked.
    - Local controllers: bring-up leaves a controller of six or more local vectors
      enabled, all of these masked but the timer's, the timer running, and the
      ready flag set; the contract keeps vectors masked while the controller is
      disabled by software.
    - PCI: enumeration lists exactly the functions that can be reached from bus 0,
      unless one was dropped for want of memory, and searches find them.
    - NVMe: no command identifier or queue slot is used twice while in flight; the
      scatter list describes the buffer except in the two-page case; transfers move
      exactly the blocks asked for; bring-up ends with a ready controller or an
      error.
    - CPU identification: strings are terminated, a vendor is named exactly by its
      characters, and the caches listed are the sub-leaves that report one.
    - Bytes: memcmp, memset and memcpy, overlapping copies included.
    - Keyboard: each listener receives exactly the decoded events, in order of
      priority; the listener list stays sorted.
    - Console: printk shows what the format stands for, numerals read back, the
      cursor and frame buffer stay well formed.
    - ATA: over a drive that follows the protocol and is AtaPlain, the driver is the
      block device the file systems assume; what a write has left when the drive
      reported no error reads back.
    - GPT: the table lists the used entries; reads stay in the partition.
    - FAT32: mounts establish the geometry; clusters lie in the volume and are
      disjoint; reads return exactly the file's bytes; listing, indexed
      enumeration and lookup agree with one reference scan of the directory,
      whatever the cluster boundaries; long names round-trip; paths resolve as
      the reference does; every buffer is returned.
    - VFS: the longest mount wins and matching is by component; resolution is the
      component walk; mounting and unmounting, creating and destroying leave
      nothing behind; sequential reads through an open file deliver the file; the
      directory cache is invisible.
    - Defects the model exhibits: a cyclic chain never ends, an over-long name
      overruns its field, a partition-relative address near 2^64 passes the
      bounds check, a huge kmalloc request wraps, a mount path over 65,535
      characters is truncated, a thread saved by a reschedule interrupt can
      starve, safe_printk keeps its lock when printing is disabled, an NVMe transfer
      over exactly two pages names its list as the second page, the local
      controller is switched out of x2APIC mode in a way the processor refuses, a
      disk write misses an error in its last sector and sends the flush to a busy
      drive, and a new thread's stack pointer is read from beyond its stack.

    ** Not modelled

    The order of initialisation beyond memory (kernel/main.c, and
    arch/x86_64/init.c but for arch_irq_init) is left to the callers of the
    theorems: each component's theorem starts from the state its predecessors
    establish, but only mem_init, kmalloc_init and arch_irq_init are composed.
    The assembly files are outside the model, as are the effects of printing on
    other components. The boot protocol's structures are parameters of Boot.v;
    limine/ is third-party code (the boot loader's installer and its image), and
    drivers/block/virtio/vblk.h declares a virtio device that no code uses.
    kernel/proc.c, kernel/fb.c, syscall.c and lib/elf64.c are empty. The release
    of a whole node tree (fat32_vfs_unmount) is defined and run on examples,
    without a general theorem. *)

From Stdlib Require Export ZArith Lia.
From stdpp Require Export base tactics strings numbers gmap list.

#[global] Open Scope Z_scope.

(** * Outcomes and the kernel monad *)

(** What a piece of kernel code can do.  [Ok] is a normal return; [Halt] is a
    call of [panic] (kernel/panic.c stops the machine); [Hang] is an endless
    loop, such as [spin_lock] on a lock that the same CPU already holds;
    [Fault] is an access outside the object the C code indexes. *)
Inductive outcome (A : Type) : Type :=
  | Ok (a : A)
  | Halt (msg : string)
  | Hang
  | Fault.
Arguments Ok {A} a.
Arguments Halt {A} msg.
Arguments Hang {A}.
Arguments Fault {A}.

(** State-passing computations over a component state [S]. *)
Definition M (S A : Type) : Type := S → outcome (A * S).

Definition ret {S A} (a : A) : M S A := λ s, Ok (a, s).

Definition bind {S A B} (m : M S A) (k : A → M S B) : M S B :=
  λ s, match m s with
       | Ok (a, s') => k a s'
       | Halt msg => Halt msg
       | Hang => Hang
       | Fault => Fault
       end.

Declare Scope kernel_scope.
Delimit Scope kernel_scope with kernel.
Notation "'let!' x := m 'in' k" := (bind m (λ x, k))
  (at level 10, x pattern, m at level 100, k at level 200,
   format "'[v' 'let!'  x  :=  m  'in' '/' k ']'") : kernel_scope.
Notation "m ;; k" := (bind m (λ _, k))
  (at level 100, k at level 200,
   format "'[v' m ';;' '/' k ']'") : kernel_scope.
#[global] Open Scope kernel_scope.

Definition get {S} : M S S := λ s, Ok (s, s).
Definition put {S} (s : S) : M S unit := λ _, Ok (tt, s).
Definition modify {S} (f : S → S) : M S unit := λ s, Ok (tt, f s).
Definition gets {S A} (f : S → A) : M S A := λ s, Ok (f s, s).
Definition panic {S A} (msg : string) : M S A := λ _, Halt msg.
Definition fault {S A} : M S A := λ _, Fault.

(** [spin_lock] / [spin_lock_irqsave] seen by one CPU: taking a lock that this
    CPU already holds never returns.  [spin_unlock] stores zero unconditionally. *)
Definition acquire {S} (held : S → bool) (set : bool → S → S) : M S unit :=
  λ s, if held s then Hang else Ok (tt, set true s).
Definition release {S} (set : bool → S → S) : M S unit :=
  λ s, Ok (tt, set false s).

(** [for (i = start; n iterations; i += step) body]; a body that returns
    [Some r] leaves the loop (a [break] or a [return]) with [r]. *)
Fixpoint for_loop {S R} (n : nat) (i step : Z) (body : Z → M S (option R))
  : M S (option R) :=
  match n with
  | O => ret None
  | Datatypes.S n' =>
      let! r := body i in
      match r with
      | Some v => ret (Some v)
      | None => for_loop n' (i + step) step body
      end
  end.

(** [for (i = 0; i < n; i++) body]. *)
Fixpoint for_each {S} (n : nat) (i : Z) (body : Z → M S unit) : M S unit :=
  match n with
  | O => ret tt
  | Datatypes.S n' => bind (body i) (λ _, for_each n' (i + 1) body)
  end.

(** Running a computation of one component inside a larger state. *)
Definition zoom {S T A} (view : T → S) (upd : S → T → T) (m : M S A) : M T A :=
  λ t, match m (view t) with
       | Ok (a, s') => Ok (a, upd s' t)
       | Halt msg => Halt msg
       | Hang => Hang
       | Fault => Fault
       end.

(** * Program logic

    [run E m Q s]: started in [s], [m] returns with a result and a state in
    [Q], or panics with a message in [E]; it neither hangs nor faults. *)
Definition run {S A} (E : string → Prop) (m : M S A) (Q : A → S → Prop) (s : S) : Prop :=
  match m s with
  | Ok (a, s') => Q a s'
  | Halt msg => E msg
  | Hang | Fault => False
  end.

Definition never (_ : string) : Prop := False.
Definition any_panic (_ : string) : Prop := True.

(** Total correctness: [m] returns. *)
Abbreviation wp m Q s := (run never m Q s).

Section run_rules.
Context {S : Type}.
Implicit Types (E : string → Prop) (s : S).

Lemma run_ret {A} E (a : A) (Q : A → S → Prop) s : Q a s → run E (ret a) Q s.
Proof. done. Qed.

Lemma run_bind {A B} E (m : M S A) (k : A → M S B) Q s :
  run E m (λ a s', run E (k a) Q s') s → run E (bind m k) Q s.
Proof. unfold run, bind. by destruct (m s) as [[a s']| | |]. Qed.

Lemma run_mono {A} E (m : M S A) (P Q : A → S → Prop) s :
  run E m P s → (∀ a s', P a s' → Q a s') → run E m Q s.
Proof. unfold run. destruct (m s) as [[a s']| | |]; auto. Qed.

Lemma run_weaken {A} (E F : string → Prop) (m : M S A) (P Q : A → S → Prop) s :
  run E m P s → (∀ msg, E msg → F msg) → (∀ a s', P a s' → Q a s') → run F m Q s.
Proof. unfold run. destruct (m s) as [[a s']| | |]; auto. Qed.

Lemma run_Ok {A} E (m : M S A) Q s a s' : run E m Q s → m s = Ok (a, s') → Q a s'.
Proof. unfold run. intros H Hm. by rewrite Hm in H. Qed.

Lemma run_value {A} E (m : M S A) (Q : A → S → Prop) s a s' :
  m s = Ok (a, s') → Q a s' → run E m Q s.
Proof. unfold run. by intros ->. Qed.

Lemma wp_inv {A} (m : M S A) Q s : wp m Q s → ∃ a s', m s = Ok (a, s') ∧ Q a s'.
Proof. unfold run. destruct (m s) as [[a s']| | |]; [|done..]. eauto. Qed.

Lemma run_cases {A} E (m : M S A) Q s :
  run E m Q s → (∃ msg, m s = Halt msg ∧ E msg) ∨ (∃ a s', m s = Ok (a, s') ∧ Q a s').
Proof. unfold run. destruct (m s) as [[a s']| | |]; eauto 6; done. Qed.

Lemma run_modify E f (Q : unit → S → Prop) s : Q tt (f s) → run E (modify f) Q s.
Proof. done. Qed.

Lemma run_gets {A} E (f : S → A) (Q : A → S → Prop) s : Q (f s) s → run E (gets f) Q s.
Proof. done. Qed.

Lemma run_get E (Q : S → S → Prop) s : Q s s → run E get Q s.
Proof. done. Qed.

Lemma run_panic {A} E msg (Q : A → S → Prop) s : E msg → run E (panic msg) Q s.
Proof. done. Qed.

Lemma run_acquire E held set (Q : unit → S → Prop) s :
  held s = false → Q tt (set true s) → run E (acquire held set) Q s.
Proof. unfold run, acquire. by intros ->. Qed.

Lemma run_release E set (Q : unit → S → Prop) s :
  Q tt (set false s) → run E (release set) Q s.
Proof. done. Qed.

(** Loop rule: [I j s] holds before iteration [j] (counted from the start). *)
Lemma run_for_loop {R} E n i step (body : Z → M S (option R)) (I : nat → S → Prop)
    (Q : option R → S → Prop) s :
  I 0%nat s →
  (∀ j s, (j < n)%nat → I j s →
    run E (body (i + Z.of_nat j * step))
      (λ r s', match r with Some _ => Q r s' | None => I (Datatypes.S j) s' end) s) →
  (∀ s, I n s → Q None s) →
  run E (for_loop n i step body) Q s.
Proof.
  revert i I s. induction n as [|n IH]; intros i I s HI Hbody Hend; simpl.
  { by apply Hend. }
  apply run_bind. eapply run_mono.
  { specialize (Hbody 0%nat s). rewrite Z.mul_0_l, Z.add_0_r in Hbody.
    apply Hbody; [lia|done]. }
  intros [r|] s'; simpl; [done|]. intros HI'.
  apply (IH _ (λ j s, I (Datatypes.S j) s)); [done| |done].
  intros j s'' Hj HIj. specialize (Hbody (Datatypes.S j) s'').
  replace (i + step + Z.of_nat j * step) with (i + Z.of_nat (Datatypes.S j) * step) by lia.
  apply Hbody; [lia|done].
Qed.

(** The same for a loop without early exit. *)
Lemma run_for_each E n i (body : Z → M S unit) (I : nat → S → Prop) (Q : unit → S → Prop) s :
  I 0%nat s →
  (∀ j s, (j < n)%nat → I j s → run E (body (i + Z.of_nat j)) (λ _ s', I (Datatypes.S j) s') s) →
  (∀ s, I n s → Q tt s) →
  run E (for_each n i body) Q s.
Proof.
  revert i I s. induction n as [|n IH]; intros i I s HI Hbody Hend; simpl; [by apply Hend|].
  apply run_bind. eapply run_mono.
  { specialize (Hbody 0%nat s). rewrite Z.add_0_r in Hbody. apply Hbody; [lia|done]. }
  intros [] s' HI'. apply (IH _ (λ j s, I (Datatypes.S j) s)); [done| |done].
  intros j s'' Hj HIj. replace (i + 1 + Z.of_nat j) with (i + Z.of_nat (Datatypes.S j)) by lia.
  apply Hbody; [lia|done].
Qed.
End run_rules.

Lemma run_zoom {S T A} E (view : T → S) upd (m : M S A) (Q : A → T → Prop) t :
  run E m (λ a s', Q a (upd s' t)) (view t) → run E (zoom view upd m) Q t.
Proof. unfold run, zoom. by destruct (m (view t)) as [[a s']| | |]. Qed.

(** ** What a computation leaves alone

    [keeps K m]: when [m] returns, the part [K] of the state is as it was. *)
Definition keeps {S A X} (K : S → X) (m : M S A) : Prop := ∀ s a s', m s = Ok (a, s') → K s' = K s.

Section keeps_rules.
Context {S X : Type} (K : S → X).

Lemma keeps_ret {A} (a : A) : keeps K (ret a).
Proof. by intros s a' s' [= _ <-]. Qed.

Lemma keeps_bind {A B} (m : M S A) (k : A → M S B) : keeps K m → (∀ a, keeps K (k a)) → keeps K (bind m k).
Proof.
  intros Hm Hk s b s'. unfold bind. destruct (m s) as [[a s1]| | |] eqn:E; [|done..]. intros H.
  by rewrite (Hk a _ _ _ H), (Hm _ _ _ E).
Qed.

Lemma keeps_modify f : (∀ s, K (f s) = K s) → keeps K (modify f).
Proof. intros Hf s a s' [= _ <-]. apply Hf. Qed.

Lemma keeps_gets {A} (f : S → A) : keeps K (gets f).
Proof. by intros s a s' [= _ <-]. Qed.

Lemma keeps_get : keeps K get.
Proof. by intros s a s' [= _ <-]. Qed.

Lemma keeps_panic {A} msg : keeps K (panic (A := A) msg).
Proof. by intros s a s'. Qed.

Lemma keeps_acquire held set : (∀ b s, K (set b s) = K s) → keeps K (acquire held set).
Proof. intros Hs s a s'. unfold acquire. destruct (held s); [done|]. intros [= _ <-]. apply Hs. Qed.

Lemma keeps_release set : (∀ b s, K (set b s) = K s) → keeps K (release set).
Proof. intros Hs s a s' [= _ <-]. apply Hs. Qed.

Lemma keeps_for_loop {R} n i step (body : Z → M S (option R)) : (∀ x, keeps K (body x)) → keeps K (for_loop n i step body).
Proof.
  intros Hb. revert i. induction n as [|n IH]; intros i; cbn [for_loop]; [apply keeps_ret|].
  apply keeps_bind; [done|]. intros [r|]; [apply keeps_ret|apply IH].
Qed.
End keeps_rules.

Lemma keeps_zoom {S T A X} (L : S → X) (K : T → X) (view : T → S) upd (m : M S A) :
  (∀ t, K t = L (view t)) → (∀ s t, view (upd s t) = s) → keeps L m → keeps K (zoom view upd m).
Proof.
  intros HK Hv Hm t a t'. unfold zoom. destruct (m (view t)) as [[x s]| | |] eqn:E; [|done..]. intros [= _ <-].
  by rewrite !HK, Hv, (Hm _ _ _ E).
Qed.

Lemma run_keeps {S A X} E (m : M S A) (Q : A → S → Prop) (K : S → X) s :
  keeps K m → run E m Q s → run E m (λ a s', Q a s' ∧ K s' = K s) s.
Proof. unfold run, keeps. intros Hk. specialize (Hk s). destruct (m s) as [[a s']| | |]; [|done..]. intros HQ. split; [done|by apply (Hk a)]. Qed.

Create HintDb keeps_db.
#[export] Hint Resolve keeps_ret keeps_gets keeps_get keeps_panic : keeps_db.

(** Goes through the text of a computation; branches by case. *)
Ltac keeps_step :=
  lazymatch goal with
  | |- keeps _ (bind _ _) => apply keeps_bind; [|intros ?]
  | |- keeps _ (modify _) => apply keeps_modify; intros ?
  | |- keeps _ (for_loop _ _ _ _) => apply keeps_for_loop; intros ?
  | |- keeps _ (acquire _ _) => apply keeps_acquire; done
  | |- keeps _ (release _) => apply keeps_release; done
  | |- keeps _ (if ?b then _ else _) => destruct b
  | |- keeps _ (match ?x with _ => _ end) => destruct x
  | |- keeps _ _ => solve [auto with keeps_db]
  end.
Ltac keeps_steps := repeat (cbv beta zeta; keeps_step).

(** ** Concrete runs

    The outcome of a computation on a given state, one part at a time, for examples
    whose final state is too large to write down. *)
Definition is_ok {A} (r : outcome A) : bool := match r with Ok _ => true | _ => false end.
Definition state_after {S A} (m : M S A) (s : S) : S := match m s with Ok (_, s') => s' | _ => s end.
Definition value_of {S A} (m : M S A) (s : S) : option A := match m s with Ok (a, _) => Some a | _ => None end.

(** A run that is seen to return, returns what its specification says. *)
Lemma run_is_ok {S A} E (m : M S A) (Q : A → S → Prop) s :
  run E m Q s → is_ok (m s) = true → ∃ a s', m s = Ok (a, s') ∧ Q a s'.
Proof. unfold run. destruct (m s) as [[a s']| | |]; [eauto|done..]. Qed.

(** One step of symbolic execution of the computation in a [run] goal. *)
Ltac run_step :=
  lazymatch goal with
  | |- run _ (bind _ _) _ _ => apply run_bind
  | |- run _ (ret _) _ _ => apply run_ret
  | |- run _ (modify _) _ _ => apply run_modify
  | |- run _ (gets _) _ _ => apply run_gets
  | |- run _ get _ _ => apply run_get
  | |- run _ (release _) _ _ => apply run_release
  | |- run _ (if _ then _ else _) _ _ => progress cbv iota
  end.
Ltac run_steps := repeat run_step.

(** Deciding a condition that evaluates to a constant. *)
Ltac run_if :=
  lazymatch goal with
  | |- run _ (if ?b then _ else _) _ _ =>
      let v := eval vm_compute in b in
      lazymatch v with
      | true => change b with true
      | false => change b with false
      end; cbv iota
  end.

(** * Machine integers *)

(** [lia] with division and modulo by constants. *)
Ltac dlia := zify; Z.to_euclidean_division_equations; lia.

Definition wrap (w x : Z) : Z := x mod 2 ^ w.
Abbreviation u8 x := (wrap 8 x).
Abbreviation u16 x := (wrap 16 x).
Abbreviation u32 x := (wrap 32 x).
Abbreviation u64 x := (wrap 64 x).
Definition UINT64_MAX : Z := 2 ^ 64 - 1.
Definition in_width (w x : Z) : Prop := 0 ≤ x < 2 ^ w.

Lemma wrap_small w x : in_width w x → wrap w x = x.
Proof. intros. by apply Z.mod_small. Qed.

Lemma wrap_range w x : 0 ≤ w → in_width w (wrap w x).
Proof. intros. apply Z.mod_pos_bound. apply Z.pow_pos_nonneg; lia. Qed.

(** [~x] at width [w]. *)
Definition lnotw (w x : Z) : Z := wrap w (Z.lnot x).

(** The C [align_up]/[align_down] helpers on [uint64_t] (pmm.c, vmalloc.c and
    paging.c each carry a textually identical copy; kmalloc.c's [align_up_sz]
    is the same expression on [size_t]). *)
Definition align_up (value align : Z) : Z :=
  Z.land (u64 (value + align - 1)) (lnotw 64 (align - 1)).
Definition align_down (value align : Z) : Z :=
  Z.land value (lnotw 64 (align - 1)).

(** Clearing the low [k] bits at width 64. *)
Lemma land_clear_low x k :
  in_width 64 x → 0 ≤ k ≤ 64 → Z.land x (lnotw 64 (2 ^ k - 1)) = x - x mod 2 ^ k.
Proof.
  intros Hx Hk. unfold lnotw, wrap, in_width in *.
  assert (x - x mod 2 ^ k = Z.shiftl (Z.shiftr x k) k) as ->.
  { rewrite Z.shiftl_mul_pow2, Z.shiftr_div_pow2 by lia.
    pose proof (Z.div_mod x (2 ^ k)). assert (2 ^ k ≠ 0) by (apply Z.pow_nonzero; lia). lia. }
  assert (2 ^ k - 1 = Z.ones k) as -> by (rewrite Z.ones_equiv; lia).
  apply Z.bits_inj'. intros n Hn.
  rewrite Z.land_spec, Z.shiftl_spec by lia.
  destruct (decide (n < 64)).
  - rewrite Z.mod_pow2_bits_low, Z.lnot_spec by lia.
    destruct (decide (n < k)).
    + rewrite Z.ones_spec_low, (Z.testbit_neg_r _ (n - k)) by lia. by rewrite andb_false_r.
    + rewrite Z.ones_spec_high, Z.shiftr_spec by lia.
      replace (n - k + k) with n by lia. by rewrite andb_true_r.
  - rewrite Z.mod_pow2_bits_high, andb_false_r by lia.
    rewrite Z.shiftr_spec by lia. replace (n - k + k) with n by lia.
    symmetry. apply Z.bits_above_log2; [lia|].
    destruct (decide (x = 0)) as [->|]; [simpl; lia|].
    assert (Z.log2 x < 64); [|lia]. apply Z.log2_lt_pow2; lia.
Qed.

Lemma align_down_pow2 v k :
  in_width 64 v → 0 ≤ k ≤ 64 → align_down v (2 ^ k) = v - v mod 2 ^ k.
Proof. apply land_clear_low. Qed.

Lemma align_up_pow2 v k :
  0 ≤ k ≤ 64 → align_up v (2 ^ k) = u64 (v + 2 ^ k - 1) - u64 (v + 2 ^ k - 1) mod 2 ^ k.
Proof. intros. apply land_clear_low; [|done]. apply wrap_range. lia. Qed.

(** Away from the top of the address space [align_up] is the next multiple;
    inside the last partial block the addition wraps and the result is 0. *)
Lemma align_up_exact v k :
  0 ≤ k ≤ 64 → 0 ≤ v ≤ 2 ^ 64 - 2 ^ k → align_up v (2 ^ k) = (v + 2 ^ k - 1) / 2 ^ k * 2 ^ k.
Proof.
  intros Hk Hv. assert (0 < 2 ^ k) by (apply Z.pow_pos_nonneg; lia).
  rewrite align_up_pow2 by done. rewrite !wrap_small by (unfold in_width; lia).
  pose proof (Z.div_mod (v + 2 ^ k - 1) (2 ^ k)). lia.
Qed.

Lemma align_up_wraps v k :
  0 ≤ k < 64 → 2 ^ 64 - 2 ^ k < v < 2 ^ 64 → align_up v (2 ^ k) = 0.
Proof.
  intros Hk Hv. assert (0 < 2 ^ k) by (apply Z.pow_pos_nonneg; lia).
  assert (2 ^ k < 2 ^ 64) by (apply Z.pow_lt_mono_r; lia).
  rewrite align_up_pow2 by lia.
  assert (u64 (v + 2 ^ k - 1) = v + 2 ^ k - 1 - 2 ^ 64) as ->.
  { unfold wrap. symmetry. apply Z.mod_unique with 1; lia. }
  rewrite Z.mod_small by lia. lia.
Qed.

Lemma align_down_exact v k :
  0 ≤ k ≤ 64 → in_width 64 v → align_down v (2 ^ k) = v / 2 ^ k * 2 ^ k.
Proof.
  intros Hk Hv. assert (0 < 2 ^ k) by (apply Z.pow_pos_nonneg; lia).
  rewrite align_down_pow2 by done. pose proof (Z.div_mod v (2 ^ k)). lia.
Qed.

(** Testing one bit of a word. *)
Lemma land_pow2_testbit x i :
  0 ≤ i → (Z.land x (2 ^ i) =? 0) = negb (Z.testbit x i).
Proof.
  intros Hi. apply eq_true_iff_eq. rewrite Z.eqb_eq, negb_true_iff. split.
  - intros H. assert (Z.testbit (Z.land x (2 ^ i)) i = false) as Hb by (rewrite H; apply Z.bits_0).
    rewrite Z.land_spec, Z.pow2_bits_true, andb_true_r in Hb by lia. done.
  - intros H. apply Z.bits_inj'. intros n Hn. rewrite Z.land_spec, Z.bits_0.
    destruct (decide (n = i)) as [->|]; [by rewrite H|].
    rewrite Z.pow2_bits_false by lia. apply andb_false_r.
Qed.

Lemma land_ones_mod x k : 0 ≤ k → Z.land x (2 ^ k - 1) = x mod 2 ^ k.
Proof.
  intros. replace (2 ^ k - 1) with (Z.ones k) by (rewrite Z.ones_equiv; lia).
  by apply Z.land_ones.
Qed.

(** Bits above the width are clear, and the reverse. *)
Lemma testbit_in_width n v k : in_width n v → 0 ≤ n ≤ k → Z.testbit v k = false.
Proof. intros Hv Hk. rewrite <- (wrap_small n v Hv). apply Z.mod_pow2_bits_high. lia. Qed.

Lemma width_of_bits n x : 0 ≤ n → (∀ k, n ≤ k → Z.testbit x k = false) → in_width n x.
Proof.
  intros Hn H. assert (x = wrap n x) as ->; [|by apply wrap_range]. apply Z.bits_inj'. intros k Hk. unfold wrap.
  destruct (decide (k < n)); [by rewrite Z.mod_pow2_bits_low by lia|]. rewrite Z.mod_pow2_bits_high, H by lia. done.
Qed.

Lemma lor_range n x y : 0 ≤ n → in_width n x → in_width n y → in_width n (Z.lor x y).
Proof.
  intros Hn Hx Hy. apply width_of_bits; [done|]. intros k Hk. by rewrite Z.lor_spec, !(testbit_in_width n) by (done || lia).
Qed.

Lemma land_range n x y : 0 ≤ n → in_width n x → in_width n (Z.land x y).
Proof. intros Hn Hx. apply width_of_bits; [done|]. intros k Hk. by rewrite Z.land_spec, (testbit_in_width n x) by (done || lia). Qed.

Lemma land_field x k n : 0 ≤ k → 0 ≤ n → Z.land (Z.shiftr x k) (2 ^ n - 1) = x / 2 ^ k mod 2 ^ n.
Proof. intros. rewrite land_ones_mod, Z.shiftr_div_pow2 by lia. done. Qed.

Lemma lor_shiftl_add a b n : 0 ≤ n → in_width n a → Z.lor a (Z.shiftl b n) = a + b * 2 ^ n.
Proof.
  intros Hn Ha. assert (Z.land a (Z.shiftl b n) = 0) as Hz.
  { apply Z.bits_inj'. intros k Hk. rewrite Z.land_spec, Z.shiftl_spec, Z.bits_0 by lia. destruct (decide (k < n)).
    - rewrite (Z.testbit_neg_r _ (k - n)) by lia. apply andb_false_r.
    - rewrite <- (wrap_small n a Ha). unfold wrap. by rewrite Z.mod_pow2_bits_high by lia. }
  rewrite <- Z.lxor_lor, <- Z.add_nocarry_lxor by done. by rewrite Z.shiftl_mul_pow2.
Qed.

(** * Counting list elements by a boolean predicate *)

Definition countb {A} (f : A → bool) (l : list A) : nat :=
  foldr (λ x n, if f x then Datatypes.S n else n) 0%nat l.

Lemma countb_ext {A} (f g : A → bool) l :
  (∀ x, x ∈ l → f x = g x) → countb f l = countb g l.
Proof.
  induction l as [|a l IH]; intros H; simpl; [done|].
  rewrite (H a) by set_solver. rewrite IH; [done|]. set_solver.
Qed.

Lemma countb_flip `{EqDecision A} (f g : A → bool) l p :
  NoDup l → p ∈ l → (∀ q, q ∈ l → q ≠ p → g q = f q) → f p = true → g p = false →
  countb f l = Datatypes.S (countb g l).
Proof.
  intros Hnd Hp Hne Hf Hg. induction Hnd as [|a l Ha Hnd IH]; [set_solver|]. simpl.
  destruct (decide (a = p)) as [->|Hap].
  - rewrite Hf, Hg. f_equal. apply countb_ext. intros x Hx. symmetry.
    apply Hne; set_solver.
  - rewrite <- (Hne a) by set_solver. rewrite IH by set_solver. by destruct (g a).
Qed.

Lemma countb_le {A} (f : A → bool) l : (countb f l ≤ length l)%nat.
Proof. induction l as [|a l IH]; simpl; [lia|]. destruct (f a); lia. Qed.

Lemma countb_zero {A} (f : A → bool) l : countb f l = 0%nat ↔ ∀ x, x ∈ l → f x = false.
Proof.
  induction l as [|a l IH]; simpl; [set_solver|].
  destruct (f a) eqn:E; split; try lia.
  - intros H. specialize (H a). rewrite E in H. set_solver.
  - intros H x Hx. apply elem_of_cons in Hx as [->|?]; [done|]. by apply IH.
  - intros H. apply IH. set_solver.
Qed.
