(* ===== verification/Frames.v ===== *)
(** The contract between the page-frame allocator and its clients.

    [FrameAllocator A] is what paging.c, vmalloc.c and nvme.c call: one attempt
    to obtain a frame and the release of a frame.  [FrameAllocatorLaws] is what
    they may rely on, in terms of the set of free frames; the clients' theorems
    are proved from it and the bitmap allocator (Pmm) discharges it. *)

From S2P Require Import Prelude.

Class FrameAllocator (A : Type) : Type := {
  (** [pmm_try_alloc_page_phys(&phys)]: [Some phys] when it returns true. *)
  try_alloc_frame : M A (option Z);
  (** [pmm_free_page_phys(phys)] *)
  free_frame : Z → M A unit;
  (** The allocator's own invariant. *)
  frames_inv : A → Prop;
  (** The frame at this physical address is free. *)
  frame_free : A → Z → Prop;
  (** The address is a frame the allocator manages. *)
  frame_managed : A → Z → Prop
}.

Class FrameAllocatorLaws (A : Type) `{!FrameAllocator A} : Prop := {
  frame_managed_aligned a p : frames_inv a → frame_managed a p → p mod 4096 = 0 ∧ 0 ≤ p < 2 ^ 52;
  frame_free_managed a p : frames_inv a → frame_free a p → frame_managed a p;
  try_alloc_frame_spec a :
    frames_inv a →
    wp try_alloc_frame (λ r a',
      frames_inv a' ∧ (∀ q, frame_managed a' q ↔ frame_managed a q) ∧
      match r with
      | Some p => frame_free a p ∧ ∀ q, frame_free a' q ↔ frame_free a q ∧ q ≠ p
      | None => (∀ q, frame_free a' q ↔ frame_free a q) ∧ ∀ q, ¬ frame_free a q
      end) a;
  free_frame_spec a p :
    frames_inv a → frame_managed a p →
    wp (free_frame p) (λ _ a',
      frames_inv a' ∧ (∀ q, frame_managed a' q ↔ frame_managed a q) ∧
      ∀ q, frame_free a' q ↔ frame_free a q ∨ q = p) a
}.

(** What [paging_init] asks the allocator besides frames: [pmm_ready()] and
    [pmm_get_info()->highest_physical_address]. *)
Class FrameInfo (A : Type) : Type := {
  frames_ready : A → bool;
  frames_highest : A → Z
}.

(** Neither call changes what it says of itself. *)
Class FrameInfoLaws (A : Type) `{!FrameAllocator A, !FrameInfo A} : Prop := {
  try_alloc_frame_keeps : keeps (λ a, (frames_ready a, frames_highest a)) try_alloc_frame;
  free_frame_keeps p : keeps (λ a, (frames_ready a, frames_highest a)) (free_frame p)
}.
