(* ===== verification/Boot.v ===== *)
(** The boot hand-over (boot/boot.h, boot/boot.c): the memory map and
    framebuffer the bootloader reports, the kernel-owned copies [limine_init]
    makes of them, and the link-time layout of the kernel image. *)

From S2P Require Import Prelude.

(** * Memory map (boot.h) *)

(** [MemoryMapType] is the bootloader's number cast to an enum, so any value
    can occur; the named constants are the ones the kernel tests. *)
Definition MEMMAP_USABLE : Z := 0.
Definition MEMMAP_BOOTLOADER_RECLAIMABLE : Z := 5.

Record MemoryMapEntry : Type := mkEntry {
  base : Z;
  length_ : Z;
  type : Z
}.

Record BootMemoryMap : Type := mkMap {
  entries : option (list MemoryMapEntry);
  count : Z
}.

Record BootFramebuffer : Type := mkFb {
  address : Z;
  width : Z;
  height : Z;
  pitch : Z;
  bpp : Z;
  red_mask_size : Z; red_mask_shift : Z;
  green_mask_size : Z; green_mask_shift : Z;
  blue_mask_size : Z; blue_mask_shift : Z
}.

(** The entries [0 .. count-1] that the C loops visit. *)
Definition map_entries (mm : BootMemoryMap) : list MemoryMapEntry :=
  match entries mm with
  | Some es => take (Z.to_nat (count mm)) es
  | None => []
  end.

(** The guard [!memory_map || !memory_map->entries || memory_map->count == 0]
    shared by [pmm_init], [paging_init] and the reclaim pass. *)
Definition map_missing (mm : option BootMemoryMap) : bool :=
  match mm with
  | None => true
  | Some m => match entries m with None => true | Some _ => count m =? 0 end
  end.

(** Exclusive end of a region, saturated when [base + length] wraps. *)
Definition entry_end (e : MemoryMapEntry) : Z :=
  let e_end := u64 (base e + length_ e) in
  if e_end <? base e then UINT64_MAX else e_end.

Definition entry_in_range (e : MemoryMapEntry) : Prop :=
  in_width 64 (base e) ∧ in_width 64 (length_ e).

Lemma entry_end_bounds e :
  entry_in_range e → base e ≤ entry_end e < 2 ^ 64 ∧
    entry_end e = Z.min (base e + length_ e) UINT64_MAX.
Proof.
  intros [Hb Hl]. unfold entry_end, in_width, UINT64_MAX in *.
  destruct (decide (base e + length_ e < 2 ^ 64)).
  - rewrite wrap_small by (unfold in_width; lia).
    destruct (Z.ltb_spec (base e + length_ e) (base e)); lia.
  - assert (u64 (base e + length_ e) = base e + length_ e - 2 ^ 64) as ->.
    { unfold wrap. symmetry. apply Z.mod_unique with 1; lia. }
    destruct (Z.ltb_spec (base e + length_ e - 2 ^ 64) (base e)); lia.
Qed.

(** * Link-time and boot-time constants

    [g_hhdm_offset] is fixed by [limine_init] before any other component runs;
    the [__kernel_*] symbols come from linker.ld. *)
Record kernel_layout : Type := mkLayout {
  g_hhdm_offset : Z;
  kernel_physical_start : Z;
  kernel_physical_end : Z;
  kernel_virtual_start : Z;
  kernel_virtual_end : Z
}.

(** * limine_init (boot.c) *)

Definition BOOT_MEMMAP_MAX_ENTRIES : Z := 512.

(** The bootloader's answers; [None] is a null [response] or entry pointer. *)
Record limine_responses : Type := mkResponses {
  hhdm_response : option Z;
  rsdp_response : option Z;
  mp_response : option Z;
  framebuffer_response : option (list BootFramebuffer);
  memmap_response : option (list (option MemoryMapEntry))
}.

Record boot_state : Type := mkBoot {
  b_hhdm_offset : Z;
  g_rsdp_address : Z;
  g_mp_response : Z;
  g_framebuffer : BootFramebuffer;
  g_memory_map : BootMemoryMap;
  g_memmap_storage : list MemoryMapEntry
}.

Definition zero_fb : BootFramebuffer := mkFb 0 0 0 0 0 0 0 0 0 0 0.
Definition zero_entry : MemoryMapEntry := mkEntry 0 0 0.

(** The statically initialised globals. *)
Definition boot_zero : boot_state :=
  mkBoot 0 0 0 zero_fb (mkMap None 0)
    (replicate (Z.to_nat BOOT_MEMMAP_MAX_ENTRIES) zero_entry).

Definition set_storage (i : Z) (e : MemoryMapEntry) (b : boot_state) : boot_state :=
  mkBoot (b_hhdm_offset b) (g_rsdp_address b) (g_mp_response b) (g_framebuffer b)
    (g_memory_map b) (<[Z.to_nat i := e]> (g_memmap_storage b)).

(** [_halt]: interrupts off, [hlt] forever. *)
Definition boot_halt {A} : M boot_state A := panic "".

Definition copy_memmap (es : list (option MemoryMapEntry)) : M boot_state unit :=
  let! _ := for_loop (length es) 0 1 (λ i,
    match es !! Z.to_nat i with
    | Some (Some e) => modify (set_storage i e);; ret (@None unit)
    | _ => boot_halt
    end) in
  ret tt.

Definition limine_init (req : limine_responses) : M boot_state unit :=
  match hhdm_response req with
  | None => boot_halt
  | Some offset =>
    modify (λ b, mkBoot offset
      (default (g_rsdp_address b) (rsdp_response req))
      (default (g_mp_response b) (mp_response req))
      (g_framebuffer b) (g_memory_map b) (g_memmap_storage b));;
    match framebuffer_response req with
    | None | Some [] => boot_halt
    | Some (fb :: _) =>
      modify (λ b, mkBoot (b_hhdm_offset b) (g_rsdp_address b) (g_mp_response b)
        fb (g_memory_map b) (g_memmap_storage b));;
      match memmap_response req with
      | None => boot_halt
      | Some es =>
        if BOOT_MEMMAP_MAX_ENTRIES <? Z.of_nat (length es) then boot_halt
        else
          copy_memmap es;;
          modify (λ b, mkBoot (b_hhdm_offset b) (g_rsdp_address b) (g_mp_response b)
            (g_framebuffer b)
            (mkMap (Some (g_memmap_storage b)) (Z.of_nat (length es)))
            (g_memmap_storage b))
      end
    end
  end.

(** The copy loop stores the [i]-th reported entry in slot [i]. *)
Lemma copy_memmap_spec es b :
  (length es ≤ length (g_memmap_storage b))%nat →
  run (λ _, None ∈ es) (copy_memmap es)
    (λ _ b', Forall is_Some es ∧
       (∀ i e, es !! i = Some (Some e) → g_memmap_storage b' !! i = Some e) ∧
       length (g_memmap_storage b') = length (g_memmap_storage b) ∧
       b_hhdm_offset b' = b_hhdm_offset b ∧ g_framebuffer b' = g_framebuffer b ∧
       g_rsdp_address b' = g_rsdp_address b) b.
Proof.
  intros Hlen. unfold copy_memmap. run_step.
  apply (run_for_loop _ _ _ _ _ (λ j b',
    (∀ i o, (i < j)%nat → es !! i = Some o → is_Some o) ∧
    (∀ i e, (i < j)%nat → es !! i = Some (Some e) → g_memmap_storage b' !! i = Some e) ∧
    length (g_memmap_storage b') = length (g_memmap_storage b) ∧
    b_hhdm_offset b' = b_hhdm_offset b ∧ g_framebuffer b' = g_framebuffer b ∧
    g_rsdp_address b' = g_rsdp_address b)).
  - repeat split; intros; lia.
  - intros j b' Hj (Hsome & Hcopy & Hl & Hh & Hf & Hr).
    replace (Z.to_nat (0 + Z.of_nat j * 1)) with j by lia.
    destruct (es !! j) as [[e|]|] eqn:Hje.
    + run_steps. simpl. rewrite length_insert.
      replace (Z.to_nat (0 + Z.of_nat j * 1)) with j by lia.
      split_and!; try done.
      * intros i o Hi Hio. destruct (decide (i = j)); [naive_solver|]. eapply Hsome; [|done]. lia.
      * intros i e' Hi Hie. destruct (decide (i = j)) as [->|].
        { rewrite list_lookup_insert_eq by lia. congruence. }
        rewrite list_lookup_insert_ne by done. apply Hcopy; [lia|done].
    + apply run_panic. by eapply list_elem_of_lookup_2.
    + apply lookup_ge_None in Hje. lia.
  - intros b' (Hsome & Hcopy & Hl & Hrest). apply run_ret. split_and!; try tauto.
    + apply Forall_lookup. intros i o Hio. eapply Hsome; [|done]. by eapply lookup_lt_Some.
    + intros i e Hie. apply Hcopy; [by eapply lookup_lt_Some|done].
Qed.
