(* ===== verification/Pmm.v ===== *)
(** The physical memory manager (mm/pmm.h, mm/pmm.c): a bitmap with one bit per
    4 KiB frame (1 = used), the page counters, and a next-fit search hint.

    State: [pmm_state] is the file's static globals.  [bitmap] holds the bytes
    that [g_bitmap] points to; they live in frames that [pmm_init] reserves.
    The lock word is modelled as a flag; every exit of every function below
    shows where the code releases it. *)

From S2P Require Import Prelude Frames Boot.

Definition PMM_PAGE_SIZE : Z := 4096.
Definition PMM_INVALID_PHYS_ADDR : Z := UINT64_MAX.

Record pmm_info_t : Type := mkInfo {
  total_pages : Z;
  free_pages : Z;
  used_pages : Z;
  bitmap_bytes : Z;
  bitmap_phys_base : Z;
  highest_physical_address : Z
}.

Record pmm_state : Type := mkPmm {
  g_bitmap : Z;
  bitmap : list Z;
  g_pmm_info : pmm_info_t;
  g_next_search : Z;
  g_initialized : bool;
  g_pmm_lock : bool
}.

Definition set_bitmap (bs : list Z) (s : pmm_state) : pmm_state :=
  mkPmm (g_bitmap s) bs (g_pmm_info s) (g_next_search s) (g_initialized s) (g_pmm_lock s).
Definition set_counts (free used : Z) (s : pmm_state) : pmm_state :=
  let i := g_pmm_info s in
  mkPmm (g_bitmap s) (bitmap s)
    (mkInfo (total_pages i) free used (bitmap_bytes i) (bitmap_phys_base i)
       (highest_physical_address i))
    (g_next_search s) (g_initialized s) (g_pmm_lock s).
Definition set_next_search (n : Z) (s : pmm_state) : pmm_state :=
  mkPmm (g_bitmap s) (bitmap s) (g_pmm_info s) n (g_initialized s) (g_pmm_lock s).
Definition set_initialized (b : bool) (s : pmm_state) : pmm_state :=
  mkPmm (g_bitmap s) (bitmap s) (g_pmm_info s) (g_next_search s) b (g_pmm_lock s).
Definition set_lock (b : bool) (s : pmm_state) : pmm_state :=
  mkPmm (g_bitmap s) (bitmap s) (g_pmm_info s) (g_next_search s) (g_initialized s) b.

Definition spin_lock : M pmm_state unit := acquire g_pmm_lock set_lock.
Definition spin_unlock : M pmm_state unit := release set_lock.

(** The static globals before [pmm_init]. *)
Definition pmm_zero : pmm_state := mkPmm 0 [] (mkInfo 0 0 0 0 0 0) 0 false false.

(** * Bitmap access *)

Definition byte_at (s : pmm_state) (i : Z) : Z := default 0 (bitmap s !! Z.to_nat i).

Definition bit_test (s : pmm_state) (bit : Z) : bool :=
  negb (Z.land (byte_at s (Z.shiftr bit 3)) (Z.shiftl 1 (Z.land bit 7)) =? 0).

Definition bit_set (bit : Z) (s : pmm_state) : pmm_state :=
  let i := Z.shiftr bit 3 in
  set_bitmap (<[Z.to_nat i := u8 (Z.lor (byte_at s i) (u8 (Z.shiftl 1 (Z.land bit 7))))]> (bitmap s)) s.

Definition bit_clear (bit : Z) (s : pmm_state) : pmm_state :=
  let i := Z.shiftr bit 3 in
  set_bitmap (<[Z.to_nat i := u8 (Z.land (byte_at s i) (u8 (Z.lnot (Z.shiftl 1 (Z.land bit 7)))))]> (bitmap s)) s.

Definition phys_to_page (phys_addr : Z) : Z := phys_addr / PMM_PAGE_SIZE.

Definition mark_page_used (page : Z) (s : pmm_state) : pmm_state :=
  let i := g_pmm_info s in
  if page >=? total_pages i then s
  else if negb (bit_test s page) then
    set_counts (u64 (free_pages i - 1)) (u64 (used_pages i + 1)) (bit_set page s)
  else s.

Definition mark_page_free (page : Z) (s : pmm_state) : pmm_state :=
  let i := g_pmm_info s in
  if page >=? total_pages i then s
  else if bit_test s page then
    set_counts (u64 (free_pages i + 1)) (u64 (used_pages i - 1)) (bit_clear page s)
  else s.

(** [for (page = a; page < b; page++) f(page)] *)
Definition for_pages (a b : Z) (f : Z → pmm_state → pmm_state) (s : pmm_state) : pmm_state :=
  foldl (λ s page, f page s) s (seqZ a (b - a)).

Definition mark_range_free (start_phys end_phys : Z) (s : pmm_state) : pmm_state :=
  if end_phys <=? start_phys then s
  else
    let page_start := phys_to_page (align_up start_phys PMM_PAGE_SIZE) in
    let page_end := phys_to_page (align_down end_phys PMM_PAGE_SIZE) in
    let total := total_pages (g_pmm_info s) in
    let page_end := if page_end >? total then total else page_end in
    for_pages page_start page_end mark_page_free s.

Definition mark_range_used (start_phys end_phys : Z) (s : pmm_state) : pmm_state :=
  if end_phys <=? start_phys then s
  else
    let page_start := phys_to_page (align_down start_phys PMM_PAGE_SIZE) in
    let page_end := phys_to_page (align_up end_phys PMM_PAGE_SIZE) in
    let total := total_pages (g_pmm_info s) in
    let page_end := if page_end >? total then total else page_end in
    for_pages page_start page_end mark_page_used s.

(** * Initialisation *)

Definition max_physical_end (memory_map : BootMemoryMap) : Z :=
  foldl (λ max_end e, let e_end := entry_end e in
           if e_end >? max_end then e_end else max_end) 0 (map_entries memory_map).

Fixpoint find_region (es : list MemoryMapEntry) (bitmap_span_bytes : Z) : option Z :=
  match es with
  | [] => None
  | e :: es' =>
      if negb (type e =? MEMMAP_USABLE) then find_region es' bitmap_span_bytes
      else
        let region_start := align_up (base e) PMM_PAGE_SIZE in
        let region_end := align_down (entry_end e) PMM_PAGE_SIZE in
        if region_end <? region_start then find_region es' bitmap_span_bytes
        else if region_end - region_start >=? bitmap_span_bytes then Some region_start
        else find_region es' bitmap_span_bytes
  end.

Definition find_bitmap_region (memory_map : BootMemoryMap) (bitmap_size : Z) : option Z :=
  find_region (map_entries memory_map) (align_up bitmap_size PMM_PAGE_SIZE).

(** The pass over the usable entries. *)
Definition free_usable (es : list MemoryMapEntry) (s : pmm_state) : pmm_state :=
  foldl (λ s e, if type e =? MEMMAP_USABLE then mark_range_free (base e) (entry_end e) s else s)
    s es.

Section WithLayout.
Context (lay : kernel_layout).

Definition pmm_phys_to_virt (phys_addr : Z) : Z := u64 (phys_addr + g_hhdm_offset lay).
Definition pmm_virt_to_phys (virt_addr : Z) : Z := u64 (virt_addr - g_hhdm_offset lay).

Definition pmm_init (memory_map : option BootMemoryMap) : M pmm_state unit :=
  match memory_map with
  | Some mm =>
    if map_missing memory_map then panic "PMM init failed: invalid memory map"
    else
      spin_lock;;
      let highest_phys := max_physical_end mm in
      let total := align_up highest_phys PMM_PAGE_SIZE / PMM_PAGE_SIZE in
      if total =? 0 then panic "PMM init failed: no physical memory pages detected"
      else
        let nbytes := align_up total 8 / 8 in
        match find_bitmap_region mm nbytes with
        | None => panic "PMM init failed: no space for bitmap"
        | Some bitmap_phys =>
          modify (λ s, mkPmm (pmm_phys_to_virt bitmap_phys) (bitmap s)
            (mkInfo total 0 total nbytes bitmap_phys highest_phys) 0
            (g_initialized s) (g_pmm_lock s));;
          modify (set_bitmap (replicate (Z.to_nat nbytes) 255));;
          modify (free_usable (map_entries mm));;
          modify (mark_range_used bitmap_phys
                    (u64 (bitmap_phys + align_up nbytes PMM_PAGE_SIZE)));;
          modify (mark_range_used (kernel_physical_start lay) (kernel_physical_end lay));;
          modify (mark_page_used 0);;
          let! i := gets g_pmm_info in
          if negb (u64 (free_pages i + used_pages i) =? total_pages i)
          then panic "PMM init failed: page accounting mismatch"
          else
            modify (set_next_search (if total_pages i >? 1 then 1 else 0));;
            modify (set_initialized true);;
            spin_unlock
        end
  | None => panic "PMM init failed: invalid memory map"
  end.

Definition pmm_ready (s : pmm_state) : bool := g_initialized s.

(** * Allocation and release *)

(** The out parameter is a cell: [None] is a null pointer, [Some v] a location
    that holds [v].  The result pairs the return value with the cell. *)
Definition pmm_try_alloc_page_phys (out_phys_addr : option Z) : M pmm_state (bool * option Z) :=
  match out_phys_addr with
  | None => ret (false, None)
  | Some _ =>
    spin_lock;;
    let! s := get in
    let total := total_pages (g_pmm_info s) in
    if negb (g_initialized s) || (free_pages (g_pmm_info s) =? 0) || (total =? 0)
    then spin_unlock;; ret (false, Some PMM_INVALID_PHYS_ADDR)
    else
      let start := if g_next_search s >=? total then 0 else g_next_search s in
      let! found := for_loop (Z.to_nat total) 0 1 (λ scanned,
        let page := u64 (start + scanned) in
        let page := if page >=? total then page - total else page in
        let! s := get in
        if negb (bit_test s page) then
          modify (mark_page_used page);;
          modify (set_next_search
            (let next := u64 (page + 1) in if next >=? total then 0 else next));;
          ret (Some (u64 (page * PMM_PAGE_SIZE)))
        else ret None) in
      spin_unlock;;
      ret (match found with
           | Some phys => (true, Some phys)
           | None => (false, Some PMM_INVALID_PHYS_ADDR)
           end)
  end.

Definition pmm_alloc_page_phys : M pmm_state Z :=
  let! r := pmm_try_alloc_page_phys (Some PMM_INVALID_PHYS_ADDR) in
  match r with
  | (true, Some phys_addr) => ret phys_addr
  | _ => ret PMM_INVALID_PHYS_ADDR
  end.

(** Returns 0 (a null pointer) on failure. *)
Definition pmm_alloc_page : M pmm_state Z :=
  let! r := pmm_try_alloc_page_phys (Some PMM_INVALID_PHYS_ADDR) in
  match r with
  | (true, Some phys_addr) => ret (pmm_phys_to_virt phys_addr)
  | _ => ret 0
  end.

Definition pmm_free_page_phys (phys_addr : Z) : M pmm_state unit :=
  spin_lock;;
  let! s := get in
  if negb (g_initialized s) then spin_unlock
  else if negb (Z.land phys_addr (PMM_PAGE_SIZE - 1) =? 0) then spin_unlock
  else
    let page := phys_to_page phys_addr in
    if page >=? total_pages (g_pmm_info s) then spin_unlock
    else
      (if bit_test s page then
         modify (mark_page_free page);;
         (if page <? g_next_search s then modify (set_next_search page) else ret tt)
       else ret tt);;
      spin_unlock.

Definition pmm_free_page (virt_addr : Z) : M pmm_state unit :=
  if virt_addr =? 0 then ret tt
  else pmm_free_page_phys (pmm_virt_to_phys virt_addr).

Definition pmm_get_info (s : pmm_state) : pmm_info_t := g_pmm_info s.

End WithLayout.


#[global] Arguments pmm_try_alloc_page_phys : simpl never.
#[global] Arguments pmm_free_page_phys : simpl never.

(** * The invariant *)

Definition pages (s : pmm_state) : list Z := seqZ 0 (total_pages (g_pmm_info s)).
Definition free_count (s : pmm_state) : Z :=
  Z.of_nat (countb (λ p, negb (bit_test s p)) (pages s)).

(** The bitmap has a bit for every page and the counters count its bits. *)
Record pmm_core (s : pmm_state) : Prop := {
  core_total : 0 < total_pages (g_pmm_info s) < 2 ^ 52;
  core_len : Z.of_nat (length (bitmap s)) * 8 >= total_pages (g_pmm_info s);
  core_free : free_pages (g_pmm_info s) = free_count s;
  core_used : used_pages (g_pmm_info s) = total_pages (g_pmm_info s) - free_count s
}.

Record pmm_inv (s : pmm_state) : Prop := {
  inv_core : pmm_core s;
  inv_next : 0 ≤ g_next_search s < total_pages (g_pmm_info s);
  inv_initialized : g_initialized s = true;
  inv_unlocked : g_pmm_lock s = false
}.

(** Two states that differ in the bitmap and the counters only. *)
Definition same_config (s s' : pmm_state) : Prop :=
  g_bitmap s' = g_bitmap s ∧
  total_pages (g_pmm_info s') = total_pages (g_pmm_info s) ∧
  bitmap_bytes (g_pmm_info s') = bitmap_bytes (g_pmm_info s) ∧
  bitmap_phys_base (g_pmm_info s') = bitmap_phys_base (g_pmm_info s) ∧
  highest_physical_address (g_pmm_info s') = highest_physical_address (g_pmm_info s) ∧
  g_next_search s' = g_next_search s ∧
  g_initialized s' = g_initialized s ∧
  g_pmm_lock s' = g_pmm_lock s ∧
  length (bitmap s') = length (bitmap s).

#[export] Instance same_config_preorder : PreOrder same_config.
Proof. split; [repeat split|]. intros ???; unfold same_config; intuition congruence. Qed.

(** ** Bits *)

Lemma bit_test_testbit s p :
  0 ≤ p → bit_test s p = Z.testbit (byte_at s (p / 8)) (p mod 8).
Proof.
  intros Hp. unfold bit_test. rewrite Z.shiftr_div_pow2 by lia.
  change 7 with (2 ^ 3 - 1). rewrite land_ones_mod, Z.shiftl_1_l by lia.
  rewrite land_pow2_testbit by (apply Z.mod_pos_bound; lia). by rewrite negb_involutive.
Qed.

Lemma byte_at_insert s i j v :
  0 ≤ i → 0 ≤ j → i < Z.of_nat (length (bitmap s)) →
  byte_at (set_bitmap (<[Z.to_nat i := v]> (bitmap s)) s) j = if decide (j = i) then v else byte_at s j.
Proof.
  intros. unfold byte_at; simpl. case_decide as Hji.
  - subst. by rewrite list_lookup_insert_eq by lia.
  - rewrite list_lookup_insert_ne; [done|]. lia.
Qed.

Lemma bit_set_test s p q :
  0 ≤ p → 0 ≤ q → p < Z.of_nat (length (bitmap s)) * 8 →
  bit_test (bit_set p s) q = (q =? p) || bit_test s q.
Proof.
  intros Hp Hq Hlen. rewrite !bit_test_testbit by done. unfold bit_set.
  rewrite Z.shiftr_div_pow2 by lia. change (2 ^ 3) with 8.
  change 7 with (2 ^ 3 - 1). rewrite land_ones_mod by lia. change (2 ^ 3) with 8.
  rewrite byte_at_insert by dlia.
  pose proof (Z.mod_pos_bound p 8 ltac:(lia)). pose proof (Z.mod_pos_bound q 8 ltac:(lia)).
  case_decide as Hd.
  - unfold wrap. rewrite Z.mod_pow2_bits_low, Z.lor_spec by lia.
    rewrite Z.mod_pow2_bits_low, Z.shiftl_1_l by lia. rewrite Hd.
    destruct (Z.eqb_spec q p) as [->|Hqp].
    + rewrite Z.pow2_bits_true by lia. by rewrite orb_true_r.
    + rewrite Z.pow2_bits_false by dlia. by rewrite orb_false_r.
  - destruct (Z.eqb_spec q p); [congruence|done].
Qed.

Lemma bit_clear_test s p q :
  0 ≤ p → 0 ≤ q → p < Z.of_nat (length (bitmap s)) * 8 →
  bit_test (bit_clear p s) q = negb (q =? p) && bit_test s q.
Proof.
  intros Hp Hq Hlen. rewrite !bit_test_testbit by done. unfold bit_clear.
  rewrite Z.shiftr_div_pow2 by lia. change (2 ^ 3) with 8.
  change 7 with (2 ^ 3 - 1). rewrite land_ones_mod by lia. change (2 ^ 3) with 8.
  rewrite byte_at_insert by dlia.
  pose proof (Z.mod_pos_bound p 8 ltac:(lia)). pose proof (Z.mod_pos_bound q 8 ltac:(lia)).
  case_decide as Hd.
  - unfold wrap. rewrite Z.mod_pow2_bits_low, Z.land_spec by lia.
    rewrite Z.mod_pow2_bits_low, Z.lnot_spec, Z.shiftl_1_l by lia. rewrite Hd.
    destruct (Z.eqb_spec q p) as [->|Hqp].
    + rewrite Z.pow2_bits_true by lia. by rewrite andb_false_r.
    + rewrite Z.pow2_bits_false by dlia. by rewrite andb_true_r.
  - destruct (Z.eqb_spec q p); [congruence|done].
Qed.

(** ** Marking pages *)

Lemma elem_of_pages s p : p ∈ pages s ↔ 0 ≤ p < total_pages (g_pmm_info s).
Proof. unfold pages. rewrite elem_of_seqZ. lia. Qed.

Lemma free_count_bounds s : 0 < total_pages (g_pmm_info s) → 0 ≤ free_count s ≤ total_pages (g_pmm_info s).
Proof.
  intros. unfold free_count. pose proof (countb_le (λ p, negb (bit_test s p)) (pages s)) as Hle.
  unfold pages in *. rewrite length_seqZ in Hle. lia.
Qed.

(** [f p] makes bit [p] equal to [v], keeps the counters exact and changes
    nothing else. *)
Definition marks (f : Z → pmm_state → pmm_state) (v : bool) : Prop :=
  ∀ s p, pmm_core s → 0 ≤ p →
    pmm_core (f p s) ∧ same_config s (f p s) ∧
    (∀ q, 0 ≤ q < total_pages (g_pmm_info s) →
       bit_test (f p s) q = if q =? p then v else bit_test s q).

Lemma free_count_flip s s' p :
  0 ≤ p < total_pages (g_pmm_info s) → total_pages (g_pmm_info s') = total_pages (g_pmm_info s) →
  bit_test s p = false → bit_test s' p = true →
  (∀ q, 0 ≤ q < total_pages (g_pmm_info s) → q ≠ p → bit_test s' q = bit_test s q) →
  free_count s = free_count s' + 1.
Proof.
  intros Hp Ht Hb Hb' Hq. unfold free_count, pages. rewrite Ht.
  rewrite (countb_flip _ (λ q, negb (bit_test s' q)) _ p); [lia|..].
  - apply NoDup_seqZ.
  - by apply elem_of_pages.
  - intros q Hin Hqp. apply elem_of_pages in Hin. by rewrite Hq.
  - by rewrite Hb.
  - by rewrite Hb'.
Qed.

Lemma mark_page_used_marks : marks mark_page_used true.
Proof.
  intros s p [Ht Hl Hf Hu] Hp. unfold mark_page_used.
  destruct (Z.geb_spec p (total_pages (g_pmm_info s))).
  { split_and!; [done|reflexivity|]. intros q Hq. destruct (Z.eqb_spec q p); [lia|done]. }
  destruct (bit_test s p) eqn:Hb; simpl.
  { split_and!; [done|reflexivity|]. intros q Hq. destruct (Z.eqb_spec q p); naive_solver. }
  assert (∀ q, 0 ≤ q → bit_test (bit_set p s) q = (q =? p) || bit_test s q) as Hset.
  { intros. apply bit_set_test; lia. }
  assert (free_count s = free_count (bit_set p s) + 1) as Hcnt.
  { apply (free_count_flip _ _ p); simpl; try done; try lia.
    - by rewrite Hset, Z.eqb_refl.
    - intros q Hq Hqp. rewrite Hset by lia. by destruct (Z.eqb_spec q p). }
  pose proof (free_count_bounds s ltac:(lia)).
  pose proof (free_count_bounds (bit_set p s) ltac:(simpl; lia)).
  split_and!.
  - split; simpl; [done|by rewrite length_insert|..];
      rewrite wrap_small by (unfold in_width; lia);
      change (free_count (set_counts _ _ (bit_set p s))) with (free_count (bit_set p s)); lia.
  - repeat split; simpl. apply length_insert.
  - intros q Hq. change (bit_test (set_counts _ _ ?t) q) with (bit_test t q).
    rewrite Hset by lia. by destruct (q =? p).
Qed.

Lemma mark_page_free_marks : marks mark_page_free false.
Proof.
  intros s p [Ht Hl Hf Hu] Hp. unfold mark_page_free.
  destruct (Z.geb_spec p (total_pages (g_pmm_info s))).
  { split_and!; [done|reflexivity|]. intros q Hq. destruct (Z.eqb_spec q p); [lia|done]. }
  destruct (bit_test s p) eqn:Hb; simpl.
  2: { split_and!; [done|reflexivity|]. intros q Hq. destruct (Z.eqb_spec q p); naive_solver. }
  assert (∀ q, 0 ≤ q → bit_test (bit_clear p s) q = negb (q =? p) && bit_test s q) as Hclr.
  { intros. apply bit_clear_test; lia. }
  assert (free_count (bit_clear p s) = free_count s + 1) as Hcnt.
  { apply (free_count_flip _ _ p); simpl; try done; try lia.
    - by rewrite Hclr, Z.eqb_refl.
    - intros q Hq Hqp. rewrite Hclr by lia. by destruct (Z.eqb_spec q p). }
  pose proof (free_count_bounds s ltac:(lia)).
  pose proof (free_count_bounds (bit_clear p s) ltac:(simpl; lia)).
  split_and!.
  - split; simpl; [done|by rewrite length_insert|..];
      rewrite wrap_small by (unfold in_width; simpl in *; lia);
      change (free_count (set_counts _ _ (bit_clear p s))) with (free_count (bit_clear p s));
      simpl in *; lia.
  - repeat split; simpl. apply length_insert.
  - intros q Hq. change (bit_test (set_counts _ _ ?t) q) with (bit_test t q).
    rewrite Hclr by lia. by destruct (q =? p).
Qed.

Lemma for_pages_marks f v s a b :
  marks f v → pmm_core s → 0 ≤ a →
  pmm_core (for_pages a b f s) ∧ same_config s (for_pages a b f s) ∧
  (∀ q, 0 ≤ q < total_pages (g_pmm_info s) →
     bit_test (for_pages a b f s) q = if (a <=? q) && (q <? b) then v else bit_test s q).
Proof.
  intros Hm. unfold for_pages. remember (Z.to_nat (b - a)) as n eqn:Hn.
  revert s a Hn. induction n as [|n IH]; intros s a Hn Hc Ha.
  - rewrite seqZ_nil by lia. simpl. split_and!; [done|reflexivity|].
    intros q Hq. destruct (Z.leb_spec a q), (Z.ltb_spec q b); simpl; lia || done.
  - rewrite seqZ_cons by lia. simpl.
    destruct (Hm s a Hc Ha) as (Hc1 & Hs1 & Hb1).
    replace (Z.pred (b - a)) with (b - Z.succ a) by lia.
    destruct (IH (f a s) (Z.succ a)) as (Hc2 & Hs2 & Hb2); [lia|done|lia|].
    split_and!; [done|by etrans|]. intros q Hq.
    pose proof Hs1 as (_ & Ht1 & _). rewrite Hb2 by lia. rewrite Hb1 by lia.
    destruct (Z.leb_spec (Z.succ a) q), (Z.ltb_spec q b), (Z.leb_spec a q),
      (Z.eqb_spec q a); simpl; lia || done.
Qed.

(** ** Byte ranges *)

(** Page [p] lies inside / overlaps the byte range [start, end). *)
Definition page_within (p start_phys end_phys : Z) : Prop :=
  start_phys ≤ p * PMM_PAGE_SIZE ∧ p * PMM_PAGE_SIZE + PMM_PAGE_SIZE ≤ end_phys.
Definition page_touches (p start_phys end_phys : Z) : Prop :=
  start_phys < p * PMM_PAGE_SIZE + PMM_PAGE_SIZE ∧ p * PMM_PAGE_SIZE < end_phys.

#[export] Instance page_within_dec p a b : Decision (page_within p a b).
Proof. unfold page_within. apply _. Defined.
#[export] Instance page_touches_dec p a b : Decision (page_touches p a b ∧ a < b).
Proof. unfold page_touches. apply _. Defined.

Lemma align_up_page v :
  0 ≤ v ≤ 2 ^ 64 - 4096 → align_up v PMM_PAGE_SIZE = (v + 4095) / 4096 * 4096.
Proof.
  intros. change PMM_PAGE_SIZE with (2 ^ 12). rewrite align_up_exact by lia.
  change (2 ^ 12) with 4096. f_equal. f_equal. lia.
Qed.
Lemma align_up_page_wraps v : 2 ^ 64 - 4096 < v < 2 ^ 64 → align_up v PMM_PAGE_SIZE = 0.
Proof. intros. apply (align_up_wraps v 12); lia. Qed.
Lemma align_down_page v : in_width 64 v → align_down v PMM_PAGE_SIZE = v / 4096 * 4096.
Proof. intros. apply (align_down_exact v 12); [lia|done]. Qed.

Lemma mark_range_free_spec s a b :
  pmm_core s → 0 ≤ a → 0 ≤ b ≤ 2 ^ 64 - 4096 →
  pmm_core (mark_range_free a b s) ∧ same_config s (mark_range_free a b s) ∧
  (∀ q, 0 ≤ q < total_pages (g_pmm_info s) →
     bit_test (mark_range_free a b s) q = if decide (page_within q a b) then false else bit_test s q).
Proof.
  intros Hc Ha Hb. unfold mark_range_free. destruct (Z.leb_spec b a).
  { split_and!; [done|reflexivity|]. intros q Hq.
    case_decide as Hw; [|done]. unfold page_within, PMM_PAGE_SIZE in Hw. lia. }
  rewrite align_up_page, align_down_page by (unfold in_width; lia). unfold phys_to_page.
  change PMM_PAGE_SIZE with 4096. rewrite !Z.div_mul by lia.
  edestruct (for_pages_marks mark_page_free false s ((a + 4095) / 4096)) as (H1 & H2 & H3);
    [apply mark_page_free_marks|done|dlia|].
  split_and!; [exact H1|exact H2|]. intros q Hq. rewrite H3 by done.
  case_decide as Hw; unfold page_within, PMM_PAGE_SIZE in Hw;
    destruct (Z.gtb_spec (b / 4096) (total_pages (g_pmm_info s)));
    destruct (Z.leb_spec ((a + 4095) / 4096) q); simpl; try done; try dlia;
    match goal with |- context [?x <? ?y] => destruct (Z.ltb_spec x y) end; try done; dlia.
Qed.

Lemma mark_range_used_spec s a b :
  pmm_core s → 0 ≤ a < 2 ^ 64 → 0 ≤ b ≤ 2 ^ 64 - 4096 →
  pmm_core (mark_range_used a b s) ∧ same_config s (mark_range_used a b s) ∧
  (∀ q, 0 ≤ q < total_pages (g_pmm_info s) →
     bit_test (mark_range_used a b s) q =
       if decide (page_touches q a b ∧ a < b) then true else bit_test s q).
Proof.
  intros Hc Ha Hb. unfold mark_range_used. destruct (Z.leb_spec b a).
  { split_and!; [done|reflexivity|]. intros q Hq. case_decide as Hw; [lia|done]. }
  rewrite align_up_page, align_down_page by (unfold in_width; lia). unfold phys_to_page.
  change PMM_PAGE_SIZE with 4096. rewrite !Z.div_mul by lia.
  edestruct (for_pages_marks mark_page_used true s (a / 4096)) as (H1 & H2 & H3);
    [apply mark_page_used_marks|done|dlia|].
  split_and!; [exact H1|exact H2|]. intros q Hq. rewrite H3 by done.
  case_decide as Hw; unfold page_touches, PMM_PAGE_SIZE in Hw;
    destruct (Z.gtb_spec ((b + 4095) / 4096) (total_pages (g_pmm_info s)));
    destruct (Z.leb_spec (a / 4096) q); simpl; try done; try dlia;
    match goal with |- context [?x <? ?y] => destruct (Z.ltb_spec x y) end; try done; dlia.
Qed.

(** ** The passes of [pmm_init] *)

Definition usable_covers (es : list MemoryMapEntry) (p : Z) : Prop :=
  ∃ e, e ∈ es ∧ type e = MEMMAP_USABLE ∧ page_within p (base e) (entry_end e).

Definition ends_below (es : list MemoryMapEntry) : Prop :=
  ∀ e, e ∈ es → entry_in_range e ∧ entry_end e ≤ 2 ^ 64 - 4096.

Lemma usable_covers_cons e es p :
  usable_covers (e :: es) p ↔
    (type e = MEMMAP_USABLE ∧ page_within p (base e) (entry_end e)) ∨ usable_covers es p.
Proof.
  unfold usable_covers. split.
  - intros (e' & [->|H]%elem_of_cons & Ht & Hw); [by left|right; eauto].
  - intros [[Ht Hw]|(e' & H & Hw)]; [exists e|exists e']; rewrite elem_of_cons; auto.
Qed.

Lemma free_usable_spec es s :
  pmm_core s → ends_below es →
  pmm_core (free_usable es s) ∧ same_config s (free_usable es s) ∧
  (∀ q, 0 ≤ q < total_pages (g_pmm_info s) →
     bit_test (free_usable es s) q = false ↔ usable_covers es q ∨ bit_test s q = false).
Proof.
  revert s. induction es as [|e es IH]; intros s Hc Hes.
  { split_and!; [done|reflexivity|]. intros q Hq. split; [by right|].
    intros [(e & He & _)|?]; [by apply not_elem_of_nil in He|done]. }
  assert (ends_below es) as Hes' by (intros e' He'; apply Hes; set_solver).
  destruct (Hes e) as [[Hb Hl] Hend]; [set_solver|].
  pose proof (entry_end_bounds e (conj Hb Hl)) as [Hend' _]. unfold in_width in *.
  unfold free_usable in *. simpl.
  destruct (Z.eqb_spec (type e) MEMMAP_USABLE) as [Ht|Ht].
  - destruct (mark_range_free_spec s (base e) (entry_end e)) as (H1 & H2 & H3); [done|lia|lia|].
    destruct (IH _ H1 Hes') as (G1 & G2 & G3). split_and!; [done|by etrans|].
    intros q Hq. destruct H2 as (_ & Htot & _). rewrite G3, H3, usable_covers_cons by lia.
    case_decide; intuition.
  - destruct (IH s Hc Hes') as (G1 & G2 & G3). split_and!; [done|done|].
    intros q Hq. rewrite G3, usable_covers_cons by done. intuition.
Qed.

Lemma max_physical_end_spec mm :
  Forall entry_in_range (map_entries mm) →
  in_width 64 (max_physical_end mm) ∧
  ∀ e, e ∈ map_entries mm → entry_end e ≤ max_physical_end mm.
Proof.
  intros Hes. unfold max_physical_end.
  assert (∀ es m, Forall entry_in_range es → in_width 64 m →
    let r := foldl (λ max_end e, let e_end := entry_end e in
               if e_end >? max_end then e_end else max_end) m es in
    in_width 64 r ∧ m ≤ r ∧ ∀ e, e ∈ es → entry_end e ≤ r) as Hgen.
  { clear. intros es. induction es as [|e es IH]; intros m Hes Hm; simpl.
    { split_and!; [done|lia|]. intros e He. by apply not_elem_of_nil in He. }
    apply Forall_cons in Hes as [He Hes].
    pose proof (entry_end_bounds e He) as [Hend _]. destruct He as [Hb _]. unfold in_width in *.
    edestruct (IH (if entry_end e >? m then entry_end e else m)) as (H1 & H2 & H3); [done| |].
    { destruct (Z.gtb_spec (entry_end e) m); lia. }
    split_and!; [lia|lia| |].
    - destruct (Z.gtb_spec (entry_end e) m); lia.
    - intros e' [->|He']%elem_of_cons; [|by apply H3].
      destruct (Z.gtb_spec (entry_end e) m); lia. }
  destruct (Hgen (map_entries mm) 0) as (H1 & _ & H3); [done| |by split].
  unfold in_width; lia.
Qed.

Lemma total_pages_exact h :
  in_width 64 h → align_up h PMM_PAGE_SIZE / PMM_PAGE_SIZE ≠ 0 →
  0 < h ≤ 2 ^ 64 - 4096 ∧ align_up h PMM_PAGE_SIZE / PMM_PAGE_SIZE = (h + 4095) / 4096.
Proof.
  unfold in_width. intros Hh Hne.
  destruct (decide (h ≤ 2 ^ 64 - 4096)).
  - rewrite align_up_page in * by lia. change PMM_PAGE_SIZE with 4096 in *.
    rewrite Z.div_mul in * by lia. split; [|done]. dlia.
  - rewrite align_up_page_wraps in Hne by lia. done.
Qed.

Lemma find_region_spec es span r :
  find_region es span = Some r → Forall entry_in_range es → ends_below es → 0 ≤ span →
  0 ≤ r ∧ r mod 4096 = 0 ∧ r + span ≤ 2 ^ 64 - 4096 ∧
  ∃ e, e ∈ es ∧ type e = MEMMAP_USABLE ∧ base e ≤ r ∧ r + span ≤ entry_end e.
Proof.
  induction es as [|e es IH]; intros Hf Hes Hends Hspan; simpl in Hf; [done|].
  apply Forall_cons in Hes as [He Hes].
  assert (ends_below es) as Hends' by (intros e' He'; apply Hends; set_solver).
  destruct (Hends e) as [_ Hend]; [set_solver|].
  pose proof (entry_end_bounds e He) as [Hend' _]. destruct He as [Hb _]. unfold in_width in *.
  assert (find_region es span = Some r → 0 ≤ r ∧ r mod 4096 = 0 ∧ r + span ≤ 2 ^ 64 - 4096 ∧
    ∃ e', e' ∈ e :: es ∧ type e' = MEMMAP_USABLE ∧ base e' ≤ r ∧ r + span ≤ entry_end e') as Hrec.
  { intros H. destruct (IH H Hes Hends' Hspan) as (?&?&?&e'&He'&?).
    split_and!; try done. exists e'. rewrite elem_of_cons. auto. }
  destruct (Z.eqb_spec (type e) MEMMAP_USABLE) as [Ht|]; simpl in Hf; [|auto].
  rewrite align_up_page, align_down_page in Hf by (unfold in_width; lia).
  destruct (Z.ltb_spec (entry_end e / 4096 * 4096) ((base e + 4095) / 4096 * 4096)); [auto|].
  destruct (Z.geb_spec (entry_end e / 4096 * 4096 - (base e + 4095) / 4096 * 4096) span); [|auto].
  injection Hf as <-. split_and!; [dlia|by rewrite Z.mod_mul|dlia|].
  exists e. rewrite elem_of_cons. split_and!; [by left|done|dlia|dlia].
Qed.

(** ** The state right after the bitmap is filled with ones *)

Lemma all_ones_core ptr total nbytes basep h nxt ini lk :
  0 < total < 2 ^ 52 → nbytes * 8 >= total →
  let s := mkPmm ptr (replicate (Z.to_nat nbytes) 255)
             (mkInfo total 0 total nbytes basep h) nxt ini lk in
  pmm_core s ∧ ∀ q, 0 ≤ q < total → bit_test s q = true.
Proof.
  intros Ht Hn s.
  assert (∀ q, 0 ≤ q < total → bit_test s q = true) as Hb.
  { intros q Hq. rewrite bit_test_testbit by lia. unfold byte_at, s; simpl.
    rewrite lookup_replicate_2 by dlia. simpl. change 255 with (Z.ones 8).
    apply Z.ones_spec_low. dlia. }
  assert (free_count s = 0) as Hcount.
  { unfold free_count. rewrite (proj2 (countb_zero _ _)); [done|].
    intros q Hq%elem_of_pages. simpl in Hq. by rewrite Hb. }
  split; [|done]. split; rewrite ?Hcount; simpl; try lia.
  rewrite length_replicate. lia.
Qed.

(** ** [pmm_init] *)

Definition layout_ok (lay : kernel_layout) : Prop :=
  0 ≤ kernel_physical_start lay < 2 ^ 64 ∧ 0 ≤ kernel_physical_end lay ≤ 2 ^ 64 - 4096.

(** When [pmm_init] panics, and with which message. *)
Definition init_panics (mm : BootMemoryMap) (msg : string) : Prop :=
  let total := align_up (max_physical_end mm) PMM_PAGE_SIZE / PMM_PAGE_SIZE in
  (msg = "PMM init failed: invalid memory map"%string ∧ map_missing (Some mm) = true) ∨
  (msg = "PMM init failed: no physical memory pages detected"%string ∧ total = 0) ∨
  (msg = "PMM init failed: no space for bitmap"%string ∧
     find_bitmap_region mm (align_up total 8 / 8) = None).

(** A frame is free: it exists and its bit is clear. *)
Definition page_free (s : pmm_state) (p : Z) : Prop :=
  0 ≤ p < total_pages (g_pmm_info s) ∧ bit_test s p = false.

(** The byte range the bitmap occupies, rounded to pages. *)
Definition bitmap_end (s : pmm_state) : Z :=
  bitmap_phys_base (g_pmm_info s) + align_up (bitmap_bytes (g_pmm_info s)) PMM_PAGE_SIZE.

(** The frames that are free right after initialisation. *)
Definition initially_free (lay : kernel_layout) (mm : BootMemoryMap) (s : pmm_state) (p : Z) : Prop :=
  0 ≤ p < total_pages (g_pmm_info s) ∧ usable_covers (map_entries mm) p ∧ p ≠ 0 ∧
  ¬ (page_touches p (kernel_physical_start lay) (kernel_physical_end lay) ∧
     kernel_physical_start lay < kernel_physical_end lay) ∧
  ¬ page_touches p (bitmap_phys_base (g_pmm_info s)) (bitmap_end s).

Lemma bitmap_size_exact total :
  0 < total < 2 ^ 52 →
  align_up total 8 / 8 = (total + 7) / 8 ∧
  align_up (align_up total 8 / 8) PMM_PAGE_SIZE = ((total + 7) / 8 + 4095) / 4096 * 4096.
Proof.
  intros Ht. assert (align_up total 8 / 8 = (total + 7) / 8) as ->.
  { pose proof (align_up_exact total 3) as E. change (2 ^ 3) with 8 in E.
    rewrite E, Z.div_mul by lia. f_equal. lia. }
  split; [done|]. apply align_up_page. dlia.
Qed.

Lemma if_decide_false_iff (P : Prop) `{Decision P} (b : bool) :
  (if decide P then true else b) = false ↔ ¬ P ∧ b = false.
Proof. case_decide; intuition congruence. Qed.

(** The three reserving passes after the usable regions were freed. *)
Lemma reserve_passes lay s a b :
  pmm_core s → layout_ok lay → 0 ≤ a < 2 ^ 64 → a < b ≤ 2 ^ 64 - 4096 →
  let s' := mark_page_used 0
    (mark_range_used (kernel_physical_start lay) (kernel_physical_end lay)
       (mark_range_used a b s)) in
  pmm_core s' ∧ same_config s s' ∧
  (∀ p, page_free s' p ↔ page_free s p ∧ p ≠ 0 ∧ ¬ page_touches p a b ∧
     ¬ (page_touches p (kernel_physical_start lay) (kernel_physical_end lay) ∧
        kernel_physical_start lay < kernel_physical_end lay)).
Proof.
  intros Hc [Hk1 Hk2] Ha Hb. cbv zeta.
  destruct (mark_range_used_spec s a b) as (C1 & S1 & B1); [done|lia|lia|].
  destruct (mark_range_used_spec _ (kernel_physical_start lay) (kernel_physical_end lay) C1)
    as (C2 & S2 & B2); [lia|lia|].
  destruct (mark_page_used_marks _ 0 C2) as (C3 & S3 & B3); [lia|].
  split_and!; [done|by repeat (etrans; [eassumption|])|].
  pose proof S1 as (_ & T1 & _). pose proof S2 as (_ & T2 & _). pose proof S3 as (_ & T3 & _).
  intros p. unfold page_free. rewrite T3, T2, T1.
  assert (0 ≤ p < total_pages (g_pmm_info s) → bit_test
     (mark_page_used 0 (mark_range_used (kernel_physical_start lay) (kernel_physical_end lay)
        (mark_range_used a b s))) p = false ↔
     p ≠ 0 ∧ ¬ (page_touches p (kernel_physical_start lay) (kernel_physical_end lay) ∧
        kernel_physical_start lay < kernel_physical_end lay) ∧
     ¬ (page_touches p a b ∧ a < b) ∧ bit_test s p = false) as Hiff.
  { intros Hp. rewrite B3, B2, B1 by lia. rewrite <- !if_decide_false_iff.
    by destruct (Z.eqb_spec p 0), (decide (p = 0)). }
  assert (¬ (page_touches p a b ∧ a < b) ↔ ¬ page_touches p a b) by intuition lia.
  intuition.
Qed.

(** The state after all marking passes, from the all-ones bitmap [s0]. *)
Lemma init_passes lay mm s0 bp span :
  pmm_core s0 → layout_ok lay → ends_below (map_entries mm) →
  (∀ q, 0 ≤ q < total_pages (g_pmm_info s0) → bit_test s0 q = true) →
  0 ≤ bp → 0 < span → bp + span ≤ 2 ^ 64 - 4096 →
  bitmap_phys_base (g_pmm_info s0) = bp →
  align_up (bitmap_bytes (g_pmm_info s0)) PMM_PAGE_SIZE = span →
  let s2 := mark_page_used 0
    (mark_range_used (kernel_physical_start lay) (kernel_physical_end lay)
       (mark_range_used bp (u64 (bp + span)) (free_usable (map_entries mm) s0))) in
  pmm_core s2 ∧ same_config s0 s2 ∧ ∀ p, page_free s2 p ↔ initially_free lay mm s2 p.
Proof.
  intros C0 Hlay Hends B0 Hbp Hspan Hfit Ebp Espan. cbv zeta.
  destruct (free_usable_spec (map_entries mm) s0 C0 Hends) as (C1 & S1 & B1).
  rewrite (wrap_small 64 (bp + _)) by (unfold in_width; lia).
  destruct (reserve_passes lay _ bp (bp + span) C1 Hlay) as (C2 & S2 & B2); [lia|lia|].
  set (s2 := mark_page_used 0 _) in *.
  assert (same_config s0 s2) as S02 by (by etrans).
  split_and!; [done|done|]. intros p. rewrite B2. unfold initially_free, bitmap_end.
  pose proof S02 as (_ & -> & -> & -> & _). rewrite Ebp, Espan.
  unfold page_free. pose proof S1 as (_ & -> & _). split.
  - intros ((Hp & Hf) & ? & ? & ?). apply B1 in Hf as [|Hf]; [done| |done].
    rewrite B0 in Hf; done.
  - intros (Hp & ? & ? & ? & ?). rewrite B1 by done. intuition.
Qed.

(** [pmm_init] on any memory map with 64-bit fields: it panics only for a
    missing map, a map without pages, or a map with no room for the bitmap
    (the accounting check never fires); otherwise it returns with the lock
    released, exact counters, and exactly those frames free that lie wholly in
    a usable region and are not frame 0, kernel image or bitmap frames. *)
Lemma pmm_init_spec lay mm s :
  Forall entry_in_range (map_entries mm) → layout_ok lay → g_pmm_lock s = false →
  run (init_panics mm) (pmm_init lay (Some mm))
    (λ _ s', pmm_inv s' ∧
       total_pages (g_pmm_info s') = (max_physical_end mm + 4095) / 4096 ∧
       highest_physical_address (g_pmm_info s') = max_physical_end mm ∧
       ∀ p, page_free s' p ↔ initially_free lay mm s' p) s.
Proof.
  intros Hes Hlay Hlk. unfold pmm_init.
  destruct (map_missing (Some mm)) eqn:Hmiss; [apply run_panic; by left|].
  run_step. apply run_acquire; [done|].
  set (h := max_physical_end mm). set (total := align_up h PMM_PAGE_SIZE / PMM_PAGE_SIZE).
  destruct (Z.eqb_spec total 0) as [H0|H0]; [apply run_panic; by right; left|].
  destruct (find_bitmap_region mm (align_up total 8 / 8)) as [bp|] eqn:Hfind;
    [|apply run_panic; by right; right].
  destruct (max_physical_end_spec mm Hes) as [Hh Hmax]. fold h in Hh, Hmax.
  destruct (total_pages_exact h Hh H0) as [Hh' Htot]. fold total in Htot.
  assert (0 < total < 2 ^ 52) as Ht by (rewrite Htot; dlia).
  destruct (bitmap_size_exact total Ht) as [Hnb Hspan].
  assert (ends_below (map_entries mm)) as Hends.
  { intros e He. split; [by apply (proj1 (Forall_forall _ _) Hes)|]. specialize (Hmax e He). lia. }
  destruct (find_region_spec _ _ _ Hfind Hes Hends) as (Hbp0 & Hbpm & Hbpe & _);
    [rewrite Hspan; dlia|].
  assert (0 < align_up (align_up total 8 / 8) PMM_PAGE_SIZE) as Hspos by (rewrite Hspan; dlia).
  run_steps. simpl. set (s0 := set_bitmap _ _).
  destruct (all_ones_core (pmm_phys_to_virt lay bp) total (align_up total 8 / 8) bp h 0
    (g_initialized s) true Ht ltac:(rewrite Hnb; dlia)) as [C0 B0].
  destruct (init_passes lay mm s0 bp _ C0 Hlay Hends B0 Hbp0 Hspos Hbpe eq_refl eq_refl)
    as (C2 & S2 & F2).
  set (s2 := mark_page_used 0 _) in *.
  pose proof S2 as (_ & T2 & _). simpl in T2. pose proof C2 as [_ _ K3 K4].
  assert (free_pages (g_pmm_info s2) + used_pages (g_pmm_info s2) = total) as -> by lia.
  rewrite wrap_small, T2, Z.eqb_refl by (unfold in_width; lia). simpl.
  run_steps. split_and!.
  - split; simpl; [by split; destruct C2|rewrite T2; destruct (Z.gtb_spec total 1); lia|done|done].
  - by rewrite <- Htot.
  - destruct S2 as (_ & _ & _ & _ & E & _). exact E.
  - exact F2.
Qed.

(** ** Allocation *)

(** The [k]-th page of the cyclic scan from [start]. *)
Lemma scan_page start k total :
  0 ≤ start < total → 0 ≤ k < total → total < 2 ^ 52 →
  (if u64 (start + k) >=? total then u64 (start + k) - total else u64 (start + k))
    = (start + k) mod total.
Proof.
  intros. rewrite wrap_small by (unfold in_width; lia).
  destruct (Z.geb_spec (start + k) total).
  - apply Z.mod_unique with 1; lia.
  - symmetry. apply Z.mod_small. lia.
Qed.

Lemma scan_of_distance start total p :
  0 ≤ p < total → (start + (p - start) mod total) mod total = p.
Proof.
  intros. rewrite Z.add_mod_idemp_r by lia. replace (start + (p - start)) with p by lia.
  apply Z.mod_small. lia.
Qed.

Lemma distance_of_scan start total k :
  0 ≤ k < total → ((start + k) mod total - start) mod total = k.
Proof.
  intros. rewrite Zminus_mod_idemp_l. replace (start + k - start) with k by lia.
  apply Z.mod_small. lia.
Qed.

Lemma free_count_pos s : pmm_core s → free_pages (g_pmm_info s) ≠ 0 → ∃ p, page_free s p.
Proof.
  intros [Ht Hl Hf Hu] Hne. destruct (decide (Exists (λ p, bit_test s p = false) (pages s))) as [He|Hn].
  - apply Exists_exists in He as (p & Hp%elem_of_pages & Hb). by exists p.
  - exfalso. apply Hne. rewrite Hf. unfold free_count. rewrite (proj2 (countb_zero _ _)); [done|].
    intros p Hp. destruct (bit_test s p) eqn:E; [done|]. destruct Hn.
    apply Exists_exists. by exists p.
Qed.

Lemma no_free_count s : pmm_core s → free_pages (g_pmm_info s) = 0 → ∀ p, ¬ page_free s p.
Proof.
  intros [Ht Hl Hf Hu] H0 p [Hp Hb]. rewrite Hf in H0. unfold free_count in H0.
  assert (countb (λ p, negb (bit_test s p)) (pages s) = 0%nat) as Hc by lia.
  apply elem_of_pages in Hp. pose proof (proj1 (countb_zero _ _) Hc p Hp) as H.
  cbn in H. by rewrite Hb in H.
Qed.

(** [mark_page_used] then the hint update, on a free page. *)
Lemma take_page_spec s p n :
  pmm_inv s → page_free s p → 0 ≤ n < total_pages (g_pmm_info s) →
  let s' := set_next_search n (mark_page_used p s) in
  pmm_inv s' ∧ total_pages (g_pmm_info s') = total_pages (g_pmm_info s) ∧
  ∀ q, page_free s' q ↔ page_free s q ∧ q ≠ p.
Proof.
  intros [C Hn Hi Hl] [Hp Hb] Hnn. cbv zeta.
  destruct (mark_page_used_marks s p C) as (C1 & S1 & B1); [lia|].
  pose proof S1 as (_ & T1 & _ & _ & _ & _ & I1 & L1 & _).
  split_and!.
  - split; simpl; [by destruct C1; split|by rewrite T1|by rewrite I1|by rewrite L1].
  - done.
  - intros q. unfold page_free; simpl. rewrite T1.
    change (bit_test (set_next_search n ?t) q) with (bit_test t q). split.
    + intros [Hq Hqb]. rewrite B1 in Hqb by done. by destruct (Z.eqb_spec q p).
    + intros [[Hq Hqb] Hqp]. split; [done|]. rewrite B1 by done. by destruct (Z.eqb_spec q p).
Qed.

(** The set of free pages, the configuration and the invariant do not depend
    on the lock word. *)
Lemma pmm_inv_relock s : pmm_inv s → pmm_inv (set_lock false (set_lock true s)).
Proof. intros [[C1 C2 C3 C4] H2 H3 H4]. by split; simpl; [split|..]. Qed.

Lemma mark_page_used_lock b p s :
  mark_page_used p (set_lock b s) = set_lock b (mark_page_used p s).
Proof.
  unfold mark_page_used; simpl. change (bit_test (set_lock b s) p) with (bit_test s p).
  by destruct (p >=? _), (bit_test s p).
Qed.

Lemma mark_page_free_lock b p s :
  mark_page_free p (set_lock b s) = set_lock b (mark_page_free p s).
Proof.
  unfold mark_page_free; simpl. change (bit_test (set_lock b s) p) with (bit_test s p).
  by destruct (p >=? _), (bit_test s p).
Qed.

(** The distance of page [p] from the search hint, going up and wrapping. *)
Definition scan_distance (s : pmm_state) (p : Z) : Z :=
  (p - g_next_search s) mod total_pages (g_pmm_info s).

(** Next-fit allocation.  From a state in the invariant
    [pmm_try_alloc_page_phys] returns (no hang, no panic), keeps the invariant
    and releases the lock.  It returns true exactly when a frame is free; the
    frame returned is then the free one nearest above the search hint
    (cyclically), only that frame changes status, and the caller's cell holds
    its page-aligned address.  On failure the cell holds the invalid marker
    and the allocator is unchanged. *)
Lemma pmm_try_alloc_spec s v :
  pmm_inv s →
  wp (pmm_try_alloc_page_phys (Some v)) (λ r s',
    pmm_inv s' ∧ total_pages (g_pmm_info s') = total_pages (g_pmm_info s) ∧
    ((∃ p, r = (true, Some (p * PMM_PAGE_SIZE)) ∧ page_free s p ∧
        (∀ q, page_free s q → scan_distance s p ≤ scan_distance s q) ∧
        ∀ q, page_free s' q ↔ page_free s q ∧ q ≠ p)
     ∨ (r = (false, Some PMM_INVALID_PHYS_ADDR) ∧ (∀ q, ¬ page_free s q) ∧ s' = s))) s.
Proof.
  intros Hinv. pose proof Hinv as [C [Hn Hn'] Hi Hl]. pose proof C as [Ht _ _ _].
  set (total := total_pages (g_pmm_info s)) in *.
  unfold pmm_try_alloc_page_phys. run_step. apply run_acquire; [done|]. run_steps. simpl.
  fold total. rewrite Hi. simpl.
  destruct (Z.eqb_spec (free_pages (g_pmm_info s)) 0) as [H0|H0]; simpl.
  { run_steps. split_and!; [by apply pmm_inv_relock|done|]. right.
    split_and!; [done|by apply no_free_count|]. destruct s; simpl in *; by subst. }
  destruct (Z.eqb_spec total 0); [lia|].
  destruct (Z.geb_spec (g_next_search s) total); [lia|]. run_step.
  destruct (free_count_pos s C H0) as (p0 & Hp0 & Hb0).
  eapply (run_for_loop _ _ _ _ _ (λ j s', s' = set_lock true s ∧
    ∀ i, 0 ≤ i < Z.of_nat j → bit_test s ((g_next_search s + i) mod total) = true)).
  - split; [done|]. intros; lia.
  - intros j s' Hj [-> Hused]. replace (0 + Z.of_nat j * 1) with (Z.of_nat j) by lia.
    cbv zeta. rewrite (scan_page (g_next_search s) (Z.of_nat j) total) by lia.
    set (p := (g_next_search s + Z.of_nat j) mod total).
    assert (0 ≤ p < total) as Hp by (apply Z.mod_pos_bound; lia).
    run_steps. change (bit_test (set_lock true s) p) with (bit_test s p).
    destruct (bit_test s p) eqn:Hb; simpl.
    { run_steps. split; [done|]. intros i Hi'.
      destruct (decide (i = Z.of_nat j)) as [->|]; [done|]. apply Hused. lia. }
    run_steps. rewrite !wrap_small by (unfold in_width, PMM_PAGE_SIZE; lia).
    assert (0 ≤ (if p + 1 >=? total then 0 else p + 1) < total) as Hnext.
    { destruct (Z.geb_spec (p + 1) total); lia. }
    destruct (take_page_spec s p _ Hinv (conj Hp Hb) Hnext) as (I1 & T1 & F1).
    rewrite mark_page_used_lock.
    split_and!; [|exact T1|left; exists p; split_and!; [done|done| |exact F1]].
    { destruct I1 as [[] ? ? ?]. by split; [split|..]. }
    intros q [Hq Hqb]. unfold scan_distance. fold total.
    unfold p. rewrite distance_of_scan by lia.
    apply Z.nlt_ge. intros Hlt. pose proof (Z.mod_pos_bound (q - g_next_search s) total) as Hk.
    specialize (Hused _ (conj (proj1 (Hk ltac:(lia))) Hlt)).
    by rewrite scan_of_distance, Hqb in Hused by done.
  - intros s' [-> Hused]. exfalso.
    specialize (Hused ((p0 - g_next_search s) mod total)).
    rewrite scan_of_distance, Hb0 in Hused by done. discriminate Hused.
    pose proof (Z.mod_pos_bound (p0 - g_next_search s) total). lia.
Qed.

(** ** Release *)

(** The addresses [pmm_free_page_phys] acts on: page-aligned, in range. *)
Definition managed (s : pmm_state) (phys : Z) : Prop :=
  phys mod PMM_PAGE_SIZE = 0 ∧ 0 ≤ phys / PMM_PAGE_SIZE < total_pages (g_pmm_info s).
#[export] Instance managed_dec s phys : Decision (managed s phys).
Proof. unfold managed. apply _. Defined.

Lemma mark_page_free_next p s :
  set_next_search (g_next_search s) (mark_page_free p s) = mark_page_free p s.
Proof. unfold mark_page_free. by destruct (p >=? _), (bit_test s p), s. Qed.

Lemma release_page_spec s p n :
  pmm_inv s → 0 ≤ p < total_pages (g_pmm_info s) → 0 ≤ n < total_pages (g_pmm_info s) →
  let s' := set_next_search n (mark_page_free p s) in
  pmm_inv s' ∧ total_pages (g_pmm_info s') = total_pages (g_pmm_info s) ∧
  ∀ q, page_free s' q ↔ page_free s q ∨ q = p.
Proof.
  intros [C Hn Hi Hl] Hp Hnn. cbv zeta.
  destruct (mark_page_free_marks s p C) as (C1 & S1 & B1); [lia|].
  pose proof S1 as (_ & T1 & _ & _ & _ & _ & I1 & L1 & _).
  split_and!.
  - split; simpl; [by destruct C1; split|by rewrite T1|by rewrite I1|by rewrite L1].
  - done.
  - intros q. unfold page_free; simpl. rewrite T1.
    change (bit_test (set_next_search n ?t) q) with (bit_test t q). split.
    + intros [Hq Hqb]. rewrite B1 in Hqb by done. destruct (Z.eqb_spec q p); auto.
    + intros [[Hq Hqb] | ->]; (split; [done|]); rewrite B1 by done;
        [by destruct (Z.eqb_spec q p)|by rewrite Z.eqb_refl].
Qed.

(** [pmm_free_page_phys] always returns with the lock released and the
    invariant kept.  A page-aligned address of an existing frame becomes free
    and no other frame changes (freeing a free frame changes nothing); an
    unaligned or out-of-range address leaves the allocator unchanged. *)
Lemma pmm_free_spec s phys :
  pmm_inv s → in_width 64 phys →
  wp (pmm_free_page_phys phys) (λ _ s',
    pmm_inv s' ∧ total_pages (g_pmm_info s') = total_pages (g_pmm_info s) ∧
    if decide (managed s phys)
    then ∀ q, page_free s' q ↔ page_free s q ∨ q = phys / PMM_PAGE_SIZE
    else s' = s) s.
Proof.
  intros Hinv Hphys. pose proof Hinv as [C Hn Hi Hl].
  assert (set_lock false (set_lock true s) = s) as Hsame by (destruct s; simpl in *; by subst).
  unfold pmm_free_page_phys. run_step. apply run_acquire; [done|]. run_steps. simpl.
  rewrite Hi. simpl. change (PMM_PAGE_SIZE - 1) with (2 ^ 12 - 1). rewrite land_ones_mod by lia.
  unfold phys_to_page. change (2 ^ 12) with PMM_PAGE_SIZE.
  destruct (Z.eqb_spec (phys mod PMM_PAGE_SIZE) 0) as [Ha|Ha]; simpl.
  2: { apply run_release. rewrite Hsame, decide_False by (by intros [? _]). done. }
  destruct (Z.geb_spec (phys / PMM_PAGE_SIZE) (total_pages (g_pmm_info s))).
  { apply run_release. rewrite Hsame, decide_False by (intros [_ ?]; lia). done. }
  set (p := phys / PMM_PAGE_SIZE) in *.
  assert (0 ≤ p) by (apply Z.div_pos; unfold PMM_PAGE_SIZE, in_width in *; lia).
  destruct (decide (managed s phys)) as [_|Hno]; [|destruct Hno; split; [done|lia]].
  change (bit_test (set_lock true s) p) with (bit_test s p). run_step.
  destruct (bit_test s p) eqn:Hb; simpl.
  2: { run_steps. apply run_release. rewrite Hsame. split_and!; [done|done|]. intros q. split; [by left|].
       intros [?| ->]; [done|]. split; [lia|done]. }
  run_step. apply run_modify. rewrite mark_page_free_lock.
  destruct (release_page_spec s p (if p <? g_next_search s then p else g_next_search s) Hinv)
    as (I1 & T1 & F1); [lia|by destruct (Z.ltb_spec p (g_next_search s)); lia|].
  destruct (p <? g_next_search s); [|rewrite mark_page_free_next in *]; run_steps; apply run_release;
    (split_and!; [destruct I1 as [[] ? ? ?]; by split; [split|..]|exact T1|exact F1]).
Qed.

(** ** The allocator as an implementation of the frame contract *)

(** Physical addresses have at most 52 bits on x86-64, so a machine has at
    most [2^40] frames; page-table entries cannot name a frame beyond that. *)
#[export] Instance pmm_frames : FrameAllocator pmm_state := {
  try_alloc_frame :=
    let! r := pmm_try_alloc_page_phys (Some PMM_INVALID_PHYS_ADDR) in
    ret (match r with (true, cell) => cell | _ => None end);
  free_frame := pmm_free_page_phys;
  frames_inv s := pmm_inv s ∧ total_pages (g_pmm_info s) ≤ 2 ^ 40;
  frame_free s phys := phys mod PMM_PAGE_SIZE = 0 ∧ page_free s (phys / PMM_PAGE_SIZE);
  frame_managed s phys := managed s phys
}.

#[export] Instance pmm_frames_laws : FrameAllocatorLaws pmm_state.
Proof.
  split.
  - intros s p [_ Ht] [Ha Hp]. unfold PMM_PAGE_SIZE in *. split; [done|]. dlia.
  - intros s p [_ Ht] [Ha [Hp _]]. done.
  - intros s [Hinv Ht]. simpl. apply run_bind. eapply run_mono; [by apply pmm_try_alloc_spec|].
    intros r s' (I1 & T1 & Hr). apply run_ret. unfold managed. rewrite T1.
    split_and!; [done..|]. destruct Hr as [(p & -> & Hp & _ & F)|(-> & Hno & ->)].
    + rewrite Z.mod_mul, Z.div_mul by done. split; [done|]. intros q. rewrite F. split.
      * intros (Hq & Hf & Hne). split; [done|]. intros ->. by rewrite Z.div_mul in Hne.
      * intros ((Hq & Hf) & Hne). split_and!; [done..|]. intros <-. apply Hne.
        unfold PMM_PAGE_SIZE in *. dlia.
    + split; [done|]. intros q [_ Hq]. by apply (Hno _ Hq).
  - intros s p [Hinv Ht] [Ha Hp]. eapply run_mono.
    { apply pmm_free_spec; [done|]. unfold in_width, PMM_PAGE_SIZE in *. dlia. }
    intros [] s' (I1 & T1 & F). rewrite decide_True in F by done. simpl. unfold managed.
    rewrite T1. split_and!; [done..|]. intros q. rewrite F. split.
    + intros (Hq & [?|Heq]); [by left|right]. unfold PMM_PAGE_SIZE in *. dlia.
    + intros [[Hq Hf]| ->]; [|by auto]. split; [done|by left].
Qed.

#[export] Instance pmm_frame_info : FrameInfo pmm_state := {
  frames_ready := pmm_ready;
  frames_highest s := highest_physical_address (pmm_get_info s)
}.

Definition pmm_config (s : pmm_state) : bool * Z := (g_initialized s, highest_physical_address (g_pmm_info s)).

Lemma mark_page_config p s :
  pmm_config (mark_page_used p s) = pmm_config s ∧ pmm_config (mark_page_free p s) = pmm_config s.
Proof. unfold mark_page_used, mark_page_free. by destruct (p >=? _), (bit_test s p). Qed.

#[export] Instance pmm_frame_info_laws : FrameInfoLaws pmm_state.
Proof.
  assert (∀ v, keeps pmm_config (pmm_try_alloc_page_phys v)) as Ha.
  { intros v. unfold pmm_try_alloc_page_phys, spin_lock, spin_unlock. keeps_steps; try done. apply mark_page_config. }
  assert (∀ p, keeps pmm_config (pmm_free_page_phys p)) as Hf.
  { intros p. unfold pmm_free_page_phys, spin_lock, spin_unlock. keeps_steps; try done. apply mark_page_config. }
  split; [|exact Hf]. change (keeps pmm_config (try_alloc_frame (A := pmm_state))). cbn [try_alloc_frame pmm_frames]. by keeps_steps.
Qed.

(** ** Clients of the allocator

    One client transition: an allocation that succeeds (the frame joins the
    list of frames in use), one that fails, or the release of a frame in use. *)
Inductive client_step : pmm_state * list Z → pmm_state * list Z → Prop :=
  | client_alloc s s' out v phys :
      pmm_try_alloc_page_phys (Some v) s = Ok ((true, Some phys), s') →
      client_step (s, out) (s', phys :: out)
  | client_alloc_fails s s' out v cell :
      pmm_try_alloc_page_phys (Some v) s = Ok ((false, cell), s') →
      client_step (s, out) (s', out)
  | client_free s s' out1 phys out2 :
      pmm_free_page_phys phys s = Ok (tt, s') →
      client_step (s, out1 ++ phys :: out2) (s', out1 ++ out2).

(** What holds between the start state [s0] and a state reached with the
    frames [out] in use. *)
Definition client_inv (s0 : pmm_state) (c : pmm_state * list Z) : Prop :=
  let (s, out) := c in
  pmm_inv s ∧ total_pages (g_pmm_info s) = total_pages (g_pmm_info s0) ∧ NoDup out ∧
  (∀ phys, phys ∈ out → phys mod PMM_PAGE_SIZE = 0 ∧ page_free s0 (phys / PMM_PAGE_SIZE)) ∧
  (∀ q, page_free s q ↔ page_free s0 q ∧ q * PMM_PAGE_SIZE ∉ out).

Lemma aligned_div_mul phys : phys mod PMM_PAGE_SIZE = 0 → phys / PMM_PAGE_SIZE * PMM_PAGE_SIZE = phys.
Proof. unfold PMM_PAGE_SIZE. dlia. Qed.

Lemma client_alloc_inv s0 s s' out v r :
  client_inv s0 (s, out) → pmm_try_alloc_page_phys (Some v) s = Ok (r, s') →
  (∃ phys, r = (true, Some phys) ∧ client_inv s0 (s', phys :: out)) ∨
  (fst r = false ∧ client_inv s0 (s', out)).
Proof.
  intros (Hinv & Ht & Hnd & Hout & Hf) Hrun.
  pose proof (run_Ok _ _ _ _ _ _ (pmm_try_alloc_spec s v Hinv) Hrun) as (I' & T' & Hr).
  destruct Hr as [(p & -> & Hp & _ & F)|(-> & _ & ->)]; [left|right; split; done].
  apply Hf in Hp as [Hp Hpout]. eexists; split; [done|].
  split_and!; [done|congruence|by constructor| |].
  - intros phys [->|?]%elem_of_cons; [|by apply Hout]. by rewrite Z.mod_mul, Z.div_mul.
  - intros q. rewrite F, Hf, not_elem_of_cons. unfold PMM_PAGE_SIZE.
    split; [intros ((?&?)&?)|intros (?&?&?)]; split_and!; try done; intros ?; lia.
Qed.

Lemma client_free_inv s0 s s' out1 phys out2 :
  client_inv s0 (s, out1 ++ phys :: out2) → pmm_free_page_phys phys s = Ok (tt, s') →
  client_inv s0 (s', out1 ++ out2).
Proof.
  intros (Hinv & Ht & Hnd & Hout & Hf) Hrun.
  destruct (Hout phys) as [Ha [Hp0 Hb0]]; [set_solver|].
  assert (in_width 64 phys) as Hw.
  { pose proof Hinv as [[? _ _ _] _ _ _]. rewrite <- Ht in Hp0.
    unfold in_width, PMM_PAGE_SIZE in *. dlia. }
  pose proof (run_Ok _ _ _ _ _ _ (pmm_free_spec s phys Hinv Hw) Hrun) as (I' & T' & F).
  rewrite decide_True in F by (split; [done|by rewrite Ht]).
  rewrite <- Permutation_middle in Hnd. apply NoDup_cons in Hnd as [Hnot Hnd].
  split_and!; [done|congruence|done| |].
  - intros q Hq. apply Hout. set_solver.
  - intros q. rewrite F, Hf. rewrite <- (aligned_div_mul phys Ha) at 1. split.
    + intros [[? Hq]| ->]; [split; [done|set_solver]|].
      split; [done|]. by rewrite aligned_div_mul.
    + intros [Hq Hn]. destruct (decide (q = phys / PMM_PAGE_SIZE)) as [->|Hne]; [by right|left].
      split; [done|]. rewrite <- Permutation_middle, not_elem_of_cons. split; [|done].
      intros Heq. apply Hne. rewrite aligned_div_mul in Heq by done. rewrite <- Heq.
      by rewrite Z.div_mul.
Qed.

Lemma client_step_inv s0 c c' : client_step c c' → client_inv s0 c → client_inv s0 c'.
Proof.
  intros [s s' out v phys H|s s' out v cell H|s s' out1 phys out2 H] Hinv.
  - destruct (client_alloc_inv s0 s s' out v _ Hinv H) as [(? & [= <-] & ?)|[? _]]; done.
  - destruct (client_alloc_inv s0 s s' out v _ Hinv H) as [(? & [=] & ?)|[_ ?]]; done.
  - by eapply client_free_inv.
Qed.

(** * Properties *)

(** C11. [pmm_init] on any memory map with 64-bit fields either panics, and then
    for one of exactly three reasons (missing map; no page below the top of the
    address space; no usable region that can hold the bitmap - the accounting
    check never fires), or returns with the lock released, exact counters, and
    exactly those frames free that lie wholly inside a usable region and are
    neither frame 0, nor touched by the kernel image, nor by the bitmap. *)
Theorem pmm_init_correct lay mm s :
  Forall entry_in_range (map_entries mm) → layout_ok lay → g_pmm_lock s = false →
  (∃ msg, pmm_init lay (Some mm) s = Halt msg ∧ init_panics mm msg) ∨
  (∃ s', pmm_init lay (Some mm) s = Ok (tt, s') ∧ pmm_inv s' ∧
     total_pages (g_pmm_info s') = (max_physical_end mm + 4095) / 4096 ∧
     highest_physical_address (g_pmm_info s') = max_physical_end mm ∧
     ∀ p, page_free s' p ↔ initially_free lay mm s' p).
Proof.
  intros Hes Hlay Hlk.
  destruct (run_cases _ _ _ _ (pmm_init_spec lay mm s Hes Hlay Hlk)) as [?|([] & s' & ?)]; eauto.
Qed.

(** Next-fit allocation. From a state in the invariant
    [pmm_try_alloc_page_phys] returns, keeps the invariant and releases the
    lock. If some frame is free it returns true with the page-aligned address
    of the free frame that is nearest above the search hint (cyclically), and
    that frame is the only one whose status changes; if no frame is free it
    returns false, stores the invalid marker and changes nothing. *)
Theorem pmm_alloc_next_fit s v :
  pmm_inv s →
  ∃ r s', pmm_try_alloc_page_phys (Some v) s = Ok (r, s') ∧ pmm_inv s' ∧
    ((∃ p, r = (true, Some (p * PMM_PAGE_SIZE)) ∧ page_free s p ∧
        (∀ q, page_free s q → scan_distance s p ≤ scan_distance s q) ∧
        ∀ q, page_free s' q ↔ page_free s q ∧ q ≠ p)
     ∨ (r = (false, Some PMM_INVALID_PHYS_ADDR) ∧ (∀ q, ¬ page_free s q) ∧ s' = s)).
Proof.
  intros Hinv. destruct (wp_inv _ _ _ (pmm_try_alloc_spec s v Hinv)) as (r & s' & ? & ? & _ & ?).
  eauto.
Qed.

(** [pmm_free_page_phys] returns with the invariant kept and the lock
    released. For the aligned address of an existing frame that frame becomes
    free and no other frame changes (so a double free changes nothing); for an
    unaligned or out-of-range address the allocator is unchanged. *)
Theorem pmm_free_effect s phys :
  pmm_inv s → in_width 64 phys →
  ∃ s', pmm_free_page_phys phys s = Ok (tt, s') ∧ pmm_inv s' ∧
    if decide (managed s phys)
    then ∀ q, page_free s' q ↔ page_free s q ∨ q = phys / PMM_PAGE_SIZE
    else s' = s.
Proof.
  intros Hinv Hw. destruct (wp_inv _ _ _ (pmm_free_spec s phys Hinv Hw)) as ([] & s' & ? & ? & _ & ?).
  eauto.
Qed.

(** C5. Frames are never shared. After any sequence of allocations and of
    releases of frames in use, started from [s0] with no frame in use: the
    frames in use are pairwise different, each was free in [s0], and a frame is
    free now exactly when it was free in [s0] and is not in use. *)
Theorem pmm_frames_never_shared s0 s out :
  pmm_inv s0 → rtc client_step (s0, []) (s, out) →
  pmm_inv s ∧ NoDup out ∧
  (∀ phys, phys ∈ out → phys mod PMM_PAGE_SIZE = 0 ∧ page_free s0 (phys / PMM_PAGE_SIZE)) ∧
  (∀ q, page_free s q ↔ page_free s0 q ∧ q * PMM_PAGE_SIZE ∉ out).
Proof.
  intros Hinv Hsteps.
  assert (client_inv s0 (s0, [])) as H0.
  { split_and!; [done|done|constructor|by intros ? ?%not_elem_of_nil|].
    intros q. split; [intros ?; split; [done|apply not_elem_of_nil]|by intros [? _]]. }
  assert (∀ c c', rtc client_step c c' → client_inv s0 c → client_inv s0 c') as Hind.
  { induction 1; eauto using client_step_inv. }
  by destruct (Hind _ _ Hsteps H0) as (? & _ & ? & ? & ?).
Qed.

(** * A concrete machine *)

(** A 48 KiB machine whose kernel image sits in the reserved third region. *)
Definition demo_map : BootMemoryMap :=
  mkMap (Some [mkEntry 0 4096 0; mkEntry 4096 28672 0; mkEntry 32768 8192 1; mkEntry 40960 8192 0]) 4.
Definition demo_layout : kernel_layout :=
  mkLayout (2 ^ 63) 8192 16384 (2 ^ 64 - 2 ^ 31) (2 ^ 64 - 2 ^ 31 + 8192).
Definition demo_pmm : pmm_state :=
  match pmm_init demo_layout (Some demo_map) pmm_zero with Ok (_, s) => s | _ => pmm_zero end.

Lemma demo_pmm_value :
  pmm_init demo_layout (Some demo_map) pmm_zero = Ok (tt, demo_pmm) ∧
  demo_pmm = mkPmm (2 ^ 63) [13; 243] (mkInfo 12 7 5 2 0 49152) 1 true false.
Proof. split; vm_compute; reflexivity. Qed.

Lemma demo_map_in_range : Forall entry_in_range (map_entries demo_map).
Proof. repeat constructor; done. Qed.

Lemma demo_pmm_inv : pmm_inv demo_pmm.
Proof.
  destruct (run_Ok _ _ _ _ _ _ (pmm_init_spec demo_layout demo_map pmm_zero demo_map_in_range
    ltac:(done) eq_refl) (proj1 demo_pmm_value)) as [H _]. exact H.
Qed.

Lemma pmm_init_correct_witness :
  (∃ msg, pmm_init demo_layout (Some demo_map) pmm_zero = Halt msg ∧ init_panics demo_map msg) ∨
  (∃ s', pmm_init demo_layout (Some demo_map) pmm_zero = Ok (tt, s') ∧ pmm_inv s' ∧
     total_pages (g_pmm_info s') = (max_physical_end demo_map + 4095) / 4096 ∧
     highest_physical_address (g_pmm_info s') = max_physical_end demo_map ∧
     ∀ p, page_free s' p ↔ initially_free demo_layout demo_map s' p).
Proof.
  apply (pmm_init_correct demo_layout demo_map pmm_zero); [apply demo_map_in_range|done|reflexivity].
Defined.

Lemma pmm_alloc_next_fit_witness :
  ∃ r s', pmm_try_alloc_page_phys (Some 7) demo_pmm = Ok (r, s') ∧ pmm_inv s' ∧
    ((∃ p, r = (true, Some (p * PMM_PAGE_SIZE)) ∧ page_free demo_pmm p ∧
        (∀ q, page_free demo_pmm q → scan_distance demo_pmm p ≤ scan_distance demo_pmm q) ∧
        ∀ q, page_free s' q ↔ page_free demo_pmm q ∧ q ≠ p)
     ∨ (r = (false, Some PMM_INVALID_PHYS_ADDR) ∧ (∀ q, ¬ page_free demo_pmm q) ∧ s' = demo_pmm)).
Proof. apply (pmm_alloc_next_fit demo_pmm 7). apply demo_pmm_inv. Defined.

Lemma pmm_free_effect_witness :
  ∃ s', pmm_free_page_phys 8192 demo_pmm = Ok (tt, s') ∧ pmm_inv s' ∧
    if decide (managed demo_pmm 8192)
    then ∀ q, page_free s' q ↔ page_free demo_pmm q ∨ q = 8192 / PMM_PAGE_SIZE
    else s' = demo_pmm.
Proof. apply (pmm_free_effect demo_pmm 8192); [apply demo_pmm_inv|done]. Defined.

(** Two allocations and one release on the concrete machine. *)
Definition demo_alloc (s : pmm_state) : pmm_state :=
  match pmm_try_alloc_page_phys (Some 0) s with Ok (_, s') => s' | _ => s end.
Definition demo_release (phys : Z) (s : pmm_state) : pmm_state :=
  match pmm_free_page_phys phys s with Ok (_, s') => s' | _ => s end.

Lemma pmm_frames_never_shared_witness :
  let s := demo_release 4096 (demo_alloc (demo_alloc demo_pmm)) in
  pmm_inv s ∧ NoDup [16384] ∧
  (∀ phys, phys ∈ [16384] → phys mod PMM_PAGE_SIZE = 0 ∧ page_free demo_pmm (phys / PMM_PAGE_SIZE)) ∧
  (∀ q, page_free s q ↔ page_free demo_pmm q ∧ q * PMM_PAGE_SIZE ∉ [16384]).
Proof.
  intros s. apply (pmm_frames_never_shared demo_pmm s [16384]); [apply demo_pmm_inv|].
  eapply rtc_l; [apply (client_alloc _ (demo_alloc demo_pmm) _ 0 4096); vm_compute; reflexivity|].
  eapply rtc_l; [apply (client_alloc _ (demo_alloc (demo_alloc demo_pmm)) _ 0 16384); vm_compute; reflexivity|].
  eapply rtc_l; [apply (client_free _ s [16384] 4096 []); vm_compute; reflexivity|]. apply rtc_refl.
Defined.
