(* ===== verification/Paging.v ===== *)
(** The 4-level page-table manager (mm/paging.h, mm/paging.c).

    The page tables live in physical memory: [pg_mem] maps the physical address
    of a 64-bit word to its value (0 when absent), and every access the code
    makes through [table_virt_from_phys] (the HHDM window) is an access to the
    word behind it.  Frames come from a [FrameAllocator].  [cr3] and [cr4] are
    the control registers and [pg_tlb] is the log of TLB operations, newest
    first.  Console output is not part of the state. *)

From S2P Require Import Prelude Frames Boot.

(** * Constants *)

Definition PAGING_FLAG_WRITABLE : Z := Z.shiftl 1 0.
Definition PAGING_FLAG_USER : Z := Z.shiftl 1 1.
Definition PAGING_FLAG_EXEC : Z := Z.shiftl 1 2.
Definition PAGING_FLAG_GLOBAL : Z := Z.shiftl 1 3.
Definition PAGING_FLAG_NO_CACHE : Z := Z.shiftl 1 4.
Definition PAGING_FLAG_WRITE_THROUGH : Z := Z.shiftl 1 5.

Definition PAGE_SIZE_4K : Z := 0x1000.
Definition PAGE_SIZE_2M : Z := 0x200000.
Definition PAGE_SIZE_1G : Z := 0x40000000.

Definition PAGE_PRESENT : Z := Z.shiftl 1 0.
Definition PAGE_WRITABLE : Z := Z.shiftl 1 1.
Definition PAGE_USER : Z := Z.shiftl 1 2.
Definition PAGE_PWT : Z := Z.shiftl 1 3.
Definition PAGE_PCD : Z := Z.shiftl 1 4.
Definition PAGE_PS : Z := Z.shiftl 1 7.
Definition PAGE_GLOBAL : Z := Z.shiftl 1 8.
Definition PAGE_NX : Z := Z.shiftl 1 63.

Definition ENTRY_ADDR_MASK_4K : Z := 0x000FFFFFFFFFF000.
Definition ENTRY_ADDR_MASK_2M : Z := 0x000FFFFFFFE00000.
Definition ENTRY_ADDR_MASK_1G : Z := 0x000FFFFFC0000000.

Definition STACK_PROTECT_WINDOW_BYTES : Z := 64 * 1024.

(** [(x & flag) != 0] *)
Definition has (x flag : Z) : bool := negb (Z.land x flag =? 0).

Definition pml4_index (virt_addr : Z) : Z := u16 (Z.land (Z.shiftr virt_addr 39) 0x1FF).
Definition pdpt_index (virt_addr : Z) : Z := u16 (Z.land (Z.shiftr virt_addr 30) 0x1FF).
Definition pd_index (virt_addr : Z) : Z := u16 (Z.land (Z.shiftr virt_addr 21) 0x1FF).
Definition pt_index (virt_addr : Z) : Z := u16 (Z.land (Z.shiftr virt_addr 12) 0x1FF).

(** * State *)

Record paging_info_t : Type := mkPagingInfo {
  initialized : bool;
  root_pml4_phys : Z;
  table_pages_allocated : Z;
  mapped_kernel_pages : Z;
  mapped_hhdm_2m_pages : Z;
  mapped_hhdm_4k_pages : Z;
  mapped_passthrough_pages : Z;
  reclaimed_bootloader_pages : Z
}.

Inductive tlb_event : Type :=
  | Invlpg (virt_addr : Z)
  | Shootdown
  | LoadCr3 (value : Z)
  | WriteCr4 (value : Z).

Record paging_state (A : Type) : Type := mkPaging {
  pg_mem : gmap Z Z;
  pg_frames : A;
  g_paging_info : paging_info_t;
  g_paging_initialized : bool;
  g_nx_enabled : bool;
  g_paging_lock : bool;
  g_ipi_ready : bool;
  cr3 : Z;
  cr4 : Z;
  pg_tlb : list tlb_event
}.
Arguments mkPaging {A}.
Arguments pg_mem {A}. Arguments pg_frames {A}. Arguments g_paging_info {A}.
Arguments g_paging_initialized {A}. Arguments g_nx_enabled {A}. Arguments g_paging_lock {A}.
Arguments g_ipi_ready {A}. Arguments cr3 {A}. Arguments cr4 {A}. Arguments pg_tlb {A}.

Section Paging.
Context {A : Type} `{!FrameAllocator A}.
Abbreviation state := (paging_state A).
Implicit Types s : state.

Definition set_mem (m : gmap Z Z) (s : state) : state :=
  mkPaging m (pg_frames s) (g_paging_info s) (g_paging_initialized s) (g_nx_enabled s)
    (g_paging_lock s) (g_ipi_ready s) (cr3 s) (cr4 s) (pg_tlb s).
Definition set_frames (a : A) (s : state) : state :=
  mkPaging (pg_mem s) a (g_paging_info s) (g_paging_initialized s) (g_nx_enabled s)
    (g_paging_lock s) (g_ipi_ready s) (cr3 s) (cr4 s) (pg_tlb s).
Definition set_info (i : paging_info_t) (s : state) : state :=
  mkPaging (pg_mem s) (pg_frames s) i (g_paging_initialized s) (g_nx_enabled s)
    (g_paging_lock s) (g_ipi_ready s) (cr3 s) (cr4 s) (pg_tlb s).
Definition set_paging_initialized (b : bool) (s : state) : state :=
  mkPaging (pg_mem s) (pg_frames s) (g_paging_info s) b (g_nx_enabled s)
    (g_paging_lock s) (g_ipi_ready s) (cr3 s) (cr4 s) (pg_tlb s).
Definition set_nx (b : bool) (s : state) : state :=
  mkPaging (pg_mem s) (pg_frames s) (g_paging_info s) (g_paging_initialized s) b
    (g_paging_lock s) (g_ipi_ready s) (cr3 s) (cr4 s) (pg_tlb s).
Definition set_lock (b : bool) (s : state) : state :=
  mkPaging (pg_mem s) (pg_frames s) (g_paging_info s) (g_paging_initialized s) (g_nx_enabled s)
    b (g_ipi_ready s) (cr3 s) (cr4 s) (pg_tlb s).
Definition set_cr3 (v : Z) (s : state) : state :=
  mkPaging (pg_mem s) (pg_frames s) (g_paging_info s) (g_paging_initialized s) (g_nx_enabled s)
    (g_paging_lock s) (g_ipi_ready s) v (cr4 s) (LoadCr3 v :: pg_tlb s).
Definition set_cr4 (v : Z) (s : state) : state :=
  mkPaging (pg_mem s) (pg_frames s) (g_paging_info s) (g_paging_initialized s) (g_nx_enabled s)
    (g_paging_lock s) (g_ipi_ready s) (cr3 s) v (WriteCr4 v :: pg_tlb s).
Definition log_tlb (e : tlb_event) (s : state) : state :=
  mkPaging (pg_mem s) (pg_frames s) (g_paging_info s) (g_paging_initialized s) (g_nx_enabled s)
    (g_paging_lock s) (g_ipi_ready s) (cr3 s) (cr4 s) (e :: pg_tlb s).

Definition with_tables (f : Z → Z) (i : paging_info_t) : paging_info_t :=
  mkPagingInfo (initialized i) (root_pml4_phys i) (f (table_pages_allocated i))
    (mapped_kernel_pages i) (mapped_hhdm_2m_pages i) (mapped_hhdm_4k_pages i)
    (mapped_passthrough_pages i) (reclaimed_bootloader_pages i).

Definition spin_lock : M state unit := acquire g_paging_lock set_lock.
Definition spin_unlock : M state unit := release set_lock.
Definition on_frames {B} (m : M A B) : M state B := zoom pg_frames set_frames m.

(** * Page-table words *)

(** [table_virt_from_phys(table)[index]] *)
Definition slot (table index : Z) : Z := table + 8 * index.
Definition load (s : state) (addr : Z) : Z := default 0 (pg_mem s !! addr).
Definition entry (s : state) (table index : Z) : Z := load s (slot table index).
Definition store (addr value : Z) (s : state) : state := set_mem (<[addr := value]> (pg_mem s)) s.

(** [for (i = 0; i < 512; i++) table[i] = 0] *)
Definition zero_table (table : Z) (s : state) : state :=
  foldl (λ s i, store (slot table i) 0 s) s (seqZ 0 512).

Definition alloc_table_page : M state Z :=
  let! r := on_frames try_alloc_frame in
  match r with
  | None => panic "Paging init failed: out of memory for page tables"
  | Some table_phys =>
      if table_phys =? UINT64_MAX then panic "Paging init failed: out of memory for page tables"
      else
        modify (zero_table table_phys);;
        modify (λ s, set_info (with_tables (λ n, u64 (n + 1)) (g_paging_info s)) s);;
        ret table_phys
  end.

Definition get_or_create_table (parent_table index : Z) (user : bool) : M state Z :=
  let! e := gets (λ s, entry s parent_table index) in
  if has e PAGE_PRESENT then
    if has e PAGE_PS then panic "Paging: huge-page entry in intermediate table walk"
    else
      (if user && negb (has e PAGE_USER)
       then modify (store (slot parent_table index) (Z.lor e PAGE_USER))
       else ret tt);;
      ret (Z.land e ENTRY_ADDR_MASK_4K)
  else
    let! child_phys := alloc_table_page in
    let new_entry := Z.lor (Z.lor child_phys PAGE_PRESENT) PAGE_WRITABLE in
    let new_entry := if user then Z.lor new_entry PAGE_USER else new_entry in
    modify (store (slot parent_table index) new_entry);;
    ret child_phys.

Definition paging_flags_to_hw (s : state) (flags : Z) : Z :=
  let hw := 0 in
  let hw := if has flags PAGING_FLAG_WRITABLE then Z.lor hw PAGE_WRITABLE else hw in
  let hw := if has flags PAGING_FLAG_USER then Z.lor hw PAGE_USER else hw in
  let hw := if has flags PAGING_FLAG_GLOBAL then Z.lor hw PAGE_GLOBAL else hw in
  let hw := if has flags PAGING_FLAG_WRITE_THROUGH then Z.lor hw PAGE_PWT else hw in
  let hw := if has flags PAGING_FLAG_NO_CACHE then Z.lor hw PAGE_PCD else hw in
  let hw := if negb (has flags PAGING_FLAG_EXEC) && g_nx_enabled s then Z.lor hw PAGE_NX else hw in
  hw.

(** The address of the PTE of [virt_addr] ([*out_pte]), or [None] for false.
    Every caller passes the address of a local, so [out_pte] is not null. *)
Definition walk_to_pte (root_pml4_phys virt_addr : Z) (create user : bool) : M state (option Z) :=
  let pml4 := Z.land root_pml4_phys ENTRY_ADDR_MASK_4K in
  let l4 := pml4_index virt_addr in
  let! e4 := gets (λ s, entry s pml4 l4) in
  if negb (has e4 PAGE_PRESENT) && negb create then ret None
  else
    let! pdpt := get_or_create_table pml4 l4 user in
    let l3 := pdpt_index virt_addr in
    let! e3 := gets (λ s, entry s pdpt l3) in
    if has e3 PAGE_PS then ret None
    else if negb (has e3 PAGE_PRESENT) && negb create then ret None
    else
      let! pd := get_or_create_table pdpt l3 user in
      let l2 := pd_index virt_addr in
      let! e2 := gets (λ s, entry s pd l2) in
      if has e2 PAGE_PS then ret None
      else if negb (has e2 PAGE_PRESENT) && negb create then ret None
      else
        let! pt := get_or_create_table pd l2 user in
        ret (Some (slot pt (pt_index virt_addr))).

(** * Translation *)

(** The software walk of [translate_with_cr3] for a non-null out parameter. *)
Definition translate (s : state) (root_cr3_phys virt_addr : Z) : option Z :=
  let pml4e := entry s (Z.land root_cr3_phys ENTRY_ADDR_MASK_4K) (pml4_index virt_addr) in
  if negb (has pml4e PAGE_PRESENT) then None
  else
    let pdpte := entry s (Z.land pml4e ENTRY_ADDR_MASK_4K) (pdpt_index virt_addr) in
    if negb (has pdpte PAGE_PRESENT) then None
    else if has pdpte PAGE_PS then
      Some (Z.lor (Z.land pdpte ENTRY_ADDR_MASK_1G) (Z.land virt_addr (PAGE_SIZE_1G - 1)))
    else
      let pde := entry s (Z.land pdpte ENTRY_ADDR_MASK_4K) (pd_index virt_addr) in
      if negb (has pde PAGE_PRESENT) then None
      else if has pde PAGE_PS then
        Some (Z.lor (Z.land pde ENTRY_ADDR_MASK_2M) (Z.land virt_addr (PAGE_SIZE_2M - 1)))
      else
        let pte := entry s (Z.land pde ENTRY_ADDR_MASK_4K) (pt_index virt_addr) in
        if negb (has pte PAGE_PRESENT) then None
        else Some (Z.lor (Z.land pte ENTRY_ADDR_MASK_4K) (Z.land virt_addr (PAGE_SIZE_4K - 1))).

(** The out parameter is a cell, [None] for a null pointer. *)
Definition translate_with_cr3 (s : state) (root_cr3_phys virt_addr : Z) (out_phys_addr : option Z)
  : bool * option Z :=
  match out_phys_addr with
  | None => (false, None)
  | Some old =>
      match translate s root_cr3_phys virt_addr with
      | Some phys => (true, Some phys)
      | None => (false, Some old)
      end
  end.

(** * Single-page operations *)

Definition paging_invlpg (virt_addr : Z) : M state unit :=
  modify (log_tlb (Invlpg virt_addr));;
  let! ready := gets g_ipi_ready in
  if ready then modify (log_tlb Shootdown) else ret tt.

Definition paging_map_page_locked (root_pml4_phys virt_addr phys_addr flags : Z) : M state bool :=
  if has (Z.lor virt_addr phys_addr) (PAGE_SIZE_4K - 1) then ret false
  else if has flags PAGING_FLAG_GLOBAL && has flags PAGING_FLAG_USER then ret false
  else
    let! existing := gets (λ s, translate s root_pml4_phys virt_addr) in
    match existing with
    | Some _ => ret false
    | None =>
        let user := has flags PAGING_FLAG_USER in
        let! pte := walk_to_pte root_pml4_phys virt_addr true user in
        match pte with
        | None => ret false
        | Some pte =>
            let! hw := gets (λ s, paging_flags_to_hw s flags) in
            let hw_flags := Z.lor hw PAGE_PRESENT in
            modify (store pte (Z.lor (Z.land phys_addr ENTRY_ADDR_MASK_4K) hw_flags));;
            paging_invlpg virt_addr;;
            ret true
        end
    end.

Definition is_table_empty (s : state) (table_phys : Z) : bool :=
  forallb (λ i, entry s table_phys i =? 0) (seqZ 0 512).

Definition drop_table (table_phys parent index : Z) : M state unit :=
  on_frames (free_frame table_phys);;
  modify (λ s, set_info (with_tables (λ n, u64 (n - 1)) (g_paging_info s)) s);;
  modify (store (slot parent index) 0).

Definition free_empty_tables (root_pml4_phys virt_addr : Z) : M state unit :=
  let pml4 := Z.land root_pml4_phys ENTRY_ADDR_MASK_4K in
  let l4 := pml4_index virt_addr in
  let! pml4e := gets (λ s, entry s pml4 l4) in
  if negb (has pml4e PAGE_PRESENT) || has pml4e PAGE_PS then ret tt
  else
    let pdpt := Z.land pml4e ENTRY_ADDR_MASK_4K in
    let l3 := pdpt_index virt_addr in
    let! pdpte := gets (λ s, entry s pdpt l3) in
    if negb (has pdpte PAGE_PRESENT) || has pdpte PAGE_PS then ret tt
    else
      let pd := Z.land pdpte ENTRY_ADDR_MASK_4K in
      let l2 := pd_index virt_addr in
      let! pde := gets (λ s, entry s pd l2) in
      if negb (has pde PAGE_PRESENT) || has pde PAGE_PS then ret tt
      else
        let pt := Z.land pde ENTRY_ADDR_MASK_4K in
        let! empty1 := gets (λ s, is_table_empty s pt) in
        if negb empty1 then ret tt
        else
          drop_table pt pd l2;;
          let! empty2 := gets (λ s, is_table_empty s pd) in
          if negb empty2 then ret tt
          else
            drop_table pd pdpt l3;;
            let! empty3 := gets (λ s, is_table_empty s pdpt) in
            if negb empty3 then ret tt
            else drop_table pdpt pml4 l4.

Definition paging_unmap_page_locked (root_pml4_phys virt_addr : Z) (out_phys_addr : option Z)
  : M state (bool * option Z) :=
  let! pte := walk_to_pte root_pml4_phys virt_addr false false in
  match pte with
  | None => ret (false, out_phys_addr)
  | Some pte =>
      let! e := gets (λ s, load s pte) in
      if negb (has e PAGE_PRESENT) then ret (false, out_phys_addr)
      else
        let out := match out_phys_addr with
                   | Some _ => Some (Z.land e ENTRY_ADDR_MASK_4K)
                   | None => None
                   end in
        modify (store pte 0);;
        paging_invlpg virt_addr;;
        free_empty_tables root_pml4_phys virt_addr;;
        ret (true, out)
  end.

Definition paging_protect_page_locked (root_pml4_phys virt_addr flags : Z) : M state bool :=
  let! pte := walk_to_pte root_pml4_phys virt_addr false false in
  match pte with
  | None => ret false
  | Some pte =>
      let! e := gets (λ s, load s pte) in
      if negb (has e PAGE_PRESENT) then ret false
      else
        let phys_addr := Z.land e ENTRY_ADDR_MASK_4K in
        let! hw := gets (λ s, paging_flags_to_hw s flags) in
        let hw_flags := Z.lor hw PAGE_PRESENT in
        modify (store pte (Z.lor phys_addr hw_flags));;
        paging_invlpg virt_addr;;
        ret true
  end.

(** * The locked public operations *)

Definition paging_map_page (root_pml4_phys virt_addr phys_addr flags : Z) : M state bool :=
  spin_lock;;
  let! ok := paging_map_page_locked root_pml4_phys virt_addr phys_addr flags in
  spin_unlock;;
  ret ok.

Definition paging_unmap_page (root_pml4_phys virt_addr : Z) (out_phys_addr : option Z)
  : M state (bool * option Z) :=
  spin_lock;;
  let! r := paging_unmap_page_locked root_pml4_phys virt_addr out_phys_addr in
  spin_unlock;;
  ret r.

Definition paging_protect_page (root_pml4_phys virt_addr flags : Z) : M state bool :=
  spin_lock;;
  let! ok := paging_protect_page_locked root_pml4_phys virt_addr flags in
  spin_unlock;;
  ret ok.

Definition paging_translate (root_pml4_phys virt_addr : Z) (out_phys_addr : option Z)
  : M state (bool * option Z) :=
  spin_lock;;
  let! r := gets (λ s, translate_with_cr3 s root_pml4_phys virt_addr out_phys_addr) in
  spin_unlock;;
  ret r.

Definition paging_map_range (root_pml4_phys virt_addr phys_addr size flags : Z) : M state bool :=
  if size =? 0 then ret false
  else if (virt_addr >? UINT64_MAX - size) || (phys_addr >? UINT64_MAX - size) then ret false
  else
    let aligned := align_up size PAGE_SIZE_4K in
    if aligned <? size then ret false
    else
      spin_lock;;
      let! stop := for_loop (Z.to_nat (aligned / PAGE_SIZE_4K)) 0 PAGE_SIZE_4K (λ offset,
        let! ok := paging_map_page_locked root_pml4_phys (u64 (virt_addr + offset))
                     (u64 (phys_addr + offset)) flags in
        if ok then ret None else ret (Some false)) in
      spin_unlock;;
      ret (default true stop).

Definition paging_protect_range (root_pml4_phys virt_addr size flags : Z) : M state bool :=
  if size =? 0 then ret false
  else if virt_addr >? UINT64_MAX - size then ret false
  else
    let aligned := align_up size PAGE_SIZE_4K in
    if aligned <? size then ret false
    else
      spin_lock;;
      let! oks := (fix loop (n : nat) (offset : Z) (ok : bool) : M state bool :=
        match n with
        | O => ret ok
        | S n' =>
            let! r := paging_protect_page_locked root_pml4_phys (u64 (virt_addr + offset)) flags in
            loop n' (offset + PAGE_SIZE_4K) (if r then ok else false)
        end) (Z.to_nat (aligned / PAGE_SIZE_4K)) 0 true in
      spin_unlock;;
      ret oks.

Definition paging_set_nx_enabled (enabled : bool) : M state unit :=
  spin_lock;; modify (set_nx enabled);; spin_unlock.

Definition paging_ready (s : state) : bool := g_paging_initialized s.
Definition paging_get_info (s : state) : paging_info_t := g_paging_info s.

Definition paging_read_cr3 : M state Z := gets cr3.
Definition paging_load_cr3 (phys_addr : Z) : M state unit := modify (set_cr3 phys_addr).

Definition paging_tlb_flush_all : M state unit :=
  let! v := paging_read_cr3 in
  paging_load_cr3 v;;
  let! c4 := gets cr4 in
  let cr4_pge := Z.shiftl 1 7 in
  if has c4 cr4_pge then
    modify (set_cr4 (Z.land c4 (lnotw 64 cr4_pge)));; modify (set_cr4 c4)
  else ret tt.

End Paging.

#[global] Arguments zero_table {A} table s : simpl never.
#[global] Arguments entry {A} s table index : simpl never.
#[global] Arguments is_table_empty {A} s table_phys : simpl never.
