(* ===== verification/PageTree.v ===== *)
(** The page tables as a tree: the well-formedness invariant of the paging
    structures, the walk of a virtual address through them, and how each write
    the manager makes acts on both.

    [tree s root T] says that [T] is exactly the set of page-table frames of
    the address space rooted at [root], each with its path of indices from the
    root; the map makes sharing impossible, because a frame has one path. *)

From S2P Require Import Prelude Frames Boot Paging.

(** * Bits of page-table words *)

Lemma has_testbit x k : 0 ≤ k → has x (Z.shiftl 1 k) = Z.testbit x k.
Proof.
  intros Hk. unfold has. rewrite Z.shiftl_1_l, land_pow2_testbit by done.
  apply negb_involutive.
Qed.

Lemma has_lor x y k : 0 ≤ k → has (Z.lor x y) (Z.shiftl 1 k) = has x (Z.shiftl 1 k) || has y (Z.shiftl 1 k).
Proof. intros. rewrite !has_testbit by done. apply Z.lor_spec. Qed.

(** Addresses a 4 KiB entry can hold. *)
Definition frame_addr (p : Z) : Prop := p mod 4096 = 0 ∧ 0 ≤ p < 2 ^ 52.

Lemma mask4k_shift : ENTRY_ADDR_MASK_4K = Z.shiftl (Z.ones 40) 12.
Proof. reflexivity. Qed.

Lemma mask4k_frame p : frame_addr p → Z.land p ENTRY_ADDR_MASK_4K = p.
Proof.
  intros [Ha Hp]. rewrite mask4k_shift.
  assert (p = Z.shiftl (p / 4096) 12) as Hs.
  { rewrite Z.shiftl_mul_pow2 by lia. change (2 ^ 12) with 4096. dlia. }
  rewrite Hs at 1. rewrite <- Z.shiftl_land, Z.land_ones by lia.
  rewrite Z.mod_small by (change (2 ^ 40) with (2 ^ 52 / 4096); dlia). by symmetry.
Qed.

Lemma mask4k_frame_addr e : 0 ≤ e → frame_addr (Z.land e ENTRY_ADDR_MASK_4K).
Proof.
  intros He. rewrite mask4k_shift.
  assert (Z.land e (Z.shiftl (Z.ones 40) 12) = Z.shiftl (Z.land (Z.shiftr e 12) (Z.ones 40)) 12) as ->.
  { apply Z.bits_inj'. intros n Hn. rewrite Z.land_spec, !Z.shiftl_spec by lia.
    destruct (decide (n < 12)).
    - rewrite !(Z.testbit_neg_r _ (n - 12)) by lia. apply andb_false_r.
    - rewrite Z.land_spec, Z.shiftr_spec by lia. do 2 f_equal. lia. }
  rewrite Z.land_ones, Z.shiftl_mul_pow2 by lia.
  pose proof (Z.mod_pos_bound (Z.shiftr e 12) (2 ^ 40) ltac:(lia)).
  change (2 ^ 12) with 4096. split; [by apply Z.mod_mul|]. lia.
Qed.

Lemma frame_low_bit p k : frame_addr p → 0 ≤ k < 12 → has p (Z.shiftl 1 k) = false.
Proof.
  intros [Ha _] Hk. rewrite has_testbit by lia.
  rewrite <- (Z.mod_pow2_bits_low p 12) by lia. change (2 ^ 12) with 4096. rewrite Ha.
  apply Z.bits_0.
Qed.

(** Two words that name the same target: same PRESENT and PS bits, same address. *)
Definition agree (e e' : Z) : Prop :=
  has e' PAGE_PRESENT = has e PAGE_PRESENT ∧ has e' PAGE_PS = has e PAGE_PS ∧
  Z.land e' ENTRY_ADDR_MASK_4K = Z.land e ENTRY_ADDR_MASK_4K.

#[export] Instance agree_equiv : Equivalence agree.
Proof. split; unfold agree; repeat intro; intuition congruence. Qed.

Lemma agree_mask e e' m :
  Z.land m ENTRY_ADDR_MASK_4K = m → agree e e' → Z.land e' m = Z.land e m.
Proof.
  intros Hm (_ & _ & Ha). rewrite <- Hm, (Z.land_comm m), !Z.land_assoc. by rewrite Ha.
Qed.

Lemma agree_flag e f :
  Z.land f ENTRY_ADDR_MASK_4K = 0 → has f PAGE_PRESENT = false → has f PAGE_PS = false →
  agree e (Z.lor e f).
Proof.
  intros Hf Hp Hps. unfold agree. unfold PAGE_PRESENT, PAGE_PS in *.
  rewrite !has_lor, Hp, Hps, !orb_false_r by lia. split_and!; [done..|].
  by rewrite Z.land_lor_distr_l, Hf, Z.lor_0_r.
Qed.

(** * Indices *)

(** The 9-bit index of [va] at level [k] (0 = page table, 3 = PML4). *)
Definition index (k : nat) (va : Z) : Z := (va / 2 ^ (12 + 9 * Z.of_nat k)) mod 512.

Lemma index_range k va : 0 ≤ index k va < 512.
Proof. apply Z.mod_pos_bound. lia. Qed.

Lemma index_bits k va :
  u16 (Z.land (Z.shiftr va (12 + 9 * Z.of_nat k)) 0x1FF) = index k va.
Proof.
  change 0x1FF with (2 ^ 9 - 1). rewrite land_ones_mod, Z.shiftr_div_pow2 by lia.
  change (2 ^ 9) with 512. apply wrap_small. pose proof (index_range k va).
  unfold in_width, index in *. lia.
Qed.

Lemma pml4_index_eq va : pml4_index va = index 3 va.
Proof. apply (index_bits 3). Qed.
Lemma pdpt_index_eq va : pdpt_index va = index 2 va.
Proof. apply (index_bits 2). Qed.
Lemma pd_index_eq va : pd_index va = index 1 va.
Proof. apply (index_bits 1). Qed.
Lemma pt_index_eq va : pt_index va = index 0 va.
Proof. apply (index_bits 0). Qed.

(** The virtual page number the tables distinguish: bits 12 to 47. *)
Definition vpage (va : Z) : Z := (va / 4096) mod 2 ^ 36.

Lemma vpage_indices va :
  vpage va = index 0 va + 512 * index 1 va + 512 ^ 2 * index 2 va + 512 ^ 3 * index 3 va.
Proof.
  unfold vpage, index.
  change (2 ^ (12 + 9 * Z.of_nat 0)) with 4096.
  change (2 ^ (12 + 9 * Z.of_nat 1)) with (4096 * 512).
  change (2 ^ (12 + 9 * Z.of_nat 2)) with (4096 * 512 * 512).
  change (2 ^ (12 + 9 * Z.of_nat 3)) with (4096 * 512 * 512 * 512).
  rewrite <- !Z.div_div by lia.
  generalize (va / 4096). intros v. symmetry.
  assert (∀ x, x = 512 * (x / 512) + x mod 512 ∧ 0 ≤ x mod 512 < 512) as Hdm by (intros; dlia).
  pose proof (Hdm v). pose proof (Hdm (v / 512)). pose proof (Hdm (v / 512 / 512)).
  pose proof (Hdm (v / 512 / 512 / 512)).
  apply Z.mod_unique with (v / 512 / 512 / 512 / 512); lia.
Qed.

Lemma vpage_eq va va' :
  vpage va = vpage va' ↔ ∀ k, (k < 4)%nat → index k va = index k va'.
Proof.
  split.
  - rewrite !vpage_indices. intros H.
    pose proof (index_range 0 va). pose proof (index_range 1 va). pose proof (index_range 2 va).
    pose proof (index_range 3 va). pose proof (index_range 0 va'). pose proof (index_range 1 va').
    pose proof (index_range 2 va'). pose proof (index_range 3 va').
    intros k Hk. do 4 (destruct k as [|k]; [lia|]). lia.
  - intros H. by rewrite !vpage_indices, !(H 0%nat), !(H 1%nat), !(H 2%nat), !(H 3%nat) by lia.
Qed.

(** Path from the root to the table at level [k] on the way to [va]. *)
Fixpoint vpath (n : nat) (va : Z) : list Z :=
  match n with
  | O => []
  | S n' => vpath n' va ++ [index (3 - n') va]
  end.

Lemma vpath_length n va : length (vpath n va) = n.
Proof. induction n; simpl; [done|]. rewrite length_app, IHn. simpl. lia. Qed.

(** * Loads and stores *)

Section Tree.
Context {A : Type} `{!FrameAllocator A, !FrameAllocatorLaws A}.
Abbreviation state := (paging_state A).
Implicit Types (s : state) (T : gmap Z (list Z)).

Lemma slot_inj p q i j :
  p mod 4096 = 0 → q mod 4096 = 0 → 0 ≤ i < 512 → 0 ≤ j < 512 →
  slot p i = slot q j → p = q ∧ i = j.
Proof. unfold slot. intros. dlia. Qed.

Lemma load_store s a b v : load (store a v s) b = if decide (a = b) then v else load s b.
Proof.
  unfold load, store; simpl. case_decide as Hab.
  - subst. by rewrite lookup_insert_eq.
  - by rewrite lookup_insert_ne.
Qed.

Lemma entry_store s q j p i v :
  p mod 4096 = 0 → q mod 4096 = 0 → 0 ≤ i < 512 → 0 ≤ j < 512 →
  entry (store (slot q j) v s) p i = if decide (p = q ∧ i = j) then v else entry s p i.
Proof.
  intros. unfold entry. rewrite load_store. repeat case_decide; try done; exfalso.
  - by destruct (slot_inj q p j i) as [-> ->]; auto.
  - naive_solver.
Qed.

Lemma entry_zero_table s c p i :
  p mod 4096 = 0 → c mod 4096 = 0 → 0 ≤ i < 512 →
  entry (zero_table c s) p i = if decide (p = c) then 0 else entry s p i.
Proof.
  intros Hp Hc Hi. unfold zero_table, entry.
  assert (∀ l s, Forall (λ j, 0 ≤ j < 512) l →
    load (foldl (λ s j, store (slot c j) 0 s) s l) (slot p i) =
      if decide (p = c ∧ i ∈ l) then 0 else load s (slot p i)) as Hl.
  { intros l. induction l as [|j l IH]; intros s' Hfl; simpl.
    - rewrite decide_False; [done|]. by intros [_ ?%not_elem_of_nil].
    - apply Forall_cons in Hfl as [Hj Hfl]. rewrite IH, load_store by done.
      repeat case_decide; try done; exfalso.
      + set_solver.
      + destruct (slot_inj c p j i) as [-> ->]; [done..|]. set_solver.
      + set_solver. }
  rewrite Hl.
  - assert (i ∈ seqZ 0 512) by (apply elem_of_seqZ; lia). repeat case_decide; naive_solver.
  - apply Forall_forall. intros j Hj%elem_of_seqZ. lia.
Qed.

Lemma zero_table_fields s c :
  pg_frames (zero_table c s) = pg_frames s ∧ g_paging_info (zero_table c s) = g_paging_info s ∧
  g_paging_initialized (zero_table c s) = g_paging_initialized s ∧
  g_nx_enabled (zero_table c s) = g_nx_enabled s ∧ g_paging_lock (zero_table c s) = g_paging_lock s ∧
  g_ipi_ready (zero_table c s) = g_ipi_ready s ∧ cr3 (zero_table c s) = cr3 s ∧
  cr4 (zero_table c s) = cr4 s ∧ pg_tlb (zero_table c s) = pg_tlb s.
Proof.
  unfold zero_table. generalize (seqZ 0 512). intros l. revert s.
  induction l as [|j l IH]; intros s; simpl; [done|].
  destruct (IH (store (slot c j) 0 s)) as (-> & -> & -> & -> & -> & -> & -> & -> & ->). done.
Qed.

(** The published information but for the number of tables. *)
Definition counters s : paging_info_t := with_tables (λ _, 0) (g_paging_info s).

(** Everything but memory, frames and the table counter is the same. *)
Definition same_env s s' : Prop :=
  g_paging_initialized s' = g_paging_initialized s ∧ g_nx_enabled s' = g_nx_enabled s ∧
  g_paging_lock s' = g_paging_lock s ∧ g_ipi_ready s' = g_ipi_ready s ∧
  cr3 s' = cr3 s ∧ cr4 s' = cr4 s ∧ pg_tlb s' = pg_tlb s ∧
  root_pml4_phys (g_paging_info s') = root_pml4_phys (g_paging_info s) ∧
  counters s' = counters s.

#[export] Instance same_env_preorder : PreOrder same_env.
Proof. split; [by repeat split|]. intros ???; unfold same_env; intuition congruence. Qed.

(** * The walk of an address *)

Definition leaf (k : nat) (e va : Z) : Z :=
  match k with
  | O => Z.lor (Z.land e ENTRY_ADDR_MASK_4K) (Z.land va (PAGE_SIZE_4K - 1))
  | 1%nat => Z.lor (Z.land e ENTRY_ADDR_MASK_2M) (Z.land va (PAGE_SIZE_2M - 1))
  | _ => Z.lor (Z.land e ENTRY_ADDR_MASK_1G) (Z.land va (PAGE_SIZE_1G - 1))
  end.

Definition ent s (k : nat) (p va : Z) : Z := entry s p (index k va).

(** Level-indexed form of [translate]: [k] is 3 at the PML4, 0 at a page table. *)
Fixpoint walk s (k : nat) (p va : Z) : option Z :=
  let e := ent s k p va in
  if negb (has e PAGE_PRESENT) then None
  else match k with
       | O => Some (leaf 0 e va)
       | S k' => if (k <=? 2)%nat && has e PAGE_PS then Some (leaf k e va)
                 else walk s k' (Z.land e ENTRY_ADDR_MASK_4K) va
       end.

Lemma translate_walk s root va :
  translate s root va = walk s 3 (Z.land root ENTRY_ADDR_MASK_4K) va.
Proof.
  unfold translate. rewrite pml4_index_eq, pdpt_index_eq, pd_index_eq, pt_index_eq. reflexivity.
Qed.

Lemma leaf_agree k e e' va : agree e e' → leaf k e' va = leaf k e va.
Proof.
  intros H. destruct k as [|[|k]]; simpl; f_equal;
    by apply (agree_mask e e' _ eq_refl).
Qed.

(** * Well-formed page tables *)

Record tree s (root : Z) T : Prop := {
  tree_frames : frames_inv (pg_frames s);
  tree_root : T !! root = Some [];
  tree_root_only p : T !! p = Some [] → p = root;
  tree_frame p path : T !! p = Some path →
    frame_managed (pg_frames s) p ∧ ¬ frame_free (pg_frames s) p;
  tree_depth p path : T !! p = Some path → (length path ≤ 3)%nat;
  tree_child p path i : T !! p = Some path → (length path < 3)%nat → 0 ≤ i < 512 →
    has (entry s p i) PAGE_PRESENT = true → has (entry s p i) PAGE_PS = false →
    T !! Z.land (entry s p i) ENTRY_ADDR_MASK_4K = Some (path ++ [i]);
  tree_parent p path i : T !! p = Some (path ++ [i]) →
    ∃ q, T !! q = Some path ∧ 0 ≤ i < 512 ∧ has (entry s q i) PAGE_PRESENT = true ∧
         has (entry s q i) PAGE_PS = false ∧ Z.land (entry s q i) ENTRY_ADDR_MASK_4K = p;
  tree_zero p path i : T !! p = Some path → 0 ≤ i < 512 →
    has (entry s p i) PAGE_PRESENT = false → entry s p i = 0;
  tree_pml4 i : 0 ≤ i < 512 → has (entry s root i) PAGE_PRESENT = true →
    has (entry s root i) PAGE_PS = false;
  tree_count : table_pages_allocated (g_paging_info s) = u64 (Z.of_nat (size T))
}.

Lemma tree_frame_addr s root T p path : tree s root T → T !! p = Some path → frame_addr p.
Proof.
  intros Ht Hp. destruct (tree_frame _ _ _ Ht _ _ Hp) as [Hm _].
  by apply (frame_managed_aligned (pg_frames s)); [apply Ht|].
Qed.

Lemma tree_aligned s root T p path : tree s root T → T !! p = Some path → p mod 4096 = 0.
Proof. intros Ht Hp. by destruct (tree_frame_addr _ _ _ _ _ Ht Hp). Qed.

Lemma tree_walk_child s root T k p va :
  tree s root T → (k < 3)%nat → T !! p = Some (vpath (2 - k) va) →
  has (ent s (S k) p va) PAGE_PRESENT = true → has (ent s (S k) p va) PAGE_PS = false →
  T !! Z.land (ent s (S k) p va) ENTRY_ADDR_MASK_4K = Some (vpath (3 - k) va).
Proof.
  intros Ht Hk Hp Hpr Hps. replace (3 - k)%nat with (S (2 - k)) by lia. simpl.
  replace (3 - (2 - k))%nat with (S k) by lia.
  apply (tree_child _ _ _ Ht); [done|rewrite vpath_length; lia|apply index_range|done|done].
Qed.

(** The walk only reads the tables on the path of the address: if the words
    there still name the same targets (or were absent and the address still
    does not translate), the translation is the same. *)
Lemma walk_ext s s' root T va k p :
  tree s root T → (k ≤ 3)%nat → T !! p = Some (vpath (3 - k) va) →
  (∀ j q, (j ≤ k)%nat → T !! q = Some (vpath (3 - j) va) →
     agree (ent s j q va) (ent s' j q va) ∨
     (has (ent s j q va) PAGE_PRESENT = false ∧ walk s' j q va = None)) →
  walk s' k p va = walk s k p va.
Proof.
  intros Ht. revert p. induction k as [|k IH]; intros p Hk Hp Hall.
  - destruct (Hall 0%nat p) as [Hag|[Habs Hnone]]; [lia|done| |].
    + cbn [walk]. pose proof Hag as (-> & _ & _). by rewrite (leaf_agree 0 _ _ va Hag).
    + rewrite Hnone. simpl. by rewrite Habs.
  - destruct (Hall (S k) p) as [Hag|[Habs Hnone]]; [lia|done| |].
    2: { rewrite Hnone. cbn [walk]. by rewrite Habs. }
    cbn [walk]. pose proof Hag as (Epr & Eps & Ead). rewrite Epr, Eps, Ead.
    rewrite (leaf_agree (S k) _ _ va Hag).
    destruct (has (ent s (S k) p va) PAGE_PRESENT) eqn:Hpr; simpl; [|done].
    destruct (has (ent s (S k) p va) PAGE_PS) eqn:Hps.
    + destruct (decide (k < 2)%nat).
      * rewrite (proj2 (Nat.leb_le k 1)) by lia. done.
      * exfalso. assert (k = 2%nat) as -> by lia. simpl in Hp.
        apply (tree_root_only _ _ _ Ht) in Hp as ->.
        unfold ent in *. rewrite (tree_pml4 _ _ _ Ht) in Hps; [done|apply index_range|done].
    + rewrite !andb_false_r. apply IH; [lia| |].
      * apply (tree_walk_child _ root); [done|lia| |done|done].
        by replace (2 - k)%nat with (3 - S k)%nat by lia.
      * intros j q Hj. apply Hall. lia.
Qed.

(** * Writes that keep the tree *)

Lemma tree_path_inj s root T path p q :
  tree s root T → T !! p = Some path → T !! q = Some path → p = q.
Proof.
  intros Ht. revert p q. induction path as [|i path IH] using rev_ind; intros p q Hp Hq.
  - apply (tree_root_only _ _ _ Ht) in Hp, Hq. congruence.
  - destruct (tree_parent _ _ _ Ht _ _ _ Hp) as (p' & Hp' & _ & _ & _ & <-).
    destruct (tree_parent _ _ _ Ht _ _ _ Hq) as (q' & Hq' & _ & _ & _ & <-).
    by rewrite (IH _ _ Hp' Hq').
Qed.

(** Words of upper tables keep their targets; absent words stay zero. *)
Lemma tree_agree s s' root T :
  tree s root T → pg_frames s' = pg_frames s →
  table_pages_allocated (g_paging_info s') = table_pages_allocated (g_paging_info s) →
  (∀ p path j, T !! p = Some path → (length path < 3)%nat → 0 ≤ j < 512 →
     agree (entry s p j) (entry s' p j)) →
  (∀ p path j, T !! p = Some path → 0 ≤ j < 512 →
     has (entry s' p j) PAGE_PRESENT = false → entry s' p j = 0) →
  tree s' root T.
Proof.
  intros Ht Hfr Hcnt Hag Hz. destruct Ht as [F R RO Fr D C P _ PM N]. split; rewrite ?Hfr; try done.
  - intros p path i Hp Hl Hi. destruct (Hag p path i Hp Hl Hi) as (-> & -> & ->). by apply C.
  - intros p path i Hp. destruct (P _ _ _ Hp) as (q & Hq & Hi & H1 & H2 & H3).
    assert (length path < 3)%nat as Hl.
    { specialize (D _ _ Hp). rewrite length_app in D. simpl in D. lia. }
    exists q. destruct (Hag q path i Hq Hl Hi) as (-> & -> & ->). done.
  - intros i Hi. destruct (Hag root [] i R ltac:(simpl; lia) Hi) as (-> & -> & _). by apply PM.
  - by rewrite Hcnt.
Qed.

(** Giving an absent word of an upper table a fresh, zeroed child. *)
Lemma tree_link s s' root T q path i c :
  tree s root T → T !! q = Some path → (length path < 3)%nat → 0 ≤ i < 512 →
  has (entry s q i) PAGE_PRESENT = false → frame_free (pg_frames s) c →
  frames_inv (pg_frames s') →
  (∀ p, frame_managed (pg_frames s') p ↔ frame_managed (pg_frames s) p) →
  (∀ p, frame_free (pg_frames s') p ↔ frame_free (pg_frames s) p ∧ p ≠ c) →
  table_pages_allocated (g_paging_info s') = u64 (table_pages_allocated (g_paging_info s) + 1) →
  (∀ p path' j, T !! p = Some path' → 0 ≤ j < 512 → ¬ (p = q ∧ j = i) → entry s' p j = entry s p j) →
  has (entry s' q i) PAGE_PRESENT = true → has (entry s' q i) PAGE_PS = false →
  Z.land (entry s' q i) ENTRY_ADDR_MASK_4K = c →
  (∀ j, 0 ≤ j < 512 → entry s' c j = 0) →
  T !! c = None ∧ tree s' root (<[c := path ++ [i]]> T).
Proof.
  intros Ht Hq Hl Hi Habs Hc HF' HM' HFr' Hcnt Hsame Hpr Hps Hadr Hzero.
  destruct Ht as [F R RO Fr D C P Z0 PM N].
  assert (T !! c = None) as HcT.
  { destruct (T !! c) as [pc|] eqn:E; [|done]. by destruct (Fr _ _ E). }
  split; [done|].
  assert (∀ p path', T !! p = Some path' → p ≠ c) as Hne by (intros; congruence).
  assert (∀ j, has 0 (Z.shiftl 1 j) = false) as Hhas0 by done.
  split.
  - done.
  - rewrite lookup_insert_ne; [done|]. intros ->. by apply (Hne _ _ R).
  - intros p. rewrite lookup_insert_Some. intros [[<- Hnil]|[_ Hp]]; [|by apply RO].
    by destruct path.
  - intros p path'. rewrite lookup_insert_Some, HM', HFr'. intros [[<- _]|[Hpc Hp]].
    + split; [by apply frame_free_managed|]. tauto.
    + destruct (Fr _ _ Hp). tauto.
  - intros p path'. rewrite lookup_insert_Some. intros [[_ <-]|[_ Hp]]; [|by eapply D].
    rewrite length_app. simpl. lia.
  - intros p path' j. rewrite lookup_insert_Some. intros [[<- <-]|[Hpc Hp]] Hl' Hj.
    { by rewrite Hzero. }
    destruct (decide (p = q ∧ j = i)) as [[-> ->]|Hn].
    + intros _ _. assert (path' = path) as -> by congruence.
      rewrite Hadr. apply lookup_insert_eq.
    + rewrite (Hsame _ _ _ Hp Hj Hn). intros H1 H2. specialize (C _ _ _ Hp Hl' Hj H1 H2).
      rewrite lookup_insert_ne; [done|]. intros Hcc. rewrite <- Hcc in C. by apply (Hne _ _ C).
  - intros p path' j. rewrite lookup_insert_Some. intros [[<- Heq]|[Hpc Hp]].
    + apply app_inj_tail in Heq as [<- <-]. exists q. rewrite lookup_insert_ne; [done|].
      intros <-. by apply (Hne _ _ Hq).
    + destruct (P _ _ _ Hp) as (q' & Hq' & Hj & H1 & H2 & H3). exists q'.
      assert (¬ (q' = q ∧ j = i)) as Hn by (intros [-> ->]; congruence).
      rewrite (Hsame _ _ _ Hq' Hj Hn), lookup_insert_ne; [done|]. intros <-. by apply (Hne _ _ Hq').
  - intros p path' j. rewrite lookup_insert_Some. intros [[<- _]|[Hpc Hp]] Hj; [by intros; apply Hzero|].
    destruct (decide (p = q ∧ j = i)) as [[-> ->]|Hn]; [congruence|].
    rewrite (Hsame _ _ _ Hp Hj Hn). by eapply Z0.
  - intros j Hj. destruct (decide (root = q ∧ j = i)) as [[-> ->]|Hn]; [done|].
    rewrite (Hsame _ _ _ R Hj Hn). by apply PM.
  - rewrite Hcnt, N, map_size_insert_None by done. unfold wrap. rewrite Zplus_mod_idemp_l.
    f_equal. lia.
Qed.

(** Removing an empty table: the inverse of [tree_link]. *)
Lemma tree_unlink s s' root T q path i c :
  tree s root T → T !! q = Some path → T !! c = Some (path ++ [i]) →
  (∀ j, 0 ≤ j < 512 → entry s c j = 0) →
  frames_inv (pg_frames s') →
  (∀ p, frame_managed (pg_frames s') p ↔ frame_managed (pg_frames s) p) →
  (∀ p, frame_free (pg_frames s') p ↔ frame_free (pg_frames s) p ∨ p = c) →
  table_pages_allocated (g_paging_info s') = u64 (table_pages_allocated (g_paging_info s) - 1) →
  (∀ p path' j, T !! p = Some path' → 0 ≤ j < 512 → ¬ (p = q ∧ j = i) → entry s' p j = entry s p j) →
  entry s' q i = 0 →
  tree s' root (delete c T).
Proof.
  intros Ht Hq Hc Hzero HF' HM' HFr' Hcnt Hsame Hslot.
  pose proof (tree_path_inj s root T) as Hinj.
  destruct (tree_parent _ _ _ Ht _ _ _ Hc) as (q0 & Hq0 & Hi & Hpr & Hps & Hadr).
  assert (q0 = q) as -> by (by eapply Hinj).
  assert (q ≠ c) as Hqc.
  { intros ->. rewrite Hq in Hc. injection Hc as Hc. apply (f_equal length) in Hc.
    rewrite length_app in Hc. simpl in Hc. lia. }
  pose proof Ht as [F R RO Fr D C P Z0 PM N].
  assert (∀ j, has 0 (Z.shiftl 1 j) = false) as Hhas0 by done.
  split.
  - done.
  - rewrite lookup_delete_ne; [done|]. intros ->. rewrite R in Hc. by destruct path.
  - intros p. rewrite lookup_delete_Some. intros [_ Hp]. by apply RO.
  - intros p path'. rewrite lookup_delete_Some, HM', HFr'. intros [Hpc Hp].
    destruct (Fr _ _ Hp). split; [done|]. intros [?|?]; congruence.
  - intros p path'. rewrite lookup_delete_Some. intros [_ Hp]. by eapply D.
  - intros p path' j. rewrite lookup_delete_Some. intros [Hpc Hp] Hl Hj.
    destruct (decide (p = q ∧ j = i)) as [[-> ->]|Hn]; [by rewrite Hslot|].
    rewrite (Hsame _ _ _ Hp Hj Hn). intros H1 H2. specialize (C _ _ _ Hp Hl Hj H1 H2).
    rewrite lookup_delete_ne; [done|]. intros Hcc. apply Hn. rewrite <- Hcc in C.
    rewrite Hc in C. injection C as C. apply app_inj_tail in C as [-> ->]. split; [|done].
    by eapply Hinj.
  - intros p path' j. rewrite lookup_delete_Some. intros [Hpc Hp].
    destruct (P _ _ _ Hp) as (q' & Hq' & Hj & H1 & H2 & H3). exists q'.
    assert (¬ (q' = q ∧ j = i)) as Hn by (intros [-> ->]; congruence).
    rewrite (Hsame _ _ _ Hq' Hj Hn), lookup_delete_ne; [done|]. intros <-.
    by rewrite Hzero in H1.
  - intros p path' j. rewrite lookup_delete_Some. intros [Hpc Hp] Hj.
    destruct (decide (p = q ∧ j = i)) as [[-> ->]|Hn]; [done|].
    rewrite (Hsame _ _ _ Hp Hj Hn). by eapply Z0.
  - intros j Hj. destruct (decide (root = q ∧ j = i)) as [[-> ->]|Hn]; [by rewrite Hslot|].
    rewrite (Hsame _ _ _ R Hj Hn). by apply PM.
  - rewrite Hcnt, N, map_size_delete_Some by (by eexists). unfold wrap.
    assert (size T ≠ 0%nat) by (intros E; apply map_size_empty_inv in E; subst; by rewrite lookup_empty in Hc).
    rewrite Zminus_mod_idemp_l. f_equal. lia.
Qed.

(** ** Their effect on translation *)

Lemma walk_absent s k p va : has (ent s k p va) PAGE_PRESENT = false → walk s k p va = None.
Proof. intros H. destruct k; cbn [walk]; by rewrite H. Qed.

(** Adding an empty table below an absent word changes no translation. *)
Lemma walk_link s s' root T q path i c va :
  tree s root T → T !! q = Some path → (length path < 3)%nat → 0 ≤ i < 512 →
  has (entry s q i) PAGE_PRESENT = false →
  (∀ p path' j, T !! p = Some path' → 0 ≤ j < 512 → ¬ (p = q ∧ j = i) → entry s' p j = entry s p j) →
  has (entry s' q i) PAGE_PS = false →
  Z.land (entry s' q i) ENTRY_ADDR_MASK_4K = c →
  (∀ j, 0 ≤ j < 512 → entry s' c j = 0) →
  walk s' 3 root va = walk s 3 root va.
Proof.
  intros Ht Hq Hl Hi Habs Hsame Hps Hadr Hzero.
  apply (walk_ext s s' root T); [done|lia|apply Ht|]. intros j p Hj Hp. unfold ent.
  destruct (decide (p = q ∧ index j va = i)) as [[-> Hji]|Hn].
  - right. rewrite Hji. split; [done|]. rewrite Hq in Hp. injection Hp as Hp.
    rewrite Hp, vpath_length in Hl. destruct j as [|j]; [lia|]. cbn [walk].
    change (ent s' (S j) q va) with (entry s' q (index (S j) va)). rewrite Hji, Hps, Hadr, andb_false_r.
    destruct (negb _); [done|]. apply walk_absent. unfold ent. rewrite Hzero; [done|]. apply index_range.
  - left. rewrite (Hsame _ _ _ Hp (index_range j va) Hn). reflexivity.
Qed.
(** Addresses of one page translate together. *)
Lemma walk_vpage s k p va va' :
  vpage va = vpage va' → (k ≤ 3)%nat → walk s k p va = None → walk s k p va' = None.
Proof.
  intros Hv. rewrite vpage_eq in Hv. revert p. induction k as [|k IH]; intros p Hk;
    cbn [walk]; unfold ent; rewrite (Hv _) by lia.
  - by destruct (has _ _).
  - destruct (negb _); [done|]. destruct ((S k <=? 2)%nat && _); [done|]. apply IH. lia.
Qed.

(** The walk of [va] goes through the table on its path. *)
Lemma walk_reach s root T n c va :
  tree s root T → (n ≤ 3)%nat → T !! c = Some (vpath n va) →
  walk s 3 root va = walk s (3 - n) c va.
Proof.
  intros Ht. revert c. induction n as [|n IH]; intros c Hn Hc.
  - simpl in Hc. by rewrite (tree_root_only _ _ _ Ht _ Hc).
  - simpl in Hc. destruct (tree_parent _ _ _ Ht _ _ _ Hc) as (q & Hq & _ & Hpr & Hps & Ha).
    rewrite (IH q) by (done || lia). replace (3 - n)%nat with (S (3 - S n)) in * by lia.
    cbn [walk]. unfold ent. by rewrite Hpr, Hps, Ha, andb_false_r.
Qed.

(** Below an absent or huge-page word there are no tables. *)
Lemma tree_no_path s root T n q va m c :
  tree s root T → T !! q = Some (vpath n va) →
  has (ent s (3 - n) q va) PAGE_PRESENT = false ∨ has (ent s (3 - n) q va) PAGE_PS = true →
  (n < m)%nat → T !! c ≠ Some (vpath m va).
Proof.
  intros Ht Hq Hbad Hlt. revert c. induction m as [|m IH]; intros c Hc; [lia|].
  simpl in Hc. destruct (tree_parent _ _ _ Ht _ _ _ Hc) as (q' & Hq' & _ & Hpr & Hps & _).
  destruct (decide (n = m)) as [->|]; [|by eapply IH; [lia|]].
  assert (q' = q) as -> by (by eapply tree_path_inj). unfold ent in Hbad.
  destruct Hbad; congruence.
Qed.

(** A table whose path is a prefix of the path of an existing table has a
    present word. *)
Lemma tree_prefix_present s root T n m q c va :
  tree s root T → T !! q = Some (vpath n va) → T !! c = Some (vpath m va) → (n < m)%nat →
  has (ent s (3 - n) q va) PAGE_PRESENT = true.
Proof.
  intros Ht Hq Hc Hlt. destruct (has _ _) eqn:E; [done|]. exfalso.
  by eapply (tree_no_path s root T n q va m c); auto.
Qed.

(** * Writing a page-table word of the last level *)

Lemma vpath_eq n va va' : (∀ k, (3 - n < k < 4)%nat → index k va = index k va') → (n ≤ 3)%nat →
  vpath n va = vpath n va'.
Proof.
  induction n as [|n IH]; intros H Hn; simpl; [done|].
  rewrite IH by (intros; apply H || idtac; lia). by rewrite H by lia.
Qed.

Lemma vpath_inj n va va' k :
  vpath n va = vpath n va' → (3 - n < k < 4)%nat → index k va = index k va'.
Proof.
  induction n as [|n IH]; simpl; intros H Hk; [lia|]. apply app_inj_tail in H as [H1 H2].
  destruct (decide (k = 3 - n)%nat) as [->|]; [done|]. apply IH; [done|lia].
Qed.

Lemma tree_leaf_store s root T c path i v :
  tree s root T → T !! c = Some path → length path = 3%nat → 0 ≤ i < 512 →
  (has v PAGE_PRESENT = false → v = 0) → tree (store (slot c i) v s) root T.
Proof.
  intros Ht Hc Hl Hi Hv. apply (tree_agree s); try done.
  - intros p path' j Hp Hl' Hj. rewrite entry_store by eauto using tree_aligned.
    rewrite decide_False; [done|]. intros [-> _]. rewrite Hc in Hp. injection Hp as ->. lia.
  - intros p path' j Hp Hj. rewrite entry_store by eauto using tree_aligned.
    case_decide; [done|]. by eapply tree_zero.
Qed.

Lemma walk_leaf_store s root T c va v va' :
  tree s root T → T !! c = Some (vpath 3 va) → (has v PAGE_PRESENT = false → v = 0) →
  walk (store (slot c (index 0 va)) v s) 3 root va' =
    if decide (vpage va' = vpage va)
    then if has v PAGE_PRESENT then Some (leaf 0 v va') else None
    else walk s 3 root va'.
Proof.
  intros Ht Hc Hv. pose proof (index_range 0 va) as Hi. case_decide as Hpage.
  - rewrite vpage_eq in Hpage.
    assert (tree (store (slot c (index 0 va)) v s) root T) as Ht'.
    { eapply tree_leaf_store; [done..|apply vpath_length|done|done]. }
    rewrite (walk_reach _ _ _ 3 c va' Ht'); [|lia|].
    2: { rewrite Hc. f_equal. apply vpath_eq; [|lia]. intros k Hk. symmetry. apply Hpage. lia. }
    cbn [walk Nat.sub]. unfold ent. rewrite (Hpage 0%nat) by lia.
    rewrite entry_store, decide_True by eauto using tree_aligned. by destruct (has v _).
  - apply (walk_ext s _ root T); [done|lia|apply Ht|]. intros j p Hj Hp. left. unfold ent.
    rewrite entry_store by (eauto using tree_aligned; apply index_range).
    rewrite decide_False; [done|]. intros [-> Hidx]. apply Hpage. rewrite Hc in Hp.
    assert (j = 0)%nat as ->.
    { assert (Some 3 = Some (3 - j))%nat as [=]; [|lia].
      apply (f_equal (fmap length)) in Hp. simpl in Hp. by rewrite !vpath_length in Hp. }
    apply (inj Some) in Hp. apply vpage_eq. intros k Hk. destruct k as [|k]; [done|].
    symmetry. apply (vpath_inj 3); [done|lia].
Qed.
End Tree.
