(* ===== verification/PagingSpec.v ===== *)
(** What the page-table operations do, for every branch: the specifications of
    the walks, of mapping, unmapping and protecting one page, and the theorems
    about the public operations of paging.c. *)

From S2P Require Import Prelude Frames Boot Paging PageTree.

Section Spec.
Context {A : Type} `{!FrameAllocator A, !FrameAllocatorLaws A}.
Abbreviation state := (paging_state A).
Implicit Types (s : state) (T : gmap Z (list Z)).
#[local] Arguments Z.testbit : simpl never.

(** * Availability of frames *)

(** At least [n] different frames are free. *)
Definition avail (n : nat) (a : A) : Prop :=
  ∃ l, NoDup l ∧ length l = n ∧ Forall (frame_free a) l.

Lemma avail_0 a : avail 0 a.
Proof. exists []. by repeat constructor. Qed.

Lemma avail_take n a a' c :
  (∀ q, frame_free a' q ↔ frame_free a q ∧ q ≠ c) → avail (S n) a → avail n a'.
Proof.
  intros Hfr (l & Hnd & Hl & Hall). destruct (decide (c ∈ l)) as [Hc|Hc].
  - apply list_elem_of_split in Hc as (l1 & l2 & ->). exists (l1 ++ l2).
    rewrite <- Permutation_middle in Hnd, Hall. rewrite length_app in Hl. simpl in Hl.
    apply NoDup_cons in Hnd as [Hnot Hnd]. apply Forall_cons in Hall as [_ Hall].
    split_and!; [done|rewrite length_app; lia|]. apply Forall_forall. intros q Hq.
    apply Hfr. split; [by eapply Forall_forall in Hall|]. by intros ->.
  - destruct l as [|b l]; [done|]. apply NoDup_cons in Hnd as [_ Hnd].
    apply Forall_cons in Hall as [_ Hall]. exists l. split_and!; [done|by injection Hl|].
    apply Forall_forall. intros q Hq. apply Hfr. split; [by eapply Forall_forall in Hall|].
    intros ->. set_solver.
Qed.

Lemma avail_mono j k a : (j ≤ k)%nat → avail k a → avail j a.
Proof.
  intros Hjk (l & Hnd & Hl & Hall). exists (take j l).
  rewrite <- (take_drop j l) in Hnd. apply NoDup_app in Hnd as [Hnd _].
  split_and!; [done|rewrite length_take; lia|by apply Forall_take].
Qed.

Definition OOM : string := "Paging init failed: out of memory for page tables".

(** The panic of [alloc_table_page], when fewer than [n] frames were free. *)
Definition oom (n : nat) s (msg : string) : Prop := msg = OOM ∧ ¬ avail n (pg_frames s).

(** * Growing the tree *)

(** The word that links a new table: present, writable and executable, so that it
    takes no right away from the pages below it. *)
Definition fresh_link (e : Z) : Prop :=
  Z.testbit e 0 = true ∧ Z.testbit e 1 = true ∧ Z.testbit e 63 = false.

(** How a word on the way to the new page may change: not at all, by the user bit
    (bit 2) of a present link, or from absent to a fresh link. *)
Definition link_step (e e' : Z) : Prop :=
  e' = e ∨ (Z.testbit e 0 = true ∧ e' = Z.lor e 4) ∨ (Z.testbit e 0 = false ∧ fresh_link e').

(** The words of a table before the operation; a table that is added starts empty. *)
Definition word_before s T (p i : Z) : Z :=
  match T !! p with Some _ => entry s p i | None => 0 end.

(** Entry [i] of the table at [path] links the next table on the way to [va]. *)
Definition on_path (va : Z) (path : list Z) (i : Z) : Prop :=
  ∃ n, (n < 3)%nat ∧ path ++ [i] = vpath (S n) va.

Lemma link_step_trans e1 e2 e3 : link_step e1 e2 → link_step e2 e3 → link_step e1 e3.
Proof.
  assert (∀ e, Z.testbit (Z.lor e 4) 0 = Z.testbit e 0) as H0
    by (intros e; by rewrite Z.lor_spec, orb_false_r).
  assert (∀ e, fresh_link e → fresh_link (Z.lor e 4)) as Hf.
  { intros e. unfold fresh_link. rewrite !Z.lor_spec. intros (-> & -> & ->). done. }
  intros [->|[[P1 ->]|[P1 F1]]] [->|[[P2 ->]|[P2 F2]]]; unfold link_step; auto.
  - right. left. split; [done|]. by rewrite <- Z.lor_assoc.
  - rewrite H0 in P2. congruence.
Qed.

Lemma link_step_user e e' :
  link_step e e' → Z.testbit e 0 = true → Z.testbit e 2 = true →
  Z.testbit e' 0 = true ∧ Z.testbit e' 2 = true.
Proof.
  intros [->|[[_ ->]|[? _]]] H0 H2; [done| |congruence]. by rewrite !Z.lor_spec, H0, H2.
Qed.

(** * What growing does

    [grown va k s s' root T T']: at most [k] tables were added, each from a free
    frame and on the path of [va]; no translation changed, and frames in use that
    are not tables of this address space were not written. *)
Record grown (va : Z) (k : nat) s s' (root : Z) T T' : Prop := {
  grown_tree : tree s' root T';
  grown_sub : T ⊆ T';
  grown_env : same_env s s';
  grown_walk v : walk s' 3 root v = walk s 3 root v;
  grown_free p : frame_free (pg_frames s') p → frame_free (pg_frames s) p;
  grown_managed p : frame_managed (pg_frames s') p ↔ frame_managed (pg_frames s) p;
  grown_avail n : avail (n + k) (pg_frames s) → avail n (pg_frames s');
  grown_new p path : T' !! p = Some path →
    T !! p = Some path ∨ (frame_free (pg_frames s) p ∧ ∃ n, path = vpath n va);
  grown_word p path i : T !! p = Some path → 0 ≤ i < 512 → entry s p i ≠ 0 → entry s' p i ≠ 0;
  grown_exact p : frame_free (pg_frames s') p ↔ frame_free (pg_frames s) p ∧ T' !! p = None;
  grown_step p path i : T' !! p = Some path → 0 ≤ i < 512 →
    link_step (word_before s T p i) (entry s' p i) ∧
    (entry s' p i = word_before s T p i ∨ on_path va path i);
  grown_foreign p i : p mod 4096 = 0 → 0 ≤ i < 512 → ¬ frame_free (pg_frames s) p → T !! p = None →
    entry s' p i = entry s p i
}.

Lemma grown_refl va s root T : tree s root T → grown va 0 s s root T T.
Proof.
  intros Ht. split; try done; try reflexivity; auto.
  - intros n. by rewrite Nat.add_0_r.
  - intros p. split; [|by intros [? _]]. intros Hp. split; [done|].
    destruct (T !! p) eqn:E; [|done]. by destruct (tree_frame _ _ _ Ht _ _ E).
  - intros p path i Hp _. unfold word_before. rewrite Hp. by split; left.
Qed.

Lemma grown_trans va j k s1 s2 s3 root T1 T2 T3 :
  grown va j s1 s2 root T1 T2 → grown va k s2 s3 root T2 T3 →
  grown va (j + k) s1 s3 root T1 T3.
Proof.
  intros [A1 B1 C1 D1 E1 F1 G1 H1 I1 J1 L1 K1] [A2 B2 C2 D2 E2 F2 G2 H2 I2 J2 L2 K2]. split.
  - done.
  - by etrans.
  - by etrans.
  - intros v. by rewrite D2, D1.
  - auto.
  - intros p. by rewrite F2, F1.
  - intros n Hn. apply G2, G1. by rewrite <- Nat.add_assoc, (Nat.add_comm k).
  - intros p path Hp. apply H2 in Hp as [Hp|[? ?]]; [by apply H1|right; auto].
  - intros p path i Hp Hi Hne. eapply (I2 p path); [|done|by eapply I1].
    by eapply lookup_weaken.
  - intros p. rewrite J2, J1. split; [tauto|]. intros [? Hp]. split_and!; [done| |done].
    by eapply lookup_weaken_None.
  - intros p path i Hp Hi. destruct (L2 p path i Hp Hi) as [S2 O2]. destruct (T2 !! p) as [path2|] eqn:E.
    + assert (path2 = path) as -> by (eapply lookup_weaken in B2; [|exact E]; congruence).
      assert (word_before s2 T2 p i = entry s2 p i) as Hw by (unfold word_before; by rewrite E).
      rewrite Hw in S2, O2. destruct (L1 p path i E Hi) as [S1 O1].
      split; [by eapply link_step_trans|]. destruct O2 as [->|?]; [done|by right].
    + assert (word_before s1 T1 p i = word_before s2 T2 p i) as ->; [|done].
      unfold word_before. by rewrite E, (lookup_weaken_None T1 T2).
  - intros p i Hp Hi Hf Hn. rewrite K2, K1; try done; [by rewrite J1; tauto|].
    destruct (T2 !! p) as [path|] eqn:E; [|done]. by destruct (H1 _ _ E) as [?|[? _]]; [congruence|].
Qed.

Lemma grown_oom va j k s1 s2 root T1 T2 msg :
  grown va j s1 s2 root T1 T2 → oom k s2 msg → oom (j + k) s1 msg.
Proof.
  intros G [-> Hn]. split; [done|]. intros Ha. apply Hn, (grown_avail _ _ _ _ _ _ _ G).
  by rewrite Nat.add_comm.
Qed.

Lemma oom_mono j k s msg : (j ≤ k)%nat → oom j s msg → oom k s msg.
Proof.
  intros Hjk [-> Hn]. split; [done|]. eauto using avail_mono.
Qed.

(** * get_or_create_table *)

Lemma alloc_table_page_spec s :
  frames_inv (pg_frames s) →
  run (oom 1 s) alloc_table_page (λ c s',
    frame_free (pg_frames s) c ∧ frame_addr c ∧ frames_inv (pg_frames s') ∧ same_env s s' ∧
    (∀ p, frame_managed (pg_frames s') p ↔ frame_managed (pg_frames s) p) ∧
    (∀ p, frame_free (pg_frames s') p ↔ frame_free (pg_frames s) p ∧ p ≠ c) ∧
    table_pages_allocated (g_paging_info s') = u64 (table_pages_allocated (g_paging_info s) + 1) ∧
    (∀ p i, p mod 4096 = 0 → 0 ≤ i < 512 →
       entry s' p i = if decide (p = c) then 0 else entry s p i)) s.
Proof.
  intros HF. unfold alloc_table_page, on_frames. run_step. apply run_zoom.
  eapply run_weaken; [by apply try_alloc_frame_spec|done|].
  intros [c|] a' (HF' & HM' & Hr).
  2: { apply run_panic. split; [done|]. intros ([|p l] & _ & [=] & Hall).
       apply Forall_cons in Hall as [Hp _]. by apply (proj2 Hr p). }
  destruct Hr as [Hc Hfr].
  assert (frame_addr c) as Hca.
  { apply (frame_managed_aligned (pg_frames s)); [done|]. by apply frame_free_managed. }
  destruct (Z.eqb_spec c UINT64_MAX) as [->|_]; [destruct Hca; unfold UINT64_MAX in *; lia|].
  run_steps.
  destruct (zero_table_fields (set_frames a' s) c) as (E1 & E2 & E3 & E4 & E5 & E6 & E7 & E8 & E9).
  simpl. rewrite ?E1. split_and!; [done|done|done| |done|done| |].
  - repeat split; simpl; rewrite ?E2, ?E3, ?E4, ?E5, ?E6, ?E7, ?E8, ?E9; done.
  - by rewrite ?E2.
  - intros p i Hp Hi. apply (entry_zero_table (set_frames a' s)); [done|apply Hca|done].
Qed.

(** The word written for a new child. *)
Lemma table_word c (user : bool) :
  frame_addr c →
  let e := Z.lor (Z.lor c PAGE_PRESENT) PAGE_WRITABLE in
  let e := if user then Z.lor e PAGE_USER else e in
  has e PAGE_PRESENT = true ∧ has e PAGE_PS = false ∧ Z.land e ENTRY_ADDR_MASK_4K = c.
Proof.
  intros Hc. cbv zeta. unfold PAGE_PRESENT, PAGE_WRITABLE, PAGE_USER, PAGE_PS.
  assert (has c (Z.shiftl 1 7) = false) as Hps by (by apply frame_low_bit).
  assert (∀ k, k = 0 ∨ k = 1 ∨ k = 2 → Z.land (Z.shiftl 1 k) ENTRY_ADDR_MASK_4K = 0) as Hm
    by (by intros k [->|[->| ->]]).
  destruct user; rewrite !has_lor by lia; (split_and!; [by rewrite !orb_true_r|by rewrite Hps|]);
    rewrite !Z.land_lor_distr_l, !Hm, (mask4k_frame c Hc), !Z.lor_0_r by tauto; done.
Qed.

Lemma frame_high_bit c k : frame_addr c → 52 ≤ k → Z.testbit c k = false.
Proof.
  intros [_ Hc] Hk. rewrite Z.testbit_eqb by lia.
  rewrite Z.div_small; [done|]. pose proof (Z.pow_le_mono_r 2 52 k). lia.
Qed.

Lemma table_word_link c (user : bool) :
  frame_addr c →
  let e := Z.lor (Z.lor c PAGE_PRESENT) PAGE_WRITABLE in
  let e := if user then Z.lor e PAGE_USER else e in
  fresh_link e ∧ Z.testbit e 2 = user.
Proof.
  intros Hc. cbv zeta. unfold fresh_link.
  pose proof (frame_high_bit c 63 Hc) as H63. pose proof (frame_low_bit c 2 Hc) as H2.
  rewrite has_testbit in H2 by lia.
  destruct user; rewrite !Z.lor_spec, H63, H2, ?orb_true_r by lia; done.
Qed.

Lemma get_or_create_spec s root T q va k user :
  tree s root T → (k < 3)%nat → T !! q = Some (vpath (2 - k) va) →
  (has (ent s (S k) q va) PAGE_PRESENT = true → has (ent s (S k) q va) PAGE_PS = false) →
  run (oom 1 s) (get_or_create_table q (index (S k) va) user) (λ c s',
    ∃ T', grown va 1 s s' root T T' ∧ T' !! c = Some (vpath (3 - k) va) ∧
      (∀ p path, T' !! p = Some path → T !! p = Some path ∨ p = c) ∧
      (user = true → Z.testbit (entry s' q (index (S k) va)) 0 = true ∧
         Z.testbit (entry s' q (index (S k) va)) 2 = true)) s.
Proof.
  unfold ent. intros Ht Hk Hq Hps. pose proof (tree_frame_addr _ _ _ _ _ Ht Hq) as Hqa.
  replace (3 - k)%nat with (S (2 - k)) by lia. simpl. replace (3 - (2 - k))%nat with (S k) by lia.
  pose proof (index_range (S k) va) as Hi.
  assert (length (vpath (2 - k) va) < 3)%nat as Hl by (rewrite vpath_length; lia).
  assert (∃ n, vpath (2 - k) va ++ [index (S k) va] = vpath n va) as Hpath.
  { exists (S (2 - k)). simpl. do 4 f_equal. lia. }
  assert (on_path va (vpath (2 - k) va) (index (S k) va)) as Hon.
  { exists (2 - k)%nat. split; [lia|]. simpl. do 4 f_equal. lia. }
  revert Hq Hi Hps Hl Hpath Hon. generalize (vpath (2 - k) va), (index (S k) va). intros path i.
  intros Hq Hi Hps Hl Hpath Hon.
  unfold get_or_create_table. run_step. run_step.
  destruct (has (entry s q i) PAGE_PRESENT) eqn:Hpr.
  - rewrite Hps by done.
    assert (T !! Z.land (entry s q i) ENTRY_ADDR_MASK_4K = Some (path ++ [i])) as Hc.
    { apply (tree_child _ _ _ Ht); auto. }
    assert (grown va 1 s s root T T) as Hg.
    { destruct (grown_refl va s root T Ht) as [? ? ? ? ? ? Ha ? ? ? ? ?]. split; try done.
      intros n. apply avail_mono. lia. }
    pose proof Hpr as Hpb. unfold PAGE_PRESENT in Hpb. rewrite has_testbit in Hpb by lia.
    run_step. destruct (user && negb (has (entry s q i) PAGE_USER)) eqn:Hu; run_steps.
    2: { exists T. split_and!; auto. intros ->. split; [done|]. rewrite <- has_testbit by lia.
         by destruct (has (entry s q i) (Z.shiftl 1 2)) eqn:E; [|unfold PAGE_USER in Hu; rewrite E in Hu]. }
    exists T. set (s' := store _ _ s). split; [|split_and!; auto].
    2: { intros _. unfold s'. rewrite entry_store by eauto using tree_aligned.
         rewrite decide_True, !Z.lor_spec, Hpb by done. split; [done|apply orb_true_r]. }
    assert (∀ p path' j, T !! p = Some path' → 0 ≤ j < 512 → agree (entry s p j) (entry s' p j)) as Hag.
    { intros p path' j Hp Hj. unfold s'.
      rewrite entry_store by eauto using tree_aligned.
      case_decide as Hd; [destruct Hd as [-> ->]|reflexivity]. by apply agree_flag. }
    assert (tree s' root T) as Ht'.
    { apply (tree_agree s); try done; eauto.
      intros p path' j Hp Hj H0. unfold s' in *.
      rewrite entry_store in *
        by eauto using tree_aligned.
      case_decide as Hd; [|by eapply tree_zero]. unfold PAGE_PRESENT in *.
      rewrite has_lor, Hpr in H0 by lia. done. }
    destruct Hg as [? ? ? ? ? ? ? ? ? ? Hst ?]. split; try done.
    + intros v. apply (walk_ext s s' root T); [done|lia|apply Ht|]. intros j p Hj Hp. left.
      eapply Hag; [done|apply index_range].
    + intros p path' j Hp Hj Hne. unfold s'. rewrite entry_store by eauto using tree_aligned.
      case_decide; [|done]. intros [He _]%Z.lor_eq_0_iff. by rewrite He in Hpr.
    + intros p path' j Hp Hj. unfold s', word_before. rewrite Hp.
      rewrite entry_store by eauto using tree_aligned. case_decide as Hd; [|by split; left].
      destruct Hd as [-> ->]. assert (path' = path) as -> by congruence. split; [right; left; done|by right].
    + intros p j Hp Hj _ HpT. unfold s'. rewrite entry_store by eauto using tree_aligned.
      case_decide as Hd; [destruct Hd; congruence|done].
  - run_step. eapply run_mono; [apply alloc_table_page_spec, Ht|].
    intros c s1 (Hfree & Hca & HF & Henv & HM & Hfr & Hcnt & Hent). run_steps.
    destruct (table_word c user Hca) as (W1 & W2 & W3).
    destruct (table_word_link c user Hca) as [W4 W5]. cbv zeta in W1, W2, W3, W4, W5.
    set (v := if user then _ else _) in *. set (s' := store _ _ s1).
    assert (c ≠ q) as Hcq.
    { intros ->. by destruct (tree_frame _ _ _ Ht _ _ Hq). }
    assert (∀ p j, p mod 4096 = 0 → 0 ≤ j < 512 → entry s' p j =
      if decide (p = q ∧ j = i) then v else if decide (p = c) then 0 else entry s p j) as Hent'.
    { intros p j Hp Hj. unfold s'. rewrite entry_store by eauto using tree_aligned.
      case_decide; [done|]. by apply Hent. }
    assert (entry s' q i = v) as Hv.
    { rewrite Hent' by eauto using tree_aligned. by rewrite decide_True. }
    assert (∀ j, 0 ≤ j < 512 → entry s' c j = 0) as Hz.
    { intros j Hj. rewrite Hent' by (done || by destruct Hca).
      rewrite decide_False, decide_True by naive_solver. done. }
    assert (∀ p path' j, T !! p = Some path' → 0 ≤ j < 512 → ¬ (p = q ∧ j = i) →
      entry s' p j = entry s p j) as Hsame.
    { intros p path' j Hp Hj Hn. rewrite Hent' by eauto using tree_aligned.
      rewrite decide_False by done. rewrite decide_False; [done|].
      intros ->. by destruct (tree_frame _ _ _ Ht _ _ Hp). }
    destruct (tree_link s s' root T q path i c) as [HcT Ht']; rewrite ?Hv; try done.
    exists (<[c := path ++ [i]]> T). split; [|split; [apply lookup_insert_eq|]].
    2: { split; [intros p path'; rewrite lookup_insert_Some; naive_solver|].
         intros Hu. split; [apply W4|congruence]. }
    split.
    + done.
    + by apply insert_subseteq.
    + done.
    + intros v'. by apply (walk_link s s' root T q path i c); rewrite ?Hv.
    + intros p Hp. by apply Hfr in Hp as [? _].
    + done.
    + intros n Hn. eapply avail_take; [done|]. by rewrite Nat.add_comm in Hn.
    + intros p path'. rewrite lookup_insert_Some. intros [[<- <-]|[_ ?]]; auto.
    + intros p path' j Hp Hj Hne. destruct (decide (p = q ∧ j = i)) as [[-> ->]|Hn].
      * rewrite Hv. intros E. by rewrite E in W1.
      * by rewrite (Hsame _ _ _ Hp Hj Hn).
    + intros p. rewrite lookup_insert_None. change (pg_frames s') with (pg_frames s1). rewrite Hfr. split.
      * intros [Hp Hpc]. split_and!; [done| |done]. destruct (T !! p) eqn:E; [|done].
        by destruct (tree_frame _ _ _ Ht _ _ E).
      * intros (? & _ & ?). done.
    + intros p path' j. rewrite lookup_insert_Some. unfold word_before. intros [[<- <-]|[Hpc Hp]] Hj.
      * rewrite HcT, Hz by done. by split; left.
      * rewrite Hp. destruct (decide (p = q ∧ j = i)) as [[-> ->]|Hn].
        -- rewrite Hv. assert (path' = path) as -> by congruence. split; [right; right|by right].
           rewrite <- has_testbit by lia. done.
        -- rewrite (Hsame _ _ _ Hp Hj Hn). by split; left.
    + intros p j Hp Hj Hf HpT. rewrite Hent' by done. rewrite !decide_False; [done|congruence|].
      intros [-> _]. congruence.
Qed.
(** * walk_to_pte *)

Lemma untranslated_not_huge s root T k c va :
  tree s root T → (1 ≤ k ≤ 2)%nat → T !! c = Some (vpath (3 - k) va) →
  walk s 3 root va = None → has (ent s k c va) PAGE_PS = false.
Proof.
  intros Ht Hk Hc Hw. rewrite (walk_reach _ _ _ (3 - k) _ _ Ht ltac:(lia) Hc) in Hw.
  replace (3 - (3 - k))%nat with k in Hw by lia.
  destruct (has (ent s k c va) PAGE_PRESENT) eqn:Hpr.
  - destruct (has (ent s k c va) PAGE_PS) eqn:Hps; [|done]. exfalso.
    destruct k as [|k]; [lia|]. cbn [walk] in Hw. rewrite Hpr, Hps in Hw.
    by rewrite (proj2 (Nat.leb_le (S k) 2)) in Hw by lia.
  - unfold ent in *. by rewrite (tree_zero _ _ _ Ht _ _ _ Hc (index_range k va) Hpr).
Qed.

(** With [create], an address without translation always gets its PTE. *)
Lemma walk_to_pte_create_spec s root T r va user :
  tree s root T → Z.land r ENTRY_ADDR_MASK_4K = root → walk s 3 root va = None →
  run (oom 3 s) (walk_to_pte r va true user) (λ pte s',
    ∃ c T', pte = Some (slot c (index 0 va)) ∧ grown va 3 s s' root T T' ∧
      T' !! c = Some (vpath 3 va) ∧ entry s' c (index 0 va) = 0 ∧
      (user = true → ∀ n q, (n < 3)%nat → T' !! q = Some (vpath n va) →
         Z.testbit (entry s' q (index (3 - n) va)) 2 = true)) s.
Proof.
  intros Ht Hr Hw. unfold walk_to_pte. cbv zeta.
  rewrite Hr, pml4_index_eq, pdpt_index_eq, pd_index_eq, pt_index_eq.
  run_step. run_step. rewrite andb_false_r. run_step.
  eapply run_weaken; [apply (get_or_create_spec s root T root va 2)|by intros msg; apply oom_mono; lia|].
  1,2,3: by (apply Ht || lia). { apply (tree_pml4 _ _ _ Ht), index_range. }
  intros c1 s1 (T1 & G1 & Hc1 & _ & U1). run_step. run_step.
  assert (walk s1 3 root va = None) as Hw1 by (by rewrite (grown_walk _ _ _ _ _ _ _ G1)).
  pose proof (untranslated_not_huge s1 root T1 2 c1 va (grown_tree _ _ _ _ _ _ _ G1) ltac:(lia) Hc1 Hw1) as Hh1.
  unfold ent in Hh1. rewrite Hh1, andb_false_r. run_step.
  eapply run_weaken; [apply (get_or_create_spec s1 root T1 c1 va 1)| |].
  1,2,3,4: by (apply G1 || lia || done).
  { intros msg Hm. eapply oom_mono; [|by eapply grown_oom]. lia. }
  intros c2 s2 (T2 & G2 & Hc2 & _ & U2). run_step. run_step.
  assert (walk s2 3 root va = None) as Hw2 by (by rewrite (grown_walk _ _ _ _ _ _ _ G2)).
  pose proof (untranslated_not_huge s2 root T2 1 c2 va (grown_tree _ _ _ _ _ _ _ G2) ltac:(lia) Hc2 Hw2) as Hh2.
  unfold ent in Hh2. rewrite Hh2, andb_false_r. run_step.
  pose proof (grown_trans _ _ _ _ _ _ _ _ _ _ G1 G2) as G12.
  eapply run_weaken; [apply (get_or_create_spec s2 root T2 c2 va 0)| |].
  1,2,3,4: by (apply G2 || lia || done).
  { intros msg Hm. eapply oom_mono; [|by eapply grown_oom]. lia. }
  intros c3 s3 (T3 & G3 & Hc3 & _ & U3). run_step.
  pose proof (grown_trans _ _ _ _ _ _ _ _ _ _ G12 G3) as G.
  pose proof (grown_tree _ _ _ _ _ _ _ G) as Ht3.
  exists c3, T3. split_and!; [done|done|done| |].
  2: { intros Hu n q Hn Hq.
       assert (∀ k1 sa sb Ta Tb p path i, grown va k1 sa sb root Ta Tb → Ta !! p = Some path → 0 ≤ i < 512 →
         Z.testbit (entry sa p i) 0 = true → Z.testbit (entry sa p i) 2 = true →
         Z.testbit (entry sb p i) 0 = true ∧ Z.testbit (entry sb p i) 2 = true) as Hkeep.
       { intros k1 sa sb Ta Tb p path i Gab Hp Hi B0 B2.
         destruct (grown_step _ _ _ _ _ _ _ Gab p path i) as [Hst _]; [|done|].
         { eapply lookup_weaken; [done|apply Gab]. }
         unfold word_before in Hst. rewrite Hp in Hst. by eapply link_step_user. }
       pose proof (grown_sub _ _ _ _ _ _ _ G2) as S2. pose proof (grown_sub _ _ _ _ _ _ _ G3) as S3.
       destruct (U1 Hu) as [A1 B1], (U2 Hu) as [A2 B2], (U3 Hu) as [A3 B3].
       assert (n = 0 ∨ n = 1 ∨ n = 2)%nat as [->|[->| ->]] by lia.
       - assert (q = root) as -> by (by apply (tree_root_only _ _ _ Ht3)).
         eapply (Hkeep _ s1); [exact (grown_trans _ _ _ _ _ _ _ _ _ _ G2 G3)|apply G1|apply index_range|done|done].
       - assert (q = c1) as ->.
         { eapply (tree_path_inj _ _ _ _ _ _ Ht3); [done|]. eapply lookup_weaken; [|done]. by eapply lookup_weaken. }
         eapply (Hkeep _ s2); [exact G3|exact (lookup_weaken _ _ _ _ Hc1 S2)|apply index_range|done|done].
       - assert (q = c2) as ->; [|done].
         eapply (tree_path_inj _ _ _ _ _ _ Ht3); [done|]. by eapply lookup_weaken. }
  apply (tree_zero _ _ _ Ht3 _ _ _ Hc3 (index_range 0 va)).
  rewrite <- (grown_walk _ _ _ _ _ _ _ G), (walk_reach _ _ _ _ _ _ Ht3 (le_n 3) Hc3) in Hw.
  cbn [walk Nat.sub] in Hw. unfold ent in Hw. by destruct (has _ _).
Qed.

Lemma get_table_present s q i :
  has (entry s q i) PAGE_PRESENT = true → has (entry s q i) PAGE_PS = false →
  get_or_create_table q i false s = Ok (Z.land (entry s q i) ENTRY_ADDR_MASK_4K, s).
Proof. intros H1 H2. unfold get_or_create_table, bind, gets. by rewrite H1, H2. Qed.

(** Without [create] the walk changes nothing and finds the PTE exactly when
    the page table of the address exists. *)
Lemma walk_to_pte_lookup_spec s root T r va :
  tree s root T → Z.land r ENTRY_ADDR_MASK_4K = root →
  wp (walk_to_pte r va false false) (λ pte s', s' = s ∧
    match pte with
    | Some a => ∃ c, T !! c = Some (vpath 3 va) ∧ a = slot c (index 0 va)
    | None => ∀ c, T !! c ≠ Some (vpath 3 va)
    end) s.
Proof.
  intros Ht Hr. unfold walk_to_pte. cbv zeta.
  rewrite Hr, pml4_index_eq, pdpt_index_eq, pd_index_eq, pt_index_eq.
  assert (∀ n q c, T !! q = Some (vpath n va) → (n < 3)%nat →
    has (ent s (3 - n) q va) PAGE_PRESENT = false ∨ has (ent s (3 - n) q va) PAGE_PS = true →
    T !! c ≠ Some (vpath 3 va)) as Hno by (intros; eapply tree_no_path; eauto).
  pose proof (tree_root _ _ _ Ht) as H0.
  run_step. run_step. rewrite andb_true_r.
  destruct (has (entry s root (index 3 va)) PAGE_PRESENT) eqn:P3; cbn [negb andb]; cbv iota.
  2: { run_step. split; [done|]. intros c. apply (Hno 0%nat root); auto. }
  pose proof (tree_pml4 _ _ _ Ht _ (index_range 3 va) P3) as S3.
  run_step. eapply run_value; [by apply get_table_present|].
  pose proof (tree_walk_child s root T 2 root va Ht ltac:(lia) H0 P3 S3) as H1.
  unfold ent in H1. set (c1 := Z.land (entry s root _) _) in *. run_step. run_step. rewrite andb_true_r.
  destruct (has (entry s c1 (index 2 va)) PAGE_PS) eqn:S2.
  { run_step. split; [done|]. intros c. apply (Hno 1%nat c1); auto. }
  destruct (has (entry s c1 (index 2 va)) PAGE_PRESENT) eqn:P2; cbn [negb andb]; cbv iota.
  2: { run_step. split; [done|]. intros c. apply (Hno 1%nat c1); auto. }
  run_step. eapply run_value; [by apply get_table_present|].
  pose proof (tree_walk_child s root T 1 c1 va Ht ltac:(lia) H1 P2 S2) as H2.
  unfold ent in H2. set (c2 := Z.land (entry s c1 _) _) in *. run_step. run_step. rewrite andb_true_r.
  destruct (has (entry s c2 (index 1 va)) PAGE_PS) eqn:S1.
  { run_step. split; [done|]. intros c. apply (Hno 2%nat c2); auto. }
  destruct (has (entry s c2 (index 1 va)) PAGE_PRESENT) eqn:P1; cbn [negb andb]; cbv iota.
  2: { run_step. split; [done|]. intros c. apply (Hno 2%nat c2); auto. }
  run_step. eapply run_value; [by apply get_table_present|].
  pose proof (tree_walk_child s root T 0 c2 va Ht ltac:(lia) H2 P1 S1) as H3.
  run_step. split; [done|]. by eexists.
Qed.
(** * Invariants and effects of the page operations *)

(** No table but the root is empty. *)
Definition compact s T : Prop :=
  ∀ p path, T !! p = Some path → path ≠ [] → ∃ i, 0 ≤ i < 512 ∧ entry s p i ≠ 0.

(** The well-formed address space rooted at [root]. *)
Definition space s (root : Z) T : Prop := tree s root T ∧ compact s T.

Definition same_ctl s s' : Prop :=
  g_paging_initialized s' = g_paging_initialized s ∧ g_nx_enabled s' = g_nx_enabled s ∧
  g_paging_lock s' = g_paging_lock s ∧ g_ipi_ready s' = g_ipi_ready s ∧
  cr3 s' = cr3 s ∧ cr4 s' = cr4 s ∧
  root_pml4_phys (g_paging_info s') = root_pml4_phys (g_paging_info s).

#[export] Instance same_ctl_preorder : PreOrder same_ctl.
Proof. split; [by repeat split|]. intros ???; unfold same_ctl; intuition congruence. Qed.

Lemma same_env_ctl s s' : same_env s s' → same_ctl s s'.
Proof. unfold same_env, same_ctl. tauto. Qed.

(** What [paging_invlpg] logs, newest first. *)
Definition invlpg_events s (va : Z) : list tlb_event :=
  if g_ipi_ready s then [Shootdown; Invlpg va] else [Invlpg va].

Lemma paging_invlpg_spec E s va (Q : unit → state → Prop) :
  (∀ s', pg_mem s' = pg_mem s → pg_frames s' = pg_frames s → g_paging_info s' = g_paging_info s →
     same_ctl s s' → pg_tlb s' = invlpg_events s va ++ pg_tlb s → Q tt s') →
  run E (paging_invlpg va) Q s.
Proof.
  intros HQ. unfold paging_invlpg. run_steps. unfold invlpg_events in HQ. simpl.
  destruct (g_ipi_ready s) eqn:E0; run_steps; apply HQ; simpl; auto; by repeat split.
Qed.

(** [tree], [walk] and [compact] only depend on memory, frames and the counter. *)
Lemma entry_mem s s' p i : pg_mem s' = pg_mem s → entry s' p i = entry s p i.
Proof. unfold entry, load. by intros ->. Qed.

Lemma tree_mem s s' root T :
  pg_mem s' = pg_mem s → pg_frames s' = pg_frames s → g_paging_info s' = g_paging_info s →
  tree s root T → tree s' root T.
Proof.
  intros Hm Hf Hi Ht. apply (tree_agree s); try done; [by rewrite Hi| |].
  - intros. by rewrite (entry_mem s s').
  - intros p path j Hp Hj. rewrite (entry_mem s s') by done. by eapply tree_zero.
Qed.

Lemma space_mem s s' root T :
  pg_mem s' = pg_mem s → pg_frames s' = pg_frames s → g_paging_info s' = g_paging_info s →
  space s root T → space s' root T.
Proof.
  intros Hm Hf Hi [Ht Hc]. split; [by eapply tree_mem|].
  - intros p path Hp Hn. destruct (Hc _ _ Hp Hn) as (i & Hir & He). exists i.
    by rewrite (entry_mem s s').
Qed.

Lemma walk_mem s s' k p va : pg_mem s' = pg_mem s → walk s' k p va = walk s k p va.
Proof.
  intros Hm. revert p. induction k as [|k IH]; intros p; cbn [walk]; unfold ent;
    rewrite (entry_mem s s') by done; [done|]. by rewrite IH.
Qed.

(** * Leaf words *)

Lemma lor_add_low p x : p mod 4096 = 0 → Z.lor p (Z.land x (PAGE_SIZE_4K - 1)) = p + x mod 4096.
Proof.
  intros Hp. change (PAGE_SIZE_4K - 1) with (2 ^ 12 - 1). rewrite land_ones_mod by lia.
  change (2 ^ 12) with 4096. rewrite <- Z.lxor_lor, Z.add_nocarry_lxor; [done| |].
  all: apply Z.bits_inj'; intros n Hn; rewrite Z.land_spec, Z.bits_0.
  all: destruct (decide (n < 12));
    [rewrite <- (Z.mod_pow2_bits_low p 12) by lia; change (2 ^ 12) with 4096; by rewrite Hp, Z.bits_0|].
  all: change 4096 with (2 ^ 12); rewrite (Z.mod_pow2_bits_high x) by lia; apply andb_false_r.
Qed.

Lemma hw_flags_mask s flags : Z.land (paging_flags_to_hw s flags) ENTRY_ADDR_MASK_4K = 0.
Proof. unfold paging_flags_to_hw. repeat case_match; reflexivity. Qed.

Definition pte_word s (pa flags : Z) : Z :=
  Z.lor (Z.land pa ENTRY_ADDR_MASK_4K) (Z.lor (paging_flags_to_hw s flags) PAGE_PRESENT).

Lemma pte_word_present s pa flags : has (pte_word s pa flags) PAGE_PRESENT = true.
Proof. unfold pte_word, PAGE_PRESENT. rewrite !has_lor by lia. by rewrite !orb_true_r. Qed.

Lemma pte_word_addr s pa flags :
  Z.land (pte_word s pa flags) ENTRY_ADDR_MASK_4K = Z.land pa ENTRY_ADDR_MASK_4K.
Proof.
  unfold pte_word. rewrite !Z.land_lor_distr_l, hw_flags_mask, <- Z.land_assoc, Z.land_diag.
  apply Z.lor_0_r.
Qed.

(** The flag bits of a page's word come from the flags alone. *)
Lemma pte_word_bit s pa flags k :
  0 < k → Z.testbit ENTRY_ADDR_MASK_4K k = false →
  Z.testbit (pte_word s pa flags) k = Z.testbit (paging_flags_to_hw s flags) k.
Proof.
  intros Hk Hm. unfold pte_word, PAGE_PRESENT.
  rewrite !Z.lor_spec, Z.land_spec, Hm, andb_false_r, Z.shiftl_1_l, Z.pow2_bits_false by lia.
  apply orb_false_r.
Qed.

Lemma pte_word_user s pa flags :
  Z.testbit (pte_word s pa flags) 2 = has flags PAGING_FLAG_USER.
Proof. rewrite pte_word_bit by done. unfold paging_flags_to_hw. repeat case_match; done. Qed.

(** What a word of the last level allows, by the bits of the hardware manual. *)
Record rights := {
  may_write : bool; user_mode : bool; write_through : bool; uncached : bool;
  survives_cr3 : bool; no_execute : bool
}.

Definition page_rights (e : Z) : rights := {|
  may_write := Z.testbit e 1; user_mode := Z.testbit e 2; write_through := Z.testbit e 3;
  uncached := Z.testbit e 4; survives_cr3 := Z.testbit e 8; no_execute := Z.testbit e 63
|}.

(** What the flags of the interface ask for; without NX support every page is executable. *)
Definition requested_rights (nx : bool) (flags : Z) : rights := {|
  may_write := Z.testbit flags 0; user_mode := Z.testbit flags 1; write_through := Z.testbit flags 5;
  uncached := Z.testbit flags 4; survives_cr3 := Z.testbit flags 3;
  no_execute := nx && negb (Z.testbit flags 2)
|}.

Lemma pte_word_rights s pa flags :
  page_rights (pte_word s pa flags) = requested_rights (g_nx_enabled s) flags.
Proof.
  unfold page_rights, requested_rights. rewrite !pte_word_bit by done.
  rewrite <- !has_testbit by lia. unfold paging_flags_to_hw.
  change (Z.shiftl 1 0) with PAGING_FLAG_WRITABLE. change (Z.shiftl 1 1) with PAGING_FLAG_USER.
  change (Z.shiftl 1 2) with PAGING_FLAG_EXEC. change (Z.shiftl 1 3) with PAGING_FLAG_GLOBAL.
  change (Z.shiftl 1 4) with PAGING_FLAG_NO_CACHE. change (Z.shiftl 1 5) with PAGING_FLAG_WRITE_THROUGH.
  generalize (has flags PAGING_FLAG_WRITABLE), (has flags PAGING_FLAG_USER), (has flags PAGING_FLAG_EXEC),
    (has flags PAGING_FLAG_GLOBAL), (has flags PAGING_FLAG_NO_CACHE), (has flags PAGING_FLAG_WRITE_THROUGH).
  intros [] [] [] [] [] []; destruct (g_nx_enabled s); reflexivity.
Qed.

Lemma pte_word_leaf s pa flags va :
  frame_addr pa → leaf 0 (pte_word s pa flags) va = pa + va mod 4096.
Proof.
  intros Hpa. simpl. rewrite pte_word_addr, mask4k_frame by done. apply lor_add_low, Hpa.
Qed.

Lemma has_offset x : has x (PAGE_SIZE_4K - 1) = negb (x mod 4096 =? 0).
Proof.
  unfold has. change (PAGE_SIZE_4K - 1) with (2 ^ 12 - 1). by rewrite land_ones_mod by lia.
Qed.

Lemma has_offset_lor x y :
  has (Z.lor x y) (PAGE_SIZE_4K - 1) = negb ((x mod 4096 =? 0) && (y mod 4096 =? 0)).
Proof.
  rewrite negb_andb, <- !has_offset. unfold has. rewrite Z.land_lor_distr_l, <- negb_andb.
  f_equal. apply eq_true_iff_eq. rewrite andb_true_iff, !Z.eqb_eq. apply Z.lor_eq_0_iff.
Qed.
(** * Mapping one page *)

Lemma present_nonzero e : has e PAGE_PRESENT = true → e ≠ 0.
Proof. by intros H ->. Qed.

(** Writing a present leaf word after growing the path keeps every table in use. *)
Lemma compact_leaf s s1 va k root T T1 c v :
  compact s T → grown va k s s1 root T T1 → T1 !! c = Some (vpath 3 va) →
  has v PAGE_PRESENT = true → compact (store (slot c (index 0 va)) v s1) T1.
Proof.
  intros Hcp G Hc Hv p path Hp Hne. pose proof (grown_tree _ _ _ _ _ _ _ G) as Ht.
  assert (∃ i, 0 ≤ i < 512 ∧ (entry s1 p i ≠ 0 ∨ (p = c ∧ i = index 0 va))) as (i & Hi & Hnz).
  { destruct (grown_new _ _ _ _ _ _ _ G p path Hp) as [HT|[_ [n ->]]].
    { destruct (Hcp _ _ HT Hne) as (i & Hi & He). exists i. split; [done|left].
      by eapply (grown_word _ _ _ _ _ _ _ G). }
    pose proof (tree_depth _ _ _ Ht _ _ Hp) as Hn. rewrite vpath_length in Hn.
    destruct (decide (n = 3)%nat) as [->|].
    { exists (index 0 va). split; [apply index_range|right]. split; [|done]. by eapply tree_path_inj. }
    exists (index (3 - n) va). split; [apply index_range|left]. apply present_nonzero.
    eapply (tree_prefix_present s1 root T1 n 3 p c); eauto. lia. }
  exists i. split; [done|]. rewrite entry_store by eauto using tree_aligned, index_range.
  case_decide; [by apply present_nonzero|]. by destruct Hnz.
Qed.

(** The outcome of [paging_map_page]: [true] exactly when the arguments are
    acceptable and the page had no translation. *)
Definition map_ok s (root va pa flags : Z) : bool :=
  (va mod 4096 =? 0) && (pa mod 4096 =? 0) &&
  negb (has flags PAGING_FLAG_GLOBAL && has flags PAGING_FLAG_USER) &&
  bool_decide (walk s 3 root va = None).

(** After a successful mapping. *)
Record mapped s s' (root va : Z) (word : Z) T T' : Prop := {
  mapped_space : compact s T → space s' root T';
  mapped_tree : tree s' root T';
  mapped_sub : T ⊆ T';
  mapped_new p path : T' !! p = Some path → T !! p = Some path ∨ frame_free (pg_frames s) p;
  mapped_ctl : same_ctl s s';
  mapped_tlb : pg_tlb s' = invlpg_events s va ++ pg_tlb s;
  mapped_managed p : frame_managed (pg_frames s') p ↔ frame_managed (pg_frames s) p;
  mapped_free p : frame_free (pg_frames s') p → frame_free (pg_frames s) p;
  mapped_avail n : avail (n + 3) (pg_frames s) → avail n (pg_frames s');
  mapped_exact p : frame_free (pg_frames s') p ↔ frame_free (pg_frames s) p ∧ T' !! p = None;
  mapped_leaf : ∃ c, T' !! c = Some (vpath 3 va) ∧ entry s' c (index 0 va) = word;
  mapped_user n q : Z.testbit word 2 = true → (n < 3)%nat → T' !! q = Some (vpath n va) →
    Z.testbit (entry s' q (index (3 - n) va)) 2 = true;
  mapped_step p path i : T' !! p = Some path → 0 ≤ i < 512 → path ++ [i] ≠ vpath 4 va →
    link_step (word_before s T p i) (entry s' p i) ∧
    (entry s' p i = word_before s T p i ∨ on_path va path i);
  mapped_foreign p i : p mod 4096 = 0 → 0 ≤ i < 512 → ¬ frame_free (pg_frames s) p → T !! p = None →
    entry s' p i = entry s p i;
  mapped_walk v : walk s' 3 root v =
    if decide (vpage v = vpage va) then Some (leaf 0 word v) else walk s 3 root v
}.

Lemma map_page_locked_spec s root T r va pa flags :
  tree s root T → Z.land r ENTRY_ADDR_MASK_4K = root →
  run (oom 3 s) (paging_map_page_locked r va pa flags) (λ ok s',
    ok = map_ok s root va pa flags ∧
    if ok then ∃ T', mapped s s' root va (pte_word s pa flags) T T' else s' = s) s.
Proof.
  intros Ht Hr. unfold paging_map_page_locked, map_ok. rewrite has_offset_lor.
  destruct ((va mod 4096 =? 0) && (pa mod 4096 =? 0)); cbn [negb andb]; [|by run_step].
  destruct (has flags PAGING_FLAG_GLOBAL && has flags PAGING_FLAG_USER); cbn [negb andb]; [by run_step|].
  run_step. run_step. rewrite translate_walk, Hr.
  destruct (walk s 3 root va) eqn:Hw; [by run_step|]. rewrite bool_decide_true by done.
  run_step. eapply run_mono; [by apply walk_to_pte_create_spec|].
  intros pte s1 (c & T1 & -> & G & Hc & He & Hus). run_step. run_step.
  assert (paging_flags_to_hw s1 flags = paging_flags_to_hw s flags) as ->.
  { unfold paging_flags_to_hw. by destruct (grown_env _ _ _ _ _ _ _ G) as (_ & -> & _). }
  change (Z.lor (Z.land pa _) _) with (pte_word s pa flags). set (v := pte_word s pa flags).
  pose proof (pte_word_present s pa flags : has v _ = true) as Hv.
  run_step. run_step. run_step. apply paging_invlpg_spec. intros s2 Hm Hf Hi Hctl Htlb. run_step.
  pose proof (grown_tree _ _ _ _ _ _ _ G) as Ht1.
  assert (tree (store (slot c (index 0 va)) v s1) root T1) as Ht2.
  { eapply tree_leaf_store; [done..|apply vpath_length|apply index_range|congruence]. }
  split; [done|]. exists T1. split.
  - intros Hcp. eapply space_mem; [done..|]. split; [done|]. by eapply compact_leaf.
  - by eapply tree_mem.
  - apply G.
  - intros p path Hp. destruct (grown_new _ _ _ _ _ _ _ G p path Hp) as [|[? _]]; auto.
  - etrans; [apply same_env_ctl, G|]. done.
  - rewrite Htlb. destruct (grown_env _ _ _ _ _ _ _ G) as (_ & _ & _ & Hipi & _ & _ & Htl & _).
    unfold invlpg_events. simpl. by rewrite Hipi, Htl.
  - intros p. rewrite Hf. apply G.
  - intros p. rewrite Hf. apply G.
  - intros n Hn. rewrite Hf. simpl. by apply (grown_avail _ _ _ _ _ _ _ G).
  - intros p. rewrite Hf. apply G.
  - exists c. split; [done|]. rewrite (entry_mem _ s2) by done.
    rewrite entry_store by eauto using tree_aligned, index_range. by rewrite decide_True.
  - intros n q Hu Hn Hq. rewrite (entry_mem _ s2) by done.
    rewrite entry_store by eauto using tree_aligned, index_range. rewrite decide_False.
    + apply Hus; [|done|done]. by rewrite <- (pte_word_user s pa).
    + intros [-> _]. rewrite Hq in Hc. apply (inj Some), (f_equal length) in Hc. rewrite !vpath_length in Hc. lia.
  - intros p path i Hp Hir Hne. rewrite (entry_mem _ s2) by done.
    rewrite entry_store by eauto using tree_aligned, index_range. rewrite decide_False; [by apply G|].
    intros [-> ->]. rewrite Hc in Hp. injection Hp as <-. by apply Hne.
  - intros p i Hp Hir Hnf HpT. rewrite (entry_mem _ s2) by done.
    rewrite entry_store by eauto using tree_aligned, index_range. rewrite decide_False; [by apply G|].
    intros [-> _]. by destruct (grown_new _ _ _ _ _ _ _ G _ _ Hc) as [?|[? _]]; [congruence|].
  - intros v'. rewrite (walk_mem _ s2) by done. rewrite (walk_leaf_store s1 root T1) by (done || congruence).
    rewrite Hv, (grown_walk _ _ _ _ _ _ _ G). done.
Qed.
(** * Unmapping one page *)

(** Tables were given back to the allocator; no translation changed. *)
Record shrunk s s' (root : Z) T T' : Prop := {
  shrunk_tree : tree s' root T';
  shrunk_sub : T' ⊆ T;
  shrunk_env : same_env s s';
  shrunk_walk v : walk s' 3 root v = walk s 3 root v;
  shrunk_word p path i : T' !! p = Some path → 0 ≤ i < 512 → entry s' p i = entry s p i ∨ entry s' p i = 0;
  shrunk_managed p : frame_managed (pg_frames s') p ↔ frame_managed (pg_frames s) p;
  shrunk_free p : frame_free (pg_frames s') p ↔
    frame_free (pg_frames s) p ∨ (is_Some (T !! p) ∧ T' !! p = None)
}.

Lemma shrunk_refl s root T : tree s root T → shrunk s s root T T.
Proof.
  intros Ht. split; try done; try reflexivity; [by left|]. intros p. split; [auto|].
  intros [?|[[x Hx] Hn]]; congruence.
Qed.

Lemma shrunk_trans s1 s2 s3 root T1 T2 T3 :
  shrunk s1 s2 root T1 T2 → shrunk s2 s3 root T2 T3 → shrunk s1 s3 root T1 T3.
Proof.
  intros [A1 B1 C1 D1 W1 E1 F1] [A2 B2 C2 D2 W2 E2 F2]. split; [done|by etrans|by etrans| | | |].
  - intros v. by rewrite D2, D1.
  - intros p path i Hp Hi. destruct (W2 _ _ _ Hp Hi) as [->|?]; [|by right].
    eapply W1; [by eapply lookup_weaken|done].
  - intros p. by rewrite E2, E1.
  - intros p. rewrite F2, F1. split.
    + intros [[?|[? ?]]|[[x Hx] ?]]; [by left|right; split; [done|]|right; split; [|done]].
      * by eapply lookup_weaken_None.
      * exists x. by eapply lookup_weaken.
    + intros [?|[? ?]]; [by left; left|]. destruct (T2 !! p) eqn:E; [right|left; right]; eauto.
Qed.

(** No table but the root and [c] is empty. *)
Definition compact_but s T (c : Z) : Prop :=
  ∀ p path, T !! p = Some path → path ≠ [] → p ≠ c → ∃ i, 0 ≤ i < 512 ∧ entry s p i ≠ 0.

Lemma is_table_empty_spec s c :
  is_table_empty s c = true ↔ ∀ i, 0 ≤ i < 512 → entry s c i = 0.
Proof.
  unfold is_table_empty. rewrite forallb_forall. setoid_rewrite Z.eqb_eq. split.
  - intros H i Hi. apply H. apply list_elem_of_In, elem_of_seqZ. lia.
  - intros H i Hi. apply H. apply list_elem_of_In, elem_of_seqZ in Hi. lia.
Qed.

Lemma compact_but_nonempty s T c :
  compact_but s T c → is_table_empty s c = false → compact s T.
Proof.
  intros Hb He p path Hp Hne. destruct (decide (p = c)) as [->|]; [|by eapply Hb].
  apply not_true_iff_false in He. rewrite is_table_empty_spec in He.
  destruct (decide (Exists (λ i, entry s c i ≠ 0) (seqZ 0 512))) as [Hex|Hnex].
  - apply Exists_exists in Hex as (i & Hi%elem_of_seqZ & Hi'). exists i. split; [lia|done].
  - exfalso. apply He. intros i Hi. destruct (decide (entry s c i = 0)); [done|].
    exfalso. apply Hnex, Exists_exists. exists i. split; [apply elem_of_seqZ; lia|done].
Qed.

Lemma drop_table_spec s root T q c va n :
  tree s root T → T !! q = Some (vpath n va) → T !! c = Some (vpath (S n) va) →
  is_table_empty s c = true → compact_but s T c →
  wp (drop_table c q (index (3 - n) va)) (λ _ s',
    shrunk s s' root T (delete c T) ∧ compact_but s' (delete c T) q) s.
Proof.
  intros Ht Hq Hc He Hb. rewrite is_table_empty_spec in He. unfold drop_table, on_frames. run_step.
  destruct (tree_frame _ _ _ Ht _ _ Hc) as [Hmc Hfc].
  apply run_zoom. eapply run_mono; [apply free_frame_spec; [apply Ht|done]|].
  intros _ a' (HF & HM & Hfr). run_steps. set (s' := store _ _ _).
  simpl in Hc. destruct (tree_parent _ _ _ Ht _ _ _ Hc) as (q' & Hq' & Hi & Hpr & Hps & Ha).
  assert (q' = q) as -> by (by eapply tree_path_inj). clear Hq'.
  assert (∀ p path j, T !! p = Some path → 0 ≤ j < 512 → entry s' p j =
    if decide (p = q ∧ j = index (3 - n) va) then 0 else entry s p j) as Hent.
  { intros p path j Hp Hj. unfold s'. rewrite entry_store by eauto using tree_aligned. done. }
  assert (∀ p path' j, T !! p = Some path' → 0 ≤ j < 512 → ¬ (p = q ∧ j = index (3 - n) va) →
    entry s' p j = entry s p j) as Hsame.
  { intros. erewrite Hent by done. by rewrite decide_False. }
  assert (entry s' q (index (3 - n) va) = 0) as Hslot.
  { erewrite Hent by done. by rewrite decide_True. }
  assert (tree s' root (delete c T)) as Ht'.
  { by eapply (tree_unlink s s' root T q). }
  assert (c ≠ q) as Hcq.
  { intros ->. rewrite Hq in Hc. apply (inj Some), (f_equal length) in Hc.
    rewrite length_app in Hc. simpl in Hc. lia. }
  split.
  - split; [done|apply delete_subseteq|done| | |done|].
    + intros v. symmetry. apply (walk_link s' s root (delete c T) q (vpath n va) (index (3 - n) va) c); try done.
      * by rewrite lookup_delete_ne.
      * pose proof (tree_depth _ _ _ Ht _ _ Hc) as Hd. rewrite length_app in Hd. simpl in Hd. lia.
      * by rewrite Hslot.
      * intros p path' j [_ Hp]%lookup_delete_Some Hj Hn. symmetry. by eapply Hsame.
    + intros p path j [_ Hp]%lookup_delete_Some Hj. rewrite (Hent _ _ _ Hp Hj). case_decide; auto.
    + intros p. simpl. rewrite Hfr. split.
      * intros [?| ->]; [by left|]. right. split; [by eexists|apply lookup_delete_eq].
      * intros [?|[[x Hx] Hn]]; [by left|]. right.
        destruct (decide (p = c)); [done|]. rewrite lookup_delete_ne in Hn by done. congruence.
  - intros p path [Hpc Hp]%lookup_delete_Some Hne Hpq. destruct (Hb _ _ Hp Hne) as (i & Hir & Hnz); [done|].
    exists i. split; [done|]. rewrite (Hsame _ _ _ Hp Hir) by naive_solver. done.
Qed.
(** [free_empty_tables] on an address whose page table exists: every empty
    table on its path goes back to the allocator. *)
Lemma free_empty_tables_spec s root T r va pt :
  tree s root T → Z.land r ENTRY_ADDR_MASK_4K = root → T !! pt = Some (vpath 3 va) →
  compact_but s T pt →
  wp (free_empty_tables r va) (λ _ s',
    ∃ T', shrunk s s' root T T' ∧ compact s' T') s.
Proof.
  intros Ht Hr H3 Hb. unfold free_empty_tables. cbv zeta.
  rewrite Hr, pml4_index_eq, pdpt_index_eq, pd_index_eq.
  destruct (tree_parent _ _ _ Ht _ (vpath 2 va) _ H3) as (pd & H2 & _ & P2 & S2 & E2).
  destruct (tree_parent _ _ _ Ht _ (vpath 1 va) _ H2) as (pdpt & H1 & _ & P1 & S1 & E1).
  destruct (tree_parent _ _ _ Ht _ (vpath 0 va) _ H1) as (root' & H0 & _ & P0 & S0 & E0).
  apply (tree_root_only _ _ _ Ht) in H0 as ->. cbn [Nat.sub] in *.
  run_step. run_step. rewrite P0, S0, E0. cbn [negb orb].
  run_step. run_step. rewrite P1, S1, E1. cbn [negb orb].
  run_step. run_step. rewrite P2, S2, E2. cbn [negb orb].
  run_step. run_step. destruct (is_table_empty s pt) eqn:Em3; cbn [negb].
  2: { run_step. exists T. split; [by apply shrunk_refl|by eapply compact_but_nonempty]. }
  run_step. eapply run_mono; [by apply (drop_table_spec s root T pd pt va 2)|].
  intros _ s1 [Sh1 Hb1]. pose proof (shrunk_tree _ _ _ _ _ Sh1) as Ht1.
  assert (∀ p n m, T !! p = Some (vpath n va) → (n < m)%nat → ∀ q, T !! q = Some (vpath m va) → q ≠ p) as Hne.
  { intros p n m Hp Hnm q Hq ->. rewrite Hp in Hq. apply (inj Some), (f_equal length) in Hq.
    rewrite !vpath_length in Hq. lia. }
  assert (delete pt T !! pd = Some (vpath 2 va)) as H2'.
  { rewrite lookup_delete_ne; [done|]. eapply (Hne pd 2%nat 3%nat); eauto. }
  assert (delete pt T !! pdpt = Some (vpath 1 va)) as H1'.
  { rewrite lookup_delete_ne; [done|]. eapply (Hne pdpt 1%nat 3%nat); eauto. }
  run_step. run_step. destruct (is_table_empty s1 pd) eqn:Em2; cbn [negb].
  2: { run_step. exists (delete pt T). split; [done|by eapply compact_but_nonempty]. }
  run_step. eapply run_mono; [by apply (drop_table_spec s1 root (delete pt T) pdpt pd va 1)|].
  intros _ s2 [Sh2 Hb2]. pose proof (shrunk_tree _ _ _ _ _ Sh2) as Ht2.
  pose proof (shrunk_trans _ _ _ _ _ _ _ Sh1 Sh2) as Sh12.
  assert (delete pd (delete pt T) !! pdpt = Some (vpath 1 va)) as H1''.
  { rewrite lookup_delete_ne; [done|]. eapply (Hne pdpt 1%nat 2%nat); eauto. }
  run_step. run_step. destruct (is_table_empty s2 pdpt) eqn:Em1; cbn [negb].
  2: { run_step. exists (delete pd (delete pt T)). split; [done|by eapply compact_but_nonempty]. }
  eapply run_mono; [apply (drop_table_spec s2 root (delete pd (delete pt T)) root pdpt va 0); try done; apply Ht2|].
  intros _ s3 [Sh3 Hb3]. eexists. split; [by eapply shrunk_trans|].
  intros p path Hp Hnil. apply (Hb3 p path Hp Hnil). intros ->.
  rewrite (tree_root _ _ _ (shrunk_tree _ _ _ _ _ Sh3)) in Hp. congruence.
Qed.

(** The page of [va] is mapped by a 4 KiB entry. *)
Definition mapped_4k s T (va : Z) : Prop :=
  ∃ c, T !! c = Some (vpath 3 va) ∧ has (entry s c (index 0 va)) PAGE_PRESENT = true.

(** After a successful unmapping. *)
Record unmapped s s' (root va : Z) T T' : Prop := {
  unmapped_space : space s' root T';
  unmapped_sub : T' ⊆ T;
  unmapped_ctl : same_ctl s s';
  unmapped_tlb : pg_tlb s' = invlpg_events s va ++ pg_tlb s;
  unmapped_managed p : frame_managed (pg_frames s') p ↔ frame_managed (pg_frames s) p;
  unmapped_free p : frame_free (pg_frames s') p ↔
    frame_free (pg_frames s) p ∨ (is_Some (T !! p) ∧ T' !! p = None);
  unmapped_word p path i : T' !! p = Some path → 0 ≤ i < 512 → entry s' p i = entry s p i ∨ entry s' p i = 0;
  unmapped_walk v : walk s' 3 root v =
    if decide (vpage v = vpage va) then None else walk s 3 root v
}.

Lemma unmap_page_locked_spec s root T r va out :
  space s root T → Z.land r ENTRY_ADDR_MASK_4K = root →
  wp (paging_unmap_page_locked r va out) (λ res s',
    if res.1
    then mapped_4k s T va ∧ (∃ T', unmapped s s' root va T T') ∧
         ∃ e, walk s 3 root va = Some (leaf 0 e va) ∧
              res.2 = (λ _, Z.land e ENTRY_ADDR_MASK_4K) <$> out
    else ¬ mapped_4k s T va ∧ s' = s ∧ res.2 = out) s.
Proof.
  intros [Ht Hcp] Hr. unfold paging_unmap_page_locked. run_step.
  eapply run_mono; [by apply (walk_to_pte_lookup_spec s root T)|]. intros [a|] s0 [-> Hpte].
  2: { run_step. simpl. split; [|done]. intros (c & Hc & _). by apply (Hpte c). }
  destruct Hpte as (c & Hc & ->). run_step. run_step.
  change (load s (slot c (index 0 va))) with (entry s c (index 0 va)).
  destruct (has (entry s c (index 0 va)) PAGE_PRESENT) eqn:Hpr; cbn [negb].
  2: { run_step. split; [|done]. intros (c' & Hc' & Hpr').
       rewrite (tree_path_inj _ _ _ _ _ _ Ht Hc Hc') in Hpr. congruence. }
  pose proof (index_range 0 va) as Hi.
  run_step. run_step. run_step. apply paging_invlpg_spec. intros s2 Hm Hf Hin Hctl Htlb.
  set (s1 := store _ _ s) in *.
  assert (tree s1 root T) as Ht1 by (eapply tree_leaf_store; [done..|apply vpath_length|done|done]).
  assert (tree s2 root T) as Ht2 by (by eapply tree_mem).
  assert (compact_but s2 T c) as Hb.
  { intros p path Hp Hne Hpc. destruct (Hcp _ _ Hp Hne) as (i & Hir & Hnz). exists i. split; [done|].
    rewrite (entry_mem s1 s2) by done. unfold s1.
    rewrite entry_store by eauto using tree_aligned. by rewrite decide_False by naive_solver. }
  run_step. eapply run_mono; [by apply (free_empty_tables_spec s2 root T r va c)|].
  intros _ s3 (T' & Sh & Hcp3). run_step. cbn [fst snd].
  split; [by exists c|]. split.
  2: { exists (entry s c (index 0 va)). split; [|by destruct out].
       rewrite (walk_reach _ _ _ 3 _ _ Ht (le_n 3) Hc). cbn [walk Nat.sub].
       change (ent s 0 c va) with (entry s c (index 0 va)). by rewrite Hpr. }
  exists T'. split.
  - split; [apply Sh|done].
  - apply Sh.
  - etrans; [|apply same_env_ctl, Sh]. done.
  - destruct (shrunk_env _ _ _ _ _ Sh) as (_ & _ & _ & _ & _ & _ & -> & _). by rewrite Htlb.
  - intros p. by rewrite (shrunk_managed _ _ _ _ _ Sh), Hf.
  - intros p. by rewrite (shrunk_free _ _ _ _ _ Sh), Hf.
  - intros p path i Hp Hir. destruct (shrunk_word _ _ _ _ _ Sh _ _ _ Hp Hir) as [->|?]; [|by right].
    rewrite (entry_mem s1 s2) by done. unfold s1.
    pose proof (lookup_weaken _ _ _ _ Hp (shrunk_sub _ _ _ _ _ Sh)) as HpT.
    rewrite entry_store by eauto using tree_aligned. case_decide; auto.
  - intros v. rewrite (shrunk_walk _ _ _ _ _ Sh), (walk_mem s1 s2) by done.
    unfold s1. by rewrite (walk_leaf_store s root T).
Qed.

(** * Changing the flags of one page *)

Record protected s s' (root va flags : Z) T : Prop := {
  protected_space : space s' root T;
  protected_ctl : same_ctl s s';
  protected_tlb : pg_tlb s' = invlpg_events s va ++ pg_tlb s;
  protected_frames : pg_frames s' = pg_frames s;
  protected_word p path i : T !! p = Some path → 0 ≤ i < 512 → entry s' p i =
    if decide (path = vpath 3 va ∧ i = index 0 va)
    then pte_word s (entry s p i) flags else entry s p i;
  protected_walk v : walk s' 3 root v = walk s 3 root v
}.

Lemma protect_page_locked_spec s root T r va flags :
  space s root T → Z.land r ENTRY_ADDR_MASK_4K = root →
  wp (paging_protect_page_locked r va flags) (λ ok s',
    if ok then mapped_4k s T va ∧ protected s s' root va flags T
    else ¬ mapped_4k s T va ∧ s' = s) s.
Proof.
  intros [Ht Hcp] Hr. unfold paging_protect_page_locked. run_step.
  eapply run_mono; [by apply (walk_to_pte_lookup_spec s root T)|]. intros [a|] s0 [-> Hpte].
  2: { run_step. simpl. split; [|done]. intros (c & Hc & _). by apply (Hpte c). }
  destruct Hpte as (c & Hc & ->). run_step. run_step.
  change (load s (slot c (index 0 va))) with (entry s c (index 0 va)).
  destruct (has (entry s c (index 0 va)) PAGE_PRESENT) eqn:Hpr; cbn [negb].
  2: { run_step. split; [|done]. intros (c' & Hc' & Hpr').
       rewrite (tree_path_inj _ _ _ _ _ _ Ht Hc Hc') in Hpr. congruence. }
  pose proof (index_range 0 va) as Hi. run_step. run_step. run_step. run_step. run_step.
  change (Z.lor (Z.land (entry s c (index 0 va)) _) _) with (pte_word s (entry s c (index 0 va)) flags).
  set (v := pte_word s (entry s c (index 0 va)) flags).
  assert (has v PAGE_PRESENT = true) as Hv by apply pte_word_present.
  apply paging_invlpg_spec. intros s2 Hm Hf Hin Hctl Htlb. run_step. split; [by exists c|].
  assert (∀ p path i, T !! p = Some path → 0 ≤ i < 512 → entry s2 p i =
    if decide (p = c ∧ i = index 0 va) then v else entry s p i) as Hent.
  { intros p path i Hp Hir. rewrite (entry_mem _ s2) by done. rewrite entry_store by eauto using tree_aligned. done. }
  split; [|done|done|done| |].
  - split.
    + eapply tree_mem; [done..|]. eapply tree_leaf_store; [done..|apply vpath_length|done|congruence].
    + intros p path Hp Hne. destruct (Hcp _ _ Hp Hne) as (i & Hir & Hnz). exists i. split; [done|].
      erewrite Hent by done. case_decide; [by apply present_nonzero|done].
  - intros p path i Hp Hir. erewrite Hent by done. destruct (decide (p = c ∧ i = index 0 va)) as [[-> ->]|Hn].
    + rewrite decide_True; [done|]. split; [congruence|done].
    + rewrite decide_False; [done|]. intros [-> ->]. apply Hn. split; [|done]. by eapply tree_path_inj.
  - intros va'. rewrite (walk_mem _ s2) by done. rewrite (walk_leaf_store s root T) by (done || congruence).
    case_decide as Hpg; [|done]. rewrite Hv. rewrite vpage_eq in Hpg.
    rewrite (walk_reach _ _ _ 3 c va' Ht); [|lia|].
    2: { rewrite Hc. f_equal. apply vpath_eq; [|lia]. intros k Hk. symmetry. apply Hpg. lia. }
    cbn [walk Nat.sub]. unfold ent. rewrite (Hpg 0%nat), Hpr by lia. cbn [negb]. f_equal.
    unfold leaf, v. by rewrite pte_word_addr.
Qed.
(** * The locked public operations *)

Lemma space_lock b s root T : space s root T → space (set_lock b s) root T.
Proof. by apply space_mem. Qed.

Lemma walk_lock b s k p va : walk (set_lock b s) k p va = walk s k p va.
Proof. by apply walk_mem. Qed.

Lemma lock_same s : g_paging_lock s = false → set_lock false (set_lock true s) = s.
Proof. destruct s; simpl. by intros ->. Qed.

Lemma map_ok_lock b s root va pa flags :
  map_ok (set_lock b s) root va pa flags = map_ok s root va pa flags.
Proof. unfold map_ok. by rewrite walk_lock. Qed.

Lemma mapped_relock s s' root va word T T' :
  mapped (set_lock true s) s' root va word T T' → g_paging_lock s = false →
  mapped s (set_lock false s') root va word T T'.
Proof.
  intros [H1 H2 H3 H4 H5 H6 H7 H8 H9 Hx H10 Hu Hst Hfo H11] Hl. split; try done.
  - intros Hc. apply space_lock, H1. exact Hc.
  - by apply (tree_mem s').
  - unfold same_ctl in *. simpl in *. intuition congruence.
Qed.

Lemma map_page_spec s root T r va pa flags :
  tree s root T → Z.land r ENTRY_ADDR_MASK_4K = root → g_paging_lock s = false →
  run (oom 3 s) (paging_map_page r va pa flags) (λ ok s',
    g_paging_lock s' = false ∧ ok = map_ok s root va pa flags ∧
    if ok then ∃ T', mapped s s' root va (pte_word s pa flags) T T' else s' = s) s.
Proof.
  intros Ht Hr Hl. unfold paging_map_page. run_step. apply run_acquire; [done|]. run_step.
  eapply run_mono; [apply (map_page_locked_spec (set_lock true s) root T); [by apply (tree_mem s)|done]|].
  intros ok s' [Hok Hres]. rewrite map_ok_lock in Hok. run_step. apply run_release. run_step.
  split_and!; [done|done|]. destruct ok; [|subst s'; by apply lock_same].
  destruct Hres as [T' M]. exists T'. by apply mapped_relock.
Qed.

Lemma unmapped_relock s s' root va T T' :
  unmapped (set_lock true s) s' root va T T' → g_paging_lock s = false →
  unmapped s (set_lock false s') root va T T'.
Proof.
  intros [H1 H2 H3 H4 H5 H6 H7 H8] Hl. split; try done.
  - by apply space_lock.
  - unfold same_ctl in *. simpl in *. intuition congruence.
Qed.

Lemma unmap_page_spec s root T r va out :
  space s root T → Z.land r ENTRY_ADDR_MASK_4K = root → g_paging_lock s = false →
  wp (paging_unmap_page r va out) (λ res s',
    g_paging_lock s' = false ∧
    if res.1
    then mapped_4k s T va ∧ (∃ T', unmapped s s' root va T T') ∧
         ∃ e, walk s 3 root va = Some (leaf 0 e va) ∧
              res.2 = (λ _, Z.land e ENTRY_ADDR_MASK_4K) <$> out
    else ¬ mapped_4k s T va ∧ s' = s ∧ res.2 = out) s.
Proof.
  intros Hs Hr Hl. unfold paging_unmap_page. run_step. apply run_acquire; [done|]. run_step.
  eapply run_mono; [apply (unmap_page_locked_spec (set_lock true s) root T); [by apply space_lock|done]|].
  intros [ok cell] s' Hres. run_step. apply run_release. run_step. cbn [fst snd] in *.
  split; [done|]. destruct ok.
  - destruct Hres as (Hm & [T' U] & e & He & Hcell). rewrite walk_lock in He.
    split; [exact Hm|]. split; [|by exists e]. exists T'. by apply unmapped_relock.
  - destruct Hres as (Hm & -> & ->). split; [exact Hm|]. split; [by apply lock_same|done].
Qed.
End Spec.
