(* ===== verification/PagingProps.v ===== *)
(** What the page-table manager promises: the theorems about the public,
    locked operations of paging.c, stated with the code's own [translate]. *)

From S2P Require Import Prelude Frames Boot Pmm Paging PageTree PagingSpec.

Section Props.
Context {A : Type} `{!FrameAllocator A, !FrameAllocatorLaws A}.
Abbreviation state := (paging_state A).
Implicit Types (s : state) (T : gmap Z (list Z)).

(** * Helpers *)

Lemma map_ok_spec s r va pa flags :
  map_ok s (Z.land r ENTRY_ADDR_MASK_4K) va pa flags = true ↔
  va mod 4096 = 0 ∧ pa mod 4096 = 0 ∧
  ¬ (has flags PAGING_FLAG_GLOBAL = true ∧ has flags PAGING_FLAG_USER = true) ∧
  translate s r va = None.
Proof.
  unfold map_ok. rewrite translate_walk, !andb_true_iff, !Z.eqb_eq, negb_true_iff, bool_decide_eq_true.
  rewrite andb_false_iff. destruct (has flags PAGING_FLAG_GLOBAL), (has flags PAGING_FLAG_USER); naive_solver.
Qed.

(** The page tables after [va] was given the frame [pa] with [flags]: the entry of
    the page, the entries on the way, the frames taken, and everything else kept. *)
Record page_installed s s' (va pa flags : Z) T T' : Prop := {
  inst_leaf : ∃ c, T' !! c = Some (vpath 3 va) ∧
    let e := entry s' c (index 0 va) in
    Z.testbit e 0 = true ∧ Z.land e ENTRY_ADDR_MASK_4K = pa ∧
    page_rights e = requested_rights (g_nx_enabled s) flags;
  inst_user n q : Z.testbit flags 1 = true → (n < 3)%nat → T' !! q = Some (vpath n va) →
    Z.testbit (entry s' q (index (3 - n) va)) 2 = true;
  inst_new p path : T' !! p = Some path → T !! p = Some path ∨ frame_free (pg_frames s) p;
  inst_free p : frame_free (pg_frames s') p ↔ frame_free (pg_frames s) p ∧ T' !! p = None;
  inst_links p path i : T' !! p = Some path → 0 ≤ i < 512 → path ++ [i] ≠ vpath 4 va →
    link_step (word_before s T p i) (entry s' p i) ∧
    (entry s' p i = word_before s T p i ∨ on_path va path i);
  inst_foreign p i : p mod 4096 = 0 → 0 ≤ i < 512 → ¬ frame_free (pg_frames s) p → T !! p = None →
    entry s' p i = entry s p i
}.

Lemma mapped_installed s s' root va pa flags T T' :
  mapped s s' root va (pte_word s pa flags) T T' → frame_addr pa → page_installed s s' va pa flags T T'.
Proof.
  intros M Hpa. split; [| |apply M..].
  - destruct (mapped_leaf _ _ _ _ _ _ _ M) as (c & Hc & He). exists c. split; [done|].
    cbv zeta. rewrite He, pte_word_addr, mask4k_frame, pte_word_rights by done.
    split_and!; [|done..]. rewrite <- has_testbit by lia. apply pte_word_present.
  - intros n q Hu. apply (mapped_user _ _ _ _ _ _ _ M). rewrite pte_word_user.
    by rewrite <- has_testbit in Hu by lia.
Qed.

(** The effect of [j] successful steps of [paging_map_range]. *)
Record range_mapped s s' (root va pa : Z) (j : nat) T T' : Prop := {
  rm_space : space s' root T';
  rm_sub : T ⊆ T';
  rm_ctl : same_ctl s s';
  rm_avail n : avail (n + 3 * j) (pg_frames s) → avail n (pg_frames s');
  rm_in i v : (i < j)%nat → vpage v = vpage (va + 4096 * Z.of_nat i) →
    walk s' 3 root v = Some (pa + 4096 * Z.of_nat i + v mod 4096);
  rm_out v : (∀ i, (i < j)%nat → vpage v ≠ vpage (va + 4096 * Z.of_nat i)) →
    walk s' 3 root v = walk s 3 root v
}.

Lemma range_mapped_0 s root va pa T : space s root T → range_mapped s s root va pa 0 T T.
Proof.
  intros Hs. split; try done.
  - intros n. by rewrite Nat.mul_0_r, Nat.add_0_r.
  - intros i v Hi. lia.
Qed.

Lemma range_mapped_S s s1 s2 root va pa flags j T T1 T2 :
  range_mapped s s1 root va pa j T T1 →
  frame_addr (pa + 4096 * Z.of_nat j) →
  walk s1 3 root (va + 4096 * Z.of_nat j) = None →
  mapped s1 s2 root (va + 4096 * Z.of_nat j) (pte_word s1 (pa + 4096 * Z.of_nat j) flags) T1 T2 →
  range_mapped s s2 root va pa (S j) T T2.
Proof.
  intros [R1 R2 R3 R4 R5 R6] Hfa Hnone M. destruct R1 as [Ht1 Hc1]. split.
  - by apply M.
  - etrans; [done|apply M].
  - etrans; [done|apply M].
  - intros n Hn. apply (mapped_avail _ _ _ _ _ _ _ M), R4.
    by replace (n + 3 + 3 * j)%nat with (n + 3 * S j)%nat by lia.
  - intros i v Hi Hv. rewrite (mapped_walk _ _ _ _ _ _ _ M). case_decide as Hd.
    + rewrite pte_word_leaf by done. destruct (decide (i = j)) as [->|]; [done|]. exfalso.
      assert (i < j)%nat as Hij by lia.
      rewrite (R5 i) in Hnone; [done|done|]. by rewrite <- Hv, <- Hd.
    + apply R5; [|done]. destruct (decide (i = j)) as [->|]; [done|lia].
  - intros v Hv. rewrite (mapped_walk _ _ _ _ _ _ _ M). rewrite decide_False by (apply Hv; lia).
    apply R6. intros i Hi. apply Hv. lia.
Qed.

Lemma range_mapped_unlock s s1 r va pa j T T1 :
  let root := Z.land r ENTRY_ADDR_MASK_4K in
  let s' := set_lock false s1 in
  range_mapped (set_lock true s) s1 root va pa j T T1 →
  space s' root T1 ∧ T ⊆ T1 ∧
  (∀ i v, (i < j)%nat → vpage v = vpage (va + 4096 * Z.of_nat i) →
     translate s' r v = Some (pa + 4096 * Z.of_nat i + v mod 4096)) ∧
  (∀ v, (∀ i, (i < j)%nat → vpage v ≠ vpage (va + 4096 * Z.of_nat i)) →
     translate s' r v = translate s r v).
Proof.
  intros root s' [R1 R2 R3 R4 R5 R6]. unfold s'. split_and!; [by apply space_lock|done| |].
  - intros i v Hi Hv. rewrite translate_walk, walk_lock. by apply R5.
  - intros v Hv. rewrite !translate_walk, walk_lock. fold root. rewrite R6 by done. apply walk_lock.
Qed.

(** Page count of a size that passes the guards of the range operations. *)
Definition range_pages (size : Z) : Z := (size + 4095) / 4096.

Lemma range_guard size :
  0 < size < 2 ^ 64 →
  (align_up size PAGE_SIZE_4K <? size) = (2 ^ 64 - 4096 <? size) ∧
  (size ≤ 2 ^ 64 - 4096 → align_up size PAGE_SIZE_4K / PAGE_SIZE_4K = range_pages size).
Proof.
  intros Hs. change PAGE_SIZE_4K with (2 ^ 12). destruct (Z.ltb_spec (2 ^ 64 - 4096) size).
  - rewrite align_up_wraps by lia. split; [by apply Z.ltb_lt; lia|lia].
  - rewrite align_up_exact by lia. unfold range_pages. change (2 ^ 12) with 4096. split.
    + apply Z.ltb_ge. dlia.
    + intros _. rewrite Z.div_mul by lia. f_equal. lia.
Qed.

(** * The properties *)

(** C1. [paging_map_page] on a well-formed address space. It returns (or panics
    only when fewer than the three frames a walk may need are free) with the
    lock released and a well-formed space that contains every earlier table.
    It returns true exactly when both addresses are page aligned, the flags do
    not ask for a global user page and the address had no translation; then
    the page, and no other, translates to [pa]; its entry carries exactly the
    rights the flags ask for, and for a user page so does the user bit of every
    entry on the way; the added tables were free frames, and the frames no
    longer free are exactly these; every other entry of the space is as before,
    but for links on the way to the page, where a present one gains at most the
    user bit and a new one is writable and executable; no frame in use outside
    the space is written; and the stale TLB entry is flushed. When it returns
    false nothing changed. *)
Theorem paging_map_page_correct s T r va pa flags :
  let root := Z.land r ENTRY_ADDR_MASK_4K in
  space s root T → g_paging_lock s = false → 0 ≤ pa < 2 ^ 52 →
  run (oom 3 s) (paging_map_page r va pa flags) (λ ok s',
    g_paging_lock s' = false ∧
    (ok = true ↔ va mod 4096 = 0 ∧ pa mod 4096 = 0 ∧
       ¬ (has flags PAGING_FLAG_GLOBAL = true ∧ has flags PAGING_FLAG_USER = true) ∧
       translate s r va = None) ∧
    if ok then
      (∃ T', space s' root T' ∧ T ⊆ T' ∧ page_installed s s' va pa flags T T') ∧
      pg_tlb s' = invlpg_events s va ++ pg_tlb s ∧
      ∀ v, translate s' r v =
        if decide (vpage v = vpage va) then Some (pa + v mod 4096) else translate s r v
    else s' = s) s.
Proof.
  intros root Hs Hl Hpa. eapply run_mono; [apply (map_page_spec s root T); [apply Hs|done|done]|].
  intros ok s' (Hl' & Hok & Hres).
  assert (ok = true ↔ _) as Hiff by (rewrite Hok; apply map_ok_spec).
  split; [done|]. split; [done|]. destruct ok; [|done]. destruct Hres as [T' M]. split_and!.
  - exists T'. split_and!; [apply M, Hs|apply M|]. eapply mapped_installed; [exact M|].
    by destruct Hiff as [(_ & ? & _) _].
  - apply M.
  - intros v. rewrite !translate_walk. fold root. rewrite (mapped_walk _ _ _ _ _ _ _ M).
    rewrite pte_word_leaf; [done|]. by destruct Hiff as [(_ & ? & _) _].
Qed.

(** C2. [paging_unmap_page] always returns, with the lock released. If the page
    is mapped by a 4 KiB entry it returns true, hands back the frame address,
    leaves the page - and no other - without translation, flushes the TLB
    entry and returns every page table that became empty to the frame
    allocator (the space stays free of empty tables, and the frames that
    became free are exactly the removed tables). Otherwise it returns false
    and changes nothing. *)
Theorem paging_unmap_page_correct s T r va out :
  let root := Z.land r ENTRY_ADDR_MASK_4K in
  space s root T → g_paging_lock s = false →
  wp (paging_unmap_page r va out) (λ res s',
    g_paging_lock s' = false ∧ (res.1 = true ↔ mapped_4k s T va) ∧
    if res.1 then
      (∃ T', space s' root T' ∧ T' ⊆ T ∧
         ∀ p, frame_free (pg_frames s') p ↔
           frame_free (pg_frames s) p ∨ (is_Some (T !! p) ∧ T' !! p = None)) ∧
      (∃ frame, translate s r va = Some (Z.lor frame (Z.land va (PAGE_SIZE_4K - 1))) ∧
         res.2 = (λ _, frame) <$> out) ∧
      pg_tlb s' = invlpg_events s va ++ pg_tlb s ∧
      ∀ v, translate s' r v = if decide (vpage v = vpage va) then None else translate s r v
    else s' = s ∧ res.2 = out) s.
Proof.
  intros root Hs Hl. eapply run_mono; [by apply (unmap_page_spec s root T)|].
  intros [ok cell] s' [Hl' Hres]. cbn [fst snd] in *. split; [done|].
  destruct ok; cbn [fst snd] in *; [|by destruct Hres as (Hm & -> & ->)].
  destruct Hres as (Hm & [T' U] & e & He & Hcell). split; [done|]. split_and!.
  - exists T'. split_and!; [apply U|apply U|]. apply (unmapped_free _ _ _ _ _ _ U).
  - exists (Z.land e ENTRY_ADDR_MASK_4K). split; [|done]. by rewrite translate_walk.
  - apply U.
  - intros v. rewrite !translate_walk. apply (unmapped_walk _ _ _ _ _ _ U).
Qed.

(** [paging_protect_page] always returns, with the lock released. If the
    page is mapped by a 4 KiB entry it returns true, replaces the permission
    bits of exactly that entry by the ones [flags] asks for, keeps its frame
    and hence every translation, and flushes the TLB entry; otherwise it
    returns false and changes nothing. *)
Theorem paging_protect_page_correct s T r va flags :
  let root := Z.land r ENTRY_ADDR_MASK_4K in
  space s root T → g_paging_lock s = false →
  wp (paging_protect_page r va flags) (λ ok s',
    g_paging_lock s' = false ∧ (ok = true ↔ mapped_4k s T va) ∧
    if ok then
      space s' root T ∧ pg_frames s' = pg_frames s ∧
      pg_tlb s' = invlpg_events s va ++ pg_tlb s ∧
      (∀ p path i, T !! p = Some path → 0 ≤ i < 512 → entry s' p i =
         if decide (path = vpath 3 va ∧ i = index 0 va)
         then Z.lor (Z.land (entry s p i) ENTRY_ADDR_MASK_4K)
                (Z.lor (paging_flags_to_hw s flags) PAGE_PRESENT)
         else entry s p i) ∧
      ∀ v, translate s' r v = translate s r v
    else s' = s) s.
Proof.
  intros root Hs Hl. unfold paging_protect_page. run_step. apply run_acquire; [done|]. run_step.
  eapply run_mono; [apply (protect_page_locked_spec (set_lock true s) root T); [by apply space_lock|done]|].
  intros ok s' Hres. run_step. apply run_release. run_step. split; [done|]. destruct ok.
  - destruct Hres as (Hm & P). split; [done|]. split_and!.
    + apply space_lock, P.
    + apply P.
    + simpl. by rewrite (protected_tlb _ _ _ _ _ _ P).
    + intros p path i Hp Hi. exact (protected_word _ _ _ _ _ _ P p path i Hp Hi).
    + intros v. rewrite !translate_walk. fold root. rewrite walk_lock, (protected_walk _ _ _ _ _ _ P).
      by rewrite walk_lock.
  - destruct Hres as (Hm & ->). split; [done|]. by apply lock_same.
Qed.
(** [paging_map_range] returns (or panics only when fewer than three free
    frames per page are available) with the lock released. It maps the pages in
    order and stops at the first one [paging_map_page] refuses: the first [j]
    pages translate to consecutive frames from [pa], every other address
    translates as before, and the space stays well formed. It returns true
    exactly when the guards on the size pass and all pages were mapped; on
    false the pages mapped so far stay mapped. *)
Theorem paging_map_range_correct s T r va pa size flags :
  let root := Z.land r ENTRY_ADDR_MASK_4K in
  let n := Z.to_nat (range_pages size) in
  space s root T → g_paging_lock s = false → in_width 64 va → in_width 64 size →
  0 ≤ pa → pa + 4096 * range_pages size ≤ 2 ^ 52 →
  run (oom (3 * n) s) (paging_map_range r va pa size flags) (λ ok s',
    g_paging_lock s' = false ∧
    ∃ j T', (j ≤ n)%nat ∧ space s' root T' ∧ T ⊆ T' ∧
      (∀ i v, (i < j)%nat → vpage v = vpage (va + 4096 * Z.of_nat i) →
         translate s' r v = Some (pa + 4096 * Z.of_nat i + v mod 4096)) ∧
      (∀ v, (∀ i, (i < j)%nat → vpage v ≠ vpage (va + 4096 * Z.of_nat i)) →
         translate s' r v = translate s r v) ∧
      if ok then j = n ∧ 0 < size ∧ va + size < 2 ^ 64
      else (s' = s ∧ (size = 0 ∨ 2 ^ 64 ≤ va + size ∨ 2 ^ 64 - 4096 < size)) ∨
           ((j < n)%nat ∧
            map_ok s' root (va + 4096 * Z.of_nat j) (pa + 4096 * Z.of_nat j) flags = false)) s.
Proof.
  intros root n Hs Hl Hva Hsz Hpa Hend. unfold in_width in *. unfold paging_map_range.
  assert (0 ≤ range_pages size) as Hn0 by (apply Z.div_pos; lia).
  assert (∀ Q : Prop, Q → g_paging_lock s = false ∧ ∃ j T', (j ≤ n)%nat ∧ space s root T' ∧ T ⊆ T' ∧
      (∀ i v, (i < j)%nat → vpage v = vpage (va + 4096 * Z.of_nat i) →
         translate s r v = Some (pa + 4096 * Z.of_nat i + v mod 4096)) ∧
      (∀ v, (∀ i, (i < j)%nat → vpage v ≠ vpage (va + 4096 * Z.of_nat i)) →
         translate s r v = translate s r v) ∧
      ((s = s ∧ Q) ∨ ((j < n)%nat ∧
            map_ok s root (va + 4096 * Z.of_nat j) (pa + 4096 * Z.of_nat j) flags = false))) as Hrej.
  { intros Q HQ. split; [done|]. exists 0%nat, T. split_and!; [lia|done|done|lia|done|by left]. }
  destruct (Z.eqb_spec size 0) as [->|Hnz]; [run_steps; by apply Hrej; left|].
  destruct (range_guard size ltac:(lia)) as [Hg Hpages].
  rewrite Hg. unfold UINT64_MAX.
  destruct (Z.gtb_spec va (2 ^ 64 - 1 - size)); [run_steps; apply Hrej; lia|].
  assert (pa ≤ 2 ^ 64 - 1 - size) by (unfold range_pages in *; dlia).
  destruct (Z.gtb_spec pa (2 ^ 64 - 1 - size)); [lia|]. cbn [orb].
  destruct (Z.ltb_spec (2 ^ 64 - 4096) size); [run_steps; apply Hrej; lia|].
  cbv iota. rewrite Hpages by lia. fold n.
  run_step. apply run_acquire; [done|]. run_step.
  set (s0 := set_lock true s).
  apply (run_for_loop _ _ _ _ _ (λ j s1, ∃ T1, range_mapped s0 s1 root va pa j T T1)).
  { exists T. by apply range_mapped_0, space_lock. }
  - intros j s1 Hj (T1 & R). run_step.
    assert (0 + Z.of_nat j * PAGE_SIZE_4K = 4096 * Z.of_nat j) as -> by (unfold PAGE_SIZE_4K; lia).
    assert (4096 * Z.of_nat j < size ∧ 4096 * Z.of_nat j + 4096 ≤ 4096 * range_pages size) as [Hj1 Hj2].
    { unfold n, range_pages in *. dlia. }
    rewrite !wrap_small by (unfold in_width; lia).
    eapply run_weaken; [apply (map_page_locked_spec s1 root T1); [apply R|done]| |].
    { intros msg [-> Hna]. split; [done|]. intros Ha. apply Hna, (rm_avail _ _ _ _ _ _ _ _ R).
      eapply avail_mono; [|exact Ha]. lia. }
    intros ok s2 [Hok Hres]. destruct ok.
    + destruct Hres as [T2 M]. run_step. exists T2. symmetry in Hok.
      apply map_ok_spec in Hok as (_ & Hal & _ & Hnone). rewrite translate_walk in Hnone.
      eapply range_mapped_S; [done| |done|done]. split; [done|lia].
    + subst s2. run_step. run_step. apply run_release. run_step. split; [done|].
      exists j, T1. destruct (range_mapped_unlock _ _ _ _ _ _ _ _ R) as (? & ? & ? & ?).
      split_and!; [lia|done..|]. right. split; [done|]. by rewrite map_ok_lock.
  - intros s1 (T1 & R). run_step. apply run_release. run_step. split; [done|].
    exists n, T1. destruct (range_mapped_unlock _ _ _ _ _ _ _ _ R) as (? & ? & ? & ?).
    split_and!; [lia|done..|]. simpl. split_and!; [done|lia|lia].
Qed.
End Props.

(** * Witnesses: a freshly created address space on the concrete machine *)

(** The first free frame of [demo_pmm] is the root; all words are zero. *)
Definition demo_paging : paging_state pmm_state :=
  mkPaging ∅ (demo_alloc demo_pmm) (mkPagingInfo true 4096 1 0 0 0 0 0) true true false false 4096 0 [].
Definition demo_tables : gmap Z (list Z) := {[4096 := []]}.

Lemma demo_frames_inv : frames_inv (pg_frames demo_paging).
Proof.
  split; [|vm_compute; discriminate].
  assert (client_inv demo_pmm (demo_pmm, [])) as H.
  { split_and!; [apply demo_pmm_inv|done|constructor|by intros ? ?%not_elem_of_nil|].
    intros q. split; [intros ?; split; [done|apply not_elem_of_nil]|by intros [? _]]. }
  apply (client_step_inv demo_pmm _ (demo_alloc demo_pmm, [4096])) in H; [apply H|].
  apply (client_alloc _ _ _ 0). vm_compute. reflexivity.
Qed.

Lemma demo_space : space demo_paging 4096 demo_tables.
Proof.
  assert (∀ p path, demo_tables !! p = Some path → p = 4096 ∧ path = []) as Hone.
  { unfold demo_tables. intros p path [<- <-]%lookup_singleton_Some. done. }
  split.
  - split.
    + apply demo_frames_inv.
    + by apply lookup_singleton_eq.
    + intros p [-> _]%Hone. done.
    + intros p path [-> ->]%Hone. split; [split; [reflexivity|vm_compute; split; [discriminate|reflexivity]]|].
      intros [_ [_ Hb]]. vm_compute in Hb. discriminate.
    + intros p path [-> ->]%Hone. simpl. lia.
    + intros p path i _ _ _ Hpr. unfold entry, load in Hpr. simpl in Hpr. by rewrite lookup_empty in Hpr.
    + intros p path i [_ Hnil]%Hone. by destruct path.
    + intros p path i _ _ _. unfold entry, load. simpl. by rewrite lookup_empty.
    + intros i _ Hpr. unfold entry, load in Hpr. simpl in Hpr. by rewrite lookup_empty in Hpr.
    + reflexivity.
  - intros p path [_ ->]%Hone. done.
Qed.

Lemma paging_map_page_correct_witness :
  run (oom 3 demo_paging) (paging_map_page 4096 (2 ^ 32) 8192 PAGING_FLAG_WRITABLE) (λ ok s',
    g_paging_lock s' = false ∧
    (ok = true ↔ 2 ^ 32 mod 4096 = 0 ∧ 8192 mod 4096 = 0 ∧
       ¬ (has PAGING_FLAG_WRITABLE PAGING_FLAG_GLOBAL = true ∧
          has PAGING_FLAG_WRITABLE PAGING_FLAG_USER = true) ∧
       translate demo_paging 4096 (2 ^ 32) = None) ∧
    if ok then
      (∃ T', space s' 4096 T' ∧ demo_tables ⊆ T' ∧
         page_installed demo_paging s' (2 ^ 32) 8192 PAGING_FLAG_WRITABLE demo_tables T') ∧
      pg_tlb s' = invlpg_events demo_paging (2 ^ 32) ++ pg_tlb demo_paging ∧
      ∀ v, translate s' 4096 v =
        if decide (vpage v = vpage (2 ^ 32)) then Some (8192 + v mod 4096) else translate demo_paging 4096 v
    else s' = demo_paging) demo_paging.
Proof.
  apply (paging_map_page_correct demo_paging demo_tables 4096); [apply demo_space|reflexivity|lia].
Defined.

(** The state after mapping one page, which is a well-formed space again. *)
Definition demo_mapped : paging_state pmm_state :=
  match paging_map_page 4096 (2 ^ 32) 8192 PAGING_FLAG_WRITABLE demo_paging with
  | Ok (_, s') => s' | _ => demo_paging end.

(** It used three frames for tables, the page translates, its neighbour does not. *)
Example demo_mapped_value :
  g_paging_lock demo_mapped = false ∧
  table_pages_allocated (g_paging_info demo_mapped) = 4 ∧
  translate demo_mapped 4096 (2 ^ 32 + 5) = Some 8197 ∧
  translate demo_mapped 4096 (2 ^ 32 + 4096) = None.
Proof. vm_compute. done. Qed.

(** Mapping and unmapping gives the three tables back. *)
Example demo_map_unmap :
  match paging_unmap_page 4096 (2 ^ 32) (Some 0) demo_mapped with
  | Ok (r, s') => r = (true, Some 8192) ∧ table_pages_allocated (g_paging_info s') = 1
  | _ => False
  end.
Proof. vm_compute. done. Qed.

Lemma paging_unmap_page_correct_witness :
  wp (paging_unmap_page 4096 (2 ^ 32) (Some 0)) (λ res s',
    g_paging_lock s' = false ∧ (res.1 = true ↔ mapped_4k demo_paging demo_tables (2 ^ 32)) ∧
    if res.1 then
      (∃ T', space s' 4096 T' ∧ T' ⊆ demo_tables ∧
         ∀ p, frame_free (pg_frames s') p ↔
           frame_free (pg_frames demo_paging) p ∨ (is_Some (demo_tables !! p) ∧ T' !! p = None)) ∧
      (∃ frame, translate demo_paging 4096 (2 ^ 32) = Some (Z.lor frame (Z.land (2 ^ 32) (PAGE_SIZE_4K - 1))) ∧
         res.2 = (λ _, frame) <$> Some 0) ∧
      pg_tlb s' = invlpg_events demo_paging (2 ^ 32) ++ pg_tlb demo_paging ∧
      ∀ v, translate s' 4096 v = if decide (vpage v = vpage (2 ^ 32)) then None else translate demo_paging 4096 v
    else s' = demo_paging ∧ res.2 = Some 0) demo_paging.
Proof.
  apply (paging_unmap_page_correct demo_paging demo_tables 4096); [apply demo_space|reflexivity].
Defined.

Lemma paging_protect_page_correct_witness :
  wp (paging_protect_page 4096 (2 ^ 32) 0) (λ ok s',
    g_paging_lock s' = false ∧ (ok = true ↔ mapped_4k demo_paging demo_tables (2 ^ 32)) ∧
    if ok then
      space s' 4096 demo_tables ∧ pg_frames s' = pg_frames demo_paging ∧
      pg_tlb s' = invlpg_events demo_paging (2 ^ 32) ++ pg_tlb demo_paging ∧
      (∀ p path i, demo_tables !! p = Some path → 0 ≤ i < 512 → entry s' p i =
         if decide (path = vpath 3 (2 ^ 32) ∧ i = index 0 (2 ^ 32))
         then Z.lor (Z.land (entry demo_paging p i) ENTRY_ADDR_MASK_4K)
                (Z.lor (paging_flags_to_hw demo_paging 0) PAGE_PRESENT)
         else entry demo_paging p i) ∧
      ∀ v, translate s' 4096 v = translate demo_paging 4096 v
    else s' = demo_paging) demo_paging.
Proof.
  apply (paging_protect_page_correct demo_paging demo_tables 4096); [apply demo_space|reflexivity].
Defined.

Lemma paging_map_range_correct_witness :
  run (oom (3 * 2) demo_paging) (paging_map_range 4096 (2 ^ 32) 8192 5000 0) (λ ok s',
    g_paging_lock s' = false ∧
    ∃ j T', (j ≤ 2)%nat ∧ space s' 4096 T' ∧ demo_tables ⊆ T' ∧
      (∀ i v, (i < j)%nat → vpage v = vpage (2 ^ 32 + 4096 * Z.of_nat i) →
         translate s' 4096 v = Some (8192 + 4096 * Z.of_nat i + v mod 4096)) ∧
      (∀ v, (∀ i, (i < j)%nat → vpage v ≠ vpage (2 ^ 32 + 4096 * Z.of_nat i)) →
         translate s' 4096 v = translate demo_paging 4096 v) ∧
      if ok then j = 2%nat ∧ 0 < 5000 ∧ 2 ^ 32 + 5000 < 2 ^ 64
      else (s' = demo_paging ∧ (5000 = 0 ∨ 2 ^ 64 ≤ 2 ^ 32 + 5000 ∨ 2 ^ 64 - 4096 < 5000)) ∨
           ((j < 2)%nat ∧
            map_ok s' 4096 (2 ^ 32 + 4096 * Z.of_nat j) (8192 + 4096 * Z.of_nat j) 0 = false)) demo_paging.
Proof.
  assert (Z.to_nat (range_pages 5000) = 2%nat) as Hn by reflexivity.
  pose proof (paging_map_range_correct demo_paging demo_tables 4096 (2 ^ 32) 8192 5000 0
    demo_space eq_refl ltac:(split; lia) ltac:(split; lia) ltac:(lia)) as H.
  rewrite Hn in H. apply H. change (range_pages 5000) with 2. lia.
Defined.
