(* ===== verification/PagingInit.v ===== *)
(** Bringing up the kernel's own page tables (mm/paging.c, [paging_init] and the
    mappers it uses): the kernel image and the current stack and framebuffer are
    copied from the bootloader's tables, the higher-half direct map is built with
    2 MiB pages, CR3 is switched and the bootloader's memory is reclaimed. *)

From S2P Require Import Prelude Frames Boot Paging.

Definition PANIC_OLD_KERNEL : string := "Paging init failed: old CR3 missing kernel mapping".
Definition PANIC_OLD_RANGE : string := "Paging init failed: old CR3 translation missing for required range".
Definition PANIC_REMAP : string :=
  "Paging init failed: virtual address already mapped to different physical page".

Section PagingInit.
Context {A : Type} `{!FrameAllocator A, !FrameInfo A}.
Abbreviation state := (paging_state A).
Implicit Types s : state.

(** [flags] are hardware bits here. *)
Definition map_page_2m (root_pml4_phys virt_addr phys_addr flags : Z) : M state unit :=
  if has (Z.lor virt_addr phys_addr) (PAGE_SIZE_2M - 1)
  then panic "Paging init failed: 2 MiB mapping not aligned"
  else
    let! pdpt := get_or_create_table root_pml4_phys (pml4_index virt_addr) false in
    let! pd := get_or_create_table pdpt (pdpt_index virt_addr) false in
    modify (store (slot pd (pd_index virt_addr))
      (Z.lor (Z.lor (Z.lor (Z.land phys_addr ENTRY_ADDR_MASK_2M) flags) PAGE_PRESENT) PAGE_PS)).

Definition map_page_4k (root_pml4_phys virt_addr phys_addr flags : Z) : M state unit :=
  if has (Z.lor virt_addr phys_addr) (PAGE_SIZE_4K - 1)
  then panic "Paging init failed: 4 KiB mapping not aligned"
  else
    let! pdpt := get_or_create_table root_pml4_phys (pml4_index virt_addr) false in
    let! pd := get_or_create_table pdpt (pdpt_index virt_addr) false in
    let! pd_entry := gets (λ s, entry s pd (pd_index virt_addr)) in
    if has pd_entry PAGE_PRESENT && has pd_entry PAGE_PS
    then panic "Paging init failed: 4 KiB mapping conflicts with 2 MiB mapping"
    else
      let! pt := get_or_create_table pd (pd_index virt_addr) false in
      modify (store (slot pt (pt_index virt_addr))
        (Z.lor (Z.lor (Z.land phys_addr ENTRY_ADDR_MASK_4K) flags) PAGE_PRESENT)).

Definition ensure_page_mapping (root_pml4_phys virt_addr phys_addr flags : Z) : M state bool :=
  let! existing := gets (λ s, translate s root_pml4_phys virt_addr) in
  match existing with
  | Some mapped_phys =>
      if negb (align_down mapped_phys PAGE_SIZE_4K =? align_down phys_addr PAGE_SIZE_4K)
      then panic PANIC_REMAP
      else ret false
  | None =>
      map_page_4k root_pml4_phys virt_addr phys_addr flags;;
      ret true
  end.

Definition kernel_flags : Z := Z.lor PAGE_WRITABLE PAGE_GLOBAL.

Section WithLayout.
Context (lay : kernel_layout).

Definition map_kernel_range_from_old_cr3 (new_pml4_phys old_cr3_phys : Z) : M state Z :=
  if kernel_virtual_end lay <=? kernel_virtual_start lay
  then panic "Paging init failed: invalid kernel mapping bounds"
  else
    let virt_size := kernel_virtual_end lay - kernel_virtual_start lay in
    let page_count := align_up virt_size PAGE_SIZE_4K / PAGE_SIZE_4K in
    let! _ := for_loop (Z.to_nat page_count) 0 1 (λ page,
      let virt := u64 (kernel_virtual_start lay + u64 (page * PAGE_SIZE_4K)) in
      let! old := gets (λ s, translate s old_cr3_phys virt) in
      match old with
      | None => panic PANIC_OLD_KERNEL
      | Some phys =>
          map_page_4k new_pml4_phys virt (align_down phys PAGE_SIZE_4K) kernel_flags;;
          ret (@None unit)
      end) in
    ret page_count.

Definition with_hhdm (f2m f4k : Z → Z) (i : paging_info_t) : paging_info_t :=
  mkPagingInfo (initialized i) (root_pml4_phys i) (table_pages_allocated i)
    (mapped_kernel_pages i) (f2m (mapped_hhdm_2m_pages i)) (f4k (mapped_hhdm_4k_pages i))
    (mapped_passthrough_pages i) (reclaimed_bootloader_pages i).

(** Both loops run [phys] upwards from where the previous one stopped; the
    2 MiB limit is a multiple of 2 MiB and the span a multiple of 4 KiB. *)
Definition map_hhdm_range (new_pml4_phys hhdm_span_bytes : Z) : M state unit :=
  let use_2m := Z.land (g_hhdm_offset lay) (PAGE_SIZE_2M - 1) =? 0 in
  let two_mib_limit := if use_2m then align_down hhdm_span_bytes PAGE_SIZE_2M else 0 in
  let! _ := for_loop (Z.to_nat (two_mib_limit / PAGE_SIZE_2M)) 0 PAGE_SIZE_2M (λ phys,
    let virt := u64 (g_hhdm_offset lay + phys) in
    if virt <? g_hhdm_offset lay then panic "Paging init failed: HHDM virtual overflow"
    else
      map_page_2m new_pml4_phys virt phys kernel_flags;;
      modify (λ s, set_info (with_hhdm (λ n, u64 (n + 1)) id (g_paging_info s)) s);;
      ret (@None unit)) in
  let! _ := for_loop (Z.to_nat ((hhdm_span_bytes - two_mib_limit + (PAGE_SIZE_4K - 1)) / PAGE_SIZE_4K))
              two_mib_limit PAGE_SIZE_4K (λ phys,
    let virt := u64 (g_hhdm_offset lay + phys) in
    if virt <? g_hhdm_offset lay then panic "Paging init failed: HHDM virtual overflow"
    else
      map_page_4k new_pml4_phys virt phys kernel_flags;;
      modify (λ s, set_info (with_hhdm id (λ n, u64 (n + 1)) (g_paging_info s)) s);;
      ret (@None unit)) in
  ret tt.

(** The loop over [n] pages from [virt] on; [mapped] counts the new ones. *)
Fixpoint map_range_pages (n : nat) (new_pml4_phys old_cr3_phys virt mapped : Z) : M state Z :=
  match n with
  | O => ret mapped
  | S n' =>
      let! old := gets (λ s, translate s old_cr3_phys virt) in
      match old with
      | None => panic PANIC_OLD_RANGE
      | Some phys =>
          let! fresh := ensure_page_mapping new_pml4_phys virt (align_down phys PAGE_SIZE_4K) kernel_flags in
          map_range_pages n' new_pml4_phys old_cr3_phys (virt + PAGE_SIZE_4K) (if fresh then u64 (mapped + 1) else mapped)
      end
  end.

(** [page_start] and [page_end] are page aligned, so the loop runs
    [(page_end - page_start) / 4096] times and [virt] does not wrap. *)
Definition map_range_from_old_cr3 (new_pml4_phys old_cr3_phys virt_start virt_end : Z) : M state Z :=
  let page_start := align_down virt_start PAGE_SIZE_4K in
  let page_end := align_up virt_end PAGE_SIZE_4K in
  map_range_pages (Z.to_nat ((page_end - page_start) / PAGE_SIZE_4K)) new_pml4_phys old_cr3_phys page_start 0.

(** One reclaimable region: [phys] from [start] to [end] (both page aligned). *)
Fixpoint reclaim_pages (n : nat) (phys skip_start skip_end reclaimed : Z) : M state Z :=
  match n with
  | O => ret reclaimed
  | S n' =>
      if (phys >=? skip_start) && (phys <? skip_end)
      then reclaim_pages n' (phys + PAGE_SIZE_4K) skip_start skip_end reclaimed
      else
        on_frames (free_frame phys);;
        reclaim_pages n' (phys + PAGE_SIZE_4K) skip_start skip_end (u64 (reclaimed + 1))
  end.

Fixpoint reclaim_entries (es : list MemoryMapEntry) (skip_start skip_end reclaimed : Z) : M state Z :=
  match es with
  | [] => ret reclaimed
  | e :: es' =>
      if negb (type e =? MEMMAP_BOOTLOADER_RECLAIMABLE)
      then reclaim_entries es' skip_start skip_end reclaimed
      else
        let start := align_up (base e) PAGE_SIZE_4K in
        let end_ := align_down (entry_end e) PAGE_SIZE_4K in
        let! reclaimed := reclaim_pages (Z.to_nat ((end_ - start) / PAGE_SIZE_4K)) start
                            skip_start skip_end reclaimed in
        reclaim_entries es' skip_start skip_end reclaimed
  end.

Definition reclaim_bootloader_reclaimable (memory_map : option BootMemoryMap)
    (skip_phys_start skip_phys_end : Z) : M state Z :=
  match memory_map with
  | Some mm =>
      if map_missing memory_map then ret 0
      else reclaim_entries (map_entries mm) skip_phys_start skip_phys_end 0
  | None => ret 0
  end.

(** The window around the stack pointer that is copied, and the physical window
    that is not reclaimed. *)
Definition stack_window (current_rsp : Z) : Z * Z :=
  let start := if current_rsp >? STACK_PROTECT_WINDOW_BYTES
               then current_rsp - STACK_PROTECT_WINDOW_BYTES else 0 in
  let end_ := u64 (current_rsp + STACK_PROTECT_WINDOW_BYTES) in
  (start, if end_ <? current_rsp then UINT64_MAX else end_).

Definition reclaim_skip (stack_phys : option Z) : Z * Z :=
  match stack_phys with
  | None => (0, 0)
  | Some stack_phys =>
      let start := if stack_phys >? STACK_PROTECT_WINDOW_BYTES
                   then align_down (stack_phys - STACK_PROTECT_WINDOW_BYTES) PAGE_SIZE_4K else 0 in
      let end_ := align_up (u64 (stack_phys + STACK_PROTECT_WINDOW_BYTES)) PAGE_SIZE_4K in
      (start, if end_ <? start then UINT64_MAX else end_)
  end.

Definition set_info_fields (root kernel passthrough reclaimed : Z → Z) (ini : bool → bool)
    (i : paging_info_t) : paging_info_t :=
  mkPagingInfo (ini (initialized i)) (root (root_pml4_phys i)) (table_pages_allocated i)
    (kernel (mapped_kernel_pages i)) (mapped_hhdm_2m_pages i) (mapped_hhdm_4k_pages i)
    (passthrough (mapped_passthrough_pages i)) (reclaimed (reclaimed_bootloader_pages i)).

(** [mapped_passthrough_pages += map_range_from_old_cr3(...)] *)
Definition passthrough (new_pml4_phys old_cr3_phys virt_start virt_end : Z) : M state unit :=
  let! n := map_range_from_old_cr3 new_pml4_phys old_cr3_phys virt_start virt_end in
  modify (λ s, set_info (set_info_fields id id (λ m, u64 (m + n)) id id (g_paging_info s)) s).

Definition map_framebuffer (fb : BootFramebuffer) (new_pml4_phys old_cr3_phys : Z) : M state unit :=
  if negb (address fb =? 0) && negb (pitch fb =? 0) && negb (height fb =? 0) then
    if pitch fb >? UINT64_MAX / height fb
    then panic "Paging init failed: framebuffer size overflow"
    else
      let fb_base := address fb in
      let fb_size := u64 (pitch fb * height fb) in
      let fb_end := u64 (fb_base + fb_size) in
      let fb_end := if fb_end <? fb_base then UINT64_MAX else fb_end in
      passthrough new_pml4_phys old_cr3_phys fb_base fb_end
  else ret tt.

(** [current_rsp] is the value [read_rsp] returns. *)
Definition paging_init (memory_map : option BootMemoryMap) (fb : BootFramebuffer) (current_rsp : Z)
  : M state unit :=
  if map_missing memory_map then panic "Paging init failed: invalid memory map"
  else
    spin_lock;;
    let! s := get in
    if g_paging_initialized s then spin_unlock
    else if negb (frames_ready (pg_frames s)) then panic "Paging init failed: PMM is not ready"
    else
      let highest := frames_highest (pg_frames s) in
      if (highest =? 0) || (highest =? UINT64_MAX) then panic "Paging init failed: invalid PMM info"
      else
        let hhdm_span_bytes := align_up highest PAGE_SIZE_4K in
        let! v := paging_read_cr3 in
        let old_cr3_phys := Z.land v ENTRY_ADDR_MASK_4K in
        match translate s old_cr3_phys (kernel_virtual_start lay) with
        | None => panic "Paging init failed: unable to translate kernel start from old CR3"
        | Some _ =>
          let! new_pml4_phys := alloc_table_page in
          modify (λ s, set_info (set_info_fields (λ _, new_pml4_phys) id id id id (g_paging_info s)) s);;
          let! kernel_pages := map_kernel_range_from_old_cr3 new_pml4_phys old_cr3_phys in
          modify (λ s, set_info (set_info_fields id (λ _, kernel_pages) id id id (g_paging_info s)) s);;
          map_hhdm_range new_pml4_phys hhdm_span_bytes;;
          passthrough new_pml4_phys old_cr3_phys (stack_window current_rsp).1 (stack_window current_rsp).2;;
          map_framebuffer fb new_pml4_phys old_cr3_phys;;
          let! stack_phys := gets (λ s, translate s old_cr3_phys current_rsp) in
          let skip := reclaim_skip stack_phys in
          paging_load_cr3 new_pml4_phys;;
          let! reclaimed := reclaim_bootloader_reclaimable memory_map skip.1 skip.2 in
          modify (λ s, set_info (set_info_fields id id id (λ _, reclaimed) (λ _, true) (g_paging_info s)) s);;
          modify (set_paging_initialized true);;
          spin_unlock
        end.
End WithLayout.
End PagingInit.
