(* ===== verification/Mapper.v ===== *)
(** The contract between the memory managers below (pmm.c, paging.c) and
    vmalloc.c, their client: the calls vmalloc.c makes and what it may rely on.

    [pm_busy p va]: the page of [va] has a translation.  [pm_maps p va f]: it is
    mapped by a 4 KiB entry to frame [f].  [pm_owned p f]: frame [f] is handed
    out and used neither as a page table nor by the allocator, so the client
    that holds it may give it back.  [pm_avail p f]: frame [f] is free, the
    allocator may hand it out. *)

From S2P Require Import Prelude Paging PageTree.

Class PageMapper (P : Type) : Type := {
  (** [pmm_ready() && paging_ready()] *)
  pm_ready : P → bool;
  (** [pmm_get_info()->highest_physical_address] *)
  pm_highest : P → Z;
  (** [paging_get_info()->root_pml4_phys] *)
  pm_root : P → Z;
  (** [pmm_try_alloc_page_phys(&phys)] *)
  pm_alloc : M P (option Z);
  (** [pmm_free_page_phys(phys)] *)
  pm_free : Z → M P unit;
  (** [paging_map_page(root, virt, phys, flags)] *)
  pm_map : Z → Z → Z → Z → M P bool;
  (** [paging_unmap_page(root, virt, &phys)] with [phys] initialised to the
      third argument; the result pairs the return value with [phys]. *)
  pm_unmap : Z → Z → Z → M P (bool * Z);
  pm_inv : P → Prop;
  pm_busy : P → Z → Prop;
  pm_maps : P → Z → Z → Prop;
  pm_owned : P → Z → Prop;
  pm_avail : P → Z → Prop
}.

(** The address space is the same one. *)
Definition pm_same {P} `{!PageMapper P} (p p' : P) : Prop := pm_root p' = pm_root p.

#[export] Instance pm_same_preorder {P} `{!PageMapper P} : PreOrder (pm_same (P := P)).
Proof. split; [done|]. intros ???; unfold pm_same; congruence. Qed.

(** The only way the managers panic is running out of frames for tables. *)
Definition table_oom (msg : string) : Prop :=
  msg = "Paging init failed: out of memory for page tables"%string.

Class PageMapperLaws (P : Type) `{!PageMapper P} : Prop := {
  pm_busy_page p v v' : vpage v = vpage v' → pm_busy p v ↔ pm_busy p v';
  pm_maps_busy p v f : pm_inv p → pm_maps p v f → pm_busy p v;
  pm_maps_unique p v f g : pm_inv p → pm_maps p v f → pm_maps p v g → f = g;
  pm_alloc_spec p :
    pm_inv p →
    wp pm_alloc (λ r p', pm_inv p' ∧ pm_same p p' ∧
      (∀ v, pm_busy p' v ↔ pm_busy p v) ∧ (∀ v f, pm_maps p v f → pm_maps p' v f) ∧
      (∀ f, pm_owned p' f ↔ pm_owned p f ∨ r = Some f) ∧
      match r with
      | Some f => pm_avail p f ∧ ¬ pm_owned p f ∧ f mod 4096 = 0 ∧ 0 ≤ f < 2 ^ 52
      | None => ∀ f, ¬ pm_avail p f
      end) p;
  pm_free_spec p f :
    pm_inv p → pm_owned p f →
    wp (pm_free f) (λ _ p', pm_inv p' ∧ pm_same p p' ∧
      (∀ v, pm_busy p' v ↔ pm_busy p v) ∧ (∀ v g, pm_maps p v g → pm_maps p' v g) ∧
      (∀ g, pm_owned p' g ↔ pm_owned p g ∧ g ≠ f) ∧
      (∀ g, pm_avail p' g ↔ pm_avail p g ∨ g = f)) p;
  pm_map_spec p va pa flags :
    pm_inv p → pa mod 4096 = 0 → 0 ≤ pa < 2 ^ 52 →
    run table_oom (pm_map (pm_root p) va pa flags) (λ ok p', pm_inv p' ∧ pm_same p p' ∧
      (∀ f, pm_owned p' f ↔ pm_owned p f) ∧
      (∀ v f, pm_maps p v f → pm_maps p' v f) ∧
      (∀ v, pm_busy p' v ↔ pm_busy p v ∨ (ok = true ∧ vpage v = vpage va)) ∧
      (ok = true → ¬ pm_busy p va ∧ ∀ v, vpage v = vpage va → pm_maps p' v pa) ∧
      (ok = false → p' = p)) p;
  pm_unmap_spec p va v0 :
    pm_inv p →
    wp (pm_unmap (pm_root p) va v0) (λ r p', pm_inv p' ∧ pm_same p p' ∧
      (∀ f, pm_owned p' f ↔ pm_owned p f) ∧ (∀ f, pm_avail p f → pm_avail p' f) ∧
      (∀ v f, vpage v ≠ vpage va → pm_maps p v f → pm_maps p' v f) ∧
      (∀ v, pm_busy p' v ↔ pm_busy p v ∧ ¬ (r.1 = true ∧ vpage v = vpage va)) ∧
      (r.1 = true ↔ ∃ f, pm_maps p va f) ∧
      (r.1 = true → pm_maps p va r.2)) p
}.
