(* ===== verification/PagingMapper.v ===== *)
(** The page-table manager over any lawful frame allocator implements the
    contract vmalloc.c relies on. *)

From S2P Require Import Prelude Frames Boot Pmm Paging PageTree PagingSpec PagingProps Mapper.

Section Instance_.
Context {A : Type} `{!FrameAllocator A, !FrameAllocatorLaws A, !FrameInfo A}.
Abbreviation state := (paging_state A).
Implicit Types (s : state) (T : gmap Z (list Z)).

(** * The set of tables is determined by memory *)

Lemma tree_sub s root T1 T2 : tree s root T1 → tree s root T2 → T1 ⊆ T2.
Proof.
  intros H1 H2. apply map_subseteq_spec. intros p path. revert p.
  induction path as [|i path IH] using rev_ind; intros p Hp.
  - rewrite (tree_root_only _ _ _ H1 _ Hp). apply H2.
  - destruct (tree_parent _ _ _ H1 _ _ _ Hp) as (q & Hq & Hi & Hpr & Hps & <-).
    apply (tree_child _ _ _ H2); auto.
    pose proof (tree_depth _ _ _ H1 _ _ Hp) as Hd. rewrite length_app in Hd. simpl in Hd. lia.
Qed.

Lemma tree_unique s root T1 T2 : tree s root T1 → tree s root T2 → T1 = T2.
Proof. intros H1 H2. apply (anti_symm (⊆)); by eapply tree_sub. Qed.

(** Exchanging the allocator state under the tables. *)
Lemma space_set_frames s root T a' :
  space s root T → frames_inv a' →
  (∀ p, frame_managed a' p ↔ frame_managed (pg_frames s) p) →
  (∀ p path, T !! p = Some path → ¬ frame_free a' p) →
  space (set_frames a' s) root T.
Proof.
  intros [Ht Hc] HF HM Hfree. split; [|exact Hc]. destruct Ht as [F R RO Fr D C P Z0 PM N].
  split; try done. intros p path Hp. simpl. rewrite HM. split; [by eapply Fr|by eapply Hfree].
Qed.

(** * The interface *)

Definition root_of s : Z := Z.land (root_pml4_phys (g_paging_info s)) ENTRY_ADDR_MASK_4K.

(** A frame handed out by the allocator that is not a page table. *)
Definition owned s (f : Z) : Prop :=
  frame_managed (pg_frames s) f ∧ ¬ frame_free (pg_frames s) f ∧
  ∀ T, space s (root_of s) T → T !! f = None.

Definition maps s (va f : Z) : Prop :=
  ∃ T c, space s (root_of s) T ∧ T !! c = Some (vpath 3 va) ∧
    has (entry s c (index 0 va)) PAGE_PRESENT = true ∧
    Z.land (entry s c (index 0 va)) ENTRY_ADDR_MASK_4K = f.

#[export] Instance paging_mapper : PageMapper state := {
  pm_ready s := frames_ready (pg_frames s) && paging_ready s;
  pm_highest s := frames_highest (pg_frames s);
  pm_root s := root_pml4_phys (paging_get_info s);
  pm_alloc := on_frames try_alloc_frame;
  pm_free f := on_frames (free_frame f);
  pm_map := paging_map_page;
  pm_unmap root va v0 :=
    let! r := paging_unmap_page root va (Some v0) in
    ret (r.1, default v0 r.2);
  pm_inv s := g_paging_lock s = false ∧ ∃ T, space s (root_of s) T;
  pm_busy s va := translate s (root_pml4_phys (g_paging_info s)) va ≠ None;
  pm_maps := maps;
  pm_owned := owned;
  pm_avail s := frame_free (pg_frames s)
}.

Lemma maps_walk s va f :
  maps s va f → ∃ e, walk s 3 (root_of s) va = Some (leaf 0 e va) ∧ Z.land e ENTRY_ADDR_MASK_4K = f.
Proof.
  intros (T & c & [Ht _] & Hc & Hpr & <-). eexists. split; [|done].
  rewrite (walk_reach _ _ _ 3 _ _ Ht (le_n 3) Hc). cbn [walk Nat.sub]. unfold ent. by rewrite Hpr.
Qed.

Lemma owned_intro s T f :
  space s (root_of s) T → frame_managed (pg_frames s) f → ¬ frame_free (pg_frames s) f →
  T !! f = None → owned s f.
Proof.
  intros [Ht Hc] Hm Hf Hn. split_and!; [done|done|]. intros T' [Ht' _].
  by rewrite (tree_unique _ _ _ _ Ht' Ht).
Qed.

Lemma owned_iff s T f :
  space s (root_of s) T →
  owned s f ↔ frame_managed (pg_frames s) f ∧ ¬ frame_free (pg_frames s) f ∧ T !! f = None.
Proof.
  intros Hs. split.
  - intros (? & ? & HT). auto.
  - intros (? & ? & ?). by apply (owned_intro _ T).
Qed.

Lemma leaf0_addr e e' va :
  leaf 0 e va = leaf 0 e' va → Z.land e ENTRY_ADDR_MASK_4K = Z.land e' ENTRY_ADDR_MASK_4K.
Proof.
  intros H. apply (f_equal (λ x, Z.land x ENTRY_ADDR_MASK_4K)) in H. unfold leaf in H.
  rewrite !Z.land_lor_distr_l, <- !Z.land_assoc, !Z.land_diag in H.
  change (Z.land (PAGE_SIZE_4K - 1) ENTRY_ADDR_MASK_4K) with 0 in H.
  by rewrite Z.land_0_r, !Z.lor_0_r in H.
Qed.

(** A mapping of a page the operation does not touch stays: its page table is
    still on the path and the translation is the same. *)
Lemma maps_keep s s' T T' va f :
  space s (root_of s) T → space s' (root_of s') T' → root_of s' = root_of s →
  (∀ p, T !! p = Some (vpath 3 va) → T' !! p = Some (vpath 3 va)) →
  walk s' 3 (root_of s) va = walk s 3 (root_of s) va → maps s va f → maps s' va f.
Proof.
  intros Hs Hs' Hr Hsub Hw Hm. pose proof Hm as (T0 & c & [Ht0 _] & Hc & Hpr & Hf).
  rewrite (tree_unique _ _ _ _ Ht0 (proj1 Hs)) in Hc. clear T0 Ht0.
  exists T', c. split; [done|]. split; [by apply Hsub|].
  rewrite <- Hr in Hw at 1.
  rewrite (walk_reach _ _ _ 3 _ _ (proj1 Hs') (le_n 3) (Hsub _ Hc)) in Hw.
  rewrite (walk_reach _ _ _ 3 _ _ (proj1 Hs) (le_n 3) Hc) in Hw.
  cbn [walk Nat.sub] in Hw. unfold ent in Hw. rewrite Hpr in Hw. cbn [negb] in Hw.
  destruct (has (entry s' c (index 0 va)) PAGE_PRESENT) eqn:Hpr'; [|done]. split; [done|].
  cbn [negb] in Hw. apply (inj Some), leaf0_addr in Hw. congruence.
Qed.
(** ** The frame calls *)

Lemma root_of_ctl s s' : same_ctl s s' → root_of s' = root_of s.
Proof. intros (_ & _ & _ & _ & _ & _ & H). unfold root_of. by rewrite H. Qed.

Lemma busy_walk s va : pm_busy s va ↔ walk s 3 (root_of s) va ≠ None.
Proof. simpl. by rewrite translate_walk. Qed.

Lemma alloc_law s :
  pm_inv s →
  wp pm_alloc (λ r s', pm_inv s' ∧ pm_same s s' ∧
    (∀ v, pm_busy s' v ↔ pm_busy s v) ∧ (∀ v f, pm_maps s v f → pm_maps s' v f) ∧
    (∀ f, pm_owned s' f ↔ pm_owned s f ∨ r = Some f) ∧
    match r with
    | Some f => pm_avail s f ∧ ¬ pm_owned s f ∧ f mod 4096 = 0 ∧ 0 ≤ f < 2 ^ 52
    | None => ∀ f, ¬ pm_avail s f
    end) s.
Proof.
  intros [Hl [T Hs]]. simpl. unfold on_frames. apply run_zoom.
  eapply run_mono; [apply try_alloc_frame_spec, Hs|]. intros r a' (HF & HM & Hr).
  assert (∀ q, frame_free a' q → frame_free (pg_frames s) q) as Hsub.
  { destruct r as [f|]; destruct Hr as [H1 H2]; intros q Hq; [by apply H2|by apply H1]. }
  assert (space (set_frames a' s) (root_of s) T) as Hs'.
  { apply space_set_frames; try done. intros p path Hp Hfree.
    destruct (tree_frame _ _ _ (proj1 Hs) _ _ Hp) as [_ Hn]. by apply Hn, Hsub. }
  split_and!; [done|by exists T|done|done| | |].
  - intros v f. by apply (maps_keep _ _ T T).
  - intros f. rewrite (owned_iff s T f Hs), (owned_iff _ T f Hs'). simpl. rewrite HM. destruct r as [g|].
    + destruct Hr as [Hg Hfr]. rewrite Hfr. split.
      * intros (? & Hn & ?). destruct (decide (f = g)) as [->|]; [by right|left]. tauto.
      * intros [(? & ? & ?)|[= <-]]; [tauto|]. split_and!; [|tauto|].
        { apply frame_free_managed; [apply Hs|done]. }
        { destruct (T !! g) eqn:E; [|done]. by destruct (tree_frame _ _ _ (proj1 Hs) _ _ E). }
    + destruct Hr as [Hr _]. rewrite Hr. split; [tauto|]. by intros [?|?].
  - destruct r as [f|]; [|by destruct Hr]. destruct Hr as [Hf Hfr].
    assert (frame_managed (pg_frames s) f) as Hm by (apply frame_free_managed; [apply Hs|done]).
    split_and!; [done| | | |].
    + intros (_ & Hn & _). done.
    + apply (frame_managed_aligned (pg_frames s)); [apply Hs|done].
    + apply (frame_managed_aligned (pg_frames s)); [apply Hs|done].
    + apply (frame_managed_aligned (pg_frames s)); [apply Hs|done].
Qed.

Lemma free_law s f :
  pm_inv s → pm_owned s f →
  wp (pm_free f) (λ _ s', pm_inv s' ∧ pm_same s s' ∧
    (∀ v, pm_busy s' v ↔ pm_busy s v) ∧ (∀ v g, pm_maps s v g → pm_maps s' v g) ∧
    (∀ g, pm_owned s' g ↔ pm_owned s g ∧ g ≠ f) ∧
    (∀ g, pm_avail s' g ↔ pm_avail s g ∨ g = f)) s.
Proof.
  intros [Hl [T Hs]] (Hm & Hn & HT). simpl. unfold on_frames. apply run_zoom.
  eapply run_mono; [apply free_frame_spec; [apply Hs|done]|]. intros [] a' (HF & HM & Hfr).
  assert (space (set_frames a' s) (root_of s) T) as Hs'.
  { apply space_set_frames; try done. intros p path Hp. rewrite Hfr.
    destruct (tree_frame _ _ _ (proj1 Hs) _ _ Hp) as [_ Hnp]. intros [?| ->]; [done|].
    by rewrite (HT T Hs) in Hp. }
  split_and!; [done|by exists T|done|done| | |].
  - intros v g. by apply (maps_keep _ _ T T).
  - intros g. rewrite (owned_iff s T g Hs), (owned_iff _ T g Hs'). simpl. rewrite HM, Hfr. tauto.
  - exact Hfr.
Qed.

(** ** The mapping calls *)

Lemma map_law s va pa flags :
  pm_inv s → pa mod 4096 = 0 → 0 ≤ pa < 2 ^ 52 →
  run table_oom (pm_map (pm_root s) va pa flags) (λ ok s', pm_inv s' ∧ pm_same s s' ∧
    (∀ f, pm_owned s' f ↔ pm_owned s f) ∧
    (∀ v f, pm_maps s v f → pm_maps s' v f) ∧
    (∀ v, pm_busy s' v ↔ pm_busy s v ∨ (ok = true ∧ vpage v = vpage va)) ∧
    (ok = true → ¬ pm_busy s va ∧ ∀ v, vpage v = vpage va → pm_maps s' v pa) ∧
    (ok = false → s' = s)) s.
Proof.
  intros [Hl [T Hs]] Hal Hpa.
  eapply run_weaken; [apply (map_page_spec s (root_of s) T); [apply Hs|done|done]| |].
  { intros msg [-> _]. done. }
  intros ok s' (Hl' & Hok & Hres). destruct ok.
  2: { subst s'. split_and!; try done; [by split; [|exists T]|]. intros v. split; [tauto|].
       intros [?|[? _]]; done. }
  destruct Hres as [T' M]. pose proof (root_of_ctl _ _ (mapped_ctl _ _ _ _ _ _ _ M)) as Hr.
  pose proof (mapped_space _ _ _ _ _ _ _ M (proj2 Hs)) as Hs'. rewrite <- Hr in Hs'.
  pose proof (mapped_walk _ _ _ _ _ _ _ M) as Hw.
  assert (walk s 3 (root_of s) va = None) as Hnone.
  { symmetry in Hok. apply map_ok_spec in Hok as (_ & _ & _ & Hn). by rewrite translate_walk in Hn. }
  split_and!; [by split; [|exists T']| | | | | |done].
  - unfold pm_same. simpl. apply M.
  - intros f. rewrite (owned_iff s T f Hs), (owned_iff s' T' f Hs').
    rewrite (mapped_managed _ _ _ _ _ _ _ M), (mapped_exact _ _ _ _ _ _ _ M).
    pose proof (lookup_weaken_None T T' f) as Hw1. pose proof (mapped_sub _ _ _ _ _ _ _ M) as Hsub.
    destruct (T' !! f) as [path|] eqn:E; [|naive_solver].
    destruct (mapped_new _ _ _ _ _ _ _ M _ _ E) as [E1|?]; [|tauto]. rewrite E1. naive_solver.
  - intros v f Hmf. apply (maps_keep s s' T T' v f); try done.
    + intros p Hp. eapply lookup_weaken; [done|apply M].
    + rewrite Hw, decide_False; [done|]. intros Hv. destruct (maps_walk _ _ _ Hmf) as (e & He & _).
      rewrite (walk_vpage s 3 _ va v) in He by (done || lia). done.
  - intros v. rewrite !busy_walk, Hr, Hw. case_decide; [|naive_solver]. split; [auto|done].
  - intros _. rewrite busy_walk. split; [congruence|]. intros v Hv.
    destruct (mapped_leaf _ _ _ _ _ _ _ M) as (c & Hc & He). rewrite vpage_eq in Hv.
    exists T', c. rewrite (Hv 0%nat), He by lia. split; [done|]. split.
    { rewrite Hc. f_equal. apply vpath_eq; [|lia]. intros k Hk. symmetry. apply Hv. lia. }
    rewrite pte_word_present, pte_word_addr, mask4k_frame by done. done.
Qed.
Lemma maps_mapped_4k s T va :
  space s (root_of s) T → (∃ f, maps s va f) ↔ mapped_4k s T va.
Proof.
  intros Hs. split.
  - intros (f & T' & c & Hs' & Hc & Hpr & _). exists c.
    by rewrite <- (tree_unique _ _ _ _ (proj1 Hs') (proj1 Hs)).
  - intros (c & Hc & Hpr). by exists (Z.land (entry s c (index 0 va)) ENTRY_ADDR_MASK_4K), T, c.
Qed.

(** The tables of another mapped page survive an unmapping. *)
Lemma unmapped_path s s' va T T' v c n :
  unmapped s s' (root_of s) va T T' → space s (root_of s) T → T !! c = Some (vpath 3 v) →
  walk s' 3 (root_of s) v ≠ None → (n ≤ 3)%nat → ∃ q, T' !! q = Some (vpath n v).
Proof.
  intros U [Ht _] Hc Hw. destruct (unmapped_space _ _ _ _ _ _ U) as [Ht' _].
  induction n as [|n IH]; intros Hn; [exists (root_of s); apply Ht'|].
  destruct IH as [q Hq]; [lia|]. pose proof (lookup_weaken _ _ _ _ Hq (unmapped_sub _ _ _ _ _ _ U)) as HqT.
  pose proof (tree_prefix_present s _ T n 3 q c v Ht HqT Hc ltac:(lia)) as Hpr.
  assert (has (ent s (3 - n) q v) PAGE_PS = false) as Hps.
  { destruct (has _ PAGE_PS) eqn:E; [|done]. exfalso.
    by apply (tree_no_path s _ T n q v 3 c Ht HqT); [by right|lia|]. }
  unfold ent in *. pose proof (index_range (3 - n) v) as Hi.
  destruct (unmapped_word _ _ _ _ _ _ U _ _ _ Hq Hi) as [He|He].
  - rewrite <- He in Hpr, Hps. eexists. apply (tree_child _ _ _ Ht' _ _ _ Hq); [|done..].
    rewrite vpath_length. lia.
  - exfalso. apply Hw. rewrite (walk_reach _ _ _ n _ _ Ht' ltac:(lia) Hq). apply walk_absent.
    unfold ent. by rewrite He.
Qed.

Lemma unmapped_table s s' va T T' v f c :
  unmapped s s' (root_of s) va T T' → space s (root_of s) T →
  vpage v ≠ vpage va → maps s v f → T !! c = Some (vpath 3 v) → T' !! c = Some (vpath 3 v).
Proof.
  intros U Hs Hv Hm Hc. destruct (maps_walk _ _ _ Hm) as (e & He & _).
  destruct (unmapped_path s s' va T T' v c 3 U Hs Hc) as [q Hq]; [|lia|].
  { rewrite (unmapped_walk _ _ _ _ _ _ U), decide_False by done. by rewrite He. }
  pose proof (lookup_weaken _ _ _ _ Hq (unmapped_sub _ _ _ _ _ _ U)) as HqT.
  by rewrite (tree_path_inj _ _ _ _ _ _ (proj1 Hs) Hc HqT).
Qed.

Lemma unmap_law s va v0 :
  pm_inv s →
  wp (pm_unmap (pm_root s) va v0) (λ r s', pm_inv s' ∧ pm_same s s' ∧
    (∀ f, pm_owned s' f ↔ pm_owned s f) ∧ (∀ f, pm_avail s f → pm_avail s' f) ∧
    (∀ v f, vpage v ≠ vpage va → pm_maps s v f → pm_maps s' v f) ∧
    (∀ v, pm_busy s' v ↔ pm_busy s v ∧ ¬ (r.1 = true ∧ vpage v = vpage va)) ∧
    (r.1 = true ↔ ∃ f, pm_maps s va f) ∧
    (r.1 = true → pm_maps s va r.2)) s.
Proof.
  intros [Hl [T Hs]]. unfold pm_unmap, paging_mapper. run_step.
  eapply run_mono; [by apply (unmap_page_spec s (root_of s) T)|].
  intros [ok cell] s' (Hl' & Hres). run_step. cbn [fst snd] in *.
  pose proof (maps_mapped_4k s T va Hs) as Hiff. destruct ok.
  2: { destruct Hres as (Hn & -> & ->). split_and!; try done; [by split; [|exists T]|naive_solver|].
       split; [done|]. intros Hm. exfalso. by apply Hn, Hiff. }
  destruct Hres as (Hm & [T' U] & e & He & ->).
  pose proof (root_of_ctl _ _ (unmapped_ctl _ _ _ _ _ _ U)) as Hr.
  pose proof (unmapped_space _ _ _ _ _ _ U) as Hs'. rewrite <- Hr in Hs'.
  pose proof (unmapped_walk _ _ _ _ _ _ U) as Hw. split_and!.
  - by split; [|exists T'].
  - unfold pm_same. simpl. apply U.
  - intros f. rewrite (owned_iff s T f Hs), (owned_iff s' T' f Hs').
    rewrite (unmapped_managed _ _ _ _ _ _ U), (unmapped_free _ _ _ _ _ _ U).
    pose proof (lookup_weaken_None T' T f) as Hw1. pose proof (unmapped_sub _ _ _ _ _ _ U) as Hsub.
    destruct (T !! f) as [path|] eqn:E; [|split; [tauto|]; intros (? & ? & _); split_and!; [done| |by apply Hw1];
      intros [?|[[? [=]] _]]; done].
    split; [|by intros (_ & _ & ?)]. intros (_ & Hn & Hn'). exfalso. apply Hn. right. by split.
  - intros f Hf. apply (unmapped_free _ _ _ _ _ _ U). by left.
  - intros v f Hv Hmf. apply (maps_keep s s' T T' v f); try done.
    + intros c. by eapply unmapped_table.
    + by rewrite Hw, decide_False.
  - intros v. rewrite !busy_walk, Hr, Hw. case_decide; naive_solver.
  - tauto.
  - intros _. destruct (proj2 Hiff Hm) as [f Hmf]. destruct (maps_walk _ _ _ Hmf) as (e' & He' & Hf).
    simpl. rewrite He in He'. apply (inj Some), leaf0_addr in He'. by rewrite He', Hf.
Qed.

#[export] Instance paging_mapper_laws : PageMapperLaws state.
Proof.
  split.
  - intros s v v' Hv. rewrite !busy_walk. split; intros H Hn; apply H;
      eapply walk_vpage; try done; lia.
  - intros s v f _ Hm. rewrite busy_walk. destruct (maps_walk _ _ _ Hm) as (e & -> & _). done.
  - intros s v f g _ Hf Hg. destruct (maps_walk _ _ _ Hf) as (e & He & <-).
    destruct (maps_walk _ _ _ Hg) as (e' & He' & <-). rewrite He in He'.
    by apply (inj Some), leaf0_addr in He'.
  - apply alloc_law.
  - apply free_law.
  - apply map_law.
  - apply unmap_law.
Qed.
End Instance_.
