(* ===== verification/PageHuge.v ===== *)
(** Page tables with 2 MiB pages, and the tables of the boot loader: what writing a
    large-page word does to the tree of PageTree.v and to translation, and when a
    foreign set of tables translates as before. *)

From S2P Require Import Prelude Frames Boot Paging PageTree PagingSpec.

(** * Canonical addresses *)

(** The addresses the processor accepts; on them the page number tells pages apart. *)
Definition canonical (v : Z) : Prop := 0 ≤ v < 2 ^ 47 ∨ 2 ^ 64 - 2 ^ 47 ≤ v < 2 ^ 64.

Lemma vpage_canonical v w : canonical v → canonical w → vpage v = vpage w ↔ v / 4096 = w / 4096.
Proof. unfold canonical, vpage. split; [|by intros ->]. intros He. dlia. Qed.

Lemma canonical_page v w : canonical v → w / 4096 = v / 4096 → canonical w.
Proof. unfold canonical. intros. dlia. Qed.

Lemma canonical_block v w : canonical v → w / 2 ^ 21 = v / 2 ^ 21 → canonical w.
Proof. unfold canonical. intros. dlia. Qed.

Lemma block_range v : canonical v → 0 ≤ v / 2 ^ 21 < 2 ^ 26 ∨ 2 ^ 43 - 2 ^ 26 ≤ v / 2 ^ 21 < 2 ^ 43.
Proof. unfold canonical. intros. dlia. Qed.

(** The pages of a 2 MiB block. *)
Lemma block_pages v w : v mod 2 ^ 21 = 0 → w / 2 ^ 21 = v / 2 ^ 21 ↔ v / 4096 ≤ w / 4096 < v / 4096 + 512.
Proof. intros H. split; intros; dlia. Qed.

(** Two addresses in one 2 MiB block differ only in the lowest index. *)
Lemma index_block v w : canonical v → canonical w →
  (∀ k, (1 ≤ k < 4)%nat → index k v = index k w) ↔ v / 2 ^ 21 = w / 2 ^ 21.
Proof.
  intros Hv Hw. split.
  - intros H. pose proof (H 1%nat ltac:(lia)) as H1. pose proof (H 2%nat ltac:(lia)) as H2. pose proof (H 3%nat ltac:(lia)) as H3.
    unfold index in *. change (2 ^ (12 + 9 * Z.of_nat 1)) with (2 ^ 21) in H1.
    change (2 ^ (12 + 9 * Z.of_nat 2)) with (2 ^ 21 * 512) in H2. change (2 ^ (12 + 9 * Z.of_nat 3)) with (2 ^ 21 * 512 * 512) in H3.
    rewrite <- !Z.div_div in H2 by lia. rewrite <- !Z.div_div in H3 by lia.
    pose proof (block_range v Hv) as Rv. pose proof (block_range w Hw) as Rw. clear H.
    revert H1 H2 H3 Rv Rw. generalize (v / 2 ^ 21), (w / 2 ^ 21). intros. dlia.
  - intros E k Hk. unfold index. replace (2 ^ (12 + 9 * Z.of_nat k)) with (2 ^ 21 * 2 ^ (9 * Z.of_nat k - 9)).
    2: { rewrite <- Z.pow_add_r by lia. f_equal. lia. }
    rewrite <- !Z.div_div by (try apply Z.pow_pos_nonneg; lia). by rewrite E.
Qed.

Section Huge.
Context {A : Type} `{!FrameAllocator A, !FrameAllocatorLaws A}.
Abbreviation state := (paging_state A).
Implicit Types (s : state) (T : gmap Z (list Z)).

(** * The result of a walk *)

Lemma land_mask_range e m n : 0 ≤ n → in_width n m → in_width n (Z.land e m).
Proof. intros. rewrite Z.land_comm. by apply land_range. Qed.

Lemma mask4k_any e : frame_addr (Z.land e ENTRY_ADDR_MASK_4K).
Proof.
  assert (in_width 52 (Z.land e ENTRY_ADDR_MASK_4K)) as Hr by (by apply land_mask_range).
  pose proof (mask4k_frame_addr (Z.land e ENTRY_ADDR_MASK_4K) (proj1 Hr)) as H.
  by rewrite <- Z.land_assoc, Z.land_diag in H.
Qed.

(** The offset in the page is kept; the address fits the physical address space. *)
Lemma leaf_range k e v : (k ≤ 2)%nat → in_width 52 (leaf k e v) ∧ leaf k e v mod 4096 = v mod 4096.
Proof.
  assert (∀ e m l, in_width 52 m → Z.land m 4095 = 0 → in_width 52 l → Z.land l 4095 = 4095 →
    in_width 52 (Z.lor (Z.land e m) (Z.land v l)) ∧ Z.lor (Z.land e m) (Z.land v l) mod 4096 = v mod 4096) as H.
  { intros e' m l Hm Hm0 Hl Hl0. split; [apply lor_range; [lia|by apply land_mask_range..]|].
    change 4096 with (2 ^ 12). rewrite <- !land_ones_mod by lia. change (2 ^ 12 - 1) with 4095.
    by rewrite Z.land_lor_distr_l, <- !Z.land_assoc, Hm0, Hl0, Z.land_0_r, Z.lor_0_l. }
  intros Hk. destruct k as [|[|k]]; cbn [leaf]; by apply H.
Qed.

Lemma walk_range s k p v a : (k ≤ 3)%nat → walk s k p v = Some a → in_width 52 a ∧ a mod 4096 = v mod 4096.
Proof.
  revert p. induction k as [|k IH]; intros p Hk; cbn [walk].
  - destruct (negb _); [done|]. intros [= <-]. apply (leaf_range 0). lia.
  - destruct (negb _); [done|]. destruct (Nat.leb_spec (S k) 2); cbn [andb]; [|apply IH; lia].
    destruct (has _ PAGE_PS); [|apply IH; lia]. intros E. apply (inj Some) in E as <-. by apply leaf_range.
Qed.

(** * Foreign tables *)

(** No table that a walk from [p] at level [k] can reach lies in a frame of [F]. *)
Fixpoint undisturbed (F : Z → Prop) s (k : nat) (p : Z) : Prop :=
  p mod 4096 = 0 ∧ ¬ F p ∧
  match k with
  | O => True
  | S k' => ∀ i, 0 ≤ i < 512 → has (entry s p i) PAGE_PRESENT = true →
      (k ≤ 2)%nat ∧ has (entry s p i) PAGE_PS = true ∨ undisturbed F s k' (Z.land (entry s p i) ENTRY_ADDR_MASK_4K)
  end.

Lemma undisturbed_walk F s s' k p v :
  (∀ q i, q mod 4096 = 0 → 0 ≤ i < 512 → ¬ F q → entry s' q i = entry s q i) →
  undisturbed F s k p → walk s' k p v = walk s k p v.
Proof.
  intros Hsame. revert p. induction k as [|k IH]; intros p (Hp & HF & Hk); cbn [walk]; unfold ent;
    rewrite (Hsame p) by (done || apply index_range); [done|].
  destruct (has (entry s p (index (S k) v)) PAGE_PRESENT) eqn:Hpr; cbn [negb]; [|done].
  destruct (Hk _ (index_range (S k) v) Hpr) as [[Hle Hps]|Hu].
  - by rewrite Hps, (proj2 (Nat.leb_le (S k) 2)) by lia.
  - by rewrite (IH _ Hu).
Qed.

(** * Writing a 2 MiB word *)

Lemma tree_huge_store s root T c path i v :
  tree s root T → T !! c = Some path → length path = 2%nat → 0 ≤ i < 512 →
  has (entry s c i) PAGE_PRESENT = false → has v PAGE_PRESENT = true → has v PAGE_PS = true →
  tree (store (slot c i) v s) root T.
Proof.
  intros Ht Hc Hl Hi Habs Hv Hps. set (s' := store _ _ s).
  assert (∀ p path' j, T !! p = Some path' → 0 ≤ j < 512 → entry s' p j = if decide (p = c ∧ j = i) then v else entry s p j) as He.
  { intros. unfold s'. by rewrite entry_store by eauto using tree_aligned. }
  destruct Ht as [F R RO Fr D C P Z0 PM N]. split; try done.
  - intros p path' j Hp Hl' Hj. erewrite He by done. case_decide; [congruence|]. by apply C.
  - intros p path' j Hp. destruct (P _ _ _ Hp) as (q & Hq & Hj & H1 & H2 & H3). exists q. erewrite He by done.
    rewrite decide_False; [done|]. intros [-> ->]. congruence.
  - intros p path' j Hp Hj. erewrite He by done. case_decide; [congruence|]. by eapply Z0.
  - intros j Hj. erewrite He by done. rewrite decide_False; [by apply PM|]. intros [<- _].
    rewrite R in Hc. injection Hc as <-. done.
Qed.

Lemma walk_huge_store s root T c va v w :
  tree s root T → T !! c = Some (vpath 2 va) → has (ent s 1 c va) PAGE_PRESENT = false →
  has v PAGE_PRESENT = true → has v PAGE_PS = true → canonical va → canonical w →
  walk (store (slot c (index 1 va)) v s) 3 root w =
    if decide (w / 2 ^ 21 = va / 2 ^ 21) then Some (leaf 1 v w) else walk s 3 root w.
Proof.
  intros Ht Hc Habs Hv Hps Hva Hw. pose proof (index_range 1 va) as Hi.
  assert (tree (store (slot c (index 1 va)) v s) root T) as Ht'.
  { by eapply tree_huge_store. }
  case_decide as Hb.
  - pose proof (proj2 (index_block w va Hw Hva) Hb) as Hidx.
    rewrite (walk_reach _ _ _ 2 c w Ht'); [|lia|].
    2: { rewrite Hc. f_equal. apply vpath_eq; [|lia]. intros k Hk. symmetry. apply Hidx. lia. }
    cbn [walk Nat.sub]. unfold ent. rewrite (Hidx 1%nat) by lia.
    rewrite entry_store, decide_True by eauto using tree_aligned. by rewrite Hv, Hps.
  - apply (walk_ext s _ root T); [done|lia|apply Ht|]. intros j p Hj Hp. left. unfold ent.
    rewrite entry_store by (eauto using tree_aligned; apply index_range).
    rewrite decide_False; [done|]. intros [-> Hji]. apply Hb, (index_block w va Hw Hva). rewrite Hc in Hp.
    assert (j = 1)%nat as ->.
    { apply (f_equal (fmap length)) in Hp. simpl in Hp. injection Hp as Hp. rewrite vpath_length in Hp. lia. }
    apply (inj Some) in Hp. intros k Hk. destruct (decide (k = 1)%nat) as [->|]; [done|].
    symmetry. apply (vpath_inj 2); [done|lia].
Qed.

(** A table that was reached by growing towards [va] and then given a present word
    keeps every table in use. *)
Lemma compact_store s s1 va k n root T T1 c v :
  compact s T → grown va k s s1 root T T1 → (n ≤ 3)%nat → T1 !! c = Some (vpath n va) →
  has (ent s1 (3 - n) c va) PAGE_PRESENT = false → has v PAGE_PRESENT = true →
  compact (store (slot c (index (3 - n) va)) v s1) T1.
Proof.
  intros Hcp G Hn Hc Habs Hv p path Hp Hne. pose proof (grown_tree _ _ _ _ _ _ _ G) as Ht.
  assert (∃ i, 0 ≤ i < 512 ∧ (entry s1 p i ≠ 0 ∨ (p = c ∧ i = index (3 - n) va))) as (i & Hi & Hnz).
  { destruct (grown_new _ _ _ _ _ _ _ G p path Hp) as [HT|[_ [m ->]]].
    { destruct (Hcp _ _ HT Hne) as (i & Hi & He). exists i. split; [done|left]. by eapply (grown_word _ _ _ _ _ _ _ G). }
    destruct (decide (n < m)%nat) as [Hlt|Hge].
    { exfalso. eapply (tree_no_path s1 root T1 n c va m p Ht Hc); auto. }
    destruct (decide (m = n)) as [->|].
    { exists (index (3 - n) va). split; [apply index_range|right]. split; [|done]. by eapply tree_path_inj. }
    exists (index (3 - m) va). split; [apply index_range|left]. apply present_nonzero.
    eapply (tree_prefix_present s1 root T1 m n p c); eauto. lia. }
  exists i. split; [done|]. rewrite entry_store by eauto using tree_aligned, index_range.
  case_decide; [by apply present_nonzero|]. by destruct Hnz.
Qed.

(** Where the last table on the way is not empty, a block without translations has
    no word at the second level. *)
Lemma block_absent s root T c va :
  tree s root T → (∀ pt, T !! pt = Some (vpath 3 va) → ∃ i, 0 ≤ i < 512 ∧ entry s pt i ≠ 0) →
  T !! c = Some (vpath 2 va) → canonical va →
  (∀ w, w / 2 ^ 21 = va / 2 ^ 21 → walk s 3 root w = None) → has (ent s 1 c va) PAGE_PRESENT = false.
Proof.
  intros Ht Hcp Hc Hva Hnone. destruct (has (ent s 1 c va) PAGE_PRESENT) eqn:Hpr; [|done]. exfalso.
  pose proof (untranslated_not_huge s root T 1 c va Ht ltac:(lia) Hc (Hnone va eq_refl)) as Hps.
  pose proof (tree_walk_child s root T 0 c va Ht ltac:(lia) Hc Hpr Hps) as Hpt. cbn [Nat.sub] in Hpt.
  destruct (Hcp _ Hpt) as (i & Hi & He).
  set (w := va - va mod 2 ^ 21 + 4096 * i).
  assert (w / 2 ^ 21 = va / 2 ^ 21) as Hb by (unfold w; dlia).
  assert (canonical w) as Hw by (by eapply canonical_block).
  pose proof (proj2 (index_block w va Hw Hva) Hb) as Hidx.
  assert (index 0 w = i) as Hi0.
  { unfold index. change (2 ^ (12 + 9 * Z.of_nat 0)) with 4096. unfold w. dlia. }
  specialize (Hnone w Hb). rewrite (walk_reach _ _ _ 3 (Z.land (ent s 1 c va) ENTRY_ADDR_MASK_4K) w Ht (le_n 3)) in Hnone.
  2: { rewrite Hpt. f_equal. apply vpath_eq; [|lia]. intros k Hk. symmetry. apply Hidx. lia. }
  cbn [walk Nat.sub] in Hnone. unfold ent in Hnone at 1. rewrite Hi0 in Hnone.
  destruct (has (entry s (Z.land (ent s 1 c va) ENTRY_ADDR_MASK_4K) i) PAGE_PRESENT) eqn:E; [done|].
  by rewrite (tree_zero _ _ _ Ht _ _ _ Hpt Hi E) in He.
Qed.
End Huge.
