(* ===== verification/PagingInitSpec.v ===== *)
(** What [paging_init] does: the address space it builds, page by page.

    The page map of the new tables is described by a function from page numbers to
    frames.  [building] is the invariant of the construction: the new tables are a
    well-formed space made of frames that were free, frames in use are not written,
    and the new tables translate as the page map says.  Each mapper extends the map;
    [paging_init_spec] composes them. *)

From S2P Require Import Prelude Frames Boot Paging PageTree PagingSpec PagingInit PagingMapper PageHuge.

(** * Page maps *)

Definition within (a b n : Z) : bool := (a <=? n) && (n <? b).

(** [f] on the pages from [a] to [b]. *)
Definition over (P : Z → option Z) (a b : Z) (f : Z → option Z) (n : Z) : option Z :=
  if within a b n then f n else P n.

(** [f] on the pages from [a] to [b] that have no frame. *)
Definition fill (P : Z → option Z) (a b : Z) (f : Z → option Z) (n : Z) : option Z :=
  match P n with Some x => Some x | None => if within a b n then f n else None end.

Lemma within_true a b n : within a b n = true ↔ a ≤ n < b.
Proof. unfold within. rewrite andb_true_iff, Z.leb_le, Z.ltb_lt. done. Qed.

Lemma within_false a b n : within a b n = false ↔ ¬ (a ≤ n < b).
Proof. rewrite <- within_true. by destruct (within a b n). Qed.

Lemma within_empty a n : within a a n = false.
Proof. apply within_false. lia. Qed.

Lemma over_nil P a f n : over P a a f n = P n.
Proof. unfold over. by rewrite within_empty. Qed.

Lemma over_over P a b c f g n :
  a ≤ b → b ≤ c → (∀ m, b ≤ m < c → g m = f m) → over (over P a b f) b c g n = over P a c f n.
Proof.
  intros Hab Hbc Hg. unfold over. destruct (within b c n) eqn:E1.
  - apply within_true in E1. rewrite Hg by done. by rewrite (proj2 (within_true a c n)) by lia.
  - apply within_false in E1. destruct (within a b n) eqn:E2.
    + apply within_true in E2. by rewrite (proj2 (within_true a c n)) by lia.
    + apply within_false in E2. by rewrite (proj2 (within_false a c n)) by lia.
Qed.

(** Filling page by page, from the front. *)
Lemma fill_cons P P' a b f n :
  a < b → (∀ m, P' m = match P m with Some x => Some x | None => if m =? a then f a else None end) →
  fill P' (a + 1) b f n = fill P a b f n.
Proof.
  intros Hab HP. unfold fill. rewrite HP. destruct (P n); [done|]. destruct (Z.eqb_spec n a) as [->|Hn].
  - rewrite (proj2 (within_true a b a)) by lia. rewrite (proj2 (within_false (a + 1) b a)) by lia. by destruct (f a).
  - destruct (within a b n) eqn:E; [apply within_true in E; by rewrite (proj2 (within_true (a + 1) b n)) by lia|].
    apply within_false in E. by rewrite (proj2 (within_false (a + 1) b n)) by lia.
Qed.

(** ** Words *)

Lemma mask2m_block p : p mod 2 ^ 21 = 0 → 0 ≤ p < 2 ^ 52 → Z.land p ENTRY_ADDR_MASK_2M = p.
Proof.
  intros Ha Hp. change ENTRY_ADDR_MASK_2M with (Z.shiftl (Z.ones 31) 21).
  assert (p = Z.shiftl (p / 2 ^ 21) 21) as Hs by (rewrite Z.shiftl_mul_pow2 by lia; dlia).
  rewrite Hs at 1. rewrite <- Z.shiftl_land, Z.land_ones by lia.
  rewrite Z.mod_small by dlia. by symmetry.
Qed.

Definition word_4k (pa : Z) : Z := Z.lor (Z.lor (Z.land pa ENTRY_ADDR_MASK_4K) kernel_flags) PAGE_PRESENT.
Definition word_2m (pa : Z) : Z :=
  Z.lor (Z.lor (Z.lor (Z.land pa ENTRY_ADDR_MASK_2M) kernel_flags) PAGE_PRESENT) PAGE_PS.

Lemma word_4k_present pa : has (word_4k pa) PAGE_PRESENT = true.
Proof. unfold word_4k, PAGE_PRESENT. rewrite has_lor by lia. apply orb_true_r. Qed.

Lemma word_4k_leaf pa v : frame_addr pa → leaf 0 (word_4k pa) v = pa + v mod 4096.
Proof.
  intros Hpa. cbn [leaf]. unfold word_4k. rewrite !Z.land_lor_distr_l, <- Z.land_assoc, Z.land_diag.
  change (Z.land kernel_flags ENTRY_ADDR_MASK_4K) with 0. change (Z.land PAGE_PRESENT ENTRY_ADDR_MASK_4K) with 0.
  rewrite !Z.lor_0_r, mask4k_frame by done. apply lor_add_low, Hpa.
Qed.

Lemma word_2m_bits pa : has (word_2m pa) PAGE_PRESENT = true ∧ has (word_2m pa) PAGE_PS = true.
Proof.
  unfold word_2m, PAGE_PRESENT, PAGE_PS. rewrite !has_lor by lia. split; [|by rewrite orb_true_r].
  change (has (Z.shiftl 1 0) (Z.shiftl 1 0)) with true. by rewrite orb_true_r.
Qed.

Lemma word_2m_leaf pa v : pa mod 2 ^ 21 = 0 → 0 ≤ pa < 2 ^ 52 → leaf 1 (word_2m pa) v = pa + v mod 2 ^ 21.
Proof.
  intros Ha Hp. cbn [leaf]. unfold word_2m. rewrite !Z.land_lor_distr_l, <- Z.land_assoc, Z.land_diag.
  change (Z.land kernel_flags ENTRY_ADDR_MASK_2M) with 0. change (Z.land PAGE_PRESENT ENTRY_ADDR_MASK_2M) with 0.
  change (Z.land PAGE_PS ENTRY_ADDR_MASK_2M) with 0. rewrite !Z.lor_0_r, mask2m_block by done.
  change (PAGE_SIZE_2M - 1) with (2 ^ 21 - 1). rewrite land_ones_mod, Z.lor_comm by lia.
  replace pa with (Z.shiftl (pa / 2 ^ 21) 21) at 1 by (rewrite Z.shiftl_mul_pow2 by lia; dlia).
  rewrite lor_shiftl_add; [dlia|lia|]. unfold in_width. dlia.
Qed.

Lemma has_offset_2m x y : x mod 2 ^ 21 = 0 → y mod 2 ^ 21 = 0 → has (Z.lor x y) (PAGE_SIZE_2M - 1) = false.
Proof.
  intros Hx Hy. unfold has. rewrite Z.land_lor_distr_l. change (PAGE_SIZE_2M - 1) with (2 ^ 21 - 1).
  by rewrite !land_ones_mod, Hx, Hy by lia.
Qed.

Section Spec.
Context {A : Type} `{!FrameAllocator A, !FrameAllocatorLaws A, !FrameInfo A}.
Abbreviation state := (paging_state A).
Implicit Types (s : state) (T : gmap Z (list Z)) (P : Z → option Z).

(** * The construction *)

Definition regs s : bool * bool * bool * bool * Z * Z * list tlb_event :=
  (g_paging_initialized s, g_nx_enabled s, g_paging_lock s, g_ipi_ready s, cr3 s, cr4 s, pg_tlb s).

(** The frames of the new tables: free at the start, and the only ones taken. *)
Definition tables_from s0 s (T : gmap Z (list Z)) : Prop :=
  (∀ p path, T !! p = Some path → frame_free (pg_frames s0) p) ∧
  ∀ p, frame_free (pg_frames s) p ↔ frame_free (pg_frames s0) p ∧ T !! p = None.

(** [u] bounds the frames taken, [I] is the information published so far. *)
Record building s0 (new : Z) (u : nat) P (I : paging_info_t) s : Prop := {
  bld_tables : ∃ T, space s new T ∧ tables_from s0 s T;
  bld_managed p : frame_managed (pg_frames s) p ↔ frame_managed (pg_frames s0) p;
  bld_foreign p i : p mod 4096 = 0 → 0 ≤ i < 512 → ¬ frame_free (pg_frames s0) p → entry s p i = entry s0 p i;
  bld_regs : regs s = regs s0;
  bld_info : counters s = I;
  bld_avail n : avail (n + u) (pg_frames s0) → avail n (pg_frames s);
  bld_frame n f : P n = Some f → frame_addr f;
  bld_walk v : canonical v → walk s 3 new v = (λ f, f + v mod 4096) <$> P (v / 4096)
}.

Lemma building_ext s0 new u u' P P' I s :
  (∀ n, P' n = P n) → (u ≤ u')%nat → building s0 new u P I s → building s0 new u' P' I s.
Proof.
  intros HP Hu [H1 H2 H3 H4 H5 H6 H7 H8]. split; try done.
  - intros n Hn. apply H6. eapply avail_mono; [|done]. lia.
  - intros n f. rewrite HP. apply H7.
  - intros v Hv. by rewrite HP, H8.
Qed.

Lemma building_oom s0 new u P I s k msg : building s0 new u P I s → oom k s msg → oom (u + k) s0 msg.
Proof.
  intros B [-> Hn]. split; [done|]. intros Ha. apply Hn, (bld_avail _ _ _ _ _ _ B). by rewrite Nat.add_comm.
Qed.

(** Publishing information. *)
Lemma building_info s0 new u P I s f :
  building s0 new u P I s → (∀ g i, f (with_tables g i) = with_tables g (f i)) →
  table_pages_allocated (f (g_paging_info s)) = table_pages_allocated (g_paging_info s) →
  building s0 new u P (f I) (set_info (f (g_paging_info s)) s).
Proof.
  intros [(T & [Ht Hc] & HT) H2 H3 H4 H5 H6 H7 H8] Hf Hn. split; try done.
  - exists T. split; [split|]; try done.
    apply (tree_agree s); try done. intros p path j Hp Hj. exact (tree_zero _ _ _ Ht p path j Hp Hj).
  - unfold counters. cbn [g_paging_info set_info]. by rewrite <- Hf, <- H5.
Qed.

(** The old tables translate as before. *)
Lemma building_old s0 new u P I s k p v :
  building s0 new u P I s → undisturbed (frame_free (pg_frames s0)) s0 k p → walk s k p v = walk s0 k p v.
Proof. intros B. apply undisturbed_walk. intros q i Hq Hi Hf. by apply (bld_foreign _ _ _ _ _ _ B). Qed.

(** A word written into a table on the way to [va]. *)
Lemma building_store s0 new u P P' I s T va k s1 T1 n c v :
  building s0 new u P I s → space s new T → tables_from s0 s T → grown va k s s1 new T T1 →
  (n ≤ 3)%nat → T1 !! c = Some (vpath n va) → has (ent s1 (3 - n) c va) PAGE_PRESENT = false → has v PAGE_PRESENT = true →
  tree (store (slot c (index (3 - n) va)) v s1) new T1 →
  (∀ m f, P' m = Some f → frame_addr f) →
  (∀ w, canonical w → walk (store (slot c (index (3 - n) va)) v s1) 3 new w = (λ f, f + w mod 4096) <$> P' (w / 4096)) →
  building s0 new (u + k) P' I (store (slot c (index (3 - n) va)) v s1).
Proof.
  intros [_ B2 B3 B4 B5 B6 B7 B8] [Ht Hcp] [HT1 HT2] G Hn Hc Habs Hv Ht' HP' Hw.
  assert (∀ p path, T1 !! p = Some path → frame_free (pg_frames s0) p) as Hfree.
  { intros p path Hp. destruct (grown_new _ _ _ _ _ _ _ G _ _ Hp) as [?|[Hf _]]; [by eapply HT1|]. by apply HT2 in Hf as [? _]. }
  split; try done.
  - exists T1. split; [split; [done|by eapply compact_store]|]. split; [done|]. intros p.
    change (pg_frames (store _ _ s1)) with (pg_frames s1). rewrite (grown_exact _ _ _ _ _ _ _ G), HT2. split; [tauto|].
    intros [Hf HpT]. split_and!; [done| |done]. eapply lookup_weaken_None; [done|apply G].
  - intros p. change (pg_frames (store _ _ s1)) with (pg_frames s1). by rewrite (grown_managed _ _ _ _ _ _ _ G).
  - intros p i Hp Hi Hf. rewrite entry_store by (eauto using tree_aligned, grown_tree, index_range).
    rewrite decide_False by (intros [-> _]; by apply Hf, (Hfree _ _ Hc)).
    rewrite (grown_foreign _ _ _ _ _ _ _ G); [by apply B3|done|done| |].
    + rewrite HT2. tauto.
    + destruct (T !! p) as [path|] eqn:E; [|done]. by destruct (Hf (HT1 _ _ E)).
  - destruct (grown_env _ _ _ _ _ _ _ G) as (E1 & E2 & E3 & E4 & E5 & E6 & E7 & _). rewrite <- B4. unfold regs. cbn. by rewrite E1, E2, E3, E4, E5, E6, E7.
  - destruct (grown_env _ _ _ _ _ _ _ G) as (_ & _ & _ & _ & _ & _ & _ & _ & E). rewrite <- B5. exact E.
  - intros m Hm. change (pg_frames (store _ _ s1)) with (pg_frames s1). apply (grown_avail _ _ _ _ _ _ _ G), B6.
    by rewrite <- Nat.add_assoc, (Nat.add_comm k).
Qed.

(** ** One page *)

Lemma build_4k s0 new u P I s va pa :
  building s0 new u P I s → canonical va → va mod 4096 = 0 → frame_addr pa → P (va / 4096) = None →
  run (oom (u + 3) s0) (map_page_4k new va pa kernel_flags) (λ _ s',
    building s0 new (u + 3) (over P (va / 4096) (va / 4096 + 1) (λ _, Some pa)) I s') s.
Proof.
  intros B Hva Ha Hpa HP. destruct (bld_tables _ _ _ _ _ _ B) as (T & Hs & HT). pose proof Hs as [Ht Hcp].
  assert (walk s 3 new va = None) as Hw by (by rewrite (bld_walk _ _ _ _ _ _ B va Hva), HP).
  assert (∀ j k s1 T1 msg, grown va j s s1 new T T1 → (j + k ≤ 3)%nat → oom k s1 msg → oom (u + 3) s0 msg) as Hoom.
  { intros j k s1 T1 msg G Hjk Hm. eapply oom_mono; [|eapply building_oom; [done|by eapply grown_oom]]. lia. }
  unfold map_page_4k. rewrite has_offset_lor, Ha. destruct Hpa as [Hpa4 Hpa52]. rewrite Hpa4. cbn [Z.eqb andb negb].
  rewrite pml4_index_eq, pdpt_index_eq, pd_index_eq, pt_index_eq. run_step.
  eapply run_weaken; [apply (get_or_create_spec s new T new va 2)| |].
  1,2,3: by (apply Ht || lia). { apply (tree_pml4 _ _ _ Ht), index_range. }
  { intros msg. apply (Hoom 0%nat 1%nat s T); [by apply grown_refl|lia]. }
  intros c1 s1 (T1 & G1 & Hc1 & N1 & _). run_step.
  assert (walk s1 3 new va = None) as Hw1 by (by rewrite (grown_walk _ _ _ _ _ _ _ G1)).
  pose proof (untranslated_not_huge s1 new T1 2 c1 va (grown_tree _ _ _ _ _ _ _ G1) ltac:(lia) Hc1 Hw1) as Hh1.
  eapply run_weaken; [apply (get_or_create_spec s1 new T1 c1 va 1)| |].
  1,2,3,4: by (apply G1 || lia || done). { intros msg. apply (Hoom 1%nat 1%nat s1 T1); [done|lia]. }
  intros c2 s2 (T2 & G2 & Hc2 & _). pose proof (grown_trans _ _ _ _ _ _ _ _ _ _ G1 G2) as G12. run_step. run_step.
  assert (walk s2 3 new va = None) as Hw2 by (by rewrite (grown_walk _ _ _ _ _ _ _ G2)).
  pose proof (untranslated_not_huge s2 new T2 1 c2 va (grown_tree _ _ _ _ _ _ _ G2) ltac:(lia) Hc2 Hw2) as Hh2.
  unfold ent in Hh2. rewrite Hh2, andb_false_r. run_step.
  eapply run_weaken; [apply (get_or_create_spec s2 new T2 c2 va 0)| |].
  1,2,3,4: by (apply G2 || lia || done). { intros msg. apply (Hoom 2%nat 1%nat s2 T2); [done|lia]. }
  intros c s3 (T3 & G3 & Hc & _). pose proof (grown_trans _ _ _ _ _ _ _ _ _ _ G12 G3) as G. run_step.
  pose proof (grown_tree _ _ _ _ _ _ _ G) as Ht3. change (Z.lor (Z.lor _ kernel_flags) _) with (word_4k pa).
  pose proof (word_4k_present pa) as Hv.
  assert (has (ent s3 0 c va) PAGE_PRESENT = false) as Habs.
  { rewrite <- (grown_walk _ _ _ _ _ _ _ G), (walk_reach _ _ _ 3 c va Ht3 (le_n 3) Hc) in Hw. cbn [walk Nat.sub] in Hw.
    by destruct (has (ent s3 0 c va) PAGE_PRESENT). }
  apply (building_store s0 new u P _ I s T va (1 + 1 + 1) s3 T3 3 c); try done.
  - eapply tree_leaf_store; [done..|apply vpath_length|apply index_range|congruence].
  - intros m f. unfold over. destruct (within _ _ _); [by intros [= <-]|apply B].
  - intros w Hwc. cbn [Nat.sub]. rewrite (walk_leaf_store s3 new T3) by (done || congruence). rewrite Hv, word_4k_leaf by done.
    unfold over. case_decide as Hd; rewrite vpage_canonical in Hd by done.
    + rewrite Hd, (proj2 (within_true _ _ _)) by lia. done.
    + rewrite (proj2 (within_false _ _ _)) by lia. rewrite (grown_walk _ _ _ _ _ _ _ G). by apply B.
Qed.

Lemma build_2m s0 new u P I s va pa :
  building s0 new u P I s → canonical va → va mod 2 ^ 21 = 0 → pa mod 2 ^ 21 = 0 → 0 ≤ pa < 2 ^ 52 →
  (∀ n, va / 4096 ≤ n < va / 4096 + 512 → P n = None) →
  run (oom (u + 2) s0) (map_page_2m new va pa kernel_flags) (λ _ s',
    building s0 new (u + 2) (over P (va / 4096) (va / 4096 + 512) (λ n, Some (pa + 4096 * (n - va / 4096)))) I s') s.
Proof.
  intros B Hva Ha Hpa Hp52 HP. destruct (bld_tables _ _ _ _ _ _ B) as (T & Hs & HT). pose proof Hs as [Ht Hcp].
  assert (∀ w, w / 2 ^ 21 = va / 2 ^ 21 → walk s 3 new w = None) as Hw.
  { intros w Hb. rewrite (bld_walk _ _ _ _ _ _ B w) by (by eapply canonical_block). rewrite HP; [done|]. by apply block_pages. }
  assert (∀ j k s1 T1 msg, grown va j s s1 new T T1 → (j + k ≤ 2)%nat → oom k s1 msg → oom (u + 2) s0 msg) as Hoom.
  { intros j k s1 T1 msg G Hjk Hm. eapply oom_mono; [|eapply building_oom; [done|by eapply grown_oom]]. lia. }
  unfold map_page_2m. rewrite has_offset_2m by done. rewrite pml4_index_eq, pdpt_index_eq, pd_index_eq. run_step.
  eapply run_weaken; [apply (get_or_create_spec s new T new va 2)| |].
  1,2,3: by (apply Ht || lia). { apply (tree_pml4 _ _ _ Ht), index_range. }
  { intros msg. apply (Hoom 0%nat 1%nat s T); [by apply grown_refl|lia]. }
  intros c1 s1 (T1 & G1 & Hc1 & N1 & _). run_step.
  assert (walk s1 3 new va = None) as Hw1 by (rewrite (grown_walk _ _ _ _ _ _ _ G1); by apply Hw).
  pose proof (untranslated_not_huge s1 new T1 2 c1 va (grown_tree _ _ _ _ _ _ _ G1) ltac:(lia) Hc1 Hw1) as Hh1.
  eapply run_weaken; [apply (get_or_create_spec s1 new T1 c1 va 1)| |].
  1,2,3,4: by (apply G1 || lia || done). { intros msg. apply (Hoom 1%nat 1%nat s1 T1); [done|lia]. }
  intros c s2 (T2 & G2 & Hc & N2 & _). pose proof (grown_trans _ _ _ _ _ _ _ _ _ _ G1 G2) as G. run_step.
  pose proof (grown_tree _ _ _ _ _ _ _ G) as Ht2. change (Z.lor (Z.lor (Z.lor _ kernel_flags) _) _) with (word_2m pa).
  destruct (word_2m_bits pa) as [Hv Hps].
  assert (has (ent s2 1 c va) PAGE_PRESENT = false) as Habs.
  { eapply block_absent; [done| |done|done|by intros w Hb; rewrite (grown_walk _ _ _ _ _ _ _ G); apply Hw].
    intros pt Hpt. assert (∀ p n, T2 !! p = Some (vpath n va) ∨ T1 !! p = Some (vpath n va) → p = pt → n = 3%nat) as Hlen.
    { intros p n Hp ->.
      assert (T2 !! pt = Some (vpath n va)) as Hn by (destruct Hp; [done|by eapply lookup_weaken; [|apply G2]]).
      rewrite Hpt in Hn. apply (inj Some), (f_equal length) in Hn. by rewrite !vpath_length in Hn. }
    destruct (N2 _ _ Hpt) as [Hpt1| ->]; [|by specialize (Hlen c 2%nat (or_introl Hc) eq_refl)].
    destruct (N1 _ _ Hpt1) as [Hpt0| ->]; [|by specialize (Hlen c1 1%nat (or_intror Hc1) eq_refl)].
    destruct (Hcp _ _ Hpt0) as (i & Hi & He); [cbn [vpath]; by destruct (vpath 2 va)|]. exists i. split; [done|].
    by eapply (grown_word _ _ _ _ _ _ _ G). }
  apply (building_store s0 new u P _ I s T va (1 + 1) s2 T2 2 c); try done; [lia| | |].
  - eapply tree_huge_store; try done; apply vpath_length || apply index_range.
  - intros m f. unfold over. destruct (within _ _ _) eqn:E; [|apply B]. intros [= <-]. apply within_true in E. split; dlia.
  - intros w Hwc. cbn [Nat.sub]. rewrite (walk_huge_store s2 new T2) by done. rewrite word_2m_leaf by done.
    unfold over. case_decide as Hd; rewrite block_pages in Hd by done.
    + rewrite (proj2 (within_true _ _ _)) by done. cbn. f_equal. dlia.
    + rewrite (proj2 (within_false _ _ _)) by done. rewrite (grown_walk _ _ _ _ _ _ _ G). by apply B.
Qed.

(** ** The kernel image *)

Section WithLayout.
Context (lay : kernel_layout).

(** What the old tables say of a page. *)
Definition old_page s0 (old n : Z) : option Z := walk s0 3 (Z.land old ENTRY_ADDR_MASK_4K) (4096 * n).

Definition kernel_ok : Prop :=
  kernel_virtual_start lay mod 4096 = 0 ∧ 2 ^ 64 - 2 ^ 47 ≤ kernel_virtual_start lay ∧
  kernel_virtual_start lay < kernel_virtual_end lay ≤ 2 ^ 64 - 2 ^ 30.

Definition kernel_first : Z := kernel_virtual_start lay / 4096.
Definition kernel_pages : Z := (kernel_virtual_end lay - kernel_virtual_start lay + 4095) / 4096.

Definition kernel_map s0 (old : Z) : Z → option Z :=
  over (λ _, None) kernel_first (kernel_first + kernel_pages) (old_page s0 old).

Lemma old_page_frame s0 old n f : old_page s0 old n = Some f → frame_addr f.
Proof.
  intros H. destruct (walk_range _ 3 _ _ _ (le_n 3) H) as [Hr Hm]. split; [|done]. rewrite Hm, Z.mul_comm. by apply Z.mod_mul.
Qed.

(** The translation the loops read. *)
Lemma building_translate s0 new u P I s old n :
  building s0 new u P I s → undisturbed (frame_free (pg_frames s0)) s0 3 (Z.land old ENTRY_ADDR_MASK_4K) →
  translate s old (4096 * n) = old_page s0 old n.
Proof. intros B Hu. rewrite translate_walk. by apply (building_old s0 new u P I). Qed.

Lemma align_down_frame f : frame_addr f → align_down f PAGE_SIZE_4K = f.
Proof.
  intros [Ha Hr]. change PAGE_SIZE_4K with (2 ^ 12). rewrite align_down_pow2 by (unfold in_width; lia).
  change (2 ^ 12) with 4096. lia.
Qed.

Definition old_missing s0 (old a b : Z) (name msg : string) : Prop :=
  msg = name ∧ ∃ n, a ≤ n < b ∧ old_page s0 old n = None.

Lemma build_kernel s0 new u I s old :
  kernel_ok → building s0 new u (λ _, None) I s → undisturbed (frame_free (pg_frames s0)) s0 3 (Z.land old ENTRY_ADDR_MASK_4K) →
  run (λ msg, oom (u + 3 * Z.to_nat kernel_pages) s0 msg ∨
              old_missing s0 old kernel_first (kernel_first + kernel_pages) PANIC_OLD_KERNEL msg)
    (map_kernel_range_from_old_cr3 lay new old)
    (λ n s', n = kernel_pages ∧ building s0 new (u + 3 * Z.to_nat kernel_pages) (kernel_map s0 old) I s') s.
Proof.
  intros (K1 & K2 & K3) B Hu. unfold map_kernel_range_from_old_cr3.
  destruct (Z.leb_spec (kernel_virtual_end lay) (kernel_virtual_start lay)); [lia|]. cbv zeta.
  assert (align_up (kernel_virtual_end lay - kernel_virtual_start lay) PAGE_SIZE_4K / PAGE_SIZE_4K = kernel_pages) as ->.
  { change PAGE_SIZE_4K with (2 ^ 12). rewrite align_up_exact by lia. change (2 ^ 12) with 4096. unfold kernel_pages.
    rewrite Z.div_mul by lia. f_equal. lia. }
  assert (0 ≤ kernel_pages ∧ kernel_virtual_start lay + 4096 * kernel_pages < kernel_virtual_end lay + 4096) as [Hn Hend] by (unfold kernel_pages; dlia).
  assert (kernel_virtual_start lay = 4096 * kernel_first) as Hks by (unfold kernel_first; dlia).
  run_step. eapply (run_for_loop _ _ _ _ _ (λ j s, building s0 new (u + 3 * j)
    (over (λ _, None) kernel_first (kernel_first + Z.of_nat j) (old_page s0 old)) I s)).
  - eapply building_ext; [| |exact B]; [|lia]. intros n. change (Z.of_nat 0) with 0. rewrite Z.add_0_r. apply over_nil.
  - intros j s1 Hj B1. set (n := kernel_first + Z.of_nat j).
    replace (u64 (kernel_virtual_start lay + u64 ((0 + Z.of_nat j * 1) * PAGE_SIZE_4K))) with (4096 * n).
    2: { unfold PAGE_SIZE_4K. rewrite !wrap_small; unfold n, in_width; [lia|lia|]. rewrite wrap_small; unfold in_width; lia. }
    run_step. run_step. rewrite (building_translate s0 new _ _ I s1) by done.
    destruct (old_page s0 old n) as [f|] eqn:Ef.
    2: { apply run_panic. right. split; [done|]. exists n. split; [unfold n; lia|done]. }
    pose proof (old_page_frame _ _ _ _ Ef) as Hf. rewrite align_down_frame by done. run_step.
    assert (4096 * n / 4096 = n) as Hdiv by (rewrite Z.mul_comm; by apply Z.div_mul).
    eapply run_weaken; [apply (build_4k s0 new _ _ I s1 (4096 * n) f B1)| |].
    + right. unfold n. lia.
    + rewrite Z.mul_comm. by apply Z.mod_mul.
    + done.
    + rewrite Hdiv. unfold over. rewrite (proj2 (within_false _ _ _)); [done|]. unfold n. lia.
    + intros msg Hm. left. eapply oom_mono; [|exact Hm]. lia.
    + intros [] s2 B2. run_step. rewrite Hdiv in B2. eapply building_ext; [| |exact B2]; [|lia]. intros m.
      replace (kernel_first + Z.of_nat (S j)) with (n + 1) by (unfold n; lia). symmetry. apply over_over; [unfold n; lia|lia|].
      intros k Hk. by replace k with n by lia.
  - intros s1 B1. run_step. split; [done|]. rewrite Z2Nat.id in B1 by lia. exact B1.
Qed.

(** ** The direct map *)

Definition hhdm_ok (span : Z) : Prop :=
  g_hhdm_offset lay mod 4096 = 0 ∧ span mod 4096 = 0 ∧ 0 ≤ span < 2 ^ 52 ∧
  2 ^ 64 - 2 ^ 47 ≤ g_hhdm_offset lay ∧ g_hhdm_offset lay + span < 2 ^ 64.

Definition hhdm_page (n : Z) : option Z := Some (4096 * n - g_hhdm_offset lay).
Definition hhdm_first : Z := g_hhdm_offset lay / 4096.

(** The part of the span that 2 MiB pages cover. *)
Definition hhdm_large (span : Z) : Z := if g_hhdm_offset lay mod 2 ^ 21 =? 0 then span / 2 ^ 21 else 0.
Definition hhdm_small (span : Z) : Z := span / 4096 - 512 * hhdm_large span.

Definition hhdm_counts (span : Z) : paging_info_t → paging_info_t :=
  with_hhdm (λ _, hhdm_large span) (λ _, hhdm_small span).

(** The two loops, [j] rounds done. *)
Lemma build_large s0 new u P I s span (K : nat) :
  hhdm_ok span → 2 ^ 21 * Z.of_nat K ≤ span → (K = 0%nat ∨ g_hhdm_offset lay mod 2 ^ 21 = 0) →
  mapped_hhdm_2m_pages I = 0 → building s0 new u P I s →
  (∀ n, hhdm_first ≤ n < hhdm_first + span / 4096 → P n = None) →
  run (oom (u + 2 * K) s0)
    (for_loop K 0 PAGE_SIZE_2M (λ phys,
      let virt := u64 (g_hhdm_offset lay + phys) in
      if virt <? g_hhdm_offset lay then panic "Paging init failed: HHDM virtual overflow"
      else
        map_page_2m new virt phys kernel_flags;;
        modify (λ s, set_info (with_hhdm (λ n, u64 (n + 1)) id (g_paging_info s)) s);;
        ret (@None unit)))
    (λ _ s', building s0 new (u + 2 * K) (over P hhdm_first (hhdm_first + 512 * Z.of_nat K) hhdm_page)
               (with_hhdm (λ _, Z.of_nat K) id I) s') s.
Proof.
  intros (H1 & H2 & H3 & H4 & H5) HK Hal HI B HP.
  assert (g_hhdm_offset lay = 4096 * hhdm_first) as Hh by (unfold hhdm_first; dlia).
  apply (run_for_loop _ _ _ _ _ (λ j s, building s0 new (u + 2 * j)
    (over P hhdm_first (hhdm_first + 512 * Z.of_nat j) hhdm_page) (with_hhdm (λ _, Z.of_nat j) id I) s)); [| |done].
  - destruct I as [? ? ? ? i5 ? ? ?]. cbn in HI. subst i5. eapply building_ext; [| |exact B]; [|lia]. intros n. change (512 * Z.of_nat 0) with 0. rewrite Z.add_0_r. apply over_nil.
  - intros j s1 Hj B1. destruct Hal as [->|Hal]; [lia|]. set (phys := 0 + Z.of_nat j * PAGE_SIZE_2M).
    assert (phys = 2 ^ 21 * Z.of_nat j) as Hph by (unfold phys, PAGE_SIZE_2M; lia). clearbody phys. cbv beta zeta.
    rewrite wrap_small by (unfold in_width; lia). destruct (Z.ltb_spec (g_hhdm_offset lay + phys) (g_hhdm_offset lay)); [lia|].
    assert ((g_hhdm_offset lay + phys) / 4096 = hhdm_first + 512 * Z.of_nat j) as Hdiv by dlia.
    run_step. eapply run_weaken; [apply (build_2m s0 new _ _ _ s1 (g_hhdm_offset lay + phys) phys B1)| |].
    + right. lia.
    + dlia.
    + dlia.
    + lia.
    + intros n. rewrite Hdiv. intros Hn. unfold over. rewrite (proj2 (within_false _ _ _)) by lia. apply HP. dlia.
    + intros msg. apply oom_mono. lia.
    + intros [] s2 B2. rewrite Hdiv in B2. run_step. run_step. run_step.
      apply (building_info _ _ _ _ _ _ (with_hhdm (λ n, u64 (n + 1)) id)) in B2; [|done..].
      replace (with_hhdm (λ n, u64 (n + 1)) id (with_hhdm (λ _, Z.of_nat j) id I)) with (with_hhdm (λ _, Z.of_nat (S j)) id I) in B2.
      2: { unfold with_hhdm. cbn. by rewrite wrap_small by (unfold in_width; lia); f_equal; lia. }
      eapply building_ext; [| |exact B2]; [|lia]. intros n. symmetry.
      replace (hhdm_first + 512 * Z.of_nat (S j)) with (hhdm_first + 512 * Z.of_nat j + 512) by lia.
      apply over_over; [lia|lia|]. intros m Hm. unfold hhdm_page. f_equal. lia.
Qed.

Lemma build_small s0 new u P I s span first (K : nat) :
  hhdm_ok span → first mod 4096 = 0 → 0 ≤ first → first + 4096 * Z.of_nat K ≤ span →
  mapped_hhdm_4k_pages I = 0 → building s0 new u P I s →
  (∀ n, hhdm_first + first / 4096 ≤ n < hhdm_first + span / 4096 → P n = None) →
  run (oom (u + 3 * K) s0)
    (for_loop K first PAGE_SIZE_4K (λ phys,
      let virt := u64 (g_hhdm_offset lay + phys) in
      if virt <? g_hhdm_offset lay then panic "Paging init failed: HHDM virtual overflow"
      else
        map_page_4k new virt phys kernel_flags;;
        modify (λ s, set_info (with_hhdm id (λ n, u64 (n + 1)) (g_paging_info s)) s);;
        ret (@None unit)))
    (λ _ s', building s0 new (u + 3 * K)
               (over P (hhdm_first + first / 4096) (hhdm_first + first / 4096 + Z.of_nat K) hhdm_page)
               (with_hhdm id (λ _, Z.of_nat K) I) s') s.
Proof.
  intros (H1 & H2 & H3 & H4 & H5) Hf4 Hf0 HK HI B HP.
  assert (g_hhdm_offset lay = 4096 * hhdm_first) as Hh by (unfold hhdm_first; dlia).
  set (fp := first / 4096) in *. assert (first = 4096 * fp) as Hfp by (unfold fp; dlia). clearbody fp.
  apply (run_for_loop _ _ _ _ _ (λ j s, building s0 new (u + 3 * j)
    (over P (hhdm_first + fp) (hhdm_first + fp + Z.of_nat j) hhdm_page) (with_hhdm id (λ _, Z.of_nat j) I) s)); [| |done].
  - destruct I as [? ? ? ? ? i6 ? ?]. cbn in HI. subst i6. eapply building_ext; [| |exact B]; [|lia]. intros n. change (Z.of_nat 0) with 0. rewrite Z.add_0_r. apply over_nil.
  - intros j s1 Hj B1. set (phys := first + Z.of_nat j * PAGE_SIZE_4K).
    assert (phys = 4096 * (fp + Z.of_nat j)) as Hph by (unfold phys, PAGE_SIZE_4K; lia). clearbody phys. cbv beta zeta.
    rewrite wrap_small by (unfold in_width; lia). destruct (Z.ltb_spec (g_hhdm_offset lay + phys) (g_hhdm_offset lay)); [lia|].
    assert ((g_hhdm_offset lay + phys) / 4096 = hhdm_first + fp + Z.of_nat j) as Hdiv by dlia.
    run_step. eapply run_weaken; [apply (build_4k s0 new _ _ _ s1 (g_hhdm_offset lay + phys) phys B1)| |].
    + right. lia.
    + dlia.
    + split; [dlia|lia].
    + rewrite Hdiv. unfold over. rewrite (proj2 (within_false _ _ _)) by lia. apply HP. dlia.
    + intros msg. apply oom_mono. lia.
    + intros [] s2 B2. rewrite Hdiv in B2. run_step. run_step. run_step.
      apply (building_info _ _ _ _ _ _ (with_hhdm id (λ n, u64 (n + 1)))) in B2; [|done..].
      replace (with_hhdm id (λ n, u64 (n + 1)) (with_hhdm id (λ _, Z.of_nat j) I)) with (with_hhdm id (λ _, Z.of_nat (S j)) I) in B2.
      2: { unfold with_hhdm. cbn. by rewrite wrap_small by (unfold in_width; lia); f_equal; lia. }
      eapply building_ext; [| |exact B2]; [|lia]. intros n. symmetry.
      replace (hhdm_first + fp + Z.of_nat (S j)) with (hhdm_first + fp + Z.of_nat j + 1) by lia.
      apply over_over; [lia|lia|]. intros m Hm. unfold hhdm_page. f_equal. lia.
Qed.

Lemma build_hhdm s0 new u P I s span :
  hhdm_ok span → mapped_hhdm_2m_pages I = 0 → mapped_hhdm_4k_pages I = 0 → building s0 new u P I s →
  (∀ n, hhdm_first ≤ n < hhdm_first + span / 4096 → P n = None) →
  run (oom (u + 3 * Z.to_nat (span / 4096)) s0) (map_hhdm_range lay new span) (λ _ s',
    building s0 new (u + 3 * Z.to_nat (span / 4096)) (over P hhdm_first (hhdm_first + span / 4096) hhdm_page) (hhdm_counts span I) s') s.
Proof.
  intros Hok HI1 HI2 B HP. pose proof Hok as (H1 & H2 & H3 & H4 & H5). unfold map_hhdm_range. cbv zeta.
  set (limit := if _ =? 0 then _ else 0).
  assert (limit = 2 ^ 21 * hhdm_large span) as Hlim.
  { unfold limit, hhdm_large. change (PAGE_SIZE_2M - 1) with (2 ^ 21 - 1). rewrite land_ones_mod by lia.
    destruct (g_hhdm_offset lay mod 2 ^ 21 =? 0); [|by rewrite Z.mul_0_r]. change PAGE_SIZE_2M with (2 ^ 21). rewrite align_down_exact by (unfold in_width; lia). lia. }
  assert (0 ≤ hhdm_large span ∧ 2 ^ 21 * hhdm_large span ≤ span) as [HL0 HL1].
  { unfold hhdm_large. destruct (g_hhdm_offset lay mod 2 ^ 21 =? 0); [|lia]. clear -H3. dlia. }
  assert (hhdm_large span = 0 ∨ g_hhdm_offset lay mod 2 ^ 21 = 0) as Hal.
  { unfold hhdm_large. destruct (Z.eqb_spec (g_hhdm_offset lay mod 2 ^ 21) 0); auto. }
  rewrite Hlim. clearbody limit. unfold hhdm_counts, hhdm_small. set (L := hhdm_large span) in *. clearbody L. clear limit Hlim.
  assert (0 ≤ span / 4096 - 512 * L) as HS by dlia.
  replace (Z.to_nat (2 ^ 21 * L / PAGE_SIZE_2M)) with (Z.to_nat L) by (f_equal; unfold PAGE_SIZE_2M; dlia).
  replace (Z.to_nat ((span - 2 ^ 21 * L + (PAGE_SIZE_4K - 1)) / PAGE_SIZE_4K)) with (Z.to_nat (span / 4096 - 512 * L))
    by (f_equal; unfold PAGE_SIZE_4K; dlia).
  run_step. eapply run_weaken; [apply (build_large s0 new u P I s span (Z.to_nat L)); try done|intros msg; apply oom_mono; lia|].
  { lia. } { destruct Hal as [->|?]; [by left|by right]. }
  intros ? s1 B1. run_step.
  cbv beta in B1. eapply run_weaken; [eapply (build_small s0 new _ _ _ s1 span (2 ^ 21 * L) (Z.to_nat (span / 4096 - 512 * L)) Hok); [| | | |exact B1|]| |].
  1,2,3: dlia. { done. }
  - intros n Hn. unfold over. rewrite (proj2 (within_false _ _ _)) by dlia. apply HP. dlia.
  - intros msg. apply oom_mono. lia.
  - intros ? s2 B2. run_step. rewrite !Z2Nat.id in B2 by lia. replace (2 ^ 21 * L / 4096) with (512 * L) in B2 by dlia.
    eapply building_ext; [| |exact B2]; [|lia]. intros n. symmetry.
    replace (hhdm_first + span / 4096) with (hhdm_first + 512 * L + (span / 4096 - 512 * L)) by lia. by apply over_over; [lia|lia|].
Qed.

(** ** Ranges copied from the old tables *)

Definition range_panic s0 (old : Z) P (a b : Z) (msg : string) : Prop :=
  old_missing s0 old a b PANIC_OLD_RANGE msg ∨
  msg = PANIC_REMAP ∧ ∃ n f g, a ≤ n < b ∧ P n = Some f ∧ old_page s0 old n = Some g ∧ f ≠ g.

Lemma building_root s0 new u P I s : building s0 new u P I s → Z.land new ENTRY_ADDR_MASK_4K = new.
Proof.
  intros B. destruct (bld_tables _ _ _ _ _ _ B) as (T & [Ht _] & _). apply mask4k_frame. eapply tree_frame_addr; [done|apply Ht].
Qed.

Lemma build_pages n s0 new u P I s old a m :
  building s0 new u P I s → undisturbed (frame_free (pg_frames s0)) s0 3 (Z.land old ENTRY_ADDR_MASK_4K) →
  (∀ k, a ≤ k < a + Z.of_nat n → canonical (4096 * k)) →
  run (λ msg, oom (u + 3 * n) s0 msg ∨ range_panic s0 old P a (a + Z.of_nat n) msg) (map_range_pages n new old (4096 * a) m)
    (λ _ s', building s0 new (u + 3 * n) (fill P a (a + Z.of_nat n) (old_page s0 old)) I s') s.
Proof.
  revert u P s a m. induction n as [|n IH]; intros u P s a m B Hu Hc; cbn [map_range_pages].
  { run_step. eapply building_ext; [| |exact B]; [|lia]. intros k. unfold fill. change (Z.of_nat 0) with 0.
    rewrite Z.add_0_r, within_empty. by destruct (P k). }
  assert (4096 * a / 4096 = a) as Hdiv by (rewrite Z.mul_comm; by apply Z.div_mul).
  assert ((4096 * a) mod 4096 = 0) as Hmod by (rewrite Z.mul_comm; by apply Z.mod_mul).
  run_step. run_step. rewrite (building_translate s0 new u P I s) by done.
  destruct (old_page s0 old a) as [g|] eqn:Eg.
  2: { apply run_panic. right. left. split; [done|]. exists a. split; [lia|done]. }
  pose proof (old_page_frame _ _ _ _ Eg) as Hg. rewrite align_down_frame by done. run_step. unfold ensure_page_mapping. run_step. run_step.
  rewrite translate_walk, (building_root s0 new u P I s B), (bld_walk _ _ _ _ _ _ B) by (apply Hc; lia). rewrite Hdiv, Hmod.
  assert (∀ P' u' s1 m', building s0 new u' P' I s1 → (u' ≤ u + 3)%nat →
    (∀ k, P' k = match P k with Some x => Some x | None => if k =? a then old_page s0 old a else None end) →
    run (λ msg, oom (u + 3 * S n) s0 msg ∨ range_panic s0 old P a (a + Z.of_nat (S n)) msg) (map_range_pages n new old (4096 * a + PAGE_SIZE_4K) m')
      (λ _ s', building s0 new (u + 3 * S n) (fill P a (a + Z.of_nat (S n)) (old_page s0 old)) I s') s1) as Hrest.
  { intros P' u' s1 m' B1 Hu' HP'. replace (4096 * a + PAGE_SIZE_4K) with (4096 * (a + 1)) by (unfold PAGE_SIZE_4K; lia).
    eapply run_weaken; [apply (IH u' P' s1 (a + 1) m' B1 Hu); intros k Hk; apply Hc; lia| |].
    - intros msg [Hm|[[-> (k & Hk & Hn)]|[-> (k & f & g' & Hk & Hf & Hgk & Hne)]]].
      + left. eapply oom_mono; [|exact Hm]. lia.
      + right. left. split; [done|]. exists k. split; [lia|done].
      + right. right. split; [done|]. exists k, f, g'. rewrite HP' in Hf. destruct (P k); [|by rewrite (proj2 (Z.eqb_neq k a)) in Hf by lia].
        split; [lia|done].
    - intros ? s2 B2. eapply building_ext; [| |exact B2]; [|lia]. intros k.
      replace (a + Z.of_nat (S n)) with (a + 1 + Z.of_nat n) by lia. symmetry. apply fill_cons; [lia|done]. }
  destruct (P a) as [f|] eqn:Ef; cbn [fmap option_fmap option_map].
  - pose proof (bld_frame _ _ _ _ _ _ B _ _ Ef) as Hf. rewrite Z.add_0_r, !align_down_frame by done.
    destruct (Z.eqb_spec f g) as [->|Hne]; cbn [negb].
    + run_step. apply (Hrest P u); [done|lia|]. intros k. destruct (P k) eqn:Ek; [done|]. destruct (Z.eqb_spec k a); [congruence|done].
    + apply run_panic. right. right. split; [done|]. exists a, f, g. split; [lia|done].
  - run_step. eapply run_weaken; [apply (build_4k s0 new u P I s (4096 * a) g B)| |]; try done.
    + apply Hc. lia.
    + by rewrite Hdiv.
    + intros msg Hm. left. eapply oom_mono; [|exact Hm]. lia.
    + intros [] s1 B1. rewrite Hdiv in B1. run_step. eapply Hrest; [exact B1|lia|]. intros k. rewrite Eg. unfold over.
      destruct (Z.eqb_spec k a) as [->|Hk]; [rewrite Ef; by rewrite (proj2 (within_true _ _ _)) by lia|].
      rewrite (proj2 (within_false _ _ _)) by lia. by destruct (P k).
Qed.

(** A range of addresses, as its first page and the page after its last. *)
Definition window_ok (w : Z * Z) : Prop :=
  0 ≤ w.1 ≤ w.2 ∧ w.2 ≤ 2 ^ 64 - 4096 ∧ (w.2 ≤ 2 ^ 47 ∨ 2 ^ 64 - 2 ^ 47 ≤ w.1).
Definition first_page (w : Z * Z) : Z := w.1 / 4096.
Definition end_page (w : Z * Z) : Z := (w.2 + 4095) / 4096.
Definition window_pages (w : Z * Z) : nat := Z.to_nat (end_page w - first_page w).

(** Information that only the count of copied pages changed. *)
Definition but_passthrough (I I' : paging_info_t) : Prop :=
  set_info_fields id id (λ _, 0) id id I' = set_info_fields id id (λ _, 0) id id I.

Lemma build_passthrough s0 new u P I s old w :
  building s0 new u P I s → undisturbed (frame_free (pg_frames s0)) s0 3 (Z.land old ENTRY_ADDR_MASK_4K) → window_ok w →
  run (λ msg, oom (u + 3 * window_pages w) s0 msg ∨ range_panic s0 old P (first_page w) (end_page w) msg) (passthrough new old w.1 w.2)
    (λ _ s', ∃ I', but_passthrough I I' ∧
      building s0 new (u + 3 * window_pages w) (fill P (first_page w) (end_page w) (old_page s0 old)) I' s') s.
Proof.
  intros B Hu (W1 & W2 & W3). unfold passthrough, map_range_from_old_cr3. cbv zeta.
  assert (0 ≤ end_page w - first_page w) as Hn by (unfold first_page, end_page; dlia).
  assert (align_down w.1 PAGE_SIZE_4K = 4096 * first_page w) as ->.
  { change PAGE_SIZE_4K with (2 ^ 12). rewrite align_down_exact by (unfold in_width; lia). change (2 ^ 12) with 4096. unfold first_page. lia. }
  assert (align_up w.2 PAGE_SIZE_4K = 4096 * end_page w) as ->.
  { change PAGE_SIZE_4K with (2 ^ 12). rewrite align_up_exact by lia. change (2 ^ 12) with 4096. unfold end_page. rewrite Z.mul_comm. do 2 f_equal. lia. }
  replace (Z.to_nat ((4096 * end_page w - 4096 * first_page w) / PAGE_SIZE_4K)) with (window_pages w)
    by (unfold window_pages, PAGE_SIZE_4K; f_equal; dlia).
  run_step. eapply run_weaken; [apply (build_pages (window_pages w) s0 new u P I s old (first_page w) 0 B Hu)| |].
  - unfold window_pages. rewrite Z2Nat.id by lia. intros k Hk. unfold canonical. unfold first_page, end_page in *. dlia.
  - intros msg. unfold window_pages. rewrite Z2Nat.id by lia. by replace (first_page w + (end_page w - first_page w)) with (end_page w) by lia.
  - intros r s1 B1. run_step. exists (set_info_fields id id (λ m, u64 (m + r)) id id I). split; [done|].
    apply (building_info _ _ _ _ _ _ (set_info_fields id id (λ m, u64 (m + r)) id id)) in B1; [|done..].
    unfold window_pages in B1 at 2. rewrite Z2Nat.id in B1 by lia.
    by replace (first_page w + (end_page w - first_page w)) with (end_page w) in B1 by lia.
Qed.

Definition shown (fb : BootFramebuffer) : bool :=
  negb (address fb =? 0) && negb (pitch fb =? 0) && negb (height fb =? 0).
Definition fb_window (fb : BootFramebuffer) : Z * Z :=
  if shown fb then (address fb, address fb + pitch fb * height fb) else (0, 0).
Definition fb_ok (fb : BootFramebuffer) : Prop := 0 ≤ pitch fb ∧ 0 ≤ height fb ∧ window_ok (fb_window fb).

Lemma build_framebuffer s0 new u P I s old fb :
  building s0 new u P I s → undisturbed (frame_free (pg_frames s0)) s0 3 (Z.land old ENTRY_ADDR_MASK_4K) → fb_ok fb →
  let w := fb_window fb in
  run (λ msg, oom (u + 3 * window_pages w) s0 msg ∨ range_panic s0 old P (first_page w) (end_page w) msg) (map_framebuffer fb new old)
    (λ _ s', ∃ I', but_passthrough I I' ∧
      building s0 new (u + 3 * window_pages w) (fill P (first_page w) (end_page w) (old_page s0 old)) I' s') s.
Proof.
  intros B Hu (F1 & F2 & Hw). pose proof (build_passthrough s0 new u P I s old (fb_window fb) B Hu Hw) as Hp. revert Hp Hw. cbv zeta.
  unfold map_framebuffer, fb_window. fold (shown fb). destruct (shown fb) eqn:Es; intros Hp Hw.
  - destruct Hw as (W1 & W2 & W3). cbn [fst snd] in *.
    assert (0 < height fb) as Hh.
    { unfold shown in Es. apply andb_true_iff in Es as [_ Es]. destruct (Z.eqb_spec (height fb) 0); [done|lia]. }
    assert ((pitch fb >? UINT64_MAX / height fb) = false) as ->.
    { rewrite Z.gtb_ltb. apply Z.ltb_ge, Z.div_le_lower_bound; [done|]. unfold UINT64_MAX. lia. }
    rewrite (wrap_small 64 (pitch fb * height fb)) by (unfold in_width; nia).
    rewrite (wrap_small 64 (address fb + pitch fb * height fb)) by (unfold in_width; nia).
    destruct (Z.ltb_spec (address fb + pitch fb * height fb) (address fb)); [nia|]. exact Hp.
  - run_step. exists I. split; [done|]. change (window_pages (0, 0)) with 0%nat. change (first_page (0, 0)) with 0. change (end_page (0, 0)) with 0.
    eapply building_ext; [| |exact B]; [|lia]. intros n. unfold fill. rewrite within_empty. by destruct (P n).
Qed.
End WithLayout.
End Spec.
