(* ===== verification/PagingInitProps.v ===== *)
(** The theorem about [paging_init]: reclaiming the boot loader's memory, and the
    composition of the mappers of PagingInitSpec.v. *)

From S2P Require Import Prelude Frames Boot Paging PageTree PagingSpec PagingInit PagingMapper PageHuge PagingInitSpec.

Section Props.
Context {A : Type} `{!FrameAllocator A, !FrameAllocatorLaws A, !FrameInfo A}.
Abbreviation state := (paging_state A).
Implicit Types (s : state) (T : gmap Z (list Z)).

(** * Reclaiming *)

(** [p] is a whole page of a region the boot loader no longer needs. *)
Definition reclaimable (es : list MemoryMapEntry) (p : Z) : Prop :=
  ∃ e, e ∈ es ∧ type e = MEMMAP_BOOTLOADER_RECLAIMABLE ∧ p mod 4096 = 0 ∧ base e ≤ p ∧ p + 4096 ≤ entry_end e.

Definition reclaimed (es : list MemoryMapEntry) (skip : Z * Z) (p : Z) : Prop :=
  reclaimable es p ∧ ¬ (skip.1 ≤ p < skip.2).

(** Frames given back, nothing else changed. *)
Definition gave_back (R : Z → Prop) s s' : Prop :=
  ∃ a, s' = set_frames a s ∧ frames_inv a ∧ (∀ q, frame_managed a q ↔ frame_managed (pg_frames s) q) ∧
    ∀ q, frame_free a q ↔ frame_free (pg_frames s) q ∨ R q.

Lemma gave_back_none (R : Z → Prop) s : frames_inv (pg_frames s) → (∀ q, ¬ R q) → gave_back R s s.
Proof. intros HF HR. exists (pg_frames s). split; [by destruct s|]. split_and!; [done|done|]. intros q. specialize (HR q). tauto. Qed.

Lemma gave_back_trans (R1 R2 R : Z → Prop) s1 s2 s3 :
  gave_back R1 s1 s2 → gave_back R2 s2 s3 → (∀ q, R q ↔ R1 q ∨ R2 q) → gave_back R s1 s3.
Proof.
  intros (a1 & -> & HF1 & HM1 & H1) (a2 & -> & HF2 & HM2 & H2) HR. exists a2. split_and!; [done|done| |].
  - intros q. rewrite HM2. apply HM1.
  - intros q. rewrite H2, HR. cbn. rewrite H1. tauto.
Qed.

Lemma gave_back_inv R s s' : gave_back R s s' → frames_inv (pg_frames s').
Proof. by intros (a & -> & HF & _). Qed.

Lemma reclaim_pages_spec n phys skip r s :
  frames_inv (pg_frames s) → phys mod 4096 = 0 →
  (∀ q, q mod 4096 = 0 → phys ≤ q < phys + 4096 * Z.of_nat n → frame_managed (pg_frames s) q) →
  wp (reclaim_pages n phys skip.1 skip.2 r) (λ _ s',
    gave_back (λ q, q mod 4096 = 0 ∧ phys ≤ q < phys + 4096 * Z.of_nat n ∧ ¬ (skip.1 ≤ q < skip.2)) s s') s.
Proof.
  revert phys r s. induction n as [|n IH]; intros phys r s HF Hp HM; cbn [reclaim_pages].
  { run_step. apply gave_back_none; [done|]. lia. }
  assert ((phys + PAGE_SIZE_4K) mod 4096 = 0) as Hp' by (unfold PAGE_SIZE_4K; dlia).
  assert (∀ q, q mod 4096 = 0 → phys ≤ q < phys + 4096 → q = phys) as Honly by (intros; dlia).
  destruct ((phys >=? skip.1) && (phys <? skip.2)) eqn:Es.
  - apply andb_true_iff in Es as [Es1%Z.geb_le Es2%Z.ltb_lt]. eapply run_mono; [apply IH; [done|done|]|].
    + intros q Hq Hr. apply HM; [done|]. unfold PAGE_SIZE_4K in Hr. lia.
    + intros ? s' G. eapply gave_back_trans; [apply (gave_back_none (λ _, False)); [done|tauto]|exact G|]. intros q. unfold PAGE_SIZE_4K. split.
      * intros (Hq & Hr & Hs). right. split_and!; [done| |lia|done]. destruct (decide (q < phys + 4096)); [|lia]. rewrite (Honly q) in Hs by lia. lia.
      * intros [[]|(Hq & Hr & Hs)]. split_and!; [done|lia|lia|done].
  - assert (¬ (skip.1 ≤ phys < skip.2)) as Hns.
    { intros [H1 H2]. rewrite (proj2 (Z.geb_le _ _)), (proj2 (Z.ltb_lt _ _)) in Es by lia. done. }
    run_step. unfold on_frames. apply run_zoom. eapply run_mono; [apply free_frame_spec; [done|apply HM; [done|lia]]|].
    intros [] a (HFa & HMa & Hfa).
    assert (gave_back (λ q, q = phys) s (set_frames a s)) as G0 by (by exists a).
    eapply run_mono; [apply IH; [done|done|]|].
    + intros q Hq Hr. cbn. rewrite HMa. apply HM; [done|]. unfold PAGE_SIZE_4K in Hr. lia.
    + intros ? s' G. eapply gave_back_trans; [exact G0|exact G|]. intros q. unfold PAGE_SIZE_4K. cbv beta. split.
      * intros (Hq & Hr & Hs). destruct (decide (q < phys + 4096)); [left; apply Honly; lia|right]. split_and!; [done|lia|lia|done].
      * intros [->|(Hq & Hr & Hs)]; [split_and!; [done|lia|lia|done]|]. split_and!; [done|lia|lia|done].
Qed.

Definition region_fits (e : MemoryMapEntry) : Prop :=
  type e = MEMMAP_BOOTLOADER_RECLAIMABLE → 0 ≤ base e ∧ 0 ≤ length_ e ∧ base e + length_ e < 2 ^ 52.

Lemma reclaim_entries_spec es skip r s :
  frames_inv (pg_frames s) → Forall region_fits es → (∀ q, reclaimable es q → frame_managed (pg_frames s) q) →
  wp (reclaim_entries es skip.1 skip.2 r) (λ _ s', gave_back (reclaimed es skip) s s') s.
Proof.
  revert r s. induction es as [|e es IH]; intros r s HF Hes HM; cbn [reclaim_entries].
  { run_step. apply gave_back_none; [done|]. intros q [(e & He & _) _]. by apply not_elem_of_nil in He. }
  apply Forall_cons in Hes as [He Hes].
  assert (∀ q, reclaimable es q → reclaimable (e :: es) q) as Hsub.
  { intros q (e' & He' & H). exists e'. split; [by apply elem_of_cons; right|done]. }
  destruct (Z.eqb_spec (type e) MEMMAP_BOOTLOADER_RECLAIMABLE) as [Ht|Ht]; cbn [negb].
  - destruct (He Ht) as (Hb & Hl & Hbl).
    assert (entry_end e = base e + length_ e) as Hend.
    { unfold entry_end. rewrite wrap_small by (unfold in_width; lia). destruct (Z.ltb_spec (base e + length_ e) (base e)); lia. }
    set (start := align_up (base e) PAGE_SIZE_4K). set (end_ := align_down (entry_end e) PAGE_SIZE_4K).
    assert (start = (base e + 4095) / 4096 * 4096) as Hstart.
    { unfold start. change PAGE_SIZE_4K with (2 ^ 12). rewrite align_up_exact by lia. change (2 ^ 12) with 4096. do 2 f_equal. lia. }
    assert (end_ = (base e + length_ e) / 4096 * 4096) as Hende.
    { unfold end_. rewrite Hend. change PAGE_SIZE_4K with (2 ^ 12). by rewrite align_down_exact by (unfold in_width; lia). }
    clearbody start end_. set (n := Z.to_nat ((end_ - start) / PAGE_SIZE_4K)).
    assert (∀ q, q mod 4096 = 0 → (start ≤ q < start + 4096 * Z.of_nat n ↔ base e ≤ q ∧ q + 4096 ≤ entry_end e)) as Hin.
    { intros q Hq. assert (4096 * Z.of_nat n = Z.max 0 (end_ - start)) as -> by (unfold n, PAGE_SIZE_4K; dlia). rewrite Hend. dlia. }
    run_step. eapply run_mono; [apply (reclaim_pages_spec n start skip r s HF)|].
    + rewrite Hstart. by apply Z.mod_mul.
    + intros q Hq Hr. apply HM. exists e. split; [by apply elem_of_cons; left|]. by apply (Hin q Hq) in Hr as [? ?].
    + intros r1 s1 G1. eapply run_mono; [apply IH; [exact (gave_back_inv _ _ _ G1)|done|]|].
      { intros q Hq. destruct G1 as (a & -> & _ & HMa & _). cbn. apply HMa, HM. auto. }
      intros r2 s2 G2. eapply gave_back_trans; [exact G1|exact G2|]. intros q. unfold reclaimed. split.
      * intros [(e' & [-> |He']%elem_of_cons & Ht' & Hq & H1 & H2) Hs].
        { left. split; [done|]. split; [by apply (Hin q Hq)|done]. }
        right. split; [|done]. by exists e'.
      * intros [(Hq & Hr & Hs)|[Hr Hs]]; [|auto]. apply (Hin q Hq) in Hr as [? ?]. split; [|done]. exists e. split; [by apply elem_of_cons; left|done].
  - eapply run_mono; [apply IH; [done|done|auto]|]. intros r' s' G.
    eapply gave_back_trans; [apply (gave_back_none (λ _, False)); [done|tauto]|exact G|]. intros q. unfold reclaimed. split.
    + intros [(e' & [-> |He']%elem_of_cons & Ht' & H) Hs]; [done|]. right. split; [|done]. by exists e'.
    + intros [[]|[Hr Hs]]. auto.
Qed.

(** * The first table *)

Lemma building_root_table s new s1 :
  frames_inv (pg_frames s) → table_pages_allocated (g_paging_info s) = 0 →
  frame_free (pg_frames s) new → frames_inv (pg_frames s1) → same_env s s1 →
  (∀ p, frame_managed (pg_frames s1) p ↔ frame_managed (pg_frames s) p) →
  (∀ p, frame_free (pg_frames s1) p ↔ frame_free (pg_frames s) p ∧ p ≠ new) →
  table_pages_allocated (g_paging_info s1) = u64 (table_pages_allocated (g_paging_info s) + 1) →
  (∀ p i, p mod 4096 = 0 → 0 ≤ i < 512 → entry s1 p i = if decide (p = new) then 0 else entry s p i) →
  building s new 1 (λ _, None) (counters s) s1.
Proof.
  intros HF H0 Hfree HF1 Henv HM Hfr Hcnt Hent.
  pose proof (frame_free_managed _ _ HF Hfree) as Hnm. destruct (frame_managed_aligned _ _ HF Hnm) as [Hna _].
  assert (∀ i, 0 ≤ i < 512 → entry s1 new i = 0) as Hz by (intros i Hi; rewrite Hent by done; by rewrite decide_True).
  assert (∀ k, has 0 (Z.shiftl 1 k) = false) as Hhas by done.
  assert (∀ p path, ({[new := []]} : gmap Z (list Z)) !! p = Some path ↔ p = new ∧ path = []) as HT.
  { intros p path. rewrite lookup_singleton_Some. naive_solver. }
  destruct Henv as (E1 & E2 & E3 & E4 & E5 & E6 & E7 & E8 & E9).
  split; try done.
  - exists {[new := []]}. split; [split; [split|]|split].
    + done.
    + by apply HT.
    + intros p Hp%HT. by destruct Hp.
    + intros p path Hp%HT. destruct Hp as [-> ->]. rewrite HM, Hfr. tauto.
    + intros p path Hp%HT. destruct Hp as [-> ->]. cbn. lia.
    + intros p path i Hp%HT _ Hi. destruct Hp as [-> ->]. by rewrite Hz.
    + intros p path i Hp%HT. destruct Hp as [_ Hp]. by destruct path.
    + intros p path i Hp%HT Hi _. destruct Hp as [-> ->]. by apply Hz.
    + intros i Hi. by rewrite Hz.
    + by rewrite Hcnt, H0, map_size_singleton.
    + intros p path Hp%HT Hne. by destruct Hp.
    + intros p path Hp%HT. by destruct Hp as [-> _].
    + intros p. rewrite Hfr, lookup_singleton_None. naive_solver.
  - intros p i Hp Hi Hf. rewrite Hent by done. rewrite decide_False; [done|]. by intros ->.
  - unfold regs. by rewrite E1, E2, E3, E4, E5, E6, E7.
  - intros n Hn. eapply avail_take; [done|]. by rewrite Nat.add_comm in Hn.
  - intros v Hv. cbn [fmap option_fmap option_map]. apply walk_absent. unfold ent. rewrite Hz by apply index_range. done.
Qed.

(** The address space only depends on memory, frames and the number of tables. *)
Lemma space_agree s s' root T :
  space s root T → pg_mem s' = pg_mem s → pg_frames s' = pg_frames s →
  table_pages_allocated (g_paging_info s') = table_pages_allocated (g_paging_info s) → space s' root T.
Proof.
  intros [Ht Hc] Hm Hf Hn. split.
  - apply (tree_agree s); try done.
    + intros. by rewrite (entry_mem s s').
    + intros p path j Hp Hj. rewrite (entry_mem s s') by done. by eapply tree_zero.
  - intros p path Hp Hne. destruct (Hc _ _ Hp Hne) as (i & Hi & He). exists i. by rewrite (entry_mem s s').
Qed.

(** * Bring-up *)

Section WithLayout.
Context (lay : kernel_layout).

Definition old_root s : Z := Z.land (cr3 s) ENTRY_ADDR_MASK_4K.
Definition span_of s : Z := (frames_highest (pg_frames s) + 4095) / 4096 * 4096.

(** The pages of the new address space: the kernel image as before, the direct map,
    and, where these have nothing, the window around the stack and the frame buffer as
    before. *)
Definition base_map s : Z → option Z :=
  over (kernel_map lay s (old_root s)) (hhdm_first lay) (hhdm_first lay + span_of s / 4096) (hhdm_page lay).
Definition new_map s (fb : BootFramebuffer) (rsp : Z) : Z → option Z :=
  let stack := stack_window rsp in
  let screen := fb_window fb in
  fill (fill (base_map s) (first_page stack) (end_page stack) (old_page s (old_root s)))
    (first_page screen) (end_page screen) (old_page s (old_root s)).

(** A bound on the tables needed: three for each page. *)
Definition frames_needed s (fb : BootFramebuffer) (rsp : Z) : nat :=
  1 + 3 * Z.to_nat (kernel_pages lay) + 3 * Z.to_nat (span_of s / 4096) + 3 * window_pages (stack_window rsp) +
  3 * window_pages (fb_window fb).

Definition PANIC_START : string := "Paging init failed: unable to translate kernel start from old CR3".

Definition init_panic s (fb : BootFramebuffer) (rsp : Z) (msg : string) : Prop :=
  oom (frames_needed s fb rsp) s msg ∨
  old_missing s (old_root s) (kernel_first lay) (kernel_first lay + kernel_pages lay) PANIC_START msg ∨
  old_missing s (old_root s) (kernel_first lay) (kernel_first lay + kernel_pages lay) PANIC_OLD_KERNEL msg ∨
  ∃ w, (w = stack_window rsp ∨ w = fb_window fb) ∧ range_panic s (old_root s) (base_map s) (first_page w) (end_page w) msg.

(** What the boot loader and the frame allocator have to leave: the old tables and
    the memory to reclaim are not free, and the parts of the new address space do not
    meet. *)
Record init_ok s (mm : BootMemoryMap) (fb : BootFramebuffer) (rsp : Z) : Prop := {
  ok_map : map_missing (Some mm) = false;
  ok_unlocked : g_paging_lock s = false;
  ok_first : g_paging_initialized s = false;
  ok_info : g_paging_info s = mkPagingInfo false 0 0 0 0 0 0 0;
  ok_frames : frames_inv (pg_frames s);
  ok_ready : frames_ready (pg_frames s) = true;
  ok_highest : 0 < frames_highest (pg_frames s);
  ok_kernel : kernel_ok lay;
  ok_hhdm : hhdm_ok lay (span_of s);
  ok_apart : g_hhdm_offset lay + span_of s ≤ kernel_virtual_start lay;
  ok_stack : window_ok (stack_window rsp);
  ok_fb : fb_ok fb;
  ok_old : undisturbed (frame_free (pg_frames s)) s 3 (old_root s);
  ok_regions : Forall region_fits (map_entries mm);
  ok_reclaim q : reclaimable (map_entries mm) q → frame_managed (pg_frames s) q ∧ ¬ frame_free (pg_frames s) q
}.

(** The window around the stack that is not reclaimed. *)
Definition stack_skip s (rsp : Z) : Z * Z := reclaim_skip (translate s (cr3 s) rsp).

Record paging_up s s' (mm : BootMemoryMap) (fb : BootFramebuffer) (rsp : Z) : Prop := {
  up_root : root_pml4_phys (g_paging_info s') = cr3 s';
  up_ready : g_paging_initialized s' = true ∧ initialized (g_paging_info s') = true ∧ g_paging_lock s' = false;
  up_tlb : pg_tlb s' = LoadCr3 (cr3 s') :: pg_tlb s;
  up_tables : ∃ T, space s' (cr3 s') T ∧ (∀ p path, T !! p = Some path → frame_free (pg_frames s) p) ∧
    ∀ p, frame_free (pg_frames s') p ↔
      frame_free (pg_frames s) p ∧ T !! p = None ∨ reclaimed (map_entries mm) (stack_skip s rsp) p;
  up_managed p : frame_managed (pg_frames s') p ↔ frame_managed (pg_frames s) p;
  up_foreign p i : p mod 4096 = 0 → 0 ≤ i < 512 → ¬ frame_free (pg_frames s) p → entry s' p i = entry s p i;
  up_walk v : canonical v → translate s' (cr3 s') v = (λ f, f + v mod 4096) <$> new_map s fb rsp (v / 4096);
  up_counts : mapped_kernel_pages (g_paging_info s') = kernel_pages lay ∧
    mapped_hhdm_2m_pages (g_paging_info s') = hhdm_large lay (span_of s) ∧
    mapped_hhdm_4k_pages (g_paging_info s') = hhdm_small lay (span_of s)
}.

Lemma range_panic_fill s old P P' a b c d msg :
  (∀ n, P' n = fill P c d (old_page s old) n) → range_panic s old P' a b msg → range_panic s old P a b msg.
Proof.
  intros HP [H|[-> (n & x & g & Hn & Hx & Hg & Hne)]]; [by left|right]. split; [done|]. exists n, x, g.
  rewrite HP in Hx. unfold fill in Hx. destruct (P n); [done|]. destruct (within c d n); congruence.
Qed.

(** The end of [paging_init], from the finished tables on. *)
Lemma init_finish s s1 new u mm fb rsp I :
  init_ok s mm fb rsp → building (set_lock true s) new u (new_map s fb rsp) I s1 →
  root_pml4_phys I = new → mapped_kernel_pages I = kernel_pages lay →
  mapped_hhdm_2m_pages I = hhdm_large lay (span_of s) → mapped_hhdm_4k_pages I = hhdm_small lay (span_of s) →
  wp (let! stack_phys := gets (λ s, translate s (old_root s1) rsp) in
      let skip := reclaim_skip stack_phys in
      paging_load_cr3 new;;
      let! reclaimed := reclaim_bootloader_reclaimable (Some mm) skip.1 skip.2 in
      modify (λ s, set_info (set_info_fields id id id (λ _, reclaimed) (λ _, true) (g_paging_info s)) s);;
      modify (set_paging_initialized true);;
      spin_unlock) (λ _ s', paging_up s s' mm fb rsp) s1.
Proof.
  intros Hok B Hr Hk H2 H4. run_step. run_step. cbv beta zeta.
  assert (cr3 s1 = cr3 s) as Hcr by (pose proof (bld_regs _ _ _ _ _ _ B) as Hx; by injection Hx).
  assert (reclaim_skip (translate s1 (old_root s1) rsp) = stack_skip s rsp) as ->.
  { unfold stack_skip, old_root. rewrite Hcr. f_equal. rewrite !translate_walk, <- Z.land_assoc, Z.land_diag.
    apply (building_old (set_lock true s) new u (new_map s fb rsp) I s1); [done|]. exact (ok_old _ _ _ _ Hok). }
  run_step. unfold paging_load_cr3. run_step. run_step. unfold reclaim_bootloader_reclaimable. rewrite (ok_map _ _ _ _ Hok).
  destruct (bld_tables _ _ _ _ _ _ B) as (T & Hs & HT1 & HT2). pose proof Hs as [Ht _].
  eapply run_mono; [apply reclaim_entries_spec; [apply Ht|apply Hok|]|].
  { intros q Hq. apply (bld_managed _ _ _ _ _ _ B). by apply (ok_reclaim _ _ _ _ Hok). }
  intros r s2 (a & -> & HFa & HMa & Hfa). run_step. run_step. run_step. apply run_release.
  assert (∀ q, frame_managed a q ↔ frame_managed (pg_frames s) q) as HM by (intros q; rewrite HMa; apply B).
  assert (∀ q, frame_free a q ↔ frame_free (pg_frames s) q ∧ T !! q = None ∨ reclaimed (map_entries mm) (stack_skip s rsp) q) as HF.
  { intros q. rewrite Hfa. change (pg_frames (set_cr3 new s1)) with (pg_frames s1). by rewrite HT2. }
  assert (space (set_frames a s1) new T) as Hs2.
  { apply space_set_frames; [done|done|intros p; rewrite HM; symmetry; apply B|]. intros p path Hp. rewrite HF. intros [[_ ?]|[Hrc _]]; [congruence|].
    destruct (ok_reclaim _ _ _ _ Hok _ Hrc) as [_ Hnf]. exact (Hnf (HT1 _ _ Hp)). }
  assert (counters s1 = I) as HI by apply B.
  split.
  - cbn. by rewrite <- Hr, <- HI.
  - done.
  - cbn. f_equal. pose proof (bld_regs _ _ _ _ _ _ B) as Hx. by injection Hx.
  - exists T. split; [by apply (space_agree (set_frames a s1))|]. split; [done|exact HF].
  - exact HM.
  - intros p i Hp Hi Hf. exact (bld_foreign _ _ _ _ _ _ B p i Hp Hi Hf).
  - intros v Hv. rewrite translate_walk. match goal with |- walk _ 3 (Z.land ?x _) _ = _ => change x with new end. rewrite (building_root _ _ _ _ _ _ B). rewrite <- (bld_walk _ _ _ _ _ _ B v Hv). by apply walk_mem.
  - cbn. by rewrite <- Hk, <- H2, <- H4, <- HI.
Qed.

Lemma paging_init_spec s mm fb rsp :
  init_ok s mm fb rsp →
  run (init_panic s fb rsp) (paging_init lay (Some mm) fb rsp) (λ _ s', paging_up s s' mm fb rsp) s.
Proof.
  intros Hok. pose proof Hok as [K1 K2 K3 K4 K5 K6 K7 K8 K9 K10 K11 K12 K13 K14 K15]. pose proof K8 as (K8a & K8b & K8c). pose proof K9 as (K9a & K9b & K9c & K9d & K9e).
  unfold paging_init. rewrite K1. run_step. apply run_acquire; [done|]. run_step. run_step. cbn [g_paging_initialized set_lock pg_frames].
  rewrite K3, K6. cbn [negb]. cbv zeta. set (s0 := set_lock true s).
  assert (align_up (frames_highest (pg_frames s)) PAGE_SIZE_4K = span_of s) as Hspan.
  { unfold span_of. change PAGE_SIZE_4K with (2 ^ 12). rewrite align_up_exact; [do 2 f_equal; lia|lia|]. unfold span_of in K9c. dlia. }
  rewrite Hspan. destruct (Z.eqb_spec (frames_highest (pg_frames s)) 0) as [?|_]; [lia|].
  destruct (Z.eqb_spec (frames_highest (pg_frames s)) UINT64_MAX) as [E|_]; [unfold span_of, UINT64_MAX in *; dlia|]. cbn [orb].
  run_step. unfold paging_read_cr3. run_step. cbn [cr3 set_lock s0]. fold (old_root s).
  assert (∀ n, old_page s0 (old_root s) n = old_page s (old_root s) n) as Hold by (intros; apply walk_lock).
  assert (undisturbed (frame_free (pg_frames s0)) s0 3 (Z.land (old_root s) ENTRY_ADDR_MASK_4K)) as Hu.
  { unfold old_root. rewrite <- Z.land_assoc, Z.land_diag. exact K13. }
  assert (0 < kernel_pages lay) as Hkp by (unfold kernel_pages; dlia).
  assert (kernel_virtual_start lay = 4096 * kernel_first lay) as Hkf by (unfold kernel_first; dlia).
  destruct (translate s0 (old_root s) (kernel_virtual_start lay)) as [ph|] eqn:Etr.
  2: { apply run_panic. right. left. split; [done|]. exists (kernel_first lay). split; [lia|]. rewrite <- Hold. unfold old_page. by rewrite <- translate_walk, <- Hkf. }
  run_step. eapply run_weaken; [apply (alloc_table_page_spec s0 K5)|intros msg Hm; left; eapply oom_mono; [|exact Hm]; unfold frames_needed; lia|].
  intros new s1 (Hfree & Hna & HF1 & Henv & HM1 & Hfr1 & Hcnt1 & Hent1).
  assert (building s0 new 1 (λ _, None) (counters s0) s1) as B1.
  { apply building_root_table; try done. unfold s0. cbn. by rewrite K4. }
  run_step. run_step.
  apply (building_info _ _ _ _ _ _ (set_info_fields (λ _, new) id id id id)) in B1; [|done..]. unfold counters in B1. unfold s0 in B1 at 2. cbn [g_paging_info set_lock] in B1. rewrite K4 in B1.
  run_step. eapply run_weaken; [apply (build_kernel lay s0 new 1 _ _ (old_root s) K8 B1 Hu)| |].
  { intros msg [Hm|[-> (n & Hn & Hnone)]]; [left; eapply oom_mono; [|exact Hm]; unfold frames_needed; lia|].
    right. right. left. split; [done|]. exists n. by rewrite <- Hold. }
  intros kp s2 [-> B2]. run_step. run_step.
  apply (building_info _ _ _ _ _ _ (set_info_fields id (λ _, kernel_pages lay) id id id)) in B2; [|done..].
  run_step. eapply run_weaken; [eapply (build_hhdm lay s0); [exact K9| | |exact B2|]| |]; [done|done|..].
  { intros n Hn. unfold kernel_map, over. rewrite (proj2 (within_false _ _ _)); [done|]. unfold hhdm_first in Hn. dlia. }
  { intros msg Hm. left. eapply oom_mono; [|exact Hm]. unfold frames_needed. lia. }
  intros [] s3 B3.
  eapply (building_ext s0 new _ (1 + 3 * Z.to_nat (kernel_pages lay) + 3 * Z.to_nat (span_of s / 4096)) _ (base_map s)) in B3; [|intros n|lia].
  2: { unfold base_map, kernel_map, over. destruct (within _ _ n); [done|]. destruct (within _ _ n); [|done]. by rewrite Hold. }
  assert (∀ P a b msg, range_panic s0 (old_root s) P a b msg → range_panic s (old_root s) P a b msg) as Hrp.
  { intros P a b msg [[-> (n & Hn & Hx)]|[-> (n & f & g & Hn & Hf & Hg & Hne)]].
    - left. split; [done|]. exists n. by rewrite <- Hold.
    - right. split; [done|]. exists n, f, g. by rewrite <- Hold. }
  run_step. eapply run_weaken; [apply (build_passthrough s0 new _ _ _ _ (old_root s) (stack_window rsp) B3 Hu K11)| |].
  { intros msg [Hm|Hm]; [left; eapply oom_mono; [|exact Hm]; unfold frames_needed; lia|]. right. right. right. exists (stack_window rsp). auto. }
  intros [] s4 (I4 & HI4 & B4). run_step. eapply run_weaken; [apply (build_framebuffer s0 new _ _ _ _ (old_root s) fb B4 Hu K12)| |].
  { intros msg [Hm|Hm]; [left; eapply oom_mono; [|exact Hm]; unfold frames_needed; lia|]. right. right. right. exists (fb_window fb). split; [auto|].
    eapply (range_panic_fill s (old_root s)); [|by apply Hrp]. intros n. unfold fill. destruct (base_map s n); [done|]. by rewrite Hold. }
  intros [] s5 (I5 & HI5 & B5). eapply (building_ext s0 new _ (frames_needed s fb rsp) _ (new_map s fb rsp)) in B5; [|intros n|unfold frames_needed; lia].
  2: { unfold new_map, fill. rewrite !Hold. done. }
  assert (cr3 s5 = cr3 s) as Hcr by (pose proof (bld_regs _ _ _ _ _ _ B5) as Hx; by injection Hx).
  replace (old_root s) with (old_root s5) by (unfold old_root; by rewrite Hcr).
  assert (but_passthrough (hhdm_counts lay (span_of s) (set_info_fields id (λ _, kernel_pages lay) id id id
    (set_info_fields (λ _, new) id id id id (with_tables (λ _, 0) (mkPagingInfo false 0 0 0 0 0 0 0))))) I5) as HI.
  { unfold but_passthrough in *. by rewrite HI5, HI4. }
  destruct I5 as [j1 j2 j3 j4 j5 j6 j7 j8]. unfold but_passthrough in HI. injection HI as -> -> -> -> -> -> ->.
  eapply run_weaken; [by apply (init_finish s s5 new (frames_needed s fb rsp) mm fb rsp _ Hok B5)|done|done].
Qed.

(** C3. [paging_init] on the boot loader's tables.  It panics only for want of frames
    for tables, or because a page it has to keep (of the kernel image, the stack or
    the frame buffer) has no translation in the old tables or one that contradicts the
    direct map.  Otherwise it returns with the new tables loaded and published and the
    lock released: a canonical address then translates as the new page map says, the
    kernel image as before, the direct map to the address less the offset, the stack
    window and the frame buffer as before, and nothing else is mapped; the tables form
    a well-formed address space made of frames that were free; no frame that was in use
    is written; and the free frames are those that were free less the tables, with the
    boot loader's whole pages outside the protected stack window added. *)
Theorem paging_init_correct s mm fb rsp :
  init_ok s mm fb rsp →
  run (init_panic s fb rsp) (paging_init lay (Some mm) fb rsp) (λ _ s', paging_up s s' mm fb rsp) s.
Proof. apply paging_init_spec. Qed.
End WithLayout.
End Props.
