(* ===== verification/Vmalloc.v ===== *)
(** Virtually contiguous kernel memory (mm/vmalloc.h, mm/vmalloc.c): a first-fit
    allocator of address ranges whose pages are backed one by one with frames.
    The frame and page-table calls go through the [PageMapper] contract. *)

From S2P Require Import Prelude Boot Mapper PageTree.

Definition PAGE : Z := 4096.
Definition VMALLOC_DEFAULT_SIZE : Z := 256 * 1024 * 1024.
Definition VMALLOC_MAX_RANGES : Z := 128.

Record vmalloc_range_t : Type := mkRange { r_start : Z; r_size : Z }.

(** [vm_free] is [g_vmalloc_free[0 .. g_vmalloc_free_count-1]]; [vm_pages] is
    the state of the managers below. *)
Record vm_state (P : Type) : Type := mkVm {
  vm_free : list vmalloc_range_t;
  g_vmalloc_base : Z;
  g_vmalloc_end : Z;
  g_vmalloc_initialized : bool;
  g_vmalloc_lock : bool;
  vm_pages : P
}.
Arguments mkVm {P}. Arguments vm_free {P}. Arguments g_vmalloc_base {P}.
Arguments g_vmalloc_end {P}. Arguments g_vmalloc_initialized {P}.
Arguments g_vmalloc_lock {P}. Arguments vm_pages {P}.

(** * Ranges *)

Definition range_end (start size : Z) : Z :=
  let end_ := u64 (start + size) in
  if end_ <? start then UINT64_MAX else end_.

(** The [while] loop that looks for the insertion point. *)
Fixpoint insert_at (start : Z) (l : list vmalloc_range_t) : nat :=
  match l with
  | [] => 0%nat
  | r :: l' => if r_start r <? start then S (insert_at start l') else 0%nat
  end.

(** Shifting the tail up by one and storing the new range. *)
Definition insert_range (start size : Z) (l : list vmalloc_range_t) : list vmalloc_range_t :=
  let i := insert_at start l in
  take i l ++ mkRange start size :: drop i l.

(** The merging loop, standing at index [i] with range [a] and the ranges after
    it: a touching or overlapping successor is absorbed without advancing. *)
Fixpoint merge_from (a : vmalloc_range_t) (l : list vmalloc_range_t) : list vmalloc_range_t :=
  match l with
  | [] => [a]
  | b :: l' =>
      let a_end := range_end (r_start a) (r_size a) in
      let b_end := range_end (r_start b) (r_size b) in
      if a_end >=? r_start b then
        let new_end := if a_end >? b_end then a_end else b_end in
        merge_from (mkRange (r_start a) (new_end - r_start a)) l'
      else a :: merge_from b l'
  end.

Definition merge_ranges (l : list vmalloc_range_t) : list vmalloc_range_t :=
  match l with [] => [] | a :: l' => merge_from a l' end.

(** The first range that is large enough: its address, and the list without the
    front of it (and without the range when nothing is left). *)
Fixpoint first_fit (l : list vmalloc_range_t) (aligned : Z) : option (Z * list vmalloc_range_t) :=
  match l with
  | [] => None
  | r :: l' =>
      if r_size r <? aligned then
        match first_fit l' aligned with
        | Some (addr, rest) => Some (addr, r :: rest)
        | None => None
        end
      else
        let r' := mkRange (u64 (r_start r + aligned)) (r_size r - aligned) in
        Some (r_start r, if r_size r' =? 0 then l' else r' :: l')
  end.

Section Vmalloc.
Context {P : Type} `{!PageMapper P}.
Abbreviation state := (vm_state P).
Implicit Types s : state.

Definition set_free (l : list vmalloc_range_t) s : state :=
  mkVm l (g_vmalloc_base s) (g_vmalloc_end s) (g_vmalloc_initialized s) (g_vmalloc_lock s) (vm_pages s).
Definition set_vm_lock (b : bool) s : state :=
  mkVm (vm_free s) (g_vmalloc_base s) (g_vmalloc_end s) (g_vmalloc_initialized s) b (vm_pages s).
Definition set_pages (p : P) s : state :=
  mkVm (vm_free s) (g_vmalloc_base s) (g_vmalloc_end s) (g_vmalloc_initialized s) (g_vmalloc_lock s) p.

Definition vm_lock : M state unit := acquire g_vmalloc_lock set_vm_lock.
Definition vm_unlock : M state unit := release set_vm_lock.
Definition on_pages {B} (m : M P B) : M state B := zoom vm_pages set_pages m.

Definition vmalloc_free_range (start size : Z) : M state unit :=
  if size =? 0 then ret tt
  else
    let! l := gets vm_free in
    if Z.of_nat (length l) >=? VMALLOC_MAX_RANGES then panic "vmalloc: free list overflow"
    else modify (set_free (merge_ranges (insert_range start size l))).

(** The bounds of the region: [Some (base, size)], or [None] for the early
    returns.  [highest] is the highest physical address. *)
Definition vmalloc_region (lay : kernel_layout) (highest : Z) : option (Z * Z) :=
  let kernel_end := align_up (kernel_virtual_end lay) PAGE in
  let hhdm_span := align_up highest PAGE in
  let hhdm_end := u64 (g_hhdm_offset lay + hhdm_span) in
  let hhdm_end := if hhdm_end <? g_hhdm_offset lay then UINT64_MAX else hhdm_end in
  let base := kernel_end in
  let base := if (base >=? g_hhdm_offset lay) && (base <? hhdm_end) then hhdm_end else base in
  let base := align_up base PAGE in
  let size := VMALLOC_DEFAULT_SIZE in
  let end_ := range_end base size in
  if (base <? g_hhdm_offset lay) && (end_ >? g_hhdm_offset lay) then
    let end_ := g_hhdm_offset lay in
    if end_ <=? base then None
    else if end_ - base <? PAGE then None else Some (base, end_ - base)
  else if size <? PAGE then None else Some (base, size).

Section WithLayout.
Context (lay : kernel_layout).

Definition vmalloc_init_once_locked : M state bool :=
  let! s := get in
  if g_vmalloc_initialized s then ret true
  else if negb (pm_ready (vm_pages s)) then ret false
  else
    let highest := pm_highest (vm_pages s) in
    if (highest =? 0) || (highest =? UINT64_MAX) then ret false
    else
      match vmalloc_region lay highest with
      | None => ret false
      | Some (base, size) =>
          modify (λ s, mkVm [mkRange base size] base (u64 (base + size)) true (g_vmalloc_lock s) (vm_pages s));;
          ret true
      end.

Definition vmalloc_init : M state unit :=
  vm_lock;;
  let! _ := vmalloc_init_once_locked in
  vm_unlock.

(** The loop that backs [n] pages; the result is [mapped]. *)
Fixpoint map_pages (n : nat) (root addr flags offset mapped : Z) : M state Z :=
  match n with
  | O => ret mapped
  | S n' =>
      let! r := on_pages pm_alloc in
      match r with
      | None => ret mapped
      | Some phys =>
          let! ok := on_pages (pm_map root (u64 (addr + offset)) phys flags) in
          if negb ok then on_pages (pm_free phys);; ret mapped
          else map_pages n' root addr flags (offset + PAGE) (mapped + PAGE)
      end
  end.

(** The loop that unmaps [n] pages and releases their frames. *)
Fixpoint unmap_pages (n : nat) (root addr offset : Z) : M state unit :=
  match n with
  | O => ret tt
  | S n' =>
      let! r := on_pages (pm_unmap root (u64 (addr + offset)) 0) in
      (if r.1 then on_pages (pm_free r.2) else ret tt);;
      unmap_pages n' root addr (offset + PAGE)
  end.

Definition pages_of (bytes : Z) : nat := Z.to_nat (bytes / PAGE).

(** Returns 0 for a null pointer. *)
Definition vmalloc (size flags : Z) : M state Z :=
  if size =? 0 then ret 0
  else
    let aligned := align_up size PAGE in
    if aligned <? size then ret 0
    else
      vm_lock;;
      let! ok := vmalloc_init_once_locked in
      if negb ok then vm_unlock;; ret 0
      else
        let! l := gets vm_free in
        match first_fit l aligned with
        | None => vm_unlock;; ret 0
        | Some (addr, rest) =>
            modify (set_free rest);;
            let! root := gets (λ s, pm_root (vm_pages s)) in
            if root =? 0 then vmalloc_free_range addr aligned;; vm_unlock;; ret 0
            else
              let! mapped := map_pages (pages_of aligned) root addr flags 0 0 in
              if mapped =? aligned then vm_unlock;; ret addr
              else
                unmap_pages (pages_of mapped) root addr 0;;
                vmalloc_free_range addr aligned;;
                vm_unlock;;
                ret 0
        end.

Definition vfree (addr size : Z) : M state unit :=
  if (addr =? 0) || (size =? 0) then ret tt
  else if negb (Z.land addr (PAGE - 1) =? 0) then ret tt
  else
    let aligned := align_up size PAGE in
    if aligned <? size then ret tt
    else
      vm_lock;;
      let! s := get in
      if negb (g_vmalloc_initialized s) then vm_unlock
      else if (addr <? g_vmalloc_base s) || (addr >=? g_vmalloc_end s) ||
              (addr >? u64 (g_vmalloc_end s - aligned)) then vm_unlock
      else
        let root := pm_root (vm_pages s) in
        if root =? 0 then vm_unlock
        else
          unmap_pages (pages_of aligned) root addr 0;;
          vmalloc_free_range addr aligned;;
          vm_unlock.
End WithLayout.
End Vmalloc.
