(* ===== verification/VmallocSpec.v ===== *)
(** Correctness of vmalloc.c: the free list stays a sorted list of disjoint,
    non-adjacent, page-aligned ranges; every page of the region is either free
    and unmapped or belongs to exactly one allocation and is backed by a frame
    of its own; allocation and release move pages between the two. *)

From S2P Require Import Prelude Boot Mapper PageTree Vmalloc.

(** * The free list *)

Definition in_range (r : vmalloc_range_t) (x : Z) : Prop := r_start r ≤ x < r_start r + r_size r.
Definition covered (l : list vmalloc_range_t) (x : Z) : Prop := ∃ r, r ∈ l ∧ in_range r x.

Lemma covered_cons r l x : covered (r :: l) x ↔ in_range r x ∨ covered l x.
Proof. unfold covered. setoid_rewrite elem_of_cons. naive_solver. Qed.

Lemma covered_nil x : covered [] x ↔ False.
Proof. unfold covered. split; [|done]. by intros (r & ?%not_elem_of_nil & _). Qed.

Lemma covered_app l k x : covered (l ++ k) x ↔ covered l x ∨ covered k x.
Proof. unfold covered. setoid_rewrite elem_of_app. naive_solver. Qed.

(** One well-formed range between [lo] and [hi]. *)
Definition range_ok (lo hi : Z) (r : vmalloc_range_t) : Prop :=
  lo ≤ r_start r ∧ 0 < r_size r ∧ r_start r + r_size r ≤ hi ∧
  r_start r mod PAGE = 0 ∧ r_size r mod PAGE = 0.

(** Sorted by start address; ranges may touch or overlap. *)
Fixpoint sorted_ranges (lo hi : Z) (l : list vmalloc_range_t) : Prop :=
  match l with
  | [] => True
  | r :: l' => range_ok lo hi r ∧ sorted_ranges (r_start r) hi l'
  end.

(** Sorted, disjoint and not even adjacent. *)
Fixpoint wf_ranges (lo hi : Z) (l : list vmalloc_range_t) : Prop :=
  match l with
  | [] => True
  | r :: l' => range_ok lo hi r ∧ wf_ranges (r_start r + r_size r + 1) hi l'
  end.

Lemma range_ok_mono lo lo' hi r : lo' ≤ lo → range_ok lo hi r → range_ok lo' hi r.
Proof. unfold range_ok. lia. Qed.

Lemma wf_mono lo lo' hi l : lo' ≤ lo → wf_ranges lo hi l → wf_ranges lo' hi l.
Proof. destruct l; simpl; [done|]. intros ? [? ?]. eauto using range_ok_mono. Qed.

Lemma sorted_mono lo lo' hi l : lo' ≤ lo → sorted_ranges lo hi l → sorted_ranges lo' hi l.
Proof. destruct l; simpl; [done|]. intros ? [? ?]. eauto using range_ok_mono. Qed.

Lemma wf_sorted lo hi l : wf_ranges lo hi l → sorted_ranges lo hi l.
Proof.
  revert lo. induction l as [|r l IH]; intros lo; simpl; [done|]. intros [Hr Hl].
  split; [done|]. eapply sorted_mono; [|by apply IH]. unfold range_ok in Hr. lia.
Qed.

Lemma wf_covered lo hi l x : wf_ranges lo hi l → covered l x → lo ≤ x < hi.
Proof.
  revert lo. induction l as [|r l IH]; intros lo; [by intros _ ?%covered_nil|]. simpl.
  intros [Hr Hl]. rewrite covered_cons. unfold range_ok, in_range in *.
  intros [?|Hc]; [lia|]. specialize (IH _ Hl Hc). lia.
Qed.

Lemma range_end_exact r hi lo : range_ok lo hi r → 0 ≤ lo → hi < 2 ^ 64 →
  range_end (r_start r) (r_size r) = r_start r + r_size r.
Proof.
  unfold range_ok, range_end. intros Hr Hlo Hhi. rewrite wrap_small by (unfold in_width; lia).
  destruct (Z.ltb_spec (r_start r + r_size r) (r_start r)); lia.
Qed.

Lemma insert_range_spec lo hi start size l :
  sorted_ranges lo hi l → range_ok lo hi (mkRange start size) →
  sorted_ranges lo hi (insert_range start size l).
Proof.
  unfold insert_range. revert lo. induction l as [|r l IH]; intros lo; simpl; [done|].
  intros [Hr Hl] Hn. destruct (Z.ltb_spec (r_start r) start); simpl.
  - split; [done|]. apply IH; [done|]. unfold range_ok in *. simpl in *. lia.
  - split; [done|]. split; [|done]. unfold range_ok in *. simpl in *. lia.
Qed.

Lemma insert_range_covered start size l x :
  covered (insert_range start size l) x ↔ in_range (mkRange start size) x ∨ covered l x.
Proof.
  unfold insert_range. rewrite covered_app, covered_cons.
  assert (covered l x ↔ covered (take (insert_at start l) l) x ∨ covered (drop (insert_at start l) l) x)
    as ->; [|tauto]. by rewrite <- covered_app, take_drop.
Qed.

(** The merging loop turns a sorted list into a well-formed one with the same
    addresses. *)
Lemma merge_from_spec lo hi a l :
  0 ≤ lo → hi < 2 ^ 64 → sorted_ranges lo hi (a :: l) →
  wf_ranges lo hi (merge_from a l) ∧ ∀ x, covered (merge_from a l) x ↔ covered (a :: l) x.
Proof.
  intros Hlo0 Hhi. revert a lo Hlo0. induction l as [|b l IH]; intros a lo Hlo0 [Ha Hl]; [done|].
  destruct Hl as [Hb Hl]. cbn [merge_from].
  rewrite (range_end_exact a hi lo), (range_end_exact b hi (r_start a)) by (unfold range_ok in *; lia || done).
  destruct (Z.geb_spec (r_start a + r_size a) (r_start b)) as [Hm|Hm].
  - set (e := if _ >? _ then _ else _).
    assert (e = Z.max (r_start a + r_size a) (r_start b + r_size b)) as He.
    { unfold e. destruct (Z.gtb_spec (r_start a + r_size a) (r_start b + r_size b)); lia. }
    destruct (IH (mkRange (r_start a) (e - r_start a)) lo) as [IH1 IH2]; [done| |].
    { split; [|by eapply sorted_mono; [|exact Hl]; unfold range_ok in *; simpl; lia].
      unfold range_ok, PAGE in *. simpl in *. split_and!; try lia.
      destruct (Z.max_spec (r_start a + r_size a) (r_start b + r_size b)) as [[_ Hx]|[_ Hx]];
        rewrite Hx in He; subst e; dlia. }
    split; [done|]. intros x. rewrite IH2, !covered_cons. unfold in_range, range_ok in *. simpl.
    split; [|intros [?|[?|?]]; [left; lia..|by right]].
    intros [?|?]; [|tauto]. destruct (decide (x < r_start a + r_size a)); [left; lia|right; left; lia].
  - destruct (IH b (r_start a)) as [IH1 IH2]; [unfold range_ok in *; lia|done|].
    split.
    + split; [done|]. destruct (IH b (r_start b)) as [IH3 _]; [unfold range_ok in *; lia| |].
      { split; [|done]. unfold range_ok in *. lia. }
      eapply wf_mono; [|done]. lia.
    + intros x. rewrite covered_cons, IH2, !covered_cons. tauto.
Qed.

(** Releasing a range: the free set grows by exactly that range. *)
Lemma free_list_release lo hi start size l :
  0 ≤ lo → hi < 2 ^ 64 → wf_ranges lo hi l → range_ok lo hi (mkRange start size) →
  let l' := merge_ranges (insert_range start size l) in
  wf_ranges lo hi l' ∧ ∀ x, covered l' x ↔ covered l x ∨ start ≤ x < start + size.
Proof.
  intros Hlo Hhi Hl Hr. cbv zeta.
  pose proof (insert_range_spec lo hi start size l (wf_sorted _ _ _ Hl) Hr) as Hs.
  pose proof (insert_range_covered start size l) as Hcov.
  destruct (insert_range start size l) as [|a l'] eqn:E.
  { exfalso. unfold insert_range in E. by destruct (take _ l). }
  cbn [merge_ranges]. destruct (merge_from_spec lo hi a l' Hlo Hhi Hs) as [H1 H2].
  split; [done|]. intros x. rewrite H2, Hcov. unfold in_range. simpl. tauto.
Qed.

(** Taking the front of the first range that fits. *)
Lemma first_fit_spec lo hi l aligned addr rest :
  0 ≤ lo → hi < 2 ^ 64 → wf_ranges lo hi l → 0 < aligned → aligned mod PAGE = 0 →
  first_fit l aligned = Some (addr, rest) →
  wf_ranges lo hi rest ∧ range_ok lo hi (mkRange addr aligned) ∧
  (∀ x, addr ≤ x < addr + aligned → covered l x ∧ ¬ covered rest x) ∧
  (∀ x, covered rest x ↔ covered l x ∧ ¬ (addr ≤ x < addr + aligned)).
Proof.
  intros Hlo0 Hhi. revert lo Hlo0 rest. induction l as [|r l IH]; intros lo Hlo0 rest Hwf Hal Ham; [done|]. destruct Hwf as [Hr Hl].
  cbn [first_fit]. destruct (Z.ltb_spec (r_size r) aligned) as [Hlt|Hge].
  - destruct (first_fit l aligned) as [[addr' rest']|] eqn:E; [|done]. intros [= -> <-].
    destruct (IH (r_start r + r_size r + 1) ltac:(unfold range_ok in *; lia) rest' Hl Hal Ham eq_refl)
      as (H1 & H2 & H3 & H4).
    split_and!.
    + done.
    + eapply range_ok_mono; [|exact H2]. unfold range_ok in *. lia.
    + intros x Hx. rewrite !covered_cons. destruct (H3 x Hx). split; [by right|].
      intros [Hin|?]; [|done]. unfold in_range, range_ok in *. simpl in *. lia.
    + intros x. rewrite !covered_cons, H4. unfold in_range, range_ok in *. simpl in *.
      split; [intros [?|?]; [split; [by left|lia]|tauto]|tauto].
  - cbn [r_size]. intros [= <- <-]. pose proof Hr as (R1 & R2 & R3 & R4 & R5).
    assert (∀ x, covered l x → r_start r + r_size r < x) as Habove.
    { intros x Hx. pose proof (wf_covered _ _ _ _ Hl Hx). lia. }
    rewrite wrap_small by (unfold in_width; lia).
    assert (range_ok lo hi (mkRange (r_start r) aligned)) as Hra.
    { unfold range_ok in *. simpl. lia. }
    destruct (Z.eqb_spec (r_size r - aligned) 0) as [Hz|Hz].
    + split_and!; [eapply wf_mono; [|exact Hl]; lia|done| |].
      * intros x Hx. rewrite covered_cons. unfold in_range. split; [left; lia|].
        intros Hc. specialize (Habove _ Hc). lia.
      * intros x. rewrite covered_cons. unfold in_range. split; [|intros [[?|?] ?]; [lia|done]].
        intros Hc. split; [by right|]. specialize (Habove _ Hc). lia.
    + split_and!; [|done| |].
      * split; [|eapply wf_mono; [|exact Hl]; simpl; lia]. unfold range_ok, PAGE in *. simpl.
        split_and!; try lia; dlia.
      * intros x Hx. rewrite !covered_cons. unfold in_range. simpl. split; [left; lia|].
        intros [?|Hc]; [lia|]. specialize (Habove _ Hc). lia.
      * intros x. rewrite !covered_cons. unfold in_range. simpl. split.
        { intros [?|Hc]; [split; [left|]; lia|]. specialize (Habove _ Hc). split; [by right|lia]. }
        { intros [[?|?] ?]; [left; lia|by right]. }
Qed.

(** * Backing pages with frames *)

Section Pages.
Context {P : Type} `{!PageMapper P, !PageMapperLaws P}.
Abbreviation state := (vm_state P).
Implicit Types (s : state) (p : P) (m : gmap Z Z).

(** The region vmalloc manages; the tables distinguish its pages. *)
Variables base hi : Z.
Hypothesis Hregion : 0 ≤ base ∧ hi < 2 ^ 64 ∧ hi - base ≤ 2 ^ 48.

Definition in_region (x : Z) : Prop := base ≤ x < hi ∧ x mod 4096 = 0.

Lemma vpage_region x y : in_region x → in_region y → vpage x = vpage y → x = y.
Proof.
  intros [Hx Hx'] [Hy Hy'] Hv. unfold vpage in Hv. destruct Hregion as (? & ? & ?).
  pose proof (Z.div_mod (x / 4096) (2 ^ 36) ltac:(lia)).
  pose proof (Z.div_mod (y / 4096) (2 ^ 36) ltac:(lia)).
  assert (x / 4096 - y / 4096 = 2 ^ 36 * (x / 4096 / 2 ^ 36 - y / 4096 / 2 ^ 36)) as Hd by lia.
  assert (- 2 ^ 36 < x / 4096 - y / 4096 < 2 ^ 36) by dlia.
  assert (x / 4096 = y / 4096) by nia. dlia.
Qed.

(** [m] maps the pages that are backed to their frames; no frame backs two. *)
Record owns p m : Prop := {
  owns_maps x f : m !! x = Some f → pm_maps p x f ∧ pm_owned p f;
  owns_frames x y f : m !! x = Some f → m !! y = Some f → x = y;
  owns_region x f : m !! x = Some f → in_region x
}.

Lemma owns_insert p p1 p2 m x f :
  owns p m → in_region x → m !! x = None →
  (∀ v g, pm_maps p v g → pm_maps p1 v g) → (∀ g, pm_owned p g → pm_owned p1 g) →
  pm_owned p1 f → ¬ pm_owned p f →
  (∀ v g, pm_maps p1 v g → pm_maps p2 v g) → (∀ g, pm_owned p1 g → pm_owned p2 g) →
  pm_maps p2 x f → owns p2 (<[x := f]> m).
Proof.
  intros [M F R] Hx Hn HM1 HO1 Hf Hnf HM2 HO2 Hmx. split.
  - intros y g. rewrite lookup_insert_Some. intros [[<- <-]|[_ Hy]]; [auto|].
    destruct (M _ _ Hy). auto.
  - intros y z g. rewrite !lookup_insert_Some.
    intros [[? ?]|[Hy1 Hy]] [[? ?]|[Hz1 Hz]]; subst; [done| | |by eapply F].
    + by destruct (M _ _ Hz).
    + by destruct (M _ _ Hy).
  - intros y g. rewrite lookup_insert_Some. intros [[<- <-]|[_ Hy]]; eauto.
Qed.

Lemma owns_keep p p' m :
  owns p m → (∀ v g, pm_maps p v g → pm_maps p' v g) → (∀ g, pm_owned p g → pm_owned p' g) →
  owns p' m.
Proof. intros [M F R] HM HO. split; [|done..]. intros x f Hx. destruct (M _ _ Hx). auto. Qed.

Lemma owns_delete p p1 p2 m x f :
  owns p m → m !! x = Some f →
  (∀ v g, vpage v ≠ vpage x → pm_maps p v g → pm_maps p1 v g) → (∀ g, pm_owned p g → pm_owned p1 g) →
  (∀ v g, pm_maps p1 v g → pm_maps p2 v g) → (∀ g, pm_owned p1 g → g ≠ f → pm_owned p2 g) →
  owns p2 (delete x m).
Proof.
  intros [M F R] Hx HM1 HO1 HM2 HO2. split.
  - intros y g [Hne Hy]%lookup_delete_Some. destruct (M _ _ Hy). split.
    + apply HM2, HM1; [|done]. intros Hv. apply Hne. symmetry. apply vpage_region; eauto.
    + apply HO2; [auto|]. intros ->. apply Hne. by eapply F.
  - intros y z g [_ Hy]%lookup_delete_Some [_ Hz]%lookup_delete_Some. by eapply F.
  - intros y g [_ Hy]%lookup_delete_Some. eauto.
Qed.

(** The [i]-th page of an allocation. *)
Definition page (addr : Z) (i : nat) : Z := addr + 4096 * Z.of_nat i.

Lemma page_region addr n i :
  range_ok base hi (mkRange addr (4096 * Z.of_nat n)) → (i < n)%nat → in_region (page addr i).
Proof. unfold range_ok, in_region, page, PAGE. simpl. intros Hr Hi. split; [lia|dlia]. Qed.

Lemma page_inj addr i j : page addr i = page addr j → i = j.
Proof. unfold page. lia. Qed.

(** The pages [k .. j-1] of [addr] got backed: only the manager state changed. *)
Record backed s s' (root addr : Z) (k j : nat) m m' : Prop := {
  backed_only : s' = set_pages (vm_pages s') s;
  backed_inv : pm_inv (vm_pages s');
  backed_root : pm_root (vm_pages s') = root;
  backed_owns : owns (vm_pages s') m';
  backed_old x f : m !! x = Some f → m' !! x = Some f;
  backed_dom x : is_Some (m' !! x) ↔ is_Some (m !! x) ∨ ∃ i, (k ≤ i < j)%nat ∧ x = page addr i;
  backed_busy v : pm_busy (vm_pages s') v ↔
    pm_busy (vm_pages s) v ∨ ∃ i, (k ≤ i < j)%nat ∧ vpage v = vpage (page addr i);
  backed_taken f : pm_owned (vm_pages s') f ↔
    pm_owned (vm_pages s) f ∨ ∃ i, (k ≤ i < j)%nat ∧ m' !! page addr i = Some f;
  backed_new i f : (k ≤ i < j)%nat → m' !! page addr i = Some f → ¬ pm_owned (vm_pages s) f
}.

Lemma backed_none s p root addr k m :
  pm_inv p → pm_root p = root → owns p m → (∀ v, pm_busy p v ↔ pm_busy (vm_pages s) v) →
  (∀ f, pm_owned p f ↔ pm_owned (vm_pages s) f) →
  backed s (set_pages p s) root addr k k m m.
Proof.
  intros H1 H2 H3 H4 H5. split; try done; simpl.
  - intros x. split; [auto|]. intros [?|(i & ? & _)]; [done|lia].
  - intros v. rewrite H4. split; [auto|]. intros [?|(i & ? & _)]; [done|lia].
  - intros f. rewrite H5. split; [auto|]. intros [?|(i & ? & _)]; [done|lia].
  - intros i f Hi. lia.
Qed.

Lemma backed_step s p s' root addr k j f m m' :
  (∀ v, pm_busy p v ↔ pm_busy (vm_pages s) v ∨ vpage v = vpage (page addr k)) →
  (∀ g, pm_owned p g ↔ pm_owned (vm_pages s) g ∨ g = f) → ¬ pm_owned (vm_pages s) f →
  m !! page addr k = None → (S k ≤ j)%nat →
  backed (set_pages p s) s' root addr (S k) j (<[page addr k := f]> m) m' →
  backed s s' root addr k j m m'.
Proof.
  intros Hb Ho Hof Hn Hj [H1 H2 H3 H4 H5 H6 H7 H8 H9]. simpl in H8, H9.
  assert (m' !! page addr k = Some f) as Hk by (apply H5, lookup_insert_eq). split; try done.
  - intros x g Hx. apply H5. rewrite lookup_insert_ne; [done|]. by intros <-; rewrite Hn in Hx.
  - intros x. rewrite H6, lookup_insert_is_Some'. split.
    + intros [[<-|?]|(i & ? & ->)]; [right; exists k; split; [lia|done]|by left|].
      right. exists i. split; [lia|done].
    + intros [?|(i & ? & ->)]; [by left; right|].
      destruct (decide (i = k)) as [->|]; [by left; left|]. right. exists i. split; [lia|done].
  - intros v. rewrite H7. simpl. rewrite Hb. split.
    + intros [[?|?]|(i & ? & ?)]; [by left|right; exists k; split; [lia|done]|].
      right. exists i. split; [lia|done].
    + intros [?|(i & ? & ?)]; [by left; left|].
      destruct (decide (i = k)) as [->|]; [by left; right|]. right. exists i. split; [lia|done].
  - intros g. rewrite H8, Ho. split.
    + intros [[?| ->]|(i & ? & ?)]; [by left|right; exists k; split; [lia|done]|].
      right. exists i. split; [lia|done].
    + intros [?|(i & ? & Hg)]; [by left; left|]. destruct (decide (i = k)) as [->|].
      * left. right. congruence.
      * right. exists i. split; [lia|done].
  - intros i g Hi Hg. destruct (decide (i = k)) as [->|]; [congruence|].
    intros Hgo. apply (H9 i g); [lia|done|]. apply Ho. by left.
Qed.

Lemma map_pages_spec n N root addr flags k s m :
  pm_inv (vm_pages s) → pm_root (vm_pages s) = root → owns (vm_pages s) m →
  range_ok base hi (mkRange addr (4096 * Z.of_nat N)) → (k + n ≤ N)%nat →
  (∀ i, (k ≤ i < k + n)%nat → m !! page addr i = None) →
  run table_oom (map_pages n root addr flags (4096 * Z.of_nat k) (4096 * Z.of_nat k)) (λ mapped s',
    ∃ j m', (k ≤ j ≤ k + n)%nat ∧ mapped = 4096 * Z.of_nat j ∧ backed s s' root addr k j m m') s.
Proof.
  intros Hinv Hroot Hown Hr Hle Hnew. revert k s m Hinv Hroot Hown Hle Hnew.
  induction n as [|n IH]; intros k s m Hinv Hroot Hown Hle Hnew; cbn [map_pages].
  { run_step. exists k, m. split_and!; [lia|lia|done|]. destruct s. by apply backed_none. }
  run_step. apply run_zoom. eapply run_weaken; [by apply pm_alloc_spec|done|].
  intros [f|] p1 (I1 & S1 & B1 & M1 & W1 & Hf); unfold pm_same in S1; rewrite Hroot in S1.
  2: { run_step. exists k, m. split_and!; [lia|lia|done|]. apply backed_none; try done; [|naive_solver].
       eapply owns_keep; [done|done|naive_solver]. }
  assert (∀ g, pm_owned (vm_pages s) g → pm_owned p1 g) as O1 by naive_solver.
  assert (pm_owned p1 f) as Hfo by naive_solver.
  destruct Hf as (_ & Hfn & Hfa & Hfr). run_step.
  assert (u64 (addr + 4096 * Z.of_nat k) = page addr k) as ->.
  { apply wrap_small. unfold range_ok, in_width, page in *. simpl in Hr. destruct Hregion. lia. }
  pose proof (page_region addr N k Hr ltac:(lia)) as Hk.
  apply run_zoom. eapply run_mono; [rewrite <- S1; by apply pm_map_spec|].
  intros ok p2 (I2 & S2 & W2 & M2 & B2 & Hok & Hko).
  assert (∀ g, pm_owned p1 g → pm_owned p2 g) as O2 by naive_solver. unfold pm_same in S2; simpl in S2; rewrite S1 in S2.
  destruct ok; cbn [negb].
  - destruct (Hok eq_refl) as [Hnb Hmp].
    replace (4096 * Z.of_nat k + PAGE) with (4096 * Z.of_nat (S k)) by (unfold PAGE; lia).
    eapply run_mono; [apply (IH (S k) _ (<[page addr k := f]> m)); simpl; try done|].
    + apply (owns_insert (vm_pages s) p1); try done; [apply Hnew; lia|by apply Hmp].
    + lia.
    + intros i Hi. rewrite lookup_insert_ne; [apply Hnew; lia|]. intros ?%page_inj. lia.
    + intros mapped s' (j & m' & Hj & -> & Hb). exists j, m'. split_and!; [lia|lia|done|].
      apply (backed_step s p2 s' root addr k j f); [| |done|apply Hnew; lia|lia|exact Hb].
      * intros v. rewrite B2. simpl. rewrite B1. naive_solver.
      * intros g. rewrite W2. simpl. rewrite W1. naive_solver.
  - rewrite (Hko eq_refl) in *. run_step. apply run_zoom. eapply run_weaken; [by apply pm_free_spec|done|].
    intros [] p3 (I3 & S3 & B3 & M3 & W3 & _). run_step. exists k, m. split_and!; [lia|lia|done|].
    apply (backed_none s p3); simpl in *; [done|by rewrite S3, S1| | |].
    + destruct Hown as [OM OF OR]. split; [|done..]. intros x g Hx. destruct (OM _ _ Hx).
      split; [auto|]. apply W3. split; [auto|]. by intros ->.
    + intros v. by rewrite B3, B1.
    + intros g. rewrite W3, W1. split; [|intros ?; split; [auto|by intros ->]].
      intros [[?|[= ->]] ?]; done.
Qed.

(** The pages [k .. j-1] of [addr] lost their backing. *)
Record unbacked s s' (root addr : Z) (k j : nat) m m' : Prop := {
  unbacked_only : s' = set_pages (vm_pages s') s;
  unbacked_inv : pm_inv (vm_pages s');
  unbacked_root : pm_root (vm_pages s') = root;
  unbacked_owns : owns (vm_pages s') m';
  unbacked_lookup x f : m' !! x = Some f ↔ m !! x = Some f ∧ ¬ ∃ i, (k ≤ i < j)%nat ∧ x = page addr i;
  unbacked_busy v : pm_busy (vm_pages s') v ↔
    pm_busy (vm_pages s) v ∧ ¬ ∃ i, (k ≤ i < j)%nat ∧ vpage v = vpage (page addr i);
  unbacked_owned f : pm_owned (vm_pages s') f ↔
    pm_owned (vm_pages s) f ∧ ¬ ∃ i, (k ≤ i < j)%nat ∧ m !! page addr i = Some f;
  unbacked_avail f : pm_avail (vm_pages s) f ∨ (∃ i, (k ≤ i < j)%nat ∧ m !! page addr i = Some f) →
    pm_avail (vm_pages s') f;
  unbacked_maps v f : (∀ i, (k ≤ i < j)%nat → vpage v ≠ vpage (page addr i)) →
    pm_maps (vm_pages s) v f → pm_maps (vm_pages s') v f
}.

Lemma unmap_pages_spec n N root addr k s m :
  pm_inv (vm_pages s) → pm_root (vm_pages s) = root → owns (vm_pages s) m →
  range_ok base hi (mkRange addr (4096 * Z.of_nat N)) → (k + n ≤ N)%nat →
  (∀ i, (k ≤ i < k + n)%nat → is_Some (m !! page addr i)) →
  wp (unmap_pages n root addr (4096 * Z.of_nat k)) (λ _ s',
    ∃ m', unbacked s s' root addr k (k + n) m m') s.
Proof.
  intros Hinv Hroot Hown Hr Hle Hnew. revert k s m Hinv Hroot Hown Hle Hnew.
  induction n as [|n IH]; intros k s m Hinv Hroot Hown Hle Hnew; cbn [unmap_pages].
  { run_step. exists m. split; try done; [by destruct s|..].
    - intros x f. split; [|tauto]. intros ?. split; [done|]. intros (i & ? & _). lia.
    - intros v. split; [|tauto]. intros ?. split; [done|]. intros (i & ? & _). lia.
    - intros f. split; [|tauto]. intros ?. split; [done|]. intros (i & ? & _). lia.
    - intros f [?|(i & ? & _)]; [done|lia]. }
  destruct (Hnew k ltac:(lia)) as [f Hf]. destruct (owns_maps _ _ Hown _ _ Hf) as [Hmf Hof].
  run_step.
  assert (u64 (addr + 4096 * Z.of_nat k) = page addr k) as ->.
  { apply wrap_small. unfold range_ok, in_width, page in *. simpl in Hr. destruct Hregion. lia. }
  apply run_zoom. eapply run_mono; [rewrite <- Hroot; by apply pm_unmap_spec|].
  intros [ok g] p1 (I1 & S1 & W1 & A1 & M1 & B1 & Hok & Hg).
  assert (∀ x, pm_owned (vm_pages s) x → pm_owned p1 x) as O1 by naive_solver. unfold pm_same in S1; rewrite Hroot in S1.
  cbn [fst snd] in *. assert (ok = true) as -> by (apply Hok; by eexists).
  assert (g = f) as -> by (eapply pm_maps_unique; [exact Hinv|by apply Hg|done]).
  run_step. apply run_zoom. eapply run_mono; [apply pm_free_spec; [done|by apply O1]|].
  intros [] p2 (I2 & S2 & B2 & M2 & W2 & A2).
  assert (∀ x, pm_owned p1 x → x ≠ f → pm_owned p2 x) as O2 by (intros; by apply W2).
  unfold pm_same in S2; simpl in *; rewrite S1 in S2.
  replace (4096 * Z.of_nat k + PAGE) with (4096 * Z.of_nat (S k)) by (unfold PAGE; lia).
  eapply run_mono; [apply (IH (S k) _ (delete (page addr k) m)); simpl; try done|].
  - by apply (owns_delete (vm_pages s) p1 p2 m (page addr k) f).
  - lia.
  - intros i Hi. rewrite lookup_delete_ne; [apply Hnew; lia|]. intros ?%page_inj. lia.
  - intros [] s' (m' & [H1 H2 H3 H4 H5 H6 H7 H8 H9]). exists m'. simpl in *.
    assert (∀ i g, (S k ≤ i)%nat → delete (page addr k) m !! page addr i = Some g ↔ m !! page addr i = Some g) as Hdel.
    { intros i g' Hi. rewrite lookup_delete_ne; [done|]. intros ?%page_inj. lia. }
    replace (k + S n)%nat with (S k + n)%nat by lia. split; try done.
    + intros x g. rewrite H5, lookup_delete_Some. split.
      * intros [[Hne Hx] Hno]. split; [done|]. intros (i & Hi & ->).
        destruct (decide (i = k)) as [->|]; [done|]. apply Hno. exists i. split; [lia|done].
      * intros [Hx Hno]. split; [split; [|done]|].
        { intros <-. apply Hno. exists k. split; [lia|done]. }
        { intros (i & Hi & ->). apply Hno. exists i. split; [lia|done]. }
    + intros v. rewrite H6, B2, B1. split.
      * intros [[Hb Hn] Hno]. split; [done|]. intros (i & Hi & Hv).
        destruct (decide (i = k)) as [->|]; [by apply Hn|]. apply Hno. exists i. split; [lia|done].
      * intros [Hb Hno]. split; [split; [done|]|].
        { intros [_ Hv]. apply Hno. exists k. split; [lia|done]. }
        { intros (i & Hi & Hv). apply Hno. exists i. split; [lia|done]. }
    + intros g. rewrite H7, W2, W1. split.
      * intros [[Hb Hn] Hno]. split; [done|]. intros (i & Hi & Hm).
        destruct (decide (i = k)) as [->|]; [congruence|]. apply Hno. exists i.
        rewrite Hdel by lia. split; [lia|done].
      * intros [Hb Hno]. split; [split; [done|]|].
        { intros ->. apply Hno. exists k. split; [lia|done]. }
        { intros (i & Hi & Hm). apply Hno. exists i. rewrite Hdel in Hm by lia. split; [lia|done]. }
    + intros g Hav. apply H8. rewrite A2. destruct Hav as [Hav|(i & Hi & Hm)]; [left; left; by apply A1|].
      destruct (decide (i = k)) as [->|]; [left; right; congruence|]. right. exists i.
      rewrite Hdel by lia. split; [lia|done].
    + intros v g Hv Hm. apply H9; [intros i Hi; apply Hv; lia|]. apply M2, M1; [|done]. apply Hv. lia.
Qed.
End Pages.

(** * The allocator's invariant *)

Fixpoint pairwise_disjoint (l : list vmalloc_range_t) : Prop :=
  match l with
  | [] => True
  | r :: l' => (∀ x, in_range r x → ¬ covered l' x) ∧ pairwise_disjoint l'
  end.

#[export] Instance covered_perm : Proper ((≡ₚ) ==> eq ==> iff) covered.
Proof. intros l l' Hl x ? <-. unfold covered. by setoid_rewrite Hl. Qed.

#[export] Instance pairwise_disjoint_perm : Proper ((≡ₚ) ==> iff) pairwise_disjoint.
Proof.
  assert (∀ l l', l ≡ₚ l' → pairwise_disjoint l → pairwise_disjoint l') as H; [|split; by apply H].
  induction 1 as [|r l l' Hp IH|r1 r2 l|l1 l2 l3 _ IH1 _ IH2]; simpl; [done| | |by auto].
  - intros [Hr Hl]. split; [|auto]. intros x Hx. rewrite <- Hp. auto.
  - setoid_rewrite covered_cons. intros (H1 & H2 & H3). split_and!; [|by naive_solver|done].
    intros x Hx [Hx'|Hx']; naive_solver.
Qed.

Section Alloc.
Context {P : Type} `{!PageMapper P, !PageMapperLaws P}.
Context (lay : kernel_layout).
Abbreviation state := (vm_state P).
Implicit Types (s : state) (live : list vmalloc_range_t).

(** [live] are the ranges handed out and not yet returned. *)
Record vm_inv s live : Prop := {
  vi_pages : pm_inv (vm_pages s);
  vi_unlocked : g_vmalloc_lock s = false;
  vi_init : g_vmalloc_initialized s = true;
  vi_root : pm_root (vm_pages s) ≠ 0;
  vi_region : 0 < g_vmalloc_base s ∧ g_vmalloc_end s < 2 ^ 64 ∧
    g_vmalloc_end s - g_vmalloc_base s ≤ 2 ^ 48 ∧ g_vmalloc_base s mod 4096 = 0;
  vi_free : wf_ranges (g_vmalloc_base s) (g_vmalloc_end s) (vm_free s);
  vi_live : Forall (range_ok (g_vmalloc_base s) (g_vmalloc_end s)) live;
  vi_disjoint : pairwise_disjoint live;
  vi_split x : g_vmalloc_base s ≤ x < g_vmalloc_end s → covered (vm_free s) x ↔ ¬ covered live x;
  vi_clear x : covered (vm_free s) x → ¬ pm_busy (vm_pages s) x;
  vi_backed : ∃ m, owns (g_vmalloc_base s) (g_vmalloc_end s) (vm_pages s) m ∧
    ∀ x, is_Some (m !! x) ↔ x mod 4096 = 0 ∧ covered live x
}.

Lemma vm_inv_relock s live : vm_inv s live → set_vm_lock false (set_vm_lock true s) = s.
Proof. intros [_ H _ _ _ _ _ _ _ _ _]. destruct s; simpl in *. by subst. Qed.

Lemma live_covered b h live x : Forall (range_ok b h) live → covered live x → b ≤ x < h.
Proof.
  intros Hl (r & Hr & Hx). eapply Forall_forall in Hl; [|exact Hr].
  unfold range_ok, in_range in *. lia.
Qed.

(** An address in the page of a page of a range is in the range. *)
Lemma vpage_range b h addr N i x :
  0 ≤ b ∧ h < 2 ^ 64 ∧ h - b ≤ 2 ^ 48 → b mod 4096 = 0 →
  range_ok b h (mkRange addr (4096 * Z.of_nat N)) → (i < N)%nat → b ≤ x < h →
  vpage x = vpage (page addr i) → addr ≤ x < addr + 4096 * Z.of_nat N.
Proof.
  intros Hreg Hb Hr Hi Hx Hv.
  assert (x / 4096 * 4096 = page addr i) as Hp.
  { apply (vpage_region b h Hreg); [|by eapply page_region|].
    - split; [dlia|]. by rewrite Z.mod_mul.
    - rewrite <- Hv. unfold vpage. by rewrite Z.div_mul. }
  unfold page in Hp. dlia.
Qed.

Lemma page_covered addr N x :
  addr mod 4096 = 0 → x mod 4096 = 0 → addr ≤ x < addr + 4096 * Z.of_nat N →
  ∃ i, (i < N)%nat ∧ x = page addr i.
Proof.
  intros Ha Hx Hr. exists (Z.to_nat ((x - addr) / 4096)). unfold page. split; dlia.
Qed.

(** Giving a range that is not free back, whose pages are unmapped. *)
Lemma free_range_inv s live addr n m :
  pm_inv (vm_pages s) → g_vmalloc_initialized s = true → pm_root (vm_pages s) ≠ 0 →
  0 < g_vmalloc_base s ∧ g_vmalloc_end s < 2 ^ 64 ∧
    g_vmalloc_end s - g_vmalloc_base s ≤ 2 ^ 48 ∧ g_vmalloc_base s mod 4096 = 0 →
  wf_ranges (g_vmalloc_base s) (g_vmalloc_end s) (vm_free s) →
  Forall (range_ok (g_vmalloc_base s) (g_vmalloc_end s)) live → pairwise_disjoint live →
  range_ok (g_vmalloc_base s) (g_vmalloc_end s) (mkRange addr n) →
  (∀ x, g_vmalloc_base s ≤ x < g_vmalloc_end s →
     covered (vm_free s) x ∨ addr ≤ x < addr + n ↔ ¬ covered live x) →
  (∀ x, covered (vm_free s) x ∨ addr ≤ x < addr + n → ¬ pm_busy (vm_pages s) x) →
  owns (g_vmalloc_base s) (g_vmalloc_end s) (vm_pages s) m →
  (∀ x, is_Some (m !! x) ↔ x mod 4096 = 0 ∧ covered live x) →
  run (λ msg, msg = "vmalloc: free list overflow"%string)
    (vmalloc_free_range addr n)
    (λ _ s', vm_inv (set_vm_lock false s') live ∧ vm_pages s' = vm_pages s) s.
Proof.
  intros Hp Hi Hrt Hreg Hf Hl Hd Hr Hsplit Hclear Hown Hdom. unfold vmalloc_free_range.
  pose proof Hr as (_ & Hn & _). simpl in Hn.
  destruct (Z.eqb_spec n 0); [lia|]. cbv iota. run_step. run_step.
  destruct (Z.of_nat (length (vm_free s)) >=? VMALLOC_MAX_RANGES); [by apply run_panic|].
  run_step.
  destruct (free_list_release (g_vmalloc_base s) (g_vmalloc_end s) addr n _ ltac:(lia) (proj1 (proj2 Hreg)) Hf Hr) as [Hwf Hcov].
  split; [|done]. split; simpl; try done.
  - intros x Hx. rewrite Hcov. auto.
  - intros x. rewrite Hcov. auto.
  - by exists m.
Qed.
(** Sizes that pass the overflow check are rounded up to whole pages. *)
Lemma vm_align size :
  0 < size < 2 ^ 64 →
  (align_up size PAGE <? size) = (2 ^ 64 - 4096 <? size) ∧
  (size ≤ 2 ^ 64 - 4096 → ∃ N, (0 < N)%nat ∧ align_up size PAGE = 4096 * Z.of_nat N ∧
     pages_of (align_up size PAGE) = N ∧ size ≤ 4096 * Z.of_nat N < size + 4096).
Proof.
  intros Hs. change PAGE with (2 ^ 12). destruct (Z.ltb_spec (2 ^ 64 - 4096) size).
  - rewrite align_up_wraps by lia. split; [by apply Z.ltb_lt; lia|lia].
  - rewrite align_up_exact by lia. change (2 ^ 12) with 4096. split; [apply Z.ltb_ge; dlia|].
    intros _. exists (Z.to_nat ((size + 4096 - 1) / 4096)). unfold pages_of, PAGE.
    rewrite Z.div_mul by lia. split_and!; dlia.
Qed.

Lemma pages_of_mul j : pages_of (4096 * Z.of_nat j) = j.
Proof. unfold pages_of, PAGE. rewrite Z.mul_comm, Z.div_mul by lia. lia. Qed.

(** The panics of the allocator. *)
Definition vm_panic (msg : string) : Prop :=
  table_oom msg ∨ msg = "vmalloc: free list overflow"%string.

(** Backing a range taken from the free list, and what follows. *)
Lemma vmalloc_back_spec s live addr N rest flags :
  vm_inv s live →
  first_fit (vm_free s) (4096 * Z.of_nat N) = Some (addr, rest) → (0 < N)%nat →
  run vm_panic
    (let! mapped := map_pages N (pm_root (vm_pages s)) addr flags 0 0 in
     if mapped =? 4096 * Z.of_nat N then vm_unlock;; ret addr
     else
       unmap_pages (pages_of mapped) (pm_root (vm_pages s)) addr 0;;
       vmalloc_free_range addr (4096 * Z.of_nat N);;
       vm_unlock;;
       ret 0)
    (λ r s', (r = 0 ∧ vm_inv s' live ∧ ∀ f, pm_owned (vm_pages s') f ↔ pm_owned (vm_pages s) f) ∨
             (r = addr ∧ addr ≠ 0 ∧ vm_inv s' (mkRange addr (4096 * Z.of_nat N) :: live)))
    (set_free rest (set_vm_lock true s)).
Proof.
  intros Hinv Hfit HN. pose proof Hinv as [V1 V2 V3 V4 V5 V6 V7 V8 V9 V10 (m & Hown & Hdom)].
  set (b := g_vmalloc_base s) in *. set (h := g_vmalloc_end s) in *.
  assert (0 ≤ b ∧ h < 2 ^ 64 ∧ h - b ≤ 2 ^ 48) as Hreg by lia.
  destruct (first_fit_spec b h (vm_free s) (4096 * Z.of_nat N) addr rest ltac:(lia) ltac:(lia) V6 ltac:(lia) ltac:(unfold PAGE; dlia) Hfit)
    as (F1 & F2 & F3 & F4).
  assert (addr mod 4096 = 0 ∧ b ≤ addr ∧ addr + 4096 * Z.of_nat N ≤ h) as (Ha & Hab & Hah).
  { destruct F2 as (? & ? & ? & ? & ?). simpl in *. done. }
  assert (∀ i, (i < N)%nat → m !! page addr i = None) as Hnew.
  { intros i Hi. apply eq_None_not_Some. rewrite Hdom. intros [_ Hc].
    destruct (F3 (page addr i)) as [Hf _]; [unfold page; lia|]. apply V9 in Hf; [done|]. unfold page; lia. }
  run_step. eapply run_weaken.
  { apply (map_pages_spec b h Hreg N N _ addr flags 0 _ m); try done. intros i Hi. apply Hnew. lia. }
  { by left. }
  intros mapped s1 (j & m1 & Hj & -> & [B1 B2 B3 B4 B5 B6 B7 B8 B9]). simpl in Hj, B1, B7, B8, B9.
  destruct (Z.eqb_spec (4096 * Z.of_nat j) (4096 * Z.of_nat N)) as [HjN|HjN].
  - assert (j = N) as -> by lia. run_step. apply run_release. run_step. right.
    split; [done|]. split; [lia|]. rewrite B1. split; simpl; try done; [congruence| | | | |].
    + by constructor.
    + split; [|done]. intros x Hx Hc. destruct (F3 x Hx) as [Hf _]. apply V9 in Hf; [done|].
      unfold in_range in Hx. simpl in Hx. lia.
    + intros x Hx. rewrite covered_cons, F4, V9 by done. unfold in_range. simpl. tauto.
    + intros x Hx. rewrite B7. apply F4 in Hx as [Hf Hno]. intros [?|(i & Hi & Hv)]; [by eapply V10|].
      apply Hno. apply (vpage_range b h addr N i); [done|tauto|done|lia|exact (wf_covered _ _ _ _ V6 Hf)|done].
    + exists m1. split; [done|]. intros x. rewrite B6, Hdom, covered_cons. unfold in_range. simpl. split.
      * intros [?|(i & Hi & ->)]; [tauto|]. unfold page. split; [dlia|left; lia].
      * intros [Hx [Hr|?]]; [right|by left]. destruct (page_covered addr N x) as (i & ? & ?); try done.
        exists i. split; [lia|done].
  - run_step. rewrite pages_of_mul. eapply run_weaken.
    { apply (unmap_pages_spec b h Hreg j N _ addr 0 s1 m1); try done; [lia|].
      intros i Hi. rewrite B6. right. exists i. split; [lia|done]. }
    { done. }
    intros [] s2 (m2 & [U1 U2 U3 U4 U5 U6 U7 _ _]). simpl in U5, U6, U7.
    assert (∀ x, is_Some (m2 !! x) ↔ is_Some (m !! x)) as Hdom2.
    { intros x. split.
      - intros [f Hf]. apply U5 in Hf as [Hf Hno]. destruct (proj1 (B6 x)) as [?|?]; [by eexists|done|done].
      - intros [f Hf]. exists f. apply U5. split; [by apply B5|]. intros (i & Hi & ->).
        rewrite Hnew in Hf by lia. done. }
    assert (∀ x, pm_busy (vm_pages s2) x → pm_busy (vm_pages s) x) as Hbusy.
    { intros x. rewrite U6, B7. tauto. }
    assert (vm_free s2 = rest ∧ g_vmalloc_base s2 = b ∧ g_vmalloc_end s2 = h ∧
      g_vmalloc_initialized s2 = true) as (E1 & E2 & E3 & E4) by (rewrite U1, B1; done).
    apply run_bind. eapply run_weaken.
    { eapply (free_range_inv s2 live addr (4096 * Z.of_nat N) m2); rewrite ?E1, ?E2, ?E3, ?E4; try done.
      - congruence.
      - intros x Hx. rewrite F4, V9 by done. split; [intros [[? _]|Hr]; [done|]|].
        + destruct (F3 x Hr) as [Hf _]. by apply V9 in Hf.
        + intros ?. destruct (decide (addr ≤ x < addr + 4096 * Z.of_nat N)); tauto.
      - intros x Hx Hb. apply (V10 x); [|by apply Hbusy]. destruct Hx as [Hx|Hx]; [by apply F4|by apply F3].
      - intros x. by rewrite Hdom2. }
    { by right. }
    intros [] s3 [Hs3 Hpg]. run_step. apply run_release. run_step. left. split_and!; [done..|].
    intros f. simpl. rewrite Hpg, U7, B8. split; [tauto|]. intros Hf. split; [by left|].
    intros (i & Hi & Hm). by apply (B9 i f).
Qed.
Lemma vmalloc_spec s live size flags :
  vm_inv s live → in_width 64 size →
  run vm_panic (vmalloc lay size flags) (λ addr s',
    (addr = 0 ∧ vm_inv s' live ∧ ∀ f, pm_owned (vm_pages s') f ↔ pm_owned (vm_pages s) f) ∨
    (addr ≠ 0 ∧ 0 < size ∧ size ≤ align_up size PAGE < size + 4096 ∧
     vm_inv s' (mkRange addr (align_up size PAGE) :: live))) s.
Proof.
  intros Hinv Hsz. unfold in_width in Hsz. unfold vmalloc.
  destruct (Z.eqb_spec size 0); [run_steps; by left|]. cbv iota.
  destruct (vm_align size ltac:(lia)) as [Hg Ha]. rewrite Hg.
  destruct (Z.ltb_spec (2 ^ 64 - 4096) size); [run_steps; by left|].
  destruct Ha as (N & HN & Hal & Hpg & Hle); [lia|]. rewrite Hpg, Hal.
  pose proof (vm_inv_relock _ _ Hinv) as Hlk. pose proof Hinv as [V1 V2 V3 V4 V5 V6 V7 V8 V9 V10 V11].
  run_step. apply run_acquire; [done|]. run_step. unfold vmalloc_init_once_locked. run_step. run_step.
  simpl. rewrite V3. run_step. cbn [negb]. run_step. run_step. simpl.
  destruct (first_fit (vm_free s) (4096 * Z.of_nat N)) as [[addr rest]|] eqn:Hfit.
  2: { run_step. apply run_release. run_step. left. by rewrite Hlk. }
  run_step. run_step. run_step. run_step. simpl.
  destruct (Z.eqb_spec (pm_root (vm_pages s)) 0); [done|]. cbv iota.
  eapply run_mono; [by apply (vmalloc_back_spec s live addr N rest flags)|].
  intros r s' [?|(-> & ? & ?)]; [by left|right]. split_and!; try done; lia.
Qed.

(** What returning the range [r] does to the pages below: each of its pages had a
    frame, which is free again; these are the only frames the caller lost, the
    range has no translation left and no other page lost its frame. *)
Record released (p p' : P) (r : vmalloc_range_t) : Prop := {
  rel_frames x : in_range r x → x mod 4096 = 0 →
    ∃ f, pm_maps p x f ∧ pm_owned p f ∧ pm_avail p' f ∧ ¬ pm_owned p' f;
  rel_owned f : pm_owned p' f ↔
    pm_owned p f ∧ ¬ ∃ x, in_range r x ∧ x mod 4096 = 0 ∧ pm_maps p x f;
  rel_gone x : in_range r x → ¬ pm_busy p' x;
  rel_others x f : (∀ y, in_range r y → vpage x ≠ vpage y) → pm_maps p x f → pm_maps p' x f
}.

Lemma unbacked_released s s' root addr N m m' :
  owns (g_vmalloc_base s) (g_vmalloc_end s) (vm_pages s) m → pm_inv (vm_pages s) → addr mod 4096 = 0 →
  unbacked (g_vmalloc_base s) (g_vmalloc_end s) s s' root addr 0 N m m' →
  (∀ i, (i < N)%nat → is_Some (m !! page addr i)) →
  released (vm_pages s) (vm_pages s') (mkRange addr (4096 * Z.of_nat N)).
Proof.
  intros Hown Hinv Ha [_ _ _ _ U5 U6 U7 U8 U9] Hall.
  assert (∀ x, in_range (mkRange addr (4096 * Z.of_nat N)) x → x mod 4096 = 0 →
    ∃ i f, (i < N)%nat ∧ x = page addr i ∧ m !! x = Some f ∧ pm_maps (vm_pages s) x f ∧ pm_owned (vm_pages s) f) as Hpg.
  { intros x Hx Hx4. destruct (page_covered addr N x) as (i & Hi & ->); [done..|].
    destruct (Hall i Hi) as [f Hf]. exists i, f. split_and!; try done; by eapply owns_maps. }
  split.
  - intros x Hx Hx4. destruct (Hpg x Hx Hx4) as (i & f & Hi & -> & Hf & Hm & Ho).
    exists f. split_and!; [done|done| |].
    + apply U8. right. exists i. split; [lia|done].
    + rewrite U7. intros [_ Hno]. apply Hno. exists i. split; [lia|done].
  - intros f. rewrite U7. split; intros [Ho Hno]; (split; [done|]).
    + intros (x & Hx & Hx4 & Hm). destruct (Hpg x Hx Hx4) as (i & g & Hi & -> & Hg & Hmg & _).
      rewrite (pm_maps_unique _ _ _ _ Hinv Hmg Hm) in Hg. apply Hno. exists i. split; [lia|done].
    + intros (i & Hi & Hf). apply Hno. exists (page addr i). unfold in_range, page. simpl.
      split_and!; [lia|lia|dlia|]. by eapply owns_maps.
  - intros x Hx. rewrite U6. intros [_ Hno]. apply Hno. unfold in_range in Hx. simpl in Hx.
    destruct (page_covered addr N (x / 4096 * 4096)) as (i & Hi & Hp); [done|by rewrite Z.mod_mul|dlia|].
    exists i. split; [lia|]. rewrite <- Hp. unfold vpage. by rewrite Z.div_mul.
  - intros x f Hne Hm. apply U9; [|done]. intros i Hi. apply Hne. unfold in_range, page. simpl. lia.
Qed.

Lemma vfree_spec s l1 l2 addr size :
  vm_inv s (l1 ++ mkRange addr (align_up size PAGE) :: l2) → 0 < size ≤ 2 ^ 64 - 4096 →
  run (λ msg, msg = "vmalloc: free list overflow"%string) (vfree addr size)
    (λ _ s', vm_inv s' (l1 ++ l2) ∧
      released (vm_pages s) (vm_pages s') (mkRange addr (align_up size PAGE))) s.
Proof.
  intros Hinv Hsz. pose proof Hinv as [V1 V2 V3 V4 V5 V6 V7 V8 V9 V10 (m & Hown & Hdom)].
  destruct (vm_align size ltac:(lia)) as [Hg Ha]. destruct Ha as (N & HN & Hal & Hpg & Hle); [lia|].
  unfold vfree. rewrite Hg, Hpg. rewrite Hal in *.
  set (b := g_vmalloc_base s) in *. set (h := g_vmalloc_end s) in *.
  assert (0 ≤ b ∧ h < 2 ^ 64 ∧ h - b ≤ 2 ^ 48) as Hreg by lia.
  rewrite <- (Permutation_middle l1) in V7, V8. setoid_rewrite <- (Permutation_middle l1) in V9.
  setoid_rewrite <- (Permutation_middle l1) in Hdom. setoid_rewrite covered_cons in V9.
  setoid_rewrite covered_cons in Hdom. unfold in_range in V9, Hdom. simpl in V8, V9, Hdom.
  apply Forall_cons in V7 as [Hr V7]. destruct V8 as [Hdisj V8].
  assert (addr mod 4096 = 0 ∧ b ≤ addr ∧ addr + 4096 * Z.of_nat N ≤ h) as (Hal4 & Hab & Hah).
  { destruct Hr as (? & ? & ? & ? & ?). done. }
  destruct (Z.eqb_spec addr 0); [lia|]. destruct (Z.eqb_spec size 0); [lia|]. cbn [orb]. cbv iota.
  change (PAGE - 1) with (2 ^ 12 - 1). rewrite land_ones_mod by lia. change (2 ^ 12) with 4096.
  rewrite Hal4, Z.eqb_refl. cbn [negb]. destruct (Z.ltb_spec (2 ^ 64 - 4096) size); [lia|]. cbv iota.
  run_step. apply run_acquire; [done|]. run_step. run_step. simpl. rewrite V3. cbn [negb].
  fold b h. rewrite wrap_small by (unfold in_width; lia).
  destruct (Z.ltb_spec addr b); [lia|]. destruct (Z.geb_spec addr h); [lia|].
  destruct (Z.gtb_spec addr (h - 4096 * Z.of_nat N)); [lia|]. cbn [orb]. cbv iota.
  destruct (Z.eqb_spec (pm_root (vm_pages s)) 0); [done|]. cbv iota. run_step. eapply run_weaken.
  { apply (unmap_pages_spec b h Hreg N N _ addr 0 (set_vm_lock true s) m); try done.
    intros i Hi. apply Hdom. unfold page. split; [dlia|left; lia]. }
  { done. }
  intros [] s2 (m2 & Hun). pose proof Hun as [U1 U2 U3 U4 U5 U6 _ _ _]. simpl in U1, U5, U6.
  assert (vm_free s2 = vm_free s ∧ g_vmalloc_base s2 = b ∧ g_vmalloc_end s2 = h ∧
    g_vmalloc_initialized s2 = true) as (E1 & E2 & E3 & E4) by (rewrite U1; done).
  run_step. eapply run_mono.
  { eapply (free_range_inv s2 (l1 ++ l2) addr (4096 * Z.of_nat N) m2);
      rewrite ?E1, ?E2, ?E3, ?E4; try done.
    - congruence.
    - intros x Hx. rewrite V9 by done. split.
      + intros [?|Hin]; [tauto|]. by apply Hdisj.
      + intros Hn. destruct (decide (addr ≤ x < addr + 4096 * Z.of_nat N)); [by right|left; tauto].
    - intros x Hx. rewrite U6. intros [Hb Hno]. destruct Hx as [Hx|Hx]; [by eapply V10|]. apply Hno.
      destruct (page_covered addr N (x / 4096 * 4096)) as (i & Hi & Hp); [done|by rewrite Z.mod_mul|dlia|].
      exists i. split; [lia|]. rewrite <- Hp. unfold vpage. by rewrite Z.div_mul.
    - intros x. split.
      + intros [f [Hf Hno]%U5]. destruct (proj1 (Hdom x)) as [Hx Hc]; [by eexists|]. split; [done|].
        destruct Hc as [Hin|?]; [|done]. exfalso. apply Hno.
        destruct (page_covered addr N x) as (i & ? & ?); try done. exists i. split; [lia|done].
      + intros [Hx Hc]. destruct (proj2 (Hdom x)) as [f Hf]; [tauto|]. exists f. apply U5.
        split; [done|]. intros (i & Hi & ->). apply (Hdisj (page addr i)); [|done].
        unfold in_range, page. simpl. lia. }
  intros [] s3 [Hs3 Hpages]. apply run_release. split; [done|]. simpl. rewrite Hpages.
  apply (unbacked_released (set_vm_lock true s) s2 _ addr N m m2 Hown V1 Hal4 Hun).
  intros i Hi. apply Hdom. unfold page. split; [dlia|left; lia].
Qed.

(** * Initialisation *)

(** Layouts whose kernel image and direct map end well below the top of the
    address space, so that no rounding wraps. *)
Definition region_layout_ok (highest : Z) : Prop :=
  0 < kernel_virtual_end lay ≤ 2 ^ 64 - 2 ^ 30 ∧ 0 ≤ g_hhdm_offset lay ∧
  g_hhdm_offset lay mod 4096 = 0 ∧ 0 < highest ∧ g_hhdm_offset lay + highest ≤ 2 ^ 64 - 2 ^ 30.

(** The region starts above the kernel image and avoids the direct map. *)
Lemma vmalloc_region_spec highest base size :
  region_layout_ok highest → vmalloc_region lay highest = Some (base, size) →
  0 < base ∧ base mod 4096 = 0 ∧ 4096 ≤ size ≤ VMALLOC_DEFAULT_SIZE ∧ size mod 4096 = 0 ∧
  base + size < 2 ^ 64 ∧ kernel_virtual_end lay ≤ base ∧
  (base + size ≤ g_hhdm_offset lay ∨ g_hhdm_offset lay + highest ≤ base).
Proof.
  intros (Hk & Hh0 & Hh4 & Hp & Hh) Hreg. unfold vmalloc_region in Hreg. revert Hreg.
  set (hh := g_hhdm_offset lay) in *. set (ke := kernel_virtual_end lay) in *.
  change PAGE with (2 ^ 12).
  rewrite (align_up_exact ke), (align_up_exact highest) by lia. change (2 ^ 12) with 4096.
  set (kend := (ke + 4096 - 1) / 4096 * 4096). set (span := (highest + 4096 - 1) / 4096 * 4096).
  assert (ke ≤ kend < ke + 4096 ∧ kend mod 4096 = 0) as [Hke Hke4] by (unfold kend; dlia).
  assert (highest ≤ span < highest + 4096 ∧ span mod 4096 = 0) as [Hsp Hsp4] by (unfold span; dlia).
  clearbody kend span. rewrite (wrap_small 64 (hh + span)) by (unfold in_width; lia).
  destruct (Z.ltb_spec (hh + span) hh); [lia|]. cbv iota zeta.
  set (b0 := if (kend >=? hh) && (kend <? hh + span) then hh + span else kend).
  assert (b0 mod 4096 = 0 ∧ ke ≤ b0 ≤ 2 ^ 64 - 2 ^ 30 + 8192 ∧ (b0 < hh ∨ hh + span ≤ b0)) as (Hb4 & Hb & Hbh).
  { unfold b0. destruct (Z.geb_spec kend hh), (Z.ltb_spec kend (hh + span)); simpl; split_and!; try lia; dlia. }
  clearbody b0. change 4096 with (2 ^ 12). rewrite align_up_exact by lia. change (2 ^ 12) with 4096.
  replace ((b0 + 4096 - 1) / 4096 * 4096) with b0 by dlia.
  unfold range_end, VMALLOC_DEFAULT_SIZE. rewrite wrap_small by (unfold in_width; lia).
  destruct (Z.ltb_spec (b0 + 256 * 1024 * 1024) b0); [lia|]. cbv iota.
  destruct (Z.ltb_spec b0 hh); simpl.
  - destruct (Z.gtb_spec (b0 + 256 * 1024 * 1024) hh).
    + destruct (Z.leb_spec hh b0); [done|]. destruct (Z.ltb_spec (hh - b0) 4096); [done|].
      intros [= <- <-]. split_and!; try lia; dlia.
    + intros [= <- <-]. split_and!; try lia; dlia.
  - intros [= <- <-]. split_and!; try lia; dlia.
Qed.

Lemma vmalloc_init_spec s :
  let highest := pm_highest (vm_pages s) in
  g_vmalloc_initialized s = false → g_vmalloc_lock s = false →
  pm_inv (vm_pages s) → pm_root (vm_pages s) ≠ 0 → region_layout_ok highest →
  (∀ base size, vmalloc_region lay highest = Some (base, size) →
     ∀ x, base ≤ x < base + size → ¬ pm_busy (vm_pages s) x) →
  wp (vmalloc_init lay) (λ _ s',
    match vmalloc_region lay highest with
    | Some (base, size) =>
        if pm_ready (vm_pages s)
        then vm_inv s' [] ∧ g_vmalloc_base s' = base ∧ g_vmalloc_end s' = base + size
        else s' = s
    | None => s' = s
    end) s.
Proof.
  intros highest Hi Hl Hp Hr Hlay Hclear. unfold vmalloc_init. run_step. apply run_acquire; [done|].
  assert (set_vm_lock false (set_vm_lock true s) = s) as Hlk by (destruct s; simpl in *; by subst).
  run_step. unfold vmalloc_init_once_locked. run_step. run_step. simpl. rewrite Hi. fold highest.
  destruct (pm_ready (vm_pages s)); cbn [negb].
  2: { run_step. apply run_release. rewrite Hlk. by destruct (vmalloc_region lay highest) as [[? ?]|]. }
  destruct (Z.eqb_spec highest 0); [unfold region_layout_ok in Hlay; lia|].
  destruct (Z.eqb_spec highest UINT64_MAX); [unfold region_layout_ok, UINT64_MAX in *; lia|]. cbn [orb].
  destruct (vmalloc_region lay highest) as [[base size]|] eqn:E.
  2: { run_step. apply run_release. done. }
  destruct (vmalloc_region_spec highest base size Hlay E) as (R1 & R2 & R3 & R4 & R5 & R6 & R7).
  unfold VMALLOC_DEFAULT_SIZE in *. run_step. run_step. run_step. apply run_release. simpl.
  rewrite wrap_small by (unfold in_width; lia).
  split_and!; [|done|done]. split; simpl; try done; [lia|split; [|done]| | |].
  - unfold range_ok, PAGE. simpl. lia.
  - intros x Hx. rewrite covered_cons, !covered_nil. unfold in_range. simpl. split; [tauto|lia].
  - intros x. rewrite covered_cons, covered_nil. unfold in_range. simpl. intros [Hx|[]]. by eapply Hclear.
  - exists ∅. split; [split|]; try (intros; by rewrite lookup_empty in * ).
    intros x. rewrite lookup_empty, covered_nil. split; [by intros []|tauto].
Qed.

(** * Clients *)

(** A client may allocate and release what it was given. *)
Inductive vm_step : state * list vmalloc_range_t → state * list vmalloc_range_t → Prop :=
  | vm_alloc s s' live size flags addr :
      in_width 64 size → vmalloc lay size flags s = Ok (addr, s') → addr ≠ 0 →
      vm_step (s, live) (s', mkRange addr (align_up size PAGE) :: live)
  | vm_alloc_fails s s' live size flags :
      in_width 64 size → vmalloc lay size flags s = Ok (0, s') → vm_step (s, live) (s', live)
  | vm_release s s' l1 l2 addr size :
      0 < size ≤ 2 ^ 64 - 4096 → vfree addr size s = Ok (tt, s') →
      vm_step (s, l1 ++ mkRange addr (align_up size PAGE) :: l2) (s', l1 ++ l2).

Lemma vm_step_inv c c' : vm_step c c' → vm_inv c.1 c.2 → vm_inv c'.1 c'.2.
Proof.
  intros [s s' live size flags addr Hsz Hrun Hne|s s' live size flags Hsz Hrun|s s' l1 l2 addr size Hsz Hrun] Hinv;
    simpl in *.
  - destruct (run_Ok _ _ _ _ _ _ (vmalloc_spec s live size flags Hinv Hsz) Hrun) as [(-> & _)|(_ & _ & _ & ?)]; done.
  - destruct (run_Ok _ _ _ _ _ _ (vmalloc_spec s live size flags Hinv Hsz) Hrun) as [(_ & ? & _)|(? & _)]; done.
  - exact (proj1 (run_Ok _ _ _ _ _ _ (vfree_spec s l1 l2 addr size Hinv Hsz) Hrun)).
Qed.

Lemma vm_steps_inv c c' : rtc vm_step c c' → vm_inv c.1 c.2 → vm_inv c'.1 c'.2.
Proof. induction 1; eauto using vm_step_inv. Qed.

(** * Properties *)

(** C6. [vmalloc] in the invariant: it returns with the invariant kept, or panics
    for lack of a page-table frame or because the free list is full. A null
    result leaves the set of allocations as it was, and the frames held for them
    (pages that had been backed before a failure are unmapped and their frames
    returned); a non-null result
    is a fresh page-aligned range of the rounded-up size inside the region,
    disjoint from every live allocation, each of whose pages is mapped to a
    frame of its own. *)
Theorem vmalloc_correct s live size flags :
  vm_inv s live → in_width 64 size →
  run vm_panic (vmalloc lay size flags) (λ addr s',
    (addr = 0 ∧ vm_inv s' live ∧ ∀ f, pm_owned (vm_pages s') f ↔ pm_owned (vm_pages s) f) ∨
    (addr ≠ 0 ∧ 0 < size ∧ size ≤ align_up size PAGE < size + 4096 ∧
     vm_inv s' (mkRange addr (align_up size PAGE) :: live))) s.
Proof. apply vmalloc_spec. Qed.

(** C28. [vfree] of a live allocation with its size: every page of it had a frame and
    that frame is free again, no address of it has a translation left, no other
    frame changed hands and every page elsewhere keeps its frame; the
    allocation's addresses join the free list and all other allocations stay as
    they are. The only panic is a full free list. *)
Theorem vfree_correct s l1 l2 addr size :
  vm_inv s (l1 ++ mkRange addr (align_up size PAGE) :: l2) → 0 < size ≤ 2 ^ 64 - 4096 →
  run (λ msg, msg = "vmalloc: free list overflow"%string) (vfree addr size)
    (λ _ s', vm_inv s' (l1 ++ l2) ∧
      released (vm_pages s) (vm_pages s') (mkRange addr (align_up size PAGE))) s.
Proof. apply vfree_spec. Qed.

(** Over any sequence of allocations and releases: live allocations never
    overlap, and an address of the region is free exactly when no live
    allocation contains it - nothing is lost and nothing is handed out twice. *)
Theorem vmalloc_clients_disjoint s s' live :
  vm_inv s [] → rtc vm_step (s, []) (s', live) →
  pairwise_disjoint live ∧
  (∀ x, g_vmalloc_base s' ≤ x < g_vmalloc_end s' → covered (vm_free s') x ↔ ¬ covered live x) ∧
  (∀ x, covered live x → x mod 4096 = 0 → ∃ f, pm_maps (vm_pages s') x f ∧ pm_owned (vm_pages s') f).
Proof.
  intros Hinv Hsteps. pose proof (vm_steps_inv _ _ Hsteps Hinv) as [V1 V2 V3 V4 V5 V6 V7 V8 V9 V10 (m & Hown & Hdom)].
  split_and!; [done|done|]. intros x Hc Hx. destruct (proj2 (Hdom x)) as [f Hf]; [done|].
  exists f. by apply (owns_maps _ _ _ _ Hown).
Qed.

(** [vmalloc_init] before first use, on page tables that leave the region
    unmapped: if the managers below are ready and the layout leaves room, the
    allocator ends in its invariant with nothing allocated; the region starts
    above the kernel image, is page aligned, at most 256 MiB long and does not
    meet the direct map. Otherwise nothing changes. *)
Theorem vmalloc_init_correct s :
  let highest := pm_highest (vm_pages s) in
  g_vmalloc_initialized s = false → g_vmalloc_lock s = false →
  pm_inv (vm_pages s) → pm_root (vm_pages s) ≠ 0 → region_layout_ok highest →
  (∀ base size, vmalloc_region lay highest = Some (base, size) →
     ∀ x, base ≤ x < base + size → ¬ pm_busy (vm_pages s) x) →
  wp (vmalloc_init lay) (λ _ s',
    match vmalloc_region lay highest with
    | Some (base, size) =>
        if pm_ready (vm_pages s)
        then vm_inv s' [] ∧ g_vmalloc_base s' = base ∧ g_vmalloc_end s' = base + size ∧
             base mod 4096 = 0 ∧ size ≤ VMALLOC_DEFAULT_SIZE ∧ kernel_virtual_end lay ≤ base ∧
             (base + size ≤ g_hhdm_offset lay ∨ g_hhdm_offset lay + highest ≤ base)
        else s' = s
    | None => s' = s
    end) s.
Proof.
  intros highest H1 H2 H3 H4 H5 H6. eapply run_mono; [by apply vmalloc_init_spec|].
  intros [] s'. fold highest. destruct (vmalloc_region lay highest) as [[base size]|] eqn:E; [|done].
  destruct (pm_ready _); [|done]. intros (? & ? & ?).
  destruct (vmalloc_region_spec highest base size H5 E) as (R1 & R2 & R3 & R4 & R5 & R6 & R7).
  split_and!; try done; lia.
Qed.
End Alloc.
