(* ===== verification/VmallocDemo.v ===== *)
(** vmalloc on the concrete machine: bitmap allocator, page tables and vmalloc
    composed through their contracts, with the hypotheses of the vmalloc
    theorems discharged. *)

From S2P Require Import Prelude Boot Pmm Paging PageTree PagingSpec PagingProps Mapper PagingMapper Vmalloc VmallocSpec.

(** vmalloc before its first use, over the fresh address space. *)
Definition demo_vm0 : vm_state (paging_state pmm_state) := mkVm [] 0 0 false false demo_paging.

Lemma demo_pm_inv : pm_inv demo_paging.
Proof. split; [reflexivity|]. exists demo_tables. exact demo_space. Qed.

Lemma demo_not_busy x : ¬ pm_busy demo_paging x.
Proof.
  rewrite busy_walk. intros H. apply H. apply walk_absent. unfold ent, entry, load. simpl.
  by rewrite lookup_empty.
Qed.

Lemma demo_region_ok : region_layout_ok demo_layout (pm_highest (vm_pages demo_vm0)).
Proof.
  change (pm_highest (vm_pages demo_vm0)) with 49152. unfold region_layout_ok. simpl.
  split_and!; [lia|lia|lia|reflexivity|lia|lia].
Qed.

Lemma vmalloc_init_correct_witness :
  wp (vmalloc_init demo_layout) (λ _ s',
    match vmalloc_region demo_layout (pm_highest (vm_pages demo_vm0)) with
    | Some (base, size) =>
        if pm_ready (vm_pages demo_vm0)
        then vm_inv s' [] ∧ g_vmalloc_base s' = base ∧ g_vmalloc_end s' = base + size ∧
             base mod 4096 = 0 ∧ size ≤ VMALLOC_DEFAULT_SIZE ∧ kernel_virtual_end demo_layout ≤ base ∧
             (base + size ≤ g_hhdm_offset demo_layout ∨
              g_hhdm_offset demo_layout + pm_highest (vm_pages demo_vm0) ≤ base)
        else s' = demo_vm0
    | None => s' = demo_vm0
    end) demo_vm0.
Proof.
  apply (vmalloc_init_correct demo_layout demo_vm0); try reflexivity.
  - exact demo_pm_inv.
  - vm_compute. discriminate.
  - exact demo_region_ok.
  - intros base size _ x _. apply demo_not_busy.
Defined.

Definition demo_vm : vm_state (paging_state pmm_state) :=
  match vmalloc_init demo_layout demo_vm0 with Ok (_, s) => s | _ => demo_vm0 end.

Lemma demo_vm_inv : vm_inv demo_vm [].
Proof.
  assert (vmalloc_init demo_layout demo_vm0 = Ok (tt, demo_vm)) as Hrun by (vm_compute; reflexivity).
  pose proof (run_Ok _ _ _ _ _ _ (vmalloc_init_spec demo_layout demo_vm0 eq_refl eq_refl demo_pm_inv
    ltac:(vm_compute; discriminate) demo_region_ok (λ _ _ _ x _, demo_not_busy x)) Hrun) as H.
  cbv beta in H.
  assert (vmalloc_region demo_layout (pm_highest (vm_pages demo_vm0)) =
    Some (2 ^ 64 - 2 ^ 31 + 8192, VMALLOC_DEFAULT_SIZE)) as E by (vm_compute; reflexivity).
  rewrite E in H. assert (pm_ready (vm_pages demo_vm0) = true) as E' by (vm_compute; reflexivity).
  rewrite E' in H. apply H.
Qed.

Lemma vmalloc_correct_witness :
  run vm_panic (vmalloc demo_layout 100 1) (λ addr s',
    (addr = 0 ∧ vm_inv s' [] ∧ ∀ f, pm_owned (vm_pages s') f ↔ pm_owned (vm_pages demo_vm) f) ∨
    (addr ≠ 0 ∧ 0 < 100 ∧ 100 ≤ align_up 100 PAGE < 100 + 4096 ∧
     vm_inv s' [mkRange addr (align_up 100 PAGE)])) demo_vm.
Proof. exact (vmalloc_correct demo_layout demo_vm [] 100 1 demo_vm_inv ltac:(split; lia)). Defined.

(** The state after one allocation, which succeeds. *)
Definition demo_vm1 : vm_state (paging_state pmm_state) :=
  match vmalloc demo_layout 100 1 demo_vm with Ok (_, s) => s | _ => demo_vm end.
Definition demo_addr : Z := 2 ^ 64 - 2 ^ 31 + 8192.

Lemma demo_alloc_runs : vmalloc demo_layout 100 1 demo_vm = Ok (demo_addr, demo_vm1).
Proof. vm_compute. reflexivity. Qed.

#[local] Opaque demo_vm demo_vm1.

Lemma demo_vm1_inv : vm_inv demo_vm1 [mkRange demo_addr (align_up 100 PAGE)].
Proof.
  apply (vm_step_inv demo_layout (demo_vm, [])
           (demo_vm1, [mkRange demo_addr (align_up 100 PAGE)])); [|exact demo_vm_inv].
  apply (vm_alloc demo_layout _ _ [] 100 1 demo_addr); [split; lia|exact demo_alloc_runs|discriminate].
Qed.

Lemma vfree_correct_witness :
  run (λ msg, msg = "vmalloc: free list overflow"%string) (vfree demo_addr 100)
    (λ _ s', vm_inv s' [] ∧
      released (vm_pages demo_vm1) (vm_pages s') (mkRange demo_addr (align_up 100 PAGE))) demo_vm1.
Proof. apply (vfree_correct demo_vm1 [] [] demo_addr 100); [exact demo_vm1_inv|lia]. Defined.

Lemma vmalloc_clients_disjoint_witness :
  pairwise_disjoint [mkRange demo_addr (align_up 100 PAGE)] ∧
  (∀ x, g_vmalloc_base demo_vm1 ≤ x < g_vmalloc_end demo_vm1 →
     covered (vm_free demo_vm1) x ↔ ¬ covered [mkRange demo_addr (align_up 100 PAGE)] x) ∧
  (∀ x, covered [mkRange demo_addr (align_up 100 PAGE)] x → x mod 4096 = 0 →
     ∃ f, pm_maps (vm_pages demo_vm1) x f ∧ pm_owned (vm_pages demo_vm1) f).
Proof.
  apply (vmalloc_clients_disjoint demo_layout demo_vm); [exact demo_vm_inv|].
  eapply rtc_l; [|apply rtc_refl].
  apply (vm_alloc demo_layout _ _ [] 100 1 demo_addr); [split; lia|exact demo_alloc_runs|discriminate].
Defined.

#[local] Transparent demo_vm demo_vm1.

(** Allocate and free on the machine: the free list is one range again and the
    four frames (one page, three tables) are back. *)
Example demo_vm_round_trip :
  match vfree demo_addr 100 demo_vm1 with
  | Ok (_, s) => vm_free s = vm_free demo_vm ∧
      free_pages (g_pmm_info (pg_frames (vm_pages s))) =
      free_pages (g_pmm_info (pg_frames (vm_pages demo_vm)))
  | _ => False
  end.
Proof. vm_compute. done. Qed.
