(* ===== verification/Startup.v ===== *)
(** Memory start-up (kernel/memory.c): [mem_init] runs the frame allocator's, the page
    tables' and the virtual region allocator's initialisation one after the other, on
    the memory map and the tables the boot loader leaves. *)

From S2P Require Import Prelude Frames Boot Pmm Paging PageTree PagingSpec PagingInit Mapper PagingMapper PageHuge PagingInitSpec PagingInitProps Vmalloc VmallocSpec.

(** * What the page-table bring-up leaves alone *)

Section Keeps.
Context {A : Type} `{!FrameAllocator A, !FrameInfo A, !FrameInfoLaws A}.
Abbreviation state := (paging_state A).

(** What the allocator says of itself, seen through the page-table state. *)
Definition frame_facts (s : state) : bool * Z := (frames_ready (pg_frames s), frames_highest (pg_frames s)).

Lemma on_frames_keeps {B} (m : M A B) :
  keeps (λ a, (frames_ready a, frames_highest a)) m → keeps frame_facts (on_frames m).
Proof. apply keeps_zoom; done. Qed.
#[local] Hint Resolve on_frames_keeps try_alloc_frame_keeps free_frame_keeps : keeps_db.

Lemma zero_table_facts p (s : state) : frame_facts (zero_table p s) = frame_facts s.
Proof.
  unfold zero_table. generalize (seqZ 0 512). intros l. revert s. induction l as [|i l IH]; intros s; [done|]. cbn [foldl]. by rewrite IH.
Qed.

Lemma alloc_table_page_keeps : keeps frame_facts (alloc_table_page (A := A)).
Proof. unfold alloc_table_page. keeps_steps; [apply zero_table_facts|done]. Qed.
#[local] Hint Resolve alloc_table_page_keeps : keeps_db.

Lemma get_or_create_keeps p i user : keeps frame_facts (get_or_create_table (A := A) p i user).
Proof. unfold get_or_create_table. by keeps_steps. Qed.
#[local] Hint Resolve get_or_create_keeps : keeps_db.

Lemma map_page_4k_keeps root v p flags : keeps frame_facts (map_page_4k (A := A) root v p flags).
Proof. unfold map_page_4k. by keeps_steps. Qed.

Lemma map_page_2m_keeps root v p flags : keeps frame_facts (map_page_2m (A := A) root v p flags).
Proof. unfold map_page_2m. by keeps_steps. Qed.
#[local] Hint Resolve map_page_4k_keeps map_page_2m_keeps : keeps_db.

Lemma map_range_pages_keeps n root old v k : keeps frame_facts (map_range_pages (A := A) n root old v k).
Proof.
  revert v k. induction n as [|n IH]; intros v k; cbn [map_range_pages]; [by keeps_steps|].
  unfold ensure_page_mapping. by keeps_steps.
Qed.
#[local] Hint Resolve map_range_pages_keeps : keeps_db.

Lemma reclaim_entries_keeps es a b r : keeps frame_facts (reclaim_entries (A := A) es a b r).
Proof.
  assert (∀ n p r, keeps frame_facts (reclaim_pages (A := A) n p a b r)) as Hp.
  { induction n as [|n IH]; intros p r'; cbn [reclaim_pages]; by keeps_steps. }
  revert r. induction es as [|e es IH]; intros r; cbn [reclaim_entries]; by keeps_steps.
Qed.
#[local] Hint Resolve reclaim_entries_keeps : keeps_db.

(** [paging_init] takes frames and gives frames back, and changes nothing else of the
    allocator that its clients ask for. *)
Lemma paging_init_keeps lay mm fb rsp : keeps frame_facts (paging_init (A := A) lay mm fb rsp).
Proof.
  unfold paging_init, map_kernel_range_from_old_cr3, map_hhdm_range, map_framebuffer, passthrough,
    map_range_from_old_cr3, reclaim_bootloader_reclaimable, paging_load_cr3, paging_read_cr3, spin_lock, spin_unlock.
  keeps_steps; done.
Qed.
End Keeps.

(** * mem_init (kernel/memory.c) *)

Abbreviation mem_state := (vm_state (paging_state pmm_state)).

(** [fb] is the frame buffer the boot loader reports and [rsp] the stack pointer that
    [paging_init] reads. *)
Definition mem_init (lay : kernel_layout) (g_memory_map : BootMemoryMap) (fb : BootFramebuffer) (rsp : Z)
  : M mem_state unit :=
  on_pages (on_frames (pmm_init lay (Some g_memory_map)));;
  on_pages (paging_init lay (Some g_memory_map) fb rsp);;
  vmalloc_init lay.

Section MemInit.
Context (lay : kernel_layout) (mm : BootMemoryMap) (fb : BootFramebuffer) (rsp : Z).

(** What the boot loader and the linker script have to provide.  The state is the one
    the kernel starts with; [boot_span] is the size of the direct map. *)
Definition boot_span : Z := (max_physical_end mm + 4095) / 4096 * 4096.

Definition usable_frame (p : Z) : Prop := usable_covers (map_entries mm) (p / 4096).

Record boot_ok (s : mem_state) : Prop := {
  boot_map : map_missing (Some mm) = false;
  boot_entries : Forall entry_in_range (map_entries mm);
  boot_layout : layout_ok lay;
  boot_kernel : kernel_ok lay;
  boot_hhdm : hhdm_ok lay boot_span;
  boot_apart : g_hhdm_offset lay + boot_span ≤ kernel_virtual_start lay;
  boot_stack : window_ok (stack_window rsp) ∧ (stack_window rsp).2 ≤ kernel_virtual_start lay;
  boot_fb : fb_ok fb ∧ (fb_window fb).2 ≤ kernel_virtual_start lay;
  boot_regions : Forall region_fits (map_entries mm);
  boot_reclaim q : reclaimable (map_entries mm) q → ¬ usable_frame q;
  boot_tables : undisturbed usable_frame (vm_pages s) 3 (old_root (vm_pages s));
  boot_zero : g_pmm_lock (pg_frames (vm_pages s)) = false ∧ g_paging_lock (vm_pages s) = false ∧
    g_paging_initialized (vm_pages s) = false ∧ g_paging_info (vm_pages s) = mkPagingInfo false 0 0 0 0 0 0 0 ∧
    g_vmalloc_initialized s = false ∧ g_vmalloc_lock s = false
}.

(** The frame allocator after its initialisation. *)
Definition frames_up (a : pmm_state) : Prop :=
  pmm_inv a ∧ total_pages (g_pmm_info a) = (max_physical_end mm + 4095) / 4096 ∧
  highest_physical_address (g_pmm_info a) = max_physical_end mm ∧ ∀ p, page_free a p ↔ initially_free lay mm a p.

Lemma undisturbed_mono (F G : Z → Prop) (s s' : paging_state pmm_state) k p :
  (∀ q, G q → F q) → (∀ q i, entry s' q i = entry s q i) → undisturbed F s k p → undisturbed G s' k p.
Proof.
  intros HFG He. revert p. induction k as [|k IH]; intros p (Hp & HF & Hk); (split; [done|]; split; [by auto|]); [done|].
  intros i Hi. rewrite He. intros Hpr. destruct (Hk i Hi Hpr) as [H|H]; [by left|right; by apply IH].
Qed.

Lemma reclaimable_managed a q :
  Forall entry_in_range (map_entries mm) → frames_up a → reclaimable (map_entries mm) q → managed a q.
Proof.
  intros Hes (_ & Ht & _) (e & He & _ & Hq & Hb & Hend). destruct (max_physical_end_spec mm Hes) as [_ Hmax].
  specialize (Hmax e He). pose proof (proj1 (Forall_forall _ _) Hes e He) as [[Hb0 _] _].
  unfold managed. rewrite Ht. unfold PMM_PAGE_SIZE. split; [done|]. dlia.
Qed.

Lemma free_usable_frame a q : frames_up a → frame_free a q → usable_frame q ∧ q ≠ 0.
Proof.
  intros (_ & _ & _ & Hf) [Hq Hp]. apply Hf in Hp as (_ & Hu & H0 & _). split; [exact Hu|]. intros ->. by apply H0.
Qed.

(** After [pmm_init] the state is one [paging_init] can start from. *)
Lemma boot_init_ok s a :
  boot_ok s → frames_up a → init_ok lay (set_frames a (vm_pages s)) mm fb rsp.
Proof.
  intros [B1 B2 B3 B4 B5 B6 [B7 _] [B8 _] B9 B10 B11 (Z1 & Z2 & Z3 & Z4 & _)] Hup. pose proof Hup as (Hinv & Ht & Hh & Hf).
  assert (frames_highest (pg_frames (set_frames a (vm_pages s))) = max_physical_end mm) as Hhi by exact Hh.
  assert (span_of (set_frames a (vm_pages s)) = boot_span) as Hspan by (unfold span_of; by rewrite Hhi).
  pose proof B5 as (_ & _ & Hs & _). unfold boot_span in Hs.
  assert (0 < total_pages (g_pmm_info a)) as Hpos by (destruct Hinv as [_ ? _ _]; lia).
  split; try done.
  - split; [exact Hinv|]. change (total_pages (g_pmm_info a) ≤ 2 ^ 40). rewrite Ht. dlia.
  - exact (inv_initialized _ Hinv).
  - rewrite Hhi. rewrite Ht in Hpos. dlia.
  - by rewrite Hspan.
  - by rewrite Hspan.
  - eapply (undisturbed_mono usable_frame _ (vm_pages s)); [|done|exact B11]. intros q Hq. by apply (free_usable_frame a).
  - intros q Hq. split; [by apply reclaimable_managed|]. intros Hfree. apply (B10 q Hq). by apply (free_usable_frame a).
Qed.

(** The region of the allocator lies above the kernel image. *)
Lemma boot_region s :
  boot_ok s → region_layout_ok lay (max_physical_end mm) →
  vmalloc_region lay (max_physical_end mm) = Some (align_up (kernel_virtual_end lay) PAGE, VMALLOC_DEFAULT_SIZE).
Proof.
  intros Hb (R1 & R2 & R3 & R4 & R5). pose proof (boot_apart s Hb) as Hap. pose proof (boot_kernel s Hb) as (_ & _ & Hk).
  pose proof (boot_hhdm s Hb) as (_ & _ & Hs & _). unfold boot_span in *.
  unfold vmalloc_region. change PAGE with (2 ^ 12). rewrite (align_up_exact (kernel_virtual_end lay)), (align_up_exact (max_physical_end mm)) by lia.
  replace (max_physical_end mm + 2 ^ 12 - 1) with (max_physical_end mm + 4095) by lia. change (2 ^ 12) with 4096.
  set (span := (max_physical_end mm + 4095) / 4096 * 4096) in *. set (kend := (kernel_virtual_end lay + 4096 - 1) / 4096 * 4096).
  assert (kernel_virtual_end lay ≤ kend < kernel_virtual_end lay + 4096 ∧ kend mod 4096 = 0) as [Hke Hk4] by (unfold kend; dlia). clearbody kend span.
  rewrite (wrap_small 64 (g_hhdm_offset lay + span)) by (unfold in_width; lia).
  rewrite (proj2 (Z.ltb_ge (g_hhdm_offset lay + span) _)) by lia. rewrite (proj2 (Z.ltb_ge kend (g_hhdm_offset lay + span))) by lia. rewrite andb_false_r.
  change 4096 with (2 ^ 12). rewrite align_up_exact by lia. replace ((kend + 2 ^ 12 - 1) / 2 ^ 12 * 2 ^ 12) with kend by dlia.
  rewrite (proj2 (Z.ltb_ge kend _)) by lia. reflexivity.
Qed.

(** No page of that region is mapped by the new tables. *)
Lemma boot_region_clear s a s' x :
  boot_ok s → frames_up a → paging_up lay (set_frames a (vm_pages s)) s' mm fb rsp →
  align_up (kernel_virtual_end lay) PAGE ≤ x < 2 ^ 64 → ¬ pm_busy s' x.
Proof.
  intros Hb (_ & _ & Hh & _) Hup Hx Hbusy. pose proof (boot_kernel s Hb) as (K1 & K2 & K3). pose proof (boot_apart s Hb) as Hap.
  pose proof (boot_stack s Hb) as [_ Hst]. pose proof (boot_fb s Hb) as [_ Hfb].
  assert (span_of (set_frames a (vm_pages s)) = boot_span) as Hspan by (unfold span_of; cbn in Hh |- *; unfold pmm_get_info; by rewrite Hh).
  change PAGE with (2 ^ 12) in Hx. rewrite align_up_exact in Hx by lia.
  apply Hbusy. rewrite (up_root _ _ _ _ _ _ Hup), (up_walk _ _ _ _ _ _ Hup x) by (right; dlia).
  pose proof (boot_hhdm s Hb) as (G1 & _ & Hs & _). unfold new_map, base_map, kernel_map, fill, over. rewrite Hspan.
  repeat (rewrite (proj2 (within_false _ _ _)); [|unfold hhdm_first, kernel_first, kernel_pages, end_page in *; dlia]). done.
Qed.

Definition boot_panic (s : mem_state) (msg : string) : Prop :=
  init_panics mm msg ∨ ∃ a, frames_up a ∧ init_panic lay (set_frames a (vm_pages s)) fb rsp msg.

(** Memory is up: all three managers work, on the address space in CR3. *)
Definition mem_up (s s' : mem_state) : Prop :=
  (∃ a, frames_up a ∧ paging_up lay (set_frames a (vm_pages s)) (vm_pages s') mm fb rsp) ∧
  vm_inv s' [] ∧ g_vmalloc_base s' = align_up (kernel_virtual_end lay) PAGE ∧
  g_vmalloc_end s' = g_vmalloc_base s' + VMALLOC_DEFAULT_SIZE.

Lemma vmalloc_init_keeps : keeps vm_pages (vmalloc_init (P := paging_state pmm_state) lay).
Proof. unfold vmalloc_init, vmalloc_init_once_locked, vm_lock, vm_unlock. keeps_steps; done. Qed.

Lemma mem_init_spec s : boot_ok s → run (boot_panic s) (mem_init lay mm fb rsp) (λ _ s', mem_up s s') s.
Proof.
  intros Hb. pose proof Hb as [B1 B2 B3 B4 B5 B6 B7 B8 B9 B10 B11 (Z1 & Z2 & Z3 & Z4 & Z5 & Z6)].
  unfold mem_init, on_pages, on_frames. run_step. apply run_zoom. apply run_zoom.
  eapply run_weaken; [by apply pmm_init_spec|intros msg Hm; by left|]. intros [] a Ha.
  pose proof (boot_init_ok s a Hb Ha) as Hok.
  run_step. apply run_zoom. eapply run_weaken; [exact (run_keeps _ _ _ _ _ (paging_init_keeps lay (Some mm) fb rsp) (paging_init_spec lay _ _ _ _ Hok))|intros msg Hm; right; by exists a|].
  intros [] p [Hup Hfacts].
  assert (frames_highest (pg_frames p) = max_physical_end mm) as Hhi by (injection Hfacts as _ H; exact (eq_trans H (proj1 (proj2 (proj2 Ha))))).
  assert (frames_ready (pg_frames p) = true) as Hrd by (injection Hfacts as H _; exact (eq_trans H (inv_initialized _ (proj1 Ha)))).
  assert (region_layout_ok lay (max_physical_end mm)) as Hreg.
  { destruct B4 as (K1 & K2 & K3), B5 as (G1 & G2 & G3 & G4 & G5). pose proof (ok_highest _ _ _ _ _ Hok) as Hpos.
    change (0 < highest_physical_address (g_pmm_info a)) in Hpos. destruct Ha as (_ & _ & Hh & _). rewrite Hh in Hpos. unfold boot_span in *. split_and!; dlia. }
  destruct (up_tables _ _ _ _ _ _ Hup) as (T & Hs & Hfrom & _). pose proof (up_root _ _ _ _ _ _ Hup) as Hroot.
  pose proof (tree_root _ _ _ (proj1 Hs)) as HTr. 
  assert (Z.land (cr3 p) ENTRY_ADDR_MASK_4K = cr3 p) as Hmask by (apply mask4k_frame; eapply tree_frame_addr; [apply Hs|done]).
  destruct (free_usable_frame a (cr3 p) Ha (Hfrom _ _ HTr)) as [_ Hnz].
  eapply run_weaken; [refine (run_keeps _ _ _ _ _ vmalloc_init_keeps (vmalloc_init_spec lay _ _ _ _ _ _ _))|done|]; cbn [vm_pages set_pages g_vmalloc_initialized g_vmalloc_lock].
  - exact Z5.
  - exact Z6.
  - split; [apply Hup|]. exists T. unfold root_of. rewrite Hroot, Hmask. exact Hs.
  - change (root_pml4_phys (g_paging_info p) ≠ 0). by rewrite Hroot.
  - change (region_layout_ok lay (frames_highest (pg_frames p))). by rewrite Hhi.
  - intros b sz. change (pm_highest p) with (frames_highest (pg_frames p)). rewrite Hhi. intros Er x Hx.
    apply (boot_region_clear s a p x Hb Ha Hup). pose proof (vmalloc_region_spec _ _ _ _ Hreg Er) as (_ & _ & _ & _ & Hlt & _).
    rewrite (boot_region s Hb Hreg) in Er. injection Er as <- <-. lia.
  - intros [] s' [Hv Hp]. cbn [vm_pages set_pages] in Hp. change (pm_highest p) with (frames_highest (pg_frames p)) in Hv. rewrite Hhi, (boot_region s Hb Hreg) in Hv.
    assert (pm_ready p = true) as Hr by (change (frames_ready (pg_frames p) && g_paging_initialized p = true); rewrite Hrd; apply Hup).
    rewrite Hr in Hv. destruct Hv as (Hv & Hb1 & He1). split; [exists a; by rewrite Hp|]. split_and!; [done|done|by rewrite He1, Hb1].
Qed.

(** C4. Memory start-up on what the boot loader leaves.  [mem_init] panics only if the
    map has no memory or no room for the bitmap, if frames for tables run out, or if
    the old tables lack (or contradict) a page that has to be kept.  Otherwise all
    three managers are up together: the frame allocator held exactly the usable frames
    when the page tables were built from it, the new address space is loaded, well
    formed and translates as the new page map says, and the virtual region allocator
    satisfies its invariant with nothing allocated, on the 256 MiB above the kernel
    image, no page of which is mapped. *)
Theorem mem_init_correct s : boot_ok s → run (boot_panic s) (mem_init lay mm fb rsp) (λ _ s', mem_up s s') s.
Proof. apply mem_init_spec. Qed.
End MemInit.
