(* ===== verification/StartupDemo.v ===== *)
(** A boot on a concrete machine: the memory map, the tables and the stack a boot
    loader could leave, on which the hypotheses of the start-up theorems hold. *)

From S2P Require Import Prelude Frames Boot Pmm Paging PageTree PagingSpec PagingInit Mapper PagingMapper PageHuge PagingInitSpec PagingInitProps Vmalloc VmallocSpec Startup.

(** * Deciding that no old table lies in usable memory *)

Fixpoint undisturbed_b (F : Z → bool) (s : paging_state pmm_state) (k : nat) (p : Z) : bool :=
  (p mod 4096 =? 0) && negb (F p) &&
  match k with
  | O => true
  | S k' => forallb (λ i, let e := entry s p i in
      if has e PAGE_PRESENT then
        if bool_decide (k ≤ 2)%nat && has e PAGE_PS then true
        else undisturbed_b F s k' (Z.land e ENTRY_ADDR_MASK_4K)
      else true) (seqZ 0 512)
  end.

Lemma undisturbed_b_sound (F : Z → Prop) Fb s k p :
  (∀ q, F q → Fb q = true) → undisturbed_b Fb s k p = true → undisturbed F s k p.
Proof.
  intros HF. revert p. induction k as [|k IH]; intros p; cbn [undisturbed_b undisturbed];
    rewrite !andb_true_iff, negb_true_iff, Z.eqb_eq; intros [[Hp Hn] Hk].
  all: (split; [done|]; split; [intros HFp; by rewrite (HF _ HFp) in Hn|]). { done. }
  intros i Hi Hpr. rewrite forallb_forall in Hk. specialize (Hk i). cbv zeta in Hk.
  rewrite Hpr in Hk. destruct (bool_decide (S k ≤ 2)%nat && has (entry s p i) PAGE_PS) eqn:Hps.
  - left. by rewrite andb_true_iff, bool_decide_eq_true in Hps.
  - right. apply IH, Hk, list_elem_of_In, elem_of_seqZ. lia.
Qed.

Definition usable_b (mm : BootMemoryMap) (p : Z) : bool :=
  existsb (λ e, (type e =? MEMMAP_USABLE) && bool_decide (page_within (p / 4096) (base e) (entry_end e))) (map_entries mm).

Lemma usable_b_complete mm p : usable_frame mm p → usable_b mm p = true.
Proof.
  intros (e & He & Ht & Hw). unfold usable_b. apply existsb_exists. exists e. split; [by apply list_elem_of_In|].
  by rewrite andb_true_iff, Z.eqb_eq, bool_decide_eq_true.
Qed.

(** * The machine

    8.25 MiB of memory.  The boot loader's tables and stack lie in its own region; its
    direct map is five 2 MiB pages, the last of which also shows the frame buffer. *)

Definition mach_lay : kernel_layout :=
  mkLayout 0xffff800000000000 0x30000 0x32000 0xffffffff80000000 0xffffffff80002000.

Definition mach_mm : BootMemoryMap :=
  mkMap (Some [mkEntry 0x10000 0x20000 5; mkEntry 0x30000 0x2000 6; mkEntry 0x40000 0x800000 0]) 3.

Definition mach_fb : BootFramebuffer := mkFb 0xffff800000900000 1024 4 4096 32 0 0 0 0 0 0.

Definition mach_rsp : Z := 0xffff80000002c000.

Definition mach_mem : gmap Z Z := list_to_map [
  (slot 0x11000 256, 0x12003); (slot 0x11000 511, 0x14003);
  (slot 0x12000 0, 0x13003); (slot 0x13000 0, 0x83); (slot 0x13000 1, 0x200083);
  (slot 0x13000 2, 0x400083); (slot 0x13000 3, 0x600083); (slot 0x13000 4, 0x800083);
  (slot 0x14000 510, 0x15003); (slot 0x15000 0, 0x16003);
  (slot 0x16000 0, 0x30003); (slot 0x16000 1, 0x31003)].

Definition mach_pages : paging_state pmm_state :=
  mkPaging mach_mem pmm_zero (mkPagingInfo false 0 0 0 0 0 0 0) false false false false 0x11000 0 [].

Definition mach_start : mem_state := mkVm [] 0 0 false false mach_pages.

Lemma mach_reclaim q : reclaimable (map_entries mach_mm) q → ¬ usable_frame mach_mm q.
Proof.
  intros (e & He & Ht & Hq & Hb & Hend) (e' & He' & Ht' & Hw). unfold page_within, PMM_PAGE_SIZE in Hw.
  apply list_elem_of_In in He, He'. simpl in He, He'.
  repeat match goal with H : _ ∨ _ |- _ => destruct H | H : False |- _ => destruct H end; subst; try done.
  replace (entry_end (mkEntry 0x10000 0x20000 5)) with 0x30000 in Hend by (vm_compute; reflexivity). cbn [base] in Hw. dlia.
Qed.

Lemma mach_boot_ok : boot_ok mach_lay mach_mm mach_fb mach_rsp mach_start.
Proof.
  assert (max_physical_end mach_mm = 0x840000) as Hm by (vm_compute; reflexivity).
  assert (boot_span mach_mm = 0x840000) as Hs by (unfold boot_span; by rewrite Hm).
  assert (stack_window mach_rsp = (0xffff80000001c000, 0xffff80000003c000)) as Hw by (vm_compute; reflexivity).
  assert (fb_window mach_fb = (0xffff800000900000, 0xffff800000904000)) as Hf by (vm_compute; reflexivity).
  split.
  - reflexivity.
  - repeat (constructor; [unfold entry_in_range, in_width; cbn; lia|]). constructor.
  - unfold layout_ok. cbn. lia.
  - unfold kernel_ok. cbn [kernel_virtual_start kernel_virtual_end mach_lay]. split; [reflexivity|lia].
  - rewrite Hs. unfold hhdm_ok. cbn [g_hhdm_offset mach_lay]. split_and!; [reflexivity|reflexivity|lia..].
  - rewrite Hs. cbn. lia.
  - rewrite Hw. unfold window_ok. cbn. lia.
  - unfold fb_ok, window_ok. rewrite Hf. cbn. lia.
  - repeat (constructor; [unfold region_fits; cbn; lia|]). constructor.
  - exact mach_reclaim.
  - apply (undisturbed_b_sound _ (usable_b mach_mm)); [apply usable_b_complete|]. vm_compute. reflexivity.
  - repeat split.
Qed.

Lemma mach_returns : is_ok (mem_init mach_lay mach_mm mach_fb mach_rsp mach_start) = true.
Proof. vm_compute. reflexivity. Qed.

(** It returns: all three managers are up. *)
Lemma mem_init_correct_witness :
  ∃ r s', mem_init mach_lay mach_mm mach_fb mach_rsp mach_start = Ok (r, s') ∧
    mem_up mach_lay mach_mm mach_fb mach_rsp mach_start s'.
Proof.
  exact (run_is_ok _ _ _ _ (mem_init_correct mach_lay mach_mm mach_fb mach_rsp mach_start mach_boot_ok) mach_returns).
Defined.

(** The state after [mem_init]. *)
Definition mach_up : mem_state := state_after (mem_init mach_lay mach_mm mach_fb mach_rsp) mach_start.

(** Seven tables, four large pages and 64 small ones of the direct map, the two pages of
    the kernel and four of the frame buffer; the stack is in the direct map already, and
    of the boot loader's 32 pages 20 are near the stack. *)
Example mach_counts :
  g_paging_info (vm_pages mach_up) = mkPagingInfo true 0x41000 7 2 4 64 4 12 ∧
  translate (vm_pages mach_up) 0x41000 0xffffffff80001234 = Some 0x31234 ∧
  translate (vm_pages mach_up) 0x41000 0xffff800000903008 = Some 0x903008 ∧
  translate (vm_pages mach_up) 0x41000 0xffff800000840000 = None ∧
  g_vmalloc_base mach_up = 0xffffffff80002000.
Proof. split_and!; vm_compute; reflexivity. Qed.

(** The allocator after [pmm_init]. *)
Definition mach_frames : pmm_state :=
  match pmm_init mach_lay (Some mach_mm) pmm_zero with Ok (_, s) => s | _ => pmm_zero end.

Lemma mach_frames_up : frames_up mach_lay mach_mm mach_frames.
Proof.
  assert (pmm_init mach_lay (Some mach_mm) pmm_zero = Ok (tt, mach_frames)) as H by (vm_compute; reflexivity).
  exact (run_Ok _ _ _ _ _ _ (pmm_init_spec mach_lay mach_mm pmm_zero (boot_entries _ _ _ _ _ mach_boot_ok)
    (boot_layout _ _ _ _ _ mach_boot_ok) eq_refl) H).
Qed.

Lemma mach_paging_returns :
  is_ok (paging_init mach_lay (Some mach_mm) mach_fb mach_rsp (set_frames mach_frames mach_pages)) = true.
Proof. vm_compute. reflexivity. Qed.

Lemma paging_init_correct_witness :
  let s := set_frames mach_frames mach_pages in
  (∃ r s', paging_init mach_lay (Some mach_mm) mach_fb mach_rsp s = Ok (r, s') ∧
    paging_up mach_lay s s' mach_mm mach_fb mach_rsp).
Proof.
  exact (run_is_ok _ _ _ _ (paging_init_correct mach_lay (set_frames mach_frames mach_pages) mach_mm mach_fb mach_rsp
    (boot_init_ok _ _ _ _ mach_start _ mach_boot_ok mach_frames_up)) mach_paging_returns).
Defined.
