(* ===== verification/Kmalloc.v ===== *)
(** The kernel heap (include/kmalloc.h, mm/kmalloc.c): blocks with a 48-byte header
    in front of the payload, chained in address order for coalescing and in a
    doubly-linked free list.

    [km_heap] maps the address of a header to its fields; addresses stand for
    pointers and 0 is the null pointer.  A header comes into being when its
    fields are first written.  Pools come from [vmalloc] through the
    [RegionAllocator] contract. *)

From S2P Require Import Prelude Vmalloc VmallocSpec.

Definition KMALLOC_POOL_SIZE : Z := 4 * 1024 * 1024.
Definition KMALLOC_ALIGN : Z := 16.
Definition HEADER : Z := 48.
Definition KMALLOC_MIN_SPLIT : Z := HEADER + KMALLOC_ALIGN.
Definition KMALLOC_MAGIC_FREE : Z := 0xFEEBEEFD.
Definition KMALLOC_MAGIC_USED : Z := 0xDEADBEEF.
(** [PAGING_FLAG_WRITABLE | PAGING_FLAG_GLOBAL] *)
Definition VMALLOC_DEFAULT_FLAGS : Z := Z.lor (Z.shiftl 1 0) (Z.shiftl 1 3).

Record kmalloc_block_t : Type := mkBlock {
  k_magic : Z;
  k_free : Z;
  k_size : Z;
  next_phys : Z;
  next_free : Z;
  prev_free : Z
}.

(** Memory in which no header was written yet. *)
Definition raw_block : kmalloc_block_t := mkBlock 0 0 0 0 0 0.

Definition with_tag (magic free : Z) (b : kmalloc_block_t) : kmalloc_block_t :=
  mkBlock magic free (k_size b) (next_phys b) (next_free b) (prev_free b).
Definition with_size (n : Z) (b : kmalloc_block_t) : kmalloc_block_t :=
  mkBlock (k_magic b) (k_free b) n (next_phys b) (next_free b) (prev_free b).
Definition with_next_phys (a : Z) (b : kmalloc_block_t) : kmalloc_block_t :=
  mkBlock (k_magic b) (k_free b) (k_size b) a (next_free b) (prev_free b).
Definition with_next_free (a : Z) (b : kmalloc_block_t) : kmalloc_block_t :=
  mkBlock (k_magic b) (k_free b) (k_size b) (next_phys b) a (prev_free b).
Definition with_prev_free (a : Z) (b : kmalloc_block_t) : kmalloc_block_t :=
  mkBlock (k_magic b) (k_free b) (k_size b) (next_phys b) (next_free b) a.
Definition with_magic (m : Z) (b : kmalloc_block_t) : kmalloc_block_t :=
  mkBlock m (k_free b) (k_size b) (next_phys b) (next_free b) (prev_free b).

(** * The contract of vmalloc towards its client *)

(** [ra_live v live]: the allocator is well formed and the ranges in [live] are
    handed out. *)
Class RegionAllocator (V : Type) : Type := {
  ra_alloc : Z → Z → M V Z;
  ra_live : V → list vmalloc_range_t → Prop
}.

Class RegionAllocatorLaws (V : Type) `{!RegionAllocator V} : Prop := {
  ra_disjoint v live : ra_live v live → pairwise_disjoint live;
  ra_alloc_spec v live size flags :
    ra_live v live → 0 < size ≤ 2 ^ 32 →
    run vm_panic (ra_alloc size flags) (λ addr v',
      (addr = 0 ∧ ra_live v' live) ∨
      (0 < addr ∧ addr mod 4096 = 0 ∧ addr + align_up size PAGE < 2 ^ 64 ∧
       ra_live v' (mkRange addr (align_up size PAGE) :: live))) v
}.

(** A request of whole pages gets exactly the size asked for. *)
Lemma ra_alloc_pages {V} `{!RegionAllocator V, !RegionAllocatorLaws V} v live size flags :
  ra_live v live → 0 < size ≤ 2 ^ 32 → size mod 4096 = 0 →
  run vm_panic (ra_alloc size flags) (λ addr v',
    (addr = 0 ∧ ra_live v' live) ∨
    (0 < addr ∧ addr mod 4096 = 0 ∧ addr + size < 2 ^ 64 ∧ ra_live v' (mkRange addr size :: live))) v.
Proof.
  intros Hl Hs H4. pose proof (ra_alloc_spec v live size flags Hl Hs) as H.
  assert (align_up size PAGE = size) as Hal; [|by rewrite Hal in H].
  change PAGE with (2 ^ 12). rewrite align_up_exact by lia. change (2 ^ 12) with 4096. dlia.
Qed.

(** * State *)

Record km_state (V : Type) : Type := mkKm {
  km_heap : gmap Z kmalloc_block_t;
  g_free_list : Z;
  g_km_initialized : bool;
  g_kmalloc_lock : bool;
  km_vm : V
}.
Arguments mkKm {V}. Arguments km_heap {V}. Arguments g_free_list {V}.
Arguments g_km_initialized {V}. Arguments g_kmalloc_lock {V}. Arguments km_vm {V}.

Definition align_up_sz (v a : Z) : Z := align_up v a.

Section Kmalloc.
Context {V : Type} `{!RegionAllocator V}.
Abbreviation state := (km_state V).
Implicit Types s : state.

Definition set_heap (h : gmap Z kmalloc_block_t) s : state :=
  mkKm h (g_free_list s) (g_km_initialized s) (g_kmalloc_lock s) (km_vm s).
Definition set_free_list (a : Z) s : state :=
  mkKm (km_heap s) a (g_km_initialized s) (g_kmalloc_lock s) (km_vm s).
Definition set_km_init (b : bool) s : state :=
  mkKm (km_heap s) (g_free_list s) b (g_kmalloc_lock s) (km_vm s).
Definition set_km_lock (b : bool) s : state :=
  mkKm (km_heap s) (g_free_list s) (g_km_initialized s) b (km_vm s).
Definition set_km_vm (v : V) s : state :=
  mkKm (km_heap s) (g_free_list s) (g_km_initialized s) (g_kmalloc_lock s) v.

Definition km_lock : M state unit := acquire g_kmalloc_lock set_km_lock.
Definition km_unlock : M state unit := release set_km_lock.

(** Reading a header and writing fields of one. *)
Definition block (a : Z) : M state kmalloc_block_t :=
  λ s, match km_heap s !! a with Some b => Ok (b, s) | None => Fault end.
Definition update (a : Z) (f : kmalloc_block_t → kmalloc_block_t) : M state unit :=
  modify (λ s, set_heap (<[a := f (default raw_block (km_heap s !! a))]> (km_heap s)) s).

Definition free_list_insert (b : Z) : M state unit :=
  let! head := gets g_free_list in
  update b (λ h, with_prev_free 0 (with_next_free head (with_tag KMALLOC_MAGIC_FREE 1 h)));;
  (if head =? 0 then ret tt else update head (with_prev_free b));;
  modify (set_free_list b).

Definition free_list_remove (b : Z) : M state unit :=
  let! h := block b in
  (if prev_free h =? 0 then modify (set_free_list (next_free h))
   else update (prev_free h) (with_next_free (next_free h)));;
  (if next_free h =? 0 then ret tt else update (next_free h) (with_prev_free (prev_free h)));;
  update b (λ h, with_prev_free 0 (with_next_free 0 h)).

Definition expand_pool : M state bool :=
  let! pool := zoom km_vm set_km_vm (ra_alloc KMALLOC_POOL_SIZE VMALLOC_DEFAULT_FLAGS) in
  if pool =? 0 then ret false
  else
    update pool (with_size (KMALLOC_POOL_SIZE - HEADER));;
    update pool (with_next_phys 0);;
    free_list_insert pool;;
    ret true.

Definition kmalloc_init_locked : M state bool :=
  let! ini := gets g_km_initialized in
  if ini then ret true
  else
    let! ok := expand_pool in
    if negb ok then ret false
    else modify (set_km_init true);; ret true.

Definition kmalloc_init : M state unit :=
  km_lock;;
  let! _ := kmalloc_init_locked in
  km_unlock.

(** The first block of the free list that is large enough. A list longer than
    the number of headers would be cyclic, and the C loop endless. *)
Fixpoint find_fit (fuel : nat) (b size : Z) : M state (option Z) :=
  if b =? 0 then ret None
  else
    match fuel with
    | O => λ _, Hang
    | S fuel' =>
        let! h := block b in
        if k_size h <? size then find_fit fuel' (next_free h) size
        else ret (Some b)
    end.

Definition take_block (b size : Z) : M state unit :=
  let! h := block b in
  let leftover := k_size h - size in
  (if leftover >=? KMALLOC_MIN_SPLIT then
     let split := u64 (b + HEADER + size) in
     update split (with_size (leftover - HEADER));;
     update split (with_next_phys (next_phys h));;
     update b (with_next_phys split);;
     update b (with_size size);;
     free_list_insert split
   else ret tt);;
  free_list_remove b;;
  update b (with_tag KMALLOC_MAGIC_USED 0).

(** One pass over the free list. *)
Definition try_alloc (size : Z) : M state (option Z) :=
  let! s := get in
  let! found := find_fit (S (base.size (km_heap s))) (g_free_list s) size in
  match found with
  | None => ret None
  | Some b => take_block b size;; ret (Some (u64 (b + HEADER)))
  end.

(** Returns 0 for a null pointer. *)
Definition kmalloc (size : Z) : M state Z :=
  if size =? 0 then ret 0
  else
    km_lock;;
    let! ok := kmalloc_init_locked in
    if negb ok then km_unlock;; ret 0
    else
      let size := align_up_sz size KMALLOC_ALIGN in
      let! first := try_alloc size in
      match first with
      | Some p => km_unlock;; ret p
      | None =>
          let! grown := expand_pool in
          if negb grown then km_unlock;; ret 0
          else
            let! second := try_alloc size in
            km_unlock;;
            ret (default 0 second)
      end.

(** The coalescing loop: [block->next_phys] is absorbed while it is free. *)
Fixpoint coalesce (fuel : nat) (b : Z) : M state unit :=
  let! h := block b in
  if next_phys h =? 0 then ret tt
  else
    let next := next_phys h in
    let! n := block next in
    if k_free n =? 0 then ret tt
    else
      match fuel with
      | O => λ _, Hang
      | S fuel' =>
          free_list_remove next;;
          let! n := block next in
          let! h := block b in
          update b (with_size (u64 (k_size h + (HEADER + k_size n))));;
          update b (with_next_phys (next_phys n));;
          update next (with_magic 0);;
          coalesce fuel' b
      end.

Definition kfree (ptr : Z) : M state unit :=
  if ptr =? 0 then ret tt
  else
    km_lock;;
    let b := u64 (ptr - HEADER) in
    let! h := block b in
    if k_magic h =? KMALLOC_MAGIC_FREE then km_unlock
    else if negb (k_magic h =? KMALLOC_MAGIC_USED) then km_unlock
    else if negb (k_free h =? 0) then km_unlock
    else
      free_list_insert b;;
      let! s := get in
      coalesce (base.size (km_heap s)) b;;
      km_unlock.
End Kmalloc.
