(* ===== verification/KmallocSpec.v ===== *)
(** Correctness of the kernel heap: every pool is tiled by its blocks, the free
    list links exactly the free blocks, and so live allocations are aligned,
    large enough and disjoint; [kfree] coalesces forward and detects double
    frees. *)

From S2P Require Import Prelude Boot Mapper PageTree Vmalloc VmallocSpec Kmalloc.

Abbreviation heap := (gmap Z kmalloc_block_t).

(** * Headers: the block part and the link part *)

(** What the address-order chain and the tags depend on. *)
Definition core (b : kmalloc_block_t) : Z * Z * Z * Z := (k_size b, next_phys b, k_free b, k_magic b).
Definition core_at (h : heap) (a : Z) : option (Z * Z * Z * Z) := core <$> h !! a.
(** What the free list depends on. *)
Definition links_at (h : heap) (a : Z) : option (Z * Z) := (λ b, (prev_free b, next_free b)) <$> h !! a.

Lemma core_at_insert h a b x : core_at (<[a := b]> h) x = if decide (x = a) then Some (core b) else core_at h x.
Proof.
  unfold core_at. case_decide as Hx; [subst; by rewrite lookup_insert_eq|by rewrite lookup_insert_ne].
Qed.

Lemma links_at_insert h a b x :
  links_at (<[a := b]> h) x = if decide (x = a) then Some (prev_free b, next_free b) else links_at h x.
Proof.
  unfold links_at. case_decide as Hx; [subst; by rewrite lookup_insert_eq|by rewrite lookup_insert_ne].
Qed.

(** * The free list *)

Definition head_or (n : Z) (l : list Z) : Z := match l with [] => n | a :: _ => a end.
Fixpoint last_or (p : Z) (l : list Z) : Z := match l with [] => p | a :: l' => last_or a l' end.

(** A doubly-linked segment: before it comes [p], after it [n]. *)
Fixpoint seg (h : heap) (p : Z) (l : list Z) (n : Z) : Prop :=
  match l with
  | [] => True
  | a :: l' => links_at h a = Some (p, head_or n l') ∧ seg h a l' n
  end.

Lemma last_or_snoc p l a : last_or p (l ++ [a]) = a.
Proof. revert p. induction l; simpl; auto. Qed.

Lemma seg_app h p l1 l2 n :
  seg h p (l1 ++ l2) n ↔ seg h p l1 (head_or n l2) ∧ seg h (last_or p l1) l2 n.
Proof.
  revert p. induction l1 as [|a l1 IH]; intros p; cbn [app seg].
  { simpl. tauto. }
  rewrite IH. assert (head_or n (l1 ++ l2) = head_or (head_or n l2) l1) as -> by (by destruct l1).
  tauto.
Qed.

Lemma seg_ext h h' p l n :
  (∀ x, x ∈ l → links_at h' x = links_at h x) → seg h p l n → seg h' p l n.
Proof.
  revert p. induction l as [|a l IH]; intros p Heq; cbn [seg]; [done|]. intros [Ha Hl].
  split; [by rewrite Heq by set_solver|]. apply IH; [set_solver|done].
Qed.

(** Writing the [prev_free] of the first element. *)
Lemma seg_set_prev h p p' a l n :
  NoDup (a :: l) → seg h p (a :: l) n →
  seg (<[a := with_prev_free p' (default raw_block (h !! a))]> h) p' (a :: l) n.
Proof.
  intros Hnd [Ha Hl]. apply NoDup_cons in Hnd as [Hna _]. split.
  - rewrite links_at_insert, decide_True by done. unfold links_at in Ha.
    destruct (h !! a); [|done]. simpl in *. congruence.
  - eapply seg_ext; [|exact Hl]. intros x Hx. rewrite links_at_insert, decide_False; [done|]. by intros ->.
Qed.

(** Writing the [next_free] of the last element. *)
Lemma seg_set_next h p l a n n' :
  NoDup (l ++ [a]) → seg h p (l ++ [a]) n →
  seg (<[a := with_next_free n' (default raw_block (h !! a))]> h) p (l ++ [a]) n'.
Proof.
  rewrite !seg_app. intros Hnd [Hl [Ha _]]. apply NoDup_app in Hnd as (_ & Hna & _). split.
  - eapply seg_ext; [|exact Hl]. intros x Hx. rewrite links_at_insert, decide_False; [done|].
    intros ->. apply (Hna a); set_solver.
  - split; [|done]. rewrite links_at_insert, decide_True by done. unfold links_at in Ha.
    destruct (h !! a); [|done]. simpl in *. congruence.
Qed.

Section Lists.
Context {V : Type} `{!RegionAllocator V}.
Abbreviation state := (km_state V).
Implicit Types (s : state) (fl : list Z).

(** The free list of the state is [fl]. *)
Definition free_list s fl : Prop :=
  seg (km_heap s) 0 fl 0 ∧ g_free_list s = head_or 0 fl ∧ NoDup fl ∧ 0 ∉ fl.

(** The environment of the heap. *)
Definition same_km s s' : Prop :=
  g_km_initialized s' = g_km_initialized s ∧ g_kmalloc_lock s' = g_kmalloc_lock s ∧ km_vm s' = km_vm s.

#[export] Instance same_km_preorder : PreOrder same_km.
Proof. split; [done|]. intros ???; unfold same_km; intuition congruence. Qed.

(** Core of a header after the tag is set; [None] counts as raw memory. *)
Definition tag (magic free : Z) (c : option (Z * Z * Z * Z)) : Z * Z * Z * Z :=
  match c with
  | Some (sz, nx, _, _) => (sz, nx, free, magic)
  | None => (0, 0, free, magic)
  end.

Lemma free_list_insert_spec E s fl b :
  free_list s fl → b ∉ fl → b ≠ 0 →
  run E (free_list_insert b) (λ _ s',
    free_list s' (b :: fl) ∧ same_km s s' ∧
    (∀ x, core_at (km_heap s') x =
       if decide (x = b) then Some (tag KMALLOC_MAGIC_FREE 1 (core_at (km_heap s) b))
       else core_at (km_heap s) x)) s.
Proof.
  intros (Hseg & Hhead & Hnd & H0) Hb Hb0. unfold free_list_insert, update. run_step. run_step.
  rewrite Hhead. run_step. run_step. run_step. set (s1 := set_heap _ s).
  assert (seg (km_heap s1) 0 fl 0) as Hseg1.
  { eapply seg_ext; [|exact Hseg]. intros x Hx. unfold s1. simpl. rewrite links_at_insert, decide_False; [done|].
    by intros ->. }
  assert (links_at (km_heap s1) b = Some (0, head_or 0 fl)) as Hl1.
  { unfold s1. simpl. by rewrite links_at_insert, decide_True. }
  assert (∀ x, core_at (km_heap s1) x =
       if decide (x = b) then Some (tag KMALLOC_MAGIC_FREE 1 (core_at (km_heap s) b))
       else core_at (km_heap s) x) as Hc1.
  { intros x. unfold s1. simpl. rewrite core_at_insert. case_decide; [|done]. unfold core_at.
    by destruct (km_heap s !! b). }
  assert (same_km s s1) as Hk1 by done. clearbody s1.
  destruct fl as [|a fl]; simpl head_or.
  - run_steps. simpl. split_and!; [|done|exact Hc1].
    split_and!; [split; [exact Hl1|done]|done|apply NoDup_singleton|set_solver].
  - destruct (Z.eqb_spec a 0) as [->|]; [set_solver|]. run_steps. simpl. split_and!; [|done|].
    + split_and!; [|done|by constructor|set_solver]. simpl in Hl1. split; cbn [km_heap set_free_list set_heap].
      * rewrite links_at_insert, decide_False by set_solver. exact Hl1.
      * by apply (seg_set_prev (km_heap s1) 0).
    + intros x. rewrite core_at_insert, <- Hc1. case_decide; [|done]. subst x. unfold core_at.
      destruct Hseg1 as [Ha _]. unfold links_at in Ha. by destruct (km_heap s1 !! a).
Qed.

Lemma block_spec E s a (c : Z * Z * Z * Z) (Q : kmalloc_block_t → state → Prop) :
  core_at (km_heap s) a = Some c →
  (∀ b, km_heap s !! a = Some b → core b = c → Q b s) → run E (block a) Q s.
Proof.
  unfold core_at, run, block. destruct (km_heap s !! a) as [b|] eqn:Eb; [|done].
  simpl. intros [= <-] HQ. by apply HQ.
Qed.

Lemma core_at_same_links h a (f : kmalloc_block_t → kmalloc_block_t) x :
  (∀ b, core (f b) = core b) → is_Some (h !! a) →
  core_at (<[a := f (default raw_block (h !! a))]> h) x = core_at h x.
Proof.
  intros Hf [b Hb]. rewrite core_at_insert. case_decide; [|done]. subst. unfold core_at.
  rewrite Hb. simpl. by rewrite Hf.
Qed.

Lemma free_list_remove_spec E s l1 b l2 :
  free_list s (l1 ++ b :: l2) →
  run E (free_list_remove b) (λ _ s',
    free_list s' (l1 ++ l2) ∧ same_km s s' ∧ ∀ x, core_at (km_heap s') x = core_at (km_heap s) x) s.
Proof.
  intros (Hseg & Hhead & Hnd & H0). apply seg_app in Hseg as [Hs1 [Hb Hs2]].
  pose proof Hnd as Hnd'. rewrite <- Permutation_middle in Hnd'.
  apply NoDup_cons in Hnd' as [Hnb Hnd']. pose proof Hnd' as (Hn1 & H12 & Hn2)%NoDup_app.
  unfold free_list_remove. run_step. unfold links_at in Hb.
  destruct (km_heap s !! b) as [hb|] eqn:Eb; [|done]. simpl in Hb. injection Hb as Hp Hn.
  unfold run at 1, block. rewrite Eb. rewrite Hp, Hn. run_step.
  (* the predecessor, or the list head *)
  set (m1 := if last_or 0 l1 =? 0 then _ else _).
  assert (run E m1 (λ _ s1, seg (km_heap s1) 0 l1 (head_or 0 l2) ∧ seg (km_heap s1) b l2 0 ∧
    g_free_list s1 = head_or 0 (l1 ++ l2) ∧ same_km s s1 ∧
    (∀ x, core_at (km_heap s1) x = core_at (km_heap s) x)) s) as Hm1.
  { unfold m1. destruct l1 as [|a l1' _] using rev_ind.
    - run_steps. done.
    - rewrite last_or_snoc. destruct (Z.eqb_spec a 0) as [->|]; [set_solver|].
      unfold update. run_steps. simpl. split_and!; [| | |done|].
      + by eapply seg_set_next.
      + eapply seg_ext; [|exact Hs2]. intros x Hx. rewrite links_at_insert, decide_False; [done|].
        intros ->. apply (H12 a); set_solver.
      + rewrite Hhead. by destruct l1'.
      + intros x. apply core_at_same_links; [done|]. apply seg_app in Hs1 as [_ [Ha _]].
        unfold links_at in Ha. by destruct (km_heap s !! a). }
  eapply run_mono; [exact Hm1|]. clear m1 Hm1. intros [] s1 (A1 & A2 & A3 & A4 & A5). run_step.
  (* the successor *)
  set (m2 := if head_or 0 l2 =? 0 then _ else _).
  assert (run E m2 (λ _ s2, seg (km_heap s2) 0 (l1 ++ l2) 0 ∧
    g_free_list s2 = head_or 0 (l1 ++ l2) ∧ same_km s s2 ∧
    (∀ x, core_at (km_heap s2) x = core_at (km_heap s) x)) s1) as Hm2.
  { unfold m2. destruct l2 as [|a l2]; simpl head_or.
    - run_steps. rewrite app_nil_r in *. done.
    - destruct (Z.eqb_spec a 0) as [->|]; [set_solver|]. unfold update. run_steps. simpl.
      split_and!; [|done|done|].
      + apply seg_app. split; [|by eapply seg_set_prev].
        eapply seg_ext; [|exact A1]. intros x Hx. rewrite links_at_insert, decide_False; [done|].
        intros ->. apply (H12 a); set_solver.
      + intros x. rewrite <- A5. apply core_at_same_links; [done|]. destruct A2 as [Ha _].
        unfold links_at in Ha. by destruct (km_heap s1 !! a). }
  eapply run_mono; [exact Hm2|]. clear m2 Hm2. intros [] s2 (B1 & B2 & B3 & B4).
  unfold update. run_step. simpl. split_and!.
  - split_and!; [|done|done|set_solver]. eapply seg_ext; [|exact B1]. intros x Hx. simpl.
    rewrite links_at_insert, decide_False; [done|]. by intros ->.
  - done.
  - intros x. rewrite <- B4.
    apply (core_at_same_links _ b (λ h, with_prev_free 0 (with_next_free 0 h))); [done|]. specialize (B4 b). unfold core_at in B4.
    rewrite Eb in B4. by destruct (km_heap s2 !! b).
Qed.
End Lists.

(** * Pools *)

(** The blocks of a pool in address order: payload size and whether it is free. *)
Abbreviation blocks := (list (Z * bool)).

Definition hcore (sz : Z) (fr : bool) (nx : Z) : Z * Z * Z * Z :=
  (sz, nx, if fr then 1 else 0, if fr then KMALLOC_MAGIC_FREE else KMALLOC_MAGIC_USED).

(** The headers from [a] on describe [bs]; the last one points to [e]. *)
Fixpoint chain (h : heap) (a : Z) (bs : blocks) (e : Z) : Prop :=
  match bs with
  | [] => True
  | (sz, fr) :: bs' =>
      core_at h a = Some (hcore sz fr (match bs' with [] => e | _ => a + HEADER + sz end)) ∧
      0 ≤ sz ∧ sz mod 16 = 0 ∧ chain h (a + HEADER + sz) bs' e
  end.

Fixpoint span (bs : blocks) : Z :=
  match bs with [] => 0 | (sz, _) :: bs' => HEADER + sz + span bs' end.

Fixpoint layout (a : Z) (bs : blocks) : list (Z * Z * bool) :=
  match bs with [] => [] | (sz, fr) :: bs' => (a, sz, fr) :: layout (a + HEADER + sz) bs' end.

Lemma span_app bs1 bs2 : span (bs1 ++ bs2) = span bs1 + span bs2.
Proof. induction bs1 as [|[sz fr] bs1 IH]; simpl; lia. Qed.

Lemma layout_app a bs1 bs2 : layout a (bs1 ++ bs2) = layout a bs1 ++ layout (a + span bs1) bs2.
Proof.
  revert a. induction bs1 as [|[sz fr] bs1 IH]; intros a; simpl; [by rewrite Z.add_0_r|].
  rewrite IH. do 3 f_equal. lia.
Qed.

Lemma chain_app h a bs1 bs2 e :
  chain h a (bs1 ++ bs2) e ↔
  chain h a bs1 (match bs2 with [] => e | _ => a + span bs1 end) ∧ chain h (a + span bs1) bs2 e.
Proof.
  revert a. induction bs1 as [|[sz fr] bs1 IH]; intros a; cbn [app chain span].
  { rewrite Z.add_0_r. tauto. }
  rewrite IH. replace (a + HEADER + sz + span bs1) with (a + (HEADER + sz + span bs1)) by lia.
  destruct bs1 as [|[sz1 fr1] bs1]; simpl.
  - destruct bs2; [tauto|]. replace (a + (HEADER + sz + 0)) with (a + HEADER + sz) by lia. tauto.
  - tauto.
Qed.

Lemma chain_ext h h' a bs e :
  (∀ x, x ∈ (layout a bs).*1.*1 → core_at h' x = core_at h x) → chain h a bs e → chain h' a bs e.
Proof.
  revert a. induction bs as [|[sz fr] bs IH]; intros a Heq; cbn [chain]; [done|].
  intros (H1 & H2 & H3 & H4). split_and!; [|done|done|].
  - rewrite Heq; [done|]. simpl. set_solver.
  - apply IH; [|done]. intros x Hx. apply Heq. simpl. set_solver.
Qed.

Lemma layout_length a bs : length (layout a bs) = length bs.
Proof. revert a. induction bs as [|[sz fr] bs IH]; intros a; simpl; auto. Qed.

Lemma chain_layout_sizes h a bs e :
  chain h a bs e → Forall (λ b : Z * Z * bool, 0 ≤ b.1.2) (layout a bs).
Proof.
  revert a. induction bs as [|[sz fr] bs IH]; intros a; cbn [chain]; [constructor|].
  intros (_ & H & _ & H'). constructor; [done|]. by apply IH.
Qed.

Lemma chain_sizes h a bs e : chain h a bs e → Forall (λ b, 0 ≤ b.1) bs.
Proof.
  revert a. induction bs as [|[sz fr] bs IH]; intros a; cbn [chain]; [constructor|].
  intros (_ & H & _ & H'). constructor; [done|]. by eapply IH.
Qed.

(** The memory of a block, header included, and of a pool. *)
Definition blk_range (b : Z * Z * bool) : vmalloc_range_t := mkRange b.1.1 (HEADER + b.1.2).
Definition pool_range (p : Z * blocks) : vmalloc_range_t := mkRange p.1 KMALLOC_POOL_SIZE.

Definition layout_all (pools : list (Z * blocks)) : list (Z * Z * bool) :=
  pools ≫= λ p : Z * blocks, layout p.1 p.2.
Definition frees (L : list (Z * Z * bool)) : list Z :=
  omap (λ b : Z * Z * bool, if b.2 then Some b.1.1 else None) L.
Definition useds (L : list (Z * Z * bool)) : list (Z * Z) :=
  omap (λ b : Z * Z * bool, if b.2 then None else Some b.1) L.

Lemma pairwise_disjoint_app l1 l2 :
  pairwise_disjoint l1 → pairwise_disjoint l2 → (∀ x, covered l1 x → ¬ covered l2 x) →
  pairwise_disjoint (l1 ++ l2).
Proof.
  induction l1 as [|r l1 IH]; simpl; [done|]. intros [Hr H1] H2 Hx. split.
  - intros x Hin. rewrite covered_app. intros [Hc|Hc]; [by apply (Hr x)|].
    apply (Hx x); [|done]. apply covered_cons. by left.
  - apply IH; [done|done|]. intros x Hc. apply Hx, covered_cons. by right.
Qed.

Lemma layout_geometry a bs :
  Forall (λ b, 0 ≤ b.1) bs →
  pairwise_disjoint (blk_range <$> layout a bs) ∧
  ∀ x, covered (blk_range <$> layout a bs) x → a ≤ x < a + span bs.
Proof.
  revert a. induction bs as [|[sz fr] bs IH]; intros a Hall; simpl.
  { split; [done|]. intros x Hc. by apply covered_nil in Hc. }
  apply Forall_cons in Hall as [Hsz Hall]. simpl in Hsz. destruct (IH (a + HEADER + sz) Hall) as [IH1 IH2].
  assert (∀ l, Forall (λ b : Z * bool, 0 ≤ b.1) l → 0 ≤ span l) as Hspan.
  { intros l. induction 1 as [|[? ?]]; simpl in *; unfold HEADER; lia. }
  specialize (Hspan _ Hall). split; [split; [|done]|].
  - intros x Hx Hc. apply IH2 in Hc. unfold in_range, blk_range in Hx. simpl in Hx. lia.
  - intros x [Hx|Hc]%covered_cons; [|apply IH2 in Hc]; unfold in_range, blk_range, HEADER in *; simpl in *; lia.
Qed.

(** A pool is tiled by its blocks. *)
Definition pool_ok (h : heap) (p : Z * blocks) : Prop :=
  chain h p.1 p.2 0 ∧ span p.2 = KMALLOC_POOL_SIZE ∧
  0 < p.1 ∧ p.1 mod 16 = 0 ∧ p.1 + KMALLOC_POOL_SIZE < 2 ^ 64.

Lemma pools_geometry h pools :
  Forall (pool_ok h) pools → pairwise_disjoint (pool_range <$> pools) →
  pairwise_disjoint (blk_range <$> layout_all pools) ∧
  ∀ x, covered (blk_range <$> layout_all pools) x → covered (pool_range <$> pools) x.
Proof.
  induction 1 as [|[st bs] pools (Hc & Hs & _) Hp IH]; simpl; [done|]. intros [Hd1 Hd2].
  destruct (IH Hd2) as [IH1 IH2]. simpl in *.
  destruct (layout_geometry st bs (chain_sizes _ _ _ _ Hc)) as [G1 G2].
  assert (∀ x, covered (blk_range <$> layout st bs) x → in_range (mkRange st KMALLOC_POOL_SIZE) x) as G3.
  { intros x Hx. apply G2 in Hx. unfold in_range. simpl. lia. }
  change (layout_all ((st, bs) :: pools)) with (layout st bs ++ layout_all pools). rewrite fmap_app. split.
  - apply pairwise_disjoint_app; [done|done|]. intros x Hx Hx'. by apply (Hd1 x); [apply G3|apply IH2].
  - intros x. rewrite covered_app, covered_cons. intros [?|?]; [left; by apply G3|right; auto].
Qed.

Lemma disjoint_NoDup L :
  Forall (λ b : Z * Z * bool, 0 ≤ b.1.2) L → pairwise_disjoint (blk_range <$> L) → NoDup L.*1.*1.
Proof.
  induction L as [|[[a sz] fr] L IH]; simpl; [constructor|]. intros [Hsz Hall]%Forall_cons [Hd HL]. simpl in *.
  constructor; [|auto]. intros Hin. apply (Hd a); [unfold in_range, blk_range, HEADER; simpl; lia|].
  apply list_elem_of_fmap in Hin as ([a' sz'] & -> & Hin).
  apply list_elem_of_fmap in Hin as ([[a'' sz''] fr'] & [= <- <-] & Hin).
  exists (blk_range (a', sz', fr')). split; [by apply list_elem_of_fmap_2|].
  eapply Forall_forall in Hall; [|exact Hin]. unfold in_range, blk_range, HEADER. simpl in *. lia.
Qed.

(** * Replacing a run of blocks inside a pool *)

Lemma addr_in_span a bs x :
  Forall (λ b, 0 ≤ b.1) bs → x ∈ (layout a bs).*1.*1 → a ≤ x < a + span bs.
Proof.
  intros Hall Hx. apply (layout_geometry a bs Hall).
  apply list_elem_of_fmap in Hx as ([a' sz'] & -> & Hx).
  apply list_elem_of_fmap in Hx as ([[a'' sz''] fr'] & [= <- <-] & Hx).
  exists (blk_range (a', sz', fr')). split; [by apply list_elem_of_fmap_2|].
  revert a Hx. induction Hall as [|[sz fr] bs Hsz Hall IH]; intros a; simpl; [by intros ?%not_elem_of_nil|].
  intros [[= -> -> ->]|Hx]%elem_of_cons; [|by eapply IH].
  unfold in_range, blk_range, HEADER. simpl in *. lia.
Qed.

(** The address after a run of blocks: 0 at the end of the pool. *)
Definition after (a : Z) (bs2 : blocks) : Z := match bs2 with [] => 0 | _ => a end.

Section Replace.
Variables (h h' : heap) (p1 p2 : list (Z * blocks)) (st : Z) (bs1 old new bs2 : blocks).
Let b : Z := st + span bs1.
Hypothesis Hok : Forall (pool_ok h) (p1 ++ (st, bs1 ++ old ++ bs2) :: p2).
Hypothesis Hdisj : pairwise_disjoint (pool_range <$> p1 ++ (st, bs1 ++ old ++ bs2) :: p2).
Hypothesis Hold : old ≠ [].

Lemma focus_chain :
  chain h st bs1 b ∧ chain h b old (after (b + span old) bs2) ∧
  chain h (b + span old) bs2 0 ∧ span bs1 + span old + span bs2 = KMALLOC_POOL_SIZE.
Proof.
  pose proof Hok as [_ [(Hc & Hs & _) _]%Forall_cons]%Forall_app. simpl in *.
  rewrite !span_app in Hs. apply chain_app in Hc as [H1 H2]. fold b in H1, H2.
  apply chain_app in H2 as [H2 H3]. split_and!; [|done|done|lia]. by destruct old.
Qed.

Lemma focus_bounds :
  0 < st ∧ st mod 16 = 0 ∧ st + KMALLOC_POOL_SIZE < 2 ^ 64 ∧ st ≤ b ∧ b + span old ≤ st + KMALLOC_POOL_SIZE.
Proof.
  pose proof focus_chain as (H1 & H2 & H3 & H4). pose proof Hok as [_ [(_ & _ & G1 & G2 & G3) _]%Forall_cons]%Forall_app. simpl in *.
  assert (∀ h a bs e, chain h a bs e → 0 ≤ span bs) as Hsp.
  { intros h0 a bs e Hc%chain_sizes. induction Hc as [|[? ?]]; simpl in *; unfold HEADER; lia. }
  pose proof (Hsp _ _ _ _ H1). pose proof (Hsp _ _ _ _ H3). unfold b. lia.
Qed.

(** No block outside the run has its header inside the run. *)
Lemma focus_apart p x :
  p ∈ p1 ++ p2 → x ∈ (layout p.1 p.2).*1.*1 → ¬ (b ≤ x < b + span old).
Proof.
  intros Hp Hx Hin. pose proof focus_bounds as (_ & _ & _ & B1 & B2).
  assert (Forall (pool_ok h) (p1 ++ p2)) as Hok'.
  { pose proof Hok as Hok'. rewrite <- Permutation_middle in Hok'. by apply Forall_cons in Hok' as [_ ?]. }
  assert (pairwise_disjoint (pool_range <$> (st, bs1 ++ old ++ bs2) :: p1 ++ p2)) as Hd.
  { by rewrite (Permutation_middle p1). }
  destruct Hd as [Hd _].
  assert (pool_ok h p) as (Hc & Hs & _) by (by eapply Forall_forall in Hok').
  apply addr_in_span in Hx; [|by eapply chain_sizes]. rewrite Hs in Hx.
  apply (Hd x); [unfold in_range; simpl; lia|]. exists (pool_range p).
  split; [by apply list_elem_of_fmap_2|]. unfold in_range. simpl. lia.
Qed.

Hypothesis Hspan : span new = span old.
Hypothesis Hnew : new ≠ [].
Hypothesis Hchain : chain h' b new (after (b + span old) bs2).
Hypothesis Hsame : ∀ x, ¬ (b ≤ x < b + span old) → core_at h' x = core_at h x.

Lemma pools_replace : Forall (pool_ok h') (p1 ++ (st, bs1 ++ new ++ bs2) :: p2).
Proof.
  pose proof focus_chain as (H1 & H2 & H3 & H4). pose proof focus_bounds as (B0 & B0' & B0'' & B1 & B2).
  assert (Forall (pool_ok h') (p1 ++ p2)) as Hrest.
  { apply Forall_forall. intros p Hp. pose proof Hok as Hok'. rewrite <- Permutation_middle in Hok'.
    apply Forall_cons in Hok' as [_ Hok']. eapply Forall_forall in Hok'; [|exact Hp].
    destruct Hok' as (Hc & Hr). split; [|done]. eapply chain_ext; [|exact Hc].
    intros x Hx. apply Hsame. by eapply focus_apart. }
  rewrite <- Permutation_middle. constructor; [|done]. split_and!; simpl; try done.
  2: { rewrite !span_app. lia. }
  apply chain_app. fold b. split.
  - assert (match new ++ bs2 with [] => 0 | _ => b end = b) as -> by (by destruct new).
    eapply chain_ext; [|exact H1]. intros x Hx. apply Hsame.
    apply addr_in_span in Hx; [|by eapply chain_sizes]. unfold b. lia.
  - apply chain_app. rewrite Hspan. split; [exact Hchain|].
    eapply chain_ext; [|exact H3]. intros x Hx. apply Hsame.
    apply addr_in_span in Hx; [|by eapply chain_sizes]. lia.
Qed.
End Replace.

(** The free and used blocks after a replacement. *)
Lemma layout_all_focus p1 p2 st bs1 mid bs2 :
  layout_all (p1 ++ (st, bs1 ++ mid ++ bs2) :: p2) =
  (layout_all p1 ++ layout st bs1) ++ layout (st + span bs1) mid ++
  (layout (st + span bs1 + span mid) bs2 ++ layout_all p2).
Proof.
  unfold layout_all. rewrite bind_app. simpl. rewrite !layout_app, <- !(assoc_L (++)). done.
Qed.

Lemma frees_app L1 L2 : frees (L1 ++ L2) = frees L1 ++ frees L2.
Proof. apply omap_app. Qed.
Lemma useds_app L1 L2 : useds (L1 ++ L2) = useds L1 ++ useds L2.
Proof. apply omap_app. Qed.

Lemma frees_focus p1 p2 st bs1 mid bs2 :
  ∃ R, (∀ mid', span mid' = span mid →
    frees (layout_all (p1 ++ (st, bs1 ++ mid' ++ bs2) :: p2)) ≡ₚ frees (layout (st + span bs1) mid') ++ R).
Proof.
  eexists. intros mid' Hs. rewrite layout_all_focus, Hs, !frees_app.
  rewrite (assoc_L (++)), (comm (++) (frees (layout_all p1) ++ _)), <- (assoc_L (++)). reflexivity.
Qed.

Lemma useds_focus p1 p2 st bs1 mid bs2 :
  ∃ R, (∀ mid', span mid' = span mid →
    useds (layout_all (p1 ++ (st, bs1 ++ mid' ++ bs2) :: p2)) ≡ₚ useds (layout (st + span bs1) mid') ++ R).
Proof.
  eexists. intros mid' Hs. rewrite layout_all_focus, Hs, !useds_app.
  rewrite (assoc_L (++)), (comm (++) (useds (layout_all p1) ++ _)), <- (assoc_L (++)). reflexivity.
Qed.

(** A free or used block is somewhere in a pool. *)
Lemma layout_locate a bs x sz fr :
  (x, sz, fr) ∈ layout a bs → ∃ bs1 bs2, bs = bs1 ++ (sz, fr) :: bs2 ∧ x = a + span bs1.
Proof.
  revert a. induction bs as [|[sz' fr'] bs IH]; intros a; simpl; [by intros ?%not_elem_of_nil|].
  intros [[= -> -> ->]|Hx]%elem_of_cons.
  - exists [], bs. split; [done|]. simpl. lia.
  - destruct (IH _ Hx) as (bs1 & bs2 & -> & ->). exists ((sz', fr') :: bs1), bs2. split; [done|]. simpl. lia.
Qed.

Lemma locate pools x sz fr :
  (x, sz, fr) ∈ layout_all pools →
  ∃ p1 st bs1 bs2 p2, pools = p1 ++ (st, bs1 ++ [(sz, fr)] ++ bs2) :: p2 ∧ x = st + span bs1.
Proof.
  unfold layout_all. intros ([st bs] & Hx & Hp)%list_elem_of_bind. simpl in *.
  apply layout_locate in Hx as (bs1 & bs2 & -> & ->).
  apply list_elem_of_split in Hp as (p1 & p2 & ->). by exists p1, st, bs1, bs2, p2.
Qed.

Lemma elem_of_frees L x : x ∈ frees L ↔ ∃ sz, (x, sz, true) ∈ L.
Proof.
  unfold frees. rewrite list_elem_of_omap. split.
  - intros ([[a sz] [|]] & Hin & [= ->]). by exists sz.
  - intros [sz Hin]. by exists (x, sz, true).
Qed.

Lemma elem_of_useds L x sz : (x, sz) ∈ useds L ↔ (x, sz, false) ∈ L.
Proof.
  unfold useds. rewrite list_elem_of_omap. split.
  - by intros ([[a sz'] [|]] & Hin & [= -> ->]).
  - intros Hin. by exists (x, sz, false).
Qed.

(** * The heap invariant and the operations *)

Section Heap.
Context {V : Type} `{!RegionAllocator V, !RegionAllocatorLaws V}.
Abbreviation state := (km_state V).
Implicit Types (s : state) (fl : list Z) (pools : list (Z * blocks)).

Record heap_ok s pools fl : Prop := {
  ho_pools : Forall (pool_ok (km_heap s)) pools;
  ho_disj : pairwise_disjoint (pool_range <$> pools);
  ho_list : free_list s fl;
  ho_fl : fl ≡ₚ frees (layout_all pools)
}.

Definition core0 : Z * Z * Z * Z := (0, 0, 0, 0).

(** A field write that leaves the links alone. *)
Lemma update_spec E s fl a f g :
  free_list s fl → (∀ b, (prev_free (f b), next_free (f b)) = (prev_free b, next_free b)) →
  (∀ b, core (f b) = g (core b)) →
  run E (update a f) (λ _ s', free_list s' fl ∧ same_km s s' ∧
    ∀ x, core_at (km_heap s') x =
      if decide (x = a) then Some (g (default core0 (core_at (km_heap s) a))) else core_at (km_heap s) x) s.
Proof.
  intros (Hseg & Hh & Hnd & H0) Hf Hg. unfold update. run_step. simpl. split_and!; [|done|].
  - split_and!; [|done..]. eapply seg_ext; [|exact Hseg]. intros x Hx. simpl. rewrite links_at_insert.
    case_decide; [|done]. subst x. rewrite Hf. unfold links_at.
    destruct (km_heap s !! a) eqn:Ea; [done|]. exfalso.
    apply list_elem_of_split in Hx as (l1 & l2 & ->). apply seg_app in Hseg as [_ [Hl _]].
    unfold links_at in Hl. by rewrite Ea in Hl.
  - intros x. rewrite core_at_insert. case_decide; [|done]. rewrite Hg. unfold core_at.
    by destruct (km_heap s !! a).
Qed.

Definition csize (n : Z) (c : Z * Z * Z * Z) : Z * Z * Z * Z := let '(_, nx, fr, mg) := c in (n, nx, fr, mg).
Definition cnext (n : Z) (c : Z * Z * Z * Z) : Z * Z * Z * Z := let '(sz, _, fr, mg) := c in (sz, n, fr, mg).
Definition ctag (mg fr : Z) (c : Z * Z * Z * Z) : Z * Z * Z * Z := let '(sz, nx, _, _) := c in (sz, nx, fr, mg).
Definition cmagic (mg : Z) (c : Z * Z * Z * Z) : Z * Z * Z * Z := let '(sz, nx, fr, _) := c in (sz, nx, fr, mg).

Lemma focus_elem s p1 st bs1 old bs2 p2 fl x :
  heap_ok s (p1 ++ (st, bs1 ++ old ++ bs2) :: p2) fl → old ≠ [] →
  x ∈ fl → st + span bs1 ≤ x < st + span bs1 + span old → x ∈ frees (layout (st + span bs1) old).
Proof.
  intros [HP HD _ HF] Hold Hx Hin. rewrite HF, layout_all_focus, !frees_app, !elem_of_app in Hx.
  pose proof (focus_chain _ _ _ _ _ _ _ HP HD Hold) as (C1 & C2 & C3 & _).
  assert (∀ L y, y ∈ frees L → y ∈ L.*1.*1) as Hsub.
  { intros L y [sz Hy]%elem_of_frees. by apply (list_elem_of_fmap_2 fst _ (y, sz)), (list_elem_of_fmap_2 fst _ (y, sz, true)). }
  assert (∀ p, p ∈ p1 ++ p2 → x ∈ (layout p.1 p.2).*1.*1 → False) as Hap.
  { intros p Hp Hy. by eapply (focus_apart _ _ _ _ _ _ _ HP HD Hold p x). }
  assert (∀ ps, ps ⊆ p1 ++ p2 → x ∈ frees (layout_all ps) → False) as Hall.
  { intros ps Hps [sz Hy]%elem_of_frees. apply list_elem_of_bind in Hy as (p & Hy & Hp).
    apply (Hap p); [by apply Hps|].
    by apply (list_elem_of_fmap_2 fst _ (x, sz)), (list_elem_of_fmap_2 fst _ (x, sz, true)). }
  destruct Hx as [[Hx|Hx]|[Hx|[Hx|Hx]]]; [| |done| |]; exfalso.
  - by apply (Hall p1); [set_solver|].
  - apply Hsub, addr_in_span in Hx; [lia|by eapply chain_sizes].
  - apply Hsub, addr_in_span in Hx; [lia|by eapply chain_sizes].
  - by apply (Hall p2); [set_solver|].
Qed.

Lemma heap_ok_replace s s' p1 st bs1 old new bs2 p2 fl fl' R :
  heap_ok s (p1 ++ (st, bs1 ++ old ++ bs2) :: p2) fl → old ≠ [] → new ≠ [] → span new = span old →
  chain (km_heap s') (st + span bs1) new (after (st + span bs1 + span old) bs2) →
  (∀ x, ¬ (st + span bs1 ≤ x < st + span bs1 + span old) → core_at (km_heap s') x = core_at (km_heap s) x) →
  free_list s' fl' →
  fl ≡ₚ frees (layout (st + span bs1) old) ++ R → fl' ≡ₚ frees (layout (st + span bs1) new) ++ R →
  heap_ok s' (p1 ++ (st, bs1 ++ new ++ bs2) :: p2) fl'.
Proof.
  intros [HP HD HL HF] Hold Hnew Hsp Hc Hsame HL' HR HR'. split.
  - by eapply pools_replace.
  - by rewrite !fmap_app in *.
  - done.
  - destruct (frees_focus p1 p2 st bs1 old bs2) as [R' HR2]. rewrite (HR2 new Hsp), HR'.
    apply Permutation_app_head. apply (Permutation_app_inv_l (frees (layout (st + span bs1) old))).
    rewrite <- HR, HF. by apply HR2.
Qed.

Lemma take_block_spec E s p1 st bs1 sz bs2 p2 fl size :
  let b := st + span bs1 in
  heap_ok s (p1 ++ (st, bs1 ++ [(sz, true)] ++ bs2) :: p2) fl →
  0 ≤ size ≤ sz → size mod 16 = 0 →
  run E (take_block b size) (λ _ s',
    ∃ fl' sz' rest, heap_ok s' (p1 ++ (st, bs1 ++ ((sz', false) :: rest) ++ bs2) :: p2) fl' ∧
      same_km s s' ∧ size ≤ sz' ∧ span ((sz', false) :: rest) = HEADER + sz ∧
      (rest = [] ∨ ∃ n, rest = [(n, true)])) s.
Proof.
  intros b Hok Hsz H16. pose proof Hok as [HP HD HL HF].
  destruct (focus_chain _ _ _ _ _ _ _ HP HD ltac:(done)) as (C1 & C2 & C3 & C4).
  destruct (focus_bounds _ _ _ _ _ _ _ HP HD ltac:(done)) as (B0 & B1 & B2 & B3 & B4).
  fold b in C1, C2, C3, B3, B4. cbn [chain span] in *. destruct C2 as (Cb & Csz & C16 & _).
  set (nx := after (b + (HEADER + sz + 0)) bs2) in *. unfold HEADER in *.
  assert (b ∈ fl) as Hbf.
  { rewrite HF. apply elem_of_frees. exists sz. rewrite layout_all_focus. simpl. set_solver. }
  apply list_elem_of_split in Hbf as (l1 & l2 & ->).
  assert (b :: l1 ++ l2 ≡ₚ l1 ++ b :: l2) as Hperm by apply Permutation_middle.
  unfold take_block. run_step. eapply block_spec; [exact Cb|]. intros hb Hhb Hcb.
  injection Hcb as Eb1 Eb2 Eb3 Eb4. rewrite Eb1, Eb2. cbv zeta. unfold HEADER.
  destruct (Z.geb_spec (sz - size) KMALLOC_MIN_SPLIT) as [Hsplit|Hsplit]; cbv iota.
  - unfold KMALLOC_MIN_SPLIT, KMALLOC_ALIGN, HEADER in Hsplit.
    rewrite wrap_small by (unfold in_width, KMALLOC_POOL_SIZE in *; lia). set (sp := b + 48 + size).
    assert (sp ∉ l1 ++ b :: l2) as Hsp.
    { intros Hin. eapply (focus_elem _ _ _ _ _ _ _ _ sp Hok) in Hin; [|done|simpl; unfold HEADER; lia].
      simpl in Hin. apply list_elem_of_singleton in Hin. lia. }
    run_step. run_step. eapply run_mono; [by apply (update_spec E s (l1 ++ b :: l2) sp _ (csize (sz - size - 48)))|].
    intros [] s1 (F1 & K1 & D1). run_step. eapply run_mono; [by apply (update_spec E s1 (l1 ++ b :: l2) sp _ (cnext nx))|].
    intros [] s2 (F2 & K2 & D2). run_step. eapply run_mono; [by apply (update_spec E s2 (l1 ++ b :: l2) b _ (cnext sp))|].
    intros [] s3 (F3 & K3 & D3). run_step. eapply run_mono; [by apply (update_spec E s3 (l1 ++ b :: l2) b _ (csize size))|].
    intros [] s4 (F4 & K4 & D4). eapply run_mono; [apply (free_list_insert_spec E s4 (l1 ++ b :: l2)); [done|done|lia]|].
    intros [] s5 (F5 & K5 & D5). run_step.
    eapply run_mono; [apply (free_list_remove_spec E s5 (sp :: l1) b l2); exact F5|].
    intros [] s6 (F6 & K6 & D6).
    eapply run_mono; [apply (update_spec E s6 (sp :: l1 ++ l2) b _ (ctag KMALLOC_MAGIC_USED 0)); [exact F6|done..]|].
    intros [] s7 (F7 & K7 & D7).
    assert (∀ x, core_at (km_heap s7) x =
      if decide (x = b) then Some (hcore size false sp)
      else if decide (x = sp) then Some (hcore (sz - size - 48) true nx) else core_at (km_heap s) x) as D.
    { assert (sp ≠ b) by lia. intros x. rewrite D7, !D6, !D5, !D4, !D3, !D2, !D1, Cb.
      repeat case_decide; try congruence; try done. by destruct (core_at (km_heap s) sp) as [[[[? ?] ?] ?]|]. }
    exists (sp :: l1 ++ l2), size, [(sz - size - 48, true)]. split_and!; [| |lia|simpl; unfold HEADER; lia|right; by eexists].
    + eapply (heap_ok_replace s); [exact Hok|done|done|simpl; unfold HEADER; lia| | |exact F7| |].
      * cbn [chain span]. fold b. unfold HEADER. rewrite !D. rewrite decide_True by done.
        rewrite decide_False, decide_True by lia. split_and!; try done; try lia.
        rewrite Zminus_mod, (Zminus_mod sz), C16, H16. done.
      * intros x Hx. cbn [span] in Hx. fold b in Hx. unfold HEADER in Hx.
        rewrite D, decide_False, decide_False by lia. done.
      * cbn. fold b. rewrite <- Hperm. reflexivity.
      * cbn. fold b. unfold HEADER. reflexivity.
    + do 6 (etrans; [eassumption|]). done.
  - run_step. run_step. run_step. eapply run_mono; [apply (free_list_remove_spec E s l1 b l2); exact HL|].
    intros [] s1 (F1 & K1 & D1).
    eapply run_mono; [apply (update_spec E s1 (l1 ++ l2) b _ (ctag KMALLOC_MAGIC_USED 0)); [exact F1|done..]|].
    intros [] s2 (F2 & K2 & D2).
    assert (∀ x, core_at (km_heap s2) x =
      if decide (x = b) then Some (hcore sz false nx) else core_at (km_heap s) x) as D.
    { intros x. rewrite D2, !D1, Cb. by repeat case_decide. }
    exists (l1 ++ l2), sz, []. split_and!; [|by etrans|lia|simpl; unfold HEADER; lia|by left].
    eapply (heap_ok_replace s); [exact Hok|done|done|done| | |exact F2| |].
    + cbn [chain span]. fold b. unfold HEADER. rewrite D, decide_True by done. done.
    + intros x Hx. cbn [span] in Hx. fold b in Hx. unfold HEADER in Hx. rewrite D, decide_False by lia. done.
    + cbn. fold b. rewrite <- Hperm. reflexivity.
    + reflexivity.
Qed.
(** ** Searching the free list *)

Lemma find_fit_spec s l p fuel size :
  seg (km_heap s) p l 0 → 0 ∉ l → (length l ≤ fuel)%nat →
  wp (find_fit fuel (head_or 0 l) size) (λ r s', s' = s ∧
    match r with
    | Some b => ∃ hb, b ∈ l ∧ km_heap s !! b = Some hb ∧ size ≤ k_size hb
    | None => ∀ b hb, b ∈ l → km_heap s !! b = Some hb → k_size hb < size
    end) s.
Proof.
  revert p fuel. induction l as [|a l IH]; intros p fuel Hseg H0 Hlen; simpl head_or.
  { destruct fuel; (split; [done|]); by intros b hb ?%not_elem_of_nil. }
  destruct fuel as [|fuel]; [simpl in Hlen; lia|]. cbn [find_fit].
  destruct (Z.eqb_spec a 0) as [->|]; [set_solver|]. destruct Hseg as [Ha Hseg].
  unfold links_at in Ha. destruct (km_heap s !! a) as [h|] eqn:Eh; [|done]. injection Ha as _ Hn.
  run_step. unfold run at 1, block. rewrite Eh. destruct (Z.ltb_spec (k_size h) size).
  - rewrite Hn. eapply run_mono; [apply (IH a); [done|set_solver|simpl in Hlen; lia]|].
    intros [b|] s' [-> Hr]; (split; [done|]).
    + destruct Hr as (hb & Hb & ?). exists hb. split; [set_solver|done].
    + intros b hb [->|Hb]%elem_of_cons Hhb; [congruence|by eapply Hr].
  - run_step. split; [done|]. exists h. split; [set_solver|done].
Qed.

Lemma NoDup_length_size (h : heap) (l : list Z) :
  NoDup l → (∀ x, x ∈ l → is_Some (h !! x)) → (length l ≤ size h)%nat.
Proof.
  intros Hnd Hin. rewrite <- (size_list_to_set (C := gset Z) l Hnd), <- size_dom.
  apply subseteq_size. intros x Hx%elem_of_list_to_set. apply elem_of_dom. auto.
Qed.

Lemma chain_present h a bs e x : chain h a bs e → x ∈ (layout a bs).*1.*1 → is_Some (h !! x).
Proof.
  revert a. induction bs as [|[sz fr] bs IH]; intros a; simpl; [by intros _ ?%not_elem_of_nil|].
  intros (Hc & _ & _ & Hch) [->|Hx]%elem_of_cons; [|by eapply IH].
  unfold core_at in Hc. by destruct (h !! a).
Qed.

Lemma seg_present h p l n x : seg h p l n → x ∈ l → is_Some (h !! x).
Proof.
  intros Hseg Hx. apply list_elem_of_split in Hx as (l1 & l2 & ->).
  apply seg_app in Hseg as [_ [Hl _]]. unfold links_at in Hl. by destruct (h !! x).
Qed.

Lemma chain_span16 h a bs e : chain h a bs e → span bs mod 16 = 0.
Proof.
  revert a. induction bs as [|[sz fr] bs IH]; intros a; simpl; [done|].
  intros (_ & _ & H & Hc). specialize (IH _ Hc). unfold HEADER. dlia.
Qed.

(** The core of a block of the layout. *)
Lemma heap_ok_core s p1 st bs1 sz fr bs2 p2 fl :
  heap_ok s (p1 ++ (st, bs1 ++ [(sz, fr)] ++ bs2) :: p2) fl →
  let b := st + span bs1 in
  core_at (km_heap s) b = Some (hcore sz fr (after (b + HEADER + sz) bs2)) ∧
  0 ≤ sz ∧ sz mod 16 = 0 ∧ 0 < b ∧ b mod 16 = 0 ∧ b + HEADER + sz < 2 ^ 64.
Proof.
  intros [HP HD HL HF] b.
  destruct (focus_chain _ _ _ _ _ _ _ HP HD ltac:(done)) as (C1 & C2 & C3 & C4).
  destruct (focus_bounds _ _ _ _ _ _ _ HP HD ltac:(done)) as (B0 & B1 & B2 & B3 & B4).
  fold b in C1, C2, C3, B3, B4. cbn [chain span] in *. destruct C2 as (Cb & Csz & C16 & _).
  pose proof (chain_span16 _ _ _ _ C1). replace (b + (HEADER + sz + 0)) with (b + HEADER + sz) in * by lia.
  split_and!; try done; [lia|unfold b; dlia|lia].
Qed.

Lemma try_alloc_spec E s pools fl size :
  heap_ok s pools fl → 0 ≤ size → size mod 16 = 0 →
  run E (try_alloc size) (λ r s',
    match r with
    | None => s' = s ∧ ∀ x sz, (x, sz, true) ∈ layout_all pools → sz < size
    | Some ptr => ∃ pools' fl' b sz, heap_ok s' pools' fl' ∧ same_km s s' ∧
        pool_range <$> pools' = pool_range <$> pools ∧
        useds (layout_all pools') ≡ₚ (b, sz) :: useds (layout_all pools) ∧
        ptr = b + HEADER ∧ size ≤ sz ∧ 0 < b ∧ b mod 16 = 0
    end) s.
Proof.
  intros Hok Hsz H16. pose proof Hok as [HP HD HL HF]. pose proof HL as (Hseg & Hhd & Hnd & H0).
  unfold try_alloc. run_step. run_step. run_step. rewrite Hhd. eapply run_weaken.
  { apply (find_fit_spec s fl 0); [done|done|]. apply le_S, NoDup_length_size; [done|].
    intros x. by eapply seg_present. }
  { done. }
  intros [b|] s' [-> Hr].
  - destruct Hr as (hb & Hb & Hhb & Hfit). rewrite HF in Hb. apply elem_of_frees in Hb as [sz Hb].
    apply locate in Hb as (p1 & st & bs1 & bs2 & p2 & -> & ->).
    destruct (heap_ok_core _ _ _ _ _ _ _ _ _ Hok) as (Cb & Csz & C16 & B1 & B2 & B3).
    assert (k_size hb = sz) as Hks.
    { unfold core_at in Cb. rewrite Hhb in Cb. simpl in Cb. by injection Cb. }
    run_step. eapply run_mono; [apply (take_block_spec E s p1 st bs1 sz bs2 p2 fl size Hok); [lia|done]|].
    intros [] s' (fl' & sz' & rest & Hok' & Hk & Hle & Hsp & Hrest). run_step.
    eexists _, fl', (st + span bs1), sz'. split_and!; [exact Hok'|done|by rewrite !fmap_app| | |done|done|done].
    + destruct (useds_focus p1 p2 st bs1 [(sz, true)] bs2) as [R HR].
      rewrite (HR ((sz', false) :: rest)) by (simpl in *; lia). rewrite (HR [(sz, true)]) by done.
      simpl. by destruct Hrest as [->|[n ->]].
    + apply wrap_small. unfold in_width, HEADER in *. lia.
  - run_step. split; [done|]. intros x sz Hx. pose proof Hx as Hx'.
    apply locate in Hx' as (p1 & st & bs1 & bs2 & p2 & -> & ->).
    destruct (heap_ok_core _ _ _ _ _ _ _ _ _ Hok) as (Cb & _).
    unfold core_at in Cb. destruct (km_heap s !! (st + span bs1)) as [hb|] eqn:Ehb; [|done].
    simpl in Cb. injection Cb as <- _ _ _. eapply Hr; [|exact Ehb]. rewrite HF. apply elem_of_frees.
    eexists. exact Hx.
Qed.

(** ** Growing the heap *)

Lemma expand_pool_spec s pools fl others :
  heap_ok s pools fl → ra_live (km_vm s) ((pool_range <$> pools) ++ others) →
  run vm_panic expand_pool (λ ok s',
    g_km_initialized s' = g_km_initialized s ∧ g_kmalloc_lock s' = g_kmalloc_lock s ∧
    ∃ pools' fl', heap_ok s' pools' fl' ∧ ra_live (km_vm s') ((pool_range <$> pools') ++ others) ∧
      useds (layout_all pools') = useds (layout_all pools) ∧
      if ok then ∃ st, pools' = (st, [(KMALLOC_POOL_SIZE - HEADER, true)]) :: pools else pools' = pools) s.
Proof.
  intros Hok Hlive. pose proof Hok as [HP HD HL HF]. unfold expand_pool. run_step. apply run_zoom.
  eapply run_mono; [apply (ra_alloc_pages _ _ _ _ Hlive); [unfold KMALLOC_POOL_SIZE; lia|reflexivity]|].
  intros st v' [[-> Hl]|(Hst & Hal & Hend & Hl)].
  { run_steps. simpl. split_and!; [done|done|]. exists pools, fl. split_and!; try done. }
  destruct (Z.eqb_spec st 0); [lia|]. cbv iota. set (s0 := set_km_vm v' s).
  assert (heap_ok s0 pools fl) as Hok0 by done.
  pose proof (ra_disjoint _ _ Hl) as Hd. simpl in Hd. destruct Hd as [Hd _].
  assert (∀ x p, p ∈ pools → x ∈ (layout p.1 p.2).*1.*1 → x ≠ st) as Hfresh.
  { intros x p Hp Hx ->. eapply Forall_forall in HP as (Hc & Hs & _); [|exact Hp].
    apply addr_in_span in Hx; [|by eapply chain_sizes]. rewrite Hs in Hx.
    apply (Hd st); [unfold in_range, KMALLOC_POOL_SIZE; simpl; lia|]. apply covered_app. left.
    exists (pool_range p). split; [by apply list_elem_of_fmap_2|]. unfold in_range. simpl. lia. }
  assert (st ∉ fl) as Hstf.
  { rewrite HF. intros [sz Hx]%elem_of_frees. apply list_elem_of_bind in Hx as (p & Hx & Hp).
    eapply (Hfresh st p); [done| |done].
    by apply (list_elem_of_fmap_2 fst _ (st, sz)), (list_elem_of_fmap_2 fst _ (st, sz, true)). }
  run_step. eapply run_mono; [by apply (update_spec _ s0 fl st _ (csize (KMALLOC_POOL_SIZE - HEADER)))|].
  intros [] s1 (F1 & K1 & D1). run_step. eapply run_mono; [by apply (update_spec _ s1 fl st _ (cnext 0))|].
  intros [] s2 (F2 & K2 & D2). run_step.
  eapply run_mono; [apply (free_list_insert_spec _ s2 fl); [done|done|lia]|].
  intros [] s3 (F3 & K3 & D3). run_step.
  assert (same_km s0 s3) as (K1' & K2' & K3') by (do 2 (etrans; [eassumption|]); done).
  split_and!; [done|done|]. exists ((st, [(KMALLOC_POOL_SIZE - HEADER, true)]) :: pools), (st :: fl).
  split_and!; [split| |done|by eexists].
  - constructor.
    + unfold pool_ok. cbn [chain span fst snd]. split_and!; try done; try lia.
      2: { change (16) with (2 ^ 4). apply Z.mod_divide; [lia|]. apply Z.mod_divide in Hal as [k ->]; [|lia].
           exists (k * 256). lia. }
      rewrite D3, decide_True by done. rewrite D2, decide_True by done. rewrite D1, decide_True by done.
      by destruct (core_at (km_heap s0) st) as [[[[? ?] ?] ?]|].
    + apply Forall_forall. intros p Hp. pose proof HP as HP'. eapply Forall_forall in HP' as (Hc & Hr); [|exact Hp].
      split; [|done]. eapply chain_ext; [|exact Hc]. intros x Hx. pose proof (Hfresh x p Hp Hx).
      rewrite D3, decide_False by done. rewrite D2, decide_False by done. by rewrite D1, decide_False.
  - split; [|done]. intros x Hx Hc. apply (Hd x); [done|]. apply covered_app. by left.
  - done.
  - change (frees (layout_all ((st, [(KMALLOC_POOL_SIZE - HEADER, true)]) :: pools)))
      with (st :: frees (layout_all pools)). by rewrite HF.
  - rewrite K3'. exact Hl.
Qed.
(** ** Allocation *)

(** The heap invariant seen by clients: [used] are the allocated blocks (header
    address and payload size), [others] the vmalloc ranges of other clients. *)
Definition heap_live s (others : list vmalloc_range_t) (used : list (Z * Z)) : Prop :=
  ∃ pools fl, heap_ok s pools fl ∧ ra_live (km_vm s) ((pool_range <$> pools) ++ others) ∧
    used ≡ₚ useds (layout_all pools).

Definition km_inv s (others : list vmalloc_range_t) (used : list (Z * Z)) : Prop :=
  g_kmalloc_lock s = false ∧ heap_live s others used.

Lemma heap_live_lock b s others used : heap_live s others used → heap_live (set_km_lock b s) others used.
Proof. intros (pools & fl & [? ? ? ?] & ? & ?). by exists pools, fl. Qed.

Lemma km_inv_unlock s others used : heap_live s others used → km_inv (set_km_lock false s) others used.
Proof. intros H. split; [done|]. by apply heap_live_lock. Qed.

Lemma kmalloc_init_locked_spec s others used :
  heap_live s others used →
  run vm_panic kmalloc_init_locked (λ ok s', heap_live s' others used) s.
Proof.
  intros (pools & fl & Hok & Hl & Hu). unfold kmalloc_init_locked. run_step. run_step.
  destruct (g_km_initialized s); [run_step; by exists pools, fl|]. run_step.
  eapply run_mono; [by apply (expand_pool_spec _ pools fl)|].
  intros ok s' (_ & _ & pools' & fl' & Hok' & Hl' & Hu' & _). destruct ok; cbn [negb]; run_steps; simpl.
  - exists pools', fl'. split_and!; [by destruct Hok'; split|done|by rewrite Hu, Hu'].
  - exists pools', fl'. split_and!; [done|done|by rewrite Hu, Hu'].
Qed.

(** What a successful allocation returns. *)
Definition allocated s' others used (size ptr : Z) : Prop :=
  ∃ b sz, ptr = b + HEADER ∧ size ≤ sz ∧ 0 < b ∧ b mod 16 = 0 ∧ heap_live s' others ((b, sz) :: used).

Lemma try_alloc_live E s others used size :
  heap_live s others used → 0 ≤ size → size mod 16 = 0 →
  run E (try_alloc size) (λ r s',
    match r with Some ptr => allocated s' others used size ptr | None => s' = s end) s.
Proof.
  intros (pools & fl & Hok & Hl & Hu) Hsz H16. eapply run_mono; [by apply (try_alloc_spec E s pools fl)|].
  intros [ptr|] s'; [|by intros [? _]].
  intros (pools' & fl' & b & sz & Hok' & (_ & _ & Hv) & Hr & Hus & -> & Hle & Hb & Hb16).
  exists b, sz. split_and!; try done. exists pools', fl'. split_and!; [done|by rewrite Hv, Hr|by rewrite Hus, Hu].
Qed.

Lemma align16 size : in_width 64 size →
  0 ≤ align_up_sz size KMALLOC_ALIGN ∧ align_up_sz size KMALLOC_ALIGN mod 16 = 0 ∧
  (size ≤ 2 ^ 64 - 16 → size ≤ align_up_sz size KMALLOC_ALIGN < size + 16) ∧
  (2 ^ 64 - 16 < size → align_up_sz size KMALLOC_ALIGN = 0).
Proof.
  unfold in_width, align_up_sz. intros Hs. change KMALLOC_ALIGN with (2 ^ 4).
  destruct (decide (size ≤ 2 ^ 64 - 16)).
  - rewrite align_up_exact by lia. change (2 ^ 4) with 16. split_and!; try lia; dlia.
  - rewrite align_up_wraps by lia. split_and!; try done; lia.
Qed.

Lemma kmalloc_spec s others used size :
  km_inv s others used → in_width 64 size →
  run vm_panic (kmalloc size) (λ ptr s',
    g_kmalloc_lock s' = false ∧
    ((ptr = 0 ∧ heap_live s' others used) ∨
     (0 < size ∧ allocated s' others used (align_up_sz size KMALLOC_ALIGN) ptr))) s.
Proof.
  intros [Hlk Hlive] Hsz. destruct (align16 size Hsz) as (A1 & A2 & _). unfold kmalloc.
  destruct (Z.eqb_spec size 0) as [->|Hnz]; [run_steps; by auto|]. unfold in_width in Hsz. cbv iota.
  assert (∀ s' ptr, allocated s' others used (align_up_sz size KMALLOC_ALIGN) ptr →
    allocated (set_km_lock false s') others used (align_up_sz size KMALLOC_ALIGN) ptr) as Hrel.
  { intros s' ptr (b & sz & ? & ? & ? & ? & ?). exists b, sz. split_and!; try done. by apply heap_live_lock. }
  run_step. apply run_acquire; [done|]. run_step.
  eapply run_mono; [apply (kmalloc_init_locked_spec _ others used); by apply heap_live_lock|].
  intros ok s1 Hl1. destruct ok; cbn [negb].
  2: { run_step. apply run_release. run_step. split; [done|]. left. split; [done|]. by apply heap_live_lock. }
  cbv zeta. run_step. eapply run_mono; [by apply (try_alloc_live _ s1 others used)|].
  intros [ptr|] s2.
  { intros Ha. run_step. apply run_release. run_step. split; [done|]. right. split; [lia|auto]. }
  intros ->. destruct Hl1 as (pools & fl & Hok & Hl & Hu). run_step.
  eapply run_mono; [by apply (expand_pool_spec _ pools fl)|].
  intros grown s3 (_ & _ & pools' & fl' & Hok' & Hl' & Hu' & _).
  assert (heap_live s3 others used) as Hl3.
  { exists pools', fl'. split_and!; [done|done|by rewrite Hu, Hu']. }
  destruct grown; cbn [negb].
  2: { run_step. apply run_release. run_step. split; [done|]. left. split; [done|]. by apply heap_live_lock. }
  run_step. eapply run_mono; [by apply (try_alloc_live _ s3 others used)|].
  intros [ptr|] s4; simpl.
  - intros Ha. run_step. apply run_release. run_step. split; [done|]. right. split; [lia|auto].
  - intros ->. run_step. apply run_release. run_step. split; [done|]. left. split; [done|]. by apply heap_live_lock.
Qed.

(** ** Release *)

(** The free blocks at the head of [bs], and what follows them. *)
Fixpoint free_run (bs : blocks) : blocks :=
  match bs with (n, true) :: bs' => (n, true) :: free_run bs' | _ => [] end.
Fixpoint after_run (bs : blocks) : blocks :=
  match bs with (_, true) :: bs' => after_run bs' | _ => bs end.

Lemma coalesce_spec E s p1 st bs1 sz bs2 p2 fl fuel :
  let b := st + span bs1 in
  heap_ok s (p1 ++ (st, bs1 ++ [(sz, true)] ++ bs2) :: p2) fl → (length bs2 ≤ fuel)%nat →
  run E (coalesce fuel b) (λ _ s', ∃ fl',
    let sz' := sz + span (free_run bs2) in
    heap_ok s' (p1 ++ (st, bs1 ++ [(sz', true)] ++ after_run bs2) :: p2) fl' ∧ same_km s s' ∧
    useds (layout (b + HEADER + sz') (after_run bs2)) = useds (layout (b + HEADER + sz) bs2)) s.
Proof.
  intros b. revert s sz fl fuel. induction bs2 as [|[sz2 fr2] bs2 IH]; intros s sz fl fuel Hok Hlen.
  { destruct (heap_ok_core _ _ _ _ _ _ _ _ _ Hok) as (Cb & _).
    destruct fuel; cbn [coalesce]; run_step; (eapply block_spec; [exact Cb|]); intros hb _ [= E1 E2 E3 E4];
      rewrite E2; run_steps; exists fl; simpl; rewrite Z.add_0_r; by split_and!. }
  destruct (heap_ok_core _ _ _ _ _ _ _ _ _ Hok) as (Cb & Csz & C16 & Hb0 & Hb16 & Hbend).
  cbn [after] in Cb. fold b in Cb, Hb0, Hbend.
  destruct fuel as [|fuel]; [simpl in Hlen; lia|]. cbn [coalesce].
  assert (bs1 ++ [(sz, true)] ++ (sz2, fr2) :: bs2 = (bs1 ++ [(sz, true)]) ++ [(sz2, fr2)] ++ bs2) as Hassoc
    by (by rewrite <- (assoc_L (++))).
  pose proof Hok as Hok2. rewrite Hassoc in Hok2.
  destruct (heap_ok_core _ _ _ _ _ _ _ _ _ Hok2) as (Cn & Cnsz & Cn16 & _ & _ & Hnend).
  rewrite span_app in Cn, Hnend. cbn [span] in Cn, Hnend.
  replace (st + (span bs1 + (HEADER + sz + 0))) with (b + HEADER + sz) in Cn, Hnend by (unfold b; lia).
  set (nx := b + HEADER + sz) in *. set (nn := after (nx + HEADER + sz2) bs2) in *.
  run_step. eapply block_spec; [exact Cb|]. intros hb _ [= E1 E2 E3 E4]. rewrite E2.
  destruct (Z.eqb_spec nx 0); [unfold nx, HEADER in *; lia|]. cbv iota zeta.
  run_step. eapply block_spec; [exact Cn|]. intros hn _ [= G1 G2 G3 G4]. rewrite G3.
  destruct fr2; cbv iota.
  2: { change (0 =? 0) with true. cbv iota. run_step. exists fl.
       cbn [free_run after_run span]. rewrite Z.add_0_r. by split_and!. }
  change (1 =? 0) with false. cbv iota.
  assert (nx ∈ fl) as Hnf.
  { rewrite (ho_fl _ _ _ Hok2). apply elem_of_frees. exists sz2. rewrite layout_all_focus, span_app. simpl.
    replace (st + (span bs1 + (HEADER + sz + 0))) with nx by (unfold nx, b; lia). set_solver. }
  apply list_elem_of_split in Hnf as (l1 & l2 & ->).
  run_step. eapply run_mono; [apply (free_list_remove_spec E s l1 nx l2), Hok|].
  intros [] s1 (F1 & K1 & D1). run_step. eapply block_spec; [by rewrite D1|]. intros hn' _ [= G1' G2' G3' G4'].
  run_step. eapply block_spec; [by rewrite D1|]. intros hb' _ [= E1' E2' E3' E4']. rewrite G1', G2', E1'.
  rewrite wrap_small by (unfold in_width, nx, HEADER in *; lia).
  run_step. eapply run_mono; [by apply (update_spec E s1 (l1 ++ l2) b _ (csize (sz + (HEADER + sz2))))|].
  intros [] s2 (F2 & K2 & D2). run_step. eapply run_mono; [by apply (update_spec E s2 (l1 ++ l2) b _ (cnext nn))|].
  intros [] s3 (F3 & K3 & D3). run_step. eapply run_mono; [by apply (update_spec E s3 (l1 ++ l2) nx _ (cmagic 0))|].
  intros [] s4 (F4 & K4 & D4).
  assert (nx ≠ b) as Hnb by (unfold nx, HEADER; lia).
  assert (core_at (km_heap s4) b = Some (hcore (sz + (HEADER + sz2)) true nn)) as Db.
  { rewrite D4, decide_False by done. rewrite D3, decide_True by done. rewrite D2, decide_True by done.
    by rewrite D1, Cb. }
  assert (∀ x, x ≠ b → x ≠ nx → core_at (km_heap s4) x = core_at (km_heap s) x) as Dx.
  { intros x Hx1 Hx2. rewrite D4, decide_False by done. rewrite D3, decide_False by done.
    rewrite D2, decide_False by done. apply D1. }
  assert (heap_ok s4 (p1 ++ (st, bs1 ++ [(sz + (HEADER + sz2), true)] ++ bs2) :: p2) (l1 ++ l2)) as Hok4.
  { assert (p1 ++ (st, bs1 ++ [(sz, true); (sz2, true)] ++ bs2) :: p2 =
      p1 ++ (st, bs1 ++ [(sz, true)] ++ (sz2, true) :: bs2) :: p2) as Heq by done.
    destruct (frees_focus p1 p2 st bs1 [(sz, true); (sz2, true)] bs2) as [R HR].
    specialize (HR _ eq_refl). rewrite Heq, <- (ho_fl _ _ _ Hok) in HR. cbn in HR. fold b nx in HR.
    eapply (heap_ok_replace s s4 p1 st bs1 [(sz, true); (sz2, true)] _ bs2 p2 (l1 ++ nx :: l2) _ R);
      [by rewrite Heq|done|done|simpl; lia| | |exact F4| |].
    - cbn [chain span]. fold b. split_and!; try done; [|unfold HEADER; lia|unfold HEADER; dlia].
      rewrite Db. unfold nn, nx. do 2 f_equal. f_equal. lia.
    - intros x Hx. cbn [span] in Hx. fold b in Hx. apply Dx; unfold nx, HEADER in *; lia.
    - exact HR.
    - cbn. fold b. apply (Permutation_cons_inv (a := nx)). rewrite Permutation_middle, HR. apply Permutation_swap. }
  eapply run_mono; [apply (IH s4 _ _ fuel Hok4); simpl in Hlen; lia|].
  intros [] s5 (fl' & Hok5 & K5 & Hus). exists fl'. cbn [free_run after_run span].
  replace (sz + (HEADER + sz2) + span (free_run bs2)) with (sz + (HEADER + sz2 + span (free_run bs2)))
    in Hok5, Hus by lia.
  split_and!; try done.
  - do 4 (etrans; [eassumption|]). done.
  - rewrite Hus. simpl. unfold nx in *. do 2 f_equal. lia.
Qed.

(** Releasing block [b] of payload size [sz]: in some pool it was allocated, with
    the blocks [bs2] behind it; now it is free and extends over all free blocks
    that directly followed it, which are no blocks any more, and the block after
    it, if any, is allocated.  All other blocks are as before. *)
Definition merged s s' (b sz : Z) : Prop :=
  ∃ p1 st bs1 bs2 p2 fl fl',
    b = st + span bs1 ∧
    heap_ok s (p1 ++ (st, bs1 ++ [(sz, false)] ++ bs2) :: p2) fl ∧
    heap_ok s' (p1 ++ (st, bs1 ++ [(sz + span (free_run bs2), true)] ++ after_run bs2) :: p2) fl'.

Lemma kfree_spec E s others used b sz :
  km_inv s others ((b, sz) :: used) →
  run E (kfree (b + HEADER)) (λ _ s', km_inv s' others used ∧ merged s s' b sz) s.
Proof.
  intros [Hlk (pools & fl & Hok & Hl & Hu)].
  assert ((b, sz, false) ∈ layout_all pools) as Hin.
  { apply elem_of_useds. rewrite <- Hu. set_solver. }
  apply locate in Hin as (p1 & st & bs1 & bs2 & p2 & -> & ->).
  destruct (heap_ok_core _ _ _ _ _ _ _ _ _ Hok) as (Cb & Csz & C16 & Hb0 & Hb16 & Hbend).
  set (b := st + span bs1) in *. unfold kfree, HEADER in *.
  destruct (Z.eqb_spec (b + 48) 0); [lia|]. cbv iota zeta. run_step. apply run_acquire; [done|].
  replace (b + 48 - 48) with b by lia. rewrite wrap_small by (unfold in_width; lia).
  run_step. eapply block_spec; [exact Cb|]. intros hb _ [= E1 E2 E3 E4]. rewrite E4, E3.
  change (KMALLOC_MAGIC_USED =? KMALLOC_MAGIC_FREE) with false. rewrite Z.eqb_refl. cbn [negb]. change (negb (0 =? 0)) with false. cbv iota.
  assert (heap_ok (set_km_lock true s) (p1 ++ (st, bs1 ++ [(sz, false)] ++ bs2) :: p2) fl) as Hok0
    by (by destruct Hok; split).
  assert (b ∉ fl) as Hbf.
  { intros Hin. eapply (focus_elem _ _ _ _ _ _ _ _ b Hok) in Hin; [|done|simpl; unfold HEADER; lia].
    simpl in Hin. by apply not_elem_of_nil in Hin. }
  run_step. eapply run_mono; [apply (free_list_insert_spec _ (set_km_lock true s) fl); [apply Hok0|done|lia]|].
  intros [] s1 (F1 & K1 & D1).
  assert (heap_ok s1 (p1 ++ (st, bs1 ++ [(sz, true)] ++ bs2) :: p2) (b :: fl)) as Hok1.
  { eapply (heap_ok_replace _ s1 p1 st bs1 [(sz, false)] [(sz, true)] bs2 p2 fl _ fl Hok0); try done.
    - cbn [chain span]. fold b. split_and!; try done. rewrite D1, decide_True by done.
      simpl km_heap. rewrite Cb. unfold HEADER. simpl. do 2 f_equal. by replace (b + (48 + sz + 0)) with (b + 48 + sz) by lia.
    - intros x Hx. cbn [span] in Hx. fold b in Hx. unfold HEADER in Hx. rewrite D1, decide_False; [done|]. lia. }
  run_step. run_step. run_step. eapply run_mono.
  { apply (coalesce_spec _ s1 p1 st bs1 sz bs2 p2 (b :: fl)); [exact Hok1|].
    pose proof (ho_pools _ _ _ Hok1) as HP. pose proof (ho_disj _ _ _ Hok1) as HD.
    destruct (focus_chain _ _ _ _ _ _ _ HP HD ltac:(done)) as (_ & _ & C3 & _).
    destruct (layout_geometry (st + span bs1 + span [(sz, true)]) bs2 (chain_sizes _ _ _ _ C3)) as [G1 _].
    pose proof (NoDup_length_size (km_heap s1) _ (disjoint_NoDup _ (chain_layout_sizes _ _ _ _ C3) G1)
      (λ x, chain_present _ _ _ _ x C3)) as Hlen.
    rewrite !length_fmap, layout_length in Hlen. exact Hlen. }
  set (sz' := sz + span (free_run bs2)). set (bs2' := after_run bs2).
  intros [] s2 (fl' & Hok2 & K2 & Hus). fold sz' bs2' in Hok2, Hus. apply run_release. split.
  2: { exists p1, st, bs1, bs2, p2, fl, fl'. split_and!; [done|done|]. by destruct Hok2. }
  split; [done|]. apply heap_live_lock. destruct K1 as (_ & _ & K1), K2 as (_ & _ & K2).
  assert (pool_range <$> p1 ++ (st, bs1 ++ [(sz', true)] ++ bs2') :: p2 =
    pool_range <$> p1 ++ (st, bs1 ++ [(sz, false)] ++ bs2) :: p2) as Hpr by (by rewrite !fmap_app).
  eexists _, fl'. split_and!; [exact Hok2|rewrite K2, K1, Hpr; exact Hl|].
  apply (Permutation_cons_inv (a := (b, sz))). rewrite Hu, !layout_all_focus, !useds_app. fold b in Hus |- *.
  unfold HEADER in *. cbn [layout span]. unfold HEADER.
  replace (b + (48 + sz' + 0)) with (b + 48 + sz') by lia. replace (b + (48 + sz + 0)) with (b + 48 + sz) by lia.
  rewrite Hus. cbn. by rewrite <- !Permutation_middle.
Qed.

(** * Consequences of the invariant *)

(** The payloads of the allocated blocks. *)
Definition payloads (used : list (Z * Z)) : list vmalloc_range_t :=
  (λ u : Z * Z, mkRange (u.1 + HEADER) u.2) <$> used.

Lemma useds_payloads L :
  Forall (λ b : Z * Z * bool, 0 ≤ b.1.2) L → pairwise_disjoint (blk_range <$> L) →
  pairwise_disjoint (payloads (useds L)) ∧
  ∀ x, covered (payloads (useds L)) x → covered (blk_range <$> L) x.
Proof.
  induction L as [|[[a sz] fr] L IH]; simpl; [done|]. intros [Hsz Hall]%Forall_cons [Hd HL].
  destruct (IH Hall HL) as [IH1 IH2]. destruct fr; simpl.
  - split; [done|]. intros x Hx. apply covered_cons. auto.
  - assert (∀ x, in_range (mkRange (a + HEADER) sz) x → in_range (blk_range (a, sz, false)) x) as Hsub.
    { intros x. unfold in_range, blk_range, HEADER. simpl. lia. }
    split; [split; [|done]|].
    + intros x Hx Hc. apply (Hd x); auto.
    + intros x. rewrite !covered_cons. intros [?|?]; auto.
Qed.

Lemma heap_ok_geometry s pools fl :
  heap_ok s pools fl →
  Forall (λ b : Z * Z * bool, 0 ≤ b.1.2) (layout_all pools) ∧
  pairwise_disjoint (blk_range <$> layout_all pools).
Proof.
  intros [HP HD _ _]. split; [|by eapply pools_geometry].
  apply Forall_forall. intros [[a sz] fr] Hin. apply list_elem_of_bind in Hin as (p & Hin & Hp).
  eapply Forall_forall in HP as (Hc & _); [|exact Hp]. apply chain_layout_sizes in Hc.
  by eapply Forall_forall in Hc; [|exact Hin].
Qed.

Lemma heap_live_disjoint s others used :
  heap_live s others used →
  pairwise_disjoint (payloads used) ∧
  (∀ b sz, (b, sz) ∈ used → 0 < b ∧ (b + HEADER) mod 16 = 0 ∧ 0 ≤ sz ∧ sz mod 16 = 0).
Proof.
  intros (pools & fl & Hok & _ & Hu). destruct (heap_ok_geometry _ _ _ Hok) as [G1 G2].
  split.
  - destruct (useds_payloads _ G1 G2) as [G3 _]. unfold payloads in *. by rewrite Hu.
  - intros b sz Hin. rewrite Hu in Hin. apply elem_of_useds in Hin.
    apply locate in Hin as (p1 & st & bs1 & bs2 & p2 & -> & ->).
    destruct (heap_ok_core _ _ _ _ _ _ _ _ _ Hok) as (_ & ? & ? & ? & ? & _). unfold HEADER.
    split_and!; try done. dlia.
Qed.
(** A free block is recognised as such. *)
Lemma kfree_free_block s pools fl b sz :
  heap_ok s pools fl → g_kmalloc_lock s = false → (b, sz, true) ∈ layout_all pools →
  kfree (b + HEADER) s = Ok (tt, s).
Proof.
  intros Hok Hlk Hin. apply locate in Hin as (p1 & st & bs1 & bs2 & p2 & -> & ->).
  destruct (heap_ok_core _ _ _ _ _ _ _ _ _ Hok) as (Cb & Csz & C16 & Hb0 & Hb16 & Hbend).
  set (b := st + span bs1) in *. unfold core_at in Cb. destruct (km_heap s !! b) as [hb|] eqn:Ehb; [|done].
  injection Cb as E1 E2 E3 E4. unfold kfree, HEADER, bind, km_lock, acquire, block in *.
  destruct (Z.eqb_spec (b + 48) 0); [lia|]. rewrite Hlk. cbv zeta.
  replace (b + 48 - 48) with b by lia. rewrite wrap_small by (unfold in_width; lia).
  simpl km_heap. rewrite Ehb. cbv iota beta. rewrite E4. change (KMALLOC_MAGIC_FREE =? KMALLOC_MAGIC_FREE) with true.
  destruct s. simpl in *. by subst.
Qed.

(** ** Clients

    [live] are the blocks a client holds, with the sizes it asked for. *)
Inductive km_step : state * list vmalloc_range_t → state * list vmalloc_range_t → Prop :=
  | km_alloc s s' live size ptr :
      0 ≤ size ≤ 2 ^ 64 - 16 → kmalloc size s = Ok (ptr, s') → ptr ≠ 0 →
      km_step (s, live) (s', mkRange ptr size :: live)
  | km_alloc_fails s s' live size :
      in_width 64 size → kmalloc size s = Ok (0, s') → km_step (s, live) (s', live)
  | km_free s s' l1 r l2 :
      kfree (r_start r) s = Ok (tt, s') → km_step (s, l1 ++ r :: l2) (s', l1 ++ l2).

(** Every block the client holds is an allocated block at least that large. *)
Definition holds (others : list vmalloc_range_t) (c : state * list vmalloc_range_t) : Prop :=
  ∃ used, km_inv c.1 others used ∧
    Forall2 (λ r (u : Z * Z), r_start r = u.1 + HEADER ∧ r_size r ≤ u.2) c.2 used.

Lemma km_inv_perm s others used used' : used ≡ₚ used' → km_inv s others used → km_inv s others used'.
Proof. intros Hp [? (pools & fl & ? & ? & Hu)]. split; [done|]. exists pools, fl. by rewrite <- Hp. Qed.

Lemma km_step_holds others c c' : km_step c c' → holds others c → holds others c'.
Proof.
  intros [s s' live size ptr Hsz Hrun Hne|s s' live size Hsz Hrun|s s' l1 r l2 Hrun] (used & Hinv & Hall);
    simpl in *.
  - assert (in_width 64 size) as Hw by (unfold in_width; lia).
    destruct (run_Ok _ _ _ _ _ _ (kmalloc_spec s others used size Hinv Hw) Hrun) as (Hl & [[-> _]|(_ & Ha)]); [done|].
    destruct Ha as (b & sz & -> & Hle & _ & _ & Hlive). exists ((b, sz) :: used). split; [done|].
    constructor; [|done]. simpl. split; [done|]. destruct (align16 size Hw) as (_ & _ & Ha & _). lia.
  - destruct (run_Ok _ _ _ _ _ _ (kmalloc_spec s others used size Hinv Hsz) Hrun) as (Hl & [[_ ?]|(_ & Ha)]).
    { by exists used. }
    destruct Ha as (b & sz & ? & _ & ? & _). unfold HEADER in *. lia.
  - apply Forall2_app_inv_l in Hall as (u1 & [|[b sz] u2] & H1 & H2 & ->); [by inversion H2|].
    apply Forall2_cons in H2 as [[Hr Hsz] H2]. simpl in *. exists (u1 ++ u2).
    split; [|by apply Forall2_app]. rewrite Hr in Hrun.
    apply (km_inv_perm _ _ _ ((b, sz) :: u1 ++ u2)) in Hinv; [|by rewrite Permutation_middle].
    exact (proj1 (run_Ok _ _ _ _ _ _ (kfree_spec never s others (u1 ++ u2) b sz Hinv) Hrun)).
Qed.

Lemma holds_disjoint others c : holds others c → pairwise_disjoint c.2.
Proof.
  intros (used & [_ Hlive] & Hall). destruct (heap_live_disjoint _ _ _ Hlive) as [Hd _]. clear Hlive.
  assert (∀ live u, Forall2 (λ r (u : Z * Z), r_start r = u.1 + HEADER ∧ r_size r ≤ u.2) live u →
    ∀ x, covered live x → covered (payloads u) x) as Hcov.
  { intros live u. induction 1 as [|r [b sz] live u [Hr Hsz] _ IH]; [done|]. intros x. simpl in *.
    rewrite !covered_cons. unfold in_range. simpl. intros [?|?]; [left; lia|right; auto]. }
  induction Hall as [|r [b sz] live used [Hr Hsz] Hall IH]; simpl in *; [done|]. destruct Hd as [Hd1 Hd2].
  split; [|auto]. intros x Hx Hc. apply (Hd1 x); [|by eapply Hcov]. unfold in_range in *. simpl. lia.
Qed.

(** * Properties *)

(** C7. [kmalloc] in the invariant always returns (or vmalloc panics) with the
    lock released. A null result leaves all allocations as they were. A
    non-null result lies behind the header of a block that was not allocated
    before, is 16-byte aligned and has at least the rounded-up size; all blocks
    allocated before keep their address and size. *)
Theorem kmalloc_correct s others used size :
  km_inv s others used → in_width 64 size →
  run vm_panic (kmalloc size) (λ ptr s',
    (ptr = 0 ∧ km_inv s' others used) ∨
    (∃ b sz, ptr = b + HEADER ∧ ptr ≠ 0 ∧ ptr mod 16 = 0 ∧
       align_up_sz size KMALLOC_ALIGN ≤ sz ∧ km_inv s' others ((b, sz) :: used))) s.
Proof.
  intros Hinv Hsz. eapply run_mono; [by apply kmalloc_spec|].
  intros ptr s' (Hl & [[-> ?]|(_ & b & sz & -> & Hle & Hb & Hb16 & ?)]); [by left|right].
  exists b, sz. unfold HEADER. split_and!; try done; [lia|dlia].
Qed.

(** C30. [kfree] of an allocated block returns (the coalescing loop terminates) with
    the lock released and every other allocation as it was; the block is free
    and on the free list, its size now covers exactly the free blocks that
    directly followed it, these are off the free list, and the block behind the
    merged one, if its pool has one, is allocated. *)
Theorem kfree_correct s others used b sz :
  km_inv s others ((b, sz) :: used) →
  wp (kfree (b + HEADER)) (λ _ s', km_inv s' others used ∧ merged s s' b sz) s.
Proof. apply kfree_spec. Qed.

(** A second [kfree] of a block that is free and was not absorbed by a
    neighbour is detected: the heap is unchanged and the lock released. *)
Theorem kfree_double_free_detected s pools fl b sz :
  heap_ok s pools fl → g_kmalloc_lock s = false → (b, sz, true) ∈ layout_all pools →
  kfree (b + HEADER) s = Ok (tt, s).
Proof. apply kfree_free_block. Qed.

(** Over any sequence of [kmalloc] and [kfree] calls of a client that frees
    only what it holds, the memory of the blocks it holds (with the sizes it
    asked for) never overlaps. *)
Theorem kmalloc_clients_disjoint others s s' live :
  km_inv s others [] → rtc km_step (s, []) (s', live) → pairwise_disjoint live.
Proof.
  intros Hinv Hsteps. apply (holds_disjoint others (s', live)).
  assert (∀ c c', rtc km_step c c' → holds others c → holds others c') as Hind.
  { induction 1; eauto using km_step_holds. }
  apply (Hind _ _ Hsteps). by exists [].
Qed.

(** A request within 16 bytes of [SIZE_MAX] wraps to zero when it is rounded
    up; with any free block available [kmalloc] returns a non-null pointer for
    it instead of failing. *)
Theorem kmalloc_huge_request_wraps s pools fl size b sz :
  heap_ok s pools fl → g_kmalloc_lock s = false → g_km_initialized s = true →
  2 ^ 64 - 16 < size < 2 ^ 64 → (b, sz, true) ∈ layout_all pools →
  ∃ ptr s', kmalloc size s = Ok (ptr, s') ∧ ptr ≠ 0.
Proof.
  intros Hok Hlk Hini Hsz Hin. destruct (align16 size) as (_ & _ & _ & Hw); [unfold in_width; lia|].
  assert (wp (kmalloc size) (λ ptr _, ptr ≠ 0) s) as Hrun.
  { unfold kmalloc. destruct (Z.eqb_spec size 0); [lia|]. cbv iota. run_step. apply run_acquire; [done|].
    run_step. unfold kmalloc_init_locked. run_step. run_step. simpl. rewrite Hini. run_step. cbn [negb].
    cbv zeta. rewrite Hw by lia. run_step.
    assert (heap_ok (set_km_lock true s) pools fl) as Hok' by (by destruct Hok; split).
    eapply run_mono; [by apply (try_alloc_spec never _ pools fl)|].
    intros [ptr|] s'; [|intros [_ Hall]; specialize (Hall _ _ Hin)].
    - intros (? & ? & b' & sz' & _ & _ & _ & _ & -> & _ & Hb & _). run_steps. apply run_release. run_steps.
      unfold HEADER. lia.
    - exfalso. apply locate in Hin as (p1 & st & bs1 & bs2 & p2 & -> & ->).
      destruct (heap_ok_core _ _ _ _ _ _ _ _ _ Hok) as (_ & ? & _). lia. }
  destruct (wp_inv _ _ _ Hrun) as (ptr & s' & ? & ?). eauto.
Qed.
End Heap.

(** * vmalloc implements the contract *)

#[export] Instance vmalloc_region_allocator {P} `{!PageMapper P} : RegionAllocator (kernel_layout * vm_state P) := {
  ra_alloc size flags := λ c,
    match vmalloc c.1 size flags c.2 with
    | Ok (a, v) => Ok (a, (c.1, v)) | Halt msg => Halt msg | Hang => Hang | Fault => Fault
    end;
  ra_live c live := vm_inv c.2 live
}.

#[export] Instance vmalloc_region_allocator_laws {P} `{!PageMapper P, !PageMapperLaws P} :
  RegionAllocatorLaws (kernel_layout * vm_state P).
Proof.
  split; [intros [lay v] live []; done|]. intros [lay v] live size flags Hinv Hsz.
  pose proof (vmalloc_spec lay v live size flags Hinv ltac:(unfold in_width; lia)) as Hrun.
  unfold run, ra_alloc in *. simpl. destruct (vmalloc lay size flags v) as [[addr v']| | |]; try done.
  destruct Hrun as [(-> & ? & _)|(Hne & _ & _ & Hinv')]; [by left|right].
  pose proof Hinv' as [_ _ _ _ V5 _ V7 _ _ _ _]. apply Forall_cons in V7 as [(R1 & R2 & R3 & R4 & _) _].
  simpl in *. unfold PAGE in *. split_and!; try done; lia.
Qed.
