(* ===== verification/KmallocDemo.v ===== *)
(** The heap over a minimal region allocator: the contract of vmalloc can be
    met, and the hypotheses of the heap theorems hold on concrete states. *)

From S2P Require Import Prelude Boot Vmalloc VmallocSpec Kmalloc KmallocSpec.

(** Regions are handed out upwards from a counter, below 1 TiB. *)
#[local] Instance bump : RegionAllocator Z := {
  ra_alloc size flags := λ v, if v + align_up size PAGE <? 2 ^ 40 then Ok (v, v + align_up size PAGE) else Ok (0, v);
  ra_live v live := 0 < v ∧ v mod 4096 = 0 ∧ pairwise_disjoint live ∧ ∀ x, covered live x → x < v
}.

#[local] Instance bump_laws : RegionAllocatorLaws Z.
Proof.
  split; [by intros v live (_ & _ & ? & _)|]. intros v live size flags (Hv & Hal & Hd & Hb) Hsz.
  unfold run, ra_alloc, bump. change PAGE with (2 ^ 12). rewrite align_up_exact by lia. change (2 ^ 12) with 4096.
  destruct (Z.ltb_spec (v + (size + 4096 - 1) / 4096 * 4096) (2 ^ 40)); [right|by left].
  split; [done|]. split; [done|]. split; [lia|]. split; [dlia|]. split; [dlia|]. split.
  - split; [|done]. intros x Hx Hc. apply Hb in Hc. unfold in_range in Hx. simpl in Hx. lia.
  - intros x [Hx|Hc]%covered_cons; [unfold in_range in Hx; simpl in Hx; dlia|]. apply Hb in Hc. dlia.
Qed.

(** Nothing allocated yet. *)
Definition demo_km0 : km_state Z := mkKm ∅ 0 false false 4096.
(** After [kmalloc_init]: one pool, one free block. *)
Definition demo_km : km_state Z :=
  mkKm {[4096 := mkBlock KMALLOC_MAGIC_FREE 1 (KMALLOC_POOL_SIZE - HEADER) 0 0 0]} 4096 true false
    (4096 + KMALLOC_POOL_SIZE).
Definition demo_pools : list (Z * blocks) := [(4096, [(KMALLOC_POOL_SIZE - HEADER, true)])].

Example demo_km_init : kmalloc_init demo_km0 = Ok (tt, demo_km).
Proof. vm_compute. reflexivity. Qed.

Lemma demo_km0_inv : km_inv demo_km0 [] [].
Proof.
  split; [done|]. exists [], []. split; [|split; [|done]].
  - split; [constructor|done| |done]. split; [done|]. split; [done|]. split; [constructor|apply not_elem_of_nil].
  - split; [done|]. split; [done|]. split; [done|]. intros x Hx. by apply covered_nil in Hx.
Qed.

Lemma demo_km_ok : heap_ok demo_km demo_pools [4096].
Proof.
  split.
  - apply Forall_singleton. unfold pool_ok, KMALLOC_POOL_SIZE, HEADER. simpl. split_and!; done || lia.
  - split; [|done]. intros x _ Hx. by apply covered_nil in Hx.
  - split_and!; [by repeat split|done|apply NoDup_singleton|set_solver].
  - reflexivity.
Qed.

Lemma kmalloc_correct_witness :
  run vm_panic (kmalloc 100) (λ ptr s',
    (ptr = 0 ∧ km_inv s' [] []) ∨
    (∃ b sz, ptr = b + HEADER ∧ ptr ≠ 0 ∧ ptr mod 16 = 0 ∧
       align_up_sz 100 KMALLOC_ALIGN ≤ sz ∧ km_inv s' [] [(b, sz)])) demo_km0.
Proof. exact (kmalloc_correct demo_km0 [] [] 100 demo_km0_inv ltac:(split; lia)). Defined.

Definition demo_km1 : km_state Z := match kmalloc 100 demo_km0 with Ok (_, s) => s | _ => demo_km0 end.

Lemma demo_km1_runs : kmalloc 100 demo_km0 = Ok (4144, demo_km1).
Proof. vm_compute. reflexivity. Qed.

Lemma demo_km1_inv : ∃ sz, km_inv demo_km1 [] [(4096, sz)].
Proof.
  pose proof (run_Ok _ _ _ _ _ _ (kmalloc_spec demo_km0 [] [] 100 demo_km0_inv ltac:(split; lia)) demo_km1_runs)
    as (Hl & [[H _]|(_ & b & sz & Hb & _ & _ & _ & Hlive)]); [discriminate|].
  exists sz. split; [exact Hl|]. unfold HEADER in Hb. by replace b with 4096 in Hlive by lia.
Qed.

Lemma kfree_correct_witness :
  ∃ sz, wp (kfree (4096 + HEADER)) (λ _ s', km_inv s' [] [] ∧ merged demo_km1 s' 4096 sz) demo_km1.
Proof. destruct demo_km1_inv as [sz H]. exists sz. exact (kfree_correct demo_km1 [] [] 4096 sz H). Defined.

(** Allocating and freeing leaves one free block again. *)
Example demo_km_round_trip :
  match kfree 4144 demo_km1 with
  | Ok (_, s) => km_heap s !! 4096 = Some (mkBlock KMALLOC_MAGIC_FREE 1 (KMALLOC_POOL_SIZE - HEADER) 0 0 0)
  | _ => False
  end.
Proof. vm_compute. reflexivity. Qed.

Lemma kfree_double_free_detected_witness : kfree (4096 + HEADER) demo_km = Ok (tt, demo_km).
Proof.
  apply (kfree_double_free_detected demo_km demo_pools [4096] 4096 (KMALLOC_POOL_SIZE - HEADER));
    [exact demo_km_ok|reflexivity|apply list_elem_of_singleton; reflexivity].
Defined.

Lemma kmalloc_clients_disjoint_witness : pairwise_disjoint [mkRange 4144 100].
Proof.
  apply (kmalloc_clients_disjoint [] demo_km0 demo_km1); [exact demo_km0_inv|].
  eapply rtc_l; [|apply rtc_refl]. apply km_alloc; [lia|exact demo_km1_runs|discriminate].
Defined.

Lemma kmalloc_huge_request_wraps_witness :
  ∃ ptr s', kmalloc (2 ^ 64 - 1) demo_km = Ok (ptr, s') ∧ ptr ≠ 0.
Proof.
  apply (kmalloc_huge_request_wraps demo_km demo_pools [4096] _ 4096 (KMALLOC_POOL_SIZE - HEADER));
    [exact demo_km_ok|reflexivity|reflexivity|lia|apply list_elem_of_singleton; reflexivity].
Defined.
