(* ===== verification/Disk.v ===== *)
(** Bytes, little-endian fields and the block-device contract shared by the
    storage stack (lib/string.c's [memcpy]/[memcmp] on packed structures, and
    [virtio_blk_read] as its callers see it). *)

From S2P Require Import Prelude.

(** * Bytes *)

(** Bytes are integers in [0, 256); buffers are lists of bytes. *)
Definition is_byte (b : Z) : Prop := 0 ≤ b < 256.

(** [memcpy(&field, buf + off, n)] for a little-endian field. *)
Fixpoint le (bs : list Z) : Z := match bs with [] => 0 | b :: bs' => b + 256 * le bs' end.

(** [n] bytes at offset [off]. *)
Definition bytes (off n : nat) (buf : list Z) : list Z := take n (drop off buf).
Definition field (off n : nat) (buf : list Z) : Z := le (bytes off n buf).
Definition byte (off : nat) (buf : list Z) : Z := default 0 (buf !! off).

(** [memcmp(a, b, n) == 0] *)
Definition memcmp_eq (a b : list Z) (n : nat) : bool :=
  bool_decide (take n a = take n b).

Lemma le_bound bs : Forall is_byte bs → 0 ≤ le bs < 256 ^ Z.of_nat (length bs).
Proof.
  induction 1 as [|b bs Hb _ IH]; simpl; [lia|]. unfold is_byte in Hb.
  rewrite Nat2Z.inj_succ, Z.pow_succ_r by lia. lia.
Qed.

Lemma field_bound off n buf : Forall is_byte buf → 0 ≤ field off n buf < 256 ^ Z.of_nat n.
Proof.
  intros H. pose proof (le_bound (bytes off n buf) ltac:(apply Forall_take, Forall_drop, H)).
  unfold field. assert (length (bytes off n buf) ≤ n)%nat by (unfold bytes; rewrite length_take; lia).
  assert (256 ^ Z.of_nat (length (bytes off n buf)) ≤ 256 ^ Z.of_nat n) by (apply Z.pow_le_mono_r; lia). lia.
Qed.

(** A little-endian field of [n] bytes, written. *)
Fixpoint le_enc (n : nat) (z : Z) : list Z :=
  match n with O => [] | S n' => z mod 256 :: le_enc n' (z / 256) end.

Lemma le_le_enc n z : 0 ≤ z < 256 ^ Z.of_nat n → le (le_enc n z) = z.
Proof.
  revert z. induction n as [|n IH]; intros z Hz; simpl.
  - change (256 ^ Z.of_nat 0) with 1 in Hz. lia.
  - rewrite Nat2Z.inj_succ, Z.pow_succ_r in Hz by lia. pose proof (Z.div_mod z 256 ltac:(lia)).
    rewrite IH; [lia|]. split; [apply Z.div_pos; lia|apply Z.div_lt_upper_bound; lia].
Qed.

(** * The block device *)

Definition SECTOR : Z := 512.

(** [virtio_blk_read(sector, count, buf)] as its callers use it: [None] when it
    returns false, otherwise the bytes it stored. *)
Definition blk_reader : Type := Z → Z → option (list Z).

(** What the callers rely on: the bytes are those of the [count] sectors, and
    sectors do not depend on how they are read. *)
Class DiskLaws (rd : blk_reader) (image : Z → list Z) : Prop := {
  image_length lba : length (image lba) = 512%nat;
  image_bytes lba : Forall is_byte (image lba);
  read_image lba count bs : rd lba count = Some bs →
    0 < count ∧ bs = (seqZ lba count) ≫= image
}.

Lemma bind_length {A B} (f : A → list B) (k : nat) l :
  (∀ x, length (f x) = k) → length (l ≫= f) = (length l * k)%nat.
Proof.
  intros H. induction l as [|x l IH]; [done|].
  change ((x :: l) ≫= f) with (f x ++ (l ≫= f)). rewrite length_app, IH, H. simpl. lia.
Qed.

Lemma read_length `{!DiskLaws rd image} lba count bs :
  rd lba count = Some bs → length bs = (Z.to_nat count * 512)%nat.
Proof.
  intros H. apply read_image in H as [_ ->].
  rewrite (bind_length _ 512) by apply image_length. by rewrite length_seqZ.
Qed.

Lemma read_bytes `{!DiskLaws rd image} lba count bs : rd lba count = Some bs → Forall is_byte bs.
Proof.
  intros H. apply read_image in H as [_ ->].
  induction (seqZ lba count) as [|x l IH]; simpl; [constructor|].
  apply Forall_app. split; [apply image_bytes|done].
Qed.
