(* ===== verification/Str.v ===== *)
(** The byte routines of lib/string.c on a flat memory: [memcmp], [memset] and
    [memcpy] as the loops they are.  The storage stack's models compare and copy byte
    lists; the theorems here say that this is what the loops do. *)

From S2P Require Import Prelude Disk.

(** Bytes by address; an address without a byte is not mapped. *)
Abbreviation memory := (gmap Z Z).
Implicit Types m : memory.

Definition load8 (a : Z) : M memory Z :=
  λ m, match m !! a with Some x => Ok (x, m) | None => Fault end.
Definition store8 (a x : Z) : M memory unit :=
  λ m, match m !! a with Some _ => Ok (tt, <[a := x]> m) | None => Fault end.

(** [p] and [q] are the cursors [&p[i]] and [&q[i]], [n] the iterations left. *)
Fixpoint memcmp_loop (n : nat) (p q : Z) : M memory Z :=
  match n with
  | O => ret 0
  | S n' =>
      let! x := load8 p in
      let! y := load8 q in
      if negb (x =? y) then ret (if x <? y then -1 else 1) else memcmp_loop n' (p + 1) (q + 1)
  end.

Definition memcmp (a b n : Z) : M memory Z := memcmp_loop (Z.to_nat n) a b.

Fixpoint memset_loop (n : nat) (p c : Z) : M memory unit :=
  match n with
  | O => ret tt
  | S n' => store8 p (u8 c);; memset_loop n' (p + 1) c
  end.

Definition memset (dst c n : Z) : M memory Z := memset_loop (Z.to_nat n) dst c;; ret dst.

Fixpoint memcpy_loop (n : nat) (d s : Z) : M memory unit :=
  match n with
  | O => ret tt
  | S n' => let! x := load8 s in store8 d x;; memcpy_loop n' (d + 1) (s + 1)
  end.

Definition memcpy (dst src n : Z) : M memory Z := memcpy_loop (Z.to_nat n) dst src;; ret dst.

(** * What memory holds *)

(** The bytes [xs] lie from [a] on. *)
Definition holds m (a : Z) (xs : list Z) : Prop :=
  ∀ i x, xs !! i = Some x → m !! (a + Z.of_nat i) = Some x.

Lemma holds_cons m a x xs : holds m a (x :: xs) ↔ m !! a = Some x ∧ holds m (a + 1) xs.
Proof.
  split.
  - intros H. split; [by rewrite <- (H 0%nat x eq_refl), Z.add_0_r|].
    intros i y Hi. rewrite <- (H (S i) y Hi). f_equal. lia.
  - intros [H0 H] [|i] y Hi; [by injection Hi as ->; rewrite Z.add_0_r|]. rewrite <- (H i y Hi). f_equal. lia.
Qed.

(** Every byte from [a] to [a + n] is mapped. *)
Definition mapped m (a n : Z) : Prop := ∀ i, 0 ≤ i < n → is_Some (m !! (a + i)).

Lemma run_load8 E a x (Q : Z → memory → Prop) m : m !! a = Some x → Q x m → run E (load8 a) Q m.
Proof. unfold run, load8. by intros ->. Qed.

Lemma run_store8 E a x (Q : unit → memory → Prop) m : is_Some (m !! a) → Q tt (<[a := x]> m) → run E (store8 a x) Q m.
Proof. unfold run, store8. by intros [? ->]. Qed.

(** * memcmp *)

(** The order in which the first byte that differs decides. *)
Definition first_difference (xs ys : list Z) (R : Z → Z → Prop) : Prop :=
  ∃ i x y, take i xs = take i ys ∧ xs !! i = Some x ∧ ys !! i = Some y ∧ R x y.

Lemma first_difference_cons x xs ys R : first_difference xs ys R → first_difference (x :: xs) (x :: ys) R.
Proof. intros (i & y & z & Ht & H). exists (S i), y, z. simpl. by rewrite Ht. Qed.

Lemma memcmp_loop_spec m p q xs ys :
  holds m p xs → holds m q ys → length xs = length ys →
  wp (memcmp_loop (length xs) p q) (λ r m', m' = m ∧
    (r = 0 ∧ xs = ys ∨ r = -1 ∧ first_difference xs ys Z.lt ∨ r = 1 ∧ first_difference xs ys Z.gt)) m.
Proof.
  revert p q ys. induction xs as [|x xs IH]; intros p q [|y ys] Hx Hy Hl; try done; cbn [length memcmp_loop].
  { run_step. auto. }
  apply holds_cons in Hx as [Hx0 Hx], Hy as [Hy0 Hy].
  apply run_bind, (run_load8 _ _ x); [done|]. apply run_bind, (run_load8 _ _ y); [done|].
  destruct (Z.eqb_spec x y) as [->|Hne]; cbn [negb].
  - eapply run_mono; [by apply IH; try done; injection Hl|]. intros r m' (-> & [[-> ->]|[[-> H]|[-> H]]]); split; auto.
    + right. left. split; [done|by apply first_difference_cons].
    + right. right. split; [done|by apply first_difference_cons].
  - run_step. split; [done|]. right. destruct (Z.ltb_spec x y); [left|right]; (split; [done|]); exists 0%nat, x, y; split_and!; done || lia.
Qed.

(** [memcmp] on [n] mapped bytes on either side changes nothing and returns 0 when
    the bytes are equal, -1 when the first byte that differs is less on the left and 1
    when it is greater; so its result is 0 exactly when the comparison that the disk and
    file-system models use says that the bytes agree. *)
Theorem memcmp_correct m a b xs ys :
  holds m a xs → holds m b ys → length xs = length ys →
  wp (memcmp a b (Z.of_nat (length xs))) (λ r m', m' = m ∧
    (r = 0 ∧ xs = ys ∨ r = -1 ∧ first_difference xs ys Z.lt ∨ r = 1 ∧ first_difference xs ys Z.gt) ∧
    (r =? 0) = memcmp_eq xs ys (length xs)) m.
Proof.
  intros Hx Hy Hl. unfold memcmp. rewrite Nat2Z.id. eapply run_mono; [by apply memcmp_loop_spec|].
  intros r m' [-> H]. split; [done|]. split; [done|]. unfold memcmp_eq. rewrite take_ge, Hl, take_ge by lia.
  assert (∀ R, (∀ x, ¬ R x x) → first_difference xs ys R → xs ≠ ys) as Hd.
  { intros R HR (i & x & y & _ & Hi & Hj & H') ->. rewrite Hi in Hj. injection Hj as ->. by apply (HR y). }
  destruct H as [[-> ->]|[[-> H]|[-> H]]]; [by rewrite bool_decide_true|by rewrite bool_decide_false by (apply (Hd Z.lt); [lia|done])|by rewrite bool_decide_false by (apply (Hd Z.gt); [lia|done])].
Qed.

(** * memset and memcpy *)

Lemma memset_loop_spec n p c m :
  mapped m p (Z.of_nat n) →
  wp (memset_loop n p c) (λ _ m', ∀ a, m' !! a = if decide (p ≤ a < p + Z.of_nat n) then Some (u8 c) else m !! a) m.
Proof.
  revert p m. induction n as [|n IH]; intros p m Hm; cbn [memset_loop].
  { run_step. intros a. by rewrite decide_False by lia. }
  apply run_bind, run_store8; [rewrite <- (Z.add_0_r p); apply Hm; lia|]. eapply run_mono; [apply IH|].
  - intros i Hi. apply lookup_insert_is_Some'. right. replace (p + 1 + i) with (p + (i + 1)) by lia. apply Hm. lia.
  - intros [] m' H a. rewrite H. destruct (decide (a = p)) as [->|Hne].
    + rewrite decide_False, lookup_insert_eq by lia. by rewrite decide_True by lia.
    + rewrite lookup_insert_ne by done. by apply decide_ext; lia.
Qed.

(** [memset] on mapped bytes returns its first argument, sets exactly the [n] bytes
    from there on, each to the low byte of [c], and leaves every other byte. *)
Theorem memset_correct dst c n m :
  0 ≤ n → mapped m dst n →
  wp (memset dst c n) (λ r m', r = dst ∧
    ∀ a, m' !! a = if decide (dst ≤ a < dst + n) then Some (u8 c) else m !! a) m.
Proof.
  intros Hn Hm. unfold memset. run_step. rewrite <- (Z2Nat.id n Hn) in Hm. eapply run_mono; [by apply memset_loop_spec|].
  intros [] m' H. rewrite Z2Nat.id in H by done. by run_step.
Qed.

(** The byte of the source that the [i]-th byte of the destination ends up with: the
    copy runs upwards, so a destination that starts inside the source repeats the bytes
    between the two starts. *)
Definition copied_from (dst src i : Z) : Z := if src <? dst then i mod (dst - src) else i.

Lemma memcpy_loop_spec n d s m :
  mapped m d (Z.of_nat n) → mapped m s (Z.of_nat n) →
  wp (memcpy_loop n d s) (λ _ m', ∀ a, m' !! a =
    if decide (d ≤ a < d + Z.of_nat n) then m !! (s + copied_from d s (a - d)) else m !! a) m.
Proof.
  revert d s m. induction n as [|n IH]; intros d s m Hd Hs; cbn [memcpy_loop].
  { run_step. intros a. by rewrite decide_False by lia. }
  destruct (Hs 0 ltac:(lia)) as [x Hx]. rewrite Z.add_0_r in Hx.
  apply run_bind, (run_load8 _ _ x); [done|].
  apply run_bind, run_store8; [rewrite <- (Z.add_0_r d); apply Hd; lia|]. eapply run_mono; [apply IH|].
  1,2: intros i Hi; apply lookup_insert_is_Some'; right.
  { replace (d + 1 + i) with (d + (i + 1)) by lia. apply Hd. lia. }
  { replace (s + 1 + i) with (s + (i + 1)) by lia. apply Hs. lia. }
  intros [] m' H a. rewrite H. unfold copied_from. destruct (decide (a = d)) as [->|Hne].
  { rewrite decide_False, lookup_insert_eq, decide_True, Z.sub_diag by lia. destruct (Z.ltb_spec s d); [rewrite Zmod_0_l|]; by rewrite Z.add_0_r. }
  rewrite (lookup_insert_ne m d a) by done. destruct (decide (d + 1 ≤ a < d + 1 + Z.of_nat n)); [|by rewrite decide_False by lia].
  rewrite decide_True by lia. replace (s + 1 <? d + 1) with (s <? d) by (destruct (Z.ltb_spec s d), (Z.ltb_spec (s + 1) (d + 1)); lia).
  destruct (Z.ltb_spec s d).
  - replace (d + 1 - (s + 1)) with (d - s) by lia. replace (a - d) with (a - (d + 1) + 1) by lia. set (k := a - (d + 1)).
    pose proof (Z.mod_pos_bound k (d - s) ltac:(lia)). destruct (decide (k mod (d - s) = d - s - 1)) as [E|E].
    + replace (s + 1 + k mod (d - s)) with d by lia. rewrite lookup_insert_eq.
      replace ((k + 1) mod (d - s)) with 0; [by rewrite Z.add_0_r|].
      rewrite (Z.div_mod k (d - s)) by lia. rewrite E. replace ((d - s) * (k / (d - s)) + (d - s - 1) + 1) with ((k / (d - s) + 1) * (d - s)) by lia. by rewrite Z.mod_mul by lia.
    + rewrite lookup_insert_ne by lia. f_equal. rewrite (Z.add_mod k 1) by lia. destruct (decide (d - s = 1)); [lia|].
      rewrite (Z.mod_small 1) by lia. rewrite (Z.mod_small (_ + 1)) by lia. lia.
  - rewrite lookup_insert_ne by lia. f_equal. lia.
Qed.

(** [memcpy] on mapped bytes returns its first argument and writes only the [n]
    bytes there.  When the destination does not start inside the source, they become
    the bytes the source had, also where the two overlap; when it does, the bytes
    between the two starts are repeated. *)
Theorem memcpy_correct dst src n m :
  0 ≤ n → mapped m dst n → mapped m src n →
  wp (memcpy dst src n) (λ r m', r = dst ∧
    (∀ a, ¬ (dst ≤ a < dst + n) → m' !! a = m !! a) ∧
    (∀ i, 0 ≤ i < n → m' !! (dst + i) = m !! (src + copied_from dst src i)) ∧
    (dst ≤ src ∨ src + n ≤ dst → ∀ i, 0 ≤ i < n → m' !! (dst + i) = m !! (src + i))) m.
Proof.
  intros Hn Hd Hs. unfold memcpy. run_step. rewrite <- (Z2Nat.id n Hn) in Hd, Hs. eapply run_mono; [by apply memcpy_loop_spec|].
  intros [] m' H. rewrite Z2Nat.id in H by done. run_step.
  assert (∀ i, 0 ≤ i < n → m' !! (dst + i) = m !! (src + copied_from dst src i)) as Hc.
  { intros i Hi. rewrite H, decide_True by lia. do 2 f_equal. f_equal. lia. }
  split_and!; [done| |exact Hc|].
  - intros a Ha. by rewrite H, decide_False by lia.
  - intros Hap i Hi. rewrite Hc by done. unfold copied_from. destruct (Z.ltb_spec src dst); [|done]. by rewrite Z.mod_small by lia.
Qed.

(** Two bytes copied over the four that start at the second and third: the pair is
    repeated. *)
Definition demo_bytes : memory := list_to_map [(10, 1); (11, 2); (12, 3); (13, 4); (14, 5); (15, 6)].

Lemma demo_mapped a : 10 ≤ a ≤ 12 → mapped demo_bytes a 4.
Proof.
  intros Ha i Hi. assert (a + i = 10 ∨ a + i = 11 ∨ a + i = 12 ∨ a + i = 13 ∨ a + i = 14 ∨ a + i = 15) as H by lia.
  repeat destruct H as [H|H]; rewrite ?H; by eexists.
Qed.

Lemma memcpy_correct_witness :
  wp (memcpy 12 10 4) (λ r m', r = 12 ∧
    (∀ a, ¬ (12 ≤ a < 12 + 4) → m' !! a = demo_bytes !! a) ∧
    (∀ i, 0 ≤ i < 4 → m' !! (12 + i) = demo_bytes !! (10 + copied_from 12 10 i)) ∧
    (12 ≤ 10 ∨ 10 + 4 ≤ 12 → ∀ i, 0 ≤ i < 4 → m' !! (12 + i) = demo_bytes !! (10 + i))) demo_bytes.
Proof. apply (memcpy_correct 12 10 4 demo_bytes); [lia|apply demo_mapped; lia|apply demo_mapped; lia]. Defined.

Example demo_overlap :
  (λ m, map (λ a, m !! a) [12; 13; 14; 15]) (state_after (memcpy 12 10 4) demo_bytes) = [Some 1; Some 2; Some 1; Some 2].
Proof. reflexivity. Qed.
