(* ===== verification/Gpt.v ===== *)
(** GUID partition table (fs/partition/gpt.h, fs/partition/gpt.c): reading the
    header and the partition array, and sector reads relative to a partition. *)

From S2P Require Import Prelude Disk.

(** * On-disk and in-memory structures *)

Record gpt_header_t : Type := mkHdr {
  signature : list Z;
  partition_entries_lba : Z;
  num_partition_entries : Z;
  partition_entry_size : Z
}.

(** [memcpy(&gpt_hdr, sector, sizeof(gpt_header_t))]: the fields the code uses. *)
Definition parse_header (sector : list Z) : gpt_header_t :=
  mkHdr (bytes 0 8 sector) (field 72 8 sector) (field 80 4 sector) (field 84 4 sector).

Record gpt_partition_t : Type := mkPart {
  type_guid : list Z;
  unique_guid : list Z;
  start_lba : Z;
  end_lba : Z;
  num_sectors : Z;
  attributes : Z;
  p_name : list Z
}.

Definition zero_partition : gpt_partition_t :=
  mkPart (replicate 16 0) (replicate 16 0) 0 0 0 0 (replicate 72 0).

Record gpt_state : Type := mkGpt {
  gpt_hdr : option gpt_header_t;
  partitions : list gpt_partition_t;
  partition_count : Z
}.

(** The static data before [gpt_init]. *)
Definition gpt_zero : gpt_state := mkGpt None (replicate 128 zero_partition) 0.

Definition set_count (n : Z) (s : gpt_state) : gpt_state := mkGpt (gpt_hdr s) (partitions s) n.
Definition set_hdr (h : gpt_header_t) (s : gpt_state) : gpt_state := mkGpt (Some h) (partitions s) (partition_count s).

Definition ENTRY_BYTES : nat := 128.

(** The loop of [guid_to_utf8]: code units are read from the buffer at
    [off + 2*i], wherever that is; [None] when the buffer ends first. *)
Fixpoint utf8_units (n : nat) (off : nat) (buf : list Z) : option (list Z) :=
  match n with
  | O => Some []
  | S n' =>
      if (length buf <? off + 2)%nat then None
      else
        let u := field off 2 buf in
        if u =? 0 then Some []
        else
          match utf8_units n' (off + 2) buf with
          | Some rest => Some ((if u <? 0x80 then u else 63) :: rest)
          | None => None
          end
  end.

(** [guid_to_utf8(utf16, out, max_chars)]: overwrites a prefix of [out] and its
    last byte. *)
Definition guid_to_utf8 (off : nat) (buf : list Z) (out : list Z) (max_chars : nat) : option (list Z) :=
  match utf8_units (max_chars - 1) off buf with
  | Some cs => Some (<[(max_chars - 1)%nat := 0]> (cs ++ drop (length cs) out))
  | None => None
  end.

Section Gpt.
Context (virtio_blk_read : blk_reader).
Abbreviation state := gpt_state.

(** One iteration of the scan over the partition array at byte offset [off]
    of the 16 KiB buffer. *)
Definition gpt_entry (off : nat) (buf : list Z) : M state unit :=
  let guid := bytes off 16 buf in
  if forallb (λ b, b =? 0) guid then
    if (length guid <? 16)%nat then fault else ret tt
  else if (length buf <? off + ENTRY_BYTES)%nat then fault
  else
    let! s := get in
    let n := partition_count s in
    modify (set_count (n + 1));;
    match partitions s !! Z.to_nat n with
    | None => fault
    | Some p =>
        match guid_to_utf8 (off + 56) buf (p_name p) 72 with
        | None => fault
        | Some name =>
            let start := field (off + 32) 8 buf in
            let end_ := field (off + 40) 8 buf in
            modify (λ s, mkGpt (gpt_hdr s)
              (<[Z.to_nat n := mkPart guid (bytes (off + 16) 16 buf) start end_
                   (u64 (end_ - start + 1)) (field (off + 48) 8 buf) name]> (partitions s))
              (partition_count s))
        end
    end.

Definition gpt_init : M state bool :=
  match virtio_blk_read 1 1 with
  | None => ret false
  | Some sector =>
      let hdr := parse_header sector in
      modify (set_hdr hdr);;
      if negb (memcmp_eq (signature hdr) [69; 70; 73; 32; 80; 65; 82; 84] 8) then ret false
      else
        match virtio_blk_read 2 32 with
        | None => ret false
        | Some buf =>
            modify (set_count 0);;
            let! _ := for_loop (Z.to_nat (num_partition_entries hdr)) 0 1 (λ i,
              gpt_entry (Z.to_nat (u32 (i * partition_entry_size hdr))) buf;;
              ret (@None unit)) in
            ret true
        end
  end.

Definition gpt_get_partition_count (s : state) : Z := partition_count s.

Definition gpt_get_partition (s : state) (index : Z) : option gpt_partition_t :=
  if (index <? 0) || (index >=? partition_count s) then None
  else partitions s !! Z.to_nat index.

(** [None] for false, otherwise the bytes stored in [buf]. *)
Definition gpt_read_partition_sectors (s : state) (index relative_lba count : Z) : option (list Z) :=
  match gpt_get_partition s index with
  | None => None
  | Some p =>
      if u64 (relative_lba + count) >? num_sectors p then None
      else virtio_blk_read (u64 (start_lba p + relative_lba)) count
  end.
End Gpt.

(** * Correctness *)

(** A table whose partitions are non-empty extents within the 64-bit LBA space. *)
Definition part_ok (p : gpt_partition_t) : Prop :=
  0 ≤ start_lba p ∧ start_lba p ≤ end_lba p < 2 ^ 64 - 1 ∧ num_sectors p = end_lba p - start_lba p + 1.

Definition gpt_inv (s : gpt_state) : Prop :=
  length (partitions s) = 128%nat ∧ 0 ≤ partition_count s ≤ 128.

(** ** Reading the table *)

(** Standard tables: at most 128 entries of 128 bytes, all inside the 32 sectors. *)
Definition entry_off (i : nat) : nat := (i * ENTRY_BYTES)%nat.
Definition entry_used (buf : list Z) (i : nat) : bool :=
  negb (forallb (λ b, b =? 0) (bytes (entry_off i) 16 buf)).

(** The name of entry [i] ends inside its 36 code units. *)
Definition name_ends (buf : list Z) (i : nat) : Prop :=
  ∃ k, (k < 36)%nat ∧ field (entry_off i + 56 + 2 * k) 2 buf = 0.

(** Partition [p] describes entry [i]. *)
Definition describes (buf : list Z) (i : nat) (p : gpt_partition_t) : Prop :=
  type_guid p = bytes (entry_off i) 16 buf ∧
  unique_guid p = bytes (entry_off i + 16) 16 buf ∧
  start_lba p = field (entry_off i + 32) 8 buf ∧
  end_lba p = field (entry_off i + 40) 8 buf ∧
  num_sectors p = u64 (end_lba p - start_lba p + 1) ∧
  attributes p = field (entry_off i + 48) 8 buf.

Lemma utf8_units_total n off buf k :
  (k < n)%nat → (off + 2 * k + 2 ≤ length buf)%nat → field (off + 2 * k) 2 buf = 0 →
  ∃ cs, utf8_units n off buf = Some cs ∧ (length cs ≤ k)%nat.
Proof.
  revert off k. induction n as [|n IH]; intros off k Hk Hlen Hz; [lia|]. cbn [utf8_units].
  destruct (Nat.ltb_spec (length buf) (off + 2)); [lia|].
  destruct (Z.eqb_spec (field off 2 buf) 0); [exists []; split; [done|simpl; lia]|].
  destruct k as [|k]; [by rewrite Nat.mul_0_r, Nat.add_0_r in Hz|].
  destruct (IH (off + 2)%nat k) as (cs & -> & Hl); [lia|lia|by replace (off + 2 + 2 * k)%nat with (off + 2 * S k)%nat by lia|].
  eexists. split; [done|]. simpl. lia.
Qed.

Lemma gpt_entry_spec E buf i s :
  length buf = (512 * 32)%nat → (i < 128)%nat → gpt_inv s → partition_count s < 128 →
  name_ends buf i →
  run E (gpt_entry (entry_off i) buf) (λ _ s',
    gpt_inv s' ∧ gpt_hdr s' = gpt_hdr s ∧
    if entry_used buf i
    then partition_count s' = partition_count s + 1 ∧
         (∃ p, partitions s' !! Z.to_nat (partition_count s) = Some p ∧ describes buf i p) ∧
         (∀ k, k ≠ Z.to_nat (partition_count s) → partitions s' !! k = partitions s !! k)
    else s' = s) s.
Proof.
  intros Hbuf Hi [Hlen Hcnt] Hlt (k & Hk & Hz). unfold entry_used, gpt_entry, ENTRY_BYTES.
  assert (entry_off i + 128 ≤ 512 * 32)%nat as Hoff by (unfold entry_off, ENTRY_BYTES; lia).
  destruct (forallb _ _) eqn:Hg; cbn [negb].
  - assert (length (bytes (entry_off i) 16 buf) = 16%nat) as ->.
    { unfold bytes. rewrite length_take, length_drop. lia. }
    change (16 <? 16)%nat with false. by run_steps.
  - destruct (Nat.ltb_spec (length buf) (entry_off i + 128)); [lia|]. run_steps.
    destruct (partitions s !! Z.to_nat (partition_count s)) as [p|] eqn:Ep.
    2: { apply lookup_ge_None in Ep. lia. }
    unfold guid_to_utf8.
    destruct (utf8_units_total 71 (entry_off i + 56) buf k) as (cs & Hcs & _);
      [clear -Hk; lia|rewrite Hbuf; clear -Hk Hoff; lia|done|].
    change (72 - 1)%nat with 71%nat. rewrite Hcs. run_steps. unfold gpt_inv. simpl.
    rewrite length_insert. split_and!; try done; try lia.
    + eexists. split; [apply list_lookup_insert_eq; lia|]. done.
    + intros k' Hne. by rewrite list_lookup_insert_ne.
Qed.

(** The indices of the used entries among the first [n]. *)
Definition used_entries (buf : list Z) (n : nat) : list nat :=
  filter (λ i, entry_used buf i = true) (seq 0 n).

Lemma used_entries_S buf n :
  used_entries buf (S n) = used_entries buf n ++ (if entry_used buf n then [n] else []).
Proof.
  unfold used_entries. rewrite seq_S, filter_app, filter_cons, filter_nil. simpl.
  by destruct (entry_used buf n).
Qed.

Lemma used_entries_length buf n : (length (used_entries buf n) ≤ n)%nat.
Proof. unfold used_entries. etrans; [apply length_filter|]. by rewrite length_seq. Qed.

Lemma gpt_init_spec rd E s sector buf :
  gpt_inv s → rd 1 1 = Some sector → rd 2 32 = Some buf → length buf = (512 * 32)%nat →
  take 8 sector = [69; 70; 73; 32; 80; 65; 82; 84] →
  0 ≤ field 80 4 sector ≤ 128 → field 84 4 sector = 128 →
  (∀ i, (i < 128)%nat → name_ends buf i) →
  run E (gpt_init rd) (λ ok s', ok = true ∧ gpt_inv s' ∧
    let used := used_entries buf (Z.to_nat (field 80 4 sector)) in
    partition_count s' = Z.of_nat (length used) ∧
    ∀ k i, used !! k = Some i → ∃ p, partitions s' !! k = Some p ∧ describes buf i p) s.
Proof.
  intros Hinv Hr1 Hr2 Hlen Hsig Hnum Hes Hends. unfold gpt_init. rewrite Hr1. run_step. run_step.
  unfold memcmp_eq. cbn [parse_header signature num_partition_entries partition_entry_size].
  rewrite bool_decide_true by (unfold bytes; rewrite drop_0, take_take; exact Hsig). cbn [negb].
  rewrite Hr2, Hes. run_step. run_step. run_step.
  apply (run_for_loop _ _ _ _ _ (λ j s', gpt_inv s' ∧
    partition_count s' = Z.of_nat (length (used_entries buf j)) ∧
    ∀ k i, used_entries buf j !! k = Some i → ∃ p, partitions s' !! k = Some p ∧ describes buf i p)).
  - split; [by destruct Hinv|]. split; [done|]. intros k i. by destruct k.
  - intros j s' Hj (Hi & Hc & Hall). run_step. replace (0 + Z.of_nat j * 1) with (Z.of_nat j) by lia.
    rewrite wrap_small by (unfold in_width; lia).
    replace (Z.to_nat (Z.of_nat j * 128)) with (entry_off j) by (unfold entry_off, ENTRY_BYTES; lia).
    pose proof (used_entries_length buf j).
    eapply run_mono; [apply gpt_entry_spec; [done|lia|done|lia|apply Hends; lia]|].
    intros [] s2 (Hi2 & _ & Hres). run_step. split; [done|]. rewrite used_entries_S.
    destruct (entry_used buf j).
    + destruct Hres as (Hc2 & (p & Hp & Hd) & Hoth). rewrite length_app. simpl. split; [lia|].
      intros k i. rewrite lookup_app_Some. intros [Hk|[Hge Hk]].
      * destruct (Hall _ _ Hk) as (q & Hq & ?). exists q. split; [|done]. rewrite Hoth; [done|].
        apply lookup_lt_Some in Hk. lia.
      * apply list_lookup_singleton_Some in Hk as [Hk <-]. exists p. split; [|done].
        by replace k with (Z.to_nat (partition_count s')) by lia.
    + subst s2. by rewrite app_nil_r.
  - intros s' (Hi & Hc & Hall). run_step. done.
Qed.

(** [gpt_init] on a standard table (signature, at most 128 entries of 128
    bytes, terminated names) returns true without touching memory outside its
    buffers, and the partition table then lists exactly the non-empty entries
    of the disk in order, with their extents and GUIDs. *)
Theorem gpt_init_lists_used_entries rd s sector buf :
  gpt_inv s → rd 1 1 = Some sector → rd 2 32 = Some buf → length buf = (512 * 32)%nat →
  take 8 sector = [69; 70; 73; 32; 80; 65; 82; 84] →
  0 ≤ field 80 4 sector ≤ 128 → field 84 4 sector = 128 →
  (∀ i, (i < 128)%nat → name_ends buf i) →
  wp (gpt_init rd) (λ ok s', ok = true ∧ gpt_inv s' ∧
    let used := used_entries buf (Z.to_nat (field 80 4 sector)) in
    partition_count s' = Z.of_nat (length used) ∧
    ∀ k i, used !! k = Some i → ∃ p, partitions s' !! k = Some p ∧ describes buf i p) s.
Proof. apply gpt_init_spec. Qed.

Section Props.
Context (rd : blk_reader) (image : Z → list Z) `{!DiskLaws rd image}.

(** A sector read relative to a partition never leaves it: for arguments
    whose sum does not wrap, success means that the requested sectors lie
    inside the partition, and the bytes are exactly the disk's bytes at the
    partition's start plus the relative address. *)
Theorem gpt_read_in_partition s index rel count p bs :
  gpt_get_partition s index = Some p → part_ok p → 0 ≤ rel → 0 ≤ count → rel + count < 2 ^ 64 →
  gpt_read_partition_sectors rd s index rel count = Some bs →
  rel + count ≤ num_sectors p ∧ start_lba p + rel + count ≤ end_lba p + 1 ∧
  bs = seqZ (start_lba p + rel) count ≫= image.
Proof.
  intros Hp (Hs & He & Hn) Hr Hc Hsum. unfold gpt_read_partition_sectors. rewrite Hp.
  rewrite (wrap_small 64 (rel + count)) by (unfold in_width; lia).
  destruct (Z.gtb_spec (rel + count) (num_sectors p)); [done|].
  rewrite wrap_small by (unfold in_width; lia). intros Hrd.
  apply read_image in Hrd as [_ ->]. split_and!; [done|lia|done].
Qed.

(** The bounds check is made on a wrapped sum: a relative address near
    [2^64] passes it, and the read goes to sectors before the partition. *)
Theorem gpt_read_bound_wraps s index count p :
  gpt_get_partition s index = Some p → 0 < count ≤ num_sectors p → 0 < start_lba p < 2 ^ 64 →
  gpt_read_partition_sectors rd s index (2 ^ 64 - 1) count = rd (start_lba p - 1) count.
Proof.
  intros Hp Hc Hs. unfold gpt_read_partition_sectors. rewrite Hp.
  assert (u64 (2 ^ 64 - 1 + count) = u64 (count - 1)) as ->.
  { unfold wrap. replace (2 ^ 64 - 1 + count) with (count - 1 + 1 * 2 ^ 64) by lia. by rewrite Z.mod_add by lia. }
  assert (u64 (start_lba p + (2 ^ 64 - 1)) = start_lba p - 1) as ->.
  { unfold wrap. symmetry. apply Z.mod_unique with 1; lia. }
  assert (0 ≤ u64 (count - 1) ≤ count - 1) as Hw.
  { unfold wrap. split; [apply Z.mod_pos_bound; lia|apply Z.mod_le; lia]. }
  destruct (Z.gtb_spec (u64 (count - 1)) (num_sectors p)); [lia|done].
Qed.
End Props.
