(* ===== verification/Heap.v ===== *)
(** What the file systems rely on from the kernel heap: [kmalloc] and [kfree]
    (mm/kmalloc.c) as operations with an ownership contract. *)

From S2P Require Import Prelude.

(** [h_owns h live]: the heap is consistent and exactly the blocks of [live]
    (address, usable size) are allocated. *)
Class KernelHeap (H : Type) : Type := {
  h_kmalloc : Z → M H Z;
  h_kfree : Z → M H unit;
  h_owns : H → list (Z * Z) → Prop;
  h_panic : string → Prop
}.

Class KernelHeapLaws (H : Type) `{!KernelHeap H} : Prop := {
  h_owns_perm h live live' : live ≡ₚ live' → h_owns h live → h_owns h live';
  h_owns_nodup h live : h_owns h live → NoDup live.*1;
  h_kmalloc_spec h live size : h_owns h live → 0 < size < 2 ^ 48 →
    run h_panic (h_kmalloc size) (λ p h',
      (p = 0 ∧ h_owns h' live) ∨
      (p ≠ 0 ∧ ∃ sz, size ≤ sz ∧ h_owns h' ((p, sz) :: live))) h;
  h_kfree_spec h live p sz : h_owns h ((p, sz) :: live) →
    wp (h_kfree p) (λ _ h', h_owns h' live) h
}.

Lemma h_kfree_run `{!KernelHeap H, !KernelHeapLaws H} E h live p sz (Q : unit → H → Prop) :
  h_owns h ((p, sz) :: live) → (∀ h', h_owns h' live → Q tt h') → run E (h_kfree p) Q h.
Proof.
  intros Ho HQ. eapply run_weaken; [by eapply h_kfree_spec|done|]. intros [] h' ?. auto.
Qed.
