(* ===== verification/KmallocHeap.v ===== *)
(** mm/kmalloc.c implements the heap contract the file systems use. *)

From S2P Require Import Prelude VmallocSpec Kmalloc KmallocSpec Heap.

Section KmallocHeap.
Context {V : Type} `{!RegionAllocator V, !RegionAllocatorLaws V}.

(** The pointer a client holds for a block, with its usable size. *)
Definition client_block (u : Z * Z) : Z * Z := (u.1 + HEADER, u.2).

#[export] Instance kmalloc_heap : KernelHeap (km_state V) := {
  h_kmalloc := kmalloc;
  h_kfree := kfree;
  h_owns s live := ∃ others used, km_inv s others used ∧ live = map client_block used;
  h_panic := vm_panic
}.

Lemma useds_NoDup L : NoDup L.*1.*1 → NoDup (useds L).*1.
Proof.
  induction L as [|[[a sz] fr] L IH]; [constructor|]. simpl. rewrite NoDup_cons. intros [Hni Hnd].
  destruct fr; simpl; [auto|]. constructor; [|auto]. intros Hin. apply Hni.
  apply list_elem_of_fmap in Hin as ([a' sz'] & -> & Hin). apply elem_of_useds in Hin.
  apply (list_elem_of_fmap_2 fst (L.*1) (a', sz')). by apply (list_elem_of_fmap_2 fst L (a', sz', false)).
Qed.

Lemma km_inv_NoDup (s : km_state V) others used : km_inv s others used → NoDup used.*1.
Proof.
  intros (_ & pools & fl & Hok & _ & ->). destruct (heap_ok_geometry _ _ _ Hok) as [G1 G2].
  by apply useds_NoDup, disjoint_NoDup.
Qed.

#[export] Instance kmalloc_heap_laws : KernelHeapLaws (km_state V).
Proof.
  split.
  - intros s live live' Hp (others & used & Hinv & ->).
    destruct (Permutation_map_inv _ _ (symmetry Hp)) as (used' & -> & Hp').
    exists others, used'. split; [|done]. by eapply km_inv_perm.
  - intros s live (others & used & Hinv & ->). apply km_inv_NoDup in Hinv.
    replace ((map client_block used).*1) with ((λ b, b + HEADER) <$> used.*1).
    + apply NoDup_fmap_2; [|done]. intros a b. lia.
    + rewrite <- list_fmap_compose. change (map client_block used) with (client_block <$> used).
      by rewrite <- list_fmap_compose.
  - intros s live size (others & used & Hinv & ->) Hsz.
    eapply run_mono; [apply (kmalloc_spec s others used size); [done|unfold in_width; lia]|].
    intros p s' (Hl & [[-> Hlive]|(_ & b & sz & -> & Hle & Hb & _ & Hlive)]).
    + left. split; [done|]. by exists others, used.
    + right. unfold HEADER. split; [lia|]. exists sz. destruct (align16 size) as (_ & _ & Hge & _); [unfold in_width; lia|].
      split; [lia|]. exists others, ((b, sz) :: used). done.
  - intros s live p sz (others & [|[b sz'] used] & Hinv & Heq); [done|]. injection Heq as -> -> ->.
    eapply run_mono; [by apply (kfree_spec _ s others used b sz')|]. intros [] s' [Hs' _]. by exists others, used.
Qed.
End KmallocHeap.
