(* ===== verification/KernMem.v ===== *)
(** What the scheduler and the drivers rely on from kernel memory: blocks from
    the heap ([kmalloc], [kfree]) and page-backed regions ([vmalloc], [vfree]).
    Both draw on the same virtual region, since the heap takes its pools from
    vmalloc; the contract therefore speaks of one memory state.  The second half
    shows that mm/kmalloc.c over mm/vmalloc.c meets it. *)

From S2P Require Import Prelude Boot Mapper Vmalloc VmallocSpec Kmalloc KmallocSpec KmallocHeap.

(** [mem_owns m blocks regions]: memory is consistent and exactly [blocks]
    (address, usable size) and [regions] are handed out. *)
Class KernelMemory (Mem : Type) : Type := {
  mem_kmalloc : Z → M Mem Z;
  mem_kfree : Z → M Mem unit;
  mem_vmalloc : Z → Z → M Mem Z;
  mem_vfree : Z → Z → M Mem unit;
  mem_owns : Mem → list (Z * Z) → list vmalloc_range_t → Prop
}.

Class KernelMemoryLaws (Mem : Type) `{!KernelMemory Mem} : Prop := {
  mem_owns_perm m bs bs' rs rs' : bs ≡ₚ bs' → rs ≡ₚ rs' → mem_owns m bs rs → mem_owns m bs' rs';
  mem_owns_blocks m bs rs : mem_owns m bs rs → NoDup bs.*1;
  mem_owns_regions m bs rs : mem_owns m bs rs → pairwise_disjoint rs;
  mem_kmalloc_spec m bs rs size : mem_owns m bs rs → 0 < size < 2 ^ 48 →
    run vm_panic (mem_kmalloc size) (λ p m',
      (p = 0 ∧ mem_owns m' bs rs) ∨
      (0 < p ∧ ∃ sz, size ≤ sz ∧ mem_owns m' ((p, sz) :: bs) rs)) m;
  mem_kfree_spec m bs rs p sz : mem_owns m ((p, sz) :: bs) rs →
    wp (mem_kfree p) (λ _ m', mem_owns m' bs rs) m;
  mem_vmalloc_spec m bs rs size flags : mem_owns m bs rs → 0 < size ≤ 2 ^ 32 → size mod 4096 = 0 →
    run vm_panic (mem_vmalloc size flags) (λ a m',
      (a = 0 ∧ mem_owns m' bs rs) ∨
      (0 < a ∧ a mod 4096 = 0 ∧ a + size < 2 ^ 64 ∧ mem_owns m' bs (mkRange a size :: rs))) m;
  mem_vfree_spec m bs rs a size : mem_owns m bs (mkRange a size :: rs) →
    0 < size ≤ 2 ^ 32 → size mod 4096 = 0 →
    run vm_panic (mem_vfree a size) (λ _ m', mem_owns m' bs rs) m
}.

(** * The heap over vmalloc is a kernel memory *)

Section Instance_.
Context {P : Type} `{!PageMapper P, !PageMapperLaws P}.
Abbreviation V := (kernel_layout * vm_state P)%type.

(** [vmalloc] and [vfree] called beside the heap that uses them. *)
Definition region_alloc (size flags : Z) : M (km_state V) Z :=
  zoom km_vm set_km_vm (ra_alloc size flags).
Definition region_free (a size : Z) : M (km_state V) unit :=
  zoom km_vm set_km_vm (λ v, match vfree a size v.2 with
    | Ok (r, v') => Ok (r, (v.1, v')) | Halt msg => Halt msg | Hang => Hang | Fault => Fault
    end).

#[export] Instance kernel_memory : KernelMemory (km_state V) := {
  mem_kmalloc := kmalloc;
  mem_kfree := kfree;
  mem_vmalloc := region_alloc;
  mem_vfree := region_free;
  mem_owns s bs rs := ∃ used, km_inv s rs used ∧ bs = map client_block used
}.

Lemma vm_inv_perm (s : vm_state P) live live' : live ≡ₚ live' → vm_inv s live → vm_inv s live'.
Proof.
  intros Hp [V1 V2 V3 V4 V5 V6 V7 V8 V9 V10 (m & Hown & Hdom)]. split; try done.
  - by rewrite <- Hp.
  - by rewrite <- Hp.
  - intros x Hx. rewrite <- Hp. by apply V9.
  - exists m. split; [done|]. intros x. rewrite <- Hp. apply Hdom.
Qed.

Lemma km_inv_regions (s : km_state V) rs rs' used : rs ≡ₚ rs' → km_inv s rs used → km_inv s rs' used.
Proof.
  intros Hp (Hl & pools & fl & Hok & Hra & Hu). split; [done|]. exists pools, fl. split; [done|].
  split; [|done]. simpl in *. eapply vm_inv_perm; [|exact Hra]. by rewrite Hp.
Qed.

(** Regions other than the pools may come and go without the heap noticing. *)
Lemma km_inv_set_vm (s : km_state V) rs used (E : string → Prop) (A : Type) (m : M V A) (Q : A → list vmalloc_range_t → Prop) :
  km_inv s rs used →
  (∀ pools : list vmalloc_range_t, ra_live (km_vm s) (pools ++ rs) →
    run E m (λ a v', ∃ rs', Q a rs' ∧ ra_live v' (pools ++ rs')) (km_vm s)) →
  run E (zoom km_vm set_km_vm m) (λ a s', ∃ rs', Q a rs' ∧ km_inv s' rs' used) s.
Proof.
  intros (Hl & pools & fl & Hok & Hra & Hu) Hm. apply run_zoom. eapply run_mono; [by apply Hm|].
  intros a v' (rs' & HQ & Hv'). exists rs'. split; [done|]. split; [done|]. exists pools, fl. split; [|done].
  by destruct Hok.
Qed.

#[export] Instance kernel_memory_laws : KernelMemoryLaws (km_state V).
Proof.
  split.
  - intros s bs bs' rs rs' Hp Hr (used & Hinv & ->).
    destruct (Permutation_map_inv _ _ (symmetry Hp)) as (used' & -> & Hp').
    exists used'. split; [|done]. eapply km_inv_regions; [done|]. by eapply km_inv_perm.
  - intros s bs rs (used & Hinv & ->). eapply (Heap.h_owns_nodup (H := km_state V) s). by exists rs, used.
  - intros s bs rs (used & (_ & pools & fl & _ & Hra & _) & _). simpl in Hra. apply vi_disjoint in Hra.
    clear -Hra. induction (pool_range <$> pools) as [|r l IH]; [done|]. destruct Hra as [_ ?]. auto.
  - intros s bs rs size (used & Hinv & ->) Hsz.
    eapply run_mono; [apply (kmalloc_spec s rs used size); [done|unfold in_width; lia]|].
    intros p s' (Hl & [[-> Hlive]|(_ & b & sz & -> & Hle & Hb & _ & Hlive)]).
    + left. split; [done|]. by exists used.
    + right. destruct (align16 size) as (_ & _ & Hge & _); [unfold in_width; lia|].
      unfold HEADER in *. split; [lia|]. exists sz. split; [lia|]. by exists ((b, sz) :: used).
  - intros s bs rs p sz ([|[b sz'] used] & Hinv & Heq); [done|]. injection Heq as -> -> ->.
    eapply run_mono; [by apply (kfree_spec _ s rs used b sz')|]. intros [] s' [Hs' _]. by exists used.
  - intros s bs rs size flags (used & Hinv & ->) Hsz H4.
    eapply run_mono.
    { apply (km_inv_set_vm _ rs used _ _ _ (λ a rs', (a = 0 ∧ rs' = rs) ∨
        (0 < a ∧ a mod 4096 = 0 ∧ a + size < 2 ^ 64 ∧ rs' = mkRange a size :: rs)) Hinv).
      intros pools Hra. eapply run_mono; [by apply (ra_alloc_pages _ _ size flags Hra)|].
      intros a v' [[-> Hv]|(? & ? & ? & Hv)]; [exists rs; by auto|].
      exists (mkRange a size :: rs). split; [by right|]. simpl in *. eapply vm_inv_perm; [|exact Hv].
      by rewrite Permutation_middle. }
    intros a s' (rs' & [[-> ->]|(? & ? & ? & ->)] & Hs'); [left|right]; split_and!; try done; by exists used.
  - intros s bs rs a size (used & Hinv & ->) Hsz H4. eapply run_mono.
    { apply (km_inv_set_vm _ (mkRange a size :: rs) used _ _ _ (λ _ rs', rs' = rs) Hinv).
      intros pools Hra. simpl in Hra. destruct (km_vm s) as [lay v]. simpl in *.
      assert (align_up size PAGE = size) as Hal.
      { change PAGE with (2 ^ 12). rewrite align_up_exact by lia. change (2 ^ 12) with 4096. dlia. }
      pose proof (vfree_spec v pools rs a size) as Hf. rewrite Hal in Hf. specialize (Hf Hra ltac:(lia)).
      unfold run in *. simpl. destruct (vfree a size v) as [[[] v']| | |]; try done; [|by right]. destruct Hf as [Hf _]. by exists rs. }
    intros [] s' (rs' & -> & Hs'). by exists used.
Qed.
End Instance_.
