(* ===== verification/KernelStart.v ===== *)
(** From the boot loader to a working heap: the two memory steps of [kmain]
    (kernel/main.c), [mem_init] and then [kmalloc_init].  The result is the contract of
    KernMem.v with nothing handed out, from which the theorems on the scheduler and the
    file systems start. *)

From S2P Require Import Prelude Frames Boot Pmm Paging PagingInit PagingMapper Mapper Vmalloc VmallocSpec Startup StartupDemo Kmalloc KmallocSpec KmallocHeap KernMem.

Abbreviation kernel_mem := (km_state (kernel_layout * mem_state)).

Definition on_mem {A} (m : M mem_state A) : M kernel_mem A :=
  zoom km_vm set_km_vm (zoom snd (λ v p, (p.1, v)) m).

(** [mem_init(); ...; kmalloc_init();] with the layout of the state. *)
Definition memory_start (mm : BootMemoryMap) (fb : BootFramebuffer) (rsp : Z) : M kernel_mem unit :=
  let! lay := gets (λ s, (km_vm s).1) in
  on_mem (mem_init lay mm fb rsp);;
  kmalloc_init.

(** The heap's variables before [kmalloc_init]. *)
Definition heap_untouched (s : kernel_mem) : Prop :=
  km_heap s = ∅ ∧ g_free_list s = 0 ∧ g_km_initialized s = false ∧ g_kmalloc_lock s = false.

(** An untouched heap over a region allocator in order owns nothing. *)
Lemma untouched_live (s : kernel_mem) : heap_untouched s → vm_inv (km_vm s).2 [] → heap_live s [] [].
Proof.
  intros (H1 & H2 & H3 & H4) Hv. exists [], []. split; [|split; [exact Hv|done]].
  split; [by apply Forall_nil_2|done| |done]. split; [by rewrite H1|]. split; [by rewrite H2|]. split; [apply NoDup_nil_2|apply not_elem_of_nil].
Qed.

Definition memory_panic (mm : BootMemoryMap) (fb : BootFramebuffer) (rsp : Z) (s : kernel_mem) (msg : string) : Prop :=
  boot_panic (km_vm s).1 mm fb rsp (km_vm s).2 msg ∨ vm_panic msg.

(** C29. The kernel's memory from the boot loader to the heap.  On what the boot loader
    has to leave, [mem_init] followed by [kmalloc_init] panics only for the reasons
    listed for the start-up or for want of frames; otherwise the frame allocator, the
    page tables, the virtual regions and the heap are consistent with one another and
    nothing is handed out: the memory contract holds that the scheduler, the file
    systems and their callers rely on. *)
Theorem memory_start_correct mm fb rsp (s : kernel_mem) :
  boot_ok (km_vm s).1 mm fb rsp (km_vm s).2 → heap_untouched s →
  run (memory_panic mm fb rsp s) (memory_start mm fb rsp) (λ _ s', mem_owns s' [] []) s.
Proof.
  intros Hb Hh. unfold memory_start, on_mem. run_step. run_step. run_step. apply run_zoom. apply run_zoom.
  eapply run_weaken; [by apply mem_init_spec|intros msg Hm; by left|]. intros [] v (_ & Hv & _).
  set (s1 := set_km_vm _ s). assert (heap_live s1 [] []) as Hl by (apply untouched_live; [exact Hh|exact Hv]).
  unfold kmalloc_init, km_lock, km_unlock. run_step. apply run_acquire; [apply Hh|]. run_step.
  eapply run_weaken; [apply (kmalloc_init_locked_spec _ [] []); by apply heap_live_lock|intros msg Hm; by right|].
  intros ok s2 H2. apply run_release. exists []. split; [by apply km_inv_unlock|done].
Qed.

(** The heap comes up on the machine of StartupDemo.v, and a first block can be had. *)
Definition mach_kernel : kernel_mem := mkKm ∅ 0 false false (mach_lay, mach_start).

Lemma mach_memory_returns : is_ok (memory_start mach_mm mach_fb mach_rsp mach_kernel) = true.
Proof. vm_compute. reflexivity. Qed.

Lemma memory_start_correct_witness :
  ∃ r s', memory_start mach_mm mach_fb mach_rsp mach_kernel = Ok (r, s') ∧ mem_owns s' [] [].
Proof.
  apply (run_is_ok (memory_panic mach_mm mach_fb mach_rsp mach_kernel)); [|exact mach_memory_returns].
  apply (memory_start_correct mach_mm mach_fb mach_rsp mach_kernel mach_boot_ok). repeat split.
Defined.

Definition first_block : M kernel_mem Z := memory_start mach_mm mach_fb mach_rsp;; mem_kmalloc 100.

Example mach_first_block : value_of first_block mach_kernel = Some 0xffffffff80002030.
Proof. vm_compute. reflexivity. Qed.
