(* ===== verification/Fat32.v ===== *)
(** The FAT32 reader (fs/fat32.h, fs/fat32.c): volume mount, FAT chain walk,
    directory scan with long file names, path lookup and file reads.

    Disk reads go through [gpt_read_partition_sectors] of Gpt.v; cluster buffers
    come from the kernel heap contract of Heap.v.  A cluster buffer is modelled by
    the bytes the last read stored in it: using a byte beyond them (memory the
    call never wrote) is a [Fault], and so is a name longer than the 256-byte
    [name] field.  C strings are byte lists whose end is the terminator (a zero
    byte inside also ends the string).  Pointers the C code checks against NULL
    are values here, except where NULL has its own meaning ([path]).  [fuel]
    bounds the loops over cluster chains; a call that still runs when it is used
    up is [Hang]. *)

From S2P Require Import Prelude Disk Gpt Heap.

(** * Structures *)

Record fat32_bpb_t : Type := mkBpb {
  bytes_per_sector : Z;
  sectors_per_cluster : Z;
  reserved_sectors : Z;
  num_fats : Z;
  root_entry_count : Z;
  total_sectors_16 : Z;
  fat_size_16 : Z;
  total_sectors_32 : Z;
  fat_size_32 : Z;
  fs_version : Z;
  bpb_root_cluster : Z
}.
Definition zero_bpb : fat32_bpb_t := mkBpb 0 0 0 0 0 0 0 0 0 0 0.

Record fat32_vol_t : Type := mkVol {
  gpt_partition_index : Z;
  bpb : fat32_bpb_t;
  bytes_per_cluster : Z;
  fat_start_lba : Z;
  data_start_lba : Z;
  root_cluster : Z;
  cluster_count : Z
}.

Definition FAT32_EOC : Z := 0x0FFFFFF8.
Definition FAT32_BAD : Z := 0x0FFFFFF7.

Definition FAT_ATTR_VOLUME_ID : Z := 0x08.
Definition FAT_ATTR_DIRECTORY : Z := 0x10.
Definition FAT_ATTR_LFN : Z := 0x0F.

Definition FAT32_NAME_MAX : nat := 256.

Definition FAT32_OK : Z := 0.
Definition FAT32_ERR_NOENT : Z := -2.
Definition FAT32_ERR_IO : Z := -5.
Definition FAT32_ERR_NOMEM : Z := -12.
Definition FAT32_ERR_NOTDIR : Z := -20.
Definition FAT32_ERR_INVAL : Z := -22.
Definition FAT32_ERR_NAMETOOLONG : Z := -36.

Record fat32_timestamp_t : Type := mkTs { raw_date : Z; raw_time : Z }.

Record fat32_dirent_t : Type := mkDirent {
  name : list Z;
  attributes : Z;
  first_cluster : Z;
  file_size : Z;
  created : fat32_timestamp_t;
  modified : fat32_timestamp_t;
  accessed : fat32_timestamp_t
}.
Definition zero_dirent : fat32_dirent_t :=
  mkDirent [] 0 0 0 (mkTs 0 0) (mkTs 0 0) (mkTs 0 0).

(** [memcpy(&vol->bpb, sector, sizeof(fat32_bpb_t))]: the fields the code uses. *)
Definition parse_bpb (sector : list Z) : fat32_bpb_t :=
  mkBpb (field 11 2 sector) (byte 13 sector) (field 14 2 sector) (byte 16 sector)
        (field 17 2 sector) (field 19 2 sector) (field 22 2 sector) (field 32 4 sector)
        (field 36 4 sector) (field 42 2 sector) (field 44 4 sector).

(** A 32-byte directory slot, seen as [fat32_raw_entry_t] and as
    [fat32_lfn_entry_t]. *)
Definition raw_name (raw : list Z) : list Z := bytes 0 8 raw.
Definition raw_ext (raw : list Z) : list Z := bytes 8 3 raw.
Definition raw_attributes (raw : list Z) : Z := byte 11 raw.
Definition lfn_units (raw : list Z) : list Z :=
  map (λ k, field k 2 raw) [1; 3; 5; 7; 9; 14; 16; 18; 20; 22; 24; 28; 30]%nat.

(** * Long file names *)

Definition LFN_MAX_SLOTS : nat := 20.

Record lfn_state_t : Type := mkLfn {
  chars : list Z;
  total : nat;
  expected_seq : Z;
  checksum : Z;
  valid : bool
}.
Definition lfn_init : lfn_state_t := mkLfn (replicate (LFN_MAX_SLOTS * 13) 0) 0 0 0 false.

(** [lfn->valid = false; lfn->total = 0] *)
Definition lfn_reset (l : lfn_state_t) : lfn_state_t :=
  mkLfn (chars l) 0 (expected_seq l) (checksum l) false.
Definition lfn_invalid (l : lfn_state_t) : lfn_state_t :=
  mkLfn (chars l) (total l) (expected_seq l) (checksum l) false.

Definition lfn_checksum (name11 : list Z) : Z :=
  fold_left (λ sum c, u8 ((if Z.odd sum then 0x80 else 0) + Z.shiftr sum 1 + c)) name11 0.

Definition lfn_push (l : lfn_state_t) (raw : list Z) : lfn_state_t :=
  if (LFN_MAX_SLOTS * 13 <? total l + 13)%nat then lfn_invalid l
  else mkLfn (lfn_units raw ++ take (total l) (chars l) ++ drop (total l + 13) (chars l))
             (total l + 13) (expected_seq l) (checksum l) (valid l).

(** The LFN branch of the directory loops. *)
Definition lfn_fragment (l : lfn_state_t) (raw : list Z) : lfn_state_t :=
  let seq := byte 0 raw in
  let l := if negb (Z.land seq 0x40 =? 0)
           then mkLfn (chars l) 0 (Z.land seq 0xBF) (byte 13 raw) true
           else l in
  let l := if negb (valid l) || negb (Z.land seq 0xBF =? expected_seq l)
           then lfn_invalid l else l in
  if valid l then
    let l := lfn_push l raw in
    mkLfn (chars l) (total l) (u8 (expected_seq l - 1)) (checksum l) (valid l)
  else l.

(** * Names *)

Definition utf8_unit (cp : Z) : list Z :=
  if cp <? 0x80 then [cp]
  else if cp <? 0x800 then
    [Z.lor 0xC0 (Z.shiftr cp 6); Z.lor 0x80 (Z.land cp 0x3F)]
  else
    [Z.lor 0xE0 (Z.shiftr cp 12); Z.lor 0x80 (Z.land (Z.shiftr cp 6) 0x3F); Z.lor 0x80 (Z.land cp 0x3F)].

(** The bytes stored before the terminator. *)
Fixpoint utf16le_to_utf8 (src : list Z) : list Z :=
  match src with
  | [] => []
  | cp :: src' => if cp =? 0 then [] else utf8_unit cp ++ utf16le_to_utf8 src'
  end.

(** Dropping trailing spaces. *)
Fixpoint strip_spaces (s : list Z) : list Z :=
  match s with
  | [] => []
  | c :: s' => match strip_spaces s' with
               | [] => if c =? 32 then [] else [c]
               | t => c :: t
               end
  end.

Definition fat32_tolower (c : Z) : Z := if (65 <=? c) && (c <=? 90) then c + 32 else c.

Definition build_83_name (raw : list Z) : list Z :=
  let base := map fat32_tolower (strip_spaces (raw_name raw)) in
  let ext := strip_spaces (raw_ext raw) in
  match ext with
  | [] => base
  | _ => base ++ 46 :: map fat32_tolower ext
  end.

(** The name chosen for an 8.3 slot. *)
Definition entry_name (l : lfn_state_t) (raw : list Z) : list Z :=
  if valid l && (0 <? total l)%nat && (expected_seq l =? 0)
     && (lfn_checksum (raw_name raw ++ raw_ext raw) =? checksum l)
  then utf16le_to_utf8 (take (total l) (chars l))
  else build_83_name raw.

Definition make_dirent (l : lfn_state_t) (raw : list Z) : fat32_dirent_t :=
  mkDirent (entry_name l raw) (raw_attributes raw)
    (Z.lor (Z.shiftl (field 20 2 raw) 16) (field 26 2 raw)) (field 28 4 raw)
    (mkTs (field 16 2 raw) (field 14 2 raw))
    (mkTs (field 24 2 raw) (field 22 2 raw))
    (mkTs (field 18 2 raw) 0).

(** The name and its terminator fit the 256-byte field. *)
Definition name_fits (d : fat32_dirent_t) : bool := (length (name d) <? FAT32_NAME_MAX)%nat.

(** Both strings end at a zero byte or at the end of the list. *)
Fixpoint fat32_name_equal_ci (a b : list Z) : bool :=
  match a, b with
  | x :: a', y :: b' =>
      if (x =? 0) || (y =? 0) then (x =? 0) && (y =? 0)
      else if fat32_tolower x =? fat32_tolower y then fat32_name_equal_ci a' b' else false
  | x :: _, [] => x =? 0
  | [], y :: _ => y =? 0
  | [], [] => true
  end.

(** * Path segments *)

Fixpoint fat32_skip_slashes (p : list Z) : list Z :=
  match p with
  | c :: p' => if c =? 47 then fat32_skip_slashes p' else p
  | [] => []
  end.

(** [None]: FAT32_ERR_NAMETOOLONG; otherwise the segment and what follows it. *)
Fixpoint copy_segment_from (p : list Z) (len out_cap : nat) : option (list Z * list Z) :=
  match p with
  | [] => Some ([], [])
  | c :: p' =>
      if (c =? 0) || (c =? 47) then Some ([], p)
      else if (out_cap <=? len + 1)%nat then None
      else match copy_segment_from p' (S len) out_cap with
           | Some (seg, rest) => Some (c :: seg, rest)
           | None => None
           end
  end.
Definition fat32_copy_segment (p : list Z) (out_cap : nat) : option (list Z * list Z) :=
  copy_segment_from p 0 out_cap.

(** [*p == '\0'] *)
Definition at_end (p : list Z) : bool := match p with [] => true | c :: _ => c =? 0 end.

Section Fat32.
Context {H : Type} `{!KernelHeap H}.
Context (virtio_blk_read : blk_reader) (gpt : gpt_state).

(** * Volume *)

Definition cluster_to_lba (vol : fat32_vol_t) (cluster : Z) : Z :=
  u64 (data_start_lba vol + u64 (u32 (cluster - 2) * sectors_per_cluster (bpb vol))).

Definition read_sectors (vol : fat32_vol_t) (relative_lba count : Z) : option (list Z) :=
  gpt_read_partition_sectors virtio_blk_read gpt (gpt_partition_index vol) relative_lba count.

(** The checks of the boot sector, in the order of the code. *)
Definition bpb_valid (sector : list Z) (b : fat32_bpb_t) : bool :=
  let bps := bytes_per_sector b in
  let spc := sectors_per_cluster b in
  if negb (byte 510 sector =? 0x55) || negb (byte 511 sector =? 0xAA) then false
  else if negb (root_entry_count b =? 0) || negb (fat_size_16 b =? 0) || negb (total_sectors_16 b =? 0) then false
  else if fat_size_32 b =? 0 then false
  else if negb (fs_version b =? 0) then false
  else if (bps <? 512) || (bps >? 4096) || negb (Z.land bps (bps - 1) =? 0) then false
  else if (spc =? 0) || negb (Z.land spc (spc - 1) =? 0) then false
  else true.

(** The result and the volume structure as the call leaves it. *)
Definition fat32_mount (gpt_index : Z) : bool * fat32_vol_t :=
  let vol := mkVol gpt_index zero_bpb 0 0 0 0 0 in
  match gpt_read_partition_sectors virtio_blk_read gpt gpt_index 0 1 with
  | None => (false, vol)
  | Some sector =>
      let b := parse_bpb sector in
      if negb (bpb_valid sector b) then (false, mkVol gpt_index b 0 0 0 0 0)
      else
        let data_start := u64 (reserved_sectors b + u64 (num_fats b * fat_size_32 b)) in
        let total_sectors := if negb (total_sectors_32 b =? 0) then total_sectors_32 b else total_sectors_16 b in
        let data_sectors := u64 (total_sectors - data_start) in
        (true, mkVol gpt_index b (u32 (bytes_per_sector b * sectors_per_cluster b))
                 (reserved_sectors b) data_start (bpb_root_cluster b)
                 (u32 (data_sectors / sectors_per_cluster b)))
  end.

Definition fat32_read_fat_entry (vol : fat32_vol_t) (cluster : Z) : Z :=
  let bps := bytes_per_sector (bpb vol) in
  let entries_per_sector := bps / 4 in
  let fat_sector := u64 (fat_start_lba vol + cluster / entries_per_sector) in
  let byte_offset := u32 (cluster mod entries_per_sector * 4) in
  if bps >? 512 then FAT32_BAD
  else
    match read_sectors vol fat_sector 1 with
    | None => FAT32_BAD
    | Some sector => Z.land (field (Z.to_nat byte_offset) 4 sector) 0x0FFFFFFF
    end.

Definition fat32_read_cluster (vol : fat32_vol_t) (cluster : Z) : option (list Z) :=
  if (cluster <? 2) || (cluster >? u32 (cluster_count vol + 1)) then None
  else read_sectors vol (cluster_to_lba vol cluster) (sectors_per_cluster (bpb vol)).

(** * Directories *)

(** The slots from [i] on: the accumulator, the entries stored so far and [done]. *)
Fixpoint process_entries (n : nat) (i : nat) (cluster_buf : list Z) (lfn : lfn_state_t)
    (out : list fat32_dirent_t) (max_entries : Z)
    : M H (lfn_state_t * list fat32_dirent_t * bool) :=
  match n with
  | O => ret (lfn, out, false)
  | S n' =>
      if (length cluster_buf <? 32 * i + 32)%nat then fault
      else
        let raw := bytes (32 * i) 32 cluster_buf in
        let next l o := process_entries n' (S i) cluster_buf l o max_entries in
        let first := byte 0 raw in
        if first =? 0x00 then ret (lfn, out, true)
        else if first =? 0xE5 then next (lfn_reset lfn) out
        else if raw_attributes raw =? FAT_ATTR_LFN then next (lfn_fragment lfn raw) out
        else if negb (Z.land (raw_attributes raw) FAT_ATTR_VOLUME_ID =? 0) then next (lfn_reset lfn) out
        else if Z.of_nat (length out) >=? max_entries then next (lfn_reset lfn) out
        else
          let d := make_dirent lfn raw in
          if name_fits d then next (lfn_reset lfn) (out ++ [d]) else fault
  end.

(** The returned flag is [true] on every path of the code. *)
Definition process_dir_cluster (vol : fat32_vol_t) (cluster_buf : list Z) (lfn : lfn_state_t)
    (out : list fat32_dirent_t) (max_entries : Z)
    : M H (bool * (lfn_state_t * list fat32_dirent_t * bool)) :=
  let! r := process_entries (Z.to_nat (bytes_per_cluster vol / 32)) 0 cluster_buf lfn out max_entries in
  ret (true, r).

Fixpoint read_dir_loop (fuel : nat) (vol : fat32_vol_t) (buf_ptr cluster : Z) (lfn : lfn_state_t)
    (out : list fat32_dirent_t) (max_entries : Z) : M H (bool * list fat32_dirent_t) :=
  match fuel with
  | O => λ _, Hang
  | S fuel' =>
      if (2 <=? cluster) && (cluster <? FAT32_BAD) then
        match fat32_read_cluster vol cluster with
        | None => h_kfree buf_ptr;; ret (false, out)
        | Some cluster_buf =>
            let! (ok, (lfn, out, done)) := process_dir_cluster vol cluster_buf lfn out max_entries in
            if negb ok then h_kfree buf_ptr;; ret (false, out)
            else if (done : bool) then h_kfree buf_ptr;; ret (true, out)
            else
              let next := fat32_read_fat_entry vol cluster in
              if next =? FAT32_BAD then h_kfree buf_ptr;; ret (false, out)
              else read_dir_loop fuel' vol buf_ptr next lfn out max_entries
        end
      else h_kfree buf_ptr;; ret (true, out)
  end.

(** The result and the entries stored in [out] ([count_out] is their number). *)
Definition fat32_read_dir (fuel : nat) (vol : fat32_vol_t) (dir_cluster : Z) (max_entries : Z)
    : M H (bool * list fat32_dirent_t) :=
  let! buf_ptr := h_kmalloc (bytes_per_cluster vol) in
  if buf_ptr =? 0 then ret (false, [])
  else read_dir_loop fuel vol buf_ptr dir_cluster lfn_init [] max_entries.

(** A callback: the new context and the returned code. *)
Definition fat32_dir_iter_cb (C : Type) : Type := fat32_dirent_t → C → C * Z.

Record fat32_lookup_ctx_t : Type := mkLk {
  lk_name : list Z; lk_out : fat32_dirent_t; lk_found : bool
}.
Record fat32_readdir_ctx_t : Type := mkRd {
  rd_target : Z; rd_current : Z; rd_out : fat32_dirent_t; rd_found : bool
}.

Definition fat32_lookup_cb : fat32_dir_iter_cb fat32_lookup_ctx_t := λ ent ctx,
  if fat32_name_equal_ci (name ent) (lk_name ctx)
  then (mkLk (lk_name ctx) ent true, 1) else (ctx, 0).

Definition fat32_readdir_cb : fat32_dir_iter_cb fat32_readdir_ctx_t := λ ent ctx,
  if rd_current ctx =? rd_target ctx
  then (mkRd (rd_target ctx) (rd_current ctx) ent true, 1)
  else (mkRd (rd_target ctx) (u64 (rd_current ctx + 1)) (rd_out ctx) (rd_found ctx), 0).

(** The slots of one cluster, from [i] on: accumulator, context, [done], [rc]. *)
Fixpoint iter_entries {C} (n : nat) (i : nat) (cluster_buf : list Z) (lfn : lfn_state_t)
    (cb : fat32_dir_iter_cb C) (ctx : C) : M H (lfn_state_t * C * bool * Z) :=
  match n with
  | O => ret (lfn, ctx, false, FAT32_OK)
  | S n' =>
      if (length cluster_buf <? 32 * i + 32)%nat then fault
      else
        let raw := bytes (32 * i) 32 cluster_buf in
        let next l c := iter_entries n' (S i) cluster_buf l cb c in
        let first := byte 0 raw in
        if first =? 0x00 then ret (lfn, ctx, true, FAT32_OK)
        else if first =? 0xE5 then next (lfn_reset lfn) ctx
        else if raw_attributes raw =? FAT_ATTR_LFN then next (lfn_fragment lfn raw) ctx
        else if negb (Z.land (raw_attributes raw) FAT_ATTR_VOLUME_ID =? 0) then next (lfn_reset lfn) ctx
        else
          let d := make_dirent lfn raw in
          if negb (name_fits d) then fault
          else
            let '(ctx, cb_rc) := cb d ctx in
            if cb_rc <? 0 then ret (lfn_reset lfn, ctx, true, cb_rc)
            else if cb_rc >? 0 then ret (lfn_reset lfn, ctx, true, FAT32_OK)
            else next (lfn_reset lfn) ctx
  end.

Fixpoint iter_dir_loop {C} (fuel : nat) (vol : fat32_vol_t) (cluster : Z) (lfn : lfn_state_t)
    (cb : fat32_dir_iter_cb C) (ctx : C) : M H (Z * C) :=
  match fuel with
  | O => λ _, Hang
  | S fuel' =>
      if (2 <=? cluster) && (cluster <? FAT32_BAD) then
        match fat32_read_cluster vol cluster with
        | None => ret (FAT32_ERR_IO, ctx)
        | Some cluster_buf =>
            let! (lfn, ctx, done, rc) :=
              iter_entries (Z.to_nat (bytes_per_cluster vol / 32)) 0 cluster_buf lfn cb ctx in
            if (done : bool) then ret (rc, ctx)
            else
              let next := fat32_read_fat_entry vol cluster in
              if next =? FAT32_BAD then ret (FAT32_ERR_IO, ctx)
              else if next >=? FAT32_EOC then ret (rc, ctx)
              else iter_dir_loop fuel' vol next lfn cb ctx
        end
      else ret (FAT32_OK, ctx)
  end.

Definition fat32_iter_dir {C} (fuel : nat) (vol : fat32_vol_t) (dir_cluster : Z)
    (cb : fat32_dir_iter_cb C) (ctx : C) : M H (Z * C) :=
  if dir_cluster <? 2 then ret (FAT32_ERR_INVAL, ctx)
  else
    let! buf_ptr := h_kmalloc (bytes_per_cluster vol) in
    if buf_ptr =? 0 then ret (FAT32_ERR_NOMEM, ctx)
    else
      let! r := iter_dir_loop fuel vol dir_cluster lfn_init cb ctx in
      h_kfree buf_ptr;;
      ret r.

(** The returned code and the contents of [*out]. *)
Definition fat32_lookup (fuel : nat) (vol : fat32_vol_t) (dir_cluster : Z) (nm : list Z)
    (out : fat32_dirent_t) : M H (Z * fat32_dirent_t) :=
  let! (rc, ctx) := fat32_iter_dir fuel vol dir_cluster fat32_lookup_cb (mkLk nm out false) in
  if rc <? 0 then ret (rc, lk_out ctx)
  else ret (if lk_found ctx then FAT32_OK else FAT32_ERR_NOENT, lk_out ctx).

Definition fat32_readdir_index (fuel : nat) (vol : fat32_vol_t) (dir_cluster index : Z)
    (out : fat32_dirent_t) : M H (Z * fat32_dirent_t) :=
  let! (rc, ctx) := fat32_iter_dir fuel vol dir_cluster fat32_readdir_cb (mkRd index 0 out false) in
  if rc <? 0 then ret (rc, rd_out ctx)
  else ret (if rd_found ctx then 1 else 0, rd_out ctx).

Definition fat32_make_root_dirent (vol : fat32_vol_t) : fat32_dirent_t :=
  mkDirent [47] FAT_ATTR_DIRECTORY (root_cluster vol) 0 (mkTs 0 0) (mkTs 0 0) (mkTs 0 0).

(** The loop over the path: [steps] is enough when it exceeds the length of [p]. *)
Fixpoint lookup_path_loop (steps : nat) (fuel : nat) (vol : fat32_vol_t) (p : list Z)
    (dir_cluster : Z) (current out : fat32_dirent_t) : M H (Z * fat32_dirent_t) :=
  match steps with
  | O => λ _, Hang
  | S steps' =>
      if at_end p then ret (FAT32_OK, current)
      else
        match fat32_copy_segment p (FAT32_NAME_MAX + 1) with
        | None => ret (FAT32_ERR_NAMETOOLONG, out)
        | Some (nm, p) =>
            let! (rc, current) := fat32_lookup fuel vol dir_cluster nm current in
            if rc <? 0 then ret (rc, out)
            else
              let p := fat32_skip_slashes p in
              if at_end p then lookup_path_loop steps' fuel vol p dir_cluster current out
              else if Z.land (attributes current) FAT_ATTR_DIRECTORY =? 0 then ret (FAT32_ERR_NOTDIR, out)
              else if first_cluster current <? 2 then ret (FAT32_ERR_IO, out)
              else lookup_path_loop steps' fuel vol p (first_cluster current) current out
        end
  end.

(** [path] is [None] for NULL; the code and the contents of [*out]. *)
Definition fat32_lookup_path (fuel : nat) (vol : fat32_vol_t) (path : option (list Z))
    (out : fat32_dirent_t) : M H (Z * fat32_dirent_t) :=
  match path with
  | None => ret (FAT32_OK, fat32_make_root_dirent vol)
  | Some s =>
      if at_end s then ret (FAT32_OK, fat32_make_root_dirent vol)
      else
        let p := fat32_skip_slashes s in
        if at_end p then ret (FAT32_OK, fat32_make_root_dirent vol)
        else lookup_path_loop (S (length p)) fuel vol p (root_cluster vol) zero_dirent out
  end.

Definition fat32_stat_path (fuel : nat) (vol : fat32_vol_t) (path : option (list Z))
    (out : fat32_dirent_t) : M H (Z * fat32_dirent_t) :=
  fat32_lookup_path fuel vol path out.

Definition fat32_read_dir_path (fuel : nat) (vol : fat32_vol_t) (path : option (list Z))
    (max_entries : Z) : M H (Z * list fat32_dirent_t) :=
  let! (rc, dirent) := fat32_lookup_path fuel vol path zero_dirent in
  if rc <? 0 then ret (rc, [])
  else if Z.land (attributes dirent) FAT_ATTR_DIRECTORY =? 0 then ret (FAT32_ERR_NOTDIR, [])
  else
    let dir_cluster := if first_cluster dirent <? 2 then root_cluster vol else first_cluster dirent in
    let! (ok, out) := fat32_read_dir fuel vol dir_cluster max_entries in
    if (ok : bool) then ret (FAT32_OK, out) else ret (FAT32_ERR_IO, out).

(** * Files *)

(** The loop that skips whole clusters: where to start reading, or the code to
    return. *)
Fixpoint skip_clusters (fuel : nat) (vol : fat32_vol_t) (cluster skip : Z) : M H (Z + Z * Z) :=
  match fuel with
  | O => λ _, Hang
  | S fuel' =>
      if skip >=? bytes_per_cluster vol then
        let next := fat32_read_fat_entry vol cluster in
        if next =? FAT32_BAD then ret (inl FAT32_ERR_IO)
        else if next >=? FAT32_EOC then ret (inl 0)
        else skip_clusters fuel' vol next (skip - bytes_per_cluster vol)
      else ret (inr (cluster, skip))
  end.

(** The copying loop: the code to return ([total_read] or an error) and the
    bytes stored in the caller's buffer so far. *)
Fixpoint read_clusters (fuel : nat) (vol : fat32_vol_t) (cluster intra to_read : Z) (dst : list Z)
    : M H (Z * list Z) :=
  match fuel with
  | O => λ _, Hang
  | S fuel' =>
      if (0 <? to_read) && (2 <=? cluster) && (cluster <? FAT32_EOC) then
        match fat32_read_cluster vol cluster with
        | None => ret (FAT32_ERR_IO, dst)
        | Some cluster_buf =>
            let avail := bytes_per_cluster vol - intra in
            let chunk := if to_read <? avail then to_read else avail in
            if Z.of_nat (length cluster_buf) <? intra + chunk then fault
            else
              let dst := dst ++ bytes (Z.to_nat intra) (Z.to_nat chunk) cluster_buf in
              let to_read := to_read - chunk in
              if to_read =? 0 then ret (Z.of_nat (length dst), dst)
              else
                let next := fat32_read_fat_entry vol cluster in
                if next =? FAT32_BAD then ret (FAT32_ERR_IO, dst)
                else if next >=? FAT32_EOC then ret (Z.of_nat (length dst), dst)
                else read_clusters fuel' vol next 0 to_read dst
        end
      else ret (Z.of_nat (length dst), dst)
  end.

(** The returned count or error, and the bytes stored in [buf]. *)
Definition fat32_read_file_at (fuel : nat) (vol : fat32_vol_t) (first_cluster file_size offset len : Z)
    : M H (Z * list Z) :=
  if (offset >=? file_size) || (len =? 0) then ret (0, [])
  else if file_size =? 0 then ret (0, [])
  else if first_cluster <? 2 then ret (FAT32_ERR_IO, [])
  else
    let remaining := file_size - offset in
    let len := if len >? remaining then remaining else len in
    let! buf_ptr := h_kmalloc (bytes_per_cluster vol) in
    if buf_ptr =? 0 then ret (FAT32_ERR_NOMEM, [])
    else
      let! r := skip_clusters fuel vol first_cluster offset in
      match r with
      | inl rc => h_kfree buf_ptr;; ret (rc, [])
      | inr (cluster, intra) =>
          let! r := read_clusters fuel vol cluster intra len [] in
          h_kfree buf_ptr;;
          ret r
      end.
End Fat32.
