(* ===== verification/Fat32Spec.v ===== *)
(** Correctness of the FAT32 reader: a reference view of files and directories
    (the contents of a cluster chain, the entries of a directory, path
    resolution) and the proof that the code computes it, whatever the cluster
    boundaries, and returns every buffer to the heap. *)

From S2P Require Import Prelude Disk Gpt Heap Fat32.

(** * Directory contents, independent of clusters *)

(** The 32-byte slots [i .. i+n-1] of a buffer. *)
Definition slots_from (n i : nat) (buf : list Z) : list (list Z) :=
  map (λ k, bytes (32 * k) 32 buf) (seq i n).

(** Scanning a sequence of slots: the entries, the accumulator afterwards and
    whether the end marker was met; [None] when a name does not fit. *)
Fixpoint scan (slots : list (list Z)) (l : lfn_state_t)
    : option (list fat32_dirent_t * lfn_state_t * bool) :=
  match slots with
  | [] => Some ([], l, false)
  | raw :: slots' =>
      if byte 0 raw =? 0 then Some ([], l, true)
      else if byte 0 raw =? 0xE5 then scan slots' (lfn_reset l)
      else if raw_attributes raw =? FAT_ATTR_LFN then scan slots' (lfn_fragment l raw)
      else if negb (Z.land (raw_attributes raw) FAT_ATTR_VOLUME_ID =? 0) then scan slots' (lfn_reset l)
      else
        let d := make_dirent l raw in
        if name_fits d then
          match scan slots' (lfn_reset l) with
          | Some (ds, l', stop) => Some (d :: ds, l', stop)
          | None => None
          end
        else None
  end.

(** What the directory stored in [slots] contains. *)
Definition dir_entries (slots : list (list Z)) : option (list fat32_dirent_t) :=
  (λ r, r.1.1) <$> scan slots lfn_init.

Lemma scan_app s1 s2 l :
  scan (s1 ++ s2) l =
    match scan s1 l with
    | Some (ds, l', false) =>
        match scan s2 l' with
        | Some (ds2, l2, stop) => Some (ds ++ ds2, l2, stop)
        | None => None
        end
    | r => r
    end.
Proof.
  revert l. induction s1 as [|raw s1 IH]; intros l; cbn [scan app].
  { by destruct (scan s2 l) as [[[? ?] ?]|]. }
  repeat case_match; simplify_eq; try done; rewrite IH in *; repeat case_match; simplify_eq; done.
Qed.

(** ** The directory loops compute [scan] *)

Section Loops.
Context {H : Type} `{!KernelHeap H}.
Implicit Types (h : H) (vol : fat32_vol_t).

Lemma process_entries_scan n i buf l out max ds l' stop h :
  (32 * (i + n) ≤ length buf)%nat → 0 ≤ max →
  scan (slots_from n i buf) l = Some (ds, l', stop) →
  process_entries n i buf l out max h =
    Ok ((l', out ++ take (Z.to_nat max - length out) ds, stop), h).
Proof.
  revert i l out ds. induction n as [|n IH]; intros i l out ds Hlen Hmax; cbn [process_entries slots_from seq map scan].
  { intros [= <- <- <-]. by rewrite take_nil, app_nil_r. }
  destruct (Nat.ltb_spec (length buf) (32 * i + 32)); [lia|].
  change (map _ (seq (S i) n)) with (slots_from n (S i) buf).
  cbv zeta. destruct (byte 0 _ =? 0).
  { intros [= <- <- <-]. by rewrite take_nil, app_nil_r. }
  destruct (_ =? 0xE5); [intros; apply IH; [lia|done..]|].
  destruct (_ =? FAT_ATTR_LFN); [intros; apply IH; [lia|done..]|].
  destruct (negb _); [intros; apply IH; [lia|done..]|].
  destruct (name_fits _) eqn:Hfit; [|done].
  destruct (scan _ _) as [[[ds0 l0] stop0]|] eqn:Hsc; [|done]. intros [= <- <- <-].
  destruct (Z.geb_spec (Z.of_nat (length out)) max).
  - replace (Z.to_nat max - length out)%nat with 0%nat by lia.
    rewrite (IH (S i) (lfn_reset l) out ds0); [|lia|done|done].
    replace (Z.to_nat max - length out)%nat with 0%nat by lia. done.
  - rewrite (IH (S i) (lfn_reset l) (out ++ [_]) ds0); [|lia|done|done].
    rewrite length_app. simpl length.
    replace (Z.to_nat max - length out)%nat with (S (Z.to_nat max - (length out + 1))) by lia.
    cbn [take]. by rewrite <- app_assoc.
Qed.

(** What the callback loop does to a list of entries: the final context and the
    code when the callback stopped it. *)
Fixpoint cb_fold {C} (cb : fat32_dir_iter_cb C) (ctx : C) (ds : list fat32_dirent_t) : C * option Z :=
  match ds with
  | [] => (ctx, None)
  | d :: ds' =>
      let '(ctx', rc) := cb d ctx in
      if rc <? 0 then (ctx', Some rc)
      else if rc >? 0 then (ctx', Some FAT32_OK)
      else cb_fold cb ctx' ds'
  end.

Lemma cb_fold_app {C} (cb : fat32_dir_iter_cb C) ctx ds1 ds2 :
  cb_fold cb ctx (ds1 ++ ds2) =
    match cb_fold cb ctx ds1 with
    | (ctx', None) => cb_fold cb ctx' ds2
    | r => r
    end.
Proof.
  revert ctx. induction ds1 as [|d ds1 IH]; intros ctx; simpl; [done|].
  destruct (cb d ctx) as [ctx' rc]. destruct (rc <? 0); [done|]. destruct (rc >? 0); [done|]. apply IH.
Qed.

Lemma iter_entries_scan {C} (cb : fat32_dir_iter_cb C) n i buf l ctx ds l' stop h :
  (32 * (i + n) ≤ length buf)%nat →
  scan (slots_from n i buf) l = Some (ds, l', stop) →
  ∃ l2, iter_entries n i buf l cb ctx h =
    Ok (match cb_fold cb ctx ds with
        | (ctx', Some rc) => (l2, ctx', true, rc)
        | (ctx', None) => (l', ctx', stop, FAT32_OK)
        end, h).
Proof.
  revert i l ctx ds. induction n as [|n IH]; intros i l ctx ds Hlen; cbn [iter_entries slots_from seq map scan].
  { intros [= <- <- <-]. by exists l. }
  destruct (Nat.ltb_spec (length buf) (32 * i + 32)); [lia|].
  change (map _ (seq (S i) n)) with (slots_from n (S i) buf).
  cbv zeta. destruct (byte 0 _ =? 0).
  { intros [= <- <- <-]. by exists l. }
  destruct (_ =? 0xE5); [intros; apply IH; [lia|done..]|].
  destruct (_ =? FAT_ATTR_LFN); [intros; apply IH; [lia|done..]|].
  destruct (negb (_ =? 0)); [intros; apply IH; [lia|done..]|].
  destruct (name_fits _) eqn:Hfit; [|done]. cbn [negb].
  destruct (scan _ _) as [[[ds0 l0] stop0]|] eqn:Hsc; [|done]. intros [= <- <- <-]. cbn [cb_fold].
  destruct (cb _ ctx) as [ctx' rc]. destruct (rc <? 0); [by eexists|]. destruct (rc >? 0); [by eexists|].
  eapply IH; [lia|done].
Qed.
End Loops.

(** * Cluster chains *)

(** The geometry [fat32_mount] accepts on 512-byte sectors. *)
Record vol_ok (vol : fat32_vol_t) : Prop := {
  vol_bps : bytes_per_sector (bpb vol) = 512;
  vol_spc : 1 ≤ sectors_per_cluster (bpb vol) ≤ 128;
  vol_bpc : bytes_per_cluster vol = 512 * sectors_per_cluster (bpb vol)
}.

Section Volume.
Context {H : Type} `{!KernelHeap H, !KernelHeapLaws H}.
Context (rd : blk_reader) (image : Z → list Z) `{!DiskLaws rd image} (g : gpt_state).
Implicit Types (h : H) (vol : fat32_vol_t).

(** [chain vol c blocks]: following the FAT from [c], every cluster can be read,
    their contents are [blocks], and the chain ends with an end-of-chain mark. *)
Inductive chain vol : Z → list (list Z) → Prop :=
  | chain_end c : FAT32_EOC ≤ c → chain vol c []
  | chain_step c bs blocks :
      fat32_read_cluster rd g vol c = Some bs → c < FAT32_BAD →
      chain vol (fat32_read_fat_entry rd g vol c) blocks →
      chain vol c (bs :: blocks).

Lemma chain_next_ok vol c blocks : chain vol c blocks → (c =? FAT32_BAD) = false.
Proof. unfold FAT32_BAD, FAT32_EOC. destruct 1; unfold FAT32_EOC, FAT32_BAD in *; lia. Qed.

Lemma read_cluster_ge2 vol c bs : fat32_read_cluster rd g vol c = Some bs → 2 ≤ c.
Proof. unfold fat32_read_cluster. destruct (Z.ltb_spec c 2); simpl; [done|lia]. Qed.

Lemma read_cluster_length vol c bs :
  vol_ok vol → fat32_read_cluster rd g vol c = Some bs → Z.of_nat (length bs) = bytes_per_cluster vol.
Proof.
  intros Hvol. unfold fat32_read_cluster, read_sectors, gpt_read_partition_sectors.
  destruct (_ || _); [done|]. destruct (gpt_get_partition _ _); [|done]. destruct (_ >? _); [done|].
  intros Hr. apply read_length in Hr. rewrite Hr. destruct Hvol as [_ ? ->]. lia.
Qed.

Lemma bpc_bounds vol : vol_ok vol → 512 ≤ bytes_per_cluster vol ≤ 65536.
Proof. intros [_ ? ->]. lia. Qed.

Definition slots_per_cluster vol : nat := Z.to_nat (bytes_per_cluster vol / 32).

Lemma slots_fit vol c bs :
  vol_ok vol → fat32_read_cluster rd g vol c = Some bs →
  (32 * (0 + slots_per_cluster vol) ≤ length bs)%nat.
Proof.
  intros Hvol Hr. pose proof (read_cluster_length _ _ _ Hvol Hr).
  pose proof (bpc_bounds _ Hvol). unfold slots_per_cluster.
  assert (32 * (bytes_per_cluster vol / 32) ≤ bytes_per_cluster vol) by (apply Z.mul_div_le; lia). lia.
Qed.

(** ** Directories *)

(** All slots of a directory, cluster after cluster. *)
Definition dir_slots vol (blocks : list (list Z)) : list (list Z) :=
  concat (map (slots_from (slots_per_cluster vol) 0) blocks).

(** Directory [c] holds the entries [ds], in a chain shorter than [fuel]. *)
Definition dir_holds (fuel : nat) vol (c : Z) (ds : list fat32_dirent_t) : Prop :=
  2 ≤ c < FAT32_BAD ∧ ∃ blocks, chain vol c blocks ∧ (length blocks < fuel)%nat ∧
    dir_entries (dir_slots vol blocks) = Some ds.

(** Releasing the cluster buffer. *)
Lemma free_and_ret {A} E h live p sz (a : A) (Q : A → H → Prop) :
  h_owns h ((p, sz) :: live) → (∀ h', h_owns h' live → Q a h') →
  run E (h_kfree p;; ret a) Q h.
Proof. intros Ho HQ. run_step. eapply h_kfree_run; [done|]. intros h' ?. run_step. auto. Qed.

Lemma read_dir_loop_spec vol fuel ptr sz c l out max blocks ds l' stop live h :
  vol_ok vol → chain vol c blocks → (length blocks < fuel)%nat → 0 ≤ max →
  scan (dir_slots vol blocks) l = Some (ds, l', stop) → h_owns h ((ptr, sz) :: live) →
  run h_panic (read_dir_loop rd g fuel vol ptr c l out max)
    (λ r h', h_owns h' live ∧ r = (true, out ++ take (Z.to_nat max - length out) ds)) h.
Proof.
  intros Hvol Hch. revert fuel l out ds. induction Hch as [c Hc|c bs blocks Hr Hc Hch IH];
    intros fuel l out ds Hf Hmax Hsc Ho; (destruct fuel as [|fuel]; [simpl in Hf; lia|]); cbn [read_dir_loop].
  - injection Hsc as <- <- <-. unfold FAT32_EOC, FAT32_BAD in *.
    destruct (Z.ltb_spec c 268435447); [lia|]. rewrite andb_false_r.
    eapply free_and_ret; [done|]. intros h' ?. by rewrite take_nil, app_nil_r.
  - pose proof (read_cluster_ge2 _ _ _ Hr). destruct (Z.leb_spec 2 c); [|lia].
    destruct (Z.ltb_spec c FAT32_BAD); [|lia]. cbn [andb]. rewrite Hr.
    unfold dir_slots in Hsc. cbn [map concat] in Hsc. rewrite scan_app in Hsc.
    destruct (scan (slots_from _ 0 bs) l) as [[[ds1 l1] stop1]|] eqn:Hsc1; [|done].
    run_step. unfold process_dir_cluster. run_step.
    eapply run_value; [by apply process_entries_scan; [eapply slots_fit| |]|]. run_step. cbn [negb].
    destruct stop1.
    + injection Hsc as <- <- <-. eapply free_and_ret; [done|]. done.
    + rewrite (chain_next_ok _ _ _ Hch). fold (dir_slots vol blocks) in Hsc.
      destruct (scan (dir_slots vol blocks) l1) as [[[ds2 l2] stop2]|] eqn:Hsc2; [|done].
      injection Hsc as <- <- <-. eapply run_mono; [apply (IH fuel _ _ ds2); [simpl in Hf; lia|done..]|].
      intros r h' [? ->]. split; [done|]. rewrite length_app, length_take, <- app_assoc.
      f_equal. f_equal. rewrite take_app. f_equal. f_equal. lia.
Qed.

Lemma read_dir_spec fuel vol c max ds live h :
  vol_ok vol → dir_holds fuel vol c ds → 0 ≤ max → h_owns h live →
  run h_panic (fat32_read_dir rd g fuel vol c max)
    (λ r h', h_owns h' live ∧ (r = (false, []) ∨ r = (true, take (Z.to_nat max) ds))) h.
Proof.
  intros Hvol (_ & blocks & Hch & Hf & Hds) Hmax Ho. unfold fat32_read_dir, dir_entries in *. run_step.
  pose proof (bpc_bounds _ Hvol).
  eapply run_mono; [apply h_kmalloc_spec; [done|lia]|]. intros p h1 [[-> ?]|(Hp & sz & _ & Ho1)].
  - run_if. run_step. auto.
  - destruct (Z.eqb_spec p 0); [done|].
    destruct (scan _ _) as [[[ds0 l0] stop0]|] eqn:Hsc; [|done]. injection Hds as <-.
    eapply run_mono; [by eapply read_dir_loop_spec|]. intros r h' [? ->]. split; [done|]. right.
    simpl. by rewrite Nat.sub_0_r.
Qed.

Lemma iter_dir_loop_spec {C} (cb : fat32_dir_iter_cb C) vol fuel c l ctx blocks ds l' stop h :
  vol_ok vol → chain vol c blocks → (length blocks < fuel)%nat →
  scan (dir_slots vol blocks) l = Some (ds, l', stop) →
  iter_dir_loop rd g fuel vol c l cb ctx h =
    Ok (match cb_fold cb ctx ds with (ctx', rc) => (default FAT32_OK rc, ctx') end, h).
Proof.
  intros Hvol Hch. revert fuel l ctx ds. induction Hch as [c Hc|c bs blocks Hr Hc Hch IH];
    intros fuel l ctx ds Hf Hsc; (destruct fuel as [|fuel]; [simpl in Hf; lia|]); cbn [iter_dir_loop].
  - injection Hsc as <- <- <-. unfold FAT32_EOC, FAT32_BAD in *.
    destruct (Z.ltb_spec c 268435447); [lia|]. by rewrite andb_false_r.
  - pose proof (read_cluster_ge2 _ _ _ Hr). destruct (Z.leb_spec 2 c); [|lia].
    destruct (Z.ltb_spec c FAT32_BAD); [|lia]. cbn [andb]. rewrite Hr.
    unfold dir_slots in Hsc. cbn [map concat] in Hsc. rewrite scan_app in Hsc.
    destruct (scan (slots_from _ 0 bs) l) as [[[ds1 l1] stop1]|] eqn:Hsc1; [|done].
    destruct (iter_entries_scan cb _ _ _ _ ctx _ _ _ h (slots_fit _ _ _ Hvol Hr) Hsc1) as [l2 He].
    unfold bind. unfold slots_per_cluster in He. rewrite He. clear He.
    destruct stop1; [injection Hsc as <- <- <-|fold (dir_slots vol blocks) in Hsc;
      destruct (scan (dir_slots vol blocks) l1) as [[[ds2 l3] stop2]|] eqn:Hsc2; [|done]; injection Hsc as <- <- <-;
      rewrite cb_fold_app]; destruct (cb_fold cb ctx ds1) as [ctx' [rc|]] eqn:Hcb; try done.
    rewrite (chain_next_ok _ _ _ Hch). destruct (Z.geb_spec (fat32_read_fat_entry rd g vol c) FAT32_EOC).
    + inversion Hch; subst; [by injection Hsc2 as <- <- <-|unfold FAT32_EOC, FAT32_BAD in *; lia].
    + apply IH; [simpl in Hf; lia|done].
Qed.

(** The outcome of a scan that calls [cb] on the entries of a directory; the
    only other outcome is a failed buffer allocation. *)
Lemma iter_dir_spec {C} (cb : fat32_dir_iter_cb C) fuel vol c ctx ds live h :
  vol_ok vol → dir_holds fuel vol c ds → h_owns h live →
  run h_panic (fat32_iter_dir rd g fuel vol c cb ctx)
    (λ r h', h_owns h' live ∧
      (r = (FAT32_ERR_NOMEM, ctx) ∨
       r = match cb_fold cb ctx ds with (ctx', rc) => (default FAT32_OK rc, ctx') end)) h.
Proof.
  intros Hvol ([Hc2 _] & blocks & Hch & Hf & Hds) Ho. unfold fat32_iter_dir, dir_entries in *.
  destruct (Z.ltb_spec c 2); [lia|]. run_step.
  pose proof (bpc_bounds _ Hvol).
  eapply run_mono; [apply h_kmalloc_spec; [done|lia]|]. intros p h1 [[-> ?]|(Hp & sz & _ & Ho1)].
  - run_if. run_steps. auto.
  - destruct (Z.eqb_spec p 0); [done|]. run_step.
    destruct (scan _ _) as [[[ds0 l0] stop0]|] eqn:Hsc; [|done]. injection Hds as <-. simpl.
    eapply run_value; [by eapply iter_dir_loop_spec|]. eapply free_and_ret; [done|]. auto.
Qed.

(** The first entry whose name matches, ignoring ASCII case. *)
Definition find_entry (nm : list Z) (ds : list fat32_dirent_t) : option fat32_dirent_t :=
  List.find (λ d, fat32_name_equal_ci (name d) nm) ds.

Lemma cb_fold_lookup nm out ds :
  cb_fold fat32_lookup_cb (mkLk nm out false) ds =
    match find_entry nm ds with
    | Some d => (mkLk nm d true, Some FAT32_OK)
    | None => (mkLk nm out false, None)
    end.
Proof.
  induction ds as [|d ds IH]; simpl; [done|]. unfold fat32_lookup_cb at 1. simpl.
  by destruct (fat32_name_equal_ci (name d) nm).
Qed.

Lemma cb_fold_readdir index cur out ds :
  0 ≤ cur ≤ index → index < 2 ^ 64 →
  cb_fold fat32_readdir_cb (mkRd index cur out false) ds =
    match ds !! Z.to_nat (index - cur) with
    | Some d => (mkRd index index d true, Some FAT32_OK)
    | None => (mkRd index (cur + Z.of_nat (length ds)) out false, None)
    end.
Proof.
  revert cur. induction ds as [|d ds IH]; intros cur Hcur Hi.
  { simpl. by rewrite Z.add_0_r. }
  cbn [cb_fold]. unfold fat32_readdir_cb at 1. cbn [rd_current rd_target rd_out rd_found].
  destruct (Z.eqb_spec cur index) as [->|].
  - by replace (index - index) with 0 by lia.
  - change (0 <? 0) with false. change (0 >? 0) with false. cbv iota.
    rewrite wrap_small by (unfold in_width; lia). rewrite IH by lia.
    replace (Z.to_nat (index - cur)) with (S (Z.to_nat (index - (cur + 1)))) by lia. simpl.
    destruct (ds !! _); [done|]. do 2 f_equal. lia.
Qed.

Lemma lookup_spec fuel vol c nm out ds live h :
  vol_ok vol → dir_holds fuel vol c ds → h_owns h live →
  run h_panic (fat32_lookup rd g fuel vol c nm out)
    (λ r h', h_owns h' live ∧
      (r = (FAT32_ERR_NOMEM, out) ∨
       r = match find_entry nm ds with
           | Some d => (FAT32_OK, d)
           | None => (FAT32_ERR_NOENT, out)
           end)) h.
Proof.
  intros Hvol Hdir Ho. unfold fat32_lookup. run_step.
  eapply run_mono; [by apply iter_dir_spec|]. intros r h' [Ho' [->| ->]].
  - run_if. run_steps. auto.
  - rewrite cb_fold_lookup. destruct (find_entry nm ds); run_if; run_steps; auto.
Qed.

Lemma readdir_index_spec fuel vol c index out ds live h :
  vol_ok vol → dir_holds fuel vol c ds → h_owns h live → 0 ≤ index < 2 ^ 64 →
  run h_panic (fat32_readdir_index rd g fuel vol c index out)
    (λ r h', h_owns h' live ∧
      (r = (FAT32_ERR_NOMEM, out) ∨
       r = match ds !! Z.to_nat index with
           | Some d => (1, d)
           | None => (0, out)
           end)) h.
Proof.
  intros Hvol Hdir Ho Hi. unfold fat32_readdir_index. run_step.
  eapply run_mono; [by apply iter_dir_spec|]. intros r h' [Ho' [->| ->]].
  - run_if. run_steps. auto.
  - rewrite cb_fold_readdir by lia. rewrite Z.sub_0_r.
    destruct (ds !! Z.to_nat index); run_if; run_steps; auto.
Qed.

(** ** Paths *)

(** Splitting a C string at slashes. *)
Fixpoint split_slash (p : list Z) : list (list Z) :=
  match p with
  | [] => [[]]
  | c :: p' =>
      if c =? 0 then [[]]
      else if c =? 47 then [] :: split_slash p'
      else match split_slash p' with
           | s :: rest => (c :: s) :: rest
           | [] => [[c]]
           end
  end.

(** The components of a path: what is between slashes, when not empty. *)
Definition nonempty (s : list Z) : bool := match s with [] => false | _ => true end.
Definition segments (p : list Z) : list (list Z) := List.filter nonempty (split_slash p).

(** Resolving components from directory [c], given the known directories; the
    answer is an error code or an entry. *)
Fixpoint resolve (dirs : Z → option (list fat32_dirent_t)) (c : Z) (segs : list (list Z))
    : option (Z + fat32_dirent_t) :=
  match segs with
  | [] => None
  | s :: rest =>
      if (FAT32_NAME_MAX <? length s)%nat then Some (inl FAT32_ERR_NAMETOOLONG)
      else
        ds ← dirs c;
        match find_entry s ds with
        | None => Some (inl FAT32_ERR_NOENT)
        | Some d =>
            match rest with
            | [] => Some (inr d)
            | _ =>
                if Z.land (attributes d) FAT_ATTR_DIRECTORY =? 0 then Some (inl FAT32_ERR_NOTDIR)
                else if first_cluster d <? 2 then Some (inl FAT32_ERR_IO)
                else resolve dirs (first_cluster d) rest
            end
        end
  end.

Lemma segments_skip p : segments (fat32_skip_slashes p) = segments p.
Proof.
  induction p as [|c p IH]; [done|]. cbn [fat32_skip_slashes]. destruct (Z.eqb_spec c 47) as [->|]; [|done].
  by rewrite IH.
Qed.

Lemma skip_slashes_head p :
  match fat32_skip_slashes p with c :: _ => c ≠ 47 | [] => True end.
Proof. induction p as [|c p IH]; simpl; [done|]. by destruct (Z.eqb_spec c 47). Qed.

Lemma skip_slashes_length p : (length (fat32_skip_slashes p) ≤ length p)%nat.
Proof. induction p as [|c p IH]; simpl; [done|]. destruct (c =? 47); simpl; lia. Qed.

Lemma segments_end p : at_end p = true → segments p = [].
Proof. destruct p as [|c p]; simpl; [done|]. unfold segments. cbn [split_slash]. by intros ->. Qed.

(** The first component and what follows it. *)
Lemma copy_segment_split p len cap :
  ∃ s rest, split_slash p = s :: List.tl (split_slash p) ∧ hd [] (split_slash p) = s ∧
    (if (cap <=? len + length s)%nat && nonempty s then copy_segment_from p len cap = None
     else copy_segment_from p len cap = Some (s, rest)) ∧
    segments rest = List.filter nonempty (List.tl (split_slash p)) ∧ (length rest + length s = length p)%nat.
Proof.
  revert len. induction p as [|c p IH]; intros len; cbn [split_slash copy_segment_from].
  { exists [], []. simpl. rewrite andb_false_r. done. }
  destruct (Z.eqb_spec c 0) as [->|]; cbn [orb].
  { exists [], (0 :: p). simpl. rewrite andb_false_r. done. }
  destruct (Z.eqb_spec c 47) as [->|].
  { exists [], (47 :: p). simpl. rewrite andb_false_r. done. }
  destruct (IH (S len)) as (s & rest & Hs & _ & Hc & Hrest & Hl). rewrite Hs. cbn [hd List.tl].
  exists (c :: s), rest. cbn [nonempty length]. rewrite andb_true_r. split_and!; [done..| |done|simpl; lia].
  destruct (Nat.leb_spec cap (len + S (length s))), (Nat.leb_spec cap (len + 1)); try done; try lia.
  - destruct s; simpl in *; [lia|]. destruct (Nat.leb_spec cap (S (len + S (length s)))); [|lia]. by rewrite Hc.
  - destruct (Nat.leb_spec cap (S len + length s)); [lia|]. simpl in Hc. by rewrite Hc.
Qed.

Definition path_result (out : fat32_dirent_t) (r : Z + fat32_dirent_t) : Z * fat32_dirent_t :=
  match r with inl e => (e, out) | inr d => (FAT32_OK, d) end.

Lemma first_segment p :
  at_end p = false → (match p with c :: _ => c ≠ 47 | [] => True end) → nonempty (hd [] (split_slash p)) = true.
Proof.
  destruct p as [|c p]; simpl; [done|]. intros -> ?. destruct (Z.eqb_spec c 47); [done|].
  by destruct (split_slash p).
Qed.

Lemma lookup_path_loop_spec dirs fuel vol steps p c cur out r live h :
  vol_ok vol → (∀ c ds, dirs c = Some ds → dir_holds fuel vol c ds) → h_owns h live →
  (length p < steps)%nat → at_end p = false → (match p with c :: _ => c ≠ 47 | [] => True end) →
  resolve dirs c (segments p) = Some r →
  run h_panic (lookup_path_loop rd g steps fuel vol p c cur out)
    (λ res h', h_owns h' live ∧ (res = (FAT32_ERR_NOMEM, out) ∨ res = path_result out r)) h.
Proof.
  intros Hvol Hdirs. revert p c cur h. induction steps as [|steps IH]; intros p c cur h Ho Hst Hend Hhd Hres; [lia|].
  cbn [lookup_path_loop]. rewrite Hend. unfold fat32_copy_segment.
  destruct (copy_segment_split p 0 (FAT32_NAME_MAX + 1)) as (s & rest & Hsp & Hh & Hcopy & Hseg & Hlen).
  pose proof (first_segment _ Hend Hhd) as Hne. rewrite Hh in Hne. rewrite Hne, andb_true_r in Hcopy.
  assert (segments p = s :: segments rest) as Hsegs.
  { rewrite Hseg. unfold segments. rewrite Hsp at 1. cbn [List.filter]. by rewrite Hne. }
  rewrite Hsegs in Hres. cbn [resolve] in Hres. unfold FAT32_NAME_MAX in *.
  destruct (Nat.ltb_spec 256 (length s)).
  { destruct (Nat.leb_spec (256 + 1) (0 + length s)); [|lia]. rewrite Hcopy. injection Hres as <-. run_step. auto. }
  destruct (Nat.leb_spec (256 + 1) (0 + length s)); [lia|]. rewrite Hcopy.
  destruct (dirs c) as [ds|] eqn:Hds; [|done]. simpl in Hres. run_step.
  eapply run_mono; [apply (lookup_spec _ _ _ _ _ ds live); eauto|]. intros [rc d0] h' [Ho' Hr].
  destruct Hr as [[= -> ->]|Hr]; [run_if; run_step; auto|].
  destruct (find_entry s ds) as [d|]; injection Hr as -> ->; run_if; [|run_step; injection Hres as <-; auto].
  rewrite <- (segments_skip rest) in Hres. pose proof (skip_slashes_length rest).
  destruct (at_end (fat32_skip_slashes rest)) eqn:He; cbv zeta iota.
  - rewrite (segments_end _ He) in Hres. injection Hres as <-.
    destruct steps; [destruct s; simpl in *; [done|lia]|]. cbn [lookup_path_loop]. rewrite He. run_step. auto.
  - destruct (segments (fat32_skip_slashes rest)) as [|s2 segs2] eqn:Hs2.
    { exfalso. pose proof (first_segment _ He (skip_slashes_head rest)) as Hn. unfold segments in Hs2.
      destruct (split_slash (fat32_skip_slashes rest)); simpl in *; [done|]. by rewrite Hn in Hs2. }
    destruct (_ =? 0); [run_step; injection Hres as <-; auto|].
    destruct (_ <? 2); [run_step; injection Hres as <-; auto|].
    apply IH; [done|destruct s; simpl in *; [done|lia]|done|apply skip_slashes_head|by rewrite Hs2].
Qed.

(** ** Files *)

Lemma concat_drop_block (bs : list Z) blocks n :
  (length bs ≤ n)%nat → drop n (concat (bs :: blocks)) = drop (n - length bs) (concat blocks).
Proof. intros. cbn [concat]. rewrite drop_app, drop_ge by done. done. Qed.

Lemma skip_clusters_spec vol fuel c skip blocks h :
  vol_ok vol → chain vol c blocks → blocks ≠ [] → (length blocks ≤ fuel)%nat → 0 ≤ skip →
  (skip_clusters rd g fuel vol c skip h = Ok (inl 0, h) ∧ drop (Z.to_nat skip) (concat blocks) = []) ∨
  (∃ c' intra blocks', skip_clusters rd g fuel vol c skip h = Ok (inr (c', intra), h) ∧
     chain vol c' blocks' ∧ blocks' ≠ [] ∧ (length blocks' ≤ length blocks)%nat ∧
     0 ≤ intra < bytes_per_cluster vol ∧
     drop (Z.to_nat skip) (concat blocks) = drop (Z.to_nat intra) (concat blocks')).
Proof.
  intros Hvol Hch. revert fuel skip. induction Hch as [c Hc|c bs blocks Hr Hc Hch IH]; intros fuel skip Hne Hf Hsk; [done|].
  destruct fuel as [|fuel]; [simpl in Hf; lia|]. cbn [skip_clusters].
  pose proof (read_cluster_length _ _ _ Hvol Hr) as Hl. pose proof (bpc_bounds _ Hvol).
  destruct (Z.geb_spec skip (bytes_per_cluster vol)) as [Hge|Hlt].
  2: { right. exists c, skip, (bs :: blocks). split_and!; [done|by constructor|done..]. }
  rewrite (chain_next_ok _ _ _ Hch), concat_drop_block by lia.
  replace (Z.to_nat skip - length bs)%nat with (Z.to_nat (skip - bytes_per_cluster vol)) by lia.
  destruct (Z.geb_spec (fat32_read_fat_entry rd g vol c) FAT32_EOC) as [He|He].
  - left. split; [done|]. inversion Hch; subst; [cbn [concat]; by rewrite drop_nil|unfold FAT32_EOC, FAT32_BAD in *; lia].
  - destruct (IH fuel (skip - bytes_per_cluster vol)) as [[-> ?]|(c' & i & bl & -> & ? & ? & ? & ? & ?)].
    + inversion Hch; subst; [lia|done].
    + simpl in Hf. lia.
    + lia.
    + by left.
    + right. exists c', i, bl. split_and!; try done; simpl; lia.
Qed.

Lemma read_clusters_spec vol fuel c intra n dst blocks h :
  vol_ok vol → chain vol c blocks → (length blocks < fuel)%nat → 0 ≤ intra < bytes_per_cluster vol → 0 < n →
  let bs := dst ++ take (Z.to_nat n) (drop (Z.to_nat intra) (concat blocks)) in
  read_clusters rd g fuel vol c intra n dst h = Ok ((Z.of_nat (length bs), bs), h).
Proof.
  intros Hvol Hch. cbv zeta. revert fuel intra n dst. induction Hch as [c Hc|c bs blocks Hr Hc Hch IH];
    intros fuel intra n dst Hf Hi Hn; (destruct fuel as [|fuel]; [simpl in Hf; lia|]); cbn [read_clusters].
  { destruct (Z.ltb_spec c FAT32_EOC); [lia|]. rewrite andb_false_r. cbn [concat].
    by rewrite drop_nil, take_nil, app_nil_r. }
  pose proof (read_cluster_length _ _ _ Hvol Hr) as Hl. pose proof (read_cluster_ge2 _ _ _ Hr).
  destruct (Z.ltb_spec 0 n); [|lia]. destruct (Z.leb_spec 2 c); [|lia].
  destruct (Z.ltb_spec c FAT32_EOC); [|unfold FAT32_BAD, FAT32_EOC in *; lia]. cbn [andb]. rewrite Hr. cbv zeta.
  set (avail := bytes_per_cluster vol - intra).
  assert ((if n <? avail then n else avail) = Z.min n avail) as -> by (destruct (Z.ltb_spec n avail); lia).
  destruct (Z.ltb_spec (Z.of_nat (length bs)) (intra + Z.min n avail)); [lia|].
  assert (take (Z.to_nat n) (drop (Z.to_nat intra) (concat (bs :: blocks))) =
    bytes (Z.to_nat intra) (Z.to_nat (Z.min n avail)) bs ++ take (Z.to_nat (n - Z.min n avail)) (concat blocks)) as ->.
  { cbn [concat]. unfold bytes. rewrite drop_app, take_app, length_drop.
    replace (Z.to_nat intra - length bs)%nat with 0%nat by lia. rewrite drop_0.
    destruct (decide (n ≤ avail)).
    - f_equal; [f_equal; lia|]. f_equal. lia.
    - rewrite !take_ge with (l := drop _ bs) by (rewrite length_drop; lia). f_equal. f_equal. lia. }
  destruct (Z.eqb_spec (n - Z.min n avail) 0) as [He|He].
  { rewrite He. cbn [Z.to_nat take]. by rewrite app_nil_r. }
  rewrite (chain_next_ok _ _ _ Hch), app_assoc.
  destruct (Z.geb_spec (fat32_read_fat_entry rd g vol c) FAT32_EOC).
  - inversion Hch; subst; [|unfold FAT32_EOC, FAT32_BAD in *; lia]. cbn [concat]. by rewrite take_nil, app_nil_r.
  - rewrite IH; [by rewrite drop_0|simpl in Hf; lia|lia|lia].
Qed.

Lemma read_file_at_spec fuel vol c fsize offset len blocks live h :
  vol_ok vol → chain vol c blocks → (length blocks < fuel)%nat → 2 ≤ c < FAT32_BAD →
  0 ≤ offset < fsize → 0 < len → h_owns h live →
  run h_panic (fat32_read_file_at rd g fuel vol c fsize offset len)
    (λ r h', h_owns h' live ∧
      (r = (FAT32_ERR_NOMEM, []) ∨
       let bs := take (Z.to_nat (Z.min len (fsize - offset))) (drop (Z.to_nat offset) (concat blocks)) in
       r = (Z.of_nat (length bs), bs))) h.
Proof.
  intros Hvol Hch Hf Hc Hoff Hlen Ho. unfold fat32_read_file_at.
  assert (blocks ≠ []) as Hne by (inversion Hch; subst; unfold FAT32_EOC, FAT32_BAD in *; [lia|done]).
  destruct (Z.geb_spec offset fsize); [lia|]. destruct (Z.eqb_spec len 0); [lia|]. cbn [orb].
  destruct (Z.eqb_spec fsize 0); [lia|]. destruct (Z.ltb_spec c 2); [lia|]. cbv zeta.
  assert ((if len >? fsize - offset then fsize - offset else len) = Z.min len (fsize - offset)) as ->
    by (destruct (Z.gtb_spec len (fsize - offset)); lia).
  run_step. pose proof (bpc_bounds _ Hvol).
  eapply run_mono; [apply h_kmalloc_spec; [done|lia]|]. intros p h1 [[-> ?]|(Hp & sz & _ & Ho1)].
  { run_if. run_step. auto. }
  destruct (Z.eqb_spec p 0); [done|]. run_step.
  destruct (skip_clusters_spec vol fuel c offset blocks h1) as [[Hsk Hd]|(c' & i & bl & Hsk & Hch' & Hne' & Hl & Hi & Hd)];
    [done|done|done|lia|lia|..]; (eapply run_value; [exact Hsk|]).
  - eapply free_and_ret; [done|]. intros h' ?. split; [done|]. right. by rewrite Hd, take_nil.
  - cbv iota. run_step. eapply run_value; [apply (read_clusters_spec _ _ _ _ _ _ bl); [done..|lia|done|lia]|].
    eapply free_and_ret; [done|]. intros h' ?. split; [done|]. right. by rewrite Hd.
Qed.
End Volume.
