(* ===== verification/Fat32Props.v ===== *)
(** Properties of the FAT32 reader: mounting, reading files, listing and
    resolving directories, long file names, and the two ways a damaged volume
    defeats the code (cyclic chains, over-long names). *)

From S2P Require Import Prelude Disk Gpt Heap Fat32 Fat32Spec.

(** * Mounting *)

(** The geometry of a mounted volume. [vs] is the number of sectors of the
    volume as its boot sector states it. *)
Record mounted (vol : fat32_vol_t) (vs : Z) : Prop := {
  m_spc : ∃ k, 0 ≤ k < 8 ∧ sectors_per_cluster (bpb vol) = 2 ^ k;
  m_bps : ∃ k, 9 ≤ k ≤ 12 ∧ bytes_per_sector (bpb vol) = 2 ^ k;
  m_bpc : bytes_per_cluster vol = bytes_per_sector (bpb vol) * sectors_per_cluster (bpb vol);
  m_fat : fat_start_lba vol = reserved_sectors (bpb vol);
  m_data : data_start_lba vol = reserved_sectors (bpb vol) + num_fats (bpb vol) * fat_size_32 (bpb vol);
  m_count : data_start_lba vol ≤ vs → cluster_count vol = (vs - data_start_lba vol) / sectors_per_cluster (bpb vol)
}.

(** A value with one set bit. *)
Lemma land_pred_pow2 x : 0 < x → Z.land x (x - 1) = 0 → x = 2 ^ Z.log2 x.
Proof.
  intros Hx Hl. pose proof (Z.log2_spec x Hx) as [Hlo Hhi]. rewrite Z.pow_succ_r in Hhi by apply Z.log2_nonneg.
  destruct (decide (x = 2 ^ Z.log2 x)) as [|Hne]; [done|exfalso].
  assert (Z.testbit (Z.land x (x - 1)) (Z.log2 x) = true) as Hb; [|by rewrite Hl, Z.bits_0 in Hb].
  rewrite Z.land_spec, Z.bit_log2 by done. cbn [andb].
  replace (Z.log2 x) with (Z.log2 (x - 1)); [apply Z.bit_log2; lia|].
  apply Z.log2_unique; [apply Z.log2_nonneg|]. rewrite Z.pow_succ_r by apply Z.log2_nonneg. lia.
Qed.

Lemma pow2_between x a b :
  0 ≤ a → 0 ≤ b → Z.land x (x - 1) = 0 → 2 ^ a ≤ x < 2 ^ b → ∃ k, a ≤ k < b ∧ x = 2 ^ k.
Proof.
  intros Ha Hb Hl Hx. assert (0 < 2 ^ a) by (apply Z.pow_pos_nonneg; lia).
  pose proof (land_pred_pow2 x ltac:(lia) Hl) as He. exists (Z.log2 x). split; [|done].
  rewrite He in Hx. pose proof (Z.log2_nonneg x).
  split; [apply Z.pow_le_mono_r_iff with 2|apply Z.pow_lt_mono_r_iff with 2]; lia.
Qed.

Section Mount.
Context (rd : blk_reader) (image : Z → list Z) `{!DiskLaws rd image} (g : gpt_state).

Lemma byte_bound off buf : Forall is_byte buf → 0 ≤ byte off buf < 256.
Proof.
  intros Hb. unfold byte. destruct (buf !! off) as [x|] eqn:E; simpl; [|lia].
  by apply (Forall_lookup_1 _ _ _ _ Hb E).
Qed.

Lemma gpt_read_bytes idx rel n bs :
  gpt_read_partition_sectors rd g idx rel n = Some bs → Forall is_byte bs.
Proof.
  unfold gpt_read_partition_sectors. destruct (gpt_get_partition g idx); [|done].
  destruct (_ >? _); [done|]. intros Hr. by eapply read_bytes.
Qed.

Lemma mount_spec idx vol :
  fat32_mount rd g idx = (true, vol) →
  gpt_partition_index vol = idx ∧ mounted vol (total_sectors_32 (bpb vol)).
Proof.
  unfold fat32_mount. destruct (gpt_read_partition_sectors rd g idx 0 1) as [sector|] eqn:Hrd; [|done].
  pose proof (gpt_read_bytes _ _ _ _ Hrd) as Hbytes.
  destruct (bpb_valid sector (parse_bpb sector)) eqn:Hv; [|done]. cbn [negb]. intros [= <-].
  split; [done|]. unfold bpb_valid in Hv.
  pose proof (byte_bound 13 _ Hbytes). pose proof (byte_bound 16 _ Hbytes).
  pose proof (field_bound 14 2 _ Hbytes). pose proof (field_bound 32 4 _ Hbytes). pose proof (field_bound 36 4 _ Hbytes).
  change (sectors_per_cluster (parse_bpb sector)) with (byte 13 sector) in *.
  change (bytes_per_sector (parse_bpb sector)) with (field 11 2 sector) in *.
  set (spc := byte 13 sector) in *. set (bps := field 11 2 sector) in *.
  destruct (negb (byte 510 _ =? _) || _); [done|].
  destruct (negb _ || _ || _) eqn:Hz; [done|]. destruct (fat_size_32 _ =? 0); [done|]. destruct (negb (fs_version _ =? 0)); [done|].
  destruct (Z.ltb_spec bps 512); [done|]. destruct (Z.gtb_spec bps 4096); [done|].
  destruct (Z.eqb_spec (Z.land bps (bps - 1)) 0) as [Hb0|]; [|done]. cbn [orb negb] in Hv.
  destruct (Z.eqb_spec spc 0); [done|]. destruct (Z.eqb_spec (Z.land spc (spc - 1)) 0) as [Hs0|]; [|done].
  assert (∃ k, 0 ≤ k < 8 ∧ spc = 2 ^ k) as Hspc by (apply pow2_between; lia).
  assert (∃ k, 9 ≤ k ≤ 12 ∧ bps = 2 ^ k) as Hbps.
  { destruct (pow2_between bps 9 13) as (k & ? & ?); [lia|lia|done|lia|]. exists k. split; [lia|done]. }
  assert (1 ≤ spc) by lia. apply orb_false_iff in Hz as [_ Hz]. apply negb_false_iff, Z.eqb_eq in Hz.
  change (total_sectors_16 (parse_bpb sector)) with (field 19 2 sector) in Hz.
  change (reserved_sectors (parse_bpb sector)) with (field 14 2 sector).
  change (num_fats (parse_bpb sector)) with (byte 16 sector).
  change (fat_size_32 (parse_bpb sector)) with (field 36 4 sector).
  assert (u64 (field 14 2 sector + u64 (byte 16 sector * field 36 4 sector)) =
          field 14 2 sector + byte 16 sector * field 36 4 sector) as Hds.
  { change (256 ^ Z.of_nat 4) with (2 ^ 32) in *. change (256 ^ Z.of_nat 2) with 65536 in *.
    assert (0 ≤ byte 16 sector * field 36 4 sector ≤ 256 * 2 ^ 32) by nia.
    rewrite !wrap_small; unfold in_width; rewrite ?wrap_small; unfold in_width; lia. }
  split; simpl; [done|done| |done|done|].
  - apply wrap_small. unfold in_width. fold bps spc. nia.
  - rewrite Hds. change (total_sectors_32 (parse_bpb sector)) with (field 32 4 sector).
    rewrite Hz. replace (if negb (field 32 4 sector =? 0) then field 32 4 sector else 0) with (field 32 4 sector)
      by (destruct (Z.eqb_spec (field 32 4 sector) 0); simpl; lia).
    intros Hle. fold spc. assert (0 ≤ byte 16 sector * field 36 4 sector) by nia.
    set (fats := byte 16 sector * field 36 4 sector) in *.
    change (256 ^ Z.of_nat 4) with (2 ^ 32) in *.
    rewrite (wrap_small 64) by (unfold in_width; lia).
    apply wrap_small. unfold in_width. split; [apply Z.div_pos; lia|].
    apply Z.le_lt_trans with (field 32 4 sector - (field 14 2 sector + fats)); [|lia]. apply Z.div_le_upper_bound; nia.
Qed.

(** A successful [fat32_mount] establishes the geometry every later call
    relies on: sector and cluster sizes are powers of two in range, the FAT
    starts after the reserved sectors, the data region after the FATs, and the
    number of clusters is that of whole clusters between the start of the data
    region and the end of the volume. *)
Theorem fat32_mount_geometry idx vol :
  fat32_mount rd g idx = (true, vol) →
  gpt_partition_index vol = idx ∧ mounted vol (total_sectors_32 (bpb vol)).
Proof. apply mount_spec. Qed.

(** The sectors of a cluster, relative to the partition. *)
Definition extent (vol : fat32_vol_t) (c : Z) : Z * Z :=
  (data_start_lba vol + (c - 2) * sectors_per_cluster (bpb vol), sectors_per_cluster (bpb vol)).

Lemma cluster_to_lba_exact vol c vs :
  mounted vol vs → 0 ≤ data_start_lba vol < 2 ^ 48 → 2 ≤ c < 2 ^ 32 →
  cluster_to_lba vol c = (extent vol c).1.
Proof.
  intros [(k & Hk & Hspc) _ _ _ _ _] Hd Hc. unfold cluster_to_lba, extent. simpl. rewrite Hspc.
  assert (1 ≤ 2 ^ k ≤ 2 ^ 7) by (split; [change 1 with (2 ^ 0)|]; apply Z.pow_le_mono_r; lia).
  assert (0 ≤ (c - 2) * 2 ^ k ≤ 2 ^ 32 * 2 ^ 7) by (set (n := 2 ^ k) in *; nia).
  rewrite (wrap_small 32), (wrap_small 64 ((c - 2) * 2 ^ k)) by (unfold in_width; lia).
  apply wrap_small. unfold in_width. lia.
Qed.

(** On a mounted volume whose boot sector is consistent, the sectors that
    [fat32_read_cluster] reads lie in the data region, inside the volume, and
    different clusters occupy disjoint sectors. *)
Theorem fat32_clusters_in_volume vol vs c bs :
  mounted vol vs → 0 ≤ data_start_lba vol ≤ vs → vs < 2 ^ 32 →
  fat32_read_cluster rd g vol c = Some bs →
  let '(lba, n) := extent vol c in
  data_start_lba vol ≤ lba ∧ lba + n ≤ vs ∧ read_sectors rd g vol lba n = Some bs ∧
  ∀ c', 2 ≤ c' < c → (extent vol c').1 + (extent vol c').2 ≤ lba.
Proof.
  intros Hm Hd Hvs. unfold fat32_read_cluster.
  assert (1 ≤ sectors_per_cluster (bpb vol)) as Hspc.
  { destruct (m_spc _ _ Hm) as (k & ? & ->). assert (0 < 2 ^ k) by (apply Z.pow_pos_nonneg; lia). lia. }
  pose proof (m_count _ _ Hm ltac:(lia)) as Hcnt.
  assert (0 ≤ cluster_count vol ≤ vs - data_start_lba vol) as Hcc.
  { rewrite Hcnt. split; [apply Z.div_pos; lia|apply Z.div_le_upper_bound; nia]. }
  destruct (decide (cluster_count vol + 1 < 2 ^ 32)) as [Hlt|Hge].
  2: { assert (cluster_count vol = 2 ^ 32 - 1) by lia.
       replace (u32 (cluster_count vol + 1)) with 0 by (unfold wrap; apply Z.mod_unique with 1; lia).
       destruct (Z.ltb_spec c 2); [done|]. destruct (Z.gtb_spec c 0); [done|lia]. }
  rewrite wrap_small by (unfold in_width; lia).
  destruct (Z.ltb_spec c 2); [done|]. destruct (Z.gtb_spec c (cluster_count vol + 1)); [done|]. cbn [orb].
  rewrite (cluster_to_lba_exact _ _ _ Hm) by lia. simpl. intros Hr.
  assert (cluster_count vol * sectors_per_cluster (bpb vol) ≤ vs - data_start_lba vol).
  { rewrite Hcnt, Z.mul_comm. apply Z.mul_div_le. lia. }
  split_and!; [nia|nia|done|]. intros c' Hc'. nia.
Qed.
End Mount.

(** * Long file names *)

(** A writer of long-name slots, in the on-disk format. *)
Definition enc16 (us : list Z) : list Z := us ≫= λ u, [u mod 256; u / 256].
Definition lfn_slot (seq ck : Z) (us : list Z) : list Z :=
  [seq] ++ enc16 (take 5 us) ++ [0x0F; 0; ck] ++ enc16 (take 6 (drop 5 us)) ++ [0; 0] ++ enc16 (drop 11 us).

(** The slots of a name cut into blocks of 13 code units, last block first. *)
Fixpoint fragments (ck : Z) (last : bool) (rev_blocks : list (list Z)) : list (list Z) :=
  match rev_blocks with
  | [] => []
  | b :: rest =>
      lfn_slot ((if last then 0x40 else 0) + Z.of_nat (S (length rest))) ck b :: fragments ck false rest
  end.

Definition block_ok (us : list Z) : Prop := length us = 13%nat ∧ Forall (in_width 16) us.

Lemma le_enc16 u : u mod 256 + 256 * (u / 256 + 256 * 0) = u.
Proof. dlia. Qed.

Lemma lfn_slot_parse seq ck us :
  block_ok us → let raw := lfn_slot seq ck us in
  byte 0 raw = seq ∧ raw_attributes raw = FAT_ATTR_LFN ∧ byte 13 raw = ck ∧ lfn_units raw = us.
Proof.
  intros [Hl Hw]. do 13 (destruct us as [|? us]; [done|]). destruct us; [|done].
  repeat match goal with H : Forall _ (_ :: _) |- _ => apply Forall_cons in H as [? H] end.
  cbv zeta. split_and!; [done..|]. unfold lfn_units, field. cbn -[Z.mul Z.add Z.div Z.modulo].
  by rewrite !le_enc16.
Qed.

Lemma seq_bits k : (1 ≤ k ≤ 20)%nat →
  let s := Z.of_nat k in
  (Z.land s 0x40 =? 0) = true ∧ Z.land s 0xBF = s ∧
  (Z.land (0x40 + s) 0x40 =? 0) = false ∧ Z.land (0x40 + s) 0xBF = s.
Proof.
  intros Hk. do 21 (destruct k as [|k]; [try lia; by vm_compute|]). lia.
Qed.

(** The accumulator after the blocks [done] of a name were pushed and [r] are
    still expected. *)
Record collecting (l : lfn_state_t) (ck : Z) (done : list (list Z)) (r : nat) : Prop := {
  col_valid : valid l = true;
  col_seq : expected_seq l = Z.of_nat r;
  col_ck : checksum l = ck;
  col_len : length (chars l) = 260%nat;
  col_total : total l = (13 * length done)%nat;
  col_chars : take (total l) (chars l) = concat done
}.

Lemma length_concat13 bl : Forall block_ok bl → length (concat bl) = (13 * length bl)%nat.
Proof. induction 1 as [|b bl [Hb _] _ IH]; [done|]. simpl. rewrite length_app. lia. Qed.

(** One fragment, continuing or opening a name. *)
Lemma push_collecting l ck done r b :
  collecting l ck done (S r) → block_ok b → (length done + S r ≤ 20)%nat → Forall block_ok done →
  ∀ slot, lfn_units slot = b →
  collecting (let l' := lfn_push l slot in
              mkLfn (chars l') (total l') (u8 (expected_seq l' - 1)) (checksum l') (valid l')) ck (b :: done) r.
Proof.
  intros [Hv Hs Hc Hl Ht Hch] Hb Hn Hd slot Hslot. unfold lfn_push, LFN_MAX_SLOTS.
  destruct (Nat.ltb_spec (20 * 13) (total l + 13)); [lia|].
  assert (length (lfn_units slot) = 13%nat) as H13 by (rewrite Hslot; apply Hb).
  split; cbn [valid expected_seq checksum chars total]; [done| |done| | |].
  - rewrite Hs. replace (Z.of_nat (S r) - 1) with (Z.of_nat r) by lia. apply wrap_small. unfold in_width. lia.
  - rewrite !length_app, length_take, length_drop. lia.
  - simpl. lia.
  - rewrite app_assoc, take_app_length', Hslot, Hch; [done|]. rewrite length_app, length_take. lia.
Qed.

Lemma fragment_collecting l ck done r b :
  collecting l ck done (S r) → block_ok b → (length done + S r ≤ 20)%nat → Forall block_ok done →
  collecting (lfn_fragment l (lfn_slot (Z.of_nat (S r)) ck b)) ck (b :: done) r.
Proof.
  intros Hcol Hb Hn Hd. destruct (lfn_slot_parse (Z.of_nat (S r)) ck b Hb) as (H0 & _ & _ & Hu).
  destruct (seq_bits (S r)) as (Hb1 & Hb2 & _); [lia|]. unfold lfn_fragment. rewrite H0, Hb1, Hb2. cbn [negb].
  rewrite (col_valid _ _ _ _ Hcol), (col_seq _ _ _ _ Hcol), Z.eqb_refl. cbn [negb orb]. rewrite (col_valid _ _ _ _ Hcol).
  by eapply push_collecting.
Qed.

Lemma fragment_opening l ck r b :
  length (chars l) = 260%nat → block_ok b → (S r ≤ 20)%nat →
  collecting (lfn_fragment l (lfn_slot (0x40 + Z.of_nat (S r)) ck b)) ck [b] r.
Proof.
  intros Hl Hb Hn. destruct (lfn_slot_parse (0x40 + Z.of_nat (S r)) ck b Hb) as (H0 & _ & H13 & Hu).
  destruct (seq_bits (S r)) as (_ & _ & Hb1 & Hb2); [lia|]. unfold lfn_fragment. rewrite H0, Hb1, Hb2, H13. cbn [negb valid].
  cbn [expected_seq]. rewrite Z.eqb_refl. cbn [negb orb valid].
  by eapply (push_collecting _ ck []); [split|..].
Qed.

(** ** Reading the slots *)

Lemma lfn_slot_length seq ck us : block_ok us → length (lfn_slot seq ck us) = 32%nat.
Proof. intros [Hl _]. do 13 (destruct us as [|? us]; [done|]). by destruct us. Qed.

Lemma slot_at i pre (raw post : list Z) :
  length pre = (32 * i)%nat → length raw = 32%nat →
  bytes (32 * i) 32 (pre ++ raw ++ post) = raw ∧ (32 * i + 32 ≤ length (pre ++ raw ++ post))%nat.
Proof.
  intros Hp Hr. split; [|rewrite !length_app; lia]. unfold bytes. rewrite <- Hp, drop_app_length.
  rewrite <- Hr. apply take_app_length.
Qed.

Section Slots.
Context {H : Type} (h : H).

Lemma process_fragment n i pre seq ck b post l out max :
  length pre = (32 * i)%nat → block_ok b → seq ≠ 0 → seq ≠ 0xE5 →
  let buf := pre ++ lfn_slot seq ck b ++ post in
  process_entries (S n) i buf l out max h = process_entries n (S i) buf (lfn_fragment l (lfn_slot seq ck b)) out max h.
Proof.
  intros Hp Hb H0 He buf. destruct (slot_at i pre (lfn_slot seq ck b) post Hp (lfn_slot_length _ _ _ Hb)) as [Hs Hlen].
  destruct (lfn_slot_parse seq ck b Hb) as (Hq & Ha & _). cbn [process_entries]. unfold buf.
  destruct (Nat.ltb_spec (length (pre ++ lfn_slot seq ck b ++ post)) (32 * i + 32)); [lia|]. cbv zeta.
  rewrite Hs, Hq, Ha. destruct (Z.eqb_spec seq 0); [done|]. by destruct (Z.eqb_spec seq 0xE5).
Qed.

Lemma process_fragments ck rest n i pre post l done out max :
  length pre = (32 * i)%nat → collecting l ck done (length rest) → (length done + length rest ≤ 20)%nat →
  Forall block_ok rest → Forall block_ok done →
  let buf := pre ++ concat (fragments ck false rest) ++ post in
  ∃ l', collecting l' ck (rev rest ++ done) 0 ∧
    process_entries (length rest + n) i buf l out max h = process_entries n (i + length rest) buf l' out max h.
Proof.
  revert i pre l done. induction rest as [|b rest IH]; intros i pre l done Hp Hcol Hn Hr Hd buf.
  { exists l. by rewrite Nat.add_0_r. }
  apply Forall_cons in Hr as [Hb Hr]. simpl in Hn. unfold buf. clear buf.
  cbn [fragments length concat Nat.add]. rewrite Z.add_0_l.
  set (sl := lfn_slot (Z.of_nat (S (length rest))) ck b). rewrite <- (app_assoc sl).
  assert (length sl = 32%nat) as Hsl by (by apply lfn_slot_length).
  unfold sl. rewrite process_fragment by (done || lia). fold sl.
  destruct (IH (S i) (pre ++ sl) (lfn_fragment l sl) (b :: done)) as (l' & Hl' & He).
  { rewrite length_app. lia. }
  { by apply fragment_collecting. } { simpl. lia. } { done. } { by constructor. }
  rewrite <- !app_assoc in He. exists l'. cbn [rev]. rewrite <- app_assoc. split; [done|].
  rewrite He. f_equal. lia.
Qed.

(** An 8.3 slot that stands for a visible entry. *)
Definition visible (raw : list Z) : Prop :=
  byte 0 raw ≠ 0 ∧ byte 0 raw ≠ 0xE5 ∧ raw_attributes raw ≠ FAT_ATTR_LFN ∧
  Z.land (raw_attributes raw) FAT_ATTR_VOLUME_ID = 0.

Lemma process_visible n i pre raw post l out max :
  length pre = (32 * i)%nat → length raw = 32%nat → visible raw → Z.of_nat (length out) < max →
  (length (entry_name l raw) < 256)%nat →
  let buf := pre ++ raw ++ post in
  process_entries (S n) i buf l out max h =
    process_entries n (S i) buf (lfn_reset l) (out ++ [make_dirent l raw]) max h.
Proof.
  intros Hp Hr (H0 & He5 & Hlfn & Hvol) Hmax Hfit buf. destruct (slot_at i pre raw post Hp Hr) as [Hs Hlen].
  cbn [process_entries]. unfold buf.
  destruct (Nat.ltb_spec (length (pre ++ raw ++ post)) (32 * i + 32)); [lia|]. cbv zeta. rewrite Hs.
  destruct (Z.eqb_spec (byte 0 raw) 0); [done|]. destruct (Z.eqb_spec (byte 0 raw) 0xE5); [done|].
  destruct (Z.eqb_spec (raw_attributes raw) FAT_ATTR_LFN); [done|]. rewrite Hvol. cbn [negb Z.eqb].
  rewrite Z.geb_leb. destruct (Z.leb_spec max (Z.of_nat (length out))); [lia|].
  assert (name_fits (make_dirent l raw) = true) as ->; [|done].
  unfold name_fits. cbn [make_dirent name]. by apply Nat.ltb_lt.
Qed.
End Slots.

(** ** The encodings, by their definitions *)

(** The checksum of an 8.3 name: rotate the sum right by one bit and add. *)
Definition spec_checksum (name11 : list Z) : Z :=
  foldl (λ sum c, (128 * (sum mod 2) + sum / 2 + c) mod 256) 0 name11.

Lemma lfn_checksum_ok name11 : lfn_checksum name11 = spec_checksum name11.
Proof.
  unfold lfn_checksum, spec_checksum.
  match goal with |- fold_left ?f _ _ = foldl ?g _ _ => assert (∀ l sum, fold_left f l sum = foldl g sum l) as ->; [|done] end.
  induction l as [|c l IH]; intros sum; [done|]. cbn [fold_left foldl]. rewrite IH. f_equal. rewrite Z.shiftr_div_pow2, Zmod_odd by lia. unfold u8, wrap.
  by destruct (Z.odd sum).
Qed.

(** A character of the basic plane other than NUL and the surrogates, and its UTF-8 form. *)
Definition bmp_char (cp : Z) : Prop := 0 < cp < 0x10000 ∧ ¬ 0xD800 ≤ cp ≤ 0xDFFF.

Definition utf8_char (cp : Z) : list Z :=
  if decide (cp < 128) then [cp]
  else if decide (cp < 2048) then [192 + cp / 64; 128 + cp mod 64]
  else [224 + cp / 4096; 128 + cp / 64 mod 64; 128 + cp mod 64].

Definition utf8 (cps : list Z) : list Z := cps ≫= utf8_char.

Lemma lor_top x n k : 0 ≤ n → 0 ≤ x < 2 ^ n → Z.lor (k * 2 ^ n) x = k * 2 ^ n + x.
Proof.
  intros Hn Hx. rewrite Z.lor_comm, <- Z.shiftl_mul_pow2, lor_shiftl_add, Z.shiftl_mul_pow2 by done. lia.
Qed.

Lemma utf8_unit_ok cp : 0 ≤ cp < 0x10000 → utf8_unit cp = utf8_char cp.
Proof.
  intros Hcp. unfold utf8_unit, utf8_char.
  change 0xC0 with (6 * 2 ^ 5). change 0x80 with (2 * 2 ^ 6). change 0xE0 with (14 * 2 ^ 4).
  change 0x3F with (2 ^ 6 - 1). rewrite !land_ones_mod, !Z.shiftr_div_pow2 by lia.
  pose proof (Z.mod_pos_bound cp (2 ^ 6) ltac:(lia)). pose proof (Z.mod_pos_bound (cp / 2 ^ 6) (2 ^ 6) ltac:(lia)).
  destruct (Z.ltb_spec cp (2 * 2 ^ 6)); [by rewrite decide_True by lia|]. rewrite (decide_False (P := cp < 128)) by lia.
  destruct (Z.ltb_spec cp 2048); [rewrite decide_True by lia|rewrite decide_False by lia].
  - rewrite !lor_top by (change (2 ^ 6) with 64 in *; dlia). done.
  - change (2 ^ 12) with 4096. rewrite !lor_top by (change (2 ^ 6) with 64 in *; dlia). done.
Qed.

Lemma utf8_char_nonempty cp : (1 ≤ length (utf8_char cp))%nat.
Proof. unfold utf8_char. repeat case_decide; simpl; lia. Qed.

(** A name shorter than its last slot is ended by NUL and filled with 0xFFFF. *)
Definition padded (cps : list Z) : list Z :=
  match (length cps `mod` 13)%nat with
  | O => cps
  | r => cps ++ 0 :: replicate (12 - r) 0xFFFF
  end.

Lemma name_of_padded cps : Forall bmp_char cps → utf16le_to_utf8 (padded cps) = utf8 cps.
Proof.
  intros Hc. assert (∀ tl, utf16le_to_utf8 tl = [] → utf16le_to_utf8 (cps ++ tl) = utf8 cps) as Hall.
  { intros tl Ht. induction Hc as [|cp cps Hcp Hc IH]; [done|]. destruct Hcp as [Hr _]. cbn [utf16le_to_utf8 app utf8 mbind list_bind].
    destruct (Z.eqb_spec cp 0); [lia|]. rewrite utf8_unit_ok by lia. f_equal. exact IH. }
  unfold padded. destruct (_ `mod` 13)%nat; [|by apply Hall]. rewrite <- (app_nil_r cps) at 1. by apply Hall.
Qed.

(** The name cut into blocks of 13 units. *)
Fixpoint blocks13 (n : nat) (us : list Z) : list (list Z) :=
  match n with O => [] | S n' => take 13 us :: blocks13 n' (drop 13 us) end.
Definition name_blocks (cps : list Z) : list (list Z) := blocks13 (length (padded cps) / 13) (padded cps).

Lemma blocks13_ok n us :
  length us = (13 * n)%nat → Forall (in_width 16) us →
  concat (blocks13 n us) = us ∧ length (blocks13 n us) = n ∧ Forall block_ok (blocks13 n us).
Proof.
  revert us. induction n as [|n IH]; intros us Hl Hw; cbn [blocks13 concat length].
  { by destruct us. }
  destruct (IH (drop 13 us)) as (-> & -> & Hf); [rewrite length_drop; lia|by apply Forall_drop|].
  split; [apply take_drop|]. split; [done|]. constructor; [|done].
  split; [rewrite length_take; lia|by apply Forall_take].
Qed.

Lemma padded_length cps :
  ∃ n, length (padded cps) = (13 * n)%nat ∧ (length cps ≤ 13 * n < length cps + 13)%nat.
Proof.
  unfold padded. pose proof (Nat.div_mod_eq (length cps) 13) as He.
  pose proof (Nat.mod_upper_bound (length cps) 13 ltac:(lia)) as Hb.
  destruct (length cps `mod` 13)%nat as [|r].
  - exists (length cps / 13)%nat. lia.
  - exists (S (length cps / 13)). rewrite length_app. cbn [length]. rewrite length_replicate. lia.
Qed.

Lemma name_blocks_ok cps :
  cps ≠ [] → Forall bmp_char cps → (length (utf8 cps) < 256)%nat →
  concat (name_blocks cps) = padded cps ∧ name_blocks cps ≠ [] ∧ (length (name_blocks cps) ≤ 20)%nat ∧
  Forall block_ok (name_blocks cps).
Proof.
  intros Hne Hc Hfit.
  assert (length cps ≤ length (utf8 cps))%nat as Hle.
  { clear. induction cps as [|cp cps IH]; [done|]. cbn [utf8 mbind list_bind]. rewrite length_app.
    pose proof (utf8_char_nonempty cp). cbn [length]. unfold utf8 in IH. lia. }
  destruct (padded_length cps) as (n & Hn & Hb). unfold name_blocks. rewrite Hn, Nat.mul_comm, Nat.div_mul by lia.
  destruct (blocks13_ok n (padded cps)) as (Hcc & Hl & Hok); [done| |].
  { assert (Forall (in_width 16) cps) as Hw by (eapply Forall_impl; [exact Hc|]; intros cp [? _]; unfold in_width; lia).
    unfold padded. destruct (_ `mod` 13)%nat; [done|]. apply Forall_app. split; [done|]. constructor; [done|].
    apply Forall_replicate. done. }
  split; [done|]. split; [|split; [lia|done]]. intros Hnil. rewrite Hnil in Hl. destruct cps; [done|]. simpl in Hb, Hl. lia.
Qed.

(** The slots of a long name in front of the 8.3 slot [raw], as the format asks for. *)
Definition long_name_slots (cps raw : list Z) : list (list Z) :=
  fragments (spec_checksum (take 11 raw)) true (rev (name_blocks cps)).

(** C27. Round trip of long names. A name of characters of the basic plane (no NUL, no
    surrogates) whose UTF-8 form is shorter than 256 bytes, written as the format
    asks for - cut into blocks of 13, ended and filled, last block first, each slot
    with the checksum of the 8.3 slot that follows -, anywhere in a cluster, is read
    back by the directory loop as one entry with the UTF-8 form of that name and the
    size of the 8.3 slot, whatever the accumulator held before. *)
Theorem lfn_roundtrip {H} (h : H) cps raw n i pre post l out max :
  cps ≠ [] → Forall bmp_char cps → (length (utf8 cps) < 256)%nat →
  length raw = 32%nat → visible raw → length (chars l) = 260%nat →
  length pre = (32 * i)%nat → Z.of_nat (length out) < max →
  let slots := long_name_slots cps raw in
  let buf := pre ++ concat slots ++ raw ++ post in
  ∃ d l', process_entries (length slots + S n) i buf l out max h =
      process_entries n (S (i + length slots)) buf l' (out ++ [d]) max h ∧
    name d = utf8 cps ∧ file_size d = field 28 4 raw ∧ attributes d = byte 11 raw.
Proof.
  intros Hne Hc Hfit Hraw Hvis Hl Hp Hmax slots buf. subst buf slots. unfold long_name_slots.
  set (ck := spec_checksum (take 11 raw)).
  destruct (name_blocks_ok cps Hne Hc Hfit) as (Hcc & Hbne & Hbl & Hbok). revert Hcc Hbne Hbl Hbok.
  generalize (name_blocks cps). intros blocks Hcc Hbne Hbl Hbok.
  assert (Forall block_ok (rev blocks)) as Hrev by (by apply Forall_rev).
  assert (length (rev blocks) = length blocks) as Hlr by apply List.length_rev.
  destruct (rev blocks) as [|b rest] eqn:Hrb; [destruct blocks; done|].
  apply Forall_cons in Hrev as [Hb Hrest]. simpl in Hlr.
  assert (length (fragments ck true (b :: rest)) = S (length rest)) as ->.
  { clear. cbn [fragments length]. f_equal. generalize false. induction rest as [|x rest IH]; intros f; [done|].
    cbn [fragments length]. by rewrite IH. }
  cbn [fragments concat Nat.add]. set (sl := lfn_slot _ ck b). rewrite <- (app_assoc sl).
  assert (length sl = 32%nat) as Hsl by (by apply lfn_slot_length).
  unfold sl. rewrite process_fragment by (done || lia). fold sl.
  destruct (process_fragments h ck rest (S n) (S i) (pre ++ sl) (raw ++ post) (lfn_fragment l sl) [b] out max)
    as (l' & Hcol & He); [rewrite length_app; lia|apply fragment_opening; [done..|lia]|simpl; lia|done|by constructor|].
  rewrite <- !app_assoc in He. rewrite He. clear He.
  assert (rev rest ++ [b] = blocks) as Hbl2 by (change (rev rest ++ [b]) with (rev (b :: rest)); by rewrite <- Hrb, rev_involutive).
  rewrite Hbl2 in Hcol. destruct Hcol as [Hv Hs Hck _ Ht Hch].
  assert (entry_name l' raw = utf8 cps) as Hname.
  { unfold entry_name. rewrite Hv, Hs, Hck, Hch, lfn_checksum_ok.
    assert (raw_name raw ++ raw_ext raw = take 11 raw) as ->.
    { unfold raw_name, raw_ext, bytes. rewrite drop_0. by rewrite (take_take_drop raw 8 3). }
    fold ck. rewrite !Z.eqb_refl.
    destruct (Nat.ltb_spec 0 (total l')); [|destruct blocks; simpl in *; [done|lia]]. cbn [andb]. rewrite Hcc.
    by apply name_of_padded. }
  exists (make_dirent l' raw), (lfn_reset l'). split; [|done].
  replace (S (i + S (length rest)))%nat with (S (S i + length rest)) by lia.
  rewrite (app_assoc sl), (app_assoc pre). apply process_visible; try done; [|by rewrite Hname].
  rewrite !length_app, Hsl, Hp.
  assert (length (concat (fragments ck false rest)) = 32 * length rest)%nat as ->; [|lia].
  clear -Hrest. induction Hrest as [|x rest Hx _ IH]; [done|]. cbn [fragments concat length].
  rewrite length_app, (lfn_slot_length _ _ _ Hx), IH. lia.
Qed.

(** The name field is overrun: a long name whose UTF-8 form needs 256 bytes
    or more makes the scan write past [name[256]] as soon as it reaches the 8.3
    slot with room in the caller's array. *)
Theorem long_name_overruns_field {H} (h : H) n i buf l out max :
  let raw := bytes (32 * i) 32 buf in
  (32 * i + 32 ≤ length buf)%nat → visible raw → Z.of_nat (length out) < max →
  valid l = true → (0 < total l)%nat → expected_seq l = 0 →
  lfn_checksum (raw_name raw ++ raw_ext raw) = checksum l →
  (256 ≤ length (utf16le_to_utf8 (take (total l) (chars l))))%nat →
  process_entries (S n) i buf l out max h = Fault.
Proof.
  intros raw Hbuf (H0 & He5 & Hlfn & Hvol) Hout Hv Ht Hs Hc Hlong. cbn [process_entries].
  destruct (Nat.ltb_spec (length buf) (32 * i + 32)); [lia|]. cbv zeta. fold raw.
  destruct (Z.eqb_spec (byte 0 raw) 0); [done|]. destruct (Z.eqb_spec (byte 0 raw) 0xE5); [done|].
  destruct (Z.eqb_spec (raw_attributes raw) FAT_ATTR_LFN); [done|]. rewrite Hvol. cbn [negb Z.eqb].
  destruct (Z.geb_spec (Z.of_nat (length out)) max); [lia|].
  unfold name_fits. cbn [make_dirent name]. unfold entry_name. rewrite Hv, Hs, Hc, !Z.eqb_refl.
  destruct (Nat.ltb_spec 0 (total l)); [|lia]. cbn [andb Z.eqb].
  destruct (Nat.ltb_spec (length (utf16le_to_utf8 (take (total l) (chars l)))) FAT32_NAME_MAX); [|done].
  unfold FAT32_NAME_MAX in *. lia.
Qed.

(** * Files and directories *)

Section Reading.
Context {H : Type} `{!KernelHeap H, !KernelHeapLaws H}.
Context (rd : blk_reader) (image : Z → list Z) `{!DiskLaws rd image} (g : gpt_state).
Implicit Types (h : H) (vol : fat32_vol_t).

(** C10. [fat32_read_file_at] returns exactly the bytes of the file: those of its
    cluster chain from [offset] on, cut at [len] and at the file size, with
    their number as the result, whatever the cluster boundaries. The walk
    terminates, the cluster buffer is returned to the heap, and the only
    failure is that no buffer could be allocated. *)
Theorem fat32_read_file_at_correct fuel vol c fsize offset len blocks live h :
  vol_ok vol → chain rd g vol c blocks → (length blocks < fuel)%nat → 2 ≤ c < FAT32_BAD →
  0 ≤ offset < fsize → 0 < len → h_owns h live →
  run h_panic (fat32_read_file_at rd g fuel vol c fsize offset len)
    (λ r h', h_owns h' live ∧
      (r = (FAT32_ERR_NOMEM, []) ∨
       let bs := take (Z.to_nat (Z.min len (fsize - offset))) (drop (Z.to_nat offset) (concat blocks)) in
       r = (Z.of_nat (length bs), bs))) h.
Proof. by eapply read_file_at_spec. Qed.

(** C31. [fat32_read_dir] lists the first [max] entries of the directory as the
    reference scan of its whole slot sequence defines them: cluster boundaries
    (also inside a run of long-name slots) do not show, and the buffer is freed. *)
Theorem fat32_read_dir_correct fuel vol c max ds live h :
  vol_ok vol → dir_holds rd g fuel vol c ds → 0 ≤ max → h_owns h live →
  run h_panic (fat32_read_dir rd g fuel vol c max)
    (λ r h', h_owns h' live ∧ (r = (false, []) ∨ r = (true, take (Z.to_nat max) ds))) h.
Proof. by eapply read_dir_spec. Qed.

(** Looking up a name finds the first entry of the directory with that name
    up to ASCII case, or reports FAT32_ERR_NOENT and leaves the output alone. *)
Theorem fat32_lookup_correct fuel vol c nm out ds live h :
  vol_ok vol → dir_holds rd g fuel vol c ds → h_owns h live →
  run h_panic (fat32_lookup rd g fuel vol c nm out)
    (λ r h', h_owns h' live ∧
      (r = (FAT32_ERR_NOMEM, out) ∨
       r = match find_entry nm ds with
           | Some d => (FAT32_OK, d)
           | None => (FAT32_ERR_NOENT, out)
           end)) h.
Proof. by eapply lookup_spec. Qed.

(** Enumeration by index and the bulk listing agree: [fat32_readdir_index]
    returns the entry that [fat32_read_dir] puts at that index (1), and 0 with
    the output untouched past the last one. *)
Theorem fat32_readdir_index_agrees fuel vol c index max out ds live h r h1 :
  vol_ok vol → dir_holds rd g fuel vol c ds → 0 ≤ index < max → max < 2 ^ 32 → h_owns h live →
  fat32_read_dir rd g fuel vol c max h = Ok ((true, r), h1) →
  run h_panic (fat32_readdir_index rd g fuel vol c index out)
    (λ res h', h_owns h' live ∧
      (res = (FAT32_ERR_NOMEM, out) ∨
       res = match r !! Z.to_nat index with Some d => (1, d) | None => (0, out) end)) h1.
Proof.
  intros Hvol Hdir Hi Hmax Ho Hrd.
  pose proof (read_dir_spec rd image g fuel vol c max ds live h Hvol Hdir ltac:(lia) Ho) as Hrun.
  apply (run_Ok _ _ _ _ _ _ Hrun) in Hrd as [Ho1 [Heq|[= ->]]]; [by injection Heq|].
  rewrite lookup_take_lt by lia. eapply readdir_index_spec; [done..|lia].
Qed.

(** C32. Path lookup resolves a path component by component in the directory
    tree: repeated and leading slashes are ignored, intermediate components must
    be directories, and the error codes are those of the reference resolution
    (no such entry, not a directory, component too long). The walk over the path
    terminates and leaks no buffer. *)
Theorem fat32_lookup_path_correct dirs fuel vol path out r live h :
  vol_ok vol → (∀ c ds, dirs c = Some ds → dir_holds rd g fuel vol c ds) → h_owns h live →
  segments path ≠ [] → resolve dirs (root_cluster vol) (segments path) = Some r →
  run h_panic (fat32_lookup_path rd g fuel vol (Some path) out)
    (λ res h', h_owns h' live ∧ (res = (FAT32_ERR_NOMEM, out) ∨ res = path_result out r)) h.
Proof.
  intros Hvol Hdirs Ho Hne Hres. unfold fat32_lookup_path.
  destruct (at_end path) eqn:He; [by rewrite (segments_end _ He) in Hne|].
  rewrite <- segments_skip in Hne, Hres. cbv zeta.
  destruct (at_end (fat32_skip_slashes path)) eqn:He2; [by rewrite (segments_end _ He2) in Hne|].
  eapply (lookup_path_loop_spec rd image g dirs); [done..|lia|done|apply skip_slashes_head|done].
Qed.

(** The root: NULL, the empty path and paths of slashes only give the
    synthetic root entry without reading the disk. *)
Theorem fat32_lookup_path_root fuel vol path out h :
  match path with Some p => segments p = [] | None => True end →
  fat32_lookup_path rd g fuel vol path out h = Ok ((FAT32_OK, fat32_make_root_dirent vol), h).
Proof.
  destruct path as [p|]; [|done]. intros Hp. unfold fat32_lookup_path.
  destruct (at_end p) eqn:He; [done|]. rewrite <- segments_skip in Hp. cbv zeta.
  destruct (at_end (fat32_skip_slashes p)) eqn:He2; [done|].
  pose proof (first_segment _ He2 (skip_slashes_head p)) as Hn. unfold segments in Hp.
  destruct (split_slash (fat32_skip_slashes p)); simpl in *; [done|]. by rewrite Hn in Hp.
Qed.

(** ** Cyclic chains *)

(** A set of clusters closed under the FAT, without an end marker in any slot. *)
Definition cyclic vol (cyc : Z → Prop) : Prop :=
  ∀ c, cyc c → c < FAT32_BAD ∧ cyc (fat32_read_fat_entry rd g vol c) ∧
    ∃ bs, fat32_read_cluster rd g vol c = Some bs ∧
      Forall (λ raw, byte 0 raw ≠ 0) (slots_from (slots_per_cluster vol) 0 bs).

Lemma process_entries_not_done n i buf l out max h r h' :
  Forall (λ raw, byte 0 raw ≠ 0) (slots_from n i buf) →
  process_entries n i buf l out max h = Ok (r, h') → r.2 = false.
Proof.
  revert i l out. induction n as [|n IH]; intros i l out Hall; cbn [process_entries]; [by intros [= <- <-]|].
  cbn [slots_from seq map] in Hall. apply Forall_cons in Hall as [H0 Hall]. destruct (_ <? _)%nat; [done|].
  cbv zeta. destruct (Z.eqb_spec (byte 0 (bytes (32 * i) 32 buf)) 0); [done|].
  repeat case_match; eauto; done.
Qed.

Lemma read_dir_loop_cyclic vol cyc fuel p c l out max h r h' :
  cyclic vol cyc → cyc c → read_dir_loop rd g fuel vol p c l out max h ≠ Ok (r, h').
Proof.
  intros Hcyc. revert c l out h. induction fuel as [|fuel IH]; intros c l out h Hc; cbn [read_dir_loop]; [done|].
  destruct (Hcyc c Hc) as (Hlt & Hnext & bs & Hr & Hall).
  pose proof (read_cluster_ge2 _ _ _ _ _ Hr). destruct (Z.leb_spec 2 c); [|lia].
  destruct (Z.ltb_spec c FAT32_BAD); [|lia]. cbn [andb]. rewrite Hr. unfold process_dir_cluster, bind.
  destruct (process_entries _ _ _ _ _ _ h) as [[[[l1 out1] stop] h1]| | |] eqn:Hp; [|done..]. cbn.
  apply process_entries_not_done in Hp; [|done]. simpl in Hp. subst stop.
  destruct (Hcyc _ Hnext) as (Hlt2 & _). destruct (Z.eqb_spec (fat32_read_fat_entry rd g vol c) FAT32_BAD); [lia|].
  by apply IH.
Qed.

(** C34. A cyclic chain in the FAT makes [fat32_read_dir] run for ever: once it
    has its buffer, no number of iterations lets it return. *)
Theorem fat32_read_dir_cycle_never_returns vol cyc c max h p h1 :
  cyclic vol cyc → cyc c → h_kmalloc (bytes_per_cluster vol) h = Ok (p, h1) → p ≠ 0 →
  ¬ ∃ fuel r h', fat32_read_dir rd g fuel vol c max h = Ok (r, h').
Proof.
  intros Hcyc Hc Hk Hp (fuel & r & h' & Hrun). unfold fat32_read_dir, bind in Hrun. rewrite Hk in Hrun.
  destruct (Z.eqb_spec p 0); [done|]. by apply (read_dir_loop_cyclic _ cyc) in Hrun.
Qed.
End Reading.
