(* ===== verification/FsDemo.v ===== *)
(** A small disk: a GPT with one partition and on it a FAT32 volume with a file
    of two clusters and a directory whose FAT entry points to itself. The
    hypotheses of the storage theorems hold on it. *)

From S2P Require Import Prelude Disk Gpt Heap Fat32 Fat32Spec Fat32Props.

(** * The image *)

Definition pad (n : nat) (l : list Z) : list Z := take n (l ++ replicate n 0).

(** A field at an offset, in a sector built from the left. *)
Definition at_off (off : nat) (bs l : list Z) : list Z := pad off l ++ bs.

Definition le_bytes (n : nat) (x : Z) : list Z :=
  map (λ k, (x / 256 ^ Z.of_nat k) mod 256) (seq 0 n).

Definition gpt_header_sector : list Z :=
  at_off 84 (le_bytes 4 128) (at_off 80 (le_bytes 4 2) (at_off 72 (le_bytes 8 2)
    [69; 70; 73; 32; 80; 65; 82; 84])).
Definition gpt_entry_sector : list Z :=
  replicate 16 7 ++ replicate 16 8 ++ le_bytes 8 40 ++ le_bytes 8 47 ++ replicate 8 0 ++ [70; 0; 83; 0].

Definition boot_sector : list Z :=
  at_off 510 [0x55; 0xAA] (at_off 44 (le_bytes 4 2) (at_off 36 (le_bytes 4 1) (at_off 32 (le_bytes 4 8)
    (at_off 16 [1] (at_off 11 [0; 2; 1; 1; 0] []))))).
Definition fat_sector : list Z :=
  concat (map (le_bytes 4) [0x0FFFFFF8; 0x0FFFFFFF; 0x0FFFFFFF; 4; 0x0FFFFFFF; 5]).

(** "HELLO   TXT", cluster 3, 600 bytes. *)
Definition hello_raw : list Z :=
  [72; 69; 76; 76; 79; 32; 32; 32; 84; 88; 84; 0x20] ++ replicate 14 0 ++ [3; 0] ++ le_bytes 4 600.
(** "Hello.txt" as code units. *)
Definition hello_units : list Z := [72; 101; 108; 108; 111; 46; 116; 120; 116; 0; 0xFFFF; 0xFFFF; 0xFFFF].
Definition hello_slots : list (list Z) :=
  fragments (lfn_checksum (raw_name hello_raw ++ raw_ext hello_raw)) true [hello_units] ++ [hello_raw].
Definition root_sector : list Z := concat hello_slots.

Definition sector_data (lba : Z) : list Z :=
  if lba =? 1 then gpt_header_sector
  else if lba =? 2 then gpt_entry_sector
  else if lba =? 40 then boot_sector
  else if lba =? 41 then fat_sector
  else if lba =? 42 then root_sector
  else if lba =? 43 then replicate 512 65
  else if lba =? 44 then replicate 88 66
  else if lba =? 45 then replicate 512 0xE5
  else [].

Definition demo_image (lba : Z) : list Z := map (λ b, b mod 256) (pad 512 (sector_data lba)).
Definition demo_rd : blk_reader := λ lba count,
  if 0 <? count then Some (seqZ lba count ≫= demo_image) else None.

#[export] Instance demo_disk : DiskLaws demo_rd demo_image.
Proof.
  split.
  - intros lba. unfold demo_image, pad. rewrite length_map, length_take, length_app, length_replicate. lia.
  - intros lba. unfold demo_image. apply Forall_map, Forall_forall. intros x _. unfold is_byte. simpl. apply Z.mod_pos_bound. lia.
  - intros lba count bs. unfold demo_rd. destruct (Z.ltb_spec 0 count); [|done]. by intros [= <-].
Qed.

(** A heap that never runs out: blocks are handed out above all live ones. *)
Definition demo_heap : Type := list (Z * Z).
Definition demo_top (h : demo_heap) : Z := foldr (λ b t, Z.max (b.1 + 65536) t) 4096 h.
Fixpoint demo_drop (p : Z) (h : demo_heap) : demo_heap :=
  match h with
  | [] => []
  | (q, n) :: h' => if q =? p then h' else (q, n) :: demo_drop p h'
  end.
#[export] Instance demo_kernel_heap : KernelHeap demo_heap := {
  h_kmalloc size := λ h, Ok (demo_top h, (demo_top h, size) :: h);
  h_kfree p := λ h, Ok (tt, demo_drop p h);
  h_owns h live := h ≡ₚ live ∧ NoDup h.*1;
  h_panic := never
}.

Lemma demo_top_fresh h : 4096 ≤ demo_top h ∧ demo_top h ∉ h.*1.
Proof.
  assert (4096 ≤ demo_top h ∧ ∀ a, a ∈ h.*1 → a < demo_top h) as [H4 Hlt].
  { induction h as [|[q n] h [IH1 IH2]]; simpl; [split; [done|set_solver]|]. split; [lia|].
    intros a [->|Ha]%elem_of_cons; [lia|]. apply IH2 in Ha. lia. }
  split; [done|]. intros Hin. apply Hlt in Hin. lia.
Qed.

Lemma demo_drop_perm p n h : (p, n) ∈ h → NoDup h.*1 → h ≡ₚ (p, n) :: demo_drop p h.
Proof.
  induction h as [|[q m] h IH]; simpl; [set_solver|]. rewrite NoDup_cons. intros Hin [Hq Hnd].
  destruct (Z.eqb_spec q p) as [->|Hne].
  - apply elem_of_cons in Hin as [[= ->]|Hin]; [done|].
    exfalso. apply Hq. by apply (list_elem_of_fmap_2 fst h (p, n)).
  - apply elem_of_cons in Hin as [[= -> ->]|Hin]; [done|]. rewrite (IH Hin Hnd) at 1. apply Permutation_swap.
Qed.

#[export] Instance demo_kernel_heap_laws : KernelHeapLaws demo_heap.
Proof.
  split.
  - intros h live live' Hp [Ho Hn]. split; [by rewrite Ho|done].
  - intros h live [Ho Hn]. by rewrite <- Ho.
  - intros h live size [Ho Hn] Hs. destruct (demo_top_fresh h) as [H4 Hni]. right. split; [lia|]. exists size.
    split; [done|]. split; [by constructor|]. simpl. by constructor.
  - intros h live p sz [Ho Hn]. unfold run. simpl.
    assert (h ≡ₚ (p, sz) :: demo_drop p h) as Hd by (apply demo_drop_perm; [rewrite Ho; set_solver|done]).
    rewrite Hd in Hn. simpl in Hn. apply NoDup_cons in Hn as [_ Hn].
    split; [|done]. apply (Permutation_cons_inv (a := (p, sz))). by rewrite <- Hd.
Qed.

Lemma demo_heap_empty : h_owns ([] : demo_heap) [].
Proof. split; [done|constructor]. Qed.

(** * Partition table *)

Definition demo_gpt : gpt_state :=
  match gpt_init demo_rd gpt_zero with Ok (_, s) => s | _ => gpt_zero end.
Definition demo_part : gpt_partition_t := default zero_partition (partitions demo_gpt !! 0%nat).

Definition header_bytes : list Z := seqZ 1 1 ≫= demo_image.
Definition table_bytes : list Z := seqZ 2 32 ≫= demo_image.

(** The terminator of every name, as a check that runs. *)
Definition names_end (buf : list Z) : bool :=
  forallb (λ i, existsb (λ k, field (entry_off i + 56 + 2 * k) 2 buf =? 0) (seq 0 36)) (seq 0 128).

Lemma names_end_sound buf i : names_end buf = true → (i < 128)%nat → name_ends buf i.
Proof.
  intros Hb Hi. unfold names_end in Hb. rewrite List.forallb_forall in Hb. specialize (Hb i).
  destruct (proj1 (List.existsb_exists _ _) (Hb ltac:(apply in_seq; lia))) as (k & Hk & Hz).
  exists k. split; [apply in_seq in Hk; lia|by apply Z.eqb_eq].
Qed.

Lemma demo_table_named i : (i < 128)%nat → name_ends table_bytes i.
Proof. apply names_end_sound. vm_compute. reflexivity. Qed.

Lemma gpt_init_lists_used_entries_witness :
  wp (gpt_init demo_rd) (λ ok s', ok = true ∧ gpt_inv s' ∧
    let used := used_entries table_bytes (Z.to_nat (field 80 4 header_bytes)) in
    partition_count s' = Z.of_nat (length used) ∧
    ∀ k i, used !! k = Some i → ∃ p, partitions s' !! k = Some p ∧ describes table_bytes i p) gpt_zero.
Proof.
  apply (gpt_init_lists_used_entries demo_rd gpt_zero header_bytes table_bytes);
    [done|reflexivity|reflexivity|vm_compute; reflexivity|vm_compute; reflexivity
    |vm_compute; by split|vm_compute; reflexivity|exact demo_table_named].
Defined.

Lemma demo_part_lookup : gpt_get_partition demo_gpt 0 = Some demo_part.
Proof. vm_compute. reflexivity. Qed.
Lemma demo_part_ok : part_ok demo_part.
Proof. vm_compute. by split_and!. Qed.

Definition demo_sector : list Z := seqZ 42 1 ≫= demo_image.
Lemma demo_part_read : gpt_read_partition_sectors demo_rd demo_gpt 0 2 1 = Some demo_sector.
Proof. vm_compute. reflexivity. Qed.

Lemma gpt_read_in_partition_witness :
  2 + 1 ≤ num_sectors demo_part ∧ start_lba demo_part + 2 + 1 ≤ end_lba demo_part + 1 ∧
  demo_sector = seqZ (start_lba demo_part + 2) 1 ≫= demo_image.
Proof.
  exact (gpt_read_in_partition demo_rd demo_image demo_gpt 0 2 1 demo_part demo_sector
    demo_part_lookup demo_part_ok ltac:(lia) ltac:(lia) ltac:(lia) demo_part_read).
Defined.

Lemma gpt_read_bound_wraps_witness :
  gpt_read_partition_sectors demo_rd demo_gpt 0 (2 ^ 64 - 1) 1 = demo_rd (start_lba demo_part - 1) 1.
Proof.
  apply (gpt_read_bound_wraps demo_rd demo_gpt 0 1 demo_part demo_part_lookup); vm_compute; by split.
Defined.

(** * The volume *)

Definition demo_vol : fat32_vol_t := (fat32_mount demo_rd demo_gpt 0).2.
Lemma demo_mounts : fat32_mount demo_rd demo_gpt 0 = (true, demo_vol).
Proof. vm_compute. reflexivity. Qed.

Lemma fat32_mount_geometry_witness :
  gpt_partition_index demo_vol = 0 ∧ mounted demo_vol (total_sectors_32 (bpb demo_vol)).
Proof. exact (fat32_mount_geometry demo_rd demo_image demo_gpt 0 demo_vol demo_mounts). Defined.

Lemma demo_vol_ok : vol_ok demo_vol.
Proof. split; vm_compute; [reflexivity|by split|reflexivity]. Qed.

Definition cluster_bytes (c : Z) : list Z := default [] (fat32_read_cluster demo_rd demo_gpt demo_vol c).
Lemma demo_cluster3 : fat32_read_cluster demo_rd demo_gpt demo_vol 3 = Some (cluster_bytes 3).
Proof. vm_compute. reflexivity. Qed.

Lemma fat32_clusters_in_volume_witness :
  let '(lba, n) := extent demo_vol 3 in
  data_start_lba demo_vol ≤ lba ∧ lba + n ≤ 8 ∧ read_sectors demo_rd demo_gpt demo_vol lba n = Some (cluster_bytes 3) ∧
  ∀ c', 2 ≤ c' < 3 → (extent demo_vol c').1 + (extent demo_vol c').2 ≤ lba.
Proof.
  apply (fat32_clusters_in_volume demo_rd demo_gpt demo_vol 8 3 (cluster_bytes 3));
    [exact (proj2 (mount_spec demo_rd demo_image demo_gpt 0 demo_vol demo_mounts))
    |vm_compute; by split|lia|exact demo_cluster3].
Defined.

(** The file: clusters 3 and 4. *)
Definition file_blocks : list (list Z) := [cluster_bytes 3; cluster_bytes 4].
Lemma demo_file_chain : chain demo_rd demo_gpt demo_vol 3 file_blocks.
Proof.
  apply chain_step; [vm_compute; reflexivity|done|]. replace (fat32_read_fat_entry _ _ _ _) with 4 by (vm_compute; reflexivity).
  apply chain_step; [vm_compute; reflexivity|done|]. apply chain_end. by vm_compute.
Qed.

(** The root directory: cluster 2. *)
Definition root_blocks : list (list Z) := [cluster_bytes 2].
Definition root_entries : list fat32_dirent_t := default [] (dir_entries (dir_slots demo_vol root_blocks)).
Lemma demo_root : dir_holds demo_rd demo_gpt 10 demo_vol 2 root_entries.
Proof.
  split; [by split|]. exists root_blocks. split; [|split; [simpl; lia|vm_compute; reflexivity]].
  apply chain_step; [vm_compute; reflexivity|done|]. apply chain_end. by vm_compute.
Qed.

(** The scan finds one entry with its long name. *)
Example demo_root_names : map name root_entries = [take 9 hello_units].
Proof. vm_compute. reflexivity. Qed.

Example demo_read_across_clusters :
  fat32_read_file_at demo_rd demo_gpt 10 demo_vol 3 600 508 8 ([] : demo_heap) =
    Ok ((8, [65; 65; 65; 65; 66; 66; 66; 66]), []).
Proof. vm_compute. reflexivity. Qed.

Lemma demo_read_dir :
  fat32_read_dir demo_rd demo_gpt 10 demo_vol 2 16 ([] : demo_heap) = Ok ((true, root_entries), []).
Proof. vm_compute. reflexivity. Qed.

(** "//HELLO.TXT/" resolves to the file. *)
Definition hello_path : list Z := [47; 47; 72; 69; 76; 76; 79; 46; 84; 88; 84; 47].
Definition demo_dirs (c : Z) : option (list fat32_dirent_t) := if c =? 2 then Some root_entries else None.
Definition hello_entry : fat32_dirent_t := hd zero_dirent root_entries.
Lemma demo_resolve :
  resolve demo_dirs (root_cluster demo_vol) (segments hello_path) = Some (inr hello_entry).
Proof. vm_compute. reflexivity. Qed.

(** Directory 5 is its own successor and holds deleted slots only. *)
Lemma demo_cyclic : cyclic demo_rd demo_gpt demo_vol (λ c, c = 5).
Proof.
  intros c ->. split; [done|]. split; [vm_compute; reflexivity|]. exists (cluster_bytes 5).
  split; [vm_compute; reflexivity|].
  apply Forall_forall. intros raw Hraw.
  assert (forallb (λ r, negb (byte 0 r =? 0)) (slots_from (slots_per_cluster demo_vol) 0 (cluster_bytes 5)) = true) as Hall
    by (vm_compute; reflexivity).
  rewrite List.forallb_forall in Hall. apply list_elem_of_In, Hall, negb_true_iff, Z.eqb_neq in Hraw. done.
Qed.

(** Evaluated above; from here on only through their lemmas. *)
Opaque demo_rd demo_gpt demo_vol cluster_bytes root_entries.

Lemma fat32_read_file_at_correct_witness :
  run h_panic (fat32_read_file_at demo_rd demo_gpt 10 demo_vol 3 600 500 50)
    (λ r (h' : demo_heap), h_owns h' [] ∧
      (r = (FAT32_ERR_NOMEM, []) ∨
       let bs := take (Z.to_nat (Z.min 50 (600 - 500))) (drop (Z.to_nat 500) (concat file_blocks)) in
       r = (Z.of_nat (length bs), bs))) [].
Proof.
  pose proof (fat32_read_file_at_correct (H := demo_heap) demo_rd demo_image demo_gpt 10 demo_vol 3 600 500 50 file_blocks [] []) as Hthm.
  apply Hthm; [exact demo_vol_ok|exact demo_file_chain|simpl; lia|by split|by split|done|exact demo_heap_empty].
Defined.

Lemma fat32_read_dir_correct_witness :
  run h_panic (fat32_read_dir demo_rd demo_gpt 10 demo_vol 2 16)
    (λ r (h' : demo_heap), h_owns h' [] ∧ (r = (false, []) ∨ r = (true, take (Z.to_nat 16) root_entries))) [].
Proof.
  pose proof (fat32_read_dir_correct (H := demo_heap) demo_rd demo_image demo_gpt 10 demo_vol 2 16 root_entries [] []) as Hthm.
  apply Hthm; [exact demo_vol_ok|exact demo_root|lia|exact demo_heap_empty].
Defined.

Lemma fat32_lookup_correct_witness :
  run h_panic (fat32_lookup demo_rd demo_gpt 10 demo_vol 2 (take 9 hello_units) zero_dirent)
    (λ r (h' : demo_heap), h_owns h' [] ∧
      (r = (FAT32_ERR_NOMEM, zero_dirent) ∨
       r = match find_entry (take 9 hello_units) root_entries with
           | Some d => (FAT32_OK, d)
           | None => (FAT32_ERR_NOENT, zero_dirent)
           end)) [].
Proof.
  pose proof (fat32_lookup_correct (H := demo_heap) demo_rd demo_image demo_gpt 10 demo_vol 2 (take 9 hello_units) zero_dirent root_entries [] []) as Hthm.
  apply Hthm; [exact demo_vol_ok|exact demo_root|exact demo_heap_empty].
Defined.

Lemma fat32_readdir_index_agrees_witness :
  run h_panic (fat32_readdir_index demo_rd demo_gpt 10 demo_vol 2 0 zero_dirent)
    (λ res (h' : demo_heap), h_owns h' [] ∧
      (res = (FAT32_ERR_NOMEM, zero_dirent) ∨
       res = match root_entries !! Z.to_nat 0 with Some d => (1, d) | None => (0, zero_dirent) end)) [].
Proof.
  pose proof (fat32_readdir_index_agrees (H := demo_heap) demo_rd demo_image demo_gpt 10 demo_vol 2 0 16 zero_dirent
    root_entries [] [] root_entries []) as Hthm.
  apply Hthm; [exact demo_vol_ok|exact demo_root|lia|lia|exact demo_heap_empty|exact demo_read_dir].
Defined.

Lemma fat32_lookup_path_correct_witness :
  run h_panic (fat32_lookup_path demo_rd demo_gpt 10 demo_vol (Some hello_path) zero_dirent)
    (λ res (h' : demo_heap), h_owns h' [] ∧
      (res = (FAT32_ERR_NOMEM, zero_dirent) ∨ res = path_result zero_dirent (inr hello_entry))) [].
Proof.
  pose proof (fat32_lookup_path_correct (H := demo_heap) demo_rd demo_image demo_gpt demo_dirs 10 demo_vol hello_path
    zero_dirent (inr hello_entry) [] []) as Hthm.
  apply Hthm; [exact demo_vol_ok| |exact demo_heap_empty|discriminate|exact demo_resolve].
  intros c ds. unfold demo_dirs. destruct (Z.eqb_spec c 2) as [->|]; [|discriminate].
  intros Heq. apply (inj Some) in Heq. rewrite <- Heq. exact demo_root.
Defined.

Lemma fat32_lookup_path_root_witness :
  fat32_lookup_path demo_rd demo_gpt 10 demo_vol (Some [47; 47]) zero_dirent ([] : demo_heap) =
    Ok ((FAT32_OK, fat32_make_root_dirent demo_vol), []).
Proof.
  exact (fat32_lookup_path_root (H := demo_heap) demo_rd demo_gpt 10 demo_vol (Some [47; 47]) zero_dirent [] eq_refl).
Defined.

Lemma fat32_read_dir_cycle_never_returns_witness :
  ¬ ∃ fuel r h', fat32_read_dir demo_rd demo_gpt fuel demo_vol 5 16 ([] : demo_heap) = Ok (r, h').
Proof.
  exact (fat32_read_dir_cycle_never_returns (H := demo_heap) demo_rd demo_gpt demo_vol (λ c, c = 5) 5 16 [] 4096
    [(4096, bytes_per_cluster demo_vol)] demo_cyclic eq_refl eq_refl ltac:(discriminate)).
Defined.

(** * Long names *)

(** Twenty characters, so two slots, of one, two and three bytes in UTF-8. *)
Definition demo_name : list Z :=
  [71; 114; 0xFC; 0xDF; 101; 32; 97; 117; 115; 32; 75; 0xF6; 108; 110; 32; 0x20AC; 46; 116; 120; 116].

Example demo_name_utf8 :
  utf8 demo_name = [71; 114; 0xC3; 0xBC; 0xC3; 0x9F; 101; 32; 97; 117; 115; 32; 75; 0xC3; 0xB6; 108; 110; 32;
                    0xE2; 0x82; 0xAC; 46; 116; 120; 116].
Proof. reflexivity. Qed.

Definition demo_slots : list (list Z) := long_name_slots demo_name hello_raw.

Lemma lfn_roundtrip_witness :
  ∃ d l', process_entries (length demo_slots + 1) 1 (replicate 32 0xE5 ++ concat demo_slots ++ hello_raw ++ []) lfn_init
        [] 16 ([] : demo_heap) =
      process_entries 0 (S (1 + length demo_slots)) (replicate 32 0xE5 ++ concat demo_slots ++ hello_raw ++ []) l'
        ([] ++ [d]) 16 ([] : demo_heap) ∧
    name d = utf8 demo_name ∧ file_size d = field 28 4 hello_raw ∧ attributes d = byte 11 hello_raw.
Proof.
  apply (lfn_roundtrip ([] : demo_heap) demo_name hello_raw 0 1 (replicate 32 0xE5) [] lfn_init [] 16);
    [discriminate|unfold demo_name, bmp_char; repeat constructor; lia|vm_compute; lia|reflexivity|by split_and!|reflexivity..].
Defined.

(** An accumulator holding 260 times U+0800, each three bytes in UTF-8. *)
Definition long_lfn : lfn_state_t :=
  mkLfn (replicate 260 0x800) 260 0 (lfn_checksum (raw_name hello_raw ++ raw_ext hello_raw)) true.

Lemma long_name_overruns_field_witness :
  process_entries 1 0 (hello_raw ++ []) long_lfn [] 16 ([] : demo_heap) = Fault.
Proof.
  apply (long_name_overruns_field ([] : demo_heap) 0 0 (hello_raw ++ []) long_lfn [] 16);
    [vm_compute; lia|by split_and!|done|reflexivity|simpl; lia|reflexivity|vm_compute; reflexivity|vm_compute; lia].
Defined.
