(* ===== verification/Vfs.v ===== *)
(** The virtual file system layer (fs/vfs/vfs.h, fs/vfs/vfs.c): nodes, mounts,
    path resolution and open files.

    Nodes and open files live in stores indexed by the address [kmalloc] gave
    them; using an address that is not in the store (a stale pointer) is a
    [Fault].  The mount list is private to vfs.c and is a list here.  Operation
    tables are named by [O] and interpreted by [ops_of]; a NULL member is
    [None].  [D] is the private data file systems hang on nodes.  A C string is
    the list of its bytes before the terminator; a NULL path is rejected by the
    same test as one that does not start with a slash. *)

From S2P Require Import Prelude Disk Heap.

Definition VFS_NAME_MAX : nat := 255.
Definition VFS_NODE_FILE : Z := 0x0001.
Definition VFS_NODE_DIR : Z := 0x0002.
Definition VFS_NODE_NAME_OWNED : Z := 0x80000000.
Definition VFS_OK : Z := 0.
Definition VFS_ERR_NOENT : Z := -2.
Definition VFS_ERR_IO : Z := -5.
Definition VFS_ERR_NOMEM : Z := -12.
Definition VFS_ERR_EXIST : Z := -17.
Definition VFS_ERR_NOTDIR : Z := -20.
Definition VFS_ERR_INVAL : Z := -22.
Definition VFS_ERR_NAMETOOLONG : Z := -36.
Definition VFS_ERR_NOTSUP : Z := -95.

Record vfs_dirent_t : Type := mkVdirent { vd_name : list Z; vd_type : Z }.
Record vfs_stat_t : Type := mkStat { st_type : Z; st_size : Z }.

(** The members of an operation table that vfs.c calls; output parameters are
    passed in and returned. *)
Record vfs_node_ops_t (S : Type) : Type := mkOps {
  op_open : option (Z → Z → M S Z);
  op_close : option (Z → M S Z);
  op_read : option (Z → Z → M S (Z * list Z));
  op_write : option (Z → list Z → M S Z);
  op_readdir : option (Z → Z → vfs_dirent_t → M S (Z * vfs_dirent_t));
  op_lookup : option (Z → list Z → M S Z);
  op_stat : option (Z → vfs_stat_t → M S (Z * vfs_stat_t))
}.
Arguments mkOps {S}. Arguments op_open {S}. Arguments op_close {S}. Arguments op_read {S}.
Arguments op_write {S}. Arguments op_readdir {S}. Arguments op_lookup {S}. Arguments op_stat {S}.

(** [name] is the address of the copy; [n_chars] its contents. *)
Record vfs_node_t (O : Type) : Type := mkNode {
  n_name : Z;
  n_chars : list Z;
  name_len : Z;
  n_type : Z;
  n_flags : Z;
  n_size : Z;
  n_ops : option O;
  n_data : Z;
  n_parent : Z;
  first_child : Z;
  next_sibling : Z
}.
Arguments mkNode {O}. Arguments n_name {O}. Arguments n_chars {O}. Arguments name_len {O}. Arguments n_type {O}.
Arguments n_flags {O}. Arguments n_size {O}. Arguments n_ops {O}. Arguments n_data {O}. Arguments n_parent {O}.
Arguments first_child {O}. Arguments next_sibling {O}.

Record vfs_file_t : Type := mkFile { f_node : Z; f_pos : Z; f_flags : Z }.

(** A mount with the addresses of its structure and of its path. *)
Record vfs_mount_t : Type := mkMount {
  m_addr : Z;
  m_path_addr : Z;
  m_path : list Z;
  m_path_len : Z;
  m_root : Z
}.

Record vfs_state (O D H : Type) : Type := mkVfs {
  v_nodes : gmap Z (vfs_node_t O);
  v_files : gmap Z vfs_file_t;
  v_data : gmap Z D;
  g_mounts : list vfs_mount_t;
  v_heap : H
}.
Arguments mkVfs {O D H}. Arguments v_nodes {O D H}. Arguments v_files {O D H}. Arguments v_data {O D H}.
Arguments g_mounts {O D H}. Arguments v_heap {O D H}.

(** * Paths *)

Definition slash : Z := 47.

Definition starts_with_slash (path : list Z) : bool :=
  match path with c :: _ => c =? slash | [] => false end.

Fixpoint vfs_strcmp (a b : list Z) : Z :=
  match a, b with
  | x :: a', y :: b' => if x =? y then vfs_strcmp a' b' else x - y
  | x :: _, [] => x
  | [], y :: _ => - y
  | [], [] => 0
  end.

(** The loop that drops trailing slashes, down to one character. *)
Fixpoint trim_len (len : nat) (path : list Z) : nat :=
  match len with
  | S (S n as len') => if default 0 (path !! len') =? slash then trim_len len' path else len
  | _ => len
  end.
Definition vfs_trim_path_len (path : list Z) : nat := trim_len (length path) path.

Fixpoint vfs_skip_slashes (p : list Z) : list Z :=
  match p with
  | c :: p' => if c =? slash then vfs_skip_slashes p' else p
  | [] => []
  end.

Definition vfs_path_is_prefix (path : list Z) (path_len : nat) (mnt : vfs_mount_t) : bool :=
  let n := m_path_len mnt in
  if n =? 0 then false
  else if n =? 1 then (1 <=? path_len)%nat && (byte 0 path =? slash)
  else if Z.of_nat path_len <? n then false
  else if negb (memcmp_eq path (m_path mnt) (Z.to_nat n)) then false
  else if Z.of_nat path_len =? n then true
  else byte (Z.to_nat n) path =? slash.

(** The scan of the mount list: the best mount so far and its length. *)
Fixpoint find_mount (mounts : list vfs_mount_t) (path : list Z) (path_len : nat)
    (best : option vfs_mount_t) (best_len : Z) : option vfs_mount_t :=
  match mounts with
  | [] => best
  | mnt :: rest =>
      if negb (vfs_path_is_prefix path path_len mnt) then find_mount rest path path_len best best_len
      else if m_path_len mnt >=? best_len then find_mount rest path path_len (Some mnt) (m_path_len mnt)
      else find_mount rest path path_len best best_len
  end.
Definition vfs_find_mount_for_path (mounts : list vfs_mount_t) (path : list Z) (path_len : nat)
    : option vfs_mount_t := find_mount mounts path path_len None 0.

(** [while (p < end && *p != '/') p++]: the segment and what follows. *)
Fixpoint take_segment (p : list Z) : list Z * list Z :=
  match p with
  | [] => ([], [])
  | c :: p' => if c =? slash then ([], p) else let '(s, r) := take_segment p' in (c :: s, r)
  end.

Section Vfs.
Context {O D H : Type} `{!KernelHeap H}.
Abbreviation state := (vfs_state O D H).
Context (ops_of : O → vfs_node_ops_t state).
Implicit Types s : state.

Definition set_nodes n s : state := mkVfs n (v_files s) (v_data s) (g_mounts s) (v_heap s).
Definition set_files f s : state := mkVfs (v_nodes s) f (v_data s) (g_mounts s) (v_heap s).
Definition set_data d s : state := mkVfs (v_nodes s) (v_files s) d (g_mounts s) (v_heap s).
Definition set_mounts m s : state := mkVfs (v_nodes s) (v_files s) (v_data s) m (v_heap s).
Definition set_vheap h s : state := mkVfs (v_nodes s) (v_files s) (v_data s) (g_mounts s) h.

Definition on_heap {A} (m : M H A) : M state A := zoom v_heap set_vheap m.
Definition kmalloc_v (size : Z) : M state Z := on_heap (h_kmalloc size).
Definition kfree_v (p : Z) : M state unit := on_heap (h_kfree p).

(** Dereferencing. *)
Definition node (a : Z) : M state (vfs_node_t O) :=
  λ s, match v_nodes s !! a with Some n => Ok (n, s) | None => Fault end.
Definition put_node (a : Z) (n : vfs_node_t O) : M state unit :=
  modify (λ s, set_nodes (<[a := n]> (v_nodes s)) s).
Definition file (a : Z) : M state vfs_file_t :=
  λ s, match v_files s !! a with Some f => Ok (f, s) | None => Fault end.
Definition put_file (a : Z) (f : vfs_file_t) : M state unit :=
  modify (λ s, set_files (<[a := f]> (v_files s)) s).

(** * Nodes *)

(** The sibling list from [child] on; at most all nodes are visited before one
    repeats. *)
Fixpoint find_child_from (fuel : nat) (child : Z) (nm : list Z) : M state Z :=
  if child =? 0 then ret 0
  else
    match fuel with
    | 0%nat => λ _, Hang
    | S fuel' =>
        let! c := node child in
        if negb (n_name c =? 0) && (vfs_strcmp (n_chars c) nm =? 0) then ret child
        else find_child_from fuel' (next_sibling c) nm
    end.

Definition vfs_find_child (parent : Z) (nm : list Z) : M state Z :=
  if parent =? 0 then ret 0
  else
    let! p := node parent in
    let! n := gets (λ s, size (v_nodes s)) in
    find_child_from n (first_child p) nm.

Definition vfs_lookup_child (dir : Z) (nm : list Z) : M state Z :=
  if dir =? 0 then ret 0
  else
    let! d := node dir in
    match n_ops d ≫= λ o, op_lookup (ops_of o) with
    | Some lookup => lookup dir nm
    | None => vfs_find_child dir nm
    end.

(** [nm] is [""] for a NULL name. *)
Definition vfs_node_create (nm : list Z) (type : Z) (ops : option O) (data : Z) : M state Z :=
  let! a := kmalloc_v 72 in
  if a =? 0 then ret 0
  else
    let n := mkNode 0 [] 0 type 0 0 ops data 0 0 0 in
    if (VFS_NAME_MAX <? length nm)%nat then kfree_v a;; ret 0
    else
      let! name_copy := kmalloc_v (Z.of_nat (length nm) + 1) in
      if name_copy =? 0 then kfree_v a;; ret 0
      else
        put_node a (mkNode name_copy nm (u16 (Z.of_nat (length nm))) (n_type n)
          (Z.lor (n_flags n) VFS_NODE_NAME_OWNED) (n_size n) (n_ops n) (n_data n)
          (n_parent n) (first_child n) (next_sibling n));;
        ret a.

Definition vfs_node_destroy (a : Z) : M state unit :=
  if a =? 0 then ret tt
  else
    let! n := node a in
    (if negb (Z.land (n_flags n) VFS_NODE_NAME_OWNED =? 0) && negb (n_name n =? 0)
     then kfree_v (n_name n) else ret tt);;
    kfree_v a;;
    modify (λ s, set_nodes (delete a (v_nodes s)) s).

Definition link_child (parent child : Z) (c : vfs_node_t O) (first : Z) : vfs_node_t O :=
  mkNode (n_name c) (n_chars c) (name_len c) (n_type c) (n_flags c) (n_size c) (n_ops c) (n_data c)
    parent (first_child c) first.
Definition set_first_child (p : vfs_node_t O) (child : Z) : vfs_node_t O :=
  mkNode (n_name p) (n_chars p) (name_len p) (n_type p) (n_flags p) (n_size p) (n_ops p) (n_data p)
    (n_parent p) child (next_sibling p).

Definition vfs_add_child (parent child : Z) : M state Z :=
  if (parent =? 0) || (child =? 0) then ret VFS_ERR_INVAL
  else
    let! p := node parent in
    if Z.land (n_type p) VFS_NODE_DIR =? 0 then ret VFS_ERR_NOTDIR
    else
      let! c := node child in
      put_node child (link_child parent child c (first_child p));;
      let! p := node parent in
      put_node parent (set_first_child p child);;
      ret VFS_OK.

(** * Path resolution *)

(** The loop over the path text up to [end]; the code and the node found. *)
Fixpoint resolve_loop (steps : nat) (p : list Z) (nd : Z) : M state (Z * Z) :=
  match steps with
  | 0%nat => λ _, Hang
  | S steps' =>
      match p with
      | [] => ret (VFS_OK, nd)
      | _ =>
          let '(seg, p) := take_segment p in
          if (length seg =? 0)%nat then resolve_loop steps' (vfs_skip_slashes p) nd
          else if (VFS_NAME_MAX <? length seg)%nat then ret (VFS_ERR_NAMETOOLONG, 0)
          else
            let! nd := vfs_lookup_child nd seg in
            if nd =? 0 then ret (VFS_ERR_NOENT, 0)
            else
              let p := vfs_skip_slashes p in
              match p with
              | [] => resolve_loop steps' p nd
              | _ =>
                  let! n := node nd in
                  if Z.land (n_type n) VFS_NODE_DIR =? 0 then ret (VFS_ERR_NOTDIR, 0)
                  else resolve_loop steps' p nd
              end
      end
  end.

(** The code and [*out_node] (0 when it is not stored). *)
Definition vfs_resolve_path (path : list Z) : M state (Z * Z) :=
  if negb (starts_with_slash path) then ret (VFS_ERR_INVAL, 0)
  else
    let path_len := vfs_trim_path_len path in
    if (path_len =? 0)%nat then ret (VFS_ERR_INVAL, 0)
    else
      let! mounts := gets g_mounts in
      match vfs_find_mount_for_path mounts path path_len with
      | None => ret (VFS_ERR_NOENT, 0)
      | Some mnt =>
          if m_root mnt =? 0 then ret (VFS_ERR_NOENT, 0)
          else
            let p := drop (Z.to_nat (m_path_len mnt)) (take path_len path) in
            let p := match p with
                     | c :: p' => if (m_path_len mnt >? 1) && (c =? slash) then p' else p
                     | [] => p
                     end in
            let p := vfs_skip_slashes p in
            match p with
            | [] => ret (VFS_OK, m_root mnt)
            | _ => resolve_loop (S (length p)) p (m_root mnt)
            end
      end.

Definition vfs_resolve (path : list Z) : M state Z :=
  let! (rc, nd) := vfs_resolve_path path in
  ret (if rc <? 0 then 0 else nd).

(** * Mounts *)

Definition vfs_init : M state unit := modify (set_mounts []).

Definition same_path (mnt : vfs_mount_t) (path : list Z) (path_len : nat) : bool :=
  (m_path_len mnt =? Z.of_nat path_len) && memcmp_eq (m_path mnt) path path_len.

Definition vfs_mount (root : Z) (path : list Z) : M state Z :=
  if (root =? 0) || negb (starts_with_slash path) then ret VFS_ERR_INVAL
  else
    let path_len := vfs_trim_path_len path in
    if (path_len =? 0)%nat then ret VFS_ERR_INVAL
    else
      let! mounts := gets g_mounts in
      if existsb (λ mnt, same_path mnt path path_len) mounts then ret VFS_ERR_EXIST
      else
        let! rc :=
          (if (1 <? path_len)%nat && match mounts with [] => false | _ => true end then
             let! (rc, mp) := vfs_resolve_path path in
             if rc <? 0 then ret rc
             else
               let! n := node mp in
               if Z.land (n_type n) VFS_NODE_DIR =? 0 then ret VFS_ERR_NOTDIR else ret VFS_OK
           else ret VFS_OK) in
        if rc <? 0 then ret rc
        else
          let! a := kmalloc_v 32 in
          if a =? 0 then ret VFS_ERR_NOMEM
          else
            let! pa := kmalloc_v (Z.of_nat path_len + 1) in
            if pa =? 0 then kfree_v a;; ret VFS_ERR_NOMEM
            else
              modify (λ s, set_mounts
                (mkMount a pa (take path_len path) (u16 (Z.of_nat path_len)) root :: g_mounts s) s);;
              ret VFS_OK.

(** Removing the first mount of that path. *)
Fixpoint unlink_mount (mounts : list vfs_mount_t) (path : list Z) (path_len : nat)
    : option (vfs_mount_t * list vfs_mount_t) :=
  match mounts with
  | [] => None
  | mnt :: rest =>
      if same_path mnt path path_len then Some (mnt, rest)
      else match unlink_mount rest path path_len with
           | Some (m, rest') => Some (m, mnt :: rest')
           | None => None
           end
  end.

(** The code and [*out_root] (0 when it is not stored). *)
Definition vfs_unmount_detach (path : list Z) : M state (Z * Z) :=
  if negb (starts_with_slash path) then ret (VFS_ERR_INVAL, 0)
  else
    let! mounts := gets g_mounts in
    match unlink_mount mounts path (vfs_trim_path_len path) with
    | None => ret (VFS_ERR_NOENT, 0)
    | Some (mnt, rest) =>
        modify (set_mounts rest);;
        kfree_v (m_path_addr mnt);;
        kfree_v (m_addr mnt);;
        ret (VFS_OK, m_root mnt)
    end.

Definition vfs_unmount (path : list Z) : M state Z :=
  let! (rc, _) := vfs_unmount_detach path in ret rc.

(** * Open files *)

(** The code and [*out_file] (0 when it is not stored). *)
Definition vfs_open (path : list Z) (flags : Z) : M state (Z * Z) :=
  let! (rc, nd) := vfs_resolve_path path in
  if rc <? 0 then ret (rc, 0)
  else
    let! a := kmalloc_v 32 in
    if a =? 0 then ret (VFS_ERR_NOMEM, 0)
    else
      put_file a (mkFile nd 0 flags);;
      let! n := node nd in
      match n_ops n ≫= λ o, op_open (ops_of o) with
      | Some open =>
          let! rc := open a flags in
          if rc <? 0 then
            kfree_v a;;
            modify (λ s, set_files (delete a (v_files s)) s);;
            ret (rc, 0)
          else ret (VFS_OK, a)
      | None => ret (VFS_OK, a)
      end.

Definition vfs_close (a : Z) : M state Z :=
  if a =? 0 then ret VFS_ERR_INVAL
  else
    let! f := file a in
    let! rc :=
      (if f_node f =? 0 then ret VFS_OK
       else
         let! n := node (f_node f) in
         match n_ops n ≫= λ o, op_close (ops_of o) with
         | Some close => close a
         | None => ret VFS_OK
         end) in
    kfree_v a;;
    modify (λ s, set_files (delete a (v_files s)) s);;
    ret rc.

Definition advance (a count : Z) : M state unit :=
  if count >? 0 then
    let! f := file a in
    put_file a (mkFile (f_node f) (u64 (f_pos f + count)) (f_flags f))
  else ret tt.

(** The count or error, and the bytes stored in [buf]. *)
Definition vfs_read (a len : Z) : M state (Z * list Z) :=
  if a =? 0 then ret (VFS_ERR_INVAL, [])
  else
    let! f := file a in
    if f_node f =? 0 then ret (VFS_ERR_INVAL, [])
    else
      let! n := node (f_node f) in
      match n_ops n ≫= λ o, op_read (ops_of o) with
      | None => ret (VFS_ERR_NOTSUP, [])
      | Some read =>
          let! (count, bs) := read a len in
          advance a count;;
          ret (count, bs)
      end.

Definition vfs_write (a : Z) (buf : list Z) : M state Z :=
  if a =? 0 then ret VFS_ERR_INVAL
  else
    let! f := file a in
    if f_node f =? 0 then ret VFS_ERR_INVAL
    else
      let! n := node (f_node f) in
      match n_ops n ≫= λ o, op_write (ops_of o) with
      | None => ret VFS_ERR_NOTSUP
      | Some write =>
          let! count := write a buf in
          advance a count;;
          ret count
      end.

(** [index] steps along the sibling list. *)
Fixpoint nth_child (index : nat) (child : Z) : M state Z :=
  if child =? 0 then ret 0
  else
    match index with
    | 0%nat => ret child
    | S index' => let! c := node child in nth_child index' (next_sibling c)
    end.

Definition vfs_readdir (a index : Z) (out : vfs_dirent_t) : M state (Z * vfs_dirent_t) :=
  if a =? 0 then ret (VFS_ERR_INVAL, out)
  else
    let! f := file a in
    if f_node f =? 0 then ret (VFS_ERR_INVAL, out)
    else
      let! dir := node (f_node f) in
      if Z.land (n_type dir) VFS_NODE_DIR =? 0 then ret (VFS_ERR_NOTDIR, out)
      else
        match n_ops dir ≫= λ o, op_readdir (ops_of o) with
        | Some readdir => readdir (f_node f) index out
        | None =>
            let! child := nth_child (Z.to_nat index) (first_child dir) in
            if child =? 0 then ret (0, out)
            else
              let! c := node child in
              if name_len c >? Z.of_nat VFS_NAME_MAX then ret (VFS_ERR_NAMETOOLONG, out)
              else ret (1, mkVdirent (take (Z.to_nat (name_len c)) (n_chars c)) (n_type c))
        end.

Definition vfs_stat_node (nd : Z) (out : vfs_stat_t) : M state (Z * vfs_stat_t) :=
  if nd =? 0 then ret (VFS_ERR_INVAL, out)
  else
    let! n := node nd in
    match n_ops n ≫= λ o, op_stat (ops_of o) with
    | Some stat =>
        let! (rc, out) := stat nd out in
        if rc <? 0 then ret (rc, out) else ret (VFS_OK, out)
    | None => ret (VFS_OK, mkStat (n_type n) (n_size n))
    end.

Definition vfs_stat (path : list Z) (out : vfs_stat_t) : M state (Z * vfs_stat_t) :=
  let! (rc, nd) := vfs_resolve_path path in
  if rc <? 0 then ret (rc, out) else vfs_stat_node nd out.

Definition vfs_fstat (a : Z) (out : vfs_stat_t) : M state (Z * vfs_stat_t) :=
  if a =? 0 then ret (VFS_ERR_INVAL, out)
  else
    let! f := file a in
    if f_node f =? 0 then ret (VFS_ERR_INVAL, out)
    else vfs_stat_node (f_node f) out.
End Vfs.
