(* ===== verification/VfsSpec.v ===== *)
(** Correctness of the VFS layer: mount selection, path resolution against a
    component-wise reference, the child lists of directories, mounting and
    unmounting, file positions. *)

From S2P Require Import Prelude Disk Heap Vfs.

(** * Mount selection *)

Lemma find_mount_spec mounts path n best bl :
  (∀ b, best = Some b → m_path_len b = bl) → (best = None → bl = 0) → Forall (λ m, 0 ≤ m_path_len m) mounts →
  match find_mount mounts path n best bl with
  | Some m => (m ∈ mounts ∧ vfs_path_is_prefix path n m = true ∧ bl ≤ m_path_len m ∨ best = Some m) ∧
      ∀ m', m' ∈ mounts → vfs_path_is_prefix path n m' = true → m_path_len m' ≤ m_path_len m
  | None => best = None ∧ ∀ m', m' ∈ mounts → vfs_path_is_prefix path n m' = false
  end.
Proof.
  revert best bl. induction mounts as [|m mounts IH]; intros best bl Hb Hn Hpos; cbn [find_mount].
  { destruct best; [split; [by right|]|split; [done|]]; intros m' Hm'; by apply elem_of_nil in Hm'. }
  apply Forall_cons in Hpos as [Hm Hpos].
  destruct (vfs_path_is_prefix path n m) eqn:Hp; cbn [negb]; [destruct (Z.geb_spec (m_path_len m) bl)|].
  - specialize (IH (Some m) (m_path_len m) ltac:(by intros ? [= <-]) ltac:(done) Hpos).
    destruct (find_mount _ _ _ _ _) as [r|]; [|by destruct IH]. destruct IH as [Hin Hmax]. split.
    + left. destruct Hin as [(? & ? & ?)|[= ->]]; [split_and!; [by apply elem_of_cons; right|done|lia]|].
      split_and!; [apply elem_of_cons; by left|done|done].
    + intros m' [->|Hm']%elem_of_cons Hp'; [destruct Hin as [(_ & _ & ?)|[= ->]]; [done|lia]|auto].
  - specialize (IH best bl Hb Hn Hpos). destruct (find_mount _ _ _ _ _) as [r|].
    + destruct IH as [Hin Hmax]. split.
      * destruct Hin as [(? & ? & ?)|Hin]; [left; split_and!; [by apply elem_of_cons; right|done..]|by right].
      * intros m' [->|Hm']%elem_of_cons Hp'; [|auto].
        destruct Hin as [(_ & _ & ?)|Hin]; [lia|apply Hb in Hin; lia].
    + destruct IH as [Hbn Hall]. specialize (Hn Hbn). lia.
  - specialize (IH best bl Hb Hn Hpos). destruct (find_mount _ _ _ _ _) as [r|].
    + destruct IH as [Hin Hmax]. split.
      * destruct Hin as [(? & ? & ?)|Hin]; [left; split_and!; [by apply elem_of_cons; right|done..]|by right].
      * intros m' [->|Hm']%elem_of_cons Hp'; [by rewrite Hp in Hp'|auto].
    + destruct IH as [Hbn Hall]. split; [done|]. intros m' [->|Hm']%elem_of_cons; auto.
Qed.

(** A path is served by the mount with the longest matching path: the
    selected mount matches, no matching mount is longer, and when none is
    selected none matches. *)
Theorem vfs_longest_mount_wins mounts path n :
  Forall (λ m, 0 ≤ m_path_len m) mounts →
  match vfs_find_mount_for_path mounts path n with
  | Some m => m ∈ mounts ∧ vfs_path_is_prefix path n m = true ∧
      ∀ m', m' ∈ mounts → vfs_path_is_prefix path n m' = true → m_path_len m' ≤ m_path_len m
  | None => ∀ m', m' ∈ mounts → vfs_path_is_prefix path n m' = false
  end.
Proof.
  intros Hpos. pose proof (find_mount_spec mounts path n None 0 ltac:(done) ltac:(done) Hpos) as Hs.
  unfold vfs_find_mount_for_path. destruct (find_mount _ _ _ _ _); [|by destruct Hs].
  destruct Hs as [[(? & ? & _)|?] ?]; done.
Qed.

(** A mount whose length field agrees with its path. *)
Definition mount_ok (m : vfs_mount_t) : Prop :=
  m_path_len m = Z.of_nat (length (m_path m)) ∧ starts_with_slash (m_path m) = true.

(** The match respects component boundaries: a mount point matches exactly
    the paths that equal it or continue it after a slash ("/mnt" does not match
    "/mntx"), and "/" matches every absolute path. *)
Theorem vfs_prefix_is_by_component m path :
  mount_ok m → starts_with_slash path = true →
  vfs_path_is_prefix path (length path) m = true ↔
    m_path m = [slash] ∨ path = m_path m ∨ ∃ rest, path = m_path m ++ slash :: rest.
Proof.
  intros [Hlen Hsl] Hp. unfold vfs_path_is_prefix. rewrite Hlen.
  destruct (m_path m) as [|c mp] eqn:Hm; [done|]. simpl in Hsl. apply Z.eqb_eq in Hsl as ->.
  destruct path as [|d path]; [done|]. simpl in Hp. apply Z.eqb_eq in Hp as ->.
  destruct (Z.eqb_spec (Z.of_nat (length (slash :: mp))) 0); [simpl in *; lia|].
  destruct (Z.eqb_spec (Z.of_nat (length (slash :: mp))) 1) as [H1|H1].
  { destruct mp; [|simpl in H1; lia]. split; [by left|done]. }
  destruct (Z.ltb_spec (Z.of_nat (length (slash :: path))) (Z.of_nat (length (slash :: mp)))) as [Hlt|Hge].
  { split; [done|]. intros [[= ->]|[[= ->]|(rest & [= ->])]]; simpl in *; [lia|lia|].
    rewrite length_app in Hlt. simpl in Hlt. lia. }
  unfold memcmp_eq. rewrite Nat2Z.id, (take_ge (slash :: mp)) by done.
  assert (slash :: path = take (length (slash :: mp)) (slash :: path) ++ drop (length (slash :: mp)) (slash :: path)) as Hsplit
    by (by rewrite take_drop).
  destruct (bool_decide_reflect (take (length (slash :: mp)) (slash :: path) = slash :: mp)) as [Ht|Ht]; cbn [negb].
  - destruct (Z.eqb_spec (Z.of_nat (length (slash :: path))) (Z.of_nat (length (slash :: mp)))) as [He|He].
    { split; [|done]. intros _. right; left. rewrite <- Ht. rewrite take_ge; [done|lia]. }
    rewrite Ht in Hsplit. unfold byte. rewrite <- (Nat.add_0_r (length (slash :: mp))), <- lookup_drop.
    destruct (drop (length (slash :: mp)) (slash :: path)) as [|x rest] eqn:Hd.
    { apply (f_equal length) in Hd. rewrite length_drop in Hd. simpl in *. lia. }
    cbn [lookup list_lookup default]. unfold id. rewrite Z.eqb_eq. split.
    + intros ->. right; right. by exists rest.
    + intros [[= ->]|[Heq|(r & Heq)]]; [simpl in H1; lia| |].
      * rewrite Heq in He. lia.
      * rewrite Hsplit in Heq. apply app_inv_head in Heq. by injection Heq.
  - split; [done|]. intros [[= ->]|[Heq|(r & Heq)]]; [simpl in H1; lia| |]; exfalso; apply Ht; rewrite Heq.
    + by rewrite take_ge.
    + by rewrite take_app_length.
Qed.

(** The length of a mount path is stored in 16 bits: mounting at a path of
    65,537 characters gives a mount that captures every absolute path, as if it
    were the root. *)
Theorem vfs_mount_length_truncates a pa root path path' n :
  length path = (2 * 32768 + 1)%nat → starts_with_slash path' = true → (1 ≤ n)%nat →
  vfs_path_is_prefix path' n (mkMount a pa path (u16 (Z.of_nat (length path))) root) = true.
Proof.
  intros Hl Hs Hn. unfold vfs_path_is_prefix. cbn [m_path_len]. rewrite Hl.
  replace (u16 (Z.of_nat (2 * 32768 + 1))) with 1 by (unfold wrap; rewrite Nat2Z.inj_add, Nat2Z.inj_mul; reflexivity).
  cbn [Z.eqb Pos.eqb]. destruct (Nat.leb_spec 1 n); [|lia]. destruct path'; done.
Qed.

(** * Path resolution *)

(** The components of a path: what is between slashes, when not empty. *)
Fixpoint split_path (p : list Z) : list (list Z) :=
  match p with
  | [] => [[]]
  | c :: p' =>
      if c =? slash then [] :: split_path p'
      else match split_path p' with s :: rest => (c :: s) :: rest | [] => [[c]] end
  end.
Definition nonempty_seg (s : list Z) : bool := match s with [] => false | _ => true end.
Definition components (p : list Z) : list (list Z) := List.filter nonempty_seg (split_path p).

Lemma components_slash p : components (slash :: p) = components p.
Proof. done. Qed.

Lemma components_skip p : components (vfs_skip_slashes p) = components p.
Proof.
  induction p as [|c p IH]; [done|]. cbn [vfs_skip_slashes]. destruct (Z.eqb_spec c slash) as [->|]; [|done]. by rewrite IH.
Qed.

Lemma vfs_skip_length p : (length (vfs_skip_slashes p) ≤ length p)%nat.
Proof. induction p as [|c p IH]; simpl; [done|]. destruct (c =? slash); simpl; lia. Qed.

Lemma vfs_skip_head p : match vfs_skip_slashes p with c :: _ => c ≠ slash | [] => True end.
Proof. induction p as [|c p IH]; simpl; [done|]. by destruct (Z.eqb_spec c slash). Qed.

Lemma take_segment_split p seg rest :
  take_segment p = (seg, rest) →
  split_path p = seg :: List.tl (split_path p) ∧
  components rest = List.filter nonempty_seg (List.tl (split_path p)) ∧ (length seg + length rest = length p)%nat.
Proof.
  revert seg rest. induction p as [|c p IH]; intros seg rest; cbn [take_segment split_path].
  { by intros [= <- <-]. }
  destruct (Z.eqb_spec c slash) as [->|]; [by intros [= <- <-]|].
  destruct (take_segment p) as [s r]. intros [= <- <-].
  destruct (IH s r eq_refl) as (Hs & Hc & Hl). rewrite Hs. cbn [List.tl]. split_and!; [done|done|]. simpl. lia.
Qed.

Lemma take_segment_components p seg rest :
  take_segment p = (seg, rest) → (match p with c :: _ => c ≠ slash | [] => False end) →
  seg ≠ [] ∧ components p = seg :: components rest ∧ (length seg + length rest = length p)%nat.
Proof.
  intros Ht Hhd. destruct (take_segment_split _ _ _ Ht) as (Hs & Hc & Hl).
  assert (seg ≠ []) as Hne.
  { destruct p as [|c p]; [done|]. cbn [take_segment] in Ht. destruct (Z.eqb_spec c slash); [done|].
    destruct (take_segment p). by injection Ht as <- <-. }
  split_and!; [done| |done]. unfold components at 1. rewrite Hs. cbn [List.filter]. rewrite Hc. by destruct seg.
Qed.

Section Resolve.
Context {O D H : Type} `{!KernelHeap H}.
Abbreviation state := (vfs_state O D H).
Context (ops_of : O → vfs_node_ops_t state).
Implicit Types s : state.

(** The reference: walk the components from a node. Every component but the last
    must name a directory. *)
Fixpoint walk (nd : Z) (segs : list (list Z)) : M state (Z * Z) :=
  match segs with
  | [] => ret (VFS_OK, nd)
  | seg :: rest =>
      if (VFS_NAME_MAX <? length seg)%nat then ret (VFS_ERR_NAMETOOLONG, 0)
      else
        let! nd := vfs_lookup_child ops_of nd seg in
        if nd =? 0 then ret (VFS_ERR_NOENT, 0)
        else match rest with
             | [] => ret (VFS_OK, nd)
             | _ =>
                 let! n := node nd in
                 if Z.land (n_type n) VFS_NODE_DIR =? 0 then ret (VFS_ERR_NOTDIR, 0) else walk nd rest
             end
  end.

Lemma resolve_loop_walk steps p nd s :
  (length p < steps)%nat → (match p with c :: _ => c ≠ slash | [] => True end) →
  resolve_loop ops_of steps p nd s = walk nd (components p) s.
Proof.
  revert p nd s. induction steps as [|steps IH]; intros p nd s Hst Hhd; [lia|]. cbn [resolve_loop].
  destruct p as [|c p]; [done|].
  destruct (take_segment (c :: p)) as [seg rest] eqn:Ht.
  destruct (take_segment_components _ _ _ Ht Hhd) as (Hne & -> & Hl). cbn [walk].
  destruct (Nat.eqb_spec (length seg) 0); [by destruct seg|].
  destruct (VFS_NAME_MAX <? length seg)%nat; [done|]. unfold bind.
  destruct (vfs_lookup_child ops_of nd seg s) as [[nd' s']| | |]; [|done..]. destruct (nd' =? 0); [done|].
  pose proof (vfs_skip_length rest). pose proof (vfs_skip_head rest) as Hh. rewrite <- (components_skip rest).
  destruct (vfs_skip_slashes rest) as [|x rest'] eqn:Hr.
  - destruct steps; [destruct seg; simpl in *; [done|lia]|]. done.
  - destruct (take_segment (x :: rest')) as [seg2 rest2] eqn:Ht2.
    destruct (take_segment_components _ _ _ Ht2 Hh) as (_ & Hc & _). rewrite Hc.
    destruct (node nd' s') as [[nn s'']| | |]; [|done..]. destruct (_ =? 0); [done|].
    rewrite <- Hc. apply IH; [|done]. destruct seg; simpl in *; [done|lia].
Qed.

Lemma trim_len_pos n path : (1 ≤ n)%nat → (1 ≤ trim_len n path)%nat.
Proof.
  induction n as [|n IH]; [lia|]. intros _. cbn [trim_len]. destruct n as [|n]; [lia|].
  destruct (_ =? slash); [apply IH; lia|lia].
Qed.

(** What follows the mount point in the trimmed path. *)
Definition below (m : vfs_mount_t) (path : list Z) : list Z :=
  drop (Z.to_nat (m_path_len m)) (take (vfs_trim_path_len path) path).

(** C12. Resolving an absolute path is walking the components below the mount
    point that serves it, from that mount's root: empty components and trailing
    slashes do not matter, and every error code is the one of the walk. The loop
    over the path always terminates. *)
Theorem vfs_resolve_path_walks_components path s :
  starts_with_slash path = true →
  vfs_resolve_path ops_of path s =
    match vfs_find_mount_for_path (g_mounts s) path (vfs_trim_path_len path) with
    | Some m => if m_root m =? 0 then Ok ((VFS_ERR_NOENT, 0), s) else walk (m_root m) (components (below m path)) s
    | None => Ok ((VFS_ERR_NOENT, 0), s)
    end.
Proof.
  intros Hsl. unfold vfs_resolve_path. rewrite Hsl. cbn [negb].
  assert (1 ≤ vfs_trim_path_len path)%nat as Hpos.
  { apply trim_len_pos. destruct path; simpl; [done|lia]. }
  destruct (Nat.eqb_spec (vfs_trim_path_len path) 0); [lia|]. unfold bind, gets.
  destruct (vfs_find_mount_for_path _ _ _) as [m|]; [|done]. destruct (m_root m =? 0); [done|]. cbv zeta.
  fold (below m path). set (q := match below m path with [] => _ | _ => _ end).
  assert (components q = components (below m path)) as <-.
  { unfold q. destruct (below m path) as [|c p']; [done|].
    destruct (m_path_len m >? 1); [|done]. cbn [andb]. by destruct (Z.eqb_spec c slash) as [->|]. }
  rewrite <- (components_skip q). pose proof (vfs_skip_head q).
  destruct (vfs_skip_slashes q) as [|x r]; [done|]. rewrite resolve_loop_walk; [done|lia|done].
Qed.
End Resolve.

(** * Child lists *)

Section Children.
Context {O D H : Type} `{!KernelHeap H}.
Abbreviation state := (vfs_state O D H).
Implicit Types s : state.

(** The sibling list that starts at [a] consists of the nodes [l]. *)
Fixpoint siblings (nodes : gmap Z (vfs_node_t O)) (a : Z) (l : list Z) : Prop :=
  match l with
  | [] => a = 0
  | x :: l' => a = x ∧ x ≠ 0 ∧ ∃ n, nodes !! x = Some n ∧ siblings nodes (next_sibling n) l'
  end.

(** Node [p] has the children [l], in list order. *)
Definition children_of s (p : Z) (l : list Z) : Prop :=
  p ≠ 0 ∧ NoDup l ∧ ∃ n, v_nodes s !! p = Some n ∧ siblings (v_nodes s) (first_child n) l.

(** The node at [x] carries the name [nm]. *)
Definition named s (nm : list Z) (x : Z) : bool :=
  match v_nodes s !! x with
  | Some n => negb (n_name n =? 0) && bool_decide (n_chars n = nm)
  | None => false
  end.

Lemma vfs_strcmp_refl a : vfs_strcmp a a = 0.
Proof. induction a as [|x a IH]; simpl; [done|]. by rewrite Z.eqb_refl. Qed.

Lemma vfs_strcmp_eq a b :
  Forall (λ c, 0 < c) a → Forall (λ c, 0 < c) b → (vfs_strcmp a b =? 0) = bool_decide (a = b).
Proof.
  intros Ha. revert b. induction Ha as [|x a Hx Ha IH]; intros b Hb; destruct Hb as [|y b Hy Hb]; cbn [vfs_strcmp].
  - by rewrite bool_decide_true.
  - rewrite bool_decide_false by done. apply Z.eqb_neq. lia.
  - rewrite bool_decide_false by done. apply Z.eqb_neq. lia.
  - destruct (Z.eqb_spec x y) as [->|Hne].
    + rewrite IH by done. apply bool_decide_ext. split; [by intros ->|by intros [= ->]].
    + rewrite bool_decide_false by congruence. apply Z.eqb_neq. lia.
Qed.

Lemma siblings_present nodes a l x : siblings nodes a l → x ∈ l → is_Some (nodes !! x).
Proof.
  revert a. induction l as [|y l IH]; intros a; simpl; [set_solver|].
  intros (-> & _ & n & Hn & Hs) [->|Hx]%elem_of_cons; eauto.
Qed.

Lemma siblings_ext nodes nodes' a l :
  (∀ x, x ∈ l → nodes' !! x = nodes !! x) → siblings nodes a l → siblings nodes' a l.
Proof.
  revert a. induction l as [|y l IH]; intros a Hx; simpl; [done|]. intros (-> & Hy & n & Hn & Hs).
  split_and!; [done..|]. exists n. split; [rewrite Hx by set_solver; done|]. apply IH; [set_solver|done].
Qed.

Lemma siblings_size nodes a l : siblings nodes a l → NoDup l → (length l ≤ size nodes)%nat.
Proof.
  intros Hs Hnd. rewrite <- size_dom. rewrite <- (size_list_to_set (C := gset Z) l) by done.
  apply subseteq_size. intros x Hx. apply elem_of_list_to_set in Hx. apply elem_of_dom. by eapply siblings_present.
Qed.

Lemma find_child_from_spec fuel nodes l a nm s :
  v_nodes s = nodes → siblings nodes a l → (length l ≤ fuel)%nat → Forall (λ c, 0 < c) nm →
  (∀ x n, x ∈ l → nodes !! x = Some n → Forall (λ c, 0 < c) (n_chars n)) →
  find_child_from fuel a nm s = Ok (default 0 (List.find (named s nm) l), s).
Proof.
  intros Hn. revert fuel a. induction l as [|x l IH]; intros fuel a Hs Hf Hnm Hch; simpl in Hs.
  - subst a. by destruct fuel.
  - destruct Hs as (-> & Hx & n & Hnx & Hs). destruct fuel as [|fuel]; [simpl in Hf; lia|].
    cbn [find_child_from]. destruct (Z.eqb_spec x 0); [done|]. unfold bind, node. rewrite Hn, Hnx.
    cbn [List.find]. unfold named at 1. rewrite Hn, Hnx. rewrite vfs_strcmp_eq; [|by apply (Hch x n); [set_solver|]|done].
    destruct (negb _ && _); [done|]. apply IH; [done|simpl in Hf; lia|done|]. intros y m Hy. apply Hch. set_solver.
Qed.

Lemma find_child_spec p l nm s :
  children_of s p l → Forall (λ c, 0 < c) nm →
  (∀ x n, x ∈ l → v_nodes s !! x = Some n → Forall (λ c, 0 < c) (n_chars n)) →
  vfs_find_child p nm s = Ok (default 0 (List.find (named s nm) l), s).
Proof.
  intros (Hp & Hnd & n & Hn & Hs) Hnm Hch. unfold vfs_find_child. destruct (Z.eqb_spec p 0); [done|].
  unfold bind, node, gets. rewrite Hn. eapply find_child_from_spec; [done|done|by eapply siblings_size|done|done].
Qed.

(** [vfs_find_child] returns the first child with exactly that name (NULL
    when there is none); the walk over the sibling list terminates and changes
    nothing. *)
Theorem vfs_find_child_correct p l nm s :
  children_of s p l → Forall (λ c, 0 < c) nm →
  (∀ x n, x ∈ l → v_nodes s !! x = Some n → Forall (λ c, 0 < c) (n_chars n)) →
  vfs_find_child p nm s = Ok (default 0 (List.find (named s nm) l), s).
Proof. apply find_child_spec. Qed.

(** The nodes after [child] was linked in front of the children of [p]. *)
Lemma add_child_runs p child l s pn cn :
  children_of s p l → child ≠ 0 → child ∉ l → child ≠ p → p ∉ l →
  v_nodes s !! p = Some pn → v_nodes s !! child = Some cn → Z.land (n_type pn) VFS_NODE_DIR ≠ 0 →
  ∃ s', vfs_add_child p child s = Ok (VFS_OK, s') ∧ children_of s' p (child :: l) ∧
    v_nodes s' !! child = Some (link_child p child cn (first_child pn)) ∧
    (∀ x, x ≠ p → x ≠ child → v_nodes s' !! x = v_nodes s !! x) ∧ g_mounts s' = g_mounts s ∧ v_heap s' = v_heap s.
Proof.
  intros (Hp & Hnd & n & Hn & Hs) Hc Hcl Hcp Hpl Hpn Hcn Hdir. rewrite Hn in Hpn. injection Hpn as ->.
  unfold vfs_add_child. destruct (Z.eqb_spec p 0); [done|]. destruct (Z.eqb_spec child 0); [done|]. cbn [orb].
  unfold bind, node. rewrite Hn. destruct (Z.eqb_spec (Z.land (n_type pn) VFS_NODE_DIR) 0); [done|].
  rewrite Hcn. unfold put_node, modify. cbn [v_nodes set_nodes]. rewrite lookup_insert_ne, Hn by done.
  cbn [ret v_nodes set_nodes]. eexists. split; [done|]. cbn [v_nodes set_nodes g_mounts v_heap]. split_and!.
  - split; [done|]. split; [by constructor|]. cbn [v_nodes set_nodes]. eexists.
    split; [by rewrite lookup_insert_eq|]. cbn [set_first_child first_child siblings]. split_and!; [done..|].
    eexists. split; [by rewrite lookup_insert_ne, lookup_insert_eq|]. cbn [link_child next_sibling].
    eapply siblings_ext; [|done]. intros x Hx. rewrite !lookup_insert_ne; [done|set_solver..].
  - by rewrite lookup_insert_ne, lookup_insert_eq.
  - intros x Hxp Hxc. by rewrite !lookup_insert_ne.
  - done.
  - done.
Qed.

(** [vfs_add_child] puts the child in front of the parent's children and
    changes no other node; looking its name up afterwards finds it. *)
Theorem vfs_add_child_then_found p child l s pn cn :
  children_of s p l → child ≠ 0 → child ∉ l → child ≠ p → p ∉ l →
  v_nodes s !! p = Some pn → v_nodes s !! child = Some cn → Z.land (n_type pn) VFS_NODE_DIR ≠ 0 →
  n_name cn ≠ 0 → Forall (λ c, 0 < c) (n_chars cn) →
  (∀ x n, x ∈ l → v_nodes s !! x = Some n → Forall (λ c, 0 < c) (n_chars n)) →
  ∃ s', vfs_add_child p child s = Ok (VFS_OK, s') ∧ children_of s' p (child :: l) ∧
    (∀ x, x ≠ p → x ≠ child → v_nodes s' !! x = v_nodes s !! x) ∧
    vfs_find_child p (n_chars cn) s' = Ok (child, s').
Proof.
  intros Hch Hc Hcl Hcp Hpl Hpn Hcn Hdir Hnm Hpos Hall.
  destruct (add_child_runs _ _ _ _ _ _ Hch Hc Hcl Hcp Hpl Hpn Hcn Hdir) as (s' & Hrun & Hch' & Hcn' & Hoth & _).
  exists s'. split_and!; [done..|]. rewrite (find_child_spec _ _ _ _ Hch' Hpos).
  - cbn [List.find]. unfold named at 1. rewrite Hcn'. cbn [link_child n_name n_chars].
    destruct (Z.eqb_spec (n_name cn) 0); [done|]. by rewrite bool_decide_true.
  - intros x n [->|Hx]%elem_of_cons Hn; [rewrite Hcn' in Hn; by injection Hn as <-|].
    rewrite Hoth in Hn by set_solver. eauto.
Qed.
End Children.

(** * Allocation *)

Section Owning.
Context {O D H : Type} `{!KernelHeap H, !KernelHeapLaws H}.
Abbreviation state := (vfs_state O D H).
Implicit Types s : state.

(** The heap of the state owns exactly [live]. *)
Definition owns s (live : list (Z * Z)) : Prop := h_owns (v_heap s) live.

Lemma kmalloc_v_run size live s (Q : Z → state → Prop) :
  owns s live → 0 < size < 2 ^ 48 →
  (∀ h, h_owns h live → Q 0 (set_vheap h s)) →
  (∀ p sz h, p ≠ 0 → size ≤ sz → h_owns h ((p, sz) :: live) → Q p (set_vheap h s)) →
  run h_panic (kmalloc_v size) Q s.
Proof.
  intros Ho Hs H0 H1. unfold kmalloc_v, on_heap. apply run_zoom.
  eapply run_mono; [by apply h_kmalloc_spec|]. intros p h [[-> ?]|(? & sz & ? & ?)]; eauto.
Qed.

Lemma kfree_v_run E p sz live s (Q : unit → state → Prop) :
  owns s ((p, sz) :: live) → (∀ h, h_owns h live → Q tt (set_vheap h s)) → run E (kfree_v p) Q s.
Proof. intros Ho HQ. unfold kfree_v, on_heap. apply run_zoom. by eapply h_kfree_run. Qed.

(** ** Nodes *)

(** A node fresh from [vfs_node_create]. *)
Definition new_node (name_copy : Z) (nm : list Z) (type : Z) (ops : option O) (data : Z) : vfs_node_t O :=
  mkNode name_copy nm (Z.of_nat (length nm)) type VFS_NODE_NAME_OWNED 0 ops data 0 0 0.

(** Only the heap and the nodes differ. *)
Definition same_but_nodes s s' : Prop :=
  v_files s' = v_files s ∧ v_data s' = v_data s ∧ g_mounts s' = g_mounts s.

Lemma node_create_run nm type ops data live s :
  owns s live →
  run h_panic (vfs_node_create nm type ops data) (λ a s',
    same_but_nodes s s' ∧
    ((a = 0 ∧ v_nodes s' = v_nodes s ∧ owns s' live) ∨
     (∃ nc sz1 sz2, a ≠ 0 ∧ nc ≠ 0 ∧ (length nm ≤ 255)%nat ∧
        v_nodes s' = <[a := new_node nc nm type ops data]> (v_nodes s) ∧
        owns s' ((nc, sz2) :: (a, sz1) :: live)))) s.
Proof.
  intros Ho. unfold vfs_node_create, VFS_NAME_MAX. run_step. apply (kmalloc_v_run _ live); [done|lia|..].
  { intros h Hh. run_if. run_step. split; [done|]. by left. }
  intros a sz h Ha _ Hh. destruct (Z.eqb_spec a 0); [done|].
  destruct (Nat.ltb_spec 255 (length nm)).
  { run_step. eapply kfree_v_run; [exact Hh|]. intros h' Hh'. run_step. split; [done|]. by left. }
  run_step. apply (kmalloc_v_run _ ((a, sz) :: live)); [done|lia|..].
  { intros h1 Hh1. run_if. run_step. eapply kfree_v_run; [exact Hh1|]. intros h' Hh'. run_step.
    split; [done|]. by left. }
  intros nc sz2 h1 Hnc _ Hh1. destruct (Z.eqb_spec nc 0); [done|]. run_steps. split; [done|]. right.
  exists nc, sz, sz2. split_and!; try done. cbn. unfold new_node. repeat f_equal.
  apply wrap_small. unfold in_width. lia.
Qed.

Lemma node_destroy_run E a n sz1 sz2 live s :
  a ≠ 0 → v_nodes s !! a = Some n → n_flags n = VFS_NODE_NAME_OWNED → n_name n ≠ 0 →
  owns s ((n_name n, sz2) :: (a, sz1) :: live) →
  run E (vfs_node_destroy a) (λ _ s', same_but_nodes s s' ∧ v_nodes s' = delete a (v_nodes s) ∧ owns s' live) s.
Proof.
  intros Ha Hn Hfl Hnm Ho. unfold vfs_node_destroy. destruct (Z.eqb_spec a 0); [done|].
  run_step. eapply run_value; [unfold node; by rewrite Hn|]. run_step. rewrite Hfl.
  destruct (Z.eqb_spec (n_name n) 0); [done|]. run_if. eapply kfree_v_run; [exact Ho|]. intros h Hh.
  run_step. eapply kfree_v_run; [exact Hh|]. intros h' Hh'. by run_step.
Qed.

(** A node that is created and destroyed leaves the heap and the node store
    as they were; a failing creation (no memory, or a name over 255 bytes)
    returns NULL and leaks nothing. *)
Theorem vfs_node_create_destroy nm type ops data live s :
  owns s live →
  run h_panic (vfs_node_create nm type ops data) (λ a s1,
    (a = 0 ∧ v_nodes s1 = v_nodes s ∧ owns s1 live) ∨
    (a ≠ 0 ∧ (length nm ≤ 255)%nat ∧
     wp (vfs_node_destroy a) (λ _ s2, v_nodes s2 = delete a (v_nodes s) ∧ owns s2 live) s1)) s.
Proof.
  intros Ho. eapply run_mono; [by apply (node_create_run _ _ _ _ live)|].
  intros a s1 [_ [?|(nc & sz1 & sz2 & Ha & Hnc & Hl & Hnodes & Ho1)]]; [by left|right]. split_and!; [done..|].
  eapply run_mono; [apply (node_destroy_run never a (new_node nc nm type ops data) sz1 sz2 live)|]; try done.
  - by rewrite Hnodes, lookup_insert_eq.
  - intros [] s2 (_ & Hn2 & Ho2). split; [|done]. by rewrite Hn2, Hnodes, delete_insert_eq.
Qed.

(** ** Mounts *)

Lemma trim_len_le n path : (trim_len n path ≤ n)%nat.
Proof.
  induction n as [|n IH]; [done|]. cbn [trim_len]. destruct n as [|n]; [done|].
  destruct (_ =? slash); lia.
Qed.

Lemma memcmp_take (path : list Z) n : memcmp_eq (take n path) path n = true.
Proof. unfold memcmp_eq. apply bool_decide_true. by rewrite take_take, Nat.min_id. Qed.

(** The mount that [vfs_mount] links for [path]. *)
Definition mounted_at (path : list Z) (root a pa : Z) : vfs_mount_t :=
  mkMount a pa (take (vfs_trim_path_len path) path) (u16 (Z.of_nat (vfs_trim_path_len path))) root.

Lemma vfs_mount_run ops_of root path live s :
  owns s live → root ≠ 0 → starts_with_slash path = true → (length path < 2 ^ 15)%nat →
  existsb (λ m, same_path m path (vfs_trim_path_len path)) (g_mounts s) = false →
  g_mounts s = [] ∨ vfs_trim_path_len path = 1%nat →
  run h_panic (vfs_mount ops_of root path) (λ rc s1,
    v_nodes s1 = v_nodes s ∧ v_data s1 = v_data s ∧
    ((rc = VFS_ERR_NOMEM ∧ g_mounts s1 = g_mounts s ∧ owns s1 live) ∨
     (∃ a pa sz1 sz2, rc = VFS_OK ∧ g_mounts s1 = mounted_at path root a pa :: g_mounts s ∧
        owns s1 ((pa, sz2) :: (a, sz1) :: live)))) s.
Proof.
  intros Ho Hr Hsl Hlen Hex Hcase. unfold vfs_mount. destruct (Z.eqb_spec root 0); [done|]. rewrite Hsl. cbn [orb negb].
  pose proof (trim_len_le (length path) path) as Hle. fold (vfs_trim_path_len path) in Hle.
  assert (1 ≤ vfs_trim_path_len path)%nat by (apply trim_len_pos; destruct path; simpl; [done|lia]).
  cbv zeta. destruct (Nat.eqb_spec (vfs_trim_path_len path) 0); [lia|]. run_step. run_step. rewrite Hex. run_step.
  replace ((1 <? vfs_trim_path_len path)%nat && _) with false.
  2: { destruct Hcase as [->| ->]; [by rewrite andb_false_r|done]. }
  run_steps. run_if. run_step. apply (kmalloc_v_run _ live); [done|lia|..].
  { intros h Hh. run_if. run_step. split_and!; [done..|]. by left. }
  intros a sz h Ha _ Hh. destruct (Z.eqb_spec a 0); [done|]. run_step.
  change (2 ^ 15)%nat with (8 * 4096)%nat in Hlen.
  apply (kmalloc_v_run _ ((a, sz) :: live)); [done|lia|..].
  { intros h1 Hh1. run_if. run_step. eapply kfree_v_run; [exact Hh1|]. intros h' Hh'. run_step.
    split_and!; [done..|]. by left. }
  intros pa sz2 h1 Hpa _ Hh1. destruct (Z.eqb_spec pa 0); [done|]. run_steps. split_and!; [done..|]. right.
  by exists a, pa, sz, sz2.
Qed.

Lemma unmount_detach_run E path root a pa sz1 sz2 rest live s :
  starts_with_slash path = true → (length path < 2 ^ 15)%nat →
  g_mounts s = mounted_at path root a pa :: rest → owns s ((pa, sz2) :: (a, sz1) :: live) →
  run E (vfs_unmount_detach path) (λ r s', r = (VFS_OK, root) ∧ g_mounts s' = rest ∧ owns s' live ∧
    v_nodes s' = v_nodes s ∧ v_data s' = v_data s) s.
Proof.
  intros Hsl Hlen Hm Ho. unfold vfs_unmount_detach. rewrite Hsl. cbn [negb]. run_step. run_step. rewrite Hm.
  pose proof (trim_len_le (length path) path) as Hle. fold (vfs_trim_path_len path) in Hle.
  cbn [unlink_mount]. unfold same_path. cbn [mounted_at m_path_len m_path].
  change (2 ^ 15)%nat with (8 * 4096)%nat in Hlen.
  rewrite memcmp_take, wrap_small, Z.eqb_refl by (unfold in_width; lia). cbn [andb].
  run_step. run_step. run_step. eapply kfree_v_run; [exact Ho|]. intros h Hh.
  run_step. eapply kfree_v_run; [exact Hh|]. intros h' Hh'. by run_step.
Qed.

(** Mounting and unmounting are inverse: for the first mount, or a mount at
    "/", with a path that is not mounted yet, [vfs_mount] succeeds (or reports
    that memory ran out, leaking nothing), and [vfs_unmount_detach] of the same
    path then hands back the root node, the mount list as it was before and all
    memory. *)
Theorem vfs_mount_unmount ops_of root path live s :
  owns s live → root ≠ 0 → starts_with_slash path = true → (length path < 2 ^ 15)%nat →
  existsb (λ m, same_path m path (vfs_trim_path_len path)) (g_mounts s) = false →
  g_mounts s = [] ∨ vfs_trim_path_len path = 1%nat →
  run h_panic (vfs_mount ops_of root path) (λ rc s1,
    (rc = VFS_ERR_NOMEM ∧ g_mounts s1 = g_mounts s ∧ owns s1 live) ∨
    (rc = VFS_OK ∧ vfs_find_mount_for_path (g_mounts s1) path (vfs_trim_path_len path) ≠ None ∧
     wp (vfs_unmount_detach path) (λ r s2,
       r = (VFS_OK, root) ∧ g_mounts s2 = g_mounts s ∧ owns s2 live) s1)) s.
Proof.
  intros Ho Hr Hsl Hlen Hex Hcase. eapply run_mono; [by apply (vfs_mount_run _ _ _ live)|].
  intros rc s1 (_ & _ & [(-> & ? & ?)|(a & pa & sz1 & sz2 & -> & Hm & Ho1)]); [by left|right].
  split; [done|]. split.
  - intros Hnone. rewrite Hm in Hnone. unfold vfs_find_mount_for_path in Hnone. cbn [find_mount] in Hnone.
    assert (vfs_path_is_prefix path (vfs_trim_path_len path) (mounted_at path root a pa) = true) as Hp.
    { pose proof (trim_len_le (length path) path) as Hle. fold (vfs_trim_path_len path) in Hle.
      assert (1 ≤ vfs_trim_path_len path)%nat by (apply trim_len_pos; destruct path; simpl; [done|lia]).
      change (2 ^ 15)%nat with (8 * 4096)%nat in Hlen.
      unfold vfs_path_is_prefix. cbn [mounted_at m_path_len m_path].
      rewrite wrap_small by (unfold in_width; lia).
      destruct (Z.eqb_spec (Z.of_nat (vfs_trim_path_len path)) 0); [lia|].
      destruct (Z.eqb_spec (Z.of_nat (vfs_trim_path_len path)) 1).
      { destruct (Nat.leb_spec 1 (vfs_trim_path_len path)); [|lia]. destruct path; done. }
      rewrite Z.ltb_irrefl, Z.eqb_refl, Nat2Z.id. unfold memcmp_eq. by rewrite take_take, Nat.min_id, bool_decide_true. }
    rewrite Hp in Hnone. cbn [negb] in Hnone.
    assert (0 ≤ m_path_len (mounted_at path root a pa)) by (apply wrap_range; lia).
    destruct (Z.geb_spec (m_path_len (mounted_at path root a pa)) 0); [|lia].
    assert (∀ ms b bl, find_mount ms path (vfs_trim_path_len path) (Some b) bl ≠ None) as Hsome.
    { induction ms as [|m ms IH]; intros b bl; cbn [find_mount]; [done|]. repeat case_match; auto. }
    by apply Hsome in Hnone.
  - eapply run_mono; [by eapply unmount_detach_run|]. by intros r s2 (? & ? & ? & _).
Qed.

(** Mounting twice at the same path (trailing slashes aside) is refused and
    changes nothing. *)
Theorem vfs_mount_twice_refused ops_of root path s :
  root ≠ 0 → starts_with_slash path = true →
  existsb (λ m, same_path m path (vfs_trim_path_len path)) (g_mounts s) = true →
  vfs_mount ops_of root path s = Ok (VFS_ERR_EXIST, s).
Proof.
  intros Hr Hsl Hex. unfold vfs_mount. destruct (Z.eqb_spec root 0); [done|]. rewrite Hsl. cbn [orb negb].
  assert (1 ≤ vfs_trim_path_len path)%nat by (apply trim_len_pos; destruct path; simpl; [done|lia]).
  cbv zeta. destruct (Nat.eqb_spec (vfs_trim_path_len path) 0); [lia|]. unfold bind, gets. by rewrite Hex.
Qed.
End Owning.
