(* ===== verification/Fat32Vfs.v ===== *)
(** FAT32 behind the VFS (fs/vfs/fat32_vfs.c): inodes, the directory cache, the
    operation tables, mount and unmount.

    The inode of a node is found through its [data] pointer in the store
    [v_data]; the volume structure is not modified after the mount and is kept
    by value.  [fuel] is the bound of the FAT32 chain loops. *)

From S2P Require Import Prelude Disk Gpt Heap Fat32 Vfs.

Record fat32_vfs_inode_t : Type := mkInode {
  i_vol : fat32_vol_t;
  i_first_cluster : Z;
  i_size : Z;
  i_attributes : Z;
  dir_cache : Z;
  dir_cache_entries : list fat32_dirent_t;
  dir_cache_cap : Z;
  dir_cache_loaded : bool
}.

(** The two operation tables. *)
Inductive fat32_ops : Type := fat32_dir_ops | fat32_file_ops.

(** sizeof(fat32_dirent_t), sizeof(fat32_vfs_inode_t) *)
Definition DIRENT_BYTES : Z := 280.
Definition INODE_BYTES : Z := 48.

Section Fat32Vfs.
Context {H : Type} `{!KernelHeap H}.
Context (virtio_blk_read : blk_reader) (gpt : gpt_state) (fuel : nat).
Abbreviation state := (vfs_state fat32_ops fat32_vfs_inode_t H).
Implicit Types s : state.

Definition inode (a : Z) : M state fat32_vfs_inode_t :=
  λ s, match v_data s !! a with Some i => Ok (i, s) | None => Fault end.
Definition put_inode (a : Z) (i : fat32_vfs_inode_t) : M state unit :=
  modify (λ s, set_data (<[a := i]> (v_data s)) s).

Fixpoint find_child_ci_from (n : nat) (child : Z) (nm : list Z) : M state Z :=
  if child =? 0 then ret 0
  else
    match n with
    | 0%nat => λ _, Hang
    | S n' =>
        let! c := node child in
        if negb (n_name c =? 0) && fat32_name_equal_ci (n_chars c) nm then ret child
        else find_child_ci_from n' (next_sibling c) nm
    end.

Definition fat32_find_child_ci (parent : Z) (nm : list Z) : M state Z :=
  if parent =? 0 then ret 0
  else
    let! p := node parent in
    let! n := gets (λ s, size (v_nodes s)) in
    find_child_ci_from n (Vfs.first_child p) nm.

Definition fat32_vfs_open (f flags : Z) : M state Z := ret VFS_OK.

Definition fat32_vfs_read (f len : Z) : M state (Z * list Z) :=
  if f =? 0 then ret (VFS_ERR_INVAL, [])
  else
    let! fl := file f in
    if f_node fl =? 0 then ret (VFS_ERR_INVAL, [])
    else
      let! nd := node (f_node fl) in
      if n_data nd =? 0 then ret (VFS_ERR_IO, [])
      else
        let! i := inode (n_data nd) in
        on_heap (fat32_read_file_at virtio_blk_read gpt fuel (i_vol i) (i_first_cluster i) (i_size i) (f_pos fl) len).

Definition fat32_vfs_write (f : Z) (buf : list Z) : M state Z := ret VFS_ERR_NOTSUP.

(** The loop that doubles the capacity from [cap] on; 2^32 wraps to 0. *)
Fixpoint load_cache_loop (n : nat) (a cap : Z) : M state Z :=
  match n with
  | 0%nat => λ _, Hang
  | S n' =>
      if cap >? 0 then
        let! entries := kmalloc_v (DIRENT_BYTES * cap) in
        if entries =? 0 then ret VFS_ERR_NOMEM
        else
          let! i := inode a in
          let! (ok, out) := on_heap (fat32_read_dir virtio_blk_read gpt fuel (i_vol i) (i_first_cluster i) cap) in
          if negb ok then kfree_v entries;; ret VFS_ERR_IO
          else if Z.of_nat (length out) <? cap then
            put_inode a (mkInode (i_vol i) (i_first_cluster i) (i_size i) (i_attributes i) entries out cap true);;
            ret VFS_OK
          else
            kfree_v entries;;
            load_cache_loop n' a (u32 (cap * 2))
      else ret VFS_ERR_NOMEM
  end.

(** 64 = 2^6 is doubled at most 26 times before it wraps. *)
Definition fat32_vfs_load_dir_cache (a : Z) : M state Z :=
  if a =? 0 then ret VFS_ERR_INVAL
  else
    let! i := inode a in
    if dir_cache_loaded i then ret VFS_OK
    else load_cache_loop 28 a 64.

(** [while (name_len < VFS_NAME_MAX && ent.name[name_len]) name_len++] *)
Fixpoint name_prefix (room : nat) (s : list Z) : list Z :=
  match room, s with
  | S room', c :: s' => if c =? 0 then [] else c :: name_prefix room' s'
  | _, _ => []
  end.

Definition dirent_type (attrs : Z) : Z :=
  if negb (Z.land attrs FAT_ATTR_DIRECTORY =? 0) then VFS_NODE_DIR else VFS_NODE_FILE.

(** The second half of [fat32_vfs_readdir]: the entry from the cache, or read on
    demand, and its name. *)
Definition readdir_entry (i : fat32_vfs_inode_t) (index : Z) (out : vfs_dirent_t) : M state (Z * vfs_dirent_t) :=
  let! found :=
    (if dir_cache_loaded i then
       if index >=? Z.of_nat (length (dir_cache_entries i)) then ret (inl 0)
       else match dir_cache_entries i !! Z.to_nat index with
            | Some ent => ret (inr ent)
            | None => fault
            end
     else
       let! (rc, ent) := on_heap (fat32_readdir_index virtio_blk_read gpt fuel (i_vol i)
                            (i_first_cluster i) index zero_dirent) in
       if rc <? 0 then ret (inl rc)
       else if rc =? 0 then ret (inl 0)
       else ret (inr ent)) in
  match found with
  | inl rc => ret (rc, out)
  | inr ent =>
      let nm := name_prefix VFS_NAME_MAX (name ent) in
      if negb (byte (length nm) (name ent) =? 0) then ret (VFS_ERR_NAMETOOLONG, out)
      else ret (1, mkVdirent nm (dirent_type (attributes ent)))
  end.

Definition fat32_vfs_readdir (dir index : Z) (out : vfs_dirent_t) : M state (Z * vfs_dirent_t) :=
  if dir =? 0 then ret (VFS_ERR_INVAL, out)
  else
    let! d := node dir in
    if n_data d =? 0 then ret (VFS_ERR_IO, out)
    else
      let! i := inode (n_data d) in
      let! cache_rc :=
        (if dir_cache_loaded i then ret VFS_OK else fat32_vfs_load_dir_cache (n_data d)) in
      if (cache_rc <? 0) && negb (cache_rc =? VFS_ERR_NOMEM) then ret (cache_rc, out)
      else
        let! i := inode (n_data d) in
        readdir_entry i index out.

(** The inode pointer of a new node. *)
Definition set_node_data (n : vfs_node_t fat32_ops) (data sz : Z) : vfs_node_t fat32_ops :=
  mkNode (n_name n) (n_chars n) (name_len n) (n_type n) (n_flags n) sz (n_ops n) data
    (n_parent n) (Vfs.first_child n) (next_sibling n).

(** The part of a name before a zero byte. *)
Fixpoint cstr (s : list Z) : list Z :=
  match s with [] => [] | c :: s' => if c =? 0 then [] else c :: cstr s' end.

Definition fat32_vfs_make_node (vol : fat32_vol_t) (ent : fat32_dirent_t) : M state Z :=
  let type := dirent_type (attributes ent) in
  let ops := if negb (Z.land type VFS_NODE_DIR =? 0) then fat32_dir_ops else fat32_file_ops in
  let! nd := vfs_node_create (cstr (name ent)) type (Some ops) 0 in
  if nd =? 0 then ret 0
  else
    let! a := kmalloc_v INODE_BYTES in
    if a =? 0 then vfs_node_destroy nd;; ret 0
    else
      put_inode a (mkInode vol (Fat32.first_cluster ent) (file_size ent) (attributes ent) 0 [] 0 false);;
      let! n := node nd in
      put_node nd (set_node_data n a (file_size ent));;
      ret nd.

Definition fat32_vfs_lookup (dir : Z) (nm : list Z) : M state Z :=
  if dir =? 0 then ret 0
  else
    let! cached := fat32_find_child_ci dir nm in
    if negb (cached =? 0) then ret cached
    else
      let! d := node dir in
      if n_data d =? 0 then ret 0
      else
        let! i := inode (n_data d) in
        let! ent :=
          (if dir_cache_loaded i && negb (dir_cache i =? 0) then
             ret (List.find (λ e, fat32_name_equal_ci (name e) nm) (dir_cache_entries i))
           else
             let! (rc, e) := on_heap (fat32_lookup virtio_blk_read gpt fuel (i_vol i)
                               (i_first_cluster i) nm zero_dirent) in
             ret (if rc <? 0 then None else Some e)) in
        match ent with
        | None => ret 0
        | Some e =>
            let! child := fat32_vfs_make_node (i_vol i) e in
            if child =? 0 then ret 0
            else
              let! rc := vfs_add_child dir child in
              if rc <? 0 then vfs_node_destroy child;; ret 0
              else ret child
        end.

Definition set_node_size (n : vfs_node_t fat32_ops) (sz : Z) : vfs_node_t fat32_ops :=
  set_node_data n (n_data n) sz.

Definition fat32_vfs_stat (nd : Z) (out : vfs_stat_t) : M state (Z * vfs_stat_t) :=
  if nd =? 0 then ret (VFS_ERR_INVAL, out)
  else
    let! n := node nd in
    if n_data n =? 0 then ret (VFS_ERR_IO, out)
    else
      (if n_parent n =? 0 then ret tt
       else
         let! p := node (n_parent n) in
         if n_data p =? 0 then ret tt
         else
           let! pi := inode (n_data p) in
           let! (rc, ent) := on_heap (fat32_lookup virtio_blk_read gpt fuel (i_vol pi)
                               (i_first_cluster pi) (n_chars n) zero_dirent) in
           if rc =? FAT32_OK then
             let! i := inode (n_data n) in
             put_inode (n_data n) (mkInode (i_vol i) (i_first_cluster i) (file_size ent) (attributes ent)
               (dir_cache i) (dir_cache_entries i) (dir_cache_cap i) (dir_cache_loaded i));;
             put_node nd (set_node_size n (file_size ent))
           else ret tt);;
      let! n := node nd in
      ret (VFS_OK, mkStat (n_type n) (n_size n)).

Definition fat32_ops_of (o : fat32_ops) : vfs_node_ops_t state :=
  match o with
  | fat32_dir_ops =>
      mkOps (Some fat32_vfs_open) None None None (Some fat32_vfs_readdir) (Some fat32_vfs_lookup) (Some fat32_vfs_stat)
  | fat32_file_ops =>
      mkOps (Some fat32_vfs_open) None (Some fat32_vfs_read) (Some fat32_vfs_write) None None (Some fat32_vfs_stat)
  end.

Definition fat32_vfs_mount (vol : fat32_vol_t) (path : list Z) : M state Z :=
  let! root := vfs_node_create [] VFS_NODE_DIR (Some fat32_dir_ops) 0 in
  if root =? 0 then ret VFS_ERR_NOMEM
  else
    let! a := kmalloc_v INODE_BYTES in
    if a =? 0 then vfs_node_destroy root;; ret VFS_ERR_NOMEM
    else
      put_inode a (mkInode vol (root_cluster vol) 0 FAT_ATTR_DIRECTORY 0 [] 0 false);;
      let! n := node root in
      put_node root (set_node_data n a (n_size n));;
      let! rc := vfs_mount fat32_ops_of root path in
      if rc <? 0 then
        kfree_v a;;
        modify (λ s, set_data (delete a (v_data s)) s);;
        vfs_node_destroy root;;
        ret rc
      else ret VFS_OK.

(** [fuel] nodes deep and wide. *)
Fixpoint fat32_vfs_free_tree (n : nat) (nd : Z) : M state unit :=
  match n with
  | 0%nat => λ _, Hang
  | S n' =>
      if nd =? 0 then ret tt
      else
        let! d := node nd in
        (fix children (k : nat) (child : Z) : M state unit :=
           if child =? 0 then ret tt
           else
             match k with
             | 0%nat => λ _, Hang
             | S k' =>
                 let! c := node child in
                 let next := next_sibling c in
                 fat32_vfs_free_tree n' child;;
                 children k' next
             end) n' (Vfs.first_child d);;
        let! d := node nd in
        (if n_data d =? 0 then ret tt
         else
           let! i := inode (n_data d) in
           (if dir_cache i =? 0 then ret tt else kfree_v (dir_cache i));;
           kfree_v (n_data d);;
           modify (λ s, set_data (delete (n_data d) (v_data s)) s));;
        vfs_node_destroy nd
  end.

Definition fat32_vfs_unmount (path : list Z) : M state Z :=
  let! (rc, root) := vfs_unmount_detach path in
  if rc <? 0 then ret rc
  else
    let! n := gets (λ s, size (v_nodes s)) in
    fat32_vfs_free_tree (S (S n)) root;;
    ret VFS_OK.
End Fat32Vfs.
