(* ===== verification/Fat32VfsSpec.v ===== *)
(** Correctness of FAT32 behind the VFS: reads through an open file, and the
    directory cache. *)

From S2P Require Import Prelude Disk Gpt Heap Fat32 Fat32Spec Vfs VfsSpec Fat32Vfs.

Section Fat32VfsSpec.
Context {H : Type} `{!KernelHeap H, !KernelHeapLaws H}.
Context (rd : blk_reader) (image : Z → list Z) `{!DiskLaws rd image} (g : gpt_state) (fuel : nat).
Abbreviation state := (vfs_state fat32_ops fat32_vfs_inode_t H).
Abbreviation ops := (fat32_ops_of rd g fuel).
Implicit Types s : state.

(** * Reading through an open file *)

(** The bytes of the file with inode [i]. *)
Definition file_bytes (i : fat32_vfs_inode_t) (blocks : list (list Z)) : list Z :=
  take (Z.to_nat (i_size i)) (concat blocks).

(** [f] is an open file at position [pos] on a FAT32 file with these bytes. *)
Record open_file s (f pos : Z) (content : list Z) : Prop := {
  of_nonnull : f ≠ 0;
  of_pos : 0 ≤ pos ≤ Z.of_nat (length content);
  of_small : Z.of_nat (length content) < 2 ^ 32;
  of_file : ∃ fl n i blocks, v_files s !! f = Some fl ∧ f_pos fl = pos ∧ f_node fl ≠ 0 ∧
    v_nodes s !! f_node fl = Some n ∧ n_ops n = Some fat32_file_ops ∧ n_data n ≠ 0 ∧
    v_data s !! n_data n = Some i ∧ vol_ok (i_vol i) ∧ 2 ≤ i_first_cluster i < FAT32_BAD ∧ 0 ≤ i_size i ∧
    chain rd g (i_vol i) (i_first_cluster i) blocks ∧ (length blocks < fuel)%nat ∧
    content = file_bytes i blocks
}.

Lemma take_drop_min (l : list Z) (size pos len : nat) :
  take (Nat.min len (size - pos)) (drop pos l) = take len (drop pos (take size l)).
Proof. by rewrite List.skipn_firstn_comm, take_take. Qed.

(** The FAT32 read, at any position of the file. *)
Lemma read_at_spec i blocks pos len live h :
  vol_ok (i_vol i) → 2 ≤ i_first_cluster i < FAT32_BAD → 0 ≤ i_size i →
  chain rd g (i_vol i) (i_first_cluster i) blocks → (length blocks < fuel)%nat →
  0 ≤ pos → 0 < len → h_owns h live →
  run h_panic (fat32_read_file_at rd g fuel (i_vol i) (i_first_cluster i) (i_size i) pos len)
    (λ r h', h_owns h' live ∧
      (r = (FAT32_ERR_NOMEM, []) ∨
       let bs := take (Z.to_nat len) (drop (Z.to_nat pos) (file_bytes i blocks)) in
       r = (Z.of_nat (length bs), bs))) h.
Proof.
  intros Hvol Hc Hsz Hch Hf Hpos Hlen Ho. destruct (decide (pos < i_size i)).
  - eapply run_mono; [by apply (read_file_at_spec rd image g _ _ _ _ _ _ blocks live)|].
    intros r h' [? [->|Hr]]; (split; [done|]); [by left|right]. cbv zeta in *. rewrite Hr. unfold file_bytes.
    rewrite <- take_drop_min.
    replace (Z.to_nat (Z.min len (i_size i - pos))) with (Z.to_nat len `min` (Z.to_nat (i_size i) - Z.to_nat pos))%nat by lia.
    done.
  - unfold fat32_read_file_at. destruct (Z.geb_spec pos (i_size i)); [|lia]. cbn [orb]. run_step.
    split; [done|]. right. unfold file_bytes.
    rewrite (drop_ge (take _ _)), take_nil; [done|]. rewrite length_take. lia.
Qed.

Lemma vfs_read_spec f pos len content live s :
  open_file s f pos content → 0 < len → owns s live →
  run h_panic (vfs_read ops f len) (λ r s',
    owns s' live ∧ open_file s' f (pos + Z.of_nat (length r.2)) content ∧
    (r = (VFS_ERR_NOMEM, []) ∨
     let bs := take (Z.to_nat len) (drop (Z.to_nat pos) content) in r = (Z.of_nat (length bs), bs))) s.
Proof.
  intros [Hf Hpos Hsm (fl & n & i & blocks & Hfl & Hfp & Hnd & Hn & Hops & Hdat & Hi & Hvol & Hc & Hsz & Hch & Hfu & Hcon)] Hlen Ho.
  unfold vfs_read. destruct (Z.eqb_spec f 0); [done|]. run_step. eapply run_value; [unfold file; by rewrite Hfl|].
  destruct (Z.eqb_spec (f_node fl) 0); [done|]. run_step. eapply run_value; [unfold node; by rewrite Hn|].
  rewrite Hops. cbn [mbind option_bind op_read fat32_ops_of]. run_step. unfold fat32_vfs_read.
  destruct (Z.eqb_spec f 0); [done|]. run_step. eapply run_value; [unfold file; by rewrite Hfl|].
  destruct (Z.eqb_spec (f_node fl) 0); [done|]. run_step. eapply run_value; [unfold node; by rewrite Hn|].
  destruct (Z.eqb_spec (n_data n) 0); [done|]. run_step. eapply run_value; [unfold inode; by rewrite Hi|].
  unfold on_heap. apply run_zoom. rewrite Hfp.
  eapply run_mono; [by apply (read_at_spec i blocks pos len live); try lia|].
  intros [count bs] h [Hh Hr]. run_step. unfold advance.
  assert (∀ s', v_nodes s' = v_nodes s → v_data s' = v_data s → ∀ fl', v_files s' !! f = Some fl' → f_node fl' = f_node fl →
    ∀ pos', f_pos fl' = pos' → 0 ≤ pos' ≤ Z.of_nat (length content) → open_file s' f pos' content) as Hkeep.
  { intros s' HN HD fl' Hfl' Hnode pos' Hp' Hb. split; [done..|]. exists fl', n, i, blocks.
    rewrite HN, HD, Hnode. destruct Hc. by split_and!. }
  destruct (Z.gtb_spec count 0) as [Hgt|Hle].
  - run_step. eapply run_value; [unfold file; cbn [v_files set_vheap]; by rewrite Hfl|]. unfold put_file. run_step. run_step.
    split; [done|]. destruct Hr as [[= -> ->]|Hr]; [done|]. rewrite <- Hcon in Hr. injection Hr as -> ->.
    split; [|by right].
    set (bs := take (Z.to_nat len) (drop (Z.to_nat pos) content)) in *.
    assert (Z.of_nat (length bs) ≤ Z.of_nat (length content) - pos) by (unfold bs; rewrite length_take, length_drop; lia).
    cbn [snd]. eapply Hkeep; [done|done|cbn; by rewrite lookup_insert_eq|done| |lia].
    cbn [f_pos]. rewrite Hfp. apply wrap_small. unfold in_width. lia.
  - run_step. run_step. split; [done|]. destruct Hr as [[= -> ->]|Hr].
    + split; [|by left]. eapply Hkeep; [done..|simpl; lia|simpl; lia].
    + rewrite <- Hcon in Hr. injection Hr as -> ->. split; [|by right].
      eapply Hkeep; [done..|cbn [snd]; lia|cbn [snd]; lia].
Qed.

(** [k] reads of [len] bytes: the bytes in the order they came, and how many of
    the calls failed. *)
Fixpoint read_times (k : nat) (f len : Z) : M state (list Z * nat) :=
  match k with
  | 0%nat => ret ([], 0%nat)
  | S k' =>
      let! (count, bs) := vfs_read ops f len in
      let! (rest, fails) := read_times k' f len in
      ret (bs ++ rest, if count <? 0 then S fails else fails)
  end.

(** C33. Sequential reads through an open FAT32 file deliver the file: after any
    number of reads the bytes received are exactly the next bytes of the file
    in order, nothing skipped or repeated, also when some reads fail for lack of
    memory; the position is the number of bytes delivered, and no memory is
    leaked. *)
Theorem fat32_vfs_reads_are_sequential k f pos len content live s :
  open_file s f pos content → 0 < len → owns s live →
  run h_panic (read_times k f len) (λ r s',
    owns s' live ∧ open_file s' f (pos + Z.of_nat (length r.1)) content ∧ (r.2 ≤ k)%nat ∧
    r.1 = take (Z.to_nat len * (k - r.2)) (drop (Z.to_nat pos) content)) s.
Proof.
  revert pos s. induction k as [|k IH]; intros pos s Hopen Hlen Ho; cbn [read_times].
  { run_step. cbn [fst snd length]. rewrite Z.add_0_r, Nat.mul_0_r. done. }
  run_step. eapply run_mono; [by apply (vfs_read_spec f pos len content live)|].
  intros [count bs] s1 (Ho1 & Hopen1 & Hr). cbn [snd] in Hopen1. run_step.
  eapply run_mono; [by apply IH|]. intros [rest fails] s2 (Ho2 & Hopen2 & Hfl & Hrest). cbn [fst snd] in *.
  run_step. cbn [fst snd]. rewrite length_app, Nat2Z.inj_add, Z.add_assoc.
  split; [done|]. split; [done|]. pose proof (of_pos _ _ _ _ Hopen).
  destruct Hr as [[= -> ->]|[= -> Hbs]].
  - change (VFS_ERR_NOMEM <? 0) with true. cbv iota. split; [lia|]. cbn [app length] in *.
    rewrite Z.add_0_r in Hrest. by rewrite Hrest.
  - destruct (Z.ltb_spec (Z.of_nat (length (take (Z.to_nat len) (drop (Z.to_nat pos) content)))) 0); [lia|].
    split; [lia|]. rewrite Hrest.
    replace (Z.to_nat len * (S k - fails))%nat with (Z.to_nat len + Z.to_nat len * (k - fails))%nat by nia.
    rewrite <- take_take_drop, drop_drop. rewrite <- Hbs. f_equal.
    destruct (decide (length bs = Z.to_nat len)) as [->|Hshort].
    + do 2 f_equal. lia.
    + assert (length bs < Z.to_nat len)%nat by (rewrite Hbs, length_take in *; lia).
      assert (length content - Z.to_nat pos < Z.to_nat len)%nat by (rewrite Hbs, length_take, length_drop in *; lia).
      assert (length bs = (length content - Z.to_nat pos)%nat) by (rewrite Hbs, length_take, length_drop; lia).
      rewrite !(drop_ge content) by lia. by rewrite !take_nil.
Qed.

(** * The directory cache *)

Lemma scan_names_fit slots l ds l' stop : scan slots l = Some (ds, l', stop) → Forall (λ d, name_fits d = true) ds.
Proof.
  revert l ds. induction slots as [|raw slots IH]; intros l ds; cbn [scan]; [intros [= <- _ _]; constructor|].
  repeat case_match; try done; try (by apply IH); intros [= <- <- <-]; [constructor|constructor; eauto].
Qed.

Lemma dir_names_fit n vol c ds : dir_holds rd g n vol c ds → Forall (λ d, name_fits d = true) ds.
Proof.
  intros (_ & blocks & _ & _ & Hds). unfold dir_entries in Hds.
  destruct (scan _ _) as [[[ds0 l0] stop]|] eqn:Hsc; [|done]. injection Hds as <-. by eapply scan_names_fit.
Qed.

(** [dir] is a FAT32 directory with the entries [ds] and inode [i] at [a]; a
    loaded cache holds exactly them. *)
Record dir_node s (dir a : Z) (i : fat32_vfs_inode_t) (ds : list fat32_dirent_t) : Prop := {
  dn_node : ∃ n, dir ≠ 0 ∧ v_nodes s !! dir = Some n ∧ n_data n = a ∧ a ≠ 0 ∧ n_type n = VFS_NODE_DIR;
  dn_inode : v_data s !! a = Some i;
  dn_vol : vol_ok (i_vol i);
  dn_dir : dir_holds rd g fuel (i_vol i) (i_first_cluster i) ds;
  dn_cache : dir_cache_loaded i = true → dir_cache_entries i = ds
}.

(** The inode with its cache filled. *)
Definition cached (i : fat32_vfs_inode_t) (p cap : Z) (ds : list fat32_dirent_t) : fat32_vfs_inode_t :=
  mkInode (i_vol i) (i_first_cluster i) (i_size i) (i_attributes i) p ds cap true.

(** The codes with which loading the cache can fail. *)
Definition load_error (rc : Z) : Prop := rc = VFS_ERR_NOMEM ∨ rc = VFS_ERR_IO.

(** After [28 - n] rounds the capacity is a power of two, or has wrapped to 0. *)
Definition cap_ok (n : nat) (cap : Z) : Prop :=
  ((3 ≤ n ≤ 28)%nat ∧ cap = 2 ^ (34 - Z.of_nat n)) ∨ ((1 ≤ n)%nat ∧ cap = 0).

Lemma cap_double n cap : cap_ok (S n) cap → 0 < cap → cap_ok n (u32 (cap * 2)) ∧ cap < 2 ^ 32.
Proof.
  intros [[Hn ->]|[_ ->]] Hc; [|lia]. rewrite Z.mul_comm, <- Z.pow_succ_r by lia.
  replace (Z.succ (34 - Z.of_nat (S n))) with (34 - Z.of_nat n) by lia.
  split; [|apply Z.pow_lt_mono_r; lia]. destruct (decide (n = 2%nat)) as [->|].
  - right. split; [lia|]. reflexivity.
  - left. split; [lia|]. apply wrap_small. split; [apply Z.pow_nonneg; lia|apply Z.pow_lt_mono_r; lia].
Qed.

Lemma load_cache_loop_spec n a cap i ds live s :
  cap_ok n cap → v_data s !! a = Some i → vol_ok (i_vol i) →
  dir_holds rd g fuel (i_vol i) (i_first_cluster i) ds → owns s live →
  run h_panic (load_cache_loop rd g fuel n a cap) (λ rc s',
    v_nodes s' = v_nodes s ∧
    ((load_error rc ∧ owns s' live ∧ v_data s' = v_data s) ∨
     (rc = VFS_OK ∧ ∃ p sz c, owns s' ((p, sz) :: live) ∧ v_data s' = <[a := cached i p c ds]> (v_data s)))) s.
Proof.
  intros Hcap Hi Hvol Hdir. revert cap s Hcap Hi. induction n as [|n IH]; intros cap s Hcap Hi Ho; [destruct Hcap; lia|].
  cbn [load_cache_loop]. destruct (Z.gtb_spec cap 0) as [Hpos|].
  2: { run_step. split; [done|]. left. split; [by left|done]. }
  destruct (cap_double _ _ Hcap Hpos) as [Hnext Hlt]. run_step. unfold DIRENT_BYTES.
  apply (kmalloc_v_run _ live); [done|lia|..].
  { intros h Hh. run_if. run_step. split; [done|]. left. split; [by left|done]. }
  intros p sz h Hp _ Hh. destruct (Z.eqb_spec p 0); [done|]. run_step.
  eapply run_value; [unfold inode; cbn [v_data set_vheap]; by rewrite Hi|]. run_step. unfold on_heap. apply run_zoom.
  eapply run_mono; [apply (read_dir_spec rd image g fuel (i_vol i) (i_first_cluster i) cap ds ((p, sz) :: live)); [done..|lia|done]|].
  intros [ok out] h2 [Ho2 [[= -> ->]|[= -> ->]]]; cbn [negb].
  { run_step. eapply kfree_v_run; [exact Ho2|]. intros h3 Hh3. run_step. split; [done|]. left. split; [by right|done]. }
  rewrite length_take. destruct (Z.ltb_spec (Z.of_nat (Z.to_nat cap `min` length ds)) cap) as [Hfit|Hfull].
  - run_steps. split; [done|]. right. split; [done|]. exists p, sz, cap. split; [done|].
    unfold cached. rewrite take_ge by lia. done.
  - run_step. eapply kfree_v_run; [exact Ho2|]. intros h3 Hh3.
    eapply run_mono; [apply IH; [done|done|exact Hh3]|]. intros rc s' Hs'. exact Hs'.
Qed.

(** What the directory shows at [index]. *)
Definition shown (ds : list fat32_dirent_t) (index : Z) (out : vfs_dirent_t) : Z * vfs_dirent_t :=
  match ds !! Z.to_nat index with
  | Some d => (1, mkVdirent (cstr (name d)) (dirent_type (attributes d)))
  | None => (0, out)
  end.

Lemma name_prefix_cstr d :
  name_fits d = true → name_prefix VFS_NAME_MAX (name d) = cstr (name d) ∧ byte (length (cstr (name d))) (name d) = 0.
Proof.
  unfold name_fits, FAT32_NAME_MAX, VFS_NAME_MAX. rewrite Nat.ltb_lt. intros Hl.
  assert (length (name d) ≤ 255)%nat as Hle by lia. clear Hl. revert Hle. generalize 255%nat. generalize (name d).
  intros s. induction s as [|c s IH]; intros [|room] Hle; simpl in *; try lia; try done.
  destruct (Z.eqb_spec c 0) as [->|]; [done|]. destruct (IH room) as [-> Hb]; [lia|]. done.
Qed.

(** The end of [fat32_vfs_readdir], once the entry is known. *)
Lemma shown_name ds index out d :
  Forall (λ d, name_fits d = true) ds → ds !! Z.to_nat index = Some d →
  (if negb (byte (length (name_prefix VFS_NAME_MAX (name d))) (name d) =? 0) then (VFS_ERR_NAMETOOLONG, out)
   else (1, mkVdirent (name_prefix VFS_NAME_MAX (name d)) (dirent_type (attributes d)))) = shown ds index out.
Proof.
  intros Hfit Hd. unfold shown. rewrite Hd. eapply Forall_lookup_1 in Hfit; [|exact Hd].
  destruct (name_prefix_cstr d Hfit) as [-> ->]. done.
Qed.

(** The cached or on-demand entry, then the name. *)
Lemma readdir_entry_spec a i ds index out live s :
  v_data s !! a = Some i → vol_ok (i_vol i) → dir_holds rd g fuel (i_vol i) (i_first_cluster i) ds →
  (dir_cache_loaded i = true → dir_cache_entries i = ds) → 0 ≤ index < 2 ^ 64 → owns s live →
  run h_panic (readdir_entry rd g fuel i index out)
    (λ r s', (r = shown ds index out ∨ r = (VFS_ERR_NOMEM, out)) ∧ owns s' live ∧
       v_nodes s' = v_nodes s ∧ v_data s' = v_data s) s.
Proof.
  intros Hi Hvol Hdir Hc Hidx Ho. pose proof (dir_names_fit _ _ _ _ Hdir) as Hfit.
  assert (∀ d s', ds !! Z.to_nat index = Some d → owns s' live → v_nodes s' = v_nodes s → v_data s' = v_data s →
    run h_panic (let nm := name_prefix VFS_NAME_MAX (name d) in
       if negb (byte (length nm) (name d) =? 0) then ret (VFS_ERR_NAMETOOLONG, out)
       else ret (1, mkVdirent nm (dirent_type (attributes d))))
    (λ r s', (r = shown ds index out ∨ r = (VFS_ERR_NOMEM, out)) ∧ owns s' live ∧
       v_nodes s' = v_nodes s ∧ v_data s' = v_data s) s') as Hend.
  { intros d s' Hd ? ? ?. rewrite <- (shown_name ds index out d Hfit Hd). cbv zeta. destruct (negb _); run_step; auto. }
  unfold readdir_entry. run_step. destruct (dir_cache_loaded i).
  - rewrite Hc by done. destruct (Z.geb_spec index (Z.of_nat (length ds))).
    + run_step. run_step. split_and!; try done. left. unfold shown. rewrite lookup_ge_None_2; [done|lia].
    + destruct (ds !! Z.to_nat index) as [d|] eqn:Hd; [|apply lookup_ge_None in Hd; lia]. run_step. by apply Hend.
  - run_step. unfold on_heap. apply run_zoom.
    eapply run_mono; [by apply (readdir_index_spec rd image g _ _ _ _ _ ds live)|]. intros [rc ent] h [Hh [[= -> ->]|Hr]].
    + run_if. run_step. run_step. auto.
    + destruct (ds !! Z.to_nat index) as [d|] eqn:Hd; injection Hr as -> ->.
      * run_if. run_if. run_step. by apply Hend.
      * run_if. run_if. run_step. run_step. split_and!; try done. left. unfold shown. by rewrite Hd.
Qed.

(** C13. The directory cache is invisible: listing a FAT32 directory through the
    VFS returns the entry of that index (or 0 past the end) as the directory on
    disk defines it, whether the cache was loaded before, is loaded by this call
    or cannot be loaded for lack of memory; the cache-doubling loop terminates,
    and afterwards a loaded cache holds exactly the directory. The only errors
    are out of memory and the I/O error that a failed cluster-buffer allocation
    is reported as. *)
Theorem fat32_vfs_readdir_transparent dir a i ds index out live s :
  dir_node s dir a i ds → 0 ≤ index < 2 ^ 64 → owns s live →
  run h_panic (fat32_vfs_readdir rd g fuel dir index out) (λ r s',
    (r = shown ds index out ∨ (load_error r.1 ∧ r.2 = out)) ∧
    (∃ i', dir_node s' dir a i' ds) ∧
    (owns s' live ∨ ∃ p sz, owns s' ((p, sz) :: live))) s.
Proof.
  intros [(n & Hdir & Hn & Hna & Ha & Hty) Hi Hvol Hds Hc] Hidx Ho. unfold fat32_vfs_readdir.
  destruct (Z.eqb_spec dir 0); [done|]. run_step. eapply run_value; [unfold node; by rewrite Hn|]. rewrite Hna.
  destruct (Z.eqb_spec a 0); [done|]. run_step. eapply run_value; [unfold inode; by rewrite Hi|]. run_step.
  assert (∀ i' s' live', v_nodes s' = v_nodes s → v_data s' !! a = Some i' → vol_ok (i_vol i') →
    dir_holds rd g fuel (i_vol i') (i_first_cluster i') ds → (dir_cache_loaded i' = true → dir_cache_entries i' = ds) →
    owns s' live' → (live' = live ∨ ∃ p sz, live' = (p, sz) :: live) →
    ∀ rc, (rc <? 0) && negb (rc =? VFS_ERR_NOMEM) = false →
    run h_panic
      (if (rc <? 0) && negb (rc =? VFS_ERR_NOMEM) then ret (rc, out)
       else let! i := inode a in readdir_entry rd g fuel i index out)
      (λ r s', (r = shown ds index out ∨ (load_error r.1 ∧ r.2 = out)) ∧
        (∃ i', dir_node s' dir a i' ds) ∧ (owns s' live ∨ ∃ p sz, owns s' ((p, sz) :: live))) s') as Hrest.
  { intros i' s' live' HN Hi' Hvol' Hds' Hc' Ho' Hl rc ->. run_step. eapply run_value; [unfold inode; by rewrite Hi'|].
    eapply run_mono; [by apply (readdir_entry_spec a i' ds index out live')|].
    intros r s2 (Hr & Ho2 & HN2 & HD2). split_and!.
    - destruct Hr as [->| ->]; [by left|right]. split; [by left|done].
    - exists i'. split; [|by rewrite HD2|done..]. exists n. by rewrite HN2, HN.
    - destruct Hl as [->|(p & sz & ->)]; eauto. }
  destruct (dir_cache_loaded i) eqn:Hloaded.
  - run_step. by eapply Hrest; eauto.
  - unfold fat32_vfs_load_dir_cache. destruct (Z.eqb_spec a 0); [done|]. run_step.
    eapply run_value; [unfold inode; by rewrite Hi|]. rewrite Hloaded.
    eapply run_mono; [apply (load_cache_loop_spec 28 a 64 i ds live); try done; left; split; [lia|reflexivity]|].
    intros rc s' [HN [([->| ->] & Ho' & HD)|(-> & p & sz & c & Ho' & HD)]].
    + apply (Hrest i s' live); [done|by rewrite HD|done|done|by rewrite Hloaded|done|by left|done].
    + run_if. run_step. split_and!; [right; split; [by right|done]| |by left].
      exists i. split; [|by rewrite HD|done..|by rewrite Hloaded]. exists n. by rewrite HN.
    + apply (Hrest (cached i p c ds) s' ((p, sz) :: live)); [done|by rewrite HD, lookup_insert_eq|done..|by eauto|done].
Qed.
End Fat32VfsSpec.
