(* ===== verification/VfsDemo.v ===== *)
(** The small disk of FsDemo.v mounted at "/mnt": a file is found and opened
    through the VFS. The hypotheses of the VFS theorems hold on these states. *)

From S2P Require Import Prelude Disk Gpt Heap Fat32 Fat32Spec Fat32Props FsDemo Vfs VfsSpec Fat32Vfs Fat32VfsSpec.

#[local] Transparent demo_rd demo_gpt demo_vol cluster_bytes root_entries.

Abbreviation demo_state := (vfs_state fat32_ops fat32_vfs_inode_t demo_heap).
Abbreviation demo_ops := (fat32_ops_of demo_rd demo_gpt 10).

(** The state a computation leaves. *)
Definition after {A} (m : M demo_state A) (s : demo_state) : demo_state :=
  match m s with Ok (_, s') => s' | _ => s end.

Definition vfs0 : demo_state := mkVfs ∅ ∅ ∅ [] [].

(** "/mnt", "/mnt/" and "/mnt//HELLO.txt" *)
Definition mnt : list Z := [47; 109; 110; 116].
Definition mnt_slash : list Z := [47; 109; 110; 116; 47].
Definition hello_vpath : list Z := mnt ++ [47; 47; 72; 69; 76; 76; 79; 46; 116; 120; 116].

Definition vfs1 : demo_state := after (fat32_vfs_mount demo_rd demo_gpt 10 demo_vol mnt) vfs0.
Definition vfs2 : demo_state := after (vfs_open demo_ops hello_vpath 1) vfs1.

(** Mount, open and two reads across a cluster boundary. *)
Example demo_session :
  fat32_vfs_mount demo_rd demo_gpt 10 demo_vol mnt vfs0 = Ok (VFS_OK, vfs1) ∧
  (∃ f, vfs_open demo_ops hello_vpath 1 vfs1 = Ok ((VFS_OK, f), vfs2)).
Proof. split; [vm_compute; reflexivity|]. eexists. vm_compute. reflexivity. Qed.

(** Unmounting right after gives all memory back. *)
Example demo_unmount :
  v_heap (after (fat32_vfs_unmount mnt_slash) vfs2) = filter (λ b, b.1 ∈ (map_to_list (v_files vfs2)).*1) (v_heap vfs2).
Proof. vm_compute. reflexivity. Qed.

(** * Mount selection *)

Definition root_mount : vfs_mount_t := mkMount 16 32 [47] 1 100.
Definition mnt_mount : vfs_mount_t := mkMount 48 64 mnt 4 200.

Lemma vfs_longest_mount_wins_witness :
  match vfs_find_mount_for_path [root_mount; mnt_mount] hello_vpath 15 with
  | Some m => m ∈ [root_mount; mnt_mount] ∧ vfs_path_is_prefix hello_vpath 15 m = true ∧
      ∀ m', m' ∈ [root_mount; mnt_mount] → vfs_path_is_prefix hello_vpath 15 m' = true → m_path_len m' ≤ m_path_len m
  | None => ∀ m', m' ∈ [root_mount; mnt_mount] → vfs_path_is_prefix hello_vpath 15 m' = false
  end.
Proof.
  apply (vfs_longest_mount_wins [root_mount; mnt_mount] hello_vpath 15).
  repeat constructor; cbn; lia.
Defined.

Lemma vfs_prefix_is_by_component_witness :
  vfs_path_is_prefix hello_vpath (length hello_vpath) mnt_mount = true ↔
    m_path mnt_mount = [slash] ∨ hello_vpath = m_path mnt_mount ∨ ∃ rest, hello_vpath = m_path mnt_mount ++ slash :: rest.
Proof. apply (vfs_prefix_is_by_component mnt_mount hello_vpath); [by split|reflexivity]. Defined.

Lemma vfs_mount_length_truncates_witness :
  vfs_path_is_prefix mnt 4 (mkMount 16 32 (replicate (2 * 32768 + 1) 47)
    (u16 (Z.of_nat (length (replicate (2 * 32768 + 1) 47)))) 100) = true.
Proof.
  apply (vfs_mount_length_truncates 16 32 100 (replicate (2 * 32768 + 1) 47) mnt 4);
    [by rewrite length_replicate|reflexivity|lia].
Defined.

(** The mount at "/mnt" serves the path, and the walk finds the file. *)
Lemma vfs_resolve_path_walks_components_witness :
  (λ m, (m_path m, m_root m =? 0, components (below m hello_vpath))) <$>
    vfs_find_mount_for_path (g_mounts vfs1) hello_vpath (vfs_trim_path_len hello_vpath) =
    Some (mnt, false, [[72; 69; 76; 76; 79; 46; 116; 120; 116]]) ∧
  match vfs_resolve_path demo_ops hello_vpath vfs1 with Ok ((rc, n), _) => rc = VFS_OK ∧ n ≠ 0 | _ => False end ∧
  vfs_resolve_path demo_ops hello_vpath vfs1 =
    match vfs_find_mount_for_path (g_mounts vfs1) hello_vpath (vfs_trim_path_len hello_vpath) with
    | Some m => if m_root m =? 0 then Ok ((VFS_ERR_NOENT, 0), vfs1)
                else walk demo_ops (m_root m) (components (below m hello_vpath)) vfs1
    | None => Ok ((VFS_ERR_NOENT, 0), vfs1)
    end.
Proof.
  split; [vm_compute; reflexivity|]. split; [vm_compute; split; [reflexivity|discriminate]|].
  exact (vfs_resolve_path_walks_components demo_ops hello_vpath vfs1 eq_refl).
Defined.

(** * Child lists *)

(** A directory at 1 with the child "ab" at 2, and a loose node "c" at 3. *)
Definition plain (nm : list Z) (first : Z) : vfs_node_t fat32_ops :=
  mkNode 9 nm (Z.of_nat (length nm)) VFS_NODE_DIR 0 0 None 0 0 first 0.
Definition tree : demo_state :=
  mkVfs (<[1 := plain [100] 2]> (<[2 := plain [97; 98] 0]> (<[3 := plain [99] 0]> ∅))) ∅ ∅ [] [].

Lemma tree_children : children_of tree 1 [2].
Proof.
  split; [done|]. split; [apply NoDup_singleton|]. exists (plain [100] 2). split; [reflexivity|].
  split; [reflexivity|]. split; [done|]. exists (plain [97; 98] 0). by split.
Qed.

Lemma tree_names x n : x ∈ [2] → v_nodes tree !! x = Some n → Forall (λ c, 0 < c) (n_chars n).
Proof. intros ->%list_elem_of_singleton Hn. injection Hn as <-. repeat constructor. Qed.

Lemma vfs_find_child_correct_witness :
  vfs_find_child 1 [97; 98] tree = Ok (default 0 (List.find (named tree [97; 98]) [2]), tree).
Proof. exact (vfs_find_child_correct 1 [2] [97; 98] tree tree_children ltac:(repeat constructor) tree_names). Defined.

Lemma vfs_add_child_then_found_witness :
  ∃ s', vfs_add_child 1 3 tree = Ok (VFS_OK, s') ∧ children_of s' 1 [3; 2] ∧
    (∀ x, x ≠ 1 → x ≠ 3 → v_nodes s' !! x = v_nodes tree !! x) ∧
    vfs_find_child 1 (n_chars (plain [99] 0)) s' = Ok (3, s').
Proof.
  apply (vfs_add_child_then_found 1 3 [2] tree (plain [100] 2) (plain [99] 0) tree_children);
    [done|by intros ?%list_elem_of_singleton|done|by intros ?%list_elem_of_singleton
    |reflexivity|reflexivity|done|done|repeat constructor|exact tree_names].
Defined.

(** * Allocation and mounts *)

Lemma vfs0_owns : owns vfs0 [].
Proof. exact demo_heap_empty. Qed.

Lemma vfs_node_create_destroy_witness :
  run h_panic (vfs_node_create [97] VFS_NODE_DIR (Some fat32_dir_ops) 0) (λ a s1,
    (a = 0 ∧ v_nodes s1 = v_nodes vfs0 ∧ owns s1 []) ∨
    (a ≠ 0 ∧ (length [97] ≤ 255)%nat ∧
     wp (vfs_node_destroy a) (λ _ s2, v_nodes s2 = delete a (v_nodes vfs0) ∧ owns s2 []) s1)) vfs0.
Proof. exact (vfs_node_create_destroy [97] VFS_NODE_DIR (Some fat32_dir_ops) 0 [] vfs0 vfs0_owns). Defined.

Lemma vfs_mount_unmount_witness :
  run h_panic (vfs_mount demo_ops 100 mnt_slash) (λ rc s1,
    (rc = VFS_ERR_NOMEM ∧ g_mounts s1 = g_mounts vfs0 ∧ owns s1 []) ∨
    (rc = VFS_OK ∧ vfs_find_mount_for_path (g_mounts s1) mnt_slash (vfs_trim_path_len mnt_slash) ≠ None ∧
     wp (vfs_unmount_detach mnt_slash) (λ r s2,
       r = (VFS_OK, 100) ∧ g_mounts s2 = g_mounts vfs0 ∧ owns s2 []) s1)) vfs0.
Proof.
  apply (vfs_mount_unmount demo_ops 100 mnt_slash [] vfs0);
    [exact vfs0_owns|done|reflexivity|apply Nat.ltb_lt; reflexivity|reflexivity|by left].
Defined.

Lemma vfs_mount_twice_refused_witness :
  vfs_mount demo_ops 100 mnt_slash vfs1 = Ok (VFS_ERR_EXIST, vfs1).
Proof. apply (vfs_mount_twice_refused demo_ops 100 mnt_slash vfs1); [done|reflexivity|vm_compute; reflexivity]. Defined.

(** * The open file and the root directory *)

Definition hello_file : Z := 528384.
Definition hello_node : Z := 331776.
Definition root_node : Z := 4096.
Definition root_inode_addr : Z := 135168.

Definition at_node (a : Z) : vfs_node_t fat32_ops := default (plain [] 0) (v_nodes vfs2 !! a).
Definition no_inode : fat32_vfs_inode_t := mkInode demo_vol 0 0 0 0 [] 0 false.
Definition hello_inode : fat32_vfs_inode_t := default no_inode (v_data vfs2 !! n_data (at_node hello_node)).
Definition root_inode : fat32_vfs_inode_t := default no_inode (v_data vfs2 !! root_inode_addr).

Lemma demo_open_file : open_file demo_rd demo_gpt 10 vfs2 hello_file 0 (file_bytes hello_inode file_blocks).
Proof.
  split; [done|split; [done|vm_compute; discriminate]|vm_compute; reflexivity|].
  exists (mkFile hello_node 0 1), (at_node hello_node), hello_inode, file_blocks.
  split_and!; try (vm_compute; reflexivity); try (vm_compute; discriminate).
  - replace (i_vol hello_inode) with demo_vol by (vm_compute; reflexivity). exact demo_vol_ok.
  - replace (i_vol hello_inode) with demo_vol by (vm_compute; reflexivity).
    replace (i_first_cluster hello_inode) with 3 by (vm_compute; reflexivity). exact demo_file_chain.
  - cbn. lia.
Qed.

Lemma demo_root_node : dir_node demo_rd demo_gpt 10 vfs2 root_node root_inode_addr root_inode root_entries.
Proof.
  split; [|vm_compute; reflexivity|..].
  - exists (at_node root_node). split_and!; try (vm_compute; reflexivity); done.
  - replace (i_vol root_inode) with demo_vol by (vm_compute; reflexivity). exact demo_vol_ok.
  - replace (i_vol root_inode) with demo_vol by (vm_compute; reflexivity).
    replace (i_first_cluster root_inode) with 2 by (vm_compute; reflexivity). exact demo_root.
  - vm_compute. discriminate.
Qed.

Lemma vfs2_owns : owns vfs2 (v_heap vfs2).
Proof. split; [done|]. apply (bool_decide_unpack _). vm_compute. exact I. Qed.

Opaque vfs2 demo_rd demo_gpt demo_vol hello_inode root_inode file_blocks root_entries.

Lemma fat32_vfs_reads_are_sequential_witness :
  run h_panic (read_times demo_rd demo_gpt 10 3 hello_file 250) (λ r (s' : demo_state),
    owns s' (v_heap vfs2) ∧
    open_file demo_rd demo_gpt 10 s' hello_file (0 + Z.of_nat (length r.1)) (file_bytes hello_inode file_blocks) ∧
    (r.2 ≤ 3)%nat ∧
    r.1 = take (Z.to_nat 250 * (3 - r.2)) (drop (Z.to_nat 0) (file_bytes hello_inode file_blocks))) vfs2.
Proof.
  pose proof (fat32_vfs_reads_are_sequential (H := demo_heap) demo_rd demo_image demo_gpt 10 3 hello_file 0 250
    (file_bytes hello_inode file_blocks) (v_heap vfs2) vfs2) as Hthm.
  apply Hthm; [exact demo_open_file|reflexivity|exact vfs2_owns].
Defined.

Lemma fat32_vfs_readdir_transparent_witness :
  run h_panic (fat32_vfs_readdir demo_rd demo_gpt 10 root_node 0 (mkVdirent [] 0)) (λ r (s' : demo_state),
    (r = shown root_entries 0 (mkVdirent [] 0) ∨ (load_error r.1 ∧ r.2 = mkVdirent [] 0)) ∧
    (∃ i', dir_node demo_rd demo_gpt 10 s' root_node root_inode_addr i' root_entries) ∧
    (owns s' (v_heap vfs2) ∨ ∃ p sz, owns s' ((p, sz) :: v_heap vfs2))) vfs2.
Proof.
  pose proof (fat32_vfs_readdir_transparent (H := demo_heap) demo_rd demo_image demo_gpt 10 root_node root_inode_addr
    root_inode root_entries 0 (mkVdirent [] 0) (v_heap vfs2) vfs2) as Hthm.
  apply Hthm; [exact demo_root_node|split; [discriminate|reflexivity]|exact vfs2_owns].
Defined.
