(* ===== verification/Percpu.v ===== *)
(** The per-CPU table (arch/x86_64/cpu/percpu.h, kernel/cpu.c) and the start of
    the other processors (arch/x86_64/cpu/smp.c).

    [smp_init] runs on the boot processor; the boot loader's list of processors
    is its argument.  A started processor runs [smp_ap_entry_main]; the part of
    it before the scheduler takes over is [ap_bring_up].  The bounded wait for
    the processors to report at the end of [smp_init] only prints and is left
    out, as are the CPU-identification data of [cpu_t]. *)

From S2P Require Import Prelude Vmalloc VmallocSpec Kmalloc KernMem.

Definition MAX_CPUS : Z := 256.
Definition SMP_STACK_PAGES : Z := 4.
Definition SMP_STACK_SIZE : Z := SMP_STACK_PAGES * 0x1000.

(** apic.h: what the kernel knows of a processor's local interrupt controller. *)
Record lapic_info_t : Type := mkLapic {
  initialized : bool;
  bsp : bool;
  x2apic_supported : bool;
  x2apic_enabled : bool;
  apic_base_msr_raw : Z;
  apic_base_phys : Z;
  apic_base_virt : Z;
  lapic_apic_id : Z;
  apic_version : Z;
  max_lvt_entries : Z;
  spurious_vector : Z;
  timer_vector : Z;
  timer_initial_count : Z;
  timer_periodic : bool
}.
Definition zero_lapic : lapic_info_t := mkLapic false false false false 0 0 0 0 0 0 0 0 0 false.

Record cpu_t : Type := mkCpu {
  cpu_id : Z;
  apic_id : Z;
  is_bsp : bool;
  online : bool;
  lapic : lapic_info_t;
  lapic_timer_ticks : Z;
  lapic_timer_first_tick : bool;
  kernel_stack_top : Z
}.
Definition zero_cpu : cpu_t := mkCpu 0 0 false false zero_lapic 0 false 0.
Definition with_ids (id apic : Z) (bsp up : bool) (c : cpu_t) : cpu_t :=
  mkCpu id apic bsp up (lapic c) (lapic_timer_ticks c) (lapic_timer_first_tick c) (kernel_stack_top c).
Definition with_stack (top : Z) (c : cpu_t) : cpu_t :=
  mkCpu (cpu_id c) (apic_id c) (is_bsp c) (online c) (lapic c) (lapic_timer_ticks c) (lapic_timer_first_tick c) top.
Definition with_lapic (l : lapic_info_t) (ticks : Z) (first : bool) (c : cpu_t) : cpu_t :=
  mkCpu (cpu_id c) (apic_id c) (is_bsp c) (online c) l ticks first (kernel_stack_top c).

Record percpu : Type := mkPercpu {
  g_cpus : list cpu_t;
  g_cpu_count : Z
}.
Definition percpu_zero : percpu := mkPercpu (replicate (Z.to_nat MAX_CPUS) zero_cpu) 0.

Definition cpu_at (p : percpu) (i : nat) : cpu_t := nth i (g_cpus p) zero_cpu.

(** The loop of [cpu_self]: the first of the next [n] entries from [i] with this
    LAPIC id, else entry 0.  [smp_init] keeps [g_cpu_count]
    at most [MAX_CPUS], so the loop stays inside the array. *)
Fixpoint cpu_self_from (p : percpu) (me : Z) (n i : nat) : nat :=
  match n with
  | O => O
  | S n' => if apic_id (cpu_at p i) =? me then i else cpu_self_from p me n' (S i)
  end.

(** [cpu_self()] on the processor whose LAPIC id is [me]: the index of its entry. *)
Definition cpu_self (p : percpu) (me : Z) : nat := cpu_self_from p me (Z.to_nat (g_cpu_count p)) 0.

Definition set_cpu (i : nat) (c : cpu_t) (p : percpu) : percpu :=
  mkPercpu (<[i := c]> (g_cpus p)) (g_cpu_count p).
Definition set_cpu_count (n : Z) (p : percpu) : percpu := mkPercpu (g_cpus p) n.

(** * Starting the other processors *)

(** The boot loader's report: LAPIC id of the boot processor, and for each
    processor its LAPIC id ([None] for a null pointer). *)
Record mp_report : Type := mkMp {
  bsp_lapic_id : Z;
  mp_cpus : list (option Z)
}.

Section Smp.
Context {Mem : Type} `{!KernelMemory Mem}.

(** [mp_go]: the processors sent to [smp_ap_entry], as pairs of the position in
    the report and the entry handed over in [extra_argument]. *)
Record smp_state : Type := mkSmp {
  s_percpu : percpu;
  s_mem : Mem;
  mp_go : list (nat * nat)
}.

Definition smp_cpus (f : percpu → percpu) (s : smp_state) : smp_state :=
  mkSmp (f (s_percpu s)) (s_mem s) (mp_go s).
Definition smp_set_mem (m : Mem) (s : smp_state) : smp_state :=
  mkSmp (s_percpu s) m (mp_go s).
Definition smp_go (i n : nat) (s : smp_state) : smp_state :=
  mkSmp (s_percpu s) (s_mem s) (mp_go s ++ [(i, n)]).

(** The loop over the reported processors, from position [i] with [next_cpu] the
    next free entry; the result is the final [next_cpu]. *)
Fixpoint smp_start (bsp : Z) (cpus : list (option Z)) (i next_cpu : nat) : M smp_state nat :=
  match cpus with
  | [] => ret next_cpu
  | None :: cpus' => smp_start bsp cpus' (S i) next_cpu
  | Some lapic_id :: cpus' =>
      if lapic_id =? bsp then smp_start bsp cpus' (S i) next_cpu
      else if MAX_CPUS <=? Z.of_nat next_cpu then ret next_cpu
      else
        modify (smp_cpus (set_cpu next_cpu (with_ids (Z.of_nat next_cpu) lapic_id false false zero_cpu)));;
        let! stack := zoom s_mem smp_set_mem (mem_vmalloc SMP_STACK_SIZE VMALLOC_DEFAULT_FLAGS) in
        if stack =? 0 then smp_start bsp cpus' (S i) next_cpu
        else
          modify (smp_cpus (set_cpu next_cpu
            (with_stack (u64 (stack + SMP_STACK_SIZE)) (with_ids (Z.of_nat next_cpu) lapic_id false false zero_cpu))));;
          modify (smp_go i next_cpu);;
          smp_start bsp cpus' (S i) (S next_cpu)
  end.

Definition mark_bsp (p : percpu) : percpu :=
  let c := cpu_at p 0 in set_cpu 0 (with_ids 0 (apic_id c) true true c) p.

Definition smp_init (report : option mp_report) : M smp_state unit :=
  match report with
  | None | Some (mkMp _ []) =>
      modify (smp_cpus (set_cpu_count 1));;
      modify (smp_cpus mark_bsp)
  | Some (mkMp bsp cpus) =>
      modify (smp_cpus mark_bsp);;
      let! next_cpu := smp_start bsp cpus 0 1 in
      modify (smp_cpus (set_cpu_count (Z.of_nat next_cpu)))
  end.

(** [smp_ap_entry_main] up to [online = true], on entry [i]; [lapic_id] comes
    from the report, [lapic_ok] is the answer of [x86_lapic_ap_init]. *)
Definition ap_bring_up (i : nat) (lapic_id : option Z) (lapic_ok : bool) : M smp_state unit :=
  modify (smp_cpus (λ p, let c := cpu_at p i in
    set_cpu i (with_ids (cpu_id c) (default (apic_id c) lapic_id) false false c) p));;
  if lapic_ok then
    modify (smp_cpus (λ p, let c := cpu_at p i in
      set_cpu i (with_ids (cpu_id c) (apic_id c) (is_bsp c) true c) p))
  else λ _, Hang.
End Smp.
Arguments smp_state : clear implicits.
Arguments mkSmp {Mem}.

(** * The table is consistent *)

(** The first [n] entries are in use: numbered by position, with different LAPIC
    ids, the boot processor first. *)
Record cpus_ok (p : percpu) (n : nat) : Prop := {
  co_len : length (g_cpus p) = Z.to_nat MAX_CPUS;
  co_range : (1 ≤ n ≤ Z.to_nat MAX_CPUS)%nat;
  co_id i : (i < n)%nat → cpu_id (cpu_at p i) = Z.of_nat i;
  co_bsp i : (i < n)%nat → is_bsp (cpu_at p i) = bool_decide (i = 0%nat);
  co_apic i j : (i < n)%nat → (j < n)%nat → apic_id (cpu_at p i) = apic_id (cpu_at p j) → i = j
}.

Definition percpu_ok (p : percpu) : Prop :=
  g_cpu_count p = Z.of_nat (Z.to_nat (g_cpu_count p)) ∧ cpus_ok p (Z.to_nat (g_cpu_count p)).

Lemma cpu_at_set i j c p :
  (i < length (g_cpus p))%nat →
  cpu_at (set_cpu i c p) j = if decide (i = j) then c else cpu_at p j.
Proof.
  intros Hi. unfold cpu_at, set_cpu. simpl. rewrite !nth_lookup. destruct (decide (i = j)) as [->|].
  - by rewrite list_lookup_insert_eq.
  - by rewrite list_lookup_insert_ne.
Qed.

Lemma cpu_self_from_ok p me n i k :
  (k < n)%nat → apic_id (cpu_at p (i + k)) = me →
  (∀ j, (j < k)%nat → apic_id (cpu_at p (i + j)) ≠ me) →
  cpu_self_from p me n i = (i + k)%nat.
Proof.
  revert i k. induction n as [|n IH]; intros i k Hk He Hne; [lia|]. simpl. destruct k as [|k].
  - rewrite Nat.add_0_r in *. by rewrite (proj2 (Z.eqb_eq _ _) He).
  - pose proof (Hne 0%nat ltac:(lia)) as H0. rewrite Nat.add_0_r in H0.
    rewrite (proj2 (Z.eqb_neq _ _) H0). rewrite (IH (S i) k); [lia|lia| |].
    + by rewrite <- Nat.add_succ_comm in He.
    + intros j Hj. specialize (Hne (S j) ltac:(lia)). by rewrite <- Nat.add_succ_comm in Hne.
Qed.

Lemma cpu_self_own_entry p i me :
  percpu_ok p → (i < Z.to_nat (g_cpu_count p))%nat → apic_id (cpu_at p i) = me →
  cpu_self p me = i ∧ cpu_id (cpu_at p (cpu_self p me)) = Z.of_nat i.
Proof.
  intros [Hc Hok] Hi Ha. assert (cpu_self p me = i) as ->.
  { unfold cpu_self. erewrite (cpu_self_from_ok p me _ 0 i); [done|done|done|].
    intros j Hj He. simpl in *. assert (j = i); [|lia]. apply (co_apic _ _ Hok); lia || congruence. }
  split; [done|]. by apply (co_id _ _ Hok).
Qed.

(** Whoever asks, the answer is an entry with a valid number. *)
Lemma cpu_self_bound p me : percpu_ok p → (cpu_self p me < Z.to_nat (g_cpu_count p))%nat.
Proof.
  intros [_ Hok]. pose proof (co_range _ _ Hok) as Hr. unfold cpu_self.
  assert (∀ n i, (cpu_self_from p me n i = 0 ∨ cpu_self_from p me n i < i + n)%nat) as H.
  { induction n as [|n IH]; intros i; simpl; [auto|]. destruct (_ =? _); [right; lia|].
    destruct (IH (S i)) as [?|?]; [auto|right; lia]. }
  destruct (H (Z.to_nat (g_cpu_count p)) 0%nat); lia.
Qed.

Lemma cpu_self_id p me : percpu_ok p → 0 ≤ cpu_id (cpu_at p (cpu_self p me)) < MAX_CPUS.
Proof.
  intros Hp. pose proof (cpu_self_bound p me Hp) as Hb. destruct Hp as [_ Hok].
  rewrite (co_id _ _ Hok) by done. destruct Hok as [_ Hr _ _ _]. unfold MAX_CPUS in *. lia.
Qed.

(** * What smp_init establishes *)

Section SmpSpec.
Context {Mem : Type} `{!KernelMemory Mem, !KernelMemoryLaws Mem}.
Implicit Types s : smp_state Mem.

(** The stacks of entries [1 .. n-1]. *)
Definition ap_stacks (p : percpu) (n : nat) : list vmalloc_range_t :=
  (λ k, mkRange (kernel_stack_top (cpu_at p k) - SMP_STACK_SIZE) SMP_STACK_SIZE) <$> seq 1 (n - 1).

(** Every processor sent off was given an entry of its own with its LAPIC id. *)
Definition go_ok (report : list (option Z)) (p : percpu) (n : nat) (go : list (nat * nat)) : Prop :=
  go.*2 = seq 1 (n - 1) ∧
  ∀ i k, (i, k) ∈ go → report !! i = Some (Some (apic_id (cpu_at p k))).

Record smp_inv (bs : list (Z * Z)) (rs : list vmalloc_range_t) (report : list (option Z)) (n : nat) s : Prop := {
  sv_cpus : cpus_ok (s_percpu s) n;
  sv_mem : mem_owns (s_mem s) bs (ap_stacks (s_percpu s) n ++ rs);
  sv_go : go_ok report (s_percpu s) n (mp_go s)
}.

(** Entries below [n] do not change when entry [n] is written. *)
Lemma cpu_at_set_below p n c k : cpus_ok p n → (n < Z.to_nat MAX_CPUS)%nat → (k < n)%nat →
  cpu_at (set_cpu n c p) k = cpu_at p k.
Proof. intros Hok Hn Hk. rewrite cpu_at_set by (rewrite (co_len _ _ Hok); lia). by rewrite decide_False by lia. Qed.

Lemma ap_stacks_ext p q n : (∀ k, (k < n)%nat → cpu_at p k = cpu_at q k) → ap_stacks p n = ap_stacks q n.
Proof.
  intros H. unfold ap_stacks. apply list_fmap_ext. intros i k Hk. apply lookup_seq in Hk as [-> Hi].
  by rewrite H by lia.
Qed.

Lemma smp_inv_write bs rs report n c s :
  smp_inv bs rs report n s → (n < Z.to_nat MAX_CPUS)%nat →
  smp_inv bs rs report n (smp_cpus (set_cpu n c) s).
Proof.
  intros [Hok Hm [Hg1 Hg2]] Hn.
  assert (∀ k, (k < n)%nat → cpu_at (set_cpu n c (s_percpu s)) k = cpu_at (s_percpu s) k) as He.
  { intros k Hk. by apply cpu_at_set_below. }
  destruct Hok as [H1 H2 H3 H4 H5]. split.
  - split; simpl; [by rewrite length_insert|done|intros i Hi; rewrite He by done; auto..|].
    intros i j Hi Hj. rewrite !He by done. auto.
  - simpl. by rewrite (ap_stacks_ext _ (s_percpu s)).
  - split; [done|]. simpl. intros i k Hin. rewrite He; [by apply Hg2|].
    assert (k ∈ (mp_go s).*2) as Hk by (by apply (list_elem_of_fmap_2 snd _ (i, k))).
    rewrite Hg1 in Hk. apply elem_of_seq in Hk. lia.
Qed.

(** A processor with a fresh LAPIC id and a fresh stack joins. *)
Lemma smp_inv_join bs rs report n i id m a s :
  smp_inv bs rs report n s → (n < Z.to_nat MAX_CPUS)%nat →
  (∀ k, (k < n)%nat → apic_id (cpu_at (s_percpu s) k) ≠ id) →
  report !! i = Some (Some id) → 0 < a → a + SMP_STACK_SIZE < 2 ^ 64 →
  mem_owns m bs (mkRange a SMP_STACK_SIZE :: ap_stacks (s_percpu s) n ++ rs) →
  smp_inv bs rs report (S n)
    (smp_go i n (smp_cpus (set_cpu n (with_stack (u64 (a + SMP_STACK_SIZE))
      (with_ids (Z.of_nat n) id false false zero_cpu))) (smp_set_mem m s))).
Proof.
  intros Hinv Hn Hfresh Hrep Ha Hb Hm.
  rewrite wrap_small by (unfold in_width, SMP_STACK_SIZE, SMP_STACK_PAGES in *; lia).
  set (c := with_stack _ _). set (p' := set_cpu n c (s_percpu s)).
  destruct Hinv as [Hok _ [Hg1 Hg2]]. pose proof Hok as [H1 H2 H3 H4 H5].
  assert (∀ k, (k < n)%nat → cpu_at p' k = cpu_at (s_percpu s) k) as He by (intros; by apply cpu_at_set_below).
  assert (cpu_at p' n = c) as Hc by (unfold p'; rewrite cpu_at_set by lia; by rewrite decide_True).
  assert (∀ k, (k < S n)%nat → k = n ∨ (k < n)%nat) as Hcase by lia.
  split; simpl; fold p'.
  - split; [by simpl; rewrite length_insert|unfold MAX_CPUS in *; lia|..].
    + intros k [->|Hk]%Hcase; [by rewrite Hc|]. rewrite He by done. auto.
    + intros k [->|Hk]%Hcase; [|rewrite He by done; auto]. rewrite Hc. simpl. by rewrite bool_decide_false by lia.
    + intros k j [->|Hk]%Hcase [->|Hj]%Hcase; [done|..]; rewrite ?Hc, ?He by done; simpl; intros Heq; [..|auto].
      * by destruct (Hfresh j Hj).
      * by destruct (Hfresh k Hk).
  - eapply mem_owns_perm; [done| |exact Hm]. replace (ap_stacks p' (S n)) with (ap_stacks p' n ++ [mkRange a SMP_STACK_SIZE]).
    + rewrite <- app_assoc. simpl. rewrite <- Permutation_middle. by rewrite (ap_stacks_ext _ _ _ He).
    + unfold ap_stacks. replace (S n - 1)%nat with (S (n - 1)) by lia. rewrite seq_S, fmap_app. simpl.
      replace (S (n - 1)) with n by lia. rewrite Hc. simpl. do 3 f_equal. lia.
  - split.
    + rewrite fmap_app, Hg1. simpl. replace (n - 0)%nat with (S (n - 1)) by lia. rewrite seq_S. do 2 f_equal. lia.
    + intros j k [Hin|Hin%list_elem_of_singleton]%elem_of_app.
      * rewrite He; [by apply Hg2|]. assert (k ∈ (mp_go s).*2) as Hk by (by apply (list_elem_of_fmap_2 snd _ (j, k))).
        rewrite Hg1 in Hk. apply elem_of_seq in Hk. lia.
      * injection Hin as -> ->. by rewrite Hc.
Qed.

Lemma smp_start_spec bs rs report bsp cpus i n s :
  smp_inv bs rs report n s → drop i report = cpus → NoDup (omap (λ x, x) cpus) →
  (∀ id k, Some id ∈ cpus → id ≠ bsp → (k < n)%nat → apic_id (cpu_at (s_percpu s) k) ≠ id) →
  run vm_panic (smp_start bsp cpus i n)
    (λ n' s', smp_inv bs rs report n' s' ∧ cpu_at (s_percpu s') 0 = cpu_at (s_percpu s) 0) s.
Proof.
  revert i n s. induction cpus as [|[id|] cpus IH]; intros i n s Hinv Hdrop Hnd Hfresh; simpl.
  { by run_step. }
  2: { apply IH; [done| |done|].
       - replace (S i) with (i + 1)%nat by lia. by rewrite <- drop_drop, Hdrop.
       - intros id k Hin. apply Hfresh. by right. }
  assert (report !! i = Some (Some id)) as Hrep.
  { rewrite <- (Nat.add_0_r i), <- lookup_drop, Hdrop. done. }
  assert (drop (S i) report = cpus) as Hdrop'.
  { replace (S i) with (i + 1)%nat by lia. by rewrite <- drop_drop, Hdrop. }
  simpl in Hnd. apply NoDup_cons in Hnd as [Hni Hnd].
  assert (∀ id' k, Some id' ∈ cpus → id' ≠ bsp → (k < n)%nat → apic_id (cpu_at (s_percpu s) k) ≠ id') as Hfresh'.
  { intros id' k Hin. apply Hfresh. by right. }
  destruct (Z.eqb_spec id bsp) as [->|Hne]; [by apply IH|].
  destruct (Z.leb_spec MAX_CPUS (Z.of_nat n)) as [Hge|Hlt]; [by run_step|].
  assert (n < Z.to_nat MAX_CPUS)%nat as Hn by lia. pose proof (co_range _ _ (sv_cpus _ _ _ _ _ Hinv)) as Hr.
  run_step. run_step. run_step. apply run_zoom.
  set (s1 := smp_cpus _ s). pose proof (smp_inv_write bs rs report n (with_ids (Z.of_nat n) id false false zero_cpu) s Hinv Hn) as Hinv1.
  assert (∀ k, (k < n)%nat → cpu_at (s_percpu s1) k = cpu_at (s_percpu s) k) as He1.
  { intros k Hk. apply cpu_at_set_below; [apply Hinv|done|done]. }
  eapply run_mono; [apply (mem_vmalloc_spec _ _ _ _ _ (sv_mem _ _ _ _ _ Hinv1)); by vm_compute|].
  intros a m [[-> Hm]|(Ha & Hal & Hb & Hm)].
  - cbn [Z.eqb]. cbv iota. rewrite <- (He1 0%nat) by lia. apply (IH (S i) n (smp_set_mem m s1)); [|done|done|].
    + destruct Hinv1. by split.
    + intros id' k Hin Hb' Hk. simpl. rewrite He1 by done. by apply Hfresh'.
  - rewrite (proj2 (Z.eqb_neq _ _)) by lia. run_step. run_step. run_step. run_step.
    eapply run_mono; [apply (IH (S i) (S n)); [|done|done|]|].
    + eapply (smp_inv_join bs rs report n i id m a s1); try done.
      intros k Hk. rewrite He1 by done. apply Hfresh; [by left|done|done].
    + intros id' k Hin Hb' Hk. simpl. rewrite cpu_at_set by (simpl; rewrite length_insert, (co_len _ _ (sv_cpus _ _ _ _ _ Hinv)); done).
      destruct (decide (n = k)) as [->|Hnk].
      * simpl. intros ->. apply Hni. apply list_elem_of_omap. by exists (Some id').
      * rewrite He1 by lia. apply Hfresh'; [done|done|lia].
    + intros n' s' [? He']. split; [done|]. rewrite He'. simpl.
      rewrite cpu_at_set by (simpl; rewrite length_insert, (co_len _ _ (sv_cpus _ _ _ _ _ Hinv)); done).
      rewrite decide_False by lia. apply He1. lia.
Qed.

Lemma smp_inv_boot bs rs report s :
  length (g_cpus (s_percpu s)) = Z.to_nat MAX_CPUS → mp_go s = [] → mem_owns (s_mem s) bs rs →
  smp_inv bs rs report 1 (smp_cpus mark_bsp s).
Proof.
  intros Hl Hg Hm. assert (∀ k, (k < 1)%nat → k = 0%nat) as H0 by lia. split.
  - split; [simpl; by rewrite length_insert|unfold MAX_CPUS; lia|..].
    + intros i ->%H0. simpl. unfold mark_bsp. by rewrite cpu_at_set by (rewrite Hl; unfold MAX_CPUS; lia).
    + intros i ->%H0. simpl. unfold mark_bsp. by rewrite cpu_at_set by (rewrite Hl; unfold MAX_CPUS; lia).
    + by intros i j ->%H0 ->%H0.
  - done.
  - simpl. rewrite Hg. split; [done|]. intros i k Hin. by apply not_elem_of_nil in Hin.
Qed.

(** C36. Bringing up the other processors: the table lists the boot processor and the
    started ones, each numbered by its position and with its own LAPIC id, so
    that on every processor [cpu_self] finds that processor's own entry; each
    started processor has a stack of its own that overlaps nothing else, and
    was sent off with exactly its entry.  Memory shortage only means fewer
    processors; the only panics are those of the page mapper. *)
Theorem smp_init_correct bs rs bsp cpus s :
  length (g_cpus (s_percpu s)) = Z.to_nat MAX_CPUS → mp_go s = [] →
  mem_owns (s_mem s) bs rs →
  apic_id (cpu_at (s_percpu s) 0) = bsp → NoDup (omap (λ x, x) cpus) →
  run vm_panic (smp_init (Some (mkMp bsp cpus))) (λ _ s', ∃ n,
    g_cpu_count (s_percpu s') = Z.of_nat n ∧ 1 ≤ Z.of_nat n ≤ MAX_CPUS ∧
    (∀ i, (i < n)%nat →
       cpu_id (cpu_at (s_percpu s') i) = Z.of_nat i ∧
       cpu_self (s_percpu s') (apic_id (cpu_at (s_percpu s') i)) = i) ∧
    (mp_go s').*2 = seq 1 (n - 1) ∧
    (∀ i k, (i, k) ∈ mp_go s' → cpus !! i = Some (Some (apic_id (cpu_at (s_percpu s') k)))) ∧
    pairwise_disjoint (ap_stacks (s_percpu s') n ++ rs) ∧
    mem_owns (s_mem s') bs (ap_stacks (s_percpu s') n ++ rs)) s.
Proof.
  intros Hl Hg Hm Hb Hnd.
  assert (∀ n s', smp_inv bs rs cpus n s' → g_cpu_count (s_percpu s') = Z.of_nat n →
    1 ≤ Z.of_nat n ≤ MAX_CPUS ∧
    (∀ i, (i < n)%nat → cpu_id (cpu_at (s_percpu s') i) = Z.of_nat i ∧
       cpu_self (s_percpu s') (apic_id (cpu_at (s_percpu s') i)) = i) ∧
    (mp_go s').*2 = seq 1 (n - 1) ∧
    (∀ i k, (i, k) ∈ mp_go s' → cpus !! i = Some (Some (apic_id (cpu_at (s_percpu s') k)))) ∧
    pairwise_disjoint (ap_stacks (s_percpu s') n ++ rs) ∧
    mem_owns (s_mem s') bs (ap_stacks (s_percpu s') n ++ rs)) as Hend.
  { intros n s' [Hok Hm' [Hg1 Hg2]] Hn. pose proof (co_range _ _ Hok) as Hr.
    split; [unfold MAX_CPUS in *; lia|]. split; [|by split_and!; try done; eapply mem_owns_regions].
    intros i Hi. split; [by apply (co_id _ _ Hok)|]. eapply cpu_self_own_entry; [split|..|done].
    - rewrite Hn. lia.
    - by rewrite Hn, Nat2Z.id.
    - rewrite Hn. lia. }
  pose proof (smp_inv_boot bs rs cpus s Hl Hg Hm) as Hboot.
  unfold smp_init. destruct cpus as [|c cpus].
  - run_steps. exists 1%nat. split; [done|]. by apply Hend; [apply smp_inv_boot|].
  - run_step. run_step. run_step. eapply run_mono; [apply (smp_start_spec bs rs (c :: cpus)); try done|].
    + intros id k Hin Hne Hk. assert (k = 0%nat) as -> by lia. simpl. unfold mark_bsp.
      rewrite cpu_at_set by (rewrite Hl; unfold MAX_CPUS; lia). simpl. by rewrite Hb.
    + intros n s' [[Hok Hm' Hg'] _]. run_step. exists n. split; [done|]. apply Hend; [|done].
      split; [|done|done]. destruct Hok. by split.
Qed.
End SmpSpec.
