(* ===== verification/Sched.v ===== *)
(** The scheduler (kernel/sched.h, kernel/sched.c): a run queue per processor
    and a round-robin switch on every timer tick.

    Tasks are records in [task_mem], linked through their [next] field; the
    bootstrap task that [sched_cpu_t] embeds lives at [boot_task i], below every
    heap address.  [frame_mem] is the memory of saved interrupt frames.
    Functions that call [cpu_self] take the LAPIC id [me] of the processor they
    run on. *)

From S2P Require Import Prelude Vmalloc VmallocSpec Kmalloc KernMem Percpu.

Definition SCHED_STACK_SIZE : Z := 16 * 1024.
Definition SCHED_LAPIC_FALLBACK_COUNT : Z := 1000000.
Definition SCHED_TICK_VECTOR : Z := 0x20.
Definition X86_GDT_CODE_SEGMENT : Z := 0x08.

(** isr.h: what the interrupt stubs push, 20 words. *)
Record interrupt_frame : Type := mkFrame {
  r15 : Z; r14 : Z; r13 : Z; r12 : Z; r11 : Z; r10 : Z; r9 : Z; r8 : Z;
  rbp : Z; rdi : Z; rsi : Z; rdx : Z; rcx : Z; rbx : Z; rax : Z;
  vector : Z; error_code : Z;
  rip : Z; cs : Z; rflags : Z
}.
Definition FRAME_BYTES : Z := 160.

Inductive task_state_t : Type := TASK_RUNNABLE | TASK_ZOMBIE.
#[export] Instance task_state_t_eq_dec : EqDecision task_state_t.
Proof. solve_decision. Defined.

Record sched_task_t : Type := mkTask {
  t_frame : Z;
  stack_base : Z;
  stack_size : Z;
  t_state : task_state_t;
  t_next : Z
}.
(** [sizeof(sched_task_t)] *)
Definition TASK_BYTES : Z := 40.
Definition zero_task : sched_task_t := mkTask 0 0 0 TASK_RUNNABLE 0.
Definition with_next (n : Z) (t : sched_task_t) : sched_task_t :=
  mkTask (t_frame t) (stack_base t) (stack_size t) (t_state t) n.
Definition with_frame (f : Z) (t : sched_task_t) : sched_task_t :=
  mkTask f (stack_base t) (stack_size t) (t_state t) (t_next t).

Record sched_cpu_t : Type := mkScpu {
  current : Z;
  runq_head : Z;
  runq_tail : Z;
  ticks : Z
}.
Definition zero_scpu : sched_cpu_t := mkScpu 0 0 0 0.

(** [&g_sched_cpus[i].bootstrap] *)
Definition boot_task (i : nat) : Z := - Z.of_nat (S i).

Record sched_state (Mem : Type) : Type := mkSched {
  g_sched_cpus : list sched_cpu_t;
  task_mem : gmap Z sched_task_t;
  frame_mem : gmap Z interrupt_frame;
  g_sched_lock : bool;
  g_sched_lapic_init_count : Z;
  g_sched_ready : bool;
  lapic_timers : list (Z * Z);   (** vector and count of each timer start *)
  sc_percpu : percpu;
  sc_mem : Mem
}.
Arguments mkSched {Mem}. Arguments g_sched_cpus {Mem}. Arguments task_mem {Mem}.
Arguments frame_mem {Mem}. Arguments g_sched_lock {Mem}. Arguments g_sched_lapic_init_count {Mem}.
Arguments g_sched_ready {Mem}. Arguments lapic_timers {Mem}. Arguments sc_percpu {Mem}. Arguments sc_mem {Mem}.

Section Sched.
Context {Mem : Type} `{!KernelMemory Mem}.
Abbreviation state := (sched_state Mem).
Implicit Types s : state.

Definition set_scpus (l : list sched_cpu_t) s : state :=
  mkSched l (task_mem s) (frame_mem s) (g_sched_lock s) (g_sched_lapic_init_count s) (g_sched_ready s)
    (lapic_timers s) (sc_percpu s) (sc_mem s).
Definition set_tasks (m : gmap Z sched_task_t) s : state :=
  mkSched (g_sched_cpus s) m (frame_mem s) (g_sched_lock s) (g_sched_lapic_init_count s) (g_sched_ready s)
    (lapic_timers s) (sc_percpu s) (sc_mem s).
Definition set_frames (m : gmap Z interrupt_frame) s : state :=
  mkSched (g_sched_cpus s) (task_mem s) m (g_sched_lock s) (g_sched_lapic_init_count s) (g_sched_ready s)
    (lapic_timers s) (sc_percpu s) (sc_mem s).
Definition set_sched_lock (b : bool) s : state :=
  mkSched (g_sched_cpus s) (task_mem s) (frame_mem s) b (g_sched_lapic_init_count s) (g_sched_ready s)
    (lapic_timers s) (sc_percpu s) (sc_mem s).
Definition set_init_count (n : Z) s : state :=
  mkSched (g_sched_cpus s) (task_mem s) (frame_mem s) (g_sched_lock s) n (g_sched_ready s)
    (lapic_timers s) (sc_percpu s) (sc_mem s).
Definition set_ready s : state :=
  mkSched (g_sched_cpus s) (task_mem s) (frame_mem s) (g_sched_lock s) (g_sched_lapic_init_count s) true
    (lapic_timers s) (sc_percpu s) (sc_mem s).
Definition add_timer (t : Z * Z) s : state :=
  mkSched (g_sched_cpus s) (task_mem s) (frame_mem s) (g_sched_lock s) (g_sched_lapic_init_count s)
    (g_sched_ready s) (lapic_timers s ++ [t]) (sc_percpu s) (sc_mem s).
Definition set_sc_percpu (p : percpu) s : state :=
  mkSched (g_sched_cpus s) (task_mem s) (frame_mem s) (g_sched_lock s) (g_sched_lapic_init_count s)
    (g_sched_ready s) (lapic_timers s) p (sc_mem s).
Definition set_sc_mem (m : Mem) s : state :=
  mkSched (g_sched_cpus s) (task_mem s) (frame_mem s) (g_sched_lock s) (g_sched_lapic_init_count s)
    (g_sched_ready s) (lapic_timers s) (sc_percpu s) m.

Definition sched_lock : M state unit := acquire g_sched_lock set_sched_lock.
Definition sched_unlock : M state unit := release set_sched_lock.

(** Memory accesses: the task at an address, one entry of [g_sched_cpus]. *)
Definition task (t : Z) : M state sched_task_t :=
  λ s, match task_mem s !! t with Some tk => Ok (tk, s) | None => Fault end.
Definition update_task (t : Z) (f : sched_task_t → sched_task_t) : M state unit :=
  let! tk := task t in modify (λ s, set_tasks (<[t := f tk]> (task_mem s)) s).
Definition scpu (i : nat) : M state sched_cpu_t :=
  λ s, match g_sched_cpus s !! i with Some c => Ok (c, s) | None => Fault end.
Definition set_scpu (i : nat) (c : sched_cpu_t) : M state unit :=
  modify (λ s, set_scpus (<[i := c]> (g_sched_cpus s)) s).

(** * Run queue *)

Definition runq_push (i : nat) (t : Z) : M state unit :=
  update_task t (with_next 0);;
  let! c := scpu i in
  if runq_head c =? 0 then set_scpu i (mkScpu (current c) t t (ticks c))
  else
    update_task (runq_tail c) (with_next t);;
    set_scpu i (mkScpu (current c) (runq_head c) t (ticks c)).

Definition runq_pop (i : nat) : M state Z :=
  let! c := scpu i in
  let t := runq_head c in
  if t =? 0 then ret 0
  else
    let! tk := task t in
    let head := t_next tk in
    set_scpu i (mkScpu (current c) head (if head =? 0 then 0 else runq_tail c) (ticks c));;
    update_task t (with_next 0);;
    ret t.

(** * Initialisation *)

Definition sched_init_cpu (i : nat) : M state unit :=
  modify (λ s, set_tasks (<[boot_task i := zero_task]> (task_mem s)) s);;
  set_scpu i (mkScpu (boot_task i) 0 0 0).

Definition sched_is_ready s : bool := g_sched_ready s.

(** [calibrated] is the answer of [x86_lapic_timer_calibrate]; the answer of
    [x86_lapic_timer_start] is only printed. *)
Definition sched_init (calibrated : option Z) : M state unit :=
  let! s := get in
  if g_sched_ready s then ret tt
  else
    (if g_cpu_count (sc_percpu s) =? 0 then modify (λ s, set_sc_percpu (set_cpu_count 1 (sc_percpu s)) s)
     else ret tt);;
    let! s := get in
    let! _ := for_loop (Z.to_nat (g_cpu_count (sc_percpu s))) 0 1 (λ i,
      sched_init_cpu (Z.to_nat i);; ret (@None unit)) in
    let init_count := default SCHED_LAPIC_FALLBACK_COUNT calibrated in
    modify (set_init_count init_count);;
    modify (add_timer (SCHED_TICK_VECTOR, init_count));;
    modify set_ready.

(** [cpu_self()->cpu_id] *)
Definition self_id (me : Z) s : Z := cpu_id (cpu_at (sc_percpu s) (cpu_self (sc_percpu s) me)).

Definition sched_ap_init (me : Z) : M state unit :=
  let! s := get in
  let id := self_id me s in
  (if id <? g_cpu_count (sc_percpu s) then
     let! c := scpu (Z.to_nat id) in
     if current c =? 0 then sched_init_cpu (Z.to_nat id) else ret tt
   else ret tt);;
  let! n := gets g_sched_lapic_init_count in
  (if n =? 0 then modify (set_init_count SCHED_LAPIC_FALLBACK_COUNT) else ret tt);;
  let! n := gets g_sched_lapic_init_count in
  modify (add_timer (SCHED_TICK_VECTOR, n)).

(** * The tick *)

Definition sched_on_tick (me frame : Z) : M state Z :=
  let! id := gets (self_id me) in
  if MAX_CPUS <=? id then ret frame
  else
    let i := Z.to_nat id in
    sched_lock;;
    let! c := scpu i in
    let cur := if current c =? 0 then boot_task i else current c in
    set_scpu i (mkScpu cur (runq_head c) (runq_tail c) (u64 (ticks c + 1)));;
    update_task cur (with_frame frame);;
    if runq_head c =? 0 then sched_unlock;; ret frame
    else
      let! next := runq_pop i in
      if (next =? 0) || (next =? cur) then sched_unlock;; ret frame
      else
        let! nt := task next in
        if t_frame nt =? 0 then sched_unlock;; ret frame
        else
          let! ct := task cur in
          (if decide (t_state ct = TASK_RUNNABLE) then runq_push i cur else ret tt);;
          let! c := scpu i in
          set_scpu i (mkScpu next (runq_head c) (runq_tail c) (ticks c));;
          let! nt := task next in
          sched_unlock;;
          ret (t_frame nt).

(** * New threads *)

(** The frame a new thread starts from: it returns into the trampoline, which
    enables interrupts and calls [entry(arg)]. *)
Definition start_frame (trampoline entry arg : Z) : interrupt_frame :=
  mkFrame 0 0 0 0 0 0 0 0 0 entry arg 0 0 0 0 0 0 trampoline X86_GDT_CODE_SEGMENT 0x202.

(** [trampoline] is the address of [sched_thread_trampoline]. *)
Definition sched_spawn (trampoline me entry arg : Z) : M state Z :=
  if entry =? 0 then ret (-1)
  else
    let! t := zoom sc_mem set_sc_mem (mem_kmalloc TASK_BYTES) in
    if t =? 0 then ret (-1)
    else
      let! stack := zoom sc_mem set_sc_mem (mem_vmalloc SCHED_STACK_SIZE VMALLOC_DEFAULT_FLAGS) in
      if stack =? 0 then
        zoom sc_mem set_sc_mem (mem_kfree t);;
        ret (-1)
      else
        let top := u64 (stack + SCHED_STACK_SIZE) in
        let frame := u64 (top - FRAME_BYTES) in
        modify (λ s, set_frames (<[frame := start_frame trampoline entry arg]> (frame_mem s)) s);;
        modify (λ s, set_tasks (<[t := mkTask frame stack SCHED_STACK_SIZE TASK_RUNNABLE 0]> (task_mem s)) s);;
        let! id := gets (self_id me) in
        if MAX_CPUS <=? id then
          zoom sc_mem set_sc_mem (mem_vfree stack SCHED_STACK_SIZE);;
          zoom sc_mem set_sc_mem (mem_kfree t);;
          ret (-1)
        else
          sched_lock;;
          runq_push (Z.to_nat id) t;;
          sched_unlock;;
          ret 0.
End Sched.

(** The state before [sched_init]: [g_sched_cpus] is zero, so each embedded
    bootstrap task is runnable with a null frame. *)
Definition sched_zero {Mem} (p : percpu) (m : Mem) : sched_state Mem :=
  mkSched (replicate (Z.to_nat MAX_CPUS) zero_scpu)
    (list_to_map ((λ i, (boot_task i, zero_task)) <$> seq 0 (Z.to_nat MAX_CPUS)))
    ∅ false 0 false [] p m.
