(* ===== verification/SchedSpec.v ===== *)
(** Correctness of the scheduler.  Per processor the linked queue implements a
    first-in first-out list of tasks ([acpu]); a tick is one round-robin step of
    it.  From this refinement follow fairness under any interleaving of ticks
    and spawns, on any processor, and the ownership account of [sched_spawn]. *)

From S2P Require Import Prelude Vmalloc VmallocSpec Kmalloc KernMem Percpu Sched.

(** * Abstract scheduler *)

(** The running task and the waiting ones, next first. *)
Record acpu : Type := mkAcpu {
  a_cur : Z;
  a_queue : list Z
}.
Definition tasks_of (a : acpu) : list Z := a_cur a :: a_queue a.

Definition abs_tick (a : acpu) : acpu :=
  match a_queue a with
  | [] => a
  | t :: q => mkAcpu t (q ++ [a_cur a])
  end.
Definition abs_spawn (t : Z) (a : acpu) : acpu := mkAcpu (a_cur a) (a_queue a ++ [t]).

Lemma tasks_of_tick a : tasks_of (abs_tick a) ≡ₚ tasks_of a.
Proof.
  destruct a as [c [|t q]]; [done|]. unfold tasks_of, abs_tick. simpl.
  rewrite <- Permutation_cons_append. apply Permutation_swap.
Qed.

Lemma tasks_of_spawn t a : tasks_of (abs_spawn t a) ≡ₚ t :: tasks_of a.
Proof.
  unfold tasks_of, abs_spawn. simpl. rewrite <- Permutation_cons_append. apply Permutation_swap.
Qed.

(** * The linked queue *)

Fixpoint links (m : gmap Z sched_task_t) (a : Z) (q : list Z) : Prop :=
  match q with
  | [] => a = 0
  | t :: q' => a = t ∧ t ≠ 0 ∧ ∃ tk, m !! t = Some tk ∧ links m (t_next tk) q'
  end.

(** The task records agree up to their links. *)
Definition relinked (m m' : gmap Z sched_task_t) : Prop :=
  ∀ x, with_next 0 <$> m' !! x = with_next 0 <$> m !! x.

#[export] Instance relinked_equiv : Equivalence relinked.
Proof.
  split; unfold relinked; [done|intros m m' H x; by rewrite H|].
  intros m1 m2 m3 H H' x. by rewrite H', H.
Qed.

Lemma relinked_insert m t tk n : m !! t = Some tk → relinked m (<[t := with_next n tk]> m).
Proof.
  intros Ht x. destruct (decide (x = t)) as [->|].
  - by rewrite lookup_insert_eq, Ht.
  - by rewrite lookup_insert_ne.
Qed.

Lemma relinked_lookup m m' x tk :
  relinked m m' → m !! x = Some tk → ∃ n, m' !! x = Some (with_next n tk).
Proof.
  intros H Hx. specialize (H x). rewrite Hx in H. destruct (m' !! x) as [tk'|]; [|done].
  simpl in H. injection H as H. exists (t_next tk'). f_equal. destruct tk, tk'. unfold with_next in *. simpl in *.
  congruence.
Qed.

Lemma links_agree m m' a q : (∀ x, x ∈ q → m' !! x = m !! x) → links m a q → links m' a q.
Proof.
  revert a. induction q as [|t q IH]; intros a He; simpl; [done|]. intros (-> & Hn & tk & Ht & Hl).
  split; [done|]. split; [done|]. exists tk. rewrite He by set_solver. split; [done|].
  apply IH; [|done]. set_solver.
Qed.

Lemma links_snoc m a q l t :
  links m a q → NoDup (q ++ [t]) → last q = Some l → t ≠ 0 → (∃ tk, m !! t = Some tk ∧ t_next tk = 0) →
  ∀ lk, m !! l = Some lk → links (<[l := with_next t lk]> m) a (q ++ [t]).
Proof.
  intros Hl Hnd Hlast Ht (tk & Htk & Hn) lk Hlk.
  revert a Hl Hnd Hlast. induction q as [|x q IH]; [done|].
  intros a (-> & Hx & xk & Hxk & Hl) Hnd Hlast. simpl in Hnd. apply NoDup_cons in Hnd as [Hni Hnd].
  simpl. split; [done|]. split; [done|]. destruct q as [|y q].
  - injection Hlast as ->. rewrite lookup_insert_eq. eexists. split; [done|]. simpl. split; [done|]. split; [done|].
    exists tk. rewrite lookup_insert_ne; [done|]. intros ->. apply Hni. set_solver.
  - assert (l ∈ y :: q) as Hin by (by apply last_Some_elem_of).
    rewrite lookup_insert_ne by (intros ->; apply Hni; set_solver). exists xk. split; [done|]. by apply IH.
Qed.

(** Processor [i] of the code stands for the abstract processor [a]. *)
Definition cpu_rep (m : gmap Z sched_task_t) (i : nat) (c : sched_cpu_t) (a : acpu) : Prop :=
  (if current c =? 0 then boot_task i else current c) = a_cur a ∧
  links m (runq_head c) (a_queue a) ∧
  runq_tail c = default 0 (last (a_queue a)).

Section Queue.
Context {Mem : Type}.
Implicit Types s : sched_state Mem.

Lemma task_run E t tk s (Q : sched_task_t → sched_state Mem → Prop) :
  task_mem s !! t = Some tk → Q tk s → run E (task t) Q s.
Proof. unfold run, task. by intros ->. Qed.

Lemma scpu_run E i c s (Q : sched_cpu_t → sched_state Mem → Prop) :
  g_sched_cpus s !! i = Some c → Q c s → run E (scpu i) Q s.
Proof. unfold run, scpu. by intros ->. Qed.

Lemma update_task_run E t tk f s (Q : unit → sched_state Mem → Prop) :
  task_mem s !! t = Some tk → Q tt (set_tasks (<[t := f tk]> (task_mem s)) s) →
  run E (update_task t f) Q s.
Proof. intros Ht HQ. apply run_bind. by eapply task_run. Qed.

Lemma set_scpu_run E i c s (Q : unit → sched_state Mem → Prop) :
  Q tt (set_scpus (<[i := c]> (g_sched_cpus s)) s) → run E (set_scpu i c) Q s.
Proof. done. Qed.

(** Appending at the tail. *)
Lemma runq_push_run E i t tk c q s (Q : unit → sched_state Mem → Prop) :
  g_sched_cpus s !! i = Some c → links (task_mem s) (runq_head c) q →
  runq_tail c = default 0 (last q) → t ≠ 0 → t ∉ q → NoDup q → task_mem s !! t = Some tk →
  (∀ h m', links m' h (q ++ [t]) → relinked (task_mem s) m' →
     (∀ x, x ∉ q ++ [t] → m' !! x = task_mem s !! x) →
     Q tt (set_scpus (<[i := mkScpu (current c) h t (ticks c)]> (g_sched_cpus s)) (set_tasks m' s))) →
  run E (runq_push i t) Q s.
Proof.
  intros Hc Hl Htail Ht Hni Hnd Htk HQ. unfold runq_push. run_step. eapply update_task_run; [done|].
  run_step. eapply scpu_run; [done|]. set (m1 := <[t := with_next 0 tk]> (task_mem s)).
  assert (relinked (task_mem s) m1) as Hr1 by (by apply relinked_insert).
  destruct q as [|x q].
  - simpl in Hl. rewrite Hl, Z.eqb_refl. apply set_scpu_run, HQ; [|done|].
    + simpl. split; [done|]. split; [done|]. exists (with_next 0 tk). split; [apply lookup_insert_eq|done].
    + intros y Hy. apply lookup_insert_ne. set_solver.
  - assert (links m1 (runq_head c) (x :: q)) as Hl1.
    { eapply links_agree; [|done]. intros y Hy. apply lookup_insert_ne. set_solver. }
    destruct Hl as (Hh & Hx & _). rewrite (proj2 (Z.eqb_neq _ _)) by congruence.
    assert (∃ l, last (x :: q) = Some l) as [l Hlast] by (by rewrite last_cons; destruct (last q); eauto).
    rewrite Htail, Hlast. simpl. run_step.
    assert (l ∈ x :: q) as Hin by (by apply last_Some_elem_of).
    assert (∃ lk, m1 !! l = Some lk) as [lk Hlk].
    { clear -Hl1 Hin. revert Hl1 Hin. generalize (runq_head c) (x :: q). intros a l'. revert a.
      induction l' as [|y l' IH]; intros a; [set_solver|]. intros (-> & _ & yk & Hyk & Hl).
      intros [->|Hin]%elem_of_cons; eauto. }
    eapply update_task_run; [done|]. apply set_scpu_run, HQ.
    + eapply links_snoc; try done.
      * apply NoDup_app. split; [done|]. split; [|apply NoDup_singleton]. set_solver.
      * exists (with_next 0 tk). split; [apply lookup_insert_eq|done].
    + etrans; [exact Hr1|]. by apply relinked_insert.
    + intros y Hy. etrans; [apply lookup_insert_ne; set_solver|]. apply lookup_insert_ne. set_solver.
Qed.

(** Taking from the head. *)
Lemma runq_pop_run E i t c q s (Q : Z → sched_state Mem → Prop) :
  g_sched_cpus s !! i = Some c → links (task_mem s) (runq_head c) (t :: q) →
  runq_tail c = default 0 (last (t :: q)) → NoDup (t :: q) →
  (∀ h m', links m' h q → relinked (task_mem s) m' → (∀ x, x ≠ t → m' !! x = task_mem s !! x) →
     Q t (set_scpus (<[i := mkScpu (current c) h (default 0 (last q)) (ticks c)]> (g_sched_cpus s)) (set_tasks m' s))) →
  run E (runq_pop i) Q s.
Proof.
  intros Hc (Hh & Ht & tk & Htk & Hl) Htail Hnd HQ. apply NoDup_cons in Hnd as [Hni Hnd].
  unfold runq_pop. run_step. eapply scpu_run; [done|]. rewrite Hh, (proj2 (Z.eqb_neq _ _) Ht).
  run_step. eapply task_run; [done|]. run_step. apply set_scpu_run. run_step. eapply update_task_run; [done|]. run_step.
  replace (if t_next tk =? 0 then 0 else runq_tail c) with (default 0 (last q)).
  - refine (HQ (t_next tk) (<[t := with_next 0 tk]> (task_mem s)) _ _ _);
      [|by apply relinked_insert|intros x Hx; by apply lookup_insert_ne].
    eapply links_agree; [|done]. intros x Hx. apply lookup_insert_ne. congruence.
  - destruct q as [|y q]; simpl in Hl; [by rewrite Hl|]. destruct Hl as (Hy & Hy0 & _).
    rewrite (proj2 (Z.eqb_neq _ _)) by congruence. by rewrite Htail.
Qed.
End Queue.

(** * The scheduler implements the abstract one *)

Record sched_rep {Mem} (s : sched_state Mem) (A : list acpu) : Prop := {
  rep_length : length (g_sched_cpus s) = Z.to_nat MAX_CPUS ∧ length A = Z.to_nat MAX_CPUS;
  rep_cpu i c a : g_sched_cpus s !! i = Some c → A !! i = Some a → cpu_rep (task_mem s) i c a;
  rep_nodup i a : A !! i = Some a → NoDup (tasks_of a);
  rep_apart i j a b t : A !! i = Some a → A !! j = Some b → t ∈ tasks_of a → t ∈ tasks_of b → i = j;
  rep_live i a t : A !! i = Some a → t ∈ tasks_of a →
    t ≠ 0 ∧ ∃ tk, task_mem s !! t = Some tk ∧ t_state tk = TASK_RUNNABLE;
  rep_saved i a t tk : A !! i = Some a → t ∈ a_queue a → task_mem s !! t = Some tk → t_frame tk ≠ 0;
  rep_boot i a t : A !! i = Some a → t ∈ tasks_of a → t < 0 → t = boot_task i;
  rep_unlocked : g_sched_lock s = false;
  rep_percpu : percpu_ok (sc_percpu s)
}.

Section Refinement.
Context {Mem : Type}.
Implicit Types s : sched_state Mem.

(** The general step: processor [i] goes from [a] to [a'], adding the tasks
    [new] and touching only tasks of its own. *)
Lemma rep_step s s' A i a a' c' new :
  sched_rep s A → A !! i = Some a →
  g_sched_cpus s' = <[i := c']> (g_sched_cpus s) →
  (∀ t, t ∉ tasks_of a' → task_mem s' !! t = task_mem s !! t) →
  cpu_rep (task_mem s') i c' a' →
  tasks_of a' ≡ₚ new ++ tasks_of a → NoDup (tasks_of a') →
  (∀ t, t ∈ new → 0 < t ∧ ∀ j b, A !! j = Some b → t ∉ tasks_of b) →
  (∀ t, t ∈ tasks_of a' → ∃ tk, task_mem s' !! t = Some tk ∧ t_state tk = TASK_RUNNABLE) →
  (∀ t tk, t ∈ a_queue a' → task_mem s' !! t = Some tk → t_frame tk ≠ 0) →
  g_sched_lock s' = false → percpu_ok (sc_percpu s') →
  sched_rep s' (<[i := a']> A).
Proof.
  intros HR Ha Hcpus Hsame Hrep Hperm Hnd Hnew Hlive Hsaved Hlk Hpc.
  pose proof HR as [[L1 L2] R1 R2 R3 R4 R5 R6 R7 R8].
  assert (i < length A)%nat as Hi by (by eapply lookup_lt_Some).
  assert (∀ t, t ∈ tasks_of a' → t ∈ new ∨ t ∈ tasks_of a) as Hsplit.
  { intros t. rewrite Hperm, elem_of_app. done. }
  assert (∀ j b, <[i := a']> A !! j = Some b → (j = i ∧ b = a') ∨ (j ≠ i ∧ A !! j = Some b)) as Hcase.
  { intros j b. destruct (decide (j = i)) as [->|]; [rewrite list_lookup_insert_eq by done; naive_solver|].
    rewrite list_lookup_insert_ne by done. auto. }
  assert (∀ j b t, A !! j = Some b → j ≠ i → t ∈ tasks_of b → t ∉ tasks_of a') as Hother.
  { intros j b t Hb Hne Ht [Hin|Hin]%Hsplit; [destruct (Hnew t Hin) as [_ Hno]; exact (Hno _ _ Hb Ht)|].
    apply Hne. eauto. }
  split; [by rewrite Hcpus, !length_insert| | | | | | |done|done].
  - intros j c b Hc [[-> ->]|[Hne Hb]]%Hcase.
    + rewrite Hcpus, list_lookup_insert_eq in Hc by lia. by simplify_eq.
    + rewrite Hcpus, list_lookup_insert_ne in Hc by done. destruct (R1 _ _ _ Hc Hb) as (E1 & E2 & E3).
      split; [done|]. split; [|done]. eapply links_agree; [|done]. intros x Hx. apply Hsame.
      apply (Hother j b); [done|done|]. by right.
  - intros j b [[-> ->]|[_ Hb]]%Hcase; eauto.
  - intros j k b b' t [[-> ->]|[Hj Hb]]%Hcase [[-> ->]|[Hk Hb']]%Hcase Ht Ht'; [done| | |eauto].
    + by destruct (Hother k b' t).
    + by destruct (Hother j b t).
  - intros j b t [[-> ->]|[Hne Hb]]%Hcase Ht.
    + split; [|by apply Hlive]. apply Hsplit in Ht as [Ht|Ht]; [apply Hnew in Ht as [? _]; lia|].
      by destruct (R4 _ _ _ Ha Ht).
    + destruct (R4 _ _ _ Hb Ht) as [? Htk]. split; [done|]. rewrite Hsame; [done|]. by apply (Hother j b).
  - intros j b t tk [[-> ->]|[Hne Hb]]%Hcase Ht; [by apply Hsaved|].
    rewrite Hsame; [by eapply R5|]. apply (Hother j b); [done|done|by right].
  - intros j b t [[-> ->]|[Hne Hb]]%Hcase Ht Hneg; [|eauto].
    apply Hsplit in Ht as [Ht|Ht]; [apply Hnew in Ht as [? _]; lia|eauto].
Qed.

(** The frame a task saved when it was last switched out, or was created with. *)
Definition frame_of s (t : Z) : Z := from_option t_frame 0 (task_mem s !! t).

(** What a tick on processor [i] with interrupt frame [f] does. *)
Record tick_effect s s' (A : list acpu) (i : nat) (a : acpu) (f r : Z) : Prop := {
  te_rep : sched_rep s' (<[i := abs_tick a]> A);
  te_return : r = frame_of s' (a_cur (abs_tick a));
  te_saved : frame_of s' (a_cur a) = f;
  te_frames t : t ≠ a_cur a → frame_of s' t = frame_of s t;
  te_owner : frame_mem s' = frame_mem s ∧ sc_mem s' = sc_mem s ∧ sc_percpu s' = sc_percpu s;
  te_ready : g_sched_ready s' = g_sched_ready s
}.

Lemma frame_of_relinked s m t : relinked (task_mem s) m → from_option t_frame 0 (m !! t) = frame_of s t.
Proof.
  intros Hr. unfold frame_of. specialize (Hr t).
  destruct (m !! t) as [tk|], (task_mem s !! t) as [tk'|]; simpl in Hr; try done. simpl. by simplify_eq.
Qed.

Lemma self_id_run E me s i (Q : Z → sched_state Mem → Prop) :
  percpu_ok (sc_percpu s) → cpu_self (sc_percpu s) me = i →
  ((i < Z.to_nat MAX_CPUS)%nat → Q (Z.of_nat i) s) → run E (gets (self_id me)) Q s.
Proof.
  intros Hp Hi HQ. apply run_gets. unfold self_id. pose proof (cpu_self_bound _ me Hp) as Hb. destruct Hp as [_ Hok].
  rewrite Hi in *. rewrite (co_id _ _ Hok) by done. apply HQ. pose proof (co_range _ _ Hok). lia.
Qed.

Lemma sched_on_tick_run E me f s A i a (Q : Z → sched_state Mem → Prop) :
  sched_rep s A → cpu_self (sc_percpu s) me = i → A !! i = Some a → f ≠ 0 →
  (∀ r s', tick_effect s s' A i a f r → Q r s') → run E (sched_on_tick me f) Q s.
Proof.
  intros HR Hself Ha Hf HQ. pose proof HR as [[L1 L2] R1 R2 R3 R4 R5 R6 R7 R8].
  unfold sched_on_tick. run_step. eapply self_id_run; [done|done|]. intros Hi.
  rewrite (proj2 (Z.leb_gt _ _)) by (unfold MAX_CPUS in *; lia). rewrite Nat2Z.id.
  run_step. apply run_acquire; [done|]. run_step.
  assert (∃ c, g_sched_cpus s !! i = Some c) as [c Hc] by (apply lookup_lt_is_Some; lia).
  eapply scpu_run; [done|]. destruct (R1 _ _ _ Hc Ha) as (Hcur & Hlinks & Htail). rewrite Hcur.
  destruct (R4 i a (a_cur a) Ha ltac:(by left)) as (Hcur0 & ck & Hck & Hrun).
  pose proof (R2 _ _ Ha) as Hnd. unfold tasks_of in Hnd. apply NoDup_cons in Hnd as [Hni Hnd].
  run_step. apply set_scpu_run. run_step. eapply update_task_run; [exact Hck|].
  set (m2 := <[a_cur a := with_frame f ck]> (task_mem s)).
  assert (links m2 (runq_head c) (a_queue a)) as Hl2.
  { eapply links_agree; [|done]. intros x Hx. apply lookup_insert_ne. congruence. }
  assert (∀ t, t ∈ tasks_of a → ∃ tk, m2 !! t = Some tk ∧ t_state tk = TASK_RUNNABLE) as Hlive2.
  { intros t Ht. destruct (decide (t = a_cur a)) as [->|Hne].
    - exists (with_frame f ck). split; [apply lookup_insert_eq|done].
    - destruct (R4 _ _ _ Ha Ht) as (_ & tk & Htk & ?). exists tk. split; [|done].
      unfold m2. by rewrite lookup_insert_ne. }
  assert (∀ t, from_option t_frame 0 (m2 !! t) = if decide (t = a_cur a) then f else frame_of s t) as Hf2.
  { intros t. destruct (decide (t = a_cur a)) as [->|Hne]; unfold m2.
    - by rewrite lookup_insert_eq.
    - by rewrite lookup_insert_ne. }
  destruct (a_queue a) as [|t q] eqn:Hq.
  { simpl in Hlinks. rewrite Hlinks, Z.eqb_refl. run_step. apply run_release. run_step. apply HQ.
    assert (abs_tick a = a) as Habs by (unfold abs_tick; by rewrite Hq).
    split; rewrite ?Habs; [|simpl; unfold frame_of; simpl; by rewrite Hf2, decide_True|
      unfold frame_of; simpl; by rewrite Hf2, decide_True|
      intros t Ht; unfold frame_of; simpl; by rewrite Hf2, decide_False|done|done].
    eapply (rep_step s _ A i a a _ []); try done; simpl.
    - intros t Ht. unfold m2. rewrite lookup_insert_ne; [done|]. intros <-. apply Ht. by left.
    - unfold cpu_rep. simpl. by rewrite Hq, (proj2 (Z.eqb_neq _ _) Hcur0).
    - by apply R2 with i.
    - set_solver.
    - intros t tk Ht. rewrite Hq in Ht. set_solver. }
  assert (t ≠ a_cur a) as Htc by (intros ->; apply Hni; by left).
  destruct (R4 i a t Ha ltac:(right; rewrite Hq; by left)) as (Ht0 & tk & Htk & Htr).
  assert (runq_head c = t) as Hh by (by destruct Hlinks).
  rewrite Hh, (proj2 (Z.eqb_neq _ _) Ht0). run_step.
  eapply (runq_pop_run _ i t _ q); [simpl; apply list_lookup_insert_eq; lia| | |done|].
  { rewrite Hh in Hl2. exact Hl2. }
  { done. }
  simpl. intros h3 m3 Hl3 Hr3 He3. rewrite (proj2 (Z.eqb_neq _ _) Ht0), (proj2 (Z.eqb_neq _ _) Htc). cbn [orb].
  assert (m2 !! t = Some tk) as Htk2 by (unfold m2; by rewrite lookup_insert_ne).
  destruct (relinked_lookup _ _ _ _ Hr3 Htk2) as [n3 Htk3].
  run_step. eapply task_run; [exact Htk3|]. simpl. rewrite (proj2 (Z.eqb_neq _ _)) by (by eapply R5; [|rewrite Hq; left|]).
  run_step. eapply task_run; [simpl; rewrite He3 by done; apply lookup_insert_eq|].
  rewrite decide_True by done. run_step.
  apply NoDup_cons in Hnd as [Hnit Hndq].
  eapply (runq_push_run _ i _ (with_frame f ck) _ q); [simpl; rewrite list_insert_insert_eq; apply list_lookup_insert_eq; lia|
    exact Hl3|done|done|set_solver|done|simpl; rewrite He3 by done; apply lookup_insert_eq|].
  simpl. intros h4 m4 Hl4 Hr4 He4. run_step. eapply scpu_run.
  { simpl. rewrite !list_insert_insert_eq. apply list_lookup_insert_eq. lia. }
  run_step. apply set_scpu_run. simpl.
  assert (relinked m2 m4) as Hr by (by etrans).
  destruct (relinked_lookup _ _ _ _ Hr Htk2) as [n4 Htk4]. run_step. eapply task_run; [exact Htk4|].
  run_step. apply run_release. run_step. apply HQ. simpl.
  assert (abs_tick a = mkAcpu t (q ++ [a_cur a])) as Habs by (unfold abs_tick; by rewrite Hq).
  assert (∀ x, from_option t_frame 0 (m4 !! x) = from_option t_frame 0 (m2 !! x)) as Hf4.
  { intros x. specialize (Hr x). destruct (m4 !! x), (m2 !! x); simpl in *; try done. by simplify_eq. }
  split; rewrite ?Habs; unfold frame_of; simpl; [|by rewrite Htk4|by rewrite Hf4, Hf2, decide_True|
    intros x Hx; by rewrite Hf4, Hf2, decide_False|done|done].
  pose proof (tasks_of_tick a) as Hperm. rewrite Habs in Hperm.
  eapply (rep_step s _ A i a _ _ []); simpl; try done.
  - rewrite !list_insert_insert_eq. done.
  - intros x Hx. unfold tasks_of in Hx. simpl in Hx. rewrite He4 by set_solver. rewrite He3 by set_solver.
    unfold m2. rewrite lookup_insert_ne; [done|set_solver].
  - unfold cpu_rep. simpl. by rewrite last_snoc, (proj2 (Z.eqb_neq _ _) Ht0).
  - rewrite Hperm. by apply R2 with i.
  - set_solver.
  - intros x Hx. rewrite Hperm in Hx. destruct (Hlive2 x Hx) as (xk & Hxk & Hxr).
    destruct (relinked_lookup _ _ _ _ Hr Hxk) as [nx Hxk4]. eauto.
  - intros x xk Hx Hxk. assert (from_option t_frame 0 (m4 !! x) = t_frame xk) as <- by (by rewrite Hxk).
    rewrite Hf4, Hf2. destruct (decide (x = a_cur a)); [done|]. unfold frame_of.
    apply elem_of_app in Hx as [Hx|Hx]; [|set_solver].
    destruct (R4 i a x Ha) as (_ & xk' & Hxk' & _); [right; rewrite Hq; by right|].
    rewrite Hxk'. simpl. eapply R5; [done| |done]. rewrite Hq. by right.
Qed.
End Refinement.

(** * Spawning *)

Section Spawn.
Context {Mem : Type} `{!KernelMemory Mem, !KernelMemoryLaws Mem}.
Implicit Types s : sched_state Mem.

(** Every task other than the bootstrap tasks is a live block of the heap. *)
Record sched_inv s (A : list acpu) (bs : list (Z * Z)) (rs : list vmalloc_range_t) : Prop := {
  si_rep : sched_rep s A;
  si_mem : mem_owns (sc_mem s) bs rs;
  si_blocks i a t : A !! i = Some a → t ∈ tasks_of a → 0 < t → t ∈ bs.*1
}.

(** Adding a fresh, initialised task to the queue of processor [i]. *)
Lemma rep_spawn E s s0 A i a t tk (Q : unit → sched_state Mem → Prop) :
  sched_rep s A → A !! i = Some a → 0 < t → (∀ j b, A !! j = Some b → t ∉ tasks_of b) →
  t_frame tk ≠ 0 → t_state tk = TASK_RUNNABLE →
  g_sched_cpus s0 = g_sched_cpus s → task_mem s0 = <[t := tk]> (task_mem s) →
  sc_percpu s0 = sc_percpu s →
  (∀ s', sched_rep s' (<[i := abs_spawn t a]> A) →
     frame_mem s' = frame_mem s0 → sc_mem s' = sc_mem s0 →
     relinked (task_mem s0) (task_mem s') → sc_percpu s' = sc_percpu s0 → Q tt s') →
  run E (runq_push i t) (λ r s', Q r (set_sched_lock false s')) s0.
Proof.
  intros HR Ha Ht Hfresh Hfr Hst Hcs Htm Hpc HQ. pose proof HR as [[L1 L2] R1 R2 R3 R4 R5 R6 R7 R8].
  assert (i < length A)%nat as Hi by (by eapply lookup_lt_Some).
  assert (∃ c, g_sched_cpus s !! i = Some c) as [c Hc] by (apply lookup_lt_is_Some; lia).
  destruct (R1 _ _ _ Hc Ha) as (Hcur & Hlinks & Htail). pose proof (Hfresh i a Ha) as Hni.
  pose proof (R2 _ _ Ha) as Hnd. unfold tasks_of in Hnd, Hni.
  apply NoDup_cons in Hnd as [_ Hnd].
  assert (∀ x, x ∈ tasks_of a → task_mem s0 !! x = task_mem s !! x) as He.
  { intros x Hx. rewrite Htm. apply lookup_insert_ne. intros ->. by apply (Hfresh i a Ha). }
  eapply (runq_push_run _ i t tk c (a_queue a)); [by rewrite Hcs| |done|lia|set_solver|done|
    rewrite Htm; apply lookup_insert_eq|].
  { eapply links_agree; [|done]. intros x Hx. apply He. by right. }
  intros h m' Hl Hr He'. apply HQ; [|done..].
  assert (∀ x xk, x ∈ tasks_of (abs_spawn t a) → m' !! x = Some xk →
    t_state xk = TASK_RUNNABLE ∧ (x = t ∨ x ∈ a_queue a → t_frame xk ≠ 0)) as Hlive.
  { intros x xk Hx Hxk. destruct (relinked_lookup _ _ _ _ (symmetry Hr) Hxk) as [n Hx0]. rewrite tasks_of_spawn in Hx.
    apply elem_of_cons in Hx as [->|Hx].
    - rewrite Htm, lookup_insert_eq in Hx0. simplify_eq. done.
    - rewrite He in Hx0 by done. split; [destruct (R4 _ _ _ Ha Hx) as (_ & yk & Hyk & ?); simplify_eq; done|].
      intros [->|Hin]; [by destruct (Hfresh _ _ Ha)|]. apply (R5 _ _ _ _ Ha Hin Hx0). }
  eapply (rep_step s _ A i a (abs_spawn t a) _ [t]); simpl; try done.
  - by rewrite Hcs.
  - intros x Hx. unfold tasks_of in Hx. simpl in Hx. rewrite He' by set_solver. rewrite Htm.
    apply lookup_insert_ne. set_solver.
  - unfold cpu_rep. simpl. by rewrite last_snoc.
  - apply tasks_of_spawn.
  - rewrite tasks_of_spawn. constructor; [done|]. by apply (R2 i).
  - intros x ->%list_elem_of_singleton. done.
  - intros x Hx. assert (∃ yk, task_mem s0 !! x = Some yk) as [yk Hyk].
    { rewrite tasks_of_spawn in Hx. apply elem_of_cons in Hx as [->|Hx]; [exists tk; rewrite Htm; apply lookup_insert_eq|].
      rewrite He by done. destruct (R4 _ _ _ Ha Hx) as (_ & yk & ? & _). eauto. }
    destruct (relinked_lookup _ _ _ _ Hr Hyk) as [n Hx']. exists (with_next n yk). split; [done|].
    by apply (Hlive x).
  - intros x xk Hx Hxk. destruct (Hlive x xk) as [_ Hsv]; [by right|done|]. apply Hsv.
    apply elem_of_app in Hx as [?|Hx%list_elem_of_singleton]; auto.
  - by rewrite Hpc.
Qed.

Lemma si_set_mem s A bs rs bs' rs' m :
  sched_inv s A bs rs → mem_owns m bs' rs' → (∀ p, p ∈ bs.*1 → p ∈ bs'.*1) →
  sched_inv (set_sc_mem m s) A bs' rs'.
Proof. intros [[? ? ? ? ? ? ? ? ?] ? ?] Hm Hsub. split; [by split|done|]. intros. apply Hsub. eauto. Qed.

Lemma fresh_task s A bs rs p sz m :
  sched_inv s A bs rs → mem_owns m ((p, sz) :: bs) rs → 0 < p →
  ∀ j b, A !! j = Some b → p ∉ tasks_of b.
Proof.
  intros [_ _ Hb] Hm Hp j b Hj Hin. apply mem_owns_blocks in Hm. simpl in Hm. apply NoDup_cons in Hm as [Hni _]. eauto.
Qed.

(** A new thread.  Either nothing is kept: the task and stack are given back and
    the queues are as before.  Or the thread waits at the tail of the calling
    processor's queue, with a task block and a 16 KiB stack of its own, and its
    frame at the top of that stack starts the trampoline with [entry] and
    [arg]; no other saved frame is touched. *)
Lemma sched_spawn_spec trampoline me entry arg s A bs rs i a :
  sched_inv s A bs rs → cpu_self (sc_percpu s) me = i → A !! i = Some a →
  run vm_panic (sched_spawn trampoline me entry arg) (λ r s',
    (r = -1 ∧ sched_inv s' A bs rs ∧ ∃ m, s' = set_sc_mem m s) ∨
    (r = 0 ∧ entry ≠ 0 ∧ ∃ t sz stack, TASK_BYTES ≤ sz ∧ (∀ j b, A !! j = Some b → t ∉ tasks_of b) ∧
       sched_inv s' (<[i := abs_spawn t a]> A) ((t, sz) :: bs) (mkRange stack SCHED_STACK_SIZE :: rs) ∧
       frame_of s' t = stack + SCHED_STACK_SIZE - FRAME_BYTES ∧
       frame_mem s' = <[frame_of s' t := start_frame trampoline entry arg]> (frame_mem s) ∧
       (∀ x, x ≠ t → frame_of s' x = frame_of s x) ∧ sc_percpu s' = sc_percpu s)) s.
Proof.
  intros Hinv Hself Ha. pose proof Hinv as [HR Hm Hb].
  unfold sched_spawn. destruct (Z.eqb_spec entry 0) as [->|He].
  { run_step. left. split; [done|]. split; [done|]. exists (sc_mem s). by destruct s. }
  run_step. apply run_zoom. eapply run_mono; [apply (mem_kmalloc_spec _ _ _ TASK_BYTES Hm); by vm_compute|].
  intros p m1 [[-> Hm1]|(Hp & sz & Hsz & Hm1)].
  { cbn [Z.eqb]. run_step. left. split; [done|]. split; [by apply (si_set_mem s A bs rs)|by exists m1]. }
  pose proof (fresh_task _ _ _ _ _ _ _ Hinv Hm1 Hp) as Hfresh.
  rewrite (proj2 (Z.eqb_neq p 0)) by lia. run_step. apply run_zoom.
  eapply run_mono; [apply (mem_vmalloc_spec _ _ _ SCHED_STACK_SIZE VMALLOC_DEFAULT_FLAGS Hm1); by vm_compute|].
  intros st m2 [[-> Hm2]|(Hst & Hal & Hend & Hm2)].
  { cbn [Z.eqb]. run_step. apply run_zoom. eapply run_weaken; [by apply (mem_kfree_spec _ _ _ _ _ Hm2)|done|].
    intros [] m3 Hm3. run_step. left. split; [done|]. split; [|by exists m3].
    change (set_sc_mem m3 (set_sc_mem m2 (set_sc_mem m1 s))) with (set_sc_mem m3 s).
    by apply (si_set_mem s A bs rs). }
  rewrite (proj2 (Z.eqb_neq st 0)) by lia.
  assert (u64 (u64 (st + SCHED_STACK_SIZE) - FRAME_BYTES) = st + SCHED_STACK_SIZE - FRAME_BYTES) as ->.
  { unfold SCHED_STACK_SIZE, FRAME_BYTES in *. rewrite (wrap_small 64 (st + _)) by (unfold in_width; lia).
    rewrite wrap_small by (unfold in_width; lia). done. }
  set (fr := st + SCHED_STACK_SIZE - FRAME_BYTES). set (tk := mkTask fr st SCHED_STACK_SIZE TASK_RUNNABLE 0).
  assert (fr ≠ 0) as Hfr by (unfold fr, SCHED_STACK_SIZE, FRAME_BYTES; lia).
  do 5 run_step. eapply self_id_run; [apply HR|exact Hself|]. intros Hi.
  rewrite (proj2 (Z.leb_gt _ _)) by (unfold MAX_CPUS in *; lia). rewrite Nat2Z.id.
  run_step. apply run_acquire; [apply HR|]. run_step.
  set (s0 := set_sched_lock true _).
  eapply run_mono.
  { eapply (rep_spawn _ s s0 A i a p tk (λ _ s', sched_rep s' (<[i := abs_spawn p a]> A) ∧
      frame_mem s' = frame_mem s0 ∧ sc_mem s' = m2 ∧ relinked (task_mem s0) (task_mem s') ∧
      sc_percpu s' = sc_percpu s)); done. }
  intros [] s' (Hrep & Hfm & Hsm & Hr & Hpc). run_step. apply run_release. run_step. right. split; [done|]. split; [done|].
  assert (∀ x, frame_of (set_sched_lock false s') x = if decide (x = p) then fr else frame_of s x) as Hf.
  { intros x. rewrite <- (frame_of_relinked (set_sched_lock false s') (task_mem s0)) by done. unfold frame_of. simpl.
    destruct (decide (x = p)) as [->|]; [by rewrite lookup_insert_eq|by rewrite lookup_insert_ne]. }
  exists p, sz, st. split; [done|]. split; [done|]. split_and!.
  - split; [done|by rewrite Hsm|]. intros j b x Hj Hx Hx0. apply elem_of_cons.
    destruct (decide (j = i)) as [->|].
    + rewrite list_lookup_insert_eq in Hj by (by eapply lookup_lt_Some). injection Hj as <-.
      rewrite tasks_of_spawn in Hx. apply elem_of_cons in Hx as [->|Hx]; [by left|right; eauto].
    + rewrite list_lookup_insert_ne in Hj by done. right. eauto.
  - by rewrite Hf, decide_True.
  - rewrite Hfm, Hf, decide_True by done. done.
  - intros x Hx. by rewrite Hf, decide_False.
  - done.
Qed.
End Spawn.

(** * The frame of a new thread *)

(** The words of a frame in memory, in the order of the struct. *)
Definition frame_words (f : interrupt_frame) : list Z :=
  [r15 f; r14 f; r13 f; r12 f; r11 f; r10 f; r9 f; r8 f; rbp f; rdi f; rsi f; rdx f; rcx f; rbx f; rax f;
   vector f; error_code f; rip f; cs f; rflags f].

(** What the interrupt return path (idt.S) needs to find to call [trampoline(entry,
    arg)] in kernel mode: it pops fifteen registers, of which the tenth and eleventh
    are the argument registers rdi and rsi, skips two words and returns to the
    instruction pointer, code segment and flags behind them. Interrupts are on
    (bit 9; bit 1 is always set) and no other flag is. *)
Record enters (w : list Z) (trampoline entry arg : Z) : Prop := {
  en_args : w !! 9%nat = Some entry ∧ w !! 10%nat = Some arg;
  en_zero k : (k < 17)%nat → k ≠ 9%nat → k ≠ 10%nat → w !! k = Some 0;
  en_return : w !! 17%nat = Some trampoline ∧ w !! 18%nat = Some 0x08 ∧ w !! 19%nat = Some (2 ^ 9 + 2 ^ 1);
  en_length : length w = 20%nat
}.

Lemma start_frame_enters trampoline entry arg :
  enters (frame_words (start_frame trampoline entry arg)) trampoline entry arg.
Proof.
  split; [done| |done|done]. intros k Hk H9 H10.
  do 17 (destruct k as [|k]; [first [done|lia]|]). lia.
Qed.

(** Word [k] of what the return path reads from frame [f] on. *)
Definition return_word (f : Z) (k : nat) : Z := f + 8 * Z.of_nat k.

(** * Traces and fairness *)

(** What processors do to the scheduler, in any interleaving. *)
Inductive sched_event : Type :=
  | Tick (cpu : nat) (saved resumed : Z)
  | Spawn (cpu : nat) (result : Z).

Definition is_tick (i : nat) (e : sched_event) : bool :=
  match e with Tick j _ _ => bool_decide (j = i) | Spawn _ _ => false end.
Definition ticks_on (i : nat) (es : list sched_event) : nat := countb (is_tick i) es.

Section Fairness.
Context {Mem : Type} `{!KernelMemory Mem, !KernelMemoryLaws Mem}.
Variable trampoline : Z.
Implicit Types s : sched_state Mem.

Inductive sched_step : sched_event → sched_state Mem → sched_state Mem → Prop :=
  | step_tick me f r s s' : f ≠ 0 → sched_on_tick me f s = Ok (r, s') →
      sched_step (Tick (cpu_self (sc_percpu s) me) f r) s s'
  | step_spawn me entry arg r s s' : sched_spawn trampoline me entry arg s = Ok (r, s') →
      sched_step (Spawn (cpu_self (sc_percpu s) me) r) s s'.

Inductive sched_trace : list sched_event → sched_state Mem → sched_state Mem → Prop :=
  | trace_nil s : sched_trace [] s s
  | trace_cons e es s s1 s' : sched_step e s s1 → sched_trace es s1 s' → sched_trace (e :: es) s s'.

(** The task running on processor [i]. *)
Definition running s (i : nat) : option Z :=
  (λ c, if current c =? 0 then boot_task i else current c) <$> g_sched_cpus s !! i.

Lemma running_rep s A i a : sched_rep s A → A !! i = Some a → running s i = Some (a_cur a).
Proof.
  intros HR Ha. destruct (rep_length _ _ HR) as [L1 L2].
  assert (i < length A)%nat by (by eapply lookup_lt_Some).
  assert (∃ c, g_sched_cpus s !! i = Some c) as [c Hc] by (apply lookup_lt_is_Some; lia).
  destruct (rep_cpu _ _ HR _ _ _ Hc Ha) as (E & _). unfold running. rewrite Hc. simpl. by rewrite E.
Qed.

Lemma self_entry s A me : sched_rep s A → ∃ a, A !! cpu_self (sc_percpu s) me = Some a.
Proof.
  intros HR. apply lookup_lt_is_Some. destruct (rep_length _ _ HR) as [_ ->].
  pose proof (cpu_self_bound _ me (rep_percpu _ _ HR)). destruct (rep_percpu _ _ HR) as [_ Hok].
  pose proof (co_range _ _ Hok). lia.
Qed.

Lemma sched_inv_tick s s' A bs rs i a f r :
  sched_inv s A bs rs → A !! i = Some a → tick_effect s s' A i a f r →
  sched_inv s' (<[i := abs_tick a]> A) bs rs.
Proof.
  intros [HR Hm Hb] Ha [Hrep _ _ _ (_ & Hsm & _)]. split; [done|by rewrite Hsm|].
  intros j b t Hj Ht. destruct (decide (j = i)) as [->|]; [|rewrite list_lookup_insert_ne in Hj by done; eauto].
  rewrite list_lookup_insert_eq in Hj by (by eapply lookup_lt_Some). injection Hj as <-.
  rewrite tasks_of_tick in Ht. eauto.
Qed.

(** One step of the system as seen by a task waiting at position [k] on
    processor [i]: a tick there moves it up, anything else leaves it in place;
    its saved frame stays. *)
Lemma waiting_step e s s' A bs rs i a k t :
  sched_inv s A bs rs → A !! i = Some a → a_queue a !! k = Some t → sched_step e s s' →
  (is_tick i e = true → k ≠ 0%nat) →
  ∃ A' bs' rs' a', sched_inv s' A' bs' rs' ∧ A' !! i = Some a' ∧
    a_queue a' !! (if is_tick i e then pred k else k) = Some t ∧
    frame_of s' t = frame_of s t ∧ sc_percpu s' = sc_percpu s.
Proof.
  intros Hinv Ha Hk Hstep Hpos. pose proof (si_rep _ _ _ _ Hinv) as HR.
  assert (t ∈ a_queue a) as Hin by (by eapply list_elem_of_lookup_2).
  assert (i < length A)%nat as Hi by (by eapply lookup_lt_Some).
  destruct Hstep as [me f r s s' Hf Hrun|me entry arg r s s' Hrun].
  - destruct (self_entry s A me HR) as [b Hb]. set (j := cpu_self (sc_percpu s) me) in *.
    assert (wp (sched_on_tick me f) (λ r s', tick_effect s s' A j b f r) s) as Hwp
      by (eapply sched_on_tick_run; done).
    pose proof (run_Ok _ _ _ _ _ _ Hwp Hrun) as Heff. pose proof (sched_inv_tick _ _ _ _ _ _ _ _ _ Hinv Hb Heff) as Hinv'.
    destruct Heff as [_ _ _ Hfr (_ & _ & Hpc)].
    assert (frame_of s' t = frame_of s t) as Hft.
    { apply Hfr. intros ->. assert (i = j) as <- by (eapply (rep_apart _ _ HR); [done|done|by right|by left]).
      rewrite Ha in Hb. injection Hb as <-. pose proof (rep_nodup _ _ HR _ _ Ha) as Hnd.
      unfold tasks_of in Hnd. by apply NoDup_cons in Hnd as [? _]. }
    exists (<[j := abs_tick b]> A), bs, rs. simpl. destruct (decide (j = i)) as [Hji|Hji].
    + rewrite bool_decide_true by done. rewrite Hji in *. rewrite Ha in Hb. injection Hb as <-.
      exists (abs_tick a). rewrite list_lookup_insert_eq by done. split_and!; try done.
      simpl in Hpos. rewrite bool_decide_true in Hpos by done.
      destruct k as [|k]; [by destruct (Hpos eq_refl)|]. simpl. unfold abs_tick.
      destruct (a_queue a) as [|x q]; [done|]. simpl in *. rewrite lookup_app_l; [done|by eapply lookup_lt_Some].
    + rewrite bool_decide_false by done. exists a. by rewrite list_lookup_insert_ne.
  - destruct (self_entry s A me HR) as [b Hb]. set (j := cpu_self (sc_percpu s) me) in *.
    pose proof (run_Ok _ _ _ _ _ _ (sched_spawn_spec trampoline me entry arg s A bs rs j b Hinv eq_refl Hb) Hrun) as Hsp.
    simpl. destruct Hsp as [(-> & Hinv' & m & ->)|(-> & _ & x & sz & st & _ & Hfresh & Hinv' & _ & _ & Hfr & Hpc)].
    + exists A, bs, rs, a. done.
    + exists (<[j := abs_spawn x b]> A), ((x, sz) :: bs), (mkRange st SCHED_STACK_SIZE :: rs).
      assert (frame_of s' t = frame_of s t) as Hft.
      { apply Hfr. intros ->. apply (Hfresh i a Ha). by right. }
      destruct (decide (j = i)) as [Hji|Hji].
      * rewrite Hji in *. rewrite Ha in Hb. injection Hb as <-. exists (abs_spawn x a).
        rewrite list_lookup_insert_eq by done. split_and!; try done. simpl.
        rewrite lookup_app_l; [done|by eapply lookup_lt_Some].
      * exists a. by rewrite list_lookup_insert_ne.
Qed.

Lemma waiting_trace es s s' A bs rs i a k t :
  sched_inv s A bs rs → A !! i = Some a → a_queue a !! k = Some t → sched_trace es s s' →
  (ticks_on i es ≤ k)%nat →
  ∃ A' bs' rs' a', sched_inv s' A' bs' rs' ∧ A' !! i = Some a' ∧
    a_queue a' !! (k - ticks_on i es)%nat = Some t ∧ frame_of s' t = frame_of s t ∧ sc_percpu s' = sc_percpu s.
Proof.
  intros Hinv Ha Hk Htr. revert A bs rs a k Hinv Ha Hk.
  induction Htr as [s|e es s s1 s' Hstep Htr IH]; intros A bs rs a k Hinv Ha Hk Hn.
  { exists A, bs, rs, a. simpl. rewrite Nat.sub_0_r. done. }
  unfold ticks_on in Hn. simpl in Hn. fold (ticks_on i es) in Hn.
  destruct (waiting_step e s s1 A bs rs i a k t) as (A1 & bs1 & rs1 & a1 & Hinv1 & Ha1 & Hk1 & Hf1 & Hp1); try done.
  { intros Hti. rewrite Hti in Hn. lia. }
  destruct (IH _ _ _ _ _ Hinv1 Ha1 Hk1) as (A2 & bs2 & rs2 & a2 & Hinv2 & Ha2 & Hk2 & Hf2 & Hp2).
  { destruct (is_tick i e); lia. }
  exists A2, bs2, rs2, a2. split_and!; try congruence. rewrite <- Hk2. f_equal.
  unfold ticks_on at 1. simpl. fold (ticks_on i es). destruct (is_tick i e); lia.
Qed.

(** C8. Fairness.  A task that waits at position [k] of a processor's queue runs at
    that processor's [k+1]-st tick: whatever ticks of other processors and
    spawns on any processor lie between, after [k] ticks the next one returns,
    resumes exactly the frame the task was switched out with (or was created
    with), and makes it the running task. *)
Theorem sched_every_task_runs es s s' A bs rs i a k t me f :
  sched_inv s A bs rs → A !! i = Some a → a_queue a !! k = Some t →
  sched_trace es s s' → ticks_on i es = k →
  cpu_self (sc_percpu s') me = i → f ≠ 0 →
  ∃ s'', sched_on_tick me f s' = Ok (frame_of s t, s'') ∧ running s'' i = Some t.
Proof.
  intros Hinv Ha Hk Htr Hn Hme Hf.
  destruct (waiting_trace es s s' A bs rs i a k t) as (A' & bs' & rs' & a' & Hinv' & Ha' & Hk' & Hfr & _); try done; [lia|].
  rewrite Hn, Nat.sub_diag in Hk'. pose proof (si_rep _ _ _ _ Hinv') as HR.
  assert (wp (sched_on_tick me f) (λ r s'', tick_effect s' s'' A' i a' f r) s') as Hwp
    by (eapply sched_on_tick_run; done).
  apply wp_inv in Hwp as (r & s'' & Hrun & [Hrep Hret _ Hkeep _]).
  assert (a_cur (abs_tick a') = t) as Hcur.
  { unfold abs_tick. destruct (a_queue a') as [|x q]; [done|]. simpl in *. congruence. }
  exists s''. split.
  - rewrite Hrun, Hret, Hcur, Hkeep, Hfr; [done|]. intros ->. pose proof (rep_nodup _ _ HR _ _ Ha') as Hnd.
    unfold tasks_of in Hnd. apply NoDup_cons in Hnd as [Hni _]. apply Hni. by eapply list_elem_of_lookup_2.
  - erewrite running_rep; [by rewrite Hcur|done|]. apply list_lookup_insert_eq. by eapply lookup_lt_Some.
Qed.

(** C9. The tick refines the abstract round-robin step: on a processor with running
    task [c] and queue [t :: q] it returns the frame [t] was saved with, leaves
    [t] running and [q ++ [c]] waiting, and stores the interrupted frame in [c];
    with an empty queue it returns the interrupted frame.  The linked queues of
    all processors keep representing their abstract ones, and no other task's
    saved frame, nor memory, changes. *)
Theorem sched_on_tick_refines me f s A bs rs i a :
  sched_inv s A bs rs → cpu_self (sc_percpu s) me = i → A !! i = Some a → f ≠ 0 →
  wp (sched_on_tick me f) (λ r s',
    sched_inv s' (<[i := abs_tick a]> A) bs rs ∧
    r = frame_of s' (a_cur (abs_tick a)) ∧ frame_of s' (a_cur a) = f ∧
    (∀ t, t ≠ a_cur a → frame_of s' t = frame_of s t) ∧
    running s' i = Some (a_cur (abs_tick a)) ∧
    frame_mem s' = frame_mem s ∧ sc_mem s' = sc_mem s) s.
Proof.
  intros Hinv Hself Ha Hf. eapply sched_on_tick_run; [apply Hinv|done|done|done|]. intros r s' Heff.
  split; [by eapply sched_inv_tick|]. destruct Heff as [Hrep ? ? ? (? & ? & ?)]. split_and!; try done.
  erewrite running_rep; [done|done|]. apply list_lookup_insert_eq. by eapply lookup_lt_Some.
Qed.

(** C35. A new thread: either it fails and nothing is kept - task block and stack are
    given back and the queues are as before -, or the thread waits at the tail
    of the calling processor's queue with a task block and a 16 KiB stack of its
    own; the frame written for it holds what the interrupt return path needs to
    call the trampoline with [entry] and [arg] with interrupts on, no other
    saved frame is touched, and its twenty words are the last ones of the
    stack. The stack pointer and stack segment, which the return instruction of
    long mode pops as well, are thus read from beyond the stack: the code does
    not set them.  Spawning panics only when the page mapper does. *)
Theorem sched_spawn_correct me entry arg s A bs rs i a :
  sched_inv s A bs rs → cpu_self (sc_percpu s) me = i → A !! i = Some a →
  run vm_panic (sched_spawn trampoline me entry arg) (λ r s',
    (r = -1 ∧ sched_inv s' A bs rs ∧ ∃ m, s' = set_sc_mem m s) ∨
    (r = 0 ∧ entry ≠ 0 ∧ ∃ t sz stack, TASK_BYTES ≤ sz ∧ (∀ j b, A !! j = Some b → t ∉ tasks_of b) ∧
       sched_inv s' (<[i := abs_spawn t a]> A) ((t, sz) :: bs) (mkRange stack SCHED_STACK_SIZE :: rs) ∧
       (∃ fr, enters (frame_words fr) trampoline entry arg ∧
          frame_mem s' = <[frame_of s' t := fr]> (frame_mem s)) ∧
       (∀ k, in_range (mkRange stack (16 * 1024)) (return_word (frame_of s' t) k) ↔ (k < 20)%nat) ∧
       (∀ x, x ≠ t → frame_of s' x = frame_of s x) ∧ sc_percpu s' = sc_percpu s)) s.
Proof.
  intros Hinv Hself Ha. eapply run_mono; [by apply sched_spawn_spec|].
  intros r s' [?|(Hr & He & t & sz & stack & Hsz & Hnew & Hinv' & Hf & Hfm & Hx & Hp)]; [by left|right].
  split; [done|]. split; [done|]. exists t, sz, stack. split_and!; try done.
  - eexists. split; [apply start_frame_enters|done].
  - intros k. rewrite Hf. unfold in_range, return_word, SCHED_STACK_SIZE, FRAME_BYTES. simpl. lia.
Qed.
End Fairness.

(** * Initialisation *)

(** No thread was created yet: every processor runs its bootstrap task. *)
Definition abs_boot : list acpu := (λ i, mkAcpu (boot_task i) []) <$> seq 0 (Z.to_nat MAX_CPUS).

Lemma abs_boot_lookup i a :
  abs_boot !! i = Some a ↔ (i < Z.to_nat MAX_CPUS)%nat ∧ a = mkAcpu (boot_task i) [].
Proof.
  unfold abs_boot. rewrite list_lookup_fmap, fmap_Some. split.
  - intros (x & Hx & ->). apply lookup_seq in Hx as [-> ?]. done.
  - intros [Hi ->]. exists i. rewrite lookup_seq. done.
Qed.

Section Boot.
Context {Mem : Type} `{!KernelMemory Mem, !KernelMemoryLaws Mem}.
Implicit Types s : sched_state Mem.

Lemma sched_zero_rep p (m : Mem) : percpu_ok p → sched_rep (sched_zero p m) abs_boot.
Proof.
  intros Hp. assert (∀ i, (i < Z.to_nat MAX_CPUS)%nat → task_mem (sched_zero p m) !! boot_task i = Some zero_task) as Hb.
  { intros i Hi. unfold sched_zero. cbn [task_mem]. apply elem_of_list_to_map_1.
    - rewrite <- list_fmap_compose. apply NoDup_fmap_2_strong; [|apply NoDup_seq]. unfold boot_task. cbn. intros; lia.
    - apply (list_elem_of_fmap_2 (λ i, (boot_task i, zero_task))). apply elem_of_seq. lia. }
  assert (∀ x, boot_task x ≠ 0) as Hn0 by (unfold boot_task; lia).
  split; [| | | | | | |reflexivity|exact Hp].
  - split; [apply length_replicate|]. unfold abs_boot. by rewrite length_fmap, length_seq.
  - intros i c a Hc [Hi ->]%abs_boot_lookup. apply lookup_replicate in Hc as [-> _]. by repeat split.
  - intros i a [Hi ->]%abs_boot_lookup. apply NoDup_singleton.
  - intros i j a b t [Hi ->]%abs_boot_lookup [Hj ->]%abs_boot_lookup. unfold tasks_of. cbn [a_cur a_queue].
    rewrite !list_elem_of_singleton. unfold boot_task. lia.
  - intros i a t [Hi ->]%abs_boot_lookup. unfold tasks_of. cbn [a_cur a_queue]. rewrite list_elem_of_singleton. intros ->.
    split; [done|]. exists zero_task. split; [by apply Hb|done].
  - intros i a t tk [Hi ->]%abs_boot_lookup. cbn [a_queue]. intros Hin. by apply not_elem_of_nil in Hin.
  - intros i a t [Hi ->]%abs_boot_lookup. unfold tasks_of. cbn [a_cur a_queue]. by rewrite list_elem_of_singleton.
Qed.

Lemma sched_init_cpu_run E i s bs rs (Q : unit → sched_state Mem → Prop) :
  sched_inv s abs_boot bs rs → (i < Z.to_nat MAX_CPUS)%nat →
  (∀ s', sched_inv s' abs_boot bs rs → sc_percpu s' = sc_percpu s → lapic_timers s' = lapic_timers s → Q tt s') →
  run E (sched_init_cpu i) Q s.
Proof.
  intros [HR Hm Hb] Hi HQ. unfold sched_init_cpu. run_step. run_step. apply set_scpu_run. apply HQ; [|done..].
  assert (abs_boot !! i = Some (mkAcpu (boot_task i) [])) as Ha by (by apply abs_boot_lookup).
  assert (boot_task i ≠ 0) as Hn0 by (unfold boot_task; lia).
  split; [|done|done]. rewrite <- (list_insert_id _ _ _ Ha).
  eapply (rep_step s _ _ i (mkAcpu (boot_task i) []) (mkAcpu (boot_task i) []) _ []); simpl; try done.
  - intros t Ht. apply lookup_insert_ne. unfold tasks_of in Ht. simpl in Ht. set_solver.
  - apply NoDup_singleton.
  - set_solver.
  - intros t. unfold tasks_of. simpl. rewrite list_elem_of_singleton. intros ->. exists zero_task.
    by rewrite lookup_insert_eq.
  - set_solver.
  - apply HR.
  - apply HR.
Qed.

(** [sched_init] on the boot processor leaves every processor with its bootstrap
    task running and an empty queue, starts the tick timer with the calibrated
    count (or the fallback) and marks the scheduler ready; calling it again
    changes nothing. *)
Theorem sched_init_correct calibrated s bs rs :
  sched_inv s abs_boot bs rs →
  wp (sched_init calibrated) (λ _ s',
    sched_inv s' abs_boot bs rs ∧ sched_is_ready s' = true ∧
    (if sched_is_ready s then s' = s
     else lapic_timers s' = lapic_timers s ++ [(SCHED_TICK_VECTOR, default SCHED_LAPIC_FALLBACK_COUNT calibrated)]) ∧
    sched_init calibrated s' = Ok (tt, s')) s.
Proof.
  intros Hinv. unfold sched_init at 1. run_step. run_step. unfold sched_is_ready.
  destruct (g_sched_ready s) eqn:Hr.
  { run_step. split_and!; try done. unfold sched_init, bind, get. by rewrite Hr. }
  pose proof (rep_percpu _ _ (si_rep _ _ _ _ Hinv)) as [_ Hok]. pose proof (co_range _ _ Hok) as Hn.
  rewrite (proj2 (Z.eqb_neq _ _)) by lia. do 5 run_step.
  eapply (run_for_loop _ _ _ _ _ (λ _ s', sched_inv s' abs_boot bs rs ∧ lapic_timers s' = lapic_timers s)); [done| |].
  - intros j s1 Hj [Hinv1 Ht1]. run_step. eapply sched_init_cpu_run; [done|lia|]. intros s2 Hinv2 _ Ht2.
    run_step. split; [done|congruence].
  - intros s1 [Hinv1 Ht1]. run_steps. split_and!; try done.
    + by destruct Hinv1 as [[] ? ?].
    + simpl. by rewrite Ht1.
Qed.
End Boot.
