(* ===== verification/SchedDemo.v ===== *)
(** The processor table and the scheduler on a small concrete memory: the
    hypotheses of their theorems hold, and a short run of two threads. *)

From S2P Require Import Prelude Vmalloc VmallocSpec Kmalloc KernMem Percpu Sched SchedSpec.

(** Blocks and regions are handed out above all live ones, at most up to 2^60. *)
Record demo_mem : Type := mkDemo { dm_blocks : list (Z * Z); dm_regions : list vmalloc_range_t }.

Definition block_top (l : list (Z * Z)) : Z := foldr (λ b t, Z.max (b.1 + 65536) t) 4096 l.
Definition region_top (l : list vmalloc_range_t) : Z :=
  foldr (λ r t, Z.max (r_start r + r_size r) t) (2 ^ 40) l.
Definition drop_key {A} (key : A → Z) (k : Z) : list A → list A :=
  fix go l := match l with [] => [] | x :: l' => if key x =? k then l' else x :: go l' end.

#[export] Instance demo_memory : KernelMemory demo_mem := {
  mem_kmalloc size := λ m, Ok (block_top (dm_blocks m),
    mkDemo ((block_top (dm_blocks m), size) :: dm_blocks m) (dm_regions m));
  mem_kfree p := λ m, Ok (tt, mkDemo (drop_key fst p (dm_blocks m)) (dm_regions m));
  mem_vmalloc size flags := λ m,
    let a := region_top (dm_regions m) in
    if (a mod 4096 =? 0) && (a + size <? 2 ^ 60)
    then Ok (a, mkDemo (dm_blocks m) (mkRange a size :: dm_regions m)) else Ok (0, m);
  mem_vfree a size := λ m, Ok (tt, mkDemo (dm_blocks m) (drop_key r_start a (dm_regions m)));
  mem_owns m bs rs := dm_blocks m ≡ₚ bs ∧ NoDup (dm_blocks m).*1 ∧
    dm_regions m ≡ₚ rs ∧ NoDup (r_start <$> dm_regions m) ∧ pairwise_disjoint (dm_regions m) ∧
    (∀ r, r ∈ dm_regions m → 0 < r_size r)
}.

Lemma drop_key_perm {A} (key : A → Z) x l :
  x ∈ l → NoDup (key <$> l) → l ≡ₚ x :: drop_key key (key x) l.
Proof.
  induction l as [|y l IH]; simpl; [set_solver|]. rewrite NoDup_cons. intros Hin [Hy Hnd].
  destruct (Z.eqb_spec (key y) (key x)) as [He|Hne].
  - apply elem_of_cons in Hin as [->|Hin]; [done|]. exfalso. apply Hy. rewrite He. by apply list_elem_of_fmap_2.
  - apply elem_of_cons in Hin as [->|Hin]; [done|]. rewrite (IH Hin Hnd) at 1. apply Permutation_swap.
Qed.

Lemma region_top_above l r : r ∈ l → r_start r + r_size r ≤ region_top l.
Proof. induction l as [|x l IH]; simpl; [set_solver|]. intros [->|Hin]%elem_of_cons; [lia|]. apply IH in Hin. lia. Qed.

Lemma region_top_low l : 2 ^ 40 ≤ region_top l.
Proof. induction l as [|x l IH]; simpl; lia. Qed.

Lemma block_top_fresh l : 4096 ≤ block_top l ∧ block_top l ∉ l.*1.
Proof.
  assert (4096 ≤ block_top l ∧ ∀ a, a ∈ l.*1 → a < block_top l) as [H4 Hlt].
  { induction l as [|[q n] l [IH1 IH2]]; simpl; [split; [done|set_solver]|]. split; [lia|].
    intros a [->|Ha]%elem_of_cons; [lia|]. apply IH2 in Ha. lia. }
  split; [done|]. intros Hin. apply Hlt in Hin. lia.
Qed.

#[export] Instance demo_memory_laws : KernelMemoryLaws demo_mem.
Proof.
  split.
  - intros m bs bs' rs rs' Hb Hr (O1 & O2 & O3 & O4). split; [by rewrite O1|]. split; [done|]. split; [by rewrite O3|done].
  - intros m bs rs (O1 & O2 & _). by rewrite <- O1.
  - intros m bs rs (_ & _ & O3 & _ & O5 & _). by rewrite <- O3.
  - intros m bs rs size (O1 & O2 & O3) Hsz. destruct (block_top_fresh (dm_blocks m)) as [H4 Hni].
    right. split; [lia|]. exists size. split; [lia|]. split; [simpl; by constructor|]. split; [by constructor|done].
  - intros m bs rs p sz (O1 & O2 & O3).
    assert (dm_blocks m ≡ₚ (p, sz) :: drop_key fst p (dm_blocks m)) as Hd.
    { apply (drop_key_perm fst (p, sz)); [rewrite O1; set_solver|done]. }
    rewrite Hd in O2. simpl in O2. apply NoDup_cons in O2 as [_ O2].
    split; [|by split]. apply (Permutation_cons_inv (a := (p, sz))). by rewrite <- Hd.
  - intros m bs rs size flags (O1 & O2 & O3 & O4 & O5 & O6) Hsz H4. unfold run. simpl.
    destruct (Z.eqb_spec (region_top (dm_regions m) mod 4096) 0) as [Hal|]; simpl; [|by left].
    destruct (Z.ltb_spec (region_top (dm_regions m) + size) (2 ^ 60)); [|by left].
    pose proof (region_top_low (dm_regions m)) as Hlow. right. split; [lia|]. split; [done|]. split; [lia|].
    split; [done|]. split; [done|]. simpl. split; [by constructor|]. split_and!; [| |done|].
    + constructor; [|done]. intros (r & Hr & Hin)%list_elem_of_fmap.
      pose proof (region_top_above _ _ Hin). pose proof (O6 _ Hin). lia.
    + intros x Hx (r & Hin & Hr). pose proof (region_top_above _ _ Hin). unfold in_range in *. simpl in *. lia.
    + intros r [->|Hin]%elem_of_cons; [simpl; lia|auto].
  - intros m bs rs a size (O1 & O2 & O3 & O4 & O5 & O6) Hsz H4.
    assert (dm_regions m ≡ₚ mkRange a size :: drop_key r_start a (dm_regions m)) as Hd.
    { apply (drop_key_perm r_start (mkRange a size)); [rewrite O3; set_solver|done]. }
    rewrite Hd in O4, O5. simpl in O4. apply NoDup_cons in O4 as [_ O4]. destruct O5 as [_ O5].
    split; [done|]. split; [done|]. split; [|split_and!; try done].
    + apply (Permutation_cons_inv (a := mkRange a size)). by rewrite <- Hd.
    + intros r Hr. apply O6. rewrite Hd. by right.
Qed.

Lemma demo_mem_empty : mem_owns (mkDemo [] []) [] [].
Proof.
  split_and!; simpl; [done|constructor|done|constructor|done|]. intros r Hr. by apply not_elem_of_nil in Hr.
Qed.

(** * Starting processors *)

(** Boot processor with LAPIC id 4, three others reported, one of them null. *)
Definition demo_smp0 : smp_state demo_mem :=
  mkSmp (set_cpu 0 (with_ids 0 4 false false zero_cpu) percpu_zero) (mkDemo [] []) [].
Definition demo_report : list (option Z) := [Some 2; Some 4; None; Some 9].

Lemma smp_init_correct_witness :
  run vm_panic (smp_init (Some (mkMp 4 demo_report))) (λ _ s', ∃ n,
    g_cpu_count (s_percpu s') = Z.of_nat n ∧ 1 ≤ Z.of_nat n ≤ MAX_CPUS ∧
    (∀ i, (i < n)%nat →
       cpu_id (cpu_at (s_percpu s') i) = Z.of_nat i ∧
       cpu_self (s_percpu s') (apic_id (cpu_at (s_percpu s') i)) = i) ∧
    (mp_go s').*2 = seq 1 (n - 1) ∧
    (∀ i k, (i, k) ∈ mp_go s' → demo_report !! i = Some (Some (apic_id (cpu_at (s_percpu s') k)))) ∧
    pairwise_disjoint (ap_stacks (s_percpu s') n ++ []) ∧
    mem_owns (s_mem s') [] (ap_stacks (s_percpu s') n ++ [])) demo_smp0.
Proof.
  pose proof (smp_init_correct [] [] 4 demo_report demo_smp0) as Hthm. apply Hthm.
  - vm_compute. reflexivity.
  - reflexivity.
  - exact demo_mem_empty.
  - vm_compute. reflexivity.
  - apply (bool_decide_unpack _). vm_compute. exact I.
Defined.

(** * Two threads on the boot processor *)

Definition demo_percpu : percpu :=
  match smp_init (Some (mkMp 4 demo_report)) demo_smp0 with Ok (_, s) => s_percpu s | _ => percpu_zero end.

Lemma demo_percpu_ok : percpu_ok demo_percpu.
Proof.
  assert (length (g_cpus demo_percpu) = Z.to_nat MAX_CPUS) as Hl by (vm_compute; reflexivity).
  assert (∀ i, (i < 3)%nat → i = 0 ∨ i = 1 ∨ i = 2)%nat as Hcase by lia.
  split; [vm_compute; reflexivity|]. assert (Z.to_nat (g_cpu_count demo_percpu) = 3%nat) as -> by (vm_compute; reflexivity).
  split; [done|unfold MAX_CPUS; lia|..].
  - intros i [-> | [-> | ->]]%Hcase; vm_compute; reflexivity.
  - intros i [-> | [-> | ->]]%Hcase; vm_compute; reflexivity.
  - intros i j [-> | [-> | ->]]%Hcase [-> | [-> | ->]]%Hcase; vm_compute; done.
Qed.

Definition demo_sched0 : sched_state demo_mem := sched_zero demo_percpu (mkDemo [] []).

Lemma demo_sched0_inv : sched_inv demo_sched0 abs_boot [] [].
Proof.
  split; [apply sched_zero_rep, demo_percpu_ok|exact demo_mem_empty|].
  intros i a t [_ ->]%abs_boot_lookup. unfold tasks_of. cbn [a_cur a_queue].
  rewrite list_elem_of_singleton. unfold boot_task. lia.
Qed.

Lemma sched_init_correct_witness :
  wp (sched_init (Some 5000)) (λ _ s',
    sched_inv s' abs_boot [] [] ∧ sched_is_ready s' = true ∧
    (if sched_is_ready demo_sched0 then s' = demo_sched0
     else lapic_timers s' = lapic_timers demo_sched0 ++ [(SCHED_TICK_VECTOR, default SCHED_LAPIC_FALLBACK_COUNT (Some 5000))]) ∧
    sched_init (Some 5000) s' = Ok (tt, s')) demo_sched0.
Proof. exact (sched_init_correct (Some 5000) demo_sched0 [] [] demo_sched0_inv). Defined.

Definition after {A} (m : M (sched_state demo_mem) A) (s : sched_state demo_mem) : sched_state demo_mem :=
  match m s with Ok (_, s') => s' | _ => s end.

(** Two threads are created, then the boot processor is interrupted. *)
Definition spawn1 := sched_spawn 0x1000 4 100 7 (Mem := demo_mem).
Definition spawn2 := sched_spawn 0x1000 4 200 8 (Mem := demo_mem).
Definition demo_sched1 : sched_state demo_mem := after spawn1 demo_sched0.
Definition demo_sched2 : sched_state demo_mem := after spawn2 demo_sched1.
Definition demo_sched3 : sched_state demo_mem := after (sched_on_tick 4 0x9000) demo_sched2.

Definition demo_boot_cpu : acpu := mkAcpu (boot_task 0) [].

Lemma demo_runs :
  spawn1 demo_sched0 = Ok (0, demo_sched1) ∧ spawn2 demo_sched1 = Ok (0, demo_sched2) ∧
  (∃ r, sched_on_tick 4 0x9000 demo_sched2 = Ok (r, demo_sched3)) ∧
  cpu_self (sc_percpu demo_sched0) 4 = 0%nat ∧ cpu_self (sc_percpu demo_sched1) 4 = 0%nat ∧
  cpu_self (sc_percpu demo_sched2) 4 = 0%nat ∧ cpu_self (sc_percpu demo_sched3) 4 = 0%nat.
Proof. split_and!; try (vm_compute; reflexivity). eexists. vm_compute. reflexivity. Qed.

#[local] Opaque demo_sched0 demo_sched1 demo_sched2 demo_sched3 abs_boot.

Lemma abs_boot_0 : abs_boot !! 0%nat = Some demo_boot_cpu.
Proof. apply abs_boot_lookup. split; [unfold MAX_CPUS; lia|done]. Qed.

Lemma demo_sched1_inv : ∃ t bs rs, sched_inv demo_sched1 (<[0%nat := mkAcpu (boot_task 0) [t]]> abs_boot) bs rs.
Proof.
  destruct demo_runs as (H1 & _ & _ & S0 & _).
  pose proof (sched_spawn_spec 0x1000 4 100 7 demo_sched0 abs_boot [] [] 0 demo_boot_cpu
    demo_sched0_inv S0 abs_boot_0) as Hrun.
  destruct (run_Ok _ _ _ _ _ _ Hrun H1) as [[? _]|(_ & _ & t & sz & st & _ & _ & Hinv & _)]; [discriminate|].
  exists t. eauto.
Qed.

Lemma boot_0_lt : (0 < length abs_boot)%nat.
Proof. eapply lookup_lt_Some, abs_boot_0. Qed.

Lemma demo_sched2_inv : ∃ t1 t2 bs rs,
  sched_inv demo_sched2 (<[0%nat := mkAcpu (boot_task 0) [t1; t2]]> abs_boot) bs rs.
Proof.
  destruct demo_sched1_inv as (t1 & bs & rs & Hinv). destruct demo_runs as (_ & H2 & _ & _ & S1 & _).
  assert (<[0%nat := mkAcpu (boot_task 0) [t1]]> abs_boot !! 0%nat = Some (mkAcpu (boot_task 0) [t1])) as Ha
    by (apply list_lookup_insert_eq, boot_0_lt).
  pose proof (sched_spawn_spec 0x1000 4 200 8 demo_sched1 _ bs rs 0 _ Hinv S1 Ha) as Hrun.
  destruct (run_Ok _ _ _ _ _ _ Hrun H2) as [[? _]|(_ & _ & t & sz & st & _ & _ & Hinv' & _)]; [discriminate|].
  rewrite list_insert_insert_eq in Hinv'. exists t1, t. eauto.
Qed.

Lemma demo_sched2_cpu t1 t2 :
  <[0%nat := mkAcpu (boot_task 0) [t1; t2]]> abs_boot !! 0%nat = Some (mkAcpu (boot_task 0) [t1; t2]).
Proof. apply list_lookup_insert_eq, boot_0_lt. Qed.

Lemma sched_spawn_correct_witness :
  run vm_panic (sched_spawn 0x1000 4 100 7) (λ r s',
    (r = -1 ∧ sched_inv s' abs_boot [] [] ∧ ∃ m, s' = set_sc_mem m demo_sched0) ∨
    (r = 0 ∧ 100 ≠ 0 ∧ ∃ t sz stack, TASK_BYTES ≤ sz ∧ (∀ j b, abs_boot !! j = Some b → t ∉ tasks_of b) ∧
       sched_inv s' (<[0%nat := abs_spawn t demo_boot_cpu]> abs_boot) [(t, sz)] [mkRange stack SCHED_STACK_SIZE] ∧
       (∃ fr, enters (frame_words fr) 0x1000 100 7 ∧
          frame_mem s' = <[frame_of s' t := fr]> (frame_mem demo_sched0)) ∧
       (∀ k, in_range (mkRange stack (16 * 1024)) (return_word (frame_of s' t) k) ↔ (k < 20)%nat) ∧
       (∀ x, x ≠ t → frame_of s' x = frame_of demo_sched0 x) ∧ sc_percpu s' = sc_percpu demo_sched0)) demo_sched0.
Proof.
  destruct demo_runs as (_ & _ & _ & S0 & _).
  exact (sched_spawn_correct 0x1000 4 100 7 demo_sched0 abs_boot [] [] 0 demo_boot_cpu demo_sched0_inv S0 abs_boot_0).
Defined.

Lemma sched_on_tick_refines_witness : ∃ A bs rs a,
  a_queue a ≠ [] ∧
  wp (sched_on_tick 4 0x9000) (λ r s',
    sched_inv s' (<[0%nat := abs_tick a]> A) bs rs ∧
    r = frame_of s' (a_cur (abs_tick a)) ∧ frame_of s' (a_cur a) = 0x9000 ∧
    (∀ t, t ≠ a_cur a → frame_of s' t = frame_of demo_sched2 t) ∧
    running s' 0 = Some (a_cur (abs_tick a)) ∧
    frame_mem s' = frame_mem demo_sched2 ∧ sc_mem s' = sc_mem demo_sched2) demo_sched2.
Proof.
  destruct demo_sched2_inv as (t1 & t2 & bs & rs & Hinv). destruct demo_runs as (_ & _ & _ & _ & _ & S2 & _).
  exists (<[0%nat := mkAcpu (boot_task 0) [t1; t2]]> abs_boot), bs, rs, (mkAcpu (boot_task 0) [t1; t2]).
  split; [discriminate|].
  exact (sched_on_tick_refines 4 0x9000 demo_sched2 _ bs rs 0 _ Hinv S2 (demo_sched2_cpu t1 t2) ltac:(discriminate)).
Defined.

(** The second thread waits behind the first: one tick passes, the next runs it. *)
Lemma sched_every_task_runs_witness : ∃ t s'',
  sched_on_tick 4 0x9000 demo_sched3 = Ok (frame_of demo_sched2 t, s'') ∧ running s'' 0 = Some t.
Proof.
  destruct demo_sched2_inv as (t1 & t2 & bs & rs & Hinv). destruct demo_runs as (_ & _ & (r & H3) & _ & _ & S2 & S3).
  exists t2. pose proof (sched_every_task_runs 0x1000 [Tick 0 0x9000 r] demo_sched2 demo_sched3 _ bs rs 0 _ 1 t2 4 0x9000
    Hinv (demo_sched2_cpu t1 t2)) as Hthm.
  apply Hthm; [reflexivity| |reflexivity|exact S3|discriminate].
  eapply trace_cons; [|apply trace_nil]. rewrite <- S2. apply step_tick; [discriminate|exact H3].
Defined.
