(* ===== verification/Irq.v ===== *)
(** Interrupt dispatch (arch/x86_64/irq.c, arch/x86_64/isr_handler.c, the
    handlers of kernel/ipi.c and the acknowledge path of
    arch/x86_64/cpu/apic.c) over the scheduler.

    [isr_handler] is entered by the assembly stub with the frame it pushed and
    returns the frame to resume; frames are read from [frame_mem].  Effects
    outside the kernel's memory are events: a driver's handler being called, the
    flush of the TLB, an end-of-interrupt or command write to the local
    controller. *)

From S2P Require Import Prelude Vmalloc VmallocSpec Kmalloc KernMem Percpu Sched SchedSpec.

Definition IPI_VECTOR_TLB : Z := 0xF0.
Definition IPI_VECTOR_RESCHED : Z := 0xF1.
Definition IPI_VECTOR_HALT : Z := 0xF2.
Definition PS2_KBD_VECTOR : Z := 0x21.

(** The functions the kernel registers as handlers. *)
Inductive irq_handler_t : Type :=
  | ipi_tlb_handler | ipi_halt_handler | ps2_keyboard_irq | nvme_irq_handler.
#[export] Instance irq_handler_t_eq_dec : EqDecision irq_handler_t.
Proof. solve_decision. Defined.

Inductive irq_event : Type :=
  | DriverIrq (h : irq_handler_t) (frame : Z)
  | TlbFlushAll
  | Eoi (cpu : nat)
  | LapicWrite (reg value : Z)
  | MsrWrite (msr value : Z).

Definition exception_messages : list string :=
  ["Divide by Zero"; "Debug"; "Non-Maskable Interrupt"; "Breakpoint"; "Overflow"; "Bound Range Exceeded";
   "Invalid Opcode"; "Device Not Available"; "Double Fault"; "Coprocessor Segment Overrun"; "Invalid TSS";
   "Segment Not Present"; "Stack-Segment Fault"; "General Protection Fault"; "Page Fault"; "Reserved";
   "x87 FPU Error"; "Alignment Check"; "Machine Check"; "SIMD FPU Exception"; "Virtualization Exception";
   "Control Protection Exception"; "Reserved"; "Reserved"; "Reserved"; "Reserved"; "Reserved"; "Reserved";
   "Hypervisor Injection"; "VMM Communication"; "Security Exception"; "Reserved"]%string.

Record irq_state (Mem : Type) : Type := mkIrq {
  ir_sched : sched_state Mem;
  g_irq_handlers : list (option irq_handler_t);
  g_ipi_ready : bool;
  ir_events : list irq_event
}.
Arguments mkIrq {Mem}. Arguments ir_sched {Mem}. Arguments g_irq_handlers {Mem}.
Arguments g_ipi_ready {Mem}. Arguments ir_events {Mem}.

Section Irq.
Context {Mem : Type} `{!KernelMemory Mem}.
Abbreviation state := (irq_state Mem).
Implicit Types s : state.

Definition set_ir_sched (x : sched_state Mem) s : state :=
  mkIrq x (g_irq_handlers s) (g_ipi_ready s) (ir_events s).
Definition set_handlers (l : list (option irq_handler_t)) s : state :=
  mkIrq (ir_sched s) l (g_ipi_ready s) (ir_events s).
Definition set_ipi_ready s : state :=
  mkIrq (ir_sched s) (g_irq_handlers s) true (ir_events s).
Definition log_event (e : irq_event) s : state :=
  mkIrq (ir_sched s) (g_irq_handlers s) (g_ipi_ready s) (ir_events s ++ [e]).

(** * irq.c *)

Definition irq_register_handler (vec : Z) (handler : option irq_handler_t) : M state bool :=
  if (vec <? 32) || bool_decide (handler = None) then ret false
  else modify (λ s, set_handlers (<[Z.to_nat vec := handler]> (g_irq_handlers s)) s);; ret true.

Definition irq_unregister_handler (vec : Z) : M state unit :=
  if vec <? 32 then ret tt
  else modify (λ s, set_handlers (<[Z.to_nat vec := None]> (g_irq_handlers s)) s).

(** * The local controller (apic.c) *)

Definition self_cpu (me : Z) s : nat := cpu_self (sc_percpu (ir_sched s)) me.
Definition self_entry_of (me : Z) s : cpu_t := cpu_at (sc_percpu (ir_sched s)) (self_cpu me s).

Definition x86_lapic_ready (me : Z) s : bool := initialized (lapic (self_entry_of me s)).

Definition x86_lapic_eoi (me : Z) : M state unit :=
  let! s := get in
  if negb (initialized (lapic (self_entry_of me s))) then ret tt
  else modify (log_event (Eoi (self_cpu me s))).

(** The tick count of the interrupted processor, and the acknowledgement. *)
Definition x86_lapic_handle_irq (me vec : Z) : M state unit :=
  let! s := get in
  let c := self_entry_of me s in
  if negb (initialized (lapic c)) then ret tt
  else
    (if (vec =? timer_vector (lapic c)) && negb (timer_vector (lapic c) =? 0) then
       modify (λ s, set_ir_sched (set_sc_percpu (set_cpu (self_cpu me s)
         (with_lapic (lapic c) (u64 (lapic_timer_ticks c + 1)) true c) (sc_percpu (ir_sched s))) (ir_sched s)) s)
     else ret tt);;
    modify (log_event (Eoi (self_cpu me s))).

(** * Handlers and dispatch *)

(** The call through the function pointer.  [ipi_halt_handler] stops the
    processor; the drivers' own work is theirs and appears as an event. *)
Definition call_handler (me : Z) (h : irq_handler_t) (frame : Z) : M state unit :=
  match h with
  | ipi_tlb_handler => modify (log_event TlbFlushAll)
  | ipi_halt_handler => x86_lapic_eoi me;; λ _, Hang
  | ps2_keyboard_irq | nvme_irq_handler => modify (log_event (DriverIrq h frame))
  end.

Definition frame_at (f : Z) : M state interrupt_frame :=
  λ s, match frame_mem (ir_sched s) !! f with Some fr => Ok (fr, s) | None => Fault end.

Definition irq_dispatch (me f : Z) : M state unit :=
  if f =? 0 then ret tt
  else
    let! fr := frame_at f in
    if vector fr <? 32 then ret tt
    else
      let! s := get in
      match g_irq_handlers s !! Z.to_nat (vector fr) with
      | None => fault
      | Some None => ret tt
      | Some (Some h) => call_handler me h f
      end.

Definition isr_handler (me f : Z) : M state Z :=
  let! fr := frame_at f in
  if vector fr <? 32 then
    panic (nth (Z.to_nat (vector fr)) exception_messages ""%string)
  else
    irq_dispatch me f;;
    let! fr := frame_at f in
    let! f1 := (if vector fr =? SCHED_TICK_VECTOR
                then zoom ir_sched set_ir_sched (sched_on_tick me f) else ret f) in
    let! fr1 := frame_at f1 in
    let! s := get in
    let! f2 := (if (vector fr1 =? IPI_VECTOR_RESCHED) && sched_is_ready (ir_sched s)
                then zoom ir_sched set_ir_sched (sched_on_tick me f1) else ret f1) in
    let! s := get in
    (if x86_lapic_ready me s then
       let! fr2 := frame_at f2 in
       x86_lapic_handle_irq me (u8 (vector fr2))
     else ret tt);;
    ret f2.

(** The assembly stub: the processor and the stub push the frame, then call
    [isr_handler]. *)
Definition isr_entry (me f : Z) (fr : interrupt_frame) : M state Z :=
  modify (λ s, set_ir_sched (set_frames (<[f := fr]> (frame_mem (ir_sched s))) (ir_sched s)) s);;
  isr_handler me f.

(** * ipi.c: set-up *)

Definition ipi_init : M state unit :=
  let! s := get in
  if g_ipi_ready s then ret tt
  else
    let! _ := irq_register_handler IPI_VECTOR_TLB (Some ipi_tlb_handler) in
    let! _ := irq_register_handler IPI_VECTOR_HALT (Some ipi_halt_handler) in
    modify set_ipi_ready.

Definition ipi_ready s : bool := g_ipi_ready s.
End Irq.
