(* ===== verification/IrqSpec.v ===== *)
(** Correctness of interrupt dispatch over the scheduler. *)

From S2P Require Import Prelude Vmalloc VmallocSpec Kmalloc KernMem Percpu Sched SchedSpec Irq.

Section IrqSpec.
Context {Mem : Type} `{!KernelMemory Mem, !KernelMemoryLaws Mem}.
Abbreviation state := (irq_state Mem).
Implicit Types s : state.

(** The scheduler is consistent, the handler table has its 256 slots, and the
    frame every waiting task was saved with is in memory. *)
Record irq_inv s (A : list acpu) (bs : list (Z * Z)) (rs : list vmalloc_range_t) : Prop := {
  ii_sched : sched_inv (ir_sched s) A bs rs;
  ii_table : length (g_irq_handlers s) = 256%nat;
  ii_frames i a t : A !! i = Some a → t ∈ a_queue a →
    is_Some (frame_mem (ir_sched s) !! frame_of (ir_sched s) t)
}.

(** The registered handler of a vector. *)
Definition handler_of s (vec : Z) : option irq_handler_t := mjoin (g_irq_handlers s !! Z.to_nat vec).

Lemma frame_at_run E f fr s (Q : interrupt_frame → state → Prop) :
  frame_mem (ir_sched s) !! f = Some fr → Q fr s → run E (frame_at f) Q s.
Proof. unfold run, frame_at. by intros ->. Qed.

Lemma no_handler_run E me f fr s (Q : unit → state → Prop) :
  f ≠ 0 → frame_mem (ir_sched s) !! f = Some fr → 0 ≤ vector fr < 256 →
  length (g_irq_handlers s) = 256%nat → handler_of s (vector fr) = None → Q tt s →
  run E (irq_dispatch me f) Q s.
Proof.
  intros Hf Hfr Hv Hl Hh HQ. unfold irq_dispatch. rewrite (proj2 (Z.eqb_neq _ _) Hf).
  run_step. eapply frame_at_run; [done|]. destruct (vector fr <? 32); [by run_step|]. run_step. run_step.
  unfold handler_of in Hh. destruct (g_irq_handlers s !! Z.to_nat (vector fr)) as [[h|]|] eqn:E'; [done|by run_step|].
  apply lookup_ge_None in E'. lia.
Qed.

(** ** Accounting on the local controller keeps the table of processors *)

Lemma percpu_ok_lapic p i l n b :
  percpu_ok p → (i < length (g_cpus p))%nat → percpu_ok (set_cpu i (with_lapic l n b (cpu_at p i)) p).
Proof.
  intros [Hc [H1 H2 H3 H4 H5]] Hi.
  assert (∀ j, cpu_id (cpu_at (set_cpu i (with_lapic l n b (cpu_at p i)) p) j) = cpu_id (cpu_at p j) ∧
    apic_id (cpu_at (set_cpu i (with_lapic l n b (cpu_at p i)) p) j) = apic_id (cpu_at p j) ∧
    is_bsp (cpu_at (set_cpu i (with_lapic l n b (cpu_at p i)) p) j) = is_bsp (cpu_at p j)) as He.
  { intros j. rewrite cpu_at_set by done. destruct (decide (i = j)) as [->|]; done. }
  split; [done|]. split; [simpl; by rewrite length_insert|done|..].
  - intros j Hj. destruct (He j) as (-> & _). by apply H3.
  - intros j Hj. destruct (He j) as (_ & _ & ->). by apply H4.
  - intros j k Hj Hk. destruct (He j) as (_ & -> & _), (He k) as (_ & -> & _). by apply H5.
Qed.

Lemma sched_inv_percpu (x : sched_state Mem) A bs rs p :
  sched_inv x A bs rs → percpu_ok p → sched_inv (set_sc_percpu p x) A bs rs.
Proof. intros [[] ? ?] Hp. split; [by split|done|done]. Qed.

(** What acknowledging changes: at most the tick count, and one EOI. *)
Definition acked (i : nat) s s' : Prop :=
  g_irq_handlers s' = g_irq_handlers s ∧ ir_events s' = ir_events s ++ [Eoi i] ∧
  ∃ p, percpu_ok p ∧ (∀ x, cpu_self p x = cpu_self (sc_percpu (ir_sched s)) x) ∧
    ir_sched s' = set_sc_percpu p (ir_sched s).

Lemma cpu_self_lapic p i l n b x :
  (i < length (g_cpus p))%nat → cpu_self (set_cpu i (with_lapic l n b (cpu_at p i)) p) x = cpu_self p x.
Proof.
  intros Hi. unfold cpu_self. simpl. generalize 0%nat. induction (Z.to_nat (g_cpu_count p)) as [|k IH]; intros j; simpl; [done|].
  rewrite IH, cpu_at_set by done. by destruct (decide (i = j)) as [->|].
Qed.

Lemma irq_inv_acked i s s' A bs rs : irq_inv s A bs rs → acked i s s' → irq_inv s' A bs rs.
Proof.
  intros [H1 H2 H3] (E1 & _ & p & Hp & _ & E2). split; rewrite ?E1, ?E2; [by apply sched_inv_percpu|done|done].
Qed.

Lemma handle_irq_run E me vec i s A bs rs (Q : unit → state → Prop) :
  irq_inv s A bs rs → self_cpu me s = i → x86_lapic_ready me s = true →
  (∀ s', acked i s s' → Q tt s') → run E (x86_lapic_handle_irq me vec) Q s.
Proof.
  intros Hinv Hi Hr HQ. pose proof (rep_percpu _ _ (si_rep _ _ _ _ (ii_sched _ _ _ _ Hinv))) as Hp.
  assert (i < length (g_cpus (sc_percpu (ir_sched s))))%nat as Hlt.
  { pose proof (cpu_self_bound _ me Hp). destruct Hp as [_ Hok]. rewrite (co_len _ _ Hok).
    pose proof (co_range _ _ Hok). unfold self_cpu in Hi. lia. }
  unfold x86_lapic_handle_irq. run_step. run_step. unfold x86_lapic_ready in Hr. rewrite Hr. cbn [negb].
  run_step. destruct (_ && _); run_steps; apply HQ; (split; [done|]); (split; [simpl; by rewrite Hi|]).
  - eexists. split; [|split; [|reflexivity]]; unfold self_entry_of; rewrite Hi; [by apply percpu_ok_lapic|].
    intros x. by apply cpu_self_lapic.
  - exists (sc_percpu (ir_sched s)). split; [done|]. split; [done|]. simpl. by destruct (ir_sched s).
Qed.

(** The last part of [isr_handler], after the scheduler. *)
Lemma ack_run E me f fr i s A bs rs (Q : Z → state → Prop) :
  irq_inv s A bs rs → self_cpu me s = i → frame_mem (ir_sched s) !! f = Some fr →
  (∀ s', (if x86_lapic_ready me s then acked i s s' else s' = s) → Q f s') →
  run E (let! s := get in
    (if x86_lapic_ready me s then
       let! fr2 := frame_at f in
       x86_lapic_handle_irq me (u8 (vector fr2))
     else ret tt);;
    ret f) Q s.
Proof.
  intros Hinv Hi Hf HQ. do 3 run_step. destruct (x86_lapic_ready me s) eqn:Hr.
  - run_step. eapply frame_at_run; [done|]. eapply handle_irq_run; [done|done|done|]. intros s' Ha. run_step. by apply HQ.
  - run_step. run_step. by apply HQ.
Qed.

Lemma isr_tick_run E me f fr s A bs rs i a (Q : Z → state → Prop) :
  irq_inv s A bs rs → self_cpu me s = i → A !! i = Some a → f ≠ 0 →
  frame_mem (ir_sched s) !! f = Some fr →
  (∀ r x', tick_effect (ir_sched s) x' A i a f r →
     (∃ fr', frame_mem x' !! r = Some fr' ∧ (a_queue a = [] → r = f)) →
     irq_inv (set_ir_sched x' s) (<[i := abs_tick a]> A) bs rs → Q r (set_ir_sched x' s)) →
  run E (zoom ir_sched set_ir_sched (sched_on_tick me f)) Q s.
Proof.
  intros Hinv Hi Ha Hf Hfr HQ. apply run_zoom. pose proof Hinv as [Hs Ht Hfs].
  eapply sched_on_tick_run; [apply Hs|exact Hi|exact Ha|done|]. intros r x' Heff.
  pose proof (sched_inv_tick _ _ _ _ _ _ _ _ _ Hs Ha Heff) as Hs'. pose proof Heff as [Hrep Hret Hsv Hfr' (Hfm & _ & _)].
  pose proof (rep_nodup _ _ (si_rep _ _ _ _ Hs)) as Hnd. pose proof (rep_apart _ _ (si_rep _ _ _ _ Hs)) as Hap.
  apply HQ; [done| |].
  - rewrite Hfm. destruct (a_queue a) as [|t q] eqn:Hq.
    + assert (r = f) as ->; [|by exists fr]. rewrite Hret. unfold abs_tick. by rewrite Hq.
    + destruct (Hfs i a t Ha) as [fr' Hfr'']; [rewrite Hq; by left|]. exists fr'. split; [|done].
      rewrite Hret. unfold abs_tick. rewrite Hq. simpl. rewrite Hfr'; [done|].
      intros ->. specialize (Hnd _ _ Ha). unfold tasks_of in Hnd. rewrite Hq in Hnd.
      apply NoDup_cons in Hnd as [Hni _]. apply Hni. by left.
  - split; [done|done|]. simpl. intros j b t Hj Hin. rewrite Hfm.
    destruct (decide (t = a_cur a)) as [->|Hne]; [by rewrite Hsv|]. rewrite Hfr' by done.
    destruct (decide (j = i)) as [->|Hji].
    + rewrite list_lookup_insert_eq in Hj by (by eapply lookup_lt_Some). injection Hj as <-. apply (Hfs i a t Ha).
      unfold abs_tick in Hin. destruct (a_queue a) as [|x q] eqn:Hq; [by rewrite Hq in Hin|]. simpl in Hin. set_solver.
    + rewrite list_lookup_insert_ne in Hj by done. by apply (Hfs j b t).
Qed.

(** ** Properties *)

(** What the interrupt leaves in the log: one acknowledgement, if the local
    controller is in use. *)
Definition eoi_once (me : Z) (i : nat) s s' : Prop :=
  ir_events s' = ir_events s ++ (if x86_lapic_ready me s then [Eoi i] else []).

Lemma ack_events me i s s' x :
  (if x86_lapic_ready me (set_ir_sched x s) then acked i (set_ir_sched x s) s' else s' = set_ir_sched x s) →
  sc_percpu x = sc_percpu (ir_sched s) →
  eoi_once me i s s' ∧ g_irq_handlers s' = g_irq_handlers s ∧
  ∃ p, ir_sched s' = set_sc_percpu p x ∧ ∀ y, cpu_self p y = cpu_self (sc_percpu x) y.
Proof.
  intros Ha Hp. unfold eoi_once.
  assert (x86_lapic_ready me (set_ir_sched x s) = x86_lapic_ready me s) as <-.
  { unfold x86_lapic_ready, self_entry_of, self_cpu. simpl. by rewrite Hp. }
  destruct (x86_lapic_ready me (set_ir_sched x s)).
  - destruct Ha as (-> & -> & p & _ & Hself & ->). split; [done|]. split; [done|]. by exists p.
  - subst s'. simpl. rewrite app_nil_r. split; [done|]. split; [done|]. exists (sc_percpu x). by destruct x.
Qed.

Lemma ack_inv me i s A bs rs s' :
  irq_inv s A bs rs → (if x86_lapic_ready me s then acked i s s' else s' = s) → irq_inv s' A bs rs.
Proof. intros Hinv Ha. destruct (x86_lapic_ready me s); [by eapply irq_inv_acked|by subst]. Qed.

(** C21. A timer interrupt, when no driver handler is registered on the tick vector
    and the frame of the task at the head of the queue was not itself saved by a
    reschedule interrupt (a frame that was is switched away from again, see
    [isr_resched_starves]).  The interrupted task's frame is saved, the handler
    returns the frame of the next waiting task (the same frame when none waits),
    that task becomes the running one, the order of the queue is round robin,
    and the interrupted processor's controller gets exactly one acknowledgement
    if it is initialised and none otherwise. *)
Theorem isr_tick_resumes_next me f fr s A bs rs i a :
  irq_inv s A bs rs → self_cpu me s = i → A !! i = Some a → f ≠ 0 →
  frame_mem (ir_sched s) !! f = Some fr → vector fr = SCHED_TICK_VECTOR →
  handler_of s SCHED_TICK_VECTOR = None →
  (∀ t fr', head (a_queue a) = Some t →
     frame_mem (ir_sched s) !! frame_of (ir_sched s) t = Some fr' → vector fr' ≠ IPI_VECTOR_RESCHED) →
  wp (isr_handler me f) (λ r s',
    r = (match a_queue a with [] => f | t :: _ => frame_of (ir_sched s) t end) ∧
    frame_of (ir_sched s') (a_cur a) = f ∧
    running (ir_sched s') i = Some (a_cur (abs_tick a)) ∧
    irq_inv s' (<[i := abs_tick a]> A) bs rs ∧ eoi_once me i s s') s.
Proof.
  intros Hinv Hi Ha Hf Hfr Hv Hh Hok. pose proof Hinv as [Hs Ht _].
  unfold isr_handler. run_step. eapply frame_at_run; [done|]. rewrite Hv. cbn -[irq_dispatch].
  run_step. eapply no_handler_run; [done|done|rewrite Hv; vm_compute; split; done|done|by rewrite Hv|].
  run_step. eapply frame_at_run; [done|]. rewrite Hv, Z.eqb_refl. run_step.
  eapply isr_tick_run; [done|done|done|done|done|]. intros r x' Heff (fr' & Hfr' & Hq0) Hinv'.
  pose proof Heff as [Hrep Hret Hsv Hkeep (Hfm & _ & Hpc)].
  assert (r = match a_queue a with [] => f | t :: _ => frame_of (ir_sched s) t end) as Hr.
  { destruct (a_queue a) as [|t q] eqn:Hq; [by apply Hq0|]. rewrite Hret. unfold abs_tick. rewrite Hq. simpl.
    apply Hkeep. intros ->. pose proof (rep_nodup _ _ (si_rep _ _ _ _ Hs) _ _ Ha) as Hnd. unfold tasks_of in Hnd.
    rewrite Hq in Hnd. apply NoDup_cons in Hnd as [Hni _]. apply Hni. by left. }
  assert (vector fr' ≠ IPI_VECTOR_RESCHED) as Hne.
  { rewrite Hfm in Hfr'. destruct (a_queue a) as [|t q].
    - rewrite Hr, Hfr in Hfr'. injection Hfr' as <-. rewrite Hv. done.
    - apply (Hok t); [done|congruence]. }
  run_step. eapply frame_at_run; [exact Hfr'|]. run_step. run_step.
  rewrite (proj2 (Z.eqb_neq _ _) Hne). cbn [andb]. run_step. run_step.
  eapply ack_run; [done| |exact Hfr'|].
  { unfold self_cpu. simpl. by rewrite Hpc. }
  intros s' Hack. pose proof (ack_inv _ _ _ _ _ _ _ Hinv' Hack) as Hinv2.
  apply ack_events in Hack as (Heoi & _ & p & Hs' & _); [|done]. rewrite Hs'. split_and!; try done.
  change (running (set_sc_percpu p x') i) with (running x' i).
  erewrite running_rep; [done|exact Hrep|]. apply list_lookup_insert_eq. by eapply lookup_lt_Some.
Qed.

(** The reschedule test of [isr_handler] reads the vector of the frame the tick
    already switched to.  When the only waiting task was last saved by a
    reschedule interrupt, a timer tick switches to it and at once away again:
    the interrupted task goes on and the waiting one stays where it was. *)
Lemma isr_tick_bounces me f fr s A bs rs i c b fb :
  irq_inv s A bs rs → self_cpu me s = i → A !! i = Some (mkAcpu c [b]) → f ≠ 0 →
  frame_mem (ir_sched s) !! f = Some fr → vector fr = SCHED_TICK_VECTOR →
  handler_of s SCHED_TICK_VECTOR = None → sched_is_ready (ir_sched s) = true →
  frame_mem (ir_sched s) !! frame_of (ir_sched s) b = Some fb → vector fb = IPI_VECTOR_RESCHED →
  wp (isr_handler me f) (λ r s',
    r = f ∧ irq_inv s' A bs rs ∧ g_irq_handlers s' = g_irq_handlers s ∧ self_cpu me s' = i ∧
    sched_is_ready (ir_sched s') = true ∧
    frame_of (ir_sched s') b = frame_of (ir_sched s) b ∧ frame_mem (ir_sched s') = frame_mem (ir_sched s)) s.
Proof.
  intros Hinv Hi Ha Hf Hfr Hv Hh Hrdy Hfb Hvb. pose proof Hinv as [Hs Ht _].
  assert (i < length A)%nat as Hlt by (by eapply lookup_lt_Some).
  assert (c ≠ b) as Hcb.
  { pose proof (rep_nodup _ _ (si_rep _ _ _ _ Hs) _ _ Ha) as Hnd. apply NoDup_cons in Hnd as [Hni _].
    intros ->. apply Hni. by left. }
  assert (frame_of (ir_sched s) b ≠ 0) as Hb0.
  { destruct (rep_live _ _ (si_rep _ _ _ _ Hs) i _ b Ha) as (_ & tk & Htk & _); [right; by left|].
    unfold frame_of. rewrite Htk. simpl. eapply (rep_saved _ _ (si_rep _ _ _ _ Hs) i); [exact Ha|by left|exact Htk]. }
  unfold isr_handler. run_step. eapply frame_at_run; [done|]. rewrite Hv. cbn -[irq_dispatch].
  run_step. eapply no_handler_run; [done|done|rewrite Hv; vm_compute; split; done|done|by rewrite Hv|].
  run_step. eapply frame_at_run; [done|]. rewrite Hv, Z.eqb_refl. run_step.
  eapply isr_tick_run; [done|done|done|done|done|]. intros r1 x1 Heff1 _ Hinv1.
  destruct Heff1 as [_ Hret1 Hsv1 Hkeep1 (Hfm1 & _ & Hpc1) Hr1]. cbn in Hret1, Hsv1, Hkeep1.
  rewrite Hkeep1 in Hret1 by done. subst r1.
  run_step. eapply frame_at_run; [cbn; rewrite Hfm1; exact Hfb|]. run_step. run_step.
  rewrite Hvb, Z.eqb_refl. unfold sched_is_ready in *. cbn [andb ir_sched set_ir_sched]. rewrite Hr1, Hrdy. run_step.
  eapply isr_tick_run; [exact Hinv1|unfold self_cpu; cbn; by rewrite Hpc1|by apply list_lookup_insert_eq|done|
    cbn; rewrite Hfm1; exact Hfb|].
  intros r2 x2 Heff2 _ Hinv2. destruct Heff2 as [_ Hret2 Hsv2 Hkeep2 (Hfm2 & _ & Hpc2) Hr2].
  cbn in Hret2, Hsv2, Hkeep2, Hfm2, Hpc2, Hr2. rewrite Hkeep2, Hsv1 in Hret2 by done. subst r2.
  rewrite list_insert_insert_eq in Hinv2. cbn [abs_tick a_queue a_cur app] in Hinv2. rewrite list_insert_id in Hinv2 by done.
  eapply ack_run; [done|unfold self_cpu; cbn; by rewrite Hpc2, Hpc1|cbn; rewrite Hfm2, Hfm1; exact Hfr|].
  intros s' Hack. pose proof (ack_inv _ _ _ _ _ _ _ Hinv2 Hack) as Hinv3.
  apply ack_events in Hack as (_ & Hhd & p & Hs' & Hself); [|cbn; by rewrite Hpc2]. rewrite Hs'. cbn.
  split_and!; try done.
  - unfold self_cpu. rewrite Hs'. cbn. by rewrite Hself, Hpc2, Hpc1.
  - by rewrite Hr2, Hr1.
  - congruence.
Qed.

Lemma irq_inv_push f fr s A bs rs :
  irq_inv s A bs rs →
  irq_inv (set_ir_sched (set_frames (<[f := fr]> (frame_mem (ir_sched s))) (ir_sched s)) s) A bs rs.
Proof.
  intros [[[] ? ?] Ht Hfs]. split; [split; [by split|done|done]|done|]. simpl. intros i a t Hi Hin.
  change (frame_of (set_frames _ _) t) with (frame_of (ir_sched s) t).
  destruct (decide (frame_of (ir_sched s) t = f)) as [->|]; [rewrite lookup_insert_eq; eauto|].
  rewrite lookup_insert_ne by done. eauto.
Qed.

(** [n] timer interrupts in a row, each with frame [fr] pushed at [f]. *)
Fixpoint timer_interrupts (n : nat) (me f : Z) (fr : interrupt_frame) : M state unit :=
  match n with
  | O => ret tt
  | S n' => let! _ := isr_entry me f fr in timer_interrupts n' me f fr
  end.

(** C37. Starvation.  [isr_handler] tests for a reschedule request on the vector of the
    frame it has just switched to, not of the interrupt that arrived.  A task
    that was last saved by a reschedule interrupt and is the only one waiting
    therefore never runs again: after any number of timer ticks the other task
    is still the one running. *)
Theorem isr_resched_starves n me f fr s A bs rs i c b fb :
  irq_inv s A bs rs → self_cpu me s = i → A !! i = Some (mkAcpu c [b]) → f ≠ 0 →
  vector fr = SCHED_TICK_VECTOR → handler_of s SCHED_TICK_VECTOR = None →
  sched_is_ready (ir_sched s) = true → frame_of (ir_sched s) b ≠ f →
  frame_mem (ir_sched s) !! frame_of (ir_sched s) b = Some fb → vector fb = IPI_VECTOR_RESCHED →
  wp (timer_interrupts n me f fr) (λ _ s', running (ir_sched s') i = Some c) s.
Proof.
  revert s. induction n as [|n IH]; intros s Hinv Hi Ha Hf Hv Hh Hr Hbf Hfb Hvb; simpl.
  { run_step. apply (running_rep _ _ _ _ (si_rep _ _ _ _ (ii_sched _ _ _ _ Hinv)) Ha). }
  run_step. unfold isr_entry. run_step. run_step.
  eapply run_mono.
  { eapply (isr_tick_bounces me f fr _ A bs rs i c b fb); try done; [by apply irq_inv_push|cbn; apply lookup_insert_eq|].
    cbn. by rewrite lookup_insert_ne. }
  intros r s' (-> & Hinv' & Hhd & Hi' & Hr' & Hfb' & Hfm'). apply IH; try done.
  - unfold handler_of. by rewrite Hhd.
  - by rewrite Hfb'.
  - rewrite Hfb', Hfm'. cbn. by rewrite lookup_insert_ne.
Qed.

(** A vector outside the scheduler's two goes to its registered handler, once and
    with the interrupt's own frame; the same frame is resumed, the scheduler is
    not involved and the controller gets one acknowledgement. *)
Theorem irq_registered_handler_runs me f fr h s A bs rs i :
  irq_inv s A bs rs → self_cpu me s = i → f ≠ 0 →
  frame_mem (ir_sched s) !! f = Some fr → 32 ≤ vector fr < 256 →
  vector fr ≠ SCHED_TICK_VECTOR → vector fr ≠ IPI_VECTOR_RESCHED → h = ps2_keyboard_irq ∨ h = nvme_irq_handler →
  wp (let! ok := irq_register_handler (vector fr) (Some h) in
      let! r := isr_handler me f in ret (ok, r))
    (λ r s', r = (true, f) ∧ irq_inv s' A bs rs ∧ running (ir_sched s') i = running (ir_sched s) i ∧
       ir_events s' = ir_events s ++ DriverIrq h f :: (if x86_lapic_ready me s then [Eoi i] else [])) s.
Proof.
  intros Hinv Hi Hf Hfr Hv Hnt Hnr Hh. pose proof Hinv as [Hs Ht Hfs].
  run_step. unfold irq_register_handler. rewrite (proj2 (Z.ltb_ge _ _)) by lia. cbn [orb].
  rewrite bool_decide_false by done. do 4 run_step.
  set (s1 := set_handlers _ s). assert (irq_inv s1 A bs rs) as Hinv1.
  { split; [done|unfold s1; simpl; by rewrite length_insert|done]. }
  unfold isr_handler. run_step. eapply frame_at_run; [done|]. rewrite (proj2 (Z.ltb_ge _ _)) by lia.
  run_step. unfold irq_dispatch. rewrite (proj2 (Z.eqb_neq _ _) Hf). run_step. eapply frame_at_run; [done|].
  rewrite (proj2 (Z.ltb_ge _ _)) by lia. run_step. run_step.
  replace (g_irq_handlers s1 !! Z.to_nat (vector fr)) with (Some (Some h))
    by (unfold s1; simpl; symmetry; apply list_lookup_insert_eq; lia).
  assert (call_handler me h f = modify (log_event (DriverIrq h f))) as -> by (by destruct Hh as [-> | ->]).
  run_step. set (s2 := log_event _ s1). assert (irq_inv s2 A bs rs) as Hinv2 by (by destruct Hinv1).
  run_step. eapply frame_at_run; [done|]. rewrite (proj2 (Z.eqb_neq _ _) Hnt). do 2 run_step.
  run_step. eapply frame_at_run; [done|]. do 2 run_step. rewrite (proj2 (Z.eqb_neq _ _) Hnr). cbn [andb]. run_step. run_step.
  eapply ack_run; [done|done|done|]. intros s' Hack. run_step.
  pose proof (ack_inv _ _ _ _ _ _ _ Hinv2 Hack) as Hinv3. split; [done|]. split; [done|].
  destruct (ack_events me i s2 s' (ir_sched s2)) as (Heoi & _ & p & Hs' & _); [exact Hack|done|].
  split; [by rewrite Hs'|]. unfold eoi_once in Heoi. rewrite Heoi. simpl. rewrite <- app_assoc. done.
Qed.

(** An exception never reaches a handler or the scheduler: it panics with its
    name, of which there is one for each of the 32 vectors. *)
Theorem isr_exception_panics me f fr s :
  frame_mem (ir_sched s) !! f = Some fr → 0 ≤ vector fr < 32 →
  ∃ msg, exception_messages !! Z.to_nat (vector fr) = Some msg ∧ isr_handler me f s = Halt msg.
Proof.
  intros Hfr Hv. assert (Z.to_nat (vector fr) < length exception_messages)%nat as Hlt by (cbn [length exception_messages]; lia).
  destruct (lookup_lt_is_Some_2 _ _ Hlt) as [msg Hmsg]. exists msg. split; [done|].
  unfold isr_handler, bind, frame_at. rewrite Hfr, (proj2 (Z.ltb_lt _ _)) by lia. unfold panic.
  by rewrite nth_lookup, Hmsg.
Qed.
End IrqSpec.
