(* ===== verification/IrqDemo.v ===== *)
(** Interrupts on the concrete scheduler of SchedDemo.v: the boot processor is
    interrupted with one thread waiting. *)

From S2P Require Import Prelude Vmalloc VmallocSpec Kmalloc KernMem Percpu Sched SchedSpec SchedDemo Irq IrqSpec.

(** The created thread is the block at 4096, its frame at the top of its stack. *)
Definition demo_thread : Z := 4096.
Definition demo_frame : Z := 2 ^ 40 + SCHED_STACK_SIZE - FRAME_BYTES.
Definition demo_queue : list acpu := <[0%nat := mkAcpu (boot_task 0) [demo_thread]]> abs_boot.

(** The boot processor with its local controller running, timer on vector 32. *)
Definition demo_cpus : percpu :=
  set_cpu 0 (with_lapic (mkLapic true true false false 0xFEE00900 0xFEE00000 0xFEE00000 4 0x14 6 0xFF 0x20 1000 true) 0 true
    (cpu_at (sc_percpu demo_sched1) 0)) (sc_percpu demo_sched1).

Lemma demo_sched1_facts :
  (runq_head <$> g_sched_cpus demo_sched1 !! 0%nat) = Some demo_thread ∧
  frame_of demo_sched1 demo_thread = demo_frame ∧
  frame_mem demo_sched1 !! demo_frame = Some (start_frame 0x1000 100 7) ∧
  cpu_self demo_cpus 4 = 0%nat ∧ initialized (lapic (cpu_at demo_cpus 0)) = true ∧
  (0 < length (g_cpus (sc_percpu demo_sched1)))%nat.
Proof. vm_compute. split_and!; try done. lia. Qed.

Lemma demo_cpus_ok : percpu_ok (sc_percpu demo_sched1) → percpu_ok demo_cpus.
Proof. intros H. apply percpu_ok_lapic; [exact H|apply demo_sched1_facts]. Qed.

#[local] Opaque demo_sched0 demo_sched1 demo_cpus abs_boot.

Lemma demo_queue_0 : demo_queue !! 0%nat = Some (mkAcpu (boot_task 0) [demo_thread]).
Proof. apply list_lookup_insert_eq, boot_0_lt. Qed.

Lemma demo_sched1_queue : ∃ bs rs, sched_inv demo_sched1 demo_queue bs rs.
Proof.
  destruct demo_sched1_inv as (t & bs & rs & Hinv). exists bs, rs.
  destruct demo_sched1_facts as (Hh & _). assert (t = demo_thread) as Ht0; [|rewrite Ht0 in Hinv; exact Hinv].
  destruct (g_sched_cpus demo_sched1 !! 0%nat) as [c|] eqn:Hc; [|discriminate]. injection Hh as Hh.
  assert (<[0%nat := mkAcpu (boot_task 0) [t]]> abs_boot !! 0%nat = Some (mkAcpu (boot_task 0) [t])) as Ha
    by (apply list_lookup_insert_eq, boot_0_lt).
  destruct (rep_cpu _ _ (si_rep _ _ _ _ Hinv) _ _ _ Hc Ha) as (_ & (Ht & _) & _). congruence.
Qed.

(** The thread waits; in memory are its frame, saved with vector [v], and the
    frame [fr] just pushed at 0x9000. *)
Definition frame_with (v : Z) : interrupt_frame := mkFrame 0 0 0 0 0 0 0 0 0 0 0 0 0 0 0 v 0 0 8 0x202.
Definition demo_irq (v w : Z) : irq_state demo_mem :=
  mkIrq (set_sc_percpu demo_cpus (set_ready (set_frames
      (<[0x9000 := frame_with w]> (<[demo_frame := frame_with v]> (frame_mem demo_sched1))) demo_sched1)))
    (replicate 256 None) true [].

Lemma demo_irq_frame v w x : frame_of (ir_sched (demo_irq v w)) x = frame_of demo_sched1 x.
Proof. reflexivity. Qed.

Lemma demo_irq_inv v w : ∃ bs rs, irq_inv (demo_irq v w) demo_queue bs rs.
Proof.
  destruct demo_sched1_queue as (bs & rs & Hinv). exists bs, rs. split; [|done|].
  - apply sched_inv_percpu.
    + destruct Hinv as [[] ? ?]. split; [by split|done|done].
    + apply demo_cpus_ok, (si_rep _ _ _ _ Hinv).
  - intros i a t Ha Hin. rewrite demo_irq_frame. destruct (decide (i = 0%nat)) as [->|Hi].
    + rewrite demo_queue_0 in Ha. injection Ha as <-. apply list_elem_of_singleton in Hin as ->.
      destruct demo_sched1_facts as (_ & -> & _). unfold demo_irq. cbn [ir_sched set_sc_percpu set_ready frame_mem set_frames].
      rewrite lookup_insert_ne by discriminate. rewrite lookup_insert_eq. eauto.
    + unfold demo_queue in Ha. rewrite list_lookup_insert_ne in Ha by done. apply abs_boot_lookup in Ha as [_ ->].
      by apply not_elem_of_nil in Hin.
Qed.

Lemma demo_irq_pushed v w : frame_mem (ir_sched (demo_irq v w)) !! 0x9000 = Some (frame_with w).
Proof. unfold demo_irq. cbn [ir_sched set_sc_percpu set_ready frame_mem set_frames]. apply lookup_insert_eq. Qed.

Lemma demo_irq_saved v w :
  frame_mem (ir_sched (demo_irq v w)) !! frame_of (ir_sched (demo_irq v w)) demo_thread = Some (frame_with v).
Proof.
  rewrite demo_irq_frame. destruct demo_sched1_facts as (_ & -> & _). unfold demo_irq.
  cbn [ir_sched set_sc_percpu set_ready frame_mem set_frames]. rewrite lookup_insert_ne by discriminate. apply lookup_insert_eq.
Qed.

Lemma demo_irq_self v w : self_cpu 4 (demo_irq v w) = 0%nat.
Proof. destruct demo_sched1_facts as (_ & _ & _ & H & _). exact H. Qed.

(** The interrupted processor's controller is initialised, so an acknowledgement is due. *)
Lemma demo_irq_ready v w : x86_lapic_ready 4 (demo_irq v w) = true.
Proof.
  unfold x86_lapic_ready, self_entry_of. rewrite demo_irq_self.
  destruct demo_sched1_facts as (_ & _ & _ & _ & H & _). exact H.
Qed.

Lemma isr_tick_resumes_next_witness : ∃ bs rs,
  wp (isr_handler 4 0x9000) (λ r s',
    r = demo_frame ∧
    frame_of (ir_sched s') (boot_task 0) = 0x9000 ∧
    running (ir_sched s') 0 = Some demo_thread ∧
    irq_inv s' (<[0%nat := mkAcpu demo_thread [boot_task 0]]> demo_queue) bs rs ∧
    ir_events s' = [Eoi 0]) (demo_irq 0 SCHED_TICK_VECTOR).
Proof.
  destruct (demo_irq_inv 0 SCHED_TICK_VECTOR) as (bs & rs & Hinv). exists bs, rs.
  pose proof (isr_tick_resumes_next 4 0x9000 (frame_with SCHED_TICK_VECTOR) (demo_irq 0 SCHED_TICK_VECTOR) demo_queue bs rs 0
    (mkAcpu (boot_task 0) [demo_thread]) Hinv (demo_irq_self _ _) demo_queue_0 ltac:(discriminate)
    (demo_irq_pushed _ _) eq_refl eq_refl) as Hthm.
  cbn [a_queue a_cur abs_tick app] in Hthm. rewrite demo_irq_frame in Hthm.
  destruct demo_sched1_facts as (_ & Hf & _). rewrite Hf in Hthm.
  unfold eoi_once in Hthm. rewrite demo_irq_ready in Hthm. apply Hthm.
  intros t fr' [= <-] Hfr. pose proof (demo_irq_saved 0 SCHED_TICK_VECTOR) as Hs.
  assert (Some fr' = Some (frame_with 0)) as Hx by (rewrite <- Hfr; exact Hs).
  apply (inj Some) in Hx as ->. discriminate.
Defined.

Lemma isr_resched_starves_witness :
  wp (timer_interrupts 1000 4 0x9000 (frame_with SCHED_TICK_VECTOR))
    (λ _ s', running (ir_sched s') 0 = Some (boot_task 0)) (demo_irq IPI_VECTOR_RESCHED 0).
Proof.
  destruct (demo_irq_inv IPI_VECTOR_RESCHED 0) as (bs & rs & Hinv).
  pose proof (isr_resched_starves 1000 4 0x9000 (frame_with SCHED_TICK_VECTOR) (demo_irq IPI_VECTOR_RESCHED 0)
    demo_queue bs rs 0 (boot_task 0) demo_thread (frame_with IPI_VECTOR_RESCHED) Hinv (demo_irq_self _ _)
    demo_queue_0) as Hthm.
  apply Hthm; [discriminate|reflexivity|reflexivity|reflexivity| |apply demo_irq_saved|reflexivity].
  rewrite demo_irq_frame. destruct demo_sched1_facts as (_ & -> & _). discriminate.
Defined.

Lemma irq_registered_handler_runs_witness : ∃ bs rs,
  wp (let! ok := irq_register_handler 0x21 (Some ps2_keyboard_irq) in
      let! r := isr_handler 4 0x9000 in ret (ok, r))
    (λ r s', r = (true, 0x9000) ∧ irq_inv s' demo_queue bs rs ∧
       running (ir_sched s') 0 = running (ir_sched (demo_irq 0 0x21)) 0 ∧
       ir_events s' = ir_events (demo_irq 0 0x21) ++ DriverIrq ps2_keyboard_irq 0x9000 ::
         [Eoi 0]) (demo_irq 0 0x21).
Proof.
  destruct (demo_irq_inv 0 0x21) as (bs & rs & Hinv). exists bs, rs.
  pose proof (irq_registered_handler_runs 4 0x9000 (frame_with 0x21) ps2_keyboard_irq (demo_irq 0 0x21) demo_queue bs rs 0
    Hinv (demo_irq_self _ _) ltac:(discriminate) (demo_irq_pushed _ _)) as Hthm.
  rewrite demo_irq_ready in Hthm. apply Hthm; [split; [discriminate|reflexivity]|discriminate|discriminate|by left].
Defined.

Lemma isr_exception_panics_witness :
  ∃ msg, exception_messages !! 14%nat = Some msg ∧ isr_handler 4 0x9000 (demo_irq 0 14) = Halt msg.
Proof.
  exact (isr_exception_panics 4 0x9000 (frame_with 14) (demo_irq 0 14) (demo_irq_pushed _ _) ltac:(split; [discriminate|reflexivity])).
Defined.
