(* ===== verification/Ipi.v ===== *)
(** Interrupts between processors (kernel/ipi.c) over the command register of
    the local controller (x86_lapic_send_ipi in arch/x86_64/cpu/apic.c).  The
    wait for the register to become idle, which only spins, is left out. *)

From S2P Require Import Prelude Vmalloc VmallocSpec Kmalloc KernMem Percpu Sched SchedSpec Irq IrqSpec.

Definition LAPIC_ICR_DELIVERY_FIXED : Z := 0.
Definition LAPIC_REG_ICR_LOW : Z := 0x300.
Definition LAPIC_REG_ICR_HIGH : Z := 0x310.
Definition X2APIC_ICR_MSR : Z := 0x830.

Section Ipi.
Context {Mem : Type}.
Abbreviation state := (irq_state Mem).
Implicit Types s : state.

(** One 64-bit write with x2APIC, else destination before command. *)
Definition x86_lapic_send_ipi (me target icr_low : Z) : M state unit :=
  let! s := get in
  if x2apic_enabled (lapic (self_entry_of me s)) then
    modify (log_event (MsrWrite X2APIC_ICR_MSR (Z.lor (Z.shiftl target 32) icr_low)))
  else
    modify (log_event (LapicWrite LAPIC_REG_ICR_HIGH (u32 (Z.shiftl target 24))));;
    modify (log_event (LapicWrite LAPIC_REG_ICR_LOW icr_low)).

Definition ipi_send_vector_apic (me target vec : Z) : M state unit :=
  x86_lapic_send_ipi me target (Z.lor LAPIC_ICR_DELIVERY_FIXED vec).

Definition ipi_send_vector_cpu (me id vec : Z) : M state unit :=
  let! s := get in
  if negb (x86_lapic_ready me s) then ret tt
  else if g_cpu_count (sc_percpu (ir_sched s)) <=? id then ret tt
  else
    let c := cpu_at (sc_percpu (ir_sched s)) (Z.to_nat id) in
    if negb (online c) then ret tt
    else ipi_send_vector_apic me (apic_id c) vec.

Definition ipi_broadcast_vector (me vec : Z) (include_self : bool) : M state unit :=
  let! s := get in
  if negb (x86_lapic_ready me s) then ret tt
  else
    let self := self_entry_of me s in
    let! _ := for_loop (Z.to_nat (g_cpu_count (sc_percpu (ir_sched s)))) 0 1 (λ i,
      let c := cpu_at (sc_percpu (ir_sched s)) (Z.to_nat i) in
      if negb (online c) then ret (@None unit)
      else if negb include_self && (apic_id c =? apic_id self) then ret None
      else ipi_send_vector_apic me (apic_id c) vec;; ret None) in
    ret tt.

Definition ipi_send_resched (me id : Z) : M state unit := ipi_send_vector_cpu me id IPI_VECTOR_RESCHED.
Definition ipi_broadcast_resched (me : Z) : M state unit := ipi_broadcast_vector me IPI_VECTOR_RESCHED false.
Definition ipi_send_tlb_shootdown (me id : Z) : M state unit := ipi_send_vector_cpu me id IPI_VECTOR_TLB.
Definition ipi_broadcast_tlb_shootdown (me : Z) : M state unit := ipi_broadcast_vector me IPI_VECTOR_TLB false.
Definition ipi_send_halt (me id : Z) : M state unit := ipi_send_vector_cpu me id IPI_VECTOR_HALT.

Definition ipi_tlb_shootdown (me : Z) : M state unit :=
  let! s := get in
  if negb (g_ipi_ready s) || (g_cpu_count (sc_percpu (ir_sched s)) <=? 1) then ret tt
  else ipi_broadcast_vector me IPI_VECTOR_TLB false.

Definition ipi_halt_others (me : Z) : M state unit :=
  let! s := get in
  if negb (g_ipi_ready s) || (g_cpu_count (sc_percpu (ir_sched s)) <=? 1) then ret tt
  else ipi_broadcast_vector me IPI_VECTOR_HALT false.

(** * A broadcast reaches exactly the other processors that are up *)

(** The writes that send [vec] to processor [id]. *)
Definition ipi_writes (x2 : bool) (vec id : Z) : list irq_event :=
  if x2 then [MsrWrite X2APIC_ICR_MSR (Z.lor (Z.shiftl id 32) vec)]
  else [LapicWrite LAPIC_REG_ICR_HIGH (u32 (Z.shiftl id 24)); LapicWrite LAPIC_REG_ICR_LOW vec].

(** The LAPIC ids of the processors that are up, in order, without [me]'s own. *)
Definition other_cpus (p : percpu) (me : Z) : list Z :=
  apic_id <$> filter (λ c, online c = true ∧ apic_id c ≠ apic_id (cpu_at p (cpu_self p me)))
    (cpu_at p <$> seq 0 (Z.to_nat (g_cpu_count p))).

Lemma send_ipi_run E me target vec s (Q : unit → state → Prop) :
  0 ≤ vec →
  Q tt (mkIrq (ir_sched s) (g_irq_handlers s) (g_ipi_ready s)
    (ir_events s ++ ipi_writes (x2apic_enabled (lapic (self_entry_of me s))) vec target)) →
  run E (ipi_send_vector_apic me target vec) Q s.
Proof.
  intros Hv HQ. unfold ipi_send_vector_apic, x86_lapic_send_ipi, LAPIC_ICR_DELIVERY_FIXED.
  rewrite Z.lor_0_l. run_step. run_step. unfold ipi_writes in HQ.
  destruct (x2apic_enabled _); [by run_step|]. run_steps.
  unfold log_event. simpl. rewrite <- app_assoc. exact HQ.
Qed.

Lemma seq_filter_snoc {A} (P : A → Prop) `{!∀ x, Decision (P x)} (g : nat → A) n :
  filter P (g <$> seq 0 (S n)) = filter P (g <$> seq 0 n) ++ (if decide (P (g n)) then [g n] else []).
Proof.
  rewrite seq_S, fmap_app, filter_app. simpl. f_equal.
Qed.

(** A broadcast: when the controller is in use, the vector is sent to every other
    processor that is online, once each, in table order and to nobody else; when
    it is not, nothing is sent.  Nothing but the command register is touched. *)
Theorem ipi_broadcast_reaches_others me vec s :
  0 ≤ vec →
  wp (ipi_broadcast_vector me vec false) (λ _ s',
    s' = mkIrq (ir_sched s) (g_irq_handlers s) (g_ipi_ready s)
      (ir_events s ++ (if x86_lapic_ready me s
        then other_cpus (sc_percpu (ir_sched s)) me ≫= ipi_writes (x2apic_enabled (lapic (self_entry_of me s))) vec
        else []))) s.
Proof.
  intros Hv. unfold ipi_broadcast_vector. run_step. run_step. destruct (x86_lapic_ready me s) eqn:Hr; simpl.
  2: { run_step. rewrite app_nil_r. by destruct s. }
  set (p := sc_percpu (ir_sched s)). set (x2 := x2apic_enabled _).
  set (sent n := (apic_id <$> filter (λ c, online c = true ∧ apic_id c ≠ apic_id (cpu_at p (cpu_self p me)))
    (cpu_at p <$> seq 0 n)) ≫= ipi_writes x2 vec).
  run_step.
  eapply (run_for_loop _ _ _ _ _ (λ j s', s' = mkIrq (ir_sched s) (g_irq_handlers s) (g_ipi_ready s)
    (ir_events s ++ sent j))).
  - unfold sent. simpl. rewrite app_nil_r. by destruct s.
  - intros j s' Hj ->. replace (Z.to_nat (0 + Z.of_nat j * 1)) with j by lia.
    assert (sent (S j) = sent j ++ (if decide (online (cpu_at p j) = true ∧
      apic_id (cpu_at p j) ≠ apic_id (cpu_at p (cpu_self p me))) then ipi_writes x2 vec (apic_id (cpu_at p j)) else [])) as Hs.
    { unfold sent. rewrite seq_filter_snoc, fmap_app, bind_app. f_equal. destruct (decide _); simpl; [by rewrite app_nil_r|done]. }
    rewrite Hs. change (self_entry_of me s) with (cpu_at p (cpu_self p me)).
    destruct (online (cpu_at p j)) eqn:Ho; cbn [negb andb].
    + destruct (Z.eqb_spec (apic_id (cpu_at p j)) (apic_id (cpu_at p (cpu_self p me)))) as [He|Hne]; cbn [negb andb].
      * run_step. rewrite decide_False by naive_solver. by rewrite app_nil_r.
      * run_step. apply send_ipi_run; [done|]. run_step. rewrite decide_True by done. by rewrite app_assoc.
    + run_step. rewrite decide_False by naive_solver. by rewrite app_nil_r.
  - intros s' ->. by run_step.
Qed.
End Ipi.
