(* ===== verification/Printk.v ===== *)
(** Formatted output (include/printk.c): the number and format routines, and the
    text console on the frame buffer.

    The frame buffer is [fb_mem], a memory of [fb_words] pixels; an access
    outside it is a [Fault].  Characters are bytes.  A format string is the list
    of its characters without the terminating zero. *)

From S2P Require Import Prelude Boot Font.

Definition COLOR_FG : Z := 0x00F8F8F2.
Definition COLOR_BG : Z := 0.
Definition TAB_WIDTH : Z := 4.

Record con_state : Type := mkCon {
  fb_mem : gmap Z Z;
  fb_words : Z;
  fb_pitch_px : Z;
  fb_width_px : Z;
  fb_height_px : Z;
  cols_max : Z;
  rows_max : Z;
  cursor_col : Z;
  cursor_row : Z;
  print_enabled : bool;
  printlock : bool
}.
Abbreviation state := con_state.
Implicit Types s : con_state.

Definition set_fb (m : gmap Z Z) s : state :=
  mkCon m (fb_words s) (fb_pitch_px s) (fb_width_px s) (fb_height_px s) (cols_max s) (rows_max s)
    (cursor_col s) (cursor_row s) (print_enabled s) (printlock s).
Definition set_cursor (col row : Z) s : state :=
  mkCon (fb_mem s) (fb_words s) (fb_pitch_px s) (fb_width_px s) (fb_height_px s) (cols_max s) (rows_max s)
    col row (print_enabled s) (printlock s).
Definition set_enabled (b : bool) s : state :=
  mkCon (fb_mem s) (fb_words s) (fb_pitch_px s) (fb_width_px s) (fb_height_px s) (cols_max s) (rows_max s)
    (cursor_col s) (cursor_row s) b (printlock s).
Definition set_printlock (b : bool) s : state :=
  mkCon (fb_mem s) (fb_words s) (fb_pitch_px s) (fb_width_px s) (fb_height_px s) (cols_max s) (rows_max s)
    (cursor_col s) (cursor_row s) (print_enabled s) b.

(** * Pixels *)

Definition pixel s (i : Z) : Z := default 0 (fb_mem s !! i).
Definition fb_store (i colour : Z) : M state unit :=
  λ s, if (0 <=? i) && (i <? fb_words s) then Ok (tt, set_fb (<[i := colour]> (fb_mem s)) s) else Fault.
Definition fb_load (i : Z) : M state Z :=
  λ s, if (0 <=? i) && (i <? fb_words s) then Ok (pixel s i, s) else Fault.

Definition put_pixel (x y colour : Z) : M state unit :=
  let! s := get in fb_store (u32 (u32 (y * fb_pitch_px s) + x)) colour.

Definition fill_rect (x y w h colour : Z) : M state unit :=
  for_each (Z.to_nat h) 0 (λ row,
    let! s := get in
    let line := u32 (u32 (y + row) * fb_pitch_px s) + x in
    for_each (Z.to_nat w) 0 (λ col, fb_store (line + col) colour)).

Definition draw_glyph (gcol grow c : Z) : M state unit :=
  let c := if FONT_GLYPHS <=? c then 32 else c in
  let px := u32 (gcol * FONT_WIDTH) in
  let py := u32 (grow * FONT_HEIGHT) in
  for_each (Z.to_nat FONT_HEIGHT) 0 (λ row,
    let bits := font_row c row in
    for_each (Z.to_nat FONT_WIDTH) 0 (λ col,
      let colour := if Z.land bits (Z.shiftr 0x80 col) =? 0 then COLOR_BG else COLOR_FG in
      put_pixel (u32 (px + col)) (u32 (py + row)) colour)).

Definition scroll_up : M state unit :=
  let! s := get in
  let glyph_row_pixels := u32 (FONT_HEIGHT * fb_pitch_px s) in
  let count := u32 (u32 (rows_max s - 1) * glyph_row_pixels) in
  for_each (Z.to_nat count) 0 (λ i,
    let! v := fb_load (glyph_row_pixels + i) in
    fb_store i v);;
  fill_rect 0 (u32 (u32 (rows_max s - 1) * FONT_HEIGHT)) (fb_pitch_px s) FONT_HEIGHT COLOR_BG.

(** * Cursor *)

Definition check_scroll : M state unit :=
  let! s := get in
  if rows_max s <=? cursor_row s then
    scroll_up;;
    modify (λ s, set_cursor (cursor_col s) (u32 (rows_max s - 1)) s)
  else ret tt.

Definition advance_cursor : M state unit :=
  modify (λ s, set_cursor (u32 (cursor_col s + 1)) (cursor_row s) s);;
  let! s := get in
  if cols_max s <=? cursor_col s then
    modify (λ s, set_cursor 0 (u32 (cursor_row s + 1)) s);;
    check_scroll
  else ret tt.

Definition newline : M state unit :=
  modify (λ s, set_cursor 0 (u32 (cursor_row s + 1)) s);;
  check_scroll.

Definition emit_char (c : Z) : M state unit :=
  if c =? 10 then newline
  else if c =? 13 then modify (λ s, set_cursor 0 (cursor_row s) s)
  else if c =? 9 then
    let! s := get in
    let spaces := u32 (TAB_WIDTH - cursor_col s mod TAB_WIDTH) in
    for_each (Z.to_nat spaces) 0 (λ _,
      let! s := get in
      draw_glyph (cursor_col s) (cursor_row s) 32;;
      advance_cursor)
  else
    let! s := get in
    draw_glyph (cursor_col s) (cursor_row s) c;;
    advance_cursor.

Fixpoint emit_chars (str : list Z) : M state unit :=
  match str with
  | [] => ret tt
  | c :: str' => emit_char c;; emit_chars str'
  end.

(** The characters of a string literal. *)
Definition lit (s : string) : list Z := (λ a, Z.of_N (Ascii.N_of_ascii a)) <$> String.list_ascii_of_string s.

(** [None] is the null pointer. *)
Definition emit_string (str : option (list Z)) : M state unit :=
  emit_chars (default (lit "(null)") str).

(** * Numbers *)

Definition digits_low : list Z := lit "0123456789abcdef".
Definition digits_up : list Z := lit "0123456789ABCDEF".

(** The digit loop, least significant first; [None] when [room] bytes of [buf] do
    not suffice. *)
Fixpoint uint_digits (digits : list Z) (base : Z) (room : nat) (value : Z) : option (list Z) :=
  if value =? 0 then Some []
  else match room with
       | O => None
       | S room' => cons (nth (Z.to_nat (value mod base)) digits 0) <$> uint_digits digits base room' (value / base)
       end.

Definition UINT_BUF : nat := 64.

(** The contents of [buf] before it is emitted backwards. *)
Definition uint_buf (value base : Z) (uppercase : bool) (min_digits : nat) : option (list Z) :=
  let digits := if uppercase then digits_up else digits_low in
  ds ← (if value =? 0 then Some [48] else uint_digits digits base UINT_BUF value);
  let buf := ds ++ replicate (min_digits - length ds) 48 in
  if (length buf <=? UINT_BUF)%nat then Some buf else None.

Definition emit_uint (value base : Z) (uppercase : bool) (min_digits : nat) : M state unit :=
  match uint_buf value base uppercase min_digits with
  | None => fault
  | Some buf => emit_chars (reverse buf)
  end.

(** [value] is an [int64_t]; the negation is that of the code, which avoids the
    overflow of [-INT64_MIN]. *)
Definition emit_int (value : Z) : M state unit :=
  if value <? 0 then
    emit_char 45;;
    emit_uint (u64 (u64 (- (value + 1)) + 1)) 10 false 0
  else emit_uint (u64 value) 10 false 0.

(** * Formats *)

Inductive LenMod : Type := LEN_NONE | LEN_L | LEN_LL | LEN_Z.
#[export] Instance LenMod_eq_dec : EqDecision LenMod.
Proof. solve_decision. Defined.

(** A variadic argument: a register-sized word, or a string. *)
Inductive varg : Type :=
  | Word (w : Z)
  | Str (s : option (list Z)).

Definition sext (w x : Z) : Z := if wrap w x <? 2 ^ (w - 1) then wrap w x else wrap w x - 2 ^ w.

(** [va_arg] at the width the length modifier selects. *)
Definition arg_signed (len : LenMod) (w : Z) : Z :=
  match len with LEN_NONE => sext 32 w | LEN_L | LEN_LL | LEN_Z => sext 64 w end.
Definition arg_unsigned (len : LenMod) (w : Z) : Z :=
  match len with LEN_NONE => u32 w | LEN_L | LEN_LL | LEN_Z => u64 w end.

Definition next_word (args : list varg) (k : Z → M state unit) : M state (list varg) :=
  match args with Word w :: args' => k w;; ret args' | _ => fault end.

(** One conversion character [k] with its length modifier; the result is the
    remaining arguments. *)
Definition convert (len : LenMod) (k : Z) (args : list varg) : M state (list varg) :=
  if (k =? 100) || (k =? 105) then next_word args (λ w, emit_int (arg_signed len w))
  else if k =? 117 then next_word args (λ w, emit_uint (arg_unsigned len w) 10 false 0)
  else if k =? 120 then next_word args (λ w, emit_uint (arg_unsigned len w) 16 false 0)
  else if k =? 88 then next_word args (λ w, emit_uint (arg_unsigned len w) 16 true 0)
  else if k =? 112 then
    emit_string (Some (lit "0x"));;
    next_word args (λ w, emit_uint (u64 w) 16 false 16)
  else if k =? 115 then
    match args with Str str :: args' => emit_string str;; ret args' | _ => fault end
  else if k =? 99 then next_word args (λ w, emit_char (u8 w))
  else if k =? 37 then emit_char 37;; ret args
  else
    emit_char 37;;
    match len with
    | LEN_L => emit_char 108
    | LEN_LL => emit_char 108;; emit_char 108
    | LEN_Z => emit_char 122
    | LEN_NONE => ret tt
    end;;
    emit_char k;;
    ret args.

(** The format loop.  When the string ends inside a conversion, the zero is
    treated as an unknown conversion and the loop steps past it: [fault]. *)
Fixpoint vprintk (fmt : list Z) (args : list varg) : M state unit :=
  match fmt with
  | [] => ret tt
  | c :: fmt1 =>
      if negb (c =? 37) then emit_char c;; vprintk fmt1 args
      else
        let conv len rest :=
          match rest with
          | [] => let! _ := convert len 0 args in fault
          | k :: rest' => let! args' := convert len k args in vprintk rest' args'
          end in
        match fmt1 with
        | [] => conv LEN_NONE []
        | d :: fmt2 =>
            if d =? 122 then conv LEN_Z fmt2
            else if d =? 108 then
              match fmt2 with
              | [] => conv LEN_L []
              | e :: fmt3 => if e =? 108 then conv LEN_LL fmt3 else conv LEN_L fmt2
              end
            else conv LEN_NONE fmt1
        end
  end.

(** * Entry points *)

(** The unconditional stops of [printk_halt] are [panic ""]. *)
Definition printk_init (fb : BootFramebuffer) : M state unit :=
  if address fb =? 0 then panic ""
  else if negb (bpp fb =? 32) || (pitch fb =? 0) || negb (pitch fb mod 4 =? 0) then panic ""
  else
    let w := u32 (width fb) in
    let h := u32 (height fb) in
    let p := u32 (pitch fb / 4) in
    if (w =? 0) || (h =? 0) then panic ""
    else
      let cols := w / FONT_WIDTH in
      let rows := h / FONT_HEIGHT in
      if (cols =? 0) || (rows =? 0) then panic ""
      else
        modify (λ s, mkCon (fb_mem s) (fb_words s) p w h cols rows 0 0 (print_enabled s) (printlock s));;
        fill_rect 0 0 p h COLOR_BG;;
        modify (set_enabled true).

Definition printk (fmt : list Z) (args : list varg) : M state unit := vprintk fmt args.

Definition safe_printk (fmt : list Z) (args : list varg) : M state unit :=
  acquire printlock set_printlock;;
  let! s := get in
  if negb (print_enabled s) then ret tt
  else
    vprintk fmt args;;
    release set_printlock.

Definition clear_screen : M state unit :=
  let! s := get in
  fill_rect 0 0 (fb_pitch_px s) (fb_height_px s) COLOR_BG;;
  modify (set_cursor 0 0).

Definition printk_hex8 (value : Z) : M state unit :=
  emit_char (nth (Z.to_nat (Z.land (Z.shiftr value 4) 0x0F)) digits_up 0);;
  emit_char (nth (Z.to_nat (Z.land value 0x0F)) digits_up 0).

Definition disable_print : M state unit := modify (set_enabled false).

Definition handoff_framebuffer : M state unit := disable_print.
