(* ===== verification/PrintkSpec.v ===== *)
(** The console implements a text terminal, and formatted output prints what the
    formats mean. *)

From S2P Require Import Prelude Boot Font Printk.

(** * Abstract terminal *)

Record term : Type := mkTerm {
  t_text : Z → Z → Z;   (** row, column *)
  t_col : Z;
  t_row : Z
}.

Section Terminal.
Variables cols rows : Z.

Definition term_newline (t : term) : term :=
  if t_row t + 1 <? rows then mkTerm (t_text t) 0 (t_row t + 1)
  else mkTerm (λ r c, if r <? rows - 1 then t_text t (r + 1) c else 32) 0 (rows - 1).

Definition term_put (ch : Z) (t : term) : term :=
  let text := λ r c, if (r =? t_row t) && (c =? t_col t) then ch else t_text t r c in
  if t_col t + 1 <? cols then mkTerm text (t_col t + 1) (t_row t)
  else term_newline (mkTerm text (t_col t) (t_row t)).

Definition term_char (ch : Z) (t : term) : term :=
  if ch =? 10 then term_newline t
  else if ch =? 13 then mkTerm (t_text t) 0 (t_row t)
  else if ch =? 9 then Nat.iter (Z.to_nat (TAB_WIDTH - t_col t mod TAB_WIDTH)) (term_put 32) t
  else term_put ch t.

Definition term_chars (str : list Z) (t : term) : term := foldl (λ t ch, term_char ch t) t str.
End Terminal.

(** * The console represents a terminal *)

(** The frame buffer holds the text area, and its size fits 32 bits. *)
Record geometry s : Prop := {
  geo_cols : 0 < cols_max s ∧ cols_max s * FONT_WIDTH ≤ fb_pitch_px s;
  geo_rows : 0 < rows_max s ∧ rows_max s * FONT_HEIGHT ≤ fb_height_px s;
  geo_size : fb_pitch_px s * fb_height_px s ≤ fb_words s;
  geo_width : fb_pitch_px s * fb_height_px s < 2 ^ 32
}.

Definition glyph_pixel (c dx dy : Z) : Z :=
  let c := if FONT_GLYPHS <=? c then 32 else c in
  if Z.land (font_row c dy) (Z.shiftr 0x80 dx) =? 0 then COLOR_BG else COLOR_FG.

(** Pixel [x] of line [y]. *)
Definition at_xy s (x y : Z) : Z := pixel s (y * fb_pitch_px s + x).

Definition shows s (text : Z → Z → Z) : Prop :=
  ∀ x y, 0 ≤ x < cols_max s * FONT_WIDTH → 0 ≤ y < rows_max s * FONT_HEIGHT →
    at_xy s x y = glyph_pixel (text (y / FONT_HEIGHT) (x / FONT_WIDTH)) (x mod FONT_WIDTH) (y mod FONT_HEIGHT).

Record con_rep s (t : term) : Prop := {
  cr_geo : geometry s;
  cr_col : cursor_col s = t_col t ∧ 0 ≤ t_col t < cols_max s;
  cr_row : cursor_row s = t_row t ∧ 0 ≤ t_row t < rows_max s;
  cr_text : shows s (t_text t)
}.

(** ** Painting rectangles *)

(** [s'] is [s] with the pixels of [D] set to [f]. *)
Definition painted (D : Z → Z → bool) (f : Z → Z → Z) s s' : Prop :=
  (∃ m, s' = set_fb m s) ∧
  ∀ x y, 0 ≤ x < fb_pitch_px s → 0 ≤ y < fb_height_px s →
    at_xy s' x y = if D x y then f x y else at_xy s x y.

Lemma painted_geo D f s s' : painted D f s s' → geometry s → geometry s'.
Proof. intros [[m ->] _] []. by split. Qed.

Lemma painted_none D f s : (∀ x y, D x y = false) → painted D f s s.
Proof. intros HD. split; [exists (fb_mem s); by destruct s|]. intros x y _ _. by rewrite HD. Qed.

Lemma painted_trans D1 D2 D f s s1 s2 :
  painted D1 f s s1 → painted D2 f s1 s2 → (∀ x y, D x y = D1 x y || D2 x y) → painted D f s s2.
Proof.
  intros [[m1 ->] H1] [[m2 ->] H2] HD. split; [by exists m2|]. intros x y Hx Hy.
  rewrite H2, H1, HD by done. destruct (D1 x y), (D2 x y); done.
Qed.

Lemma fb_store_run E x y v f s (Q : unit → con_state → Prop) :
  geometry s → 0 ≤ x < fb_pitch_px s → 0 ≤ y < fb_height_px s → v = f x y →
  (∀ s', painted (λ x' y', (x' =? x) && (y' =? y)) f s s' → Q tt s') →
  run E (fb_store (y * fb_pitch_px s + x) v) Q s.
Proof.
  intros [_ _ G3 _] Hx Hy -> HQ. unfold run, fb_store.
  assert (0 ≤ y * fb_pitch_px s + x < fb_words s) as [H0 H1] by nia.
  rewrite (proj2 (Z.leb_le _ _) H0), (proj2 (Z.ltb_lt _ _) H1). simpl. apply HQ. split; [by eexists|].
  intros x' y' Hx' Hy'. unfold at_xy, pixel. simpl.
  destruct (Z.eqb_spec x' x) as [->|Hnx]; simpl; [destruct (Z.eqb_spec y' y) as [->|Hny]|].
  - by rewrite lookup_insert_eq.
  - rewrite lookup_insert_ne; [done|nia].
  - rewrite lookup_insert_ne; [done|]. intros Heq. apply Hnx.
    assert (y = y') as <-; [|lia]. assert (y < y' → False) by nia. assert (y' < y → False) by nia. lia.
Qed.

(** A loop over the pixels [x0 .. x0+w-1] of line [y]. *)
Lemma row_run E body x0 y w f s (Q : unit → con_state → Prop) :
  geometry s → 0 ≤ x0 → x0 + Z.of_nat w ≤ fb_pitch_px s → 0 ≤ y < fb_height_px s →
  (∀ k m, 0 ≤ k < Z.of_nat w → body k (set_fb m s) = fb_store (y * fb_pitch_px s + (x0 + k)) (f (x0 + k) y) (set_fb m s)) →
  (∀ s', painted (λ x' y', (x0 <=? x') && (x' <? x0 + Z.of_nat w) && (y' =? y)) f s s' → Q tt s') →
  run E (for_each w 0 body) Q s.
Proof.
  intros HG Hx0 Hw Hy Hbody HQ.
  apply (run_for_each _ _ _ _ (λ j s', painted (λ x' y', (x0 <=? x') && (x' <? x0 + Z.of_nat j) && (y' =? y)) f s s')).
  - apply painted_none. intros x' y'. destruct (Z.leb_spec x0 x'); simpl; [|done].
    by rewrite (proj2 (Z.ltb_ge _ _)) by lia.
  - intros j s' Hj Hp. pose proof Hp as [[m ->] _]. unfold run. rewrite Hbody by lia.
    change (fb_pitch_px s) with (fb_pitch_px (set_fb m s)).
    apply (fb_store_run E (x0 + (0 + Z.of_nat j)) y _ f (set_fb m s)); [by destruct HG|simpl; lia|done|done|].
    intros s2 Hp2. eapply painted_trans; [exact Hp|exact Hp2|]. intros x' y'. simpl.
    destruct (Z.leb_spec x0 x'), (Z.ltb_spec x' (x0 + Z.of_nat (S j))), (Z.ltb_spec x' (x0 + Z.of_nat j)),
      (Z.eqb_spec x' (x0 + Z.of_nat j)), (y' =? y); simpl; try done; lia.
  - intros s' Hp. by apply HQ.
Qed.

Definition in_rect (x0 y0 w h x y : Z) : bool := (x0 <=? x) && (x <? x0 + w) && ((y0 <=? y) && (y <? y0 + h)).

(** A loop over the lines [y0 .. y0+h-1], painting pixels [x0 .. x0+w-1] of each. *)
Lemma rect_run E body x0 y0 w h f s (Q : unit → con_state → Prop) :
  geometry s → 0 ≤ y0 → y0 + Z.of_nat h ≤ fb_height_px s →
  (∀ k m (R : unit → con_state → Prop), 0 ≤ k < Z.of_nat h →
     (∀ s', painted (λ x' y', (x0 <=? x') && (x' <? x0 + w) && (y' =? y0 + k)) f (set_fb m s) s' → R tt s') →
     run E (body k) R (set_fb m s)) →
  (∀ s', painted (in_rect x0 y0 w (Z.of_nat h)) f s s' → Q tt s') →
  run E (for_each h 0 body) Q s.
Proof.
  intros HG Hy0 Hh Hbody HQ.
  apply (run_for_each _ _ _ _ (λ j s', painted (in_rect x0 y0 w (Z.of_nat j)) f s s')).
  - apply painted_none. intros x' y'. unfold in_rect. destruct ((x0 <=? x') && (x' <? x0 + w)); simpl; [|done].
    destruct (Z.leb_spec y0 y'); simpl; [|done]. by rewrite (proj2 (Z.ltb_ge _ _)) by lia.
  - intros j s' Hj Hp. pose proof Hp as [[m ->] _]. apply Hbody; [lia|]. intros s2 Hp2.
    eapply painted_trans; [exact Hp|exact Hp2|]. intros x' y'. unfold in_rect.
    destruct ((x0 <=? x') && (x' <? x0 + w)); simpl; [|done].
    destruct (Z.leb_spec y0 y'), (Z.ltb_spec y' (y0 + Z.of_nat (S j))), (Z.ltb_spec y' (y0 + Z.of_nat j)),
      (Z.eqb_spec y' (y0 + Z.of_nat j)); simpl; try done; lia.
  - intros s' Hp. by apply HQ.
Qed.

(** Bounds that keep the 32-bit coordinate arithmetic exact. *)
Lemma geometry_u32 s x y : geometry s → 0 ≤ x < fb_pitch_px s → 0 ≤ y < fb_height_px s →
  u32 (u32 (y * fb_pitch_px s) + x) = y * fb_pitch_px s + x ∧ u32 x = x ∧ u32 y = y.
Proof.
  intros [G1 G2 G3 G4] Hx Hy. unfold FONT_WIDTH, FONT_HEIGHT in *.
  assert (y * fb_pitch_px s + x < 2 ^ 32) by nia. assert (x < 2 ^ 32 ∧ y < 2 ^ 32) as [? ?] by nia.
  assert (0 ≤ y * fb_pitch_px s) by nia.
  rewrite !wrap_small by (unfold in_width; rewrite ?wrap_small by (unfold in_width; lia); lia). done.
Qed.

Lemma fill_rect_run E x y w h colour s (Q : unit → con_state → Prop) :
  geometry s → 0 ≤ x → 0 ≤ w → x + w ≤ fb_pitch_px s → 0 ≤ y → 0 ≤ h → y + h ≤ fb_height_px s →
  (∀ s', painted (in_rect x y w h) (λ _ _, colour) s s' → Q tt s') →
  run E (fill_rect x y w h colour) Q s.
Proof.
  intros HG Hx Hw Hxw Hy Hh Hyh HQ. unfold fill_rect.
  assert (geometry s → 0 < fb_pitch_px s) as Hp by (intros [[? ?] _ _ _]; unfold FONT_WIDTH in *; lia).
  apply (rect_run E _ x y w (Z.to_nat h) (λ _ _, colour)); [done|done|lia| |].
  - intros k m R Hk HR. run_step. run_step. simpl.
    assert (u32 (u32 (y + k) * fb_pitch_px s) = (y + k) * fb_pitch_px s) as ->.
    { destruct (geometry_u32 s 0 (y + k) HG) as (He & _ & Hu); [specialize (Hp HG); lia|lia|].
      rewrite Hu. rewrite !Z.add_0_r in He. rewrite <- He at 2. symmetry. apply wrap_small, wrap_range. lia. }
    apply (row_run E _ x (y + k) (Z.to_nat w) (λ _ _, colour) (set_fb m s)); [by destruct HG|done|simpl; lia|simpl; lia| |].
    + intros j m' Hj. simpl. by rewrite Z.add_assoc.
    + intros s' Hs'. apply HR. by rewrite Z2Nat.id in Hs' by done.
  - intros s' Hs'. apply HQ. by rewrite Z2Nat.id in Hs' by done.
Qed.

(** The pixels of glyph cell ([gcol], [grow]) as coordinates inside the cell. *)
Lemma cell_coords gcol x :
  (gcol * 8 <=? x) && (x <? gcol * 8 + 8) = (x / 8 =? gcol).
Proof. apply eq_true_iff_eq. rewrite andb_true_iff, Z.leb_le, Z.ltb_lt, Z.eqb_eq. split; intros; dlia. Qed.

Lemma cell_lines grow y :
  (grow * 16 <=? y) && (y <? grow * 16 + 16) = (y / 16 =? grow).
Proof. apply eq_true_iff_eq. rewrite andb_true_iff, Z.leb_le, Z.ltb_lt, Z.eqb_eq. split; intros; dlia. Qed.

Lemma draw_glyph_run E gcol grow c s (Q : unit → con_state → Prop) :
  geometry s → 0 ≤ gcol < cols_max s → 0 ≤ grow < rows_max s →
  (∀ s', painted (λ x y, (x / 8 =? gcol) && (y / 16 =? grow))
           (λ x y, glyph_pixel c (x mod 8) (y mod 16)) s s' → Q tt s') →
  run E (draw_glyph gcol grow c) Q s.
Proof.
  intros HG Hc Hr HQ. pose proof HG as [[G1 G1'] [G2 G2'] G3 G4]. unfold FONT_WIDTH, FONT_HEIGHT in *. unfold draw_glyph.
  unfold FONT_WIDTH, FONT_HEIGHT.
  destruct (geometry_u32 s (gcol * 8) (grow * 16) HG) as (_ & -> & ->); [lia|lia|].
  apply (rect_run E _ (gcol * 8) (grow * 16) 8 16 (λ x y, glyph_pixel c (x mod 8) (y mod 16))); [done|lia|lia| |].
  - intros k m R Hk HR.
    apply (row_run E _ (gcol * 8) (grow * 16 + k) 8 (λ x y, glyph_pixel c (x mod 8) (y mod 16)) (set_fb m s)); [by destruct HG|lia|simpl; lia|simpl; lia| |].
    + intros j m' Hj. unfold put_pixel, bind, get. simpl.
      destruct (geometry_u32 s (gcol * 8 + j) (grow * 16 + k) HG) as (He & -> & ->); [lia|lia|]. rewrite He.
      f_equal. unfold glyph_pixel. replace ((gcol * 8 + j) mod 8) with j by dlia.
      by replace ((grow * 16 + k) mod 16) with k by dlia.
    + intros s' Hs'. by apply HR.
  - intros s' [Hm Hs']. apply HQ. split; [done|]. intros x y Hx Hy. rewrite Hs' by done. unfold in_rect.
    change (Z.of_nat 16) with 16. by rewrite cell_coords, cell_lines.
Qed.

(** Drawing a glyph changes one cell of the text. *)
Lemma shows_put s s' text gcol grow c :
  geometry s → shows s text → 0 ≤ gcol < cols_max s → 0 ≤ grow < rows_max s →
  painted (λ x y, (x / 8 =? gcol) && (y / 16 =? grow)) (λ x y, glyph_pixel c (x mod 8) (y mod 16)) s s' →
  shows s' (λ r k, if (r =? grow) && (k =? gcol) then c else text r k).
Proof.
  intros [[G1 G1'] [G2 G2'] _ _] Hs Hc Hr [[m ->] Hp] x y Hx Hy. simpl in Hx, Hy.
  rewrite Hp by lia. unfold FONT_WIDTH, FONT_HEIGHT in *. rewrite andb_comm.
  destruct ((y / 16 =? grow) && (x / 8 =? gcol)); [done|]. by apply Hs.
Qed.

(** * Scrolling *)

Lemma scroll_copy_run E g n s (Q : unit → con_state → Prop) :
  0 < g → g + Z.of_nat n ≤ fb_words s →
  (∀ m, (∀ i, pixel (set_fb m s) i = if (0 <=? i) && (i <? Z.of_nat n) then pixel s (g + i) else pixel s i) →
     Q tt (set_fb m s)) →
  run E (for_each n 0 (λ i, let! v := fb_load (g + i) in fb_store i v)) Q s.
Proof.
  intros Hg Hn HQ.
  apply (run_for_each _ _ _ _ (λ j s', ∃ m, s' = set_fb m s ∧
    ∀ i, pixel s' i = if (0 <=? i) && (i <? Z.of_nat j) then pixel s (g + i) else pixel s i)).
  - exists (fb_mem s). split; [by destruct s|]. intros i. destruct (Z.leb_spec 0 i); simpl; [|done].
    by rewrite (proj2 (Z.ltb_ge _ _)) by lia.
  - intros j s' Hj (m & -> & Hp). unfold run, bind, fb_load, fb_store. simpl.
    rewrite (proj2 (Z.leb_le 0 _)), (proj2 (Z.ltb_lt _ _)) by lia. simpl.
    rewrite (proj2 (Z.leb_le 0 _)), (proj2 (Z.ltb_lt _ _)) by lia. simpl.
    eexists. split; [reflexivity|]. intros i. rewrite Hp. unfold pixel at 1. simpl.
    rewrite (proj2 (Z.leb_le 0 _)), (proj2 (Z.ltb_ge _ (Z.of_nat j))) by lia. simpl.
    destruct (decide (i = Z.of_nat j)) as [->|Hne].
    + rewrite lookup_insert_eq. simpl. rewrite (proj2 (Z.leb_le 0 _)), (proj2 (Z.ltb_lt _ _)) by lia. done.
    + rewrite lookup_insert_ne by done. change (default 0 (m !! i)) with (pixel (set_fb m s) i). rewrite Hp.
      destruct (Z.leb_spec 0 i); simpl; [|done].
      destruct (Z.ltb_spec i (Z.of_nat j)), (Z.ltb_spec i (Z.of_nat (S j))); try done; lia.
  - intros s' (m & -> & Hp). by apply HQ.
Qed.

Lemma scroll_up_run E text s (Q : unit → con_state → Prop) :
  geometry s → shows s text →
  (∀ m, shows (set_fb m s) (λ r c, if r <? rows_max s - 1 then text (r + 1) c else 32) → Q tt (set_fb m s)) →
  run E scroll_up Q s.
Proof.
  intros HG Hs HQ. pose proof HG as [[G1 G1'] [G2 G2'] G3 G4]. unfold FONT_WIDTH, FONT_HEIGHT in *.
  set (p := fb_pitch_px s) in *. set (h := fb_height_px s) in *. set (n := rows_max s) in *.
  assert (0 < p ∧ 0 < h) as [P1 P2] by lia.
  assert (n * 16 * p ≤ p * h) as B2 by nia. assert (h ≤ p * h) as B3 by nia.
  assert (16 * p ≤ n * 16 * p) as B1 by nia.
  assert (0 ≤ (n - 1) * (16 * p)) as B5 by nia.
  unfold scroll_up. run_step. run_step. fold p n. unfold FONT_HEIGHT.
  rewrite (wrap_small 32 (16 * p)) by (unfold in_width; lia). rewrite (wrap_small 32 (n - 1)) by (unfold in_width; lia).
  rewrite (wrap_small 32 ((n - 1) * (16 * p))) by (unfold in_width; lia).
  rewrite (wrap_small 32 ((n - 1) * 16)) by (unfold in_width; lia).
  run_step. apply scroll_copy_run; [lia|lia|]. intros m Hm. rewrite Z2Nat.id in Hm by done.
  apply fill_rect_run; simpl; fold p h; try lia; [by destruct HG|].
  intros s' [[m' ->] Hp]. change (set_fb m' (set_fb m s)) with (set_fb m' s) in *. apply HQ.
  intros x y Hx Hy. simpl in Hx, Hy. fold n in Hy. unfold FONT_WIDTH, FONT_HEIGHT in *.
  rewrite Hp by (simpl; fold p h; lia). unfold in_rect.
  rewrite (proj2 (Z.leb_le 0 x)), (proj2 (Z.ltb_lt x _)) by lia. simpl.
  destruct (Z.leb_spec ((n - 1) * 16) y); simpl.
  - rewrite (proj2 (Z.ltb_lt y _)) by lia. rewrite (proj2 (Z.ltb_ge (y / 16) _)) by dlia.
    unfold glyph_pixel. simpl. by rewrite font_space.
  - rewrite (proj2 (Z.ltb_lt (y / 16) _)) by dlia. unfold at_xy. simpl. fold p. rewrite Hm.
    rewrite (proj2 (Z.leb_le 0 (y * p + x))), (proj2 (Z.ltb_lt (y * p + x) _)) by nia. simpl.
    replace (16 * p + (y * p + x)) with ((y + 16) * p + x) by lia.
    change (pixel s ((y + 16) * p + x)) with (at_xy s x (y + 16)). rewrite Hs by (unfold FONT_WIDTH, FONT_HEIGHT; lia).
    unfold FONT_HEIGHT. replace ((y + 16) / 16) with (y / 16 + 1) by dlia. by replace ((y + 16) mod 16) with (y mod 16) by dlia.
Qed.

(** * Characters *)

(** Everything but the pixels and the cursor. *)
Definition same_con s s' : Prop := ∃ m c r, s' = set_cursor c r (set_fb m s).

#[export] Instance same_con_preorder : PreOrder same_con.
Proof.
  split.
  - intros s. exists (fb_mem s), (cursor_col s), (cursor_row s). by destruct s.
  - intros s1 s2 s3 (m & c & r & ->) (m' & c' & r' & ->). by exists m', c', r'.
Qed.

Lemma same_con_geo s s' : same_con s s' → geometry s → geometry s'.
Proof. intros (m & c & r & ->) []. by split. Qed.

Lemma geo_small s : geometry s → cols_max s < 2 ^ 32 ∧ rows_max s < 2 ^ 32.
Proof.
  intros [[G1 G1'] [G2 G2'] G3 G4]. unfold FONT_WIDTH, FONT_HEIGHT in *.
  assert (fb_pitch_px s * 1 ≤ fb_pitch_px s * fb_height_px s) by (apply Z.mul_le_mono_nonneg_l; lia).
  assert (1 * fb_height_px s ≤ fb_pitch_px s * fb_height_px s) by (apply Z.mul_le_mono_nonneg_r; lia). lia.
Qed.

Lemma check_scroll_run E s t c (Q : unit → con_state → Prop) :
  geometry s → shows s (t_text t) → 0 ≤ t_row t < rows_max s →
  (∀ s', con_rep s' (term_newline (rows_max s) t) → same_con s s' → Q tt s') → c = u32 (t_row t + 1) →
  run E check_scroll Q (set_cursor 0 c s).
Proof.
  intros HG Hs Hr HQ ->. destruct (geo_small s HG) as [_ Hb]. destruct (geo_cols _ HG) as [G1 _]. rewrite wrap_small by (unfold in_width; lia).
  unfold term_newline in HQ. unfold check_scroll. run_step. run_step. simpl.
  destruct (Z.leb_spec (rows_max s) (t_row t + 1)) as [Hge|Hlt].
  - rewrite (proj2 (Z.ltb_ge _ _)) in HQ by lia. run_step.
    apply (scroll_up_run E (t_text t)); [by destruct HG|done|]. intros m Hm. run_step. simpl.
    rewrite wrap_small by (unfold in_width; lia). apply HQ; [|by exists m, 0, (rows_max s - 1)].
    split; simpl; [by destruct HG|lia|lia|exact Hm].
  - rewrite (proj2 (Z.ltb_lt _ _)) in HQ by lia. run_step. apply HQ; [|by exists (fb_mem s), 0, (t_row t + 1); destruct s].
    split; simpl; [by destruct HG|lia|lia|exact Hs].
Qed.

Lemma newline_run E s t (Q : unit → con_state → Prop) :
  con_rep s t → (∀ s', con_rep s' (term_newline (rows_max s) t) → same_con s s' → Q tt s') →
  run E newline Q s.
Proof.
  intros [HG [Hc Hc'] [Hr Hr'] Ht] HQ. unfold newline. run_step. run_step.
  eapply check_scroll_run; try done. by rewrite Hr.
Qed.

(** Drawing at the cursor and moving on. *)
Lemma put_run E s t c (Q : unit → con_state → Prop) :
  con_rep s t → (∀ s', con_rep s' (term_put (cols_max s) (rows_max s) c t) → same_con s s' → Q tt s') →
  run E (draw_glyph (cursor_col s) (cursor_row s) c;; advance_cursor) Q s.
Proof.
  intros [HG [Hc Hc'] [Hr Hr'] Ht] HQ. run_step. apply draw_glyph_run; [done|lia|lia|]. intros s1 Hp.
  pose proof (shows_put s s1 (t_text t) (cursor_col s) (cursor_row s) c HG Ht ltac:(lia) ltac:(lia) Hp) as Hs1. destruct Hp as [[m ->] _].
  destruct (geo_small s HG) as [Hb _].
  unfold advance_cursor. run_step. run_step. run_step. run_step. simpl. rewrite Hc, Hr in *.
  rewrite wrap_small by (unfold in_width; lia). unfold term_put in HQ.
  destruct (Z.leb_spec (cols_max s) (t_col t + 1)) as [Hge|Hlt].
  - rewrite (proj2 (Z.ltb_ge _ _)) in HQ by lia. run_step. run_step. simpl.
    apply (check_scroll_run E (set_fb m s) (mkTerm (λ r k, if (r =? t_row t) && (k =? t_col t) then c else t_text t r k) (t_col t) (t_row t)));
      [by destruct HG|exact Hs1|done| |done].
    intros s' H1 H2. apply HQ; [exact H1|]. etrans; [|exact H2]. exists m, (cursor_col s), (cursor_row s). by destruct s.
  - rewrite (proj2 (Z.ltb_lt _ _)) in HQ by lia. run_step. apply HQ; [|by exists m, (t_col t + 1), (t_row t)].
    split; simpl; [by destruct HG|lia|lia|exact Hs1].
Qed.

Lemma same_con_dims s s' : same_con s s' → cols_max s' = cols_max s ∧ rows_max s' = rows_max s.
Proof. by intros (m & c & r & ->). Qed.

Lemma tab_run E n i s t (Q : unit → con_state → Prop) :
  con_rep s t →
  (∀ s', con_rep s' (Nat.iter n (term_put (cols_max s) (rows_max s) 32) t) → same_con s s' → Q tt s') →
  run E (for_each n i (λ _, let! s := get in draw_glyph (cursor_col s) (cursor_row s) 32;; advance_cursor)) Q s.
Proof.
  revert i s t Q. induction n as [|n IH]; intros i s t Q Hrep HQ; simpl; [run_step; by apply HQ|].
  run_step. run_step. run_step. eapply put_run; [done|]. intros s1 Hrep1 Hsame. eapply IH; [done|].
  intros s2 Hrep2 Hsame2. destruct (same_con_dims _ _ Hsame) as [E1 E2]. apply HQ; [|by etrans].
  rewrite E1, E2 in Hrep2. by rewrite <- Nat.iter_succ_r in Hrep2.
Qed.

Lemma emit_char_run E s t c (Q : unit → con_state → Prop) :
  con_rep s t → (∀ s', con_rep s' (term_char (cols_max s) (rows_max s) c t) → same_con s s' → Q tt s') →
  run E (emit_char c) Q s.
Proof.
  intros Hrep HQ. unfold emit_char, term_char in *. destruct (c =? 10); [by eapply newline_run|].
  destruct (c =? 13).
  { run_step. pose proof Hrep as [HG [Hc Hc'] [Hr Hr'] Ht]. apply HQ.
    - split; simpl; [by destruct HG|lia|done|done].
    - exists (fb_mem s), 0, (cursor_row s). by destruct s. }
  destruct (c =? 9).
  - run_step. run_step. pose proof (cr_col _ _ Hrep) as [Hc Hc']. rewrite Hc.
    rewrite wrap_small by (unfold in_width, TAB_WIDTH; dlia). by eapply tab_run.
  - run_step. run_step. by eapply put_run.
Qed.

Lemma emit_chars_run E str s t (Q : unit → con_state → Prop) :
  con_rep s t → (∀ s', con_rep s' (term_chars (cols_max s) (rows_max s) str t) → same_con s s' → Q tt s') →
  run E (emit_chars str) Q s.
Proof.
  revert s t. induction str as [|c str IH]; intros s t Hrep HQ; simpl; [run_step; by apply HQ|].
  run_step. eapply emit_char_run; [done|]. intros s1 Hrep1 Hsame. eapply IH; [done|].
  intros s2 Hrep2 Hsame2. destruct (same_con_dims _ _ Hsame) as [E1 E2]. apply HQ; [|by etrans]. by rewrite E1, E2 in Hrep2.
Qed.

(** * Numerals *)

(** Reading a numeral back. *)
Definition digit_value (ch : Z) : Z :=
  if (48 <=? ch) && (ch <=? 57) then ch - 48
  else if (97 <=? ch) && (ch <=? 102) then ch - 87
  else if (65 <=? ch) && (ch <=? 70) then ch - 55 else -1.
Definition parse_numeral (base : Z) (str : list Z) : Z := foldl (λ acc ch, acc * base + digit_value ch) 0 str.

Definition hex_digits (uppercase : bool) : list Z := if uppercase then digits_up else digits_low.

Lemma hex_digit_value up d : 0 ≤ d < 16 → digit_value (nth (Z.to_nat d) (hex_digits up) 0) = d.
Proof.
  intros Hd. assert (d = 0 ∨ d = 1 ∨ d = 2 ∨ d = 3 ∨ d = 4 ∨ d = 5 ∨ d = 6 ∨ d = 7 ∨ d = 8 ∨ d = 9 ∨ d = 10 ∨
    d = 11 ∨ d = 12 ∨ d = 13 ∨ d = 14 ∨ d = 15) as H by lia.
  destruct up; repeat (destruct H as [->|H]; [reflexivity|]); subst d; reflexivity.
Qed.

Lemma parse_snoc base str ch : parse_numeral base (str ++ [ch]) = parse_numeral base str * base + digit_value ch.
Proof. unfold parse_numeral. by rewrite foldl_app. Qed.

Lemma parse_zeros base n str : parse_numeral base (replicate n 48 ++ str) = parse_numeral base str.
Proof.
  unfold parse_numeral. rewrite foldl_app. f_equal. induction n as [|n IH]; [done|]. simpl. exact IH.
Qed.

Lemma uint_digits_spec up base room v :
  2 ≤ base ≤ 16 → 0 ≤ v < base ^ Z.of_nat room →
  ∃ ds, uint_digits (hex_digits up) base room v = Some ds ∧ parse_numeral base (reverse ds) = v ∧
    (length ds ≤ room)%nat ∧ (if v =? 0 then ds = [] else ∃ d, last ds = Some d ∧ digit_value d ≠ 0).
Proof.
  intros Hb. revert v. induction room as [|room IH]; intros v Hv; simpl.
  { assert (v = 0) as -> by lia. by exists []. }
  destruct (Z.eqb_spec v 0) as [->|Hne]; [exists []; split_and!; [done..|simpl; lia|done]|].
  assert (0 < base ^ Z.of_nat room) as Hpos by (apply Z.pow_pos_nonneg; lia).
  assert (base ^ Z.of_nat (S room) = base * base ^ Z.of_nat room) as Hpow
    by (rewrite Nat2Z.inj_succ, Z.pow_succ_r by lia; done).
  assert (0 ≤ v / base < base ^ Z.of_nat room) as Hq.
  { split; [apply Z.div_pos; lia|]. apply Z.div_lt_upper_bound; lia. }
  assert (0 ≤ v mod base < 16) as Hm by (pose proof (Z.mod_pos_bound v base); lia).
  destruct (IH _ Hq) as (ds & -> & Hval & Hlen & Hlast). eexists. split; [reflexivity|].
  pose proof (Z.div_mod v base ltac:(lia)) as Hdm.
  rewrite reverse_cons, parse_snoc, Hval, hex_digit_value by done.
  split; [lia|]. split; [simpl; lia|].
  destruct (Z.eqb_spec (v / base) 0) as [H0|H0].
  - subst ds. eexists. split; [reflexivity|]. rewrite hex_digit_value by done. lia.
  - destruct Hlast as (d & Hd & Hd0). exists d. split; [|done]. rewrite last_cons. by rewrite Hd.
Qed.

(** The numeral of [value] in [base], written from the top: the character of each
    digit, as many digits as the value has (the powers of the base it reaches),
    at least one and at least [min_digits]. *)
Definition numeral_char (uppercase : bool) (d : Z) : Z := if d <? 10 then 48 + d else (if uppercase then 55 else 87) + d.
Definition digit_count (base : Z) (room : nat) (value : Z) : nat :=
  length (filter (λ k : nat, base ^ Z.of_nat k ≤ value) (seq 0 room)).
Definition numeral (value base : Z) (uppercase : bool) (min_digits : nat) : list Z :=
  (λ k : nat, numeral_char uppercase (value / base ^ Z.of_nat k mod base)) <$>
    reverse (seq 0 (Nat.max (Nat.max 1 (digit_count base UINT_BUF value)) min_digits)).

Lemma hex_digit_char up d : 0 ≤ d < 16 → nth (Z.to_nat d) (hex_digits up) 0 = numeral_char up d.
Proof.
  intros Hd. assert (d = 0 ∨ d = 1 ∨ d = 2 ∨ d = 3 ∨ d = 4 ∨ d = 5 ∨ d = 6 ∨ d = 7 ∨ d = 8 ∨ d = 9 ∨ d = 10 ∨
    d = 11 ∨ d = 12 ∨ d = 13 ∨ d = 14 ∨ d = 15) as H by lia.
  destruct up; repeat (destruct H as [->|H]; [reflexivity|]); subst d; reflexivity.
Qed.

Lemma filter_fmap_length {A B} (f : A → B) (P : B → Prop) (Q : A → Prop) `{!∀ x, Decision (P x), !∀ x, Decision (Q x)} l :
  (∀ x, P (f x) ↔ Q x) → length (filter P (f <$> l)) = length (filter Q l).
Proof.
  intros Hpq. induction l as [|x l IH]; [done|]. rewrite fmap_cons, !filter_cons.
  destruct (decide (P (f x))) as [Hp|Hp], (decide (Q x)) as [Hq|Hq]; simpl; rewrite ?IH; try done; [by apply Hpq in Hp|by apply Hpq in Hq].
Qed.

Lemma digit_count_step base room v :
  2 ≤ base → 0 < v → digit_count base (S room) v = S (digit_count base room (v / base)).
Proof.
  intros Hb Hv. unfold digit_count. cbn [seq]. rewrite filter_cons, decide_True by (simpl; lia). cbn [length]. f_equal.
  rewrite <- fmap_S_seq. apply filter_fmap_length. intros k.
  rewrite Nat2Z.inj_succ, Z.pow_succ_r by lia. assert (0 < base ^ Z.of_nat k) by (apply Z.pow_pos_nonneg; lia). split; intros H1.
  - apply Z.div_le_lower_bound; lia.
  - pose proof (Z.mul_div_le v base). nia.
Qed.

Lemma digit_count_0 base room : 2 ≤ base → digit_count base room 0 = 0%nat.
Proof.
  intros Hb. unfold digit_count. generalize (seq 0 room). intros l. induction l as [|k l IH]; [done|].
  rewrite filter_cons, decide_False; [done|]. assert (0 < base ^ Z.of_nat k) by (apply Z.pow_pos_nonneg; lia). lia.
Qed.

(** The digits in the order the loop produces them. *)
Lemma uint_digits_positions up base room v :
  2 ≤ base ≤ 16 → 0 ≤ v < base ^ Z.of_nat room →
  uint_digits (hex_digits up) base room v =
    Some ((λ k : nat, numeral_char up (v / base ^ Z.of_nat k mod base)) <$> seq 0 (digit_count base room v)).
Proof.
  intros Hb. revert v. induction room as [|room IH]; intros v Hv; cbn [uint_digits].
  { simpl in Hv. by assert (v = 0) as -> by lia. }
  destruct (Z.eqb_spec v 0) as [->|Hne].
  { by rewrite digit_count_0 by lia. }
  rewrite Nat2Z.inj_succ, Z.pow_succ_r in Hv by lia.
  assert (0 ≤ v / base < base ^ Z.of_nat room) as Hq by (split; [apply Z.div_pos; lia|apply Z.div_lt_upper_bound; lia]).
  rewrite IH by done. rewrite digit_count_step by lia. cbn [fmap option_fmap option_map]. cbn [seq]. rewrite <- fmap_S_seq.
  rewrite fmap_cons, <- list_fmap_compose. rewrite hex_digit_char by (pose proof (Z.mod_pos_bound v base); lia).
  do 2 f_equal; [by rewrite Z.pow_0_r, Z.div_1_r|]. apply list_fmap_ext. intros _ k _. unfold compose.
  rewrite Nat2Z.inj_succ, Z.pow_succ_r, Z.div_div by (try lia; apply Z.pow_pos_nonneg; lia). done.
Qed.

Lemma digit_count_bound base room v : 2 ≤ base → 0 ≤ v < base ^ Z.of_nat room → v < base ^ Z.of_nat (digit_count base room v).
Proof.
  intros Hb. revert v. induction room as [|room IH]; intros v Hv; [simpl in *; lia|].
  destruct (decide (v = 0)) as [->|Hne]; [by rewrite digit_count_0 by lia|]. rewrite digit_count_step by lia.
  rewrite Nat2Z.inj_succ, Z.pow_succ_r in Hv by lia.
  assert (v / base < base ^ Z.of_nat (digit_count base room (v / base))) as Hq.
  { apply IH. split; [apply Z.div_pos; lia|apply Z.div_lt_upper_bound; lia]. }
  rewrite Nat2Z.inj_succ, Z.pow_succ_r by lia. pose proof (Z.div_mod v base). pose proof (Z.mod_pos_bound v base). nia.
Qed.

Lemma pow_digits base : 2 ≤ base → 2 ^ 64 ≤ base ^ Z.of_nat UINT_BUF.
Proof. intros Hb. unfold UINT_BUF. apply Z.pow_le_mono_l. lia. Qed.

(** The buffer holds the numeral, least significant digit first. *)
Lemma numeral_buf value base uppercase min_digits :
  in_width 64 value → 2 ≤ base ≤ 16 → (min_digits ≤ UINT_BUF)%nat →
  uint_buf value base uppercase min_digits = Some (reverse (numeral value base uppercase min_digits)).
Proof.
  intros Hv Hb Hmin. unfold in_width in Hv. pose proof (pow_digits base ltac:(lia)) as Hp.
  pose proof (digit_count_bound base UINT_BUF value ltac:(lia) ltac:(lia)) as Hbound.
  assert (digit_count base UINT_BUF value ≤ UINT_BUF)%nat as Hc.
  { unfold digit_count. etrans; [apply length_filter|]. by rewrite length_seq. }
  unfold numeral. rewrite <- fmap_reverse, reverse_involutive.
  set (dig k := numeral_char uppercase (value / base ^ Z.of_nat k mod base)). set (n := Nat.max 1 (digit_count base UINT_BUF value)).
  assert ((if value =? 0 then Some [48] else uint_digits (hex_digits uppercase) base UINT_BUF value) = Some (dig <$> seq 0 n)) as Hds.
  { unfold n. destruct (Z.eqb_spec value 0) as [->|Hne]; [rewrite digit_count_0 by lia; unfold dig; simpl; by rewrite Z.mod_0_l by lia|].
    rewrite uint_digits_positions by lia. destruct (digit_count base UINT_BUF value) eqn:E; [simpl in Hbound; lia|].
    by rewrite Nat.max_r by lia. }
  assert (∀ k, (n ≤ k)%nat → dig k = 48) as Hhigh.
  { intros k Hk. unfold dig. rewrite Z.div_small; [by rewrite Z.mod_0_l by lia|]. split; [lia|].
    eapply Z.lt_le_trans; [exact Hbound|]. apply Z.pow_le_mono_r; lia. }
  assert (n ≤ UINT_BUF)%nat by (unfold n, UINT_BUF in *; lia).
  unfold uint_buf. fold (hex_digits uppercase). rewrite Hds. simpl. rewrite length_fmap, length_seq.
  replace (dig <$> seq 0 (n `max` min_digits)) with ((dig <$> seq 0 n) ++ replicate (min_digits - n) 48).
  { rewrite length_app, length_fmap, length_seq, length_replicate. by rewrite (proj2 (Nat.leb_le _ _)) by lia. }
  replace (n `max` min_digits)%nat with (n + (min_digits - n))%nat by lia. rewrite seq_app, fmap_app. f_equal.
  rewrite Nat.add_0_l. apply replicate_as_Forall. rewrite length_fmap, length_seq. split; [done|].
  apply Forall_fmap, Forall_forall. intros k Hk. apply elem_of_seq in Hk. simpl. rewrite Hhigh by lia. done.
Qed.

Lemma numeral_spec value base uppercase min_digits :
  in_width 64 value → 2 ≤ base ≤ 16 → (min_digits ≤ UINT_BUF)%nat →
  emit_uint value base uppercase min_digits = emit_chars (numeral value base uppercase min_digits) ∧
  parse_numeral base (numeral value base uppercase min_digits) = value ∧
  (Nat.max 1 min_digits ≤ length (numeral value base uppercase min_digits) ≤ UINT_BUF)%nat ∧
  ((Nat.max 1 min_digits < length (numeral value base uppercase min_digits))%nat →
     ∃ d, head (numeral value base uppercase min_digits) = Some d ∧ digit_value d ≠ 0).
Proof.
  intros Hv Hb Hmin. unfold in_width in Hv.
  assert (∃ ds, (if value =? 0 then Some [48] else uint_digits (hex_digits uppercase) base UINT_BUF value) = Some ds ∧
    parse_numeral base (reverse ds) = value ∧ (1 ≤ length ds ≤ UINT_BUF)%nat ∧
    ((1 < length ds)%nat → ∃ d, last ds = Some d ∧ digit_value d ≠ 0)) as (ds & Hds & Hval & Hlen & Hlast).
  { destruct (Z.eqb_spec value 0) as [->|Hne].
    - exists [48]. split_and!; try done; simpl; unfold UINT_BUF; lia.
    - destruct (uint_digits_spec uppercase base UINT_BUF value Hb) as (ds & E & H1 & H2 & H3).
      { split; [lia|]. unfold UINT_BUF. apply Z.lt_le_trans with (2 ^ 64); [lia|]. apply Z.pow_le_mono_l. lia. }
      rewrite (proj2 (Z.eqb_neq _ _) Hne) in H3. exists ds. split_and!; try done. destruct ds; [|simpl; lia].
      by destruct H3 as (d & ? & _). }
  assert (uint_buf value base uppercase min_digits = Some (ds ++ replicate (min_digits - length ds) 48)) as Hbuf.
  { unfold uint_buf. fold (hex_digits uppercase). rewrite Hds. simpl. rewrite length_app, length_replicate.
    by rewrite (proj2 (Nat.leb_le _ _)) by lia. }
  pose proof (numeral_buf value base uppercase min_digits Hv Hb Hmin) as Hnum. unfold emit_uint. rewrite Hbuf in *.
  injection Hnum as Hnum. rewrite <- (reverse_involutive (numeral _ _ _ _)), <- Hnum. split; [done|].
  rewrite reverse_app, reverse_replicate, parse_zeros. split; [done|].
  rewrite length_app, length_replicate, length_reverse. split; [lia|]. intros Hlong.
  replace (min_digits - length ds)%nat with 0%nat by lia. simpl. destruct Hlast as (d & Hd & Hd0); [lia|].
  exists d. split; [|done]. rewrite head_reverse. done.
Qed.

(** Printing and reading numbers.  For every 64-bit value, in every base up to 16
    and for every padding up to the buffer size, the 64-byte buffer suffices;
    the characters printed read back as the value; there are at least one and at
    least [min_digits] of them, and no leading zero beyond that padding. *)
Theorem printk_numeral_roundtrip value base uppercase min_digits :
  in_width 64 value → 2 ≤ base ≤ 16 → (min_digits ≤ UINT_BUF)%nat →
  emit_uint value base uppercase min_digits = emit_chars (numeral value base uppercase min_digits) ∧
  parse_numeral base (numeral value base uppercase min_digits) = value ∧
  (Nat.max 1 min_digits ≤ length (numeral value base uppercase min_digits) ≤ UINT_BUF)%nat ∧
  ((Nat.max 1 min_digits < length (numeral value base uppercase min_digits))%nat →
     ∃ d, head (numeral value base uppercase min_digits) = Some d ∧ digit_value d ≠ 0).
Proof. apply numeral_spec. Qed.

(** * Formats *)

(** A format as its author means it: characters that stand for themselves, and
    conversions with a length modifier and a conversion character. *)
Inductive fitem : Type :=
  | FLit (c : Z)
  | FConv (len : LenMod) (k : Z).

Definition len_chars (len : LenMod) : list Z :=
  match len with LEN_NONE => [] | LEN_L => [108] | LEN_LL => [108; 108] | LEN_Z => [122] end.

Definition item_chars (it : fitem) : list Z :=
  match it with FLit c => [c] | FConv len k => 37 :: len_chars len ++ [k] end.

(** The conversion character is not read as part of the modifier. *)
Definition item_ok (it : fitem) : bool :=
  match it with
  | FLit c => negb (c =? 37)
  | FConv LEN_NONE k => negb (k =? 122) && negb (k =? 108)
  | FConv LEN_L k => negb (k =? 108)
  | FConv _ _ => true
  end.

Definition signed_numeral (v : Z) : list Z :=
  if v <? 0 then 45 :: numeral (- v) 10 false 0 else numeral v 10 false 0.

(** What a conversion prints, and the arguments it leaves. *)
Definition render_conv (len : LenMod) (k : Z) (args : list varg) : option (list Z * list varg) :=
  if (k =? 100) || (k =? 105) then
    match args with Word w :: args' => Some (signed_numeral (arg_signed len w), args') | _ => None end
  else if k =? 117 then
    match args with Word w :: args' => Some (numeral (arg_unsigned len w) 10 false 0, args') | _ => None end
  else if (k =? 120) || (k =? 88) then
    match args with Word w :: args' => Some (numeral (arg_unsigned len w) 16 (k =? 88) 0, args') | _ => None end
  else if k =? 112 then
    match args with Word w :: args' => Some (lit "0x" ++ numeral (u64 w) 16 false 16, args') | _ => None end
  else if k =? 115 then
    match args with Str str :: args' => Some (default (lit "(null)") str, args') | _ => None end
  else if k =? 99 then
    match args with Word w :: args' => Some ([u8 w], args') | _ => None end
  else if k =? 37 then Some ([37], args)
  else Some (37 :: len_chars len ++ [k], args).

Fixpoint render (items : list fitem) (args : list varg) : option (list Z) :=
  match items with
  | [] => Some []
  | FLit c :: items' => cons c <$> render items' args
  | FConv len k :: items' =>
      '(out, args') ← render_conv len k args; app out <$> render items' args'
  end.

Lemma sext_bounds w x : 0 < w → - 2 ^ (w - 1) ≤ sext w x < 2 ^ (w - 1).
Proof.
  intros Hw. unfold sext. destruct (wrap_range w x ltac:(lia)) as [H0 H1].
  assert (2 ^ w = 2 * 2 ^ (w - 1)) as Hp by (rewrite <- Z.pow_succ_r by lia; f_equal; lia).
  destruct (Z.ltb_spec (wrap w x) (2 ^ (w - 1))); lia.
Qed.

Lemma arg_signed_bounds len w : - 2 ^ 63 ≤ arg_signed len w < 2 ^ 63.
Proof.
  destruct len; unfold arg_signed; [pose proof (sext_bounds 32 w ltac:(lia)); simpl in *; lia|..];
    apply (sext_bounds 64); lia.
Qed.

Lemma arg_unsigned_bounds len w : in_width 64 (arg_unsigned len w).
Proof.
  destruct len; unfold arg_unsigned; [|apply wrap_range; lia..].
  destruct (wrap_range 32 w ltac:(lia)). unfold in_width. lia.
Qed.

Lemma emit_int_chars v : - 2 ^ 63 ≤ v < 2 ^ 63 → emit_int v = emit_chars (signed_numeral v).
Proof.
  intros Hv. unfold emit_int, signed_numeral. destruct (Z.ltb_spec v 0).
  - assert (u64 (u64 (- (v + 1)) + 1) = - v) as ->.
    { rewrite (wrap_small 64 (- (v + 1))) by (unfold in_width; lia). rewrite wrap_small by (unfold in_width; lia). lia. }
    destruct (numeral_spec (- v) 10 false 0) as [-> _]; [unfold in_width; lia|lia|lia|done].
  - rewrite wrap_small by (unfold in_width; lia).
    destruct (numeral_spec v 10 false 0) as [-> _]; [unfold in_width; lia|lia|lia|done].
Qed.

Lemma next_word_run E k out w args' s t (Q : list varg → con_state → Prop) :
  con_rep s t → k w = emit_chars out →
  (∀ s', con_rep s' (term_chars (cols_max s) (rows_max s) out t) → same_con s s' → Q args' s') →
  run E (next_word (Word w :: args') k) Q s.
Proof. intros Hrep Hk HQ. simpl. rewrite Hk. run_step. eapply emit_chars_run; [done|]. intros. run_step. by apply HQ. Qed.

Lemma emit_chars_app a b : ∀ s, emit_chars (a ++ b) s = (emit_chars a;; emit_chars b) s.
Proof.
  induction a as [|c a IH]; intros s; [done|]. simpl. unfold bind at 1 2 3.
  destruct (emit_char c s) as [[[] s']| | |]; [|done..]. rewrite IH. done.
Qed.

Lemma term_chars_app cols rows a b t : term_chars cols rows (a ++ b) t = term_chars cols rows b (term_chars cols rows a t).
Proof. apply foldl_app. Qed.

(** An unknown conversion is echoed. *)
Lemma echo_run E len k s t (args : list varg) (Q : list varg → con_state → Prop) :
  con_rep s t →
  (∀ s', con_rep s' (term_chars (cols_max s) (rows_max s) (37 :: len_chars len ++ [k]) t) → same_con s s' → Q args s') →
  run E (emit_char 37;;
    match len with
    | LEN_L => emit_char 108
    | LEN_LL => emit_char 108;; emit_char 108
    | LEN_Z => emit_char 122
    | LEN_NONE => ret tt
    end;;
    emit_char k;;
    ret args) Q s.
Proof.
  intros Hrep HQ.
  assert (run E (emit_chars (37 :: len_chars len ++ [k]);; ret args) Q s) as H.
  { run_step. eapply emit_chars_run; [done|]. intros. run_step. by apply HQ. }
  revert H. unfold run, bind, ret. destruct len; simpl; unfold bind, ret;
    repeat (match goal with |- context [emit_char ?c ?s] => destruct (emit_char c s) as [[[] ?]| | |] end; try done).
Qed.

Lemma convert_run E len k args out args' s t (Q : list varg → con_state → Prop) :
  con_rep s t → render_conv len k args = Some (out, args') →
  (∀ s', con_rep s' (term_chars (cols_max s) (rows_max s) out t) → same_con s s' → Q args' s') →
  run E (convert len k args) Q s.
Proof.
  intros Hrep Hr HQ. unfold render_conv in Hr. unfold convert.
  pose proof (arg_unsigned_bounds len) as Hu.
  assert (∀ v base up n, in_width 64 v → 2 ≤ base ≤ 16 → (n ≤ UINT_BUF)%nat →
    emit_uint v base up n = emit_chars (numeral v base up n)) as Hn by (intros; by apply numeral_spec).
  destruct ((k =? 100) || (k =? 105)).
  { destruct args as [|[w|] ?]; simplify_eq. eapply next_word_run; [done|apply emit_int_chars, arg_signed_bounds|done]. }
  destruct (k =? 117).
  { destruct args as [|[w|] ?]; simplify_eq. eapply next_word_run; [done|apply Hn; [apply Hu|lia|lia]|done]. }
  destruct (Z.eqb_spec k 120) as [->|H120]; simpl in Hr.
  { destruct args as [|[w|] ?]; simplify_eq. eapply next_word_run; [done|apply Hn; [apply Hu|lia|lia]|done]. }
  destruct (Z.eqb_spec k 88) as [->|H88]; simpl in Hr.
  { destruct args as [|[w|] ?]; simplify_eq. eapply next_word_run; [done|apply Hn; [apply Hu|lia|lia]|done]. }
  destruct (k =? 112).
  { destruct args as [|[w|] ?]; simplify_eq. run_step. unfold emit_string. simpl default.
    eapply emit_chars_run; [done|]. intros s1 Hrep1 Hsame. destruct (same_con_dims _ _ Hsame) as [E1 E2].
    eapply next_word_run; [done|apply Hn; [apply wrap_range; lia|lia|unfold UINT_BUF; lia]|].
    intros s2 Hrep2 Hsame2. rewrite E1, E2, <- term_chars_app in Hrep2. apply HQ; [done|by etrans]. }
  destruct (k =? 115).
  { destruct args as [|[|str] ?]; simplify_eq. run_step. eapply emit_chars_run; [done|]. intros. run_step. by apply HQ. }
  destruct (k =? 99).
  { destruct args as [|[w|] ?]; simplify_eq. simpl. run_step. eapply emit_char_run; [done|]. intros. run_step. by apply HQ. }
  destruct (k =? 37); simplify_eq.
  { run_step. eapply emit_char_run; [done|]. intros. run_step. by apply HQ. }
  by eapply echo_run.
Qed.

(** One conversion at the head of the format string. *)
Lemma vprintk_conv len k rest args :
  item_ok (FConv len k) = true →
  vprintk (item_chars (FConv len k) ++ rest) args = (let! args' := convert len k args in vprintk rest args').
Proof.
  intros Hok. destruct len; cbn in *.
  - apply andb_true_iff in Hok as [H1%negb_true_iff H2%negb_true_iff]. by rewrite H1, H2.
  - apply negb_true_iff in Hok. by rewrite Hok.
  - done.
  - done.
Qed.

(** C20. Formatted output.  Whatever the format, if the arguments fit its conversions,
    [printk] returns and the screen shows exactly the characters the format
    stands for: literal characters, numerals at the width the length modifier
    selects, strings ("(null)" for a null pointer), pointers with sixteen
    digits, unknown conversions as they are written. *)
Theorem printk_renders items args out s t :
  forallb item_ok items = true → render items args = Some out → con_rep s t →
  wp (printk (items ≫= item_chars) args) (λ _ s',
    con_rep s' (term_chars (cols_max s) (rows_max s) out t) ∧ same_con s s') s.
Proof.
  unfold printk. revert args out s t. induction items as [|it items IH]; intros args out s t Hok Hr Hrep; simpl in *.
  { simplify_eq. run_step. done. }
  apply andb_true_iff in Hok as [Hit Hok]. destruct it as [c|len k].
  - simpl in Hit. destruct (render items args) as [out'|] eqn:Hr'; simplify_eq. simpl in Hr. simplify_eq. simpl.
    rewrite Hit. run_step. eapply emit_char_run; [done|]. intros s1 Hrep1 Hsame.
    destruct (same_con_dims _ _ Hsame) as [E1 E2].
    eapply run_mono; [by eapply IH|]. intros [] s2 [Hrep2 Hsame2]. rewrite E1, E2 in Hrep2. split; [done|by etrans].
  - destruct (render_conv len k args) as [[o args']|] eqn:Hc; [|done]. simpl in Hr.
    destruct (render items args') as [out'|] eqn:Hr'; [|done]. simpl in Hr. simplify_eq.
    change (37 :: (len_chars len ++ [k]) ++ (items ≫= item_chars)) with (item_chars (FConv len k) ++ (items ≫= item_chars)).
    rewrite vprintk_conv by done. run_step. eapply convert_run; [done|done|]. intros s1 Hrep1 Hsame.
    destruct (same_con_dims _ _ Hsame) as [E1 E2].
    eapply run_mono; [by eapply IH|]. intros [] s2 [Hrep2 Hsame2]. rewrite E1, E2, <- term_chars_app in Hrep2.
    split; [done|by etrans].
Qed.

(** * The console is always well formed *)

(** The geometry is sound, the cursor is on the screen and the screen shows
    text. *)
Definition console_ok s : Prop := ∃ t, con_rep s t.

(** [m] keeps the console well formed; it may stop at a missing argument. *)
Definition stays {A} (m : M con_state A) : Prop :=
  ∀ s, console_ok s →
    match m s with Ok (_, s') => console_ok s' ∧ same_con s s' | Fault => True | Halt _ | Hang => False end.

Lemma stays_ret {A} (a : A) : stays (ret a).
Proof. intros s Hs. by split. Qed.

Lemma stays_fault {A} : stays (fault (A := A)).
Proof. by intros s Hs. Qed.

Lemma stays_bind {A B} (m : M con_state A) (k : A → M con_state B) :
  stays m → (∀ a, stays (k a)) → stays (bind m k).
Proof.
  intros Hm Hk s Hs. specialize (Hm s Hs). unfold bind. destruct (m s) as [[a s1]| | |]; try done.
  destruct Hm as [Hs1 Hsame]. specialize (Hk a s1 Hs1). destruct (k a s1) as [[b s2]| | |]; try done.
  destruct Hk. split; [done|by etrans].
Qed.

Lemma stays_emit_chars str : stays (emit_chars str).
Proof.
  intros s [t Hrep].
  assert (wp (emit_chars str) (λ _ s', console_ok s' ∧ same_con s s') s) as H.
  { eapply emit_chars_run; [done|]. intros s' Hr Hsame. split; [by eexists|done]. }
  unfold run in H. by destruct (emit_chars str s) as [[[] s']| | |].
Qed.

Lemma stays_emit_char c : stays (emit_char c).
Proof.
  intros s Hs. pose proof (stays_emit_chars [c] s Hs) as H. simpl in H. unfold bind, ret in H.
  by destruct (emit_char c s) as [[[] s']| | |].
Qed.

Lemma stays_emit_uint v base up n : stays (emit_uint v base up n).
Proof. unfold emit_uint. destruct (uint_buf v base up n); [apply stays_emit_chars|apply stays_fault]. Qed.

Create HintDb console.
#[export] Hint Resolve stays_ret stays_fault stays_bind stays_emit_chars stays_emit_char stays_emit_uint : console.

Lemma stays_next_word args k : (∀ w, stays (k w)) → stays (next_word args k).
Proof. intros Hk. unfold next_word. destruct args as [|[w|] args]; eauto with console. Qed.
#[export] Hint Resolve stays_next_word : console.

Lemma stays_convert len k args : stays (convert len k args).
Proof.
  unfold convert, emit_int, emit_string.
  repeat match goal with |- stays (if ?b then _ else _) => destruct b end; eauto with console.
  - apply stays_next_word. intros w. destruct (_ <? 0); eauto with console.
  - destruct args as [|[|str] args]; eauto with console.
  - destruct len; eauto with console.
Qed.

Lemma stays_vprintk fmt args : stays (vprintk fmt args).
Proof.
  assert (∀ n fmt, (length fmt ≤ n)%nat → ∀ args, stays (vprintk fmt args)) as H; [|by eapply H].
  clear fmt args. induction n as [|n IH]; intros fmt Hn args; (destruct fmt as [|c fmt]; [apply stays_ret|]); simpl in Hn; [lia|].
  assert (∀ len rest, (length rest ≤ length fmt)%nat → stays
    (match rest with
     | [] => let! _ := convert len 0 args in fault
     | k :: rest' => let! args' := convert len k args in vprintk rest' args'
     end)) as Hconv.
  { intros len rest Hl. destruct rest as [|k rest]; apply stays_bind; auto using stays_convert, stays_fault.
    intros a. apply IH. simpl in Hl. lia. }
  simpl. destruct (c =? 37); simpl.
  - destruct fmt as [|d fmt]; [by apply (Hconv LEN_NONE [])|].
    destruct (d =? 122); [apply (Hconv LEN_Z fmt); simpl; lia|].
    destruct (d =? 108); [|by apply (Hconv LEN_NONE (d :: fmt))].
    destruct fmt as [|e fmt]; [apply (Hconv LEN_L []); simpl; lia|].
    destruct (e =? 108); [apply (Hconv LEN_LL fmt)|apply (Hconv LEN_L (e :: fmt))]; simpl; lia.
  - apply stays_bind; [apply stays_emit_char|]. intros _. apply IH. lia.
Qed.

Lemma shows_blank s s' :
  geometry s → painted (in_rect 0 0 (fb_pitch_px s) (fb_height_px s)) (λ _ _, COLOR_BG) s s' → shows s' (λ _ _, 32).
Proof.
  intros [[G1 G1'] [G2 G2'] G3 G4] [[m ->] Hp] x y Hx Hy. simpl in Hx, Hy. unfold FONT_WIDTH, FONT_HEIGHT in *.
  rewrite Hp by lia. unfold in_rect. rewrite !(proj2 (Z.leb_le 0 _)), !(proj2 (Z.ltb_lt _ _)) by lia. simpl.
  unfold glyph_pixel. simpl. by rewrite font_space.
Qed.

Lemma fill_screen_run E s (Q : unit → con_state → Prop) :
  geometry s → (∀ m, shows (set_fb m s) (λ _ _, 32) → Q tt (set_fb m s)) →
  run E (fill_rect 0 0 (fb_pitch_px s) (fb_height_px s) COLOR_BG) Q s.
Proof.
  intros HG HQ. pose proof HG as [[G1 G1'] [G2 G2'] G3 G4]. unfold FONT_WIDTH, FONT_HEIGHT in *.
  apply fill_rect_run; try done; try lia. intros s' Hp. pose proof (shows_blank _ _ HG Hp) as Hs.
  destruct Hp as [[m ->] _]. by apply HQ.
Qed.

Lemma clear_run E s (Q : unit → con_state → Prop) :
  geometry s →
  (∀ s', con_rep s' (mkTerm (λ _ _, 32) 0 0) → same_con s s' → Q tt s') →
  run E clear_screen Q s.
Proof.
  intros HG HQ. unfold clear_screen. run_step. run_step. run_step. apply fill_screen_run; [done|]. intros m Hm. run_step.
  destruct (geo_cols _ HG), (geo_rows _ HG). apply HQ; [|by exists m, 0, 0]. split; simpl; [by destruct HG|lia|lia|exact Hm].
Qed.

(** The operations other code may call. *)
Inductive console_op : Type :=
  | OpPrintk (fmt : list Z) (args : list varg)
  | OpSafePrintk (fmt : list Z) (args : list varg)
  | OpClear
  | OpHex8 (v : Z)
  | OpDisable.

Definition run_op (op : console_op) : M con_state unit :=
  match op with
  | OpPrintk fmt args => printk fmt args
  | OpSafePrintk fmt args => safe_printk fmt args
  | OpClear => clear_screen
  | OpHex8 v => printk_hex8 v
  | OpDisable => disable_print
  end.

(** C39. The state of the console is well typed at all times: through any sequence of
    calls, with any formats and arguments whatever, the cursor stays on the
    screen, the frame buffer keeps its size and its pixels always make up text. *)
Theorem console_always_well_formed ops s s' :
  console_ok s → foldr (λ op m, run_op op;; m) (ret tt) ops s = Ok (tt, s') →
  console_ok s' ∧ 0 ≤ cursor_col s' < cols_max s' ∧ 0 ≤ cursor_row s' < rows_max s' ∧
  cols_max s' = cols_max s ∧ rows_max s' = rows_max s ∧ fb_words s' = fb_words s.
Proof.
  intros Hs Hrun.
  assert (console_ok s' ∧ cols_max s' = cols_max s ∧ rows_max s' = rows_max s ∧ fb_words s' = fb_words s) as (Hok & H1 & H2 & H3).
  2: { split; [done|]. destruct Hok as [t [_ [-> ?] [-> ?] _]]. done. }
  revert s Hs Hrun. induction ops as [|op ops IH]; intros s Hs Hrun; simpl in Hrun.
  { unfold ret in Hrun. by simplify_eq. }
  unfold bind in Hrun at 1. destruct (run_op op s) as [[[] s1]| | |] eqn:Hop; [|done..].
  assert (console_ok s1 ∧ cols_max s1 = cols_max s ∧ rows_max s1 = rows_max s ∧ fb_words s1 = fb_words s) as (Hs1 & E1 & E2 & E3).
  2: { destruct (IH s1 Hs1 Hrun) as (? & ? & ? & ?). split; [done|]. split_and!; congruence. }
  assert (∀ s2 : con_state, same_con s s2 → cols_max s2 = cols_max s ∧ rows_max s2 = rows_max s ∧ fb_words s2 = fb_words s) as Hsame
    by (by intros s2 (m & c & r & ->)).
  destruct op as [fmt args|fmt args| |v|]; simpl in Hop.
  - pose proof (stays_vprintk fmt args s Hs) as H. unfold printk in Hop. rewrite Hop in H. destruct H; eauto.
  - unfold safe_printk, acquire, bind, get, release in Hop. destruct (printlock s); [done|].
    assert (console_ok (set_printlock true s)) as Hs'.
    { destruct Hs as [t [[] ? ? ?]]. exists t. by split. }
    simpl in Hop. destruct (print_enabled s); simpl in Hop; [|unfold ret in Hop; by simplify_eq].
    pose proof (stays_vprintk fmt args _ Hs') as H. destruct (vprintk fmt args _) as [[[] s2]| | |]; simplify_eq.
    destruct H as [[t [[] ? ? ?]] (m & c & r & ->)]. split; [exists t; by split|done].
  - destruct Hs as [t Hrep].
    assert (wp clear_screen (λ _ s', console_ok s' ∧ same_con s s') s) as H.
    { apply clear_run; [apply Hrep|]. intros s2 Hr Hsm. split; [by eexists|done]. }
    destruct (run_Ok _ _ _ _ _ _ H Hop). eauto.
  - assert (stays (printk_hex8 v)) as H by (unfold printk_hex8; eauto with console).
    specialize (H s Hs). rewrite Hop in H. destruct H; eauto.
  - unfold disable_print, modify in Hop. simplify_eq. split; [|done]. destruct Hs as [t [[] ? ? ?]]. exists t. by split.
Qed.

(** ** Start-up, and two defects *)

(** [printk_init] on a usable frame buffer gives a clear screen with the cursor in
    the corner. *)
Lemma printk_init_clears fb s :
  address fb ≠ 0 → bpp fb = 32 → pitch fb mod 4 = 0 → 0 ≤ width fb ≤ pitch fb / 4 →
  FONT_WIDTH ≤ width fb → FONT_HEIGHT ≤ height fb →
  pitch fb / 4 * height fb ≤ fb_words s → pitch fb / 4 * height fb < 2 ^ 32 →
  wp (printk_init fb) (λ _ s',
    con_rep s' (mkTerm (λ _ _, 32) 0 0) ∧ print_enabled s' = true ∧
    cols_max s' = width fb / FONT_WIDTH ∧ rows_max s' = height fb / FONT_HEIGHT) s.
Proof.
  unfold FONT_WIDTH, FONT_HEIGHT. intros Ha Hb Hp Hw Hw8 Hh Hsz H32.
  assert (pitch fb / 4 < 2 ^ 32 ∧ height fb < 2 ^ 32 ∧ 0 < pitch fb / 4) as (B1 & B2 & B3) by nia.
  unfold printk_init. rewrite (proj2 (Z.eqb_neq _ _) Ha), Hb, Hp. simpl.
  rewrite (proj2 (Z.eqb_neq (pitch fb) 0)) by dlia. simpl.
  rewrite !wrap_small by (unfold in_width; lia). rewrite !(proj2 (Z.eqb_neq _ 0)) by (unfold FONT_WIDTH, FONT_HEIGHT; dlia).
  simpl. run_step. run_step. set (s1 := mkCon _ _ _ _ _ _ _ _ _ _ _).
  assert (geometry s1) as HG by (split; simpl; unfold FONT_WIDTH, FONT_HEIGHT; [dlia|dlia|done|done]).
  run_step. apply (fill_screen_run _ s1); [done|]. intros m Hm. run_step.
  destruct (geo_cols _ HG), (geo_rows _ HG). split; [|done]. split; simpl in *; [by destruct HG|lia|lia|exact Hm].
Qed.

(** [safe_printk] takes the lock before it looks whether printing is enabled and
    returns without releasing it: after [disable_print] the first call returns
    and the second one, from the same processor, never does. *)
Theorem safe_printk_disabled_deadlocks fmt args fmt' args' s :
  printlock s = false →
  ∃ s1, (disable_print;; safe_printk fmt args) s = Ok (tt, s1) ∧ safe_printk fmt' args' s1 = Hang.
Proof.
  intros Hl. exists (set_printlock true (set_enabled false s)).
  unfold disable_print, safe_printk, acquire, bind, modify, get, ret. simpl. by rewrite Hl.
Qed.

(** A format that ends inside a conversion is read past its end. *)
Lemma printk_trailing_percent args s : console_ok s → printk [37] args s = Fault.
Proof.
  intros Hs. change (printk [37] args s) with (bind (convert LEN_NONE 0 args) (λ _, fault (A := unit)) s).
  unfold bind, fault. pose proof (stays_convert LEN_NONE 0 args s Hs) as H.
  destruct (convert LEN_NONE 0 args s) as [[a s']| | |]; done.
Qed.

(** A field width is not a conversion: it is echoed and its argument is left for
    the next conversion. *)
Example printk_width_echoed :
  render [FConv LEN_NONE 48; FLit 56; FLit 120; FLit 32; FConv LEN_NONE 117] [Word 171; Word 5] =
  Some (lit "%08x 171").
Proof. vm_compute. reflexivity. Qed.
