(* ===== verification/PrintkDemo.v ===== *)
(** The console on a small screen: 4 columns and 2 rows of text. *)

From S2P Require Import Prelude Boot Font Printk PrintkSpec.

Definition demo_fb : BootFramebuffer := mkFb 0x1000 32 32 128 32 0 0 0 0 0 0.
Definition demo_con0 : con_state := mkCon ∅ 1024 0 0 0 0 0 0 0 false false.
Definition demo_con : con_state :=
  match printk_init demo_fb demo_con0 with Ok (_, s) => s | _ => demo_con0 end.

Lemma demo_con_runs : printk_init demo_fb demo_con0 = Ok (tt, demo_con).
Proof. vm_compute. reflexivity. Qed.

Lemma demo_con_facts : cols_max demo_con = 4 ∧ rows_max demo_con = 2 ∧ printlock demo_con = false.
Proof. vm_compute. done. Qed.

#[local] Opaque demo_con.

Lemma demo_con_rep : con_rep demo_con (mkTerm (λ _ _, 32) 0 0).
Proof.
  assert (wp (printk_init demo_fb) (λ _ s', con_rep s' (mkTerm (λ _ _, 32) 0 0) ∧ print_enabled s' = true ∧
    cols_max s' = width demo_fb / FONT_WIDTH ∧ rows_max s' = height demo_fb / FONT_HEIGHT) demo_con0) as H.
  { apply printk_init_clears; vm_compute; done. }
  destruct (run_Ok _ _ _ _ _ _ H demo_con_runs) as [Hr _]. exact Hr.
Qed.

Lemma printk_numeral_roundtrip_witness :
  emit_uint (2 ^ 64 - 1) 10 false 0 = emit_chars (numeral (2 ^ 64 - 1) 10 false 0) ∧
  parse_numeral 10 (numeral (2 ^ 64 - 1) 10 false 0) = 2 ^ 64 - 1 ∧
  (Nat.max 1 0 ≤ length (numeral (2 ^ 64 - 1) 10 false 0) ≤ UINT_BUF)%nat ∧
  ((Nat.max 1 0 < length (numeral (2 ^ 64 - 1) 10 false 0))%nat →
     ∃ d, head (numeral (2 ^ 64 - 1) 10 false 0) = Some d ∧ digit_value d ≠ 0).
Proof.
  pose proof (printk_numeral_roundtrip (2 ^ 64 - 1) 10 false 0) as Hthm.
  apply Hthm; [unfold in_width; lia|lia|apply Nat.le_0_l].
Defined.

(** "x=%d%%" with argument -7 prints "x=-7%" and wraps to the second row. *)
Definition demo_format : list fitem := [FLit 120; FLit 61; FConv LEN_NONE 100; FConv LEN_NONE 37].

Lemma printk_renders_witness :
  demo_format ≫= item_chars = lit "x=%d%%" ∧
  wp (printk (demo_format ≫= item_chars) [Word (-7)]) (λ _ s',
    con_rep s' (term_chars (cols_max demo_con) (rows_max demo_con) (lit "x=-7%") (mkTerm (λ _ _, 32) 0 0)) ∧
    same_con demo_con s') demo_con.
Proof.
  split; [reflexivity|].
  pose proof (printk_renders demo_format [Word (-7)] (lit "x=-7%") demo_con (mkTerm (λ _ _, 32) 0 0)) as Hthm.
  apply Hthm; [reflexivity|vm_compute; reflexivity|exact demo_con_rep].
Defined.

Definition demo_ops : list console_op := [OpPrintk (lit "ab%x") [Word 255]; OpHex8 10; OpDisable].
Definition demo_con' : con_state :=
  match foldr (λ op m, run_op op;; m) (ret tt) demo_ops demo_con with Ok (_, s) => s | _ => demo_con end.

Lemma demo_ops_run : foldr (λ op m, run_op op;; m) (ret tt) demo_ops demo_con = Ok (tt, demo_con').
Proof. vm_compute. reflexivity. Qed.

#[local] Opaque demo_con'.

Lemma console_always_well_formed_witness :
  console_ok demo_con' ∧ 0 ≤ cursor_col demo_con' < cols_max demo_con' ∧ 0 ≤ cursor_row demo_con' < rows_max demo_con' ∧
  cols_max demo_con' = cols_max demo_con ∧ rows_max demo_con' = rows_max demo_con ∧ fb_words demo_con' = fb_words demo_con.
Proof.
  pose proof (console_always_well_formed demo_ops demo_con demo_con') as Hthm.
  apply Hthm; [eexists; exact demo_con_rep|exact demo_ops_run].
Defined.

Lemma safe_printk_disabled_deadlocks_witness :
  ∃ s1, (disable_print;; safe_printk (lit "a") []) demo_con = Ok (tt, s1) ∧ safe_printk (lit "b") [] s1 = Hang.
Proof.
  destruct demo_con_facts as (_ & _ & H).
  exact (safe_printk_disabled_deadlocks (lit "a") [] (lit "b") [] demo_con H).
Defined.
