(* ===== verification/Vblk.v ===== *)
(** The disk driver (arch/x86_64/drivers/block/virtio/vblk.c): ATA in programmed
    I/O mode behind the virtio_blk names.

    The ports are the operations of class [PortIO]; the drive behind them is
    hardware.  It is described by the abstract drive [ata], which proceeds by
    itself by [ata_step] while it is busy, by the laws of class [AtaDevice], which
    follow the ATA command protocol, and by class [AtaPlain], what the driver
    needs of a drive besides. *)

From S2P Require Import Prelude Disk.

Definition ATA_DATA : Z := 0x1F0.
Definition ATA_ERROR : Z := 0x1F1.
Definition ATA_SECTOR_CNT : Z := 0x1F2.
Definition ATA_LBA_LO : Z := 0x1F3.
Definition ATA_LBA_MID : Z := 0x1F4.
Definition ATA_LBA_HI : Z := 0x1F5.
Definition ATA_DRIVE_HEAD : Z := 0x1F6.
Definition ATA_STATUS : Z := 0x1F7.
Definition ATA_COMMAND : Z := 0x1F7.
Definition ATA_SR_BSY : Z := 0x80.
Definition ATA_SR_DRQ : Z := 0x08.
Definition ATA_SR_ERR : Z := 0x01.
Definition ATA_CMD_READ_PIO : Z := 0x20.
Definition ATA_CMD_WRITE_PIO : Z := 0x30.
Definition ATA_CMD_IDENTIFY : Z := 0xEC.
Definition ATA_CMD_FLUSH : Z := 0xE7.

(** * Ports *)

Class PortIO (D : Type) : Type := {
  _outb : Z → Z → D → D;
  _outw : Z → Z → D → D;
  _inb : Z → D → Z * D;
  _inw : Z → D → Z * D
}.

(** * The driver *)

Record vblk_state (D : Type) : Type := mkVblk {
  ata_dev : D;
  g_ata_ready : bool
}.
Arguments mkVblk {D}. Arguments ata_dev {D}. Arguments g_ata_ready {D}.

(** [10^n] rounds of a polling loop, left early when [body] has an answer. *)
Fixpoint poll {S R} (n : nat) (body : M S (option R)) : M S (option R) :=
  match n with
  | O => body
  | Datatypes.S n' => for_loop 10 0 1 (λ _, poll n' body)
  end.

Section Driver.
Context {D : Type} `{!PortIO D}.
Abbreviation state := (vblk_state D).
Implicit Types s : state.

Definition set_dev (d : D) s : state := mkVblk d (g_ata_ready s).
Definition set_ata_ready s : state := mkVblk (ata_dev s) true.

Definition outb (p v : Z) : M state unit := modify (λ s, set_dev (_outb p v (ata_dev s)) s).
Definition outw (p v : Z) : M state unit := modify (λ s, set_dev (_outw p v (ata_dev s)) s).
Definition inb (p : Z) : M state Z := λ s, let r := _inb p (ata_dev s) in Ok (r.1, set_dev r.2 s).
Definition inw (p : Z) : M state Z := λ s, let r := _inw p (ata_dev s) in Ok (r.1, set_dev r.2 s).

(** Both waits poll at most 10,000,000 times. *)
Definition ata_wait_ready : M state bool :=
  let! r := poll 7 (
    let! status := inb ATA_STATUS in
    if status =? 0xFF then ret (Some false)
    else if Z.land status ATA_SR_BSY =? 0 then ret (Some true)
    else ret None) in
  ret (default false r).

Definition ata_wait_drq : M state bool :=
  let! r := poll 7 (
    let! status := inb ATA_STATUS in
    if negb (Z.land status ATA_SR_ERR =? 0) then
      let! _ := inb ATA_ERROR in ret (Some false)
    else if negb (Z.land status ATA_SR_DRQ =? 0) then ret (Some true)
    else ret None) in
  ret (default false r).

Definition ata_setup_lba28 (lba count cmd : Z) : M state unit :=
  outb ATA_DRIVE_HEAD (Z.lor 0xE0 (Z.land (Z.shiftr lba 24) 0x0F));;
  outb ATA_SECTOR_CNT count;;
  outb ATA_LBA_LO (u8 lba);;
  outb ATA_LBA_MID (u8 (Z.shiftr lba 8));;
  outb ATA_LBA_HI (u8 (Z.shiftr lba 16));;
  outb ATA_COMMAND cmd.

(** [n] words from the data port, as the bytes they store in memory. *)
Fixpoint read_words (n : nat) : M state (list Z) :=
  match n with
  | O => ret []
  | Datatypes.S n' =>
      let! w := inw ATA_DATA in
      let! rest := read_words n' in
      ret (w mod 256 :: w / 256 :: rest)
  end.

Definition virtio_blk_init : M state bool :=
  outb ATA_DRIVE_HEAD 0xA0;;
  let! ok := ata_wait_ready in
  if negb ok then ret false
  else
    outb ATA_DRIVE_HEAD 0xA0;;
    outb ATA_SECTOR_CNT 0;;
    outb ATA_LBA_LO 0;;
    outb ATA_LBA_MID 0;;
    outb ATA_LBA_HI 0;;
    outb ATA_COMMAND ATA_CMD_IDENTIFY;;
    let! status := inb ATA_STATUS in
    if status =? 0 then ret false
    else
      let! ok := ata_wait_drq in
      if negb ok then
        let! _ := inb ATA_LBA_MID in
        let! _ := inb ATA_LBA_HI in
        ret false
      else
        let! _ := read_words 256 in
        modify set_ata_ready;;
        ret true.

(** The sector loop of a read: the bytes stored, or [None] for [return false]. *)
Fixpoint read_sectors (n : nat) : M state (option (list Z)) :=
  match n with
  | O => ret (Some [])
  | Datatypes.S n' =>
      let! ok := ata_wait_drq in
      if negb ok then ret None
      else
        let! bs := read_words 256 in
        let! rest := read_sectors n' in
        ret (app bs <$> rest)
  end.

Definition virtio_blk_read (sector count : Z) : M state (option (list Z)) :=
  let! s := get in
  if negb (g_ata_ready s) then ret None
  else if (count =? 0) || (255 <? count) then ret None
  else if 0x0FFFFFFF <? sector then ret None
  else
    let! ok := ata_wait_ready in
    if negb ok then ret None
    else
      ata_setup_lba28 (u32 sector) (u8 count) ATA_CMD_READ_PIO;;
      read_sectors (Z.to_nat count).

(** [n] words to the data port from the bytes at [buf]. *)
Fixpoint write_words (n : nat) (buf : list Z) : M state unit :=
  match n, buf with
  | O, _ => ret tt
  | Datatypes.S n', lo :: hi :: buf' =>
      outw ATA_DATA (lo + 256 * hi);;
      write_words n' buf'
  | _, _ => fault
  end.

Fixpoint write_sectors (n : nat) (buf : list Z) : M state bool :=
  match n with
  | O => ret true
  | Datatypes.S n' =>
      let! ok := ata_wait_drq in
      if negb ok then ret false
      else
        write_words 256 buf;;
        write_sectors n' (drop 512 buf)
  end.

Definition virtio_blk_write (sector count : Z) (buf : list Z) : M state bool :=
  let! s := get in
  if negb (g_ata_ready s) then ret false
  else if (count =? 0) || (255 <? count) then ret false
  else if 0x0FFFFFFF <? sector then ret false
  else
    let! ok := ata_wait_ready in
    if negb ok then ret false
    else
      ata_setup_lba28 (u32 sector) (u8 count) ATA_CMD_WRITE_PIO;;
      let! ok := write_sectors (Z.to_nat count) buf in
      if negb ok then ret false
      else
        outb ATA_COMMAND ATA_CMD_FLUSH;;
        ata_wait_ready.
End Driver.

(** * The drive *)

(** What the drive is doing.
    - [Idle]: nothing; [Failed]: nothing, after a command that ended with an error;
    - [RWait lba n]: busy getting the first of the [n] sectors from [lba] on that
      are still to be read; [RData lba n ws]: it offers [ws], the words left of
      the sector at [lba], and [n] more sectors follow;
    - [WWait lba n]: busy before it accepts the sector for [lba]; [WData lba n ws]:
      it accepts words and has received [ws] of that sector; [WCommit lba n ws]:
      busy storing these, all 256 of them;
    - [IWait], [IData ws]: likewise for the identification block;
    - [Flushing]: busy writing its cache to the medium. *)
Inductive phase : Type :=
  | Idle
  | Failed
  | RWait (lba : Z) (n : nat)
  | RData (lba : Z) (n : nat) (ws : list Z)
  | WWait (lba : Z) (n : nat)
  | WData (lba : Z) (n : nat) (ws : list Z)
  | WCommit (lba : Z) (n : nat) (ws : list Z)
  | IWait
  | IData (ws : list Z)
  | Flushing.

Record ata : Type := mkAta {
  a_head : Z; a_count : Z; a_lo : Z; a_mid : Z; a_hi : Z;
  a_phase : phase;
  a_disk : Z → list Z;     (** the bytes of each sector, as a read delivers them *)
  a_ident : list Z;        (** the identification words *)
  a_dirty : list Z;        (** the sectors whose contents are only in the write cache *)
  a_errors : nat           (** the commands that have ended with an error *)
}.

Definition set_phase (p : phase) (a : ata) : ata :=
  mkAta (a_head a) (a_count a) (a_lo a) (a_mid a) (a_hi a) p (a_disk a) (a_ident a) (a_dirty a) (a_errors a).
Definition set_disk (f : Z → list Z) (a : ata) : ata :=
  mkAta (a_head a) (a_count a) (a_lo a) (a_mid a) (a_hi a) (a_phase a) f (a_ident a) (a_dirty a) (a_errors a).
Definition set_dirty (l : list Z) (a : ata) : ata :=
  mkAta (a_head a) (a_count a) (a_lo a) (a_mid a) (a_hi a) (a_phase a) (a_disk a) (a_ident a) l (a_errors a).
Definition set_regs (h c l m i : Z) (a : ata) : ata :=
  mkAta h c l m i (a_phase a) (a_disk a) (a_ident a) (a_dirty a) (a_errors a).

(** The command ends with an error. *)
Definition failed (a : ata) : ata :=
  mkAta (a_head a) (a_count a) (a_lo a) (a_mid a) (a_hi a) Failed (a_disk a) (a_ident a) (a_dirty a) (S (a_errors a)).

(** BSY: the drive works and the host has to wait.  DRQ: a sector's words are
    exchanged.  Otherwise it accepts a command. *)
Definition busy (a : ata) : bool :=
  match a_phase a with RWait _ _ | WWait _ _ | WCommit _ _ _ | IWait | Flushing => true | _ => false end.
Definition data_phase (a : ata) : bool :=
  match a_phase a with RData _ _ _ | WData _ _ _ | IData _ => true | _ => false end.
Definition settled (a : ata) : bool :=
  match a_phase a with Idle | Failed => true | _ => false end.

(** The little-endian words of a sector, and back. *)
Fixpoint words_of (bs : list Z) : list Z :=
  match bs with lo :: hi :: bs' => (lo + 256 * hi) :: words_of bs' | _ => [] end.
Fixpoint bytes_of (ws : list Z) : list Z :=
  match ws with w :: ws' => w mod 256 :: w / 256 :: bytes_of ws' | [] => [] end.

Definition a_lba (a : ata) : Z := a_lo a + 2 ^ 8 * a_mid a + 2 ^ 16 * a_hi a + 2 ^ 24 * (a_head a mod 16).
(** A sector count of 0 stands for 256. *)
Definition a_sectors (a : ata) : nat := if a_count a =? 0 then 256%nat else Z.to_nat (a_count a).

Definition sector_ok (bs : list Z) : Prop := length bs = 512%nat ∧ Forall is_byte bs.
Definition put_sector (lba : Z) (bs : list Z) (f : Z → list Z) : Z → list Z := λ x, if x =? lba then bs else f x.

(** The sector received is in the cache. *)
Definition stored (lba : Z) (n : nat) (ws : list Z) (a : ata) : ata :=
  set_phase (match n with O => Idle | S _ => WWait (lba + 1) n end)
    (set_dirty (lba :: a_dirty a) (set_disk (put_sector lba (bytes_of ws) (a_disk a)) a)).

(** What the drive does by itself, while it is busy.  Every command can fail; a
    write that fails leaves the sector with any contents, and a flush that fails
    any of the cached sectors. *)
Inductive ata_step : ata → ata → Prop :=
  | step_read a lba n : a_phase a = RWait lba (S n) →
      ata_step a (set_phase (RData lba n (words_of (a_disk a lba))) a)
  | step_write a lba n : a_phase a = WWait lba (S n) → ata_step a (set_phase (WData lba n []) a)
  | step_stored a lba n ws : a_phase a = WCommit lba n ws → ata_step a (stored lba n ws a)
  | step_lost a lba n ws bs : a_phase a = WCommit lba n ws → sector_ok bs →
      ata_step a (failed (set_disk (put_sector lba bs (a_disk a)) a))
  | step_ident a : a_phase a = IWait → ata_step a (set_phase (IData (a_ident a)) a)
  | step_flushed a : a_phase a = Flushing → ata_step a (set_phase Idle (set_dirty [] a))
  | step_flush_lost a f : a_phase a = Flushing →
      (∀ x, f x = a_disk a x ∨ (x ∈ a_dirty a ∧ sector_ok (f x))) → ata_step a (failed (set_disk f a))
  | step_failed a : (∃ lba n, a_phase a = RWait lba n ∨ a_phase a = WWait lba n) ∨ a_phase a = IWait →
      ata_step a (failed a).

(** A write to one of the registers or a command. *)
Definition ata_outb (p v : Z) (a : ata) : ata :=
  if p =? ATA_DRIVE_HEAD then set_regs v (a_count a) (a_lo a) (a_mid a) (a_hi a) a
  else if p =? ATA_SECTOR_CNT then set_regs (a_head a) v (a_lo a) (a_mid a) (a_hi a) a
  else if p =? ATA_LBA_LO then set_regs (a_head a) (a_count a) v (a_mid a) (a_hi a) a
  else if p =? ATA_LBA_MID then set_regs (a_head a) (a_count a) (a_lo a) v (a_hi a) a
  else if p =? ATA_LBA_HI then set_regs (a_head a) (a_count a) (a_lo a) (a_mid a) v a
  else if v =? ATA_CMD_READ_PIO then set_phase (RWait (a_lba a) (a_sectors a)) a
  else if v =? ATA_CMD_WRITE_PIO then set_phase (WWait (a_lba a) (a_sectors a)) a
  else if v =? ATA_CMD_IDENTIFY then set_phase IWait a
  else set_phase Flushing a.

(** The writes whose effect that describes: the task file, and the four commands
    with drive 0 selected, a transfer in LBA mode. *)
Definition describes (p v : Z) (a : ata) : bool :=
  if p =? ATA_COMMAND then
    negb (Z.testbit (a_head a) 4) &&
    (((v =? ATA_CMD_READ_PIO) || (v =? ATA_CMD_WRITE_PIO)) && Z.testbit (a_head a) 6 ||
     ((v =? ATA_CMD_IDENTIFY) || (v =? ATA_CMD_FLUSH)))
  else existsb (Z.eqb p) [ATA_DRIVE_HEAD; ATA_SECTOR_CNT; ATA_LBA_LO; ATA_LBA_MID; ATA_LBA_HI].

(** A word is read from the data port, [None] when none is offered. *)
Definition ata_inw (a : ata) : option (Z * ata) :=
  match a_phase a with
  | RData lba n (w :: ws) =>
      Some (w, set_phase (match ws, n with [], O => Idle | [], _ => RWait (lba + 1) n | _, _ => RData lba n ws end) a)
  | IData (w :: ws) => Some (w, set_phase (match ws with [] => Idle | _ => IData ws end) a)
  | _ => None
  end.

(** A word is written to it: with the 256th the drive is busy storing the sector. *)
Definition ata_outw (v : Z) (a : ata) : option ata :=
  match a_phase a with
  | WData lba n ws =>
      let ws' := ws ++ [v] in
      Some (set_phase (if (length ws' =? 256)%nat then WCommit lba n ws' else WData lba n ws') a)
  | _ => None
  end.

(** The status register.  While BSY is set its other bits mean nothing. *)
Definition shows (a : ata) (v : Z) : Prop :=
  0 ≤ v < 256 ∧ Z.testbit v 7 = busy a ∧
  (busy a = false → Z.testbit v 3 = data_phase a ∧
     Z.testbit v 0 = match a_phase a with Failed => true | _ => false end).

(** A drive that follows the ATA command protocol.  It proceeds by itself between
    any two accesses.  Registers and commands may be written only when it is
    neither busy nor exchanging data, words exchanged only in a data phase: the
    laws say nothing of other writes.  A status that is read is the present one,
    so an access is taken to come no sooner than the 400 ns in which the
    standard lets BSY appear. *)
Class AtaDevice (D : Type) `{!PortIO D} : Type := {
  ata_view : D → ata;
  view_outb p v d : settled (ata_view d) = true → describes p v (ata_view d) = true →
    ata_view (_outb p v d) = ata_outb p v (ata_view d);
  view_outw v d a : ata_outw v (ata_view d) = Some a → ata_view (_outw ATA_DATA v d) = a;
  view_inw d w a : ata_inw (ata_view d) = Some (w, a) →
    (_inw ATA_DATA d).1 = w ∧ ata_view (_inw ATA_DATA d).2 = a;
  view_inb p d : rtc ata_step (ata_view d) (ata_view (_inb p d).2);
  view_status d : shows (ata_view (_inb ATA_STATUS d).2) (_inb ATA_STATUS d).1
}.

(** What the driver needs beyond the protocol, since it looks at DRQ and ERR
    without looking at BSY and sends the flush without waiting: while it is busy
    the drive shows neither of the two, and what is written to its registers when
    it may not be is ignored.  (The IDE disk of QEMU, which vblk.c names as its
    target, is such a drive.) *)
Class AtaPlain (D : Type) `{!PortIO D, !AtaDevice D} : Prop := {
  plain_status d : busy (ata_view (_inb ATA_STATUS d).2) = true →
    Z.testbit (_inb ATA_STATUS d).1 3 = false ∧ Z.testbit (_inb ATA_STATUS d).1 0 = false;
  plain_outb p v d : settled (ata_view d) = false →
    ∃ a, rtc ata_step (ata_view d) a ∧
      if settled a then describes p v a = true → ata_view (_outb p v d) = ata_outb p v a
      else ata_view (_outb p v d) = a
}.
