(* ===== verification/VblkSpec.v ===== *)
(** The disk driver over a drive that follows the ATA protocol and is [AtaPlain]:
    it meets the contract the file systems assume of a block device, and what a
    write leaves on the drive, including the errors it does not see. *)

From S2P Require Import Prelude Disk Vblk.

#[local] Arguments Z.testbit : simpl never.

(** ** Words and bytes *)

Lemma bytes_words bs k : length bs = (2 * k)%nat → Forall is_byte bs → bytes_of (words_of bs) = bs.
Proof.
  revert bs. induction k as [|k IH]; intros bs Hl Hb.
  { destruct bs; [done|simpl in Hl; lia]. }
  destruct bs as [|lo [|hi bs]]; simpl in Hl; try lia. apply Forall_cons in Hb as [Hlo Hb]. apply Forall_cons in Hb as [Hhi Hb].
  unfold is_byte in *. simpl. rewrite IH by (done || lia). f_equal; [dlia|f_equal; dlia].
Qed.

Lemma words_length bs k : length bs = (2 * k)%nat → length (words_of bs) = k.
Proof.
  revert bs. induction k as [|k IH]; intros bs Hl.
  { destruct bs; [done|simpl in Hl; lia]. }
  destruct bs as [|lo [|hi bs]]; simpl in *; try lia. rewrite (IH bs); lia.
Qed.

Lemma words_app bs cs k : length bs = (2 * k)%nat → words_of (bs ++ cs) = words_of bs ++ words_of cs.
Proof.
  revert bs. induction k as [|k IH]; intros bs Hl.
  { destruct bs; [done|simpl in Hl; lia]. }
  destruct bs as [|lo [|hi bs]]; simpl in *; try lia. rewrite (IH bs); [done|lia].
Qed.

(** ** Polling *)

Lemma run_poll {S R} E n (body : M S (option R)) (I : S → Prop) (Q : option R → S → Prop) s :
  I s →
  (∀ s, I s → run E body (λ r s', match r with Some v => Q (Some v) s' | None => I s' end) s) →
  (∀ s, I s → Q None s) → run E (poll n body) Q s.
Proof.
  revert Q s. induction n as [|n IH]; intros Q s HI Hb Hn; cbn [poll].
  { eapply run_mono; [by apply Hb|]. intros [v|] s'; auto. }
  apply (run_for_loop _ _ _ _ _ (λ _, I)); [done| |by auto].
  intros j s' _ HI'. apply (IH (λ r s', match r with Some _ => Q r s' | None => I s' end)); [done| |done].
  intros s2 HI2. eapply run_mono; [by apply Hb|]. by intros [v|] s3.
Qed.

(** A poll whose first round has the answer. *)
Lemma run_poll_first {S R} E n (body : M S (option R)) (Q : option R → S → Prop) s :
  run E body (λ r s', is_Some r ∧ Q r s') s → run E (poll n body) Q s.
Proof.
  intros H. assert (∀ n, run E (poll n body) (λ r s', is_Some r ∧ Q r s') s) as Hn.
  { clear n. induction n as [|n IH]; [done|]. cbn [poll]. change 10%nat with (Datatypes.S 9). cbn [for_loop].
    run_step. eapply run_mono; [exact IH|]. intros r s' [[v ->] HQ]. run_step. eauto. }
  eapply run_mono; [apply Hn|]. by intros r s' [_ ?].
Qed.

(** ** What the drive does by itself *)

Definition disk_ok (disk : Z → list Z) : Prop := ∀ lba, sector_ok (disk lba).

(** The sectors the command under way may still change. *)
Definition may_write (a : ata) (x : Z) : Prop :=
  match a_phase a with
  | WWait lba n => lba ≤ x < lba + Z.of_nat n
  | WData lba n _ | WCommit lba n _ => lba ≤ x < lba + 1 + Z.of_nat n
  | Flushing => x ∈ a_dirty a
  | _ => False
  end.

(** The contents of the drive once the sector it is storing is stored. *)
Definition target (a : ata) : Z → list Z :=
  match a_phase a with WCommit lba _ ws => put_sector lba (bytes_of ws) (a_disk a) | _ => a_disk a end.

Definition is_word (w : Z) : Prop := 0 ≤ w < 2 ^ 16.

(** The words received of a sector. *)
Definition received_ok (a : ata) : Prop :=
  match a_phase a with
  | WData _ _ ws => Forall is_word ws
  | WCommit _ _ ws => length ws = 256%nat ∧ Forall is_word ws
  | _ => True
  end.

Lemma bytes_of_ok ws : length ws = 256%nat → Forall is_word ws → sector_ok (bytes_of ws).
Proof.
  intros Hlen Hw. split.
  - change 512%nat with (2 * 256)%nat. rewrite <- Hlen. clear. induction ws as [|w ws IH]; simpl; lia.
  - clear Hlen. induction Hw as [|w ws Hx _ IH]; [by constructor|]. simpl. unfold is_word, is_byte in *.
    repeat constructor; [dlia..|done].
Qed.

Lemma put_sector_ok lba bs f : sector_ok bs → disk_ok f → disk_ok (put_sector lba bs f).
Proof. intros Hb Hf x. unfold put_sector. by destruct (x =? lba). Qed.

(** The change [a] to [a'] stays within the sectors [T], and goes on doing so. *)
Record confined (T : Z → Prop) (a a' : ata) : Prop := {
  confined_may x : may_write a' x → T x;
  confined_dirty x : x ∈ a_dirty a' → T x;
  confined_disk x : ¬ T x → a_disk a' x = a_disk a x;
  confined_ok : disk_ok (a_disk a');
  confined_received : received_ok a'
}.

Lemma step_confined T a0 a a' : ata_step a a' → confined T a0 a → confined T a0 a'.
Proof.
  intros Hst [Hm Hd Hk Ho Hr].
  assert (∀ bs lba n ws, a_phase a = WCommit lba n ws → sector_ok bs →
    disk_ok (put_sector lba bs (a_disk a)) ∧ ∀ x, ¬ T x → put_sector lba bs (a_disk a) x = a_disk a0 x) as Hput.
  { intros bs lba n ws Hp Hb. split; [by apply put_sector_ok|]. intros x Hx. unfold put_sector.
    destruct (Z.eqb_spec x lba) as [->|]; [|by apply Hk]. destruct Hx. apply Hm. unfold may_write. rewrite Hp. lia. }
  destruct Hst as [a lba n Hp|a lba n Hp|a lba n ws Hp|a lba n ws bs Hp Hb|a Hp|a Hp|a f Hp Hf|a Hp];
    unfold may_write, received_ok in Hm, Hr.
  - by split.
  - rewrite Hp in Hm. split; [|done..|by constructor]. intros x Hx. apply Hm. unfold may_write in Hx. simpl in Hx. lia.
  - rewrite Hp in Hm, Hr. destruct (Hput (bytes_of ws) lba n ws Hp) as [Ho' Hk']; [by apply bytes_of_ok; apply Hr|].
    split; [| |done..|].
    + intros x Hx. apply Hm. destruct n; unfold may_write in Hx; cbn [stored a_phase set_phase] in Hx; [done|lia].
    + intros x Hx. simpl in Hx. apply elem_of_cons in Hx as [->|Hx]; [apply Hm; lia|by apply Hd].
    + by destruct n.
  - destruct (Hput bs lba n ws Hp Hb). by split.
  - by split.
  - split; [done| |done..]. intros x Hx. simpl in Hx. by apply elem_of_nil in Hx.
  - split; [done|done| | |done].
    + intros x Hx. simpl. destruct (Hf x) as [->|[Hin _]]; [by apply Hk|]. destruct Hx. by apply Hd.
    + intros x. simpl. destruct (Hf x) as [->|[_ ?]]; [apply Ho|done].
  - by split.
Qed.

Lemma steps_confined T a0 a a' : rtc ata_step a a' → confined T a0 a → confined T a0 a'.
Proof. induction 1; eauto using step_confined. Qed.

(** Time leaves the registers, counts the errors, and without one of these brings
    nothing but the sector being stored. *)
Lemma steps_keep a a' : rtc ata_step a a' →
  a_head a' = a_head a ∧ a_ident a' = a_ident a ∧ (a_errors a ≤ a_errors a')%nat ∧
  (a_errors a' = a_errors a → target a' = target a).
Proof.
  induction 1 as [a|a b c Hst _ (H1 & H2 & H3 & H4)]; [done|].
  assert (a_head b = a_head a ∧ a_ident b = a_ident a ∧ (a_errors a ≤ a_errors b)%nat ∧
    (a_errors b = a_errors a → target b = target a)) as (E1 & E2 & E3 & E4).
  { destruct Hst as [a ? n Hp|a ? n Hp|a ? n ? Hp|a ? n ? ? Hp|a Hp|a Hp|a ? Hp|a Hp]; unfold target;
      simpl; rewrite ?Hp; split_and!; try done; try lia; by destruct n. }
  split_and!; [congruence|congruence|lia|]. intros He. rewrite H4, E4 by lia. done.
Qed.

Lemma still_steps a a' : busy a = false → rtc ata_step a a' → a' = a.
Proof.
  unfold busy. intros Hb. destruct 1 as [|a b c Hst _]; [done|].
  destruct Hst as [a ? ? Hp|a ? ? Hp|a ? ? ? Hp|a ? ? ? ? Hp|a Hp|a Hp|a ? Hp|a [(? & ? & [Hp|Hp])|Hp]]; by rewrite Hp in Hb.
Qed.

Lemma settled_still a : settled a = true → busy a = false ∧ data_phase a = false.
Proof. unfold settled, busy, data_phase. by destruct (a_phase a). Qed.

Lemma still_settled a : busy a = false → data_phase a = false → settled a = true.
Proof. unfold settled, busy, data_phase. by destruct (a_phase a). Qed.

(** What can come of the phases in which the driver waits for data. *)
Lemma read_steps a a' lba n : a_phase a = RWait lba (S n) → rtc ata_step a a' →
  a' = a ∨ a' = set_phase (RData lba n (words_of (a_disk a lba))) a ∨ a' = failed a.
Proof.
  intros Hp. destruct 1 as [|a b c Hst Hr]; [by left|]. right.
  destruct Hst as [a lba' n' Hp'|a ? ? Hp'|a ? ? ? Hp'|a ? ? ? ? Hp'|a Hp'|a Hp'|a ? Hp'|a _]; try rewrite Hp in Hp'; simplify_eq;
    (apply still_steps in Hr; [subst c; auto|done]).
Qed.

Lemma ident_steps a a' : a_phase a = IWait → rtc ata_step a a' →
  a' = a ∨ a' = set_phase (IData (a_ident a)) a ∨ a' = failed a.
Proof.
  intros Hp. destruct 1 as [|a b c Hst Hr]; [by left|]. right.
  destruct Hst as [a lba' n' Hp'|a ? ? Hp'|a ? ? ? Hp'|a ? ? ? ? Hp'|a Hp'|a Hp'|a ? Hp'|a _]; try rewrite Hp in Hp'; simplify_eq;
    (apply still_steps in Hr; [subst c; auto|done]).
Qed.

Lemma land_bit v k m : m = 2 ^ k → 0 ≤ k → (Z.land v m =? 0) = negb (Z.testbit v k).
Proof. intros ->. apply land_pow2_testbit. Qed.

Section Driver.
Context {D : Type} `{!PortIO D, !AtaDevice D, !AtaPlain D}.
Abbreviation state := (vblk_state D).
Implicit Types s : state.

Definition view s : ata := ata_view (ata_dev s).

(** ** Accesses and waits *)

Lemma outb_run E p v s (Q : unit → state → Prop) :
  settled (view s) = true → describes p v (view s) = true →
  (∀ s', view s' = ata_outb p v (view s) → g_ata_ready s' = g_ata_ready s → Q tt s') → run E (outb p v) Q s.
Proof. intros Hs Ha HQ. apply HQ; [by apply view_outb|done]. Qed.

Lemma inb_run E p s (Q : Z → state → Prop) :
  (∀ v s', rtc ata_step (view s) (view s') → g_ata_ready s' = g_ata_ready s → Q v s') → run E (inb p) Q s.
Proof. intros HQ. apply HQ; [by apply view_inb|done]. Qed.

(** The bits of the status that the driver looks at are those of the phase. *)
Lemma status_run E s (Q : Z → state → Prop) :
  (∀ v s', rtc ata_step (view s) (view s') → g_ata_ready s' = g_ata_ready s → 0 ≤ v < 256 →
     Z.testbit v 7 = busy (view s') → Z.testbit v 3 = data_phase (view s') →
     Z.testbit v 0 = match a_phase (view s') with Failed => true | _ => false end → Q v s') →
  run E (inb ATA_STATUS) Q s.
Proof.
  intros HQ. unfold run, inb. set (r := _inb ATA_STATUS (ata_dev s)).
  destruct (view_status (ata_dev s)) as (Hv & Hb & Hrest). fold r in Hv, Hb, Hrest.
  assert (Z.testbit r.1 3 = data_phase (ata_view r.2) ∧
    Z.testbit r.1 0 = match a_phase (ata_view r.2) with Failed => true | _ => false end) as [H3 H0].
  { destruct (busy (ata_view r.2)) eqn:Hbusy; [|by apply Hrest].
    destruct (plain_status (ata_dev s) Hbusy) as [H3 H0]. fold r in H3, H0. rewrite H3, H0.
    unfold busy, data_phase in *. by destruct (a_phase (ata_view r.2)). }
  apply HQ; [apply view_inb|done..].
Qed.

(** A drive that accepts commands is ready at once. *)
Lemma wait_ready_settled E s (Q : bool → state → Prop) :
  settled (view s) = true →
  (∀ s', view s' = view s → g_ata_ready s' = g_ata_ready s → Q true s') → run E ata_wait_ready Q s.
Proof.
  intros Hs HQ. destruct (settled_still _ Hs) as [Hb _]. unfold ata_wait_ready. run_step. apply run_poll_first.
  run_step. apply status_run. intros v s1 Hst Hg Hv H7 _ _. apply still_steps in Hst; [|done]. rewrite Hst in H7.
  destruct (Z.eqb_spec v 255) as [->|_]; [change (true = busy (view s)) in H7; congruence|].
  rewrite (land_bit _ 7) by done. rewrite H7, Hb. cbn [negb]. run_step. split; [done|]. run_step. by apply HQ.
Qed.

Lemma wait_ready_run E s (Q : bool → state → Prop) :
  (∀ b s', rtc ata_step (view s) (view s') → g_ata_ready s' = g_ata_ready s →
     (b = true → busy (view s') = false) → Q b s') →
  run E ata_wait_ready Q s.
Proof.
  intros HQ. unfold ata_wait_ready. run_step.
  apply (run_poll _ _ _ (λ s', rtc ata_step (view s) (view s') ∧ g_ata_ready s' = g_ata_ready s)); [done| |].
  - intros s1 [H1 H2]. run_step. apply status_run. intros v s2 Hst Hr _ H7 _ _.
    assert (rtc ata_step (view s) (view s2)) as Hall by (by etrans).
    destruct (v =? 255); [do 2 run_step; apply HQ; [done|congruence|done]|].
    rewrite (land_bit _ 7) by done. rewrite H7.
    destruct (busy (view s2)) eqn:Hb; cbn [negb]; run_step; [split; [done|congruence]|run_step; apply HQ; [done|congruence|done]].
  - intros s1 [H1 H2]. run_step. by apply HQ.
Qed.

(** Waiting for data from a phase without any: with [true] a data phase has begun;
    with [false] none has. *)
Lemma wait_drq_run E s (Q : bool → state → Prop) :
  data_phase (view s) = false →
  (∀ b s', rtc ata_step (view s) (view s') → g_ata_ready s' = g_ata_ready s → data_phase (view s') = b → Q b s') →
  run E ata_wait_drq Q s.
Proof.
  intros Hd HQ. unfold ata_wait_drq. run_step.
  apply (run_poll _ _ _ (λ s', rtc ata_step (view s) (view s') ∧ g_ata_ready s' = g_ata_ready s ∧
    data_phase (view s') = false)); [done| |].
  - intros s1 (H1 & H2 & H3). run_step. apply status_run. intros v s2 Hst Hr _ _ B3 B0.
    assert (rtc ata_step (view s) (view s2)) as Hall by (by etrans).
    rewrite (land_bit _ 0), (land_bit _ 3) by done. rewrite B0, B3, !negb_involutive.
    destruct (match a_phase (view s2) with Failed => true | _ => false end) eqn:Hf.
    + assert (a_phase (view s2) = Failed) as Hp by (by destruct (a_phase (view s2))).
      run_step. apply inb_run. intros v' s3 Hst' Hr'. apply still_steps in Hst'; [|unfold busy; by rewrite Hp].
      do 2 run_step. apply HQ; [by rewrite Hst'|congruence|]. unfold data_phase. by rewrite Hst', Hp.
    + destruct (data_phase (view s2)) eqn:Hdp; run_step; [run_step; apply HQ; [done|congruence|done]|split_and!; [done|congruence|done]].
  - intros s1 (H1 & H2 & H3). run_step. by apply HQ.
Qed.

Lemma data_still a : data_phase a = true → busy a = false ∧ a_phase a ≠ Failed.
Proof. unfold data_phase, busy. by destruct (a_phase a). Qed.

Lemma wait_drq_at_once E s (Q : bool → state → Prop) :
  data_phase (view s) = true → (∀ s', view s' = view s → Q true s') → run E ata_wait_drq Q s.
Proof.
  intros Hd HQ. destruct (data_still _ Hd) as [Hb Hf]. unfold ata_wait_drq. run_step. apply run_poll_first.
  run_step. apply status_run. intros v s1 Hst _ _ _ B3 B0. apply still_steps in Hst; [|done].
  rewrite (land_bit _ 0), (land_bit _ 3) by done. rewrite B0, B3, Hst, Hd.
  destruct (a_phase (view s)); try done; (cbn [negb]; run_step; split; [done|]; run_step; by apply HQ).
Qed.

(** ** The command *)

Lemma head_bits x : 0 ≤ x < 16 →
  Z.lor 0xE0 x mod 16 = x ∧ Z.testbit (Z.lor 0xE0 x) 4 = false ∧ Z.testbit (Z.lor 0xE0 x) 6 = true.
Proof.
  intros Hx. assert (x = 0 ∨ x = 1 ∨ x = 2 ∨ x = 3 ∨ x = 4 ∨ x = 5 ∨ x = 6 ∨ x = 7 ∨ x = 8 ∨ x = 9 ∨ x = 10 ∨
    x = 11 ∨ x = 12 ∨ x = 13 ∨ x = 14 ∨ x = 15) as H by lia.
  repeat (destruct H as [->|H]; [repeat split|]). by subst x.
Qed.

Lemma lba_bytes lba : 0 ≤ lba < 2 ^ 28 →
  u8 lba + 2 ^ 8 * u8 (Z.shiftr lba 8) + 2 ^ 16 * u8 (Z.shiftr lba 16) + 2 ^ 24 * (lba / 2 ^ 24) = lba.
Proof. intros Hl. unfold wrap. rewrite !Z.shiftr_div_pow2 by lia. dlia. Qed.

Definition transfer (cmd lba : Z) (n : nat) : phase :=
  if cmd =? ATA_CMD_READ_PIO then RWait lba n else WWait lba n.

Lemma setup_run E lba count cmd s (Q : unit → state → Prop) :
  settled (view s) = true → 0 ≤ lba < 2 ^ 28 → 0 < count → cmd = ATA_CMD_READ_PIO ∨ cmd = ATA_CMD_WRITE_PIO →
  (∀ s' h lo mid hi, view s' = set_phase (transfer cmd lba (Z.to_nat count)) (set_regs h count lo mid hi (view s)) →
     Z.testbit h 4 = false → g_ata_ready s' = g_ata_ready s → Q tt s') →
  run E (ata_setup_lba28 lba count cmd) Q s.
Proof.
  intros Hs Hl Hc Hcmd HQ. unfold ata_setup_lba28.
  assert (Z.land (Z.shiftr lba 24) 0x0F = lba / 2 ^ 24) as Hn.
  { rewrite Z.shiftr_div_pow2 by lia. change 15 with (Z.ones 4). rewrite Z.land_ones by lia. apply Z.mod_small. dlia. }
  destruct (head_bits (Z.land (Z.shiftr lba 24) 0x0F)) as (Hm & H4 & H6); [rewrite Hn; dlia|].
  rewrite Hn in *. generalize dependent (Z.lor 0xE0 (lba / 2 ^ 24)). intros h Hm H4 H6.
  run_step. apply outb_run; [done|done|]. intros s1 E1 G1. run_step. apply outb_run; [by rewrite E1|done|]. intros s2 E2 G2.
  run_step. apply outb_run; [by rewrite E2, E1|done|]. intros s3 E3 G3.
  run_step. apply outb_run; [by rewrite E3, E2, E1|done|]. intros s4 E4 G4.
  run_step. apply outb_run; [by rewrite E4, E3, E2, E1|done|]. intros s5 E5 G5. rewrite E4, E3, E2, E1 in E5.
  cbn -[wrap] in E5.
  assert (view s5 = set_regs h count (u8 lba) (u8 (Z.shiftr lba 8)) (u8 (Z.shiftr lba 16)) (view s)) as Hv by exact E5.
  apply outb_run; [by rewrite Hv|rewrite Hv; unfold describes; simpl; rewrite H4, H6; by destruct Hcmd as [-> | ->]|].
  intros s6 E6 G6. eapply HQ; [|exact H4|congruence]. rewrite E6, Hv.
  assert (∀ a, a_lba (set_regs h count (u8 lba) (u8 (Z.shiftr lba 8)) (u8 (Z.shiftr lba 16)) a) = lba) as Ha.
  { intros a. unfold a_lba. cbn [set_regs a_lo a_mid a_hi a_head]. rewrite Hm. by apply lba_bytes. }
  unfold ata_outb. simpl. rewrite Ha. unfold a_sectors. simpl. rewrite (proj2 (Z.eqb_neq count 0)) by lia.
  by destruct Hcmd as [-> | ->].
Qed.

(** ** Reading *)

Definition after_read (lba : Z) (n : nat) : phase := match n with O => Idle | _ => RWait (lba + 1) n end.

Lemma inw_run E s w a (Q : Z → state → Prop) :
  ata_inw (view s) = Some (w, a) →
  (∀ s', view s' = a → g_ata_ready s' = g_ata_ready s → Q w s') → run E (inw ATA_DATA) Q s.
Proof. intros Ha HQ. unfold run, inw. destruct (view_inw (ata_dev s) w a Ha) as [-> Hv]. by apply HQ. Qed.

Lemma read_words_run E lba n ws s (Q : list Z → state → Prop) :
  a_phase (view s) = RData lba n ws → ws ≠ [] →
  (∀ s', view s' = set_phase (after_read lba n) (view s) → g_ata_ready s' = g_ata_ready s → Q (bytes_of ws) s') →
  run E (read_words (length ws)) Q s.
Proof.
  revert s Q. induction ws as [|w ws IH]; intros s Q Hph Hne HQ; [done|]. simpl.
  run_step. eapply inw_run; [unfold ata_inw; by rewrite Hph|]. intros s1 Hv Hr. destruct ws as [|w' ws].
  - run_steps. apply HQ; [|done]. rewrite Hv. unfold after_read. by destruct n.
  - run_step. apply IH; [by rewrite Hv|done|]. intros s2 Hv2 Hr2. run_step.
    apply HQ; [|congruence]. by rewrite Hv2, Hv.
Qed.

Lemma read_sectors_run E lba n s (Q : option (list Z) → state → Prop) :
  disk_ok (a_disk (view s)) → a_phase (view s) = match n with O => Idle | _ => RWait lba n end →
  (∀ r s', a_disk (view s') = a_disk (view s) → g_ata_ready s' = g_ata_ready s → a_ident (view s') = a_ident (view s) →
     match r with
     | Some bs => bs = seqZ lba (Z.of_nat n) ≫= a_disk (view s) ∧ a_phase (view s') = Idle
     | None => a_phase (view s') = Failed ∨ busy (view s') = true
     end → Q r s') →
  run E (read_sectors n) Q s.
Proof.
  revert lba s Q. induction n as [|n IH]; intros lba s Q Hok Hph HQ; cbn [read_sectors].
  { run_step. by apply HQ. }
  run_step. apply wait_drq_run; [unfold data_phase; by rewrite Hph|]. intros b s1 Hst Hr Hdp.
  destruct (read_steps _ _ _ _ Hph Hst) as [Hv|[Hv|Hv]]; rewrite Hv in Hdp; unfold data_phase in Hdp; simpl in Hdp;
    rewrite ?Hph in Hdp; subst b; cbn [negb].
  1, 3: run_step; apply HQ; rewrite ?Hv; unfold busy; rewrite ?Hph; auto.
  destruct (Hok lba) as [Hlen Hby]. set (ws := words_of (a_disk (view s) lba)) in *.
  assert (length ws = 256%nat) as Hws by (by apply words_length).
  rewrite <- Hws. run_step.
  eapply (read_words_run _ lba n ws); [by rewrite Hv|by destruct ws|]. intros s2 Hv2 Hr2. run_step.
  assert (a_disk (view s2) = a_disk (view s)) as Hd2 by (rewrite Hv2, Hv; done).
  assert (a_ident (view s2) = a_ident (view s)) as Hi2 by (rewrite Hv2, Hv; done).
  apply (IH (lba + 1)); [by rewrite Hd2|rewrite Hv2; by destruct n|]. intros r s3 Hd3 Hr3 Hi3 Hres. run_step.
  apply HQ; [congruence..|]. destruct r as [bs|]; [|done]. destruct Hres as [-> Hph3]. simpl. split; [|done]. rewrite Hd2.
  unfold ws. rewrite (bytes_words _ 256) by done. rewrite (seqZ_cons lba) by lia. cbn [mbind list_bind].
  replace (Z.pred (Z.of_nat (S n))) with (Z.of_nat n) by lia. by replace (Z.succ lba) with (lba + 1) by lia.
Qed.

(** What the driver refuses without an access. *)
Definition refused s (sector count : Z) : Prop :=
  g_ata_ready s = false ∨ count = 0 ∨ 255 < count ∨ 2 ^ 28 ≤ sector.

(** What a read promises to its callers. *)
Lemma read_spec sector count s :
  disk_ok (a_disk (view s)) → settled (view s) = true → 0 ≤ sector → 0 ≤ count →
  wp (virtio_blk_read sector count) (λ r s',
    a_disk (view s') = a_disk (view s) ∧
    match r with
    | Some bs => ¬ refused s sector count ∧ bs = seqZ sector count ≫= a_disk (view s) ∧ settled (view s') = true
    | None => refused s sector count ∧ view s' = view s ∨ a_phase (view s') = Failed ∨ busy (view s') = true
    end) s.
Proof.
  intros Hok Hset Hs Hc. unfold virtio_blk_read. run_step. run_step. unfold refused.
  destruct (g_ata_ready s) eqn:Hrd; cbn [negb]; [|run_step; auto 6].
  destruct (Z.eqb_spec count 0); cbn [orb]; [run_step; auto 6|].
  destruct (Z.ltb_spec 255 count); [run_step; auto 7|]. destruct (Z.ltb_spec 268435455 sector); [run_step; split; [done|left; split; [lia|done]]|].
  run_step. apply wait_ready_settled; [done|]. intros s1 Hv1 Hr1. cbn [negb].
  rewrite (wrap_small 32), (wrap_small 8) by (unfold in_width; lia).
  run_step. apply setup_run; [by rewrite Hv1|lia|lia|by left|]. intros s2 h lo mid hi Hv2 _ Hr2.
  assert (a_disk (view s2) = a_disk (view s)) as Hd2 by (rewrite Hv2, Hv1; done).
  apply (read_sectors_run _ sector).
  - by rewrite Hd2.
  - rewrite Hv2. simpl. destruct (Z.to_nat count) eqn:E; [lia|done].
  - intros r s3 Hd3 Hr3 _ Hres. split; [congruence|]. destruct r as [bs|]; [|by right]. destruct Hres as [-> Hp].
    rewrite Hd2, Z2Nat.id by lia. split; [|unfold settled; by rewrite Hp]. intros [?|[?|[?|?]]]; [done|lia..].
Qed.

(** ** Writing *)

Lemma write_words_run E lba n k acc buf s (Q : unit → state → Prop) :
  a_phase (view s) = WData lba n acc → (0 < k)%nat → (length acc + k = 256)%nat → (2 * k ≤ length buf)%nat →
  (∀ s', view s' = set_phase (WCommit lba n (acc ++ words_of (take (2 * k) buf))) (view s) →
     g_ata_ready s' = g_ata_ready s → Q tt s') →
  run E (write_words k buf) Q s.
Proof.
  revert acc buf s Q. induction k as [|k IH]; intros acc buf s Q Hph Hk Hlen Hbuf HQ; [lia|].
  destruct buf as [|lo [|hi buf]]; simpl in Hbuf; try lia. cbn [write_words]. run_step.
  unfold outw. apply run_modify. set (s1 := set_dev _ s).
  set (ws := acc ++ [lo + 256 * hi]).
  assert (view s1 = set_phase (if (length ws =? 256)%nat then WCommit lba n ws else WData lba n ws) (view s)) as Hv.
  { apply view_outw. unfold ata_outw. change (ata_view (ata_dev s)) with (view s). by rewrite Hph. }
  assert (length ws = S (length acc)) as Hws by (unfold ws; rewrite length_app; simpl; lia). rewrite Hws in Hv.
  replace (2 * S k)%nat with (S (S (2 * k))) in HQ by lia. cbn [take words_of] in HQ.
  destruct k as [|k].
  - rewrite (proj2 (Nat.eqb_eq _ _)) in Hv by lia. simpl. run_step. by apply HQ.
  - rewrite (proj2 (Nat.eqb_neq _ _)) in Hv by lia. apply (IH ws buf s1); [by rewrite Hv|lia|lia|lia|].
    intros s2 Hv2 Hr2. apply HQ; [|done]. unfold ws in Hv2. by rewrite Hv2, Hv, <- app_assoc.
Qed.

(** The drive is about to accept the first of [n] sectors, the one for [lba]. *)
Definition awaits (a : ata) (lba : Z) (n : nat) : Prop :=
  a_phase a = WWait lba n ∨ ∃ ws, a_phase a = WCommit (lba - 1) n ws.

Lemma awaits_data a lba n : awaits a lba n → data_phase a = false.
Proof. unfold data_phase. by intros [-> | [ws ->]]. Qed.

Lemma write_steps a a' lba n : awaits a lba (S n) → rtc ata_step a a' → data_phase a' = true →
  a_phase a' = WData lba n [] ∧ a_errors a' = a_errors a.
Proof.
  intros Hw. induction 1 as [a|a b c Hst Hr IH]; intros Hd; [by rewrite (awaits_data _ _ _ Hw) in Hd|].
  assert (∀ x, b = failed x → False) as Hnf.
  { intros x ->. apply still_steps in Hr; [|done]. by subst c. }
  destruct Hst as [a lba' n' Hp|a lba' n' Hp|a lba' n' ws Hp|a ? ? ? ? Hp|a Hp|a Hp|a ? Hp|a _];
    try (by destruct (Hnf _ eq_refl)); destruct Hw as [Hw|[ws' Hw]]; rewrite Hw in Hp; simplify_eq.
  - apply still_steps in Hr; [|done]. by subst c.
  - apply IH; [|done]. left. simpl. f_equal. lia.
Qed.

(** Sector [x] of [buf], whose first sector belongs at [lba]. *)
Definition sector_of (buf : list Z) (lba x : Z) : list Z := bytes (Z.to_nat (x - lba) * 512) 512 buf.

Lemma sector_of_drop buf lba x : lba < x → sector_of (drop 512 buf) (lba + 1) x = sector_of buf lba x.
Proof.
  intros Hx. unfold sector_of, bytes. rewrite drop_drop. f_equal. f_equal.
  replace (x - lba) with (Z.succ (x - (lba + 1))) by lia. rewrite Z2Nat.inj_succ by lia. lia.
Qed.

Lemma words_are_words k bs : length bs = (2 * k)%nat → Forall is_byte bs → Forall is_word (words_of bs).
Proof.
  revert bs. induction k as [|k IH]; intros bs Hl Hb.
  { destruct bs; [by constructor|simpl in Hl; lia]. }
  destruct bs as [|lo [|hi bs]]; simpl in Hl; try lia. apply Forall_cons in Hb as [Hlo Hb]. apply Forall_cons in Hb as [Hhi Hb].
  simpl. constructor; [unfold is_byte, is_word in *; lia|]. apply IH; [lia|done].
Qed.

Lemma confined_commit T a0 a lba n ws ws' :
  confined T a0 a → a_phase a = WData lba n ws' → length ws = 256%nat → Forall is_word ws →
  confined T a0 (set_phase (WCommit lba n ws) a).
Proof. intros [Hm Hd Hk Ho _] Hp Hlen Hw. unfold may_write in Hm. rewrite Hp in Hm. by split. Qed.

Lemma write_sectors_run E T a0 lba n buf s (Q : bool → state → Prop) :
  awaits (view s) lba n → confined T a0 (view s) → length buf = (n * 512)%nat → Forall is_byte buf →
  (∀ r s', g_ata_ready s' = g_ata_ready s → confined T a0 (view s') → a_head (view s') = a_head (view s) →
     (r = true → (∃ lba', awaits (view s') lba' 0) ∧ a_errors (view s') = a_errors (view s) ∧
        ∀ x, target (view s') x = if (lba <=? x) && (x <? lba + Z.of_nat n) then sector_of buf lba x else target (view s) x) →
     Q r s') →
  run E (write_sectors n buf) Q s.
Proof.
  revert lba buf s Q. induction n as [|n IH]; intros lba buf s Q Hph Hcf Hlen Hby HQ; cbn [write_sectors].
  { run_step. apply HQ; [done..|]. intros _. split_and!; [by eexists|done|]. intros x.
    destruct (Z.leb_spec lba x); [|done]. destruct (Z.ltb_spec x (lba + Z.of_nat 0)); [lia|done]. }
  run_step. apply wait_drq_run; [by eapply awaits_data|]. intros b s1 Hst Hr Hdp.
  pose proof (steps_confined _ _ _ _ Hst Hcf) as Hcf1. destruct (steps_keep _ _ Hst) as (Hh1 & _ & _ & Ht1).
  destruct b; cbn [negb]; [|run_step; by apply HQ]. destruct (write_steps _ _ _ _ Hph Hst Hdp) as [Hp1 He1].
  run_step. eapply (write_words_run _ lba n 256 [] buf); [done|lia|done|lia|]. change (2 * 256)%nat with 512%nat. cbn [app].
  assert (length (take 512 buf) = 512%nat) as Hl by (rewrite length_take; lia).
  assert (Forall is_byte (take 512 buf)) as Hb by (by apply Forall_take).
  intros s2 Hv2 Hr2. apply (IH (lba + 1)); [right; exists (words_of (take 512 buf)); rewrite Hv2; simpl; f_equal; lia| | |by apply Forall_drop|].
  { rewrite Hv2. eapply confined_commit; [done|done|by apply words_length|by apply (words_are_words 256)]. }
  { rewrite length_drop. lia. }
  intros r s3 Hr3 Hcf3 Hh3 Hnew. apply HQ; [congruence|done|rewrite Hh3, Hv2; done|]. intros ->.
  destruct (Hnew eq_refl) as (Haw & He3 & Ht3). split_and!; [done|rewrite He3, Hv2; done|]. intros x. rewrite Ht3.
  assert (target (view s2) x = if x =? lba then take 512 buf else target (view s) x) as ->.
  { rewrite <- Ht1 by done. rewrite Hv2. unfold target. cbn [set_phase a_phase a_disk]. rewrite Hp1. unfold put_sector.
    destruct (x =? lba); [|done]. by apply (bytes_words _ 256). }
  destruct (Z.eqb_spec x lba) as [->|Hne].
  - rewrite (proj2 (Z.leb_gt (lba + 1) lba)), Z.leb_refl, (proj2 (Z.ltb_lt lba (lba + Z.of_nat (S n)))) by lia. cbn [andb].
    unfold sector_of, bytes. by rewrite Z.sub_diag.
  - replace (lba + 1 + Z.of_nat n) with (lba + Z.of_nat (S n)) by lia.
    destruct (Z.leb_spec (lba + 1) x), (Z.leb_spec lba x); try lia; cbn [andb]; [|done].
    destruct (x <? _); [apply sector_of_drop; lia|done].
Qed.

(** The last sector is received, and no data phase follows. *)
Definition ending (a : ata) : bool :=
  match a_phase a with Idle | Failed | Flushing | WWait _ O | WCommit _ O _ => true | _ => false end.

Lemma ending_steps a a' : rtc ata_step a a' → ending a = true → ending a' = true.
Proof.
  induction 1 as [|a b c Hst _ IH]; intros He; [done|]. apply IH. unfold ending in *.
  destruct Hst as [a ? n Hp|a ? n Hp|a ? n ? Hp|a ? n ? ? Hp|a Hp|a Hp|a ? Hp|a Hp]; rewrite ?Hp in He; try done. by destruct n.
Qed.

Lemma ending_settled a : ending a = true → busy a = false → settled a = true.
Proof. unfold ending, busy, settled. by destruct (a_phase a). Qed.

Lemma settled_target a : settled a = true → target a = a_disk a.
Proof. unfold settled, target. by destruct (a_phase a). Qed.

(** The flush is carried out or ignored. *)
Lemma flush_run E T a0 s (Q : unit → state → Prop) :
  ending (view s) = true → confined T a0 (view s) → Z.testbit (a_head (view s)) 4 = false →
  (∀ s', g_ata_ready s' = g_ata_ready s → ending (view s') = true → confined T a0 (view s') →
     (a_errors (view s) ≤ a_errors (view s'))%nat →
     (a_errors (view s') = a_errors (view s) → target (view s') = target (view s)) → Q tt s') →
  run E (outb ATA_COMMAND ATA_CMD_FLUSH) Q s.
Proof.
  intros Hend Hcf Hh HQ. unfold outb. apply run_modify. set (s' := set_dev _ s).
  assert (∃ a, rtc ata_step (view s) a ∧
    if settled a then describes ATA_COMMAND ATA_CMD_FLUSH a = true → view s' = ata_outb ATA_COMMAND ATA_CMD_FLUSH a
    else view s' = a) as (a & Hst & Hv).
  { destruct (settled (view s)) eqn:Hs; [|by apply plain_outb]. exists (view s). split; [done|]. rewrite Hs. by apply view_outb. }
  pose proof (ending_steps _ _ Hst Hend) as Ha. pose proof (steps_confined _ _ _ _ Hst Hcf) as Hca.
  destruct (steps_keep _ _ Hst) as (Hha & _ & Hle & Ht). destruct (settled a) eqn:Hs; [|by apply HQ; rewrite ?Hv].
  rewrite settled_target in Ht by done. assert (view s' = set_phase Flushing a) as Hv'.
  { apply Hv. unfold describes. simpl. by rewrite Hha, Hh. }
  apply HQ; rewrite ?Hv'; [done|done| |done|done]. destruct Hca as [_ Hd Hk Ho _]. by split.
Qed.

Definition in_sectors (sector count x : Z) : bool := (sector <=? x) && (x <? sector + count).

(** Waiting after the flush. *)
Lemma finish_run E T a0 s (Q : bool → state → Prop) :
  ending (view s) = true → confined T a0 (view s) → Z.testbit (a_head (view s)) 4 = false →
  (∀ b s', g_ata_ready s' = g_ata_ready s → confined T a0 (view s') →
     (b = true → settled (view s') = true ∧
        (a_errors (view s') = a_errors (view s) → a_disk (view s') = target (view s))) → Q b s') →
  run E (outb ATA_COMMAND ATA_CMD_FLUSH;; ata_wait_ready) Q s.
Proof.
  intros Hend Hcf Hh HQ. run_step. eapply flush_run; [done..|]. intros s1 Hr1 Hend1 Hcf1 Hle1 Ht1.
  apply wait_ready_run. intros b s2 Hst Hr2 Hb. destruct (steps_keep _ _ Hst) as (_ & _ & Hle2 & Ht2).
  apply HQ; [congruence|by eapply steps_confined|]. intros ->.
  assert (settled (view s2) = true) as Hs2 by (apply ending_settled; [by eapply ending_steps|auto]).
  split; [done|]. intros He. rewrite <- settled_target, Ht2, Ht1 by (done || lia). done.
Qed.

Lemma write_spec sector count buf s :
  disk_ok (a_disk (view s)) → settled (view s) = true → 0 ≤ sector → 0 ≤ count →
  length buf = (Z.to_nat count * 512)%nat → Forall is_byte buf →
  wp (virtio_blk_write sector count buf) (λ r s',
    g_ata_ready s' = g_ata_ready s ∧ disk_ok (a_disk (view s')) ∧
    (∀ x, in_sectors sector count x = false → x ∉ a_dirty (view s) → a_disk (view s') x = a_disk (view s) x) ∧
    (r = true → ¬ refused s sector count ∧ settled (view s') = true ∧
       (a_errors (view s') = a_errors (view s) → ∀ x, a_disk (view s') x =
          if in_sectors sector count x then sector_of buf sector x else a_disk (view s) x))) s.
Proof.
  intros Hok Hset Hs Hc Hlen Hby. unfold virtio_blk_write. run_step. run_step. unfold refused.
  destruct (g_ata_ready s) eqn:Hrd; cbn [negb]; [|by run_step].
  destruct (Z.eqb_spec count 0); cbn [orb]; [by run_step|].
  destruct (Z.ltb_spec 255 count); [by run_step|]. destruct (Z.ltb_spec 268435455 sector); [by run_step|].
  run_step. apply wait_ready_settled; [done|]. intros s1 Hv1 Hr1. cbn [negb].
  rewrite (wrap_small 32), (wrap_small 8) by (unfold in_width; lia).
  run_step. apply setup_run; [by rewrite Hv1|lia|lia|by right|]. intros s2 h lo mid hi Hv2 Hh Hr2. rewrite Hv1 in Hv2.
  set (T x := in_sectors sector count x = true ∨ x ∈ a_dirty (view s)).
  assert (confined T (view s) (view s2)) as Hcf.
  { rewrite Hv2. split; [|by right|done|done|done]. intros x Hx. left. unfold may_write, in_sectors in *. simpl in Hx. lia. }
  assert (∀ a, confined T (view s) a → disk_ok (a_disk a) ∧
    ∀ x, in_sectors sector count x = false → x ∉ a_dirty (view s) → a_disk a x = a_disk (view s) x) as Hfr.
  { intros a [_ _ Hk Ho _]. split; [done|]. intros x Hx Hd. apply Hk. intros [Hx'|?]; [congruence|done]. }
  run_step. apply (write_sectors_run _ T (view s) sector); [left; rewrite Hv2; done|done|done|done|].
  intros r s3 Hr3 Hcf3 Hh3 Hnew. destruct r; cbn [negb]; [|run_step; split_and!; [congruence|by apply Hfr..|done]].
  destruct (Hnew eq_refl) as ((lba' & Haw) & He3 & Ht3).
  apply (finish_run _ T (view s)); [unfold ending; by destruct Haw as [-> | [ws ->]]|done|by rewrite Hh3, Hv2|].
  intros b s4 Hr4 Hcf4 Hb. split_and!; [congruence|by apply Hfr..|]. intros ->. destruct (Hb eq_refl) as [Hs4 Hd4].
  split; [intros [?|[?|[?|?]]]; [done|lia..]|]. split; [done|]. intros He x.
  rewrite Hd4 by (rewrite He, He3, Hv2; done). rewrite Ht3, Z2Nat.id by lia. unfold in_sectors.
  destruct (_ && _); [done|]. rewrite Hv2. done.
Qed.

(** ** Start-up *)

Lemma read_ident_run E ws s (Q : list Z → state → Prop) :
  a_phase (view s) = IData ws → ws ≠ [] →
  (∀ bs s', view s' = set_phase Idle (view s) → Q bs s') → run E (read_words (length ws)) Q s.
Proof.
  revert s Q. induction ws as [|w ws IH]; intros s Q Hph Hne HQ; [done|]. simpl.
  run_step. eapply inw_run; [unfold ata_inw; by rewrite Hph|]. intros s1 Hv _. destruct ws as [|w' ws].
  - run_steps. by apply HQ.
  - run_step. apply IH; [by rewrite Hv|done|]. intros bs s2 Hv2. run_step. apply HQ. by rewrite Hv2, Hv.
Qed.

Lemma init_spec s :
  settled (view s) = true → length (a_ident (view s)) = 256%nat →
  wp virtio_blk_init (λ r s', a_disk (view s') = a_disk (view s) ∧ a_dirty (view s') = a_dirty (view s) ∧
    (r = true → g_ata_ready s' = true ∧ settled (view s') = true)) s.
Proof.
  intros Hs Hid. unfold virtio_blk_init. run_step. apply outb_run; [done|done|]. intros s1 E1 _.
  run_step. apply wait_ready_settled; [by rewrite E1|]. intros s2 E2 _. cbn [negb]. rewrite E1 in E2.
  run_step. apply outb_run; [by rewrite E2|done|]. intros s3 E3 _. rewrite E2 in E3.
  run_step. apply outb_run; [by rewrite E3|done|]. intros s4 E4 _. rewrite E3 in E4.
  run_step. apply outb_run; [by rewrite E4|done|]. intros s5 E5 _. rewrite E4 in E5.
  run_step. apply outb_run; [by rewrite E5|done|]. intros s6 E6 _. rewrite E5 in E6.
  run_step. apply outb_run; [by rewrite E6|done|]. intros s7 E7 _. rewrite E6 in E7.
  assert (view s7 = set_regs 0xA0 0 0 0 0 (view s)) as Hv7 by exact E7.
  run_step. apply outb_run; [by rewrite Hv7|by rewrite Hv7|]. intros s8 E8 _. rewrite Hv7 in E8.
  set (a := set_regs 0xA0 0 0 0 0 (view s)) in *. assert (view s8 = set_phase IWait a) as Hv8 by exact E8.
  assert (∀ b, rtc ata_step (view s8) b → b = set_phase IWait a ∨ b = set_phase (IData (a_ident a)) a ∨ b = failed (set_phase IWait a)) as Hany.
  { intros b Hst. rewrite Hv8 in Hst. by apply ident_steps in Hst as [-> | [-> | ->]]; auto. }
  assert (∀ b, rtc ata_step (view s8) b → a_disk b = a_disk (view s) ∧ a_dirty b = a_dirty (view s)) as Hkeep.
  { intros b Hst. by destruct (Hany b Hst) as [-> | [-> | ->]]. }
  assert (∀ s', view s' = set_phase (IData (a_ident a)) a → run (λ _, False) (let! _ := read_words 256 in modify set_ata_ready;; ret true)
    (λ r s', a_disk (view s') = a_disk (view s) ∧ a_dirty (view s') = a_dirty (view s) ∧
      (r = true → g_ata_ready s' = true ∧ settled (view s') = true)) s') as Hident.
  { intros s' Hv'. run_step. rewrite <- Hid. eapply read_ident_run; [by rewrite Hv'|by destruct (a_ident (view s))|].
    intros bs s'' Hv''. run_steps. change (view (set_ata_ready s'')) with (view s''). rewrite Hv'', Hv'. done. }
  run_step. apply status_run. intros v s9 S9 _ _ _ B3 B0.
  destruct (Z.eqb_spec v 0); [run_step; split_and!; [by apply Hkeep..|done]|].
  run_step. destruct (data_phase (view s9)) eqn:Hd9.
  - apply wait_drq_at_once; [done|]. intros s10 Hv10. cbn [negb]. rewrite <- Hv10 in S9.
    apply Hident. destruct (Hany _ S9) as [Hv|[Hv|Hv]]; rewrite <- Hv10, Hv in Hd9; done.
  - apply wait_drq_run; [done|]. intros b s10 S10 _ Hd10. assert (rtc ata_step (view s8) (view s10)) as Hst by (by etrans).
    destruct b; cbn [negb].
    + apply Hident. destruct (Hany _ Hst) as [Hv|[Hv|Hv]]; rewrite Hv in Hd10; done.
    + run_step. apply inb_run. intros ? s11 S11 _. run_step. apply inb_run. intros ? s12 S12 _. run_step.
      assert (rtc ata_step (view s8) (view s12)) as Hst12 by (etrans; [exact Hst|by etrans]).
      split_and!; [by apply Hkeep..|done].
Qed.

(** ** Properties *)

Lemma bind_ext_in {A B} (f g : A → list B) l : (∀ x, x ∈ l → f x = g x) → l ≫= f = l ≫= g.
Proof.
  induction l as [|x l IH]; intros H; [done|]. cbn [mbind list_bind]. rewrite (H x) by (by left). f_equal.
  apply IH. intros y Hy. apply H. by right.
Qed.

(** The driver as the function its callers see in state [s]: the sectors it
    stores, [None] when it returns false. *)
Definition driver_reader s : blk_reader := λ lba count,
  if (0 <=? lba) && (0 <=? count) then
    match virtio_blk_read lba count s with Ok (r, _) => r | _ => None end
  else None.

Lemma driver_disk_laws s :
  disk_ok (a_disk (view s)) → settled (view s) = true → DiskLaws (driver_reader s) (a_disk (view s)).
Proof.
  intros Hok Hset. split; [apply Hok|apply Hok|]. intros lba count bs. unfold driver_reader.
  destruct (Z.leb_spec 0 lba); cbn [andb]; [|done]. destruct (Z.leb_spec 0 count); [|done].
  destruct (wp_inv _ _ _ (read_spec lba count s Hok Hset ltac:(done) ltac:(done))) as (r & s' & -> & _ & Hr).
  intros ->. destruct Hr as (Hnr & -> & _). split; [|done]. unfold refused in Hnr. lia.
Qed.

(** C14. The block device the partition and file-system code assumes.  For every drive
    that follows the ATA protocol, whose status is current at each access, that
    shows neither DRQ nor ERR while BSY is set and ignores writes to its
    registers then, and that accepts commands when the call is made: every read
    returns, and leaves the contents of the drive; one that succeeds returns
    exactly the bytes of the requested sectors, at most 255 of them and below the
    28-bit limit; one that fails was refused for its arguments, or the drive has
    reported an error or is still busy after the last poll.  Unless it is still
    busy the drive accepts commands again, so that all later reads satisfy the
    same contract. *)
Theorem ata_driver_is_block_device s :
  disk_ok (a_disk (view s)) → settled (view s) = true →
  DiskLaws (driver_reader s) (a_disk (view s)) ∧
  ∀ sector count, 0 ≤ sector → 0 ≤ count →
    wp (virtio_blk_read sector count) (λ r s',
      a_disk (view s') = a_disk (view s) ∧
      match r with
      | Some bs => (0 < count ≤ 255 ∧ sector < 2 ^ 28) ∧ bs = seqZ sector count ≫= a_disk (view s)
      | None => refused s sector count ∨ a_phase (view s') = Failed ∨ busy (view s') = true
      end ∧
      (busy (view s') = true ∧ r = None ∨
       settled (view s') = true ∧ DiskLaws (driver_reader s') (a_disk (view s')))) s.
Proof.
  intros Hok Hset. split; [by apply driver_disk_laws|]. intros sector count Hs Hc.
  eapply run_mono; [by apply read_spec|]. intros r s' (Hd & Hr). split; [done|].
  assert (settled (view s') = true → settled (view s') = true ∧ DiskLaws (driver_reader s') (a_disk (view s'))) as Hlaws.
  { intros Hs'. split; [done|]. apply driver_disk_laws; [by rewrite Hd|done]. }
  destruct r as [bs|].
  - destruct Hr as (Hnr & -> & Hs'). split; [|right; by apply Hlaws]. unfold refused in Hnr. split; [lia|done].
  - split; [destruct Hr as [[? _]|?]; auto|]. destruct Hr as [[_ Hv]|[Hf|?]]; [right; apply Hlaws; by rewrite Hv| |by left].
    right. apply Hlaws. unfold settled. by rewrite Hf.
Qed.

Lemma sector_of_bind buf lba n :
  length buf = (n * 512)%nat → seqZ lba (Z.of_nat n) ≫= sector_of buf lba = buf.
Proof.
  intros Hlen. assert (∀ x, seqZ x 1 = [x]) as Hone by (intros x; unfold seqZ; simpl; f_equal; lia).
  assert (∀ k, (k ≤ n)%nat → seqZ lba (Z.of_nat k) ≫= sector_of buf lba = take (k * 512) buf) as H.
  { induction k as [|k IH]; intros Hk; [done|]. replace (Z.of_nat (S k)) with (Z.of_nat k + 1) by lia.
    rewrite seqZ_app, bind_app, IH, Hone by lia. cbn [mbind list_bind]. rewrite app_nil_r. unfold sector_of, bytes.
    replace (lba + Z.of_nat k - lba) with (Z.of_nat k) by lia. rewrite Nat2Z.id.
    replace (S k * 512)%nat with (k * 512 + 512)%nat by lia. apply take_take_drop. }
  rewrite H by lia. rewrite <- Hlen. apply firstn_all.
Qed.

(** C40. Writing and reading back, over the same drives.  Every write returns, and
    whatever its result it changes no sector but the addressed ones and those
    that were in the drive's write cache before.  When it reports success, the
    arguments were valid, the drive accepts commands again, and if it has
    reported no error since the call (the driver does not look, after the last
    sector) the addressed sectors hold the buffer and all others what they held,
    so that a read of the same sectors returns the buffer or fails because the
    drive reports an error or stays busy. *)
Theorem ata_write_read_back sector count buf s :
  disk_ok (a_disk (view s)) → settled (view s) = true → 0 ≤ sector → 0 ≤ count →
  length buf = (Z.to_nat count * 512)%nat → Forall is_byte buf →
  wp (virtio_blk_write sector count buf) (λ ok s1,
    (∀ x, ¬ (sector ≤ x < sector + count) → x ∉ a_dirty (view s) → a_disk (view s1) x = a_disk (view s) x) ∧
    (ok = true → 0 < count ≤ 255 ∧ sector < 2 ^ 28 ∧ settled (view s1) = true ∧
       (a_errors (view s1) = a_errors (view s) →
          (∀ x, ¬ (sector ≤ x < sector + count) → a_disk (view s1) x = a_disk (view s) x) ∧
          wp (virtio_blk_read sector count) (λ back s2, match back with
            | Some bs => bs = buf
            | None => a_phase (view s2) = Failed ∨ busy (view s2) = true
            end) s1))) s.
Proof.
  intros Hok Hset Hs Hc Hlen Hby. eapply run_mono; [by apply write_spec|]. intros ok s1 (Hg & Hok1 & Hkeep & Hnew).
  assert (∀ x, ¬ (sector ≤ x < sector + count) → in_sectors sector count x = false) as Hout.
  { intros x Hx. unfold in_sectors. lia. }
  split; [auto|]. intros ->. destruct (Hnew eq_refl) as (Hnr & Hs1 & Hd1). unfold refused in Hnr.
  split_and!; [lia|lia|lia|done|]. intros He. specialize (Hd1 He). split; [intros x Hx; by rewrite Hd1, Hout|].
  eapply run_mono; [by apply read_spec|]. intros [bs|] s2 (_ & Hr).
  2: { destruct Hr as [[Hr _]|?]; [|done]. unfold refused in Hr. rewrite Hg in Hr. tauto. }
  destruct Hr as (_ & -> & _). rewrite <- (sector_of_bind buf sector (Z.to_nat count)) at 1 by done. rewrite Z2Nat.id by done.
  apply bind_ext_in. intros x Hx. apply elem_of_seqZ in Hx. rewrite Hd1. unfold in_sectors.
  by rewrite (proj2 (Z.leb_le _ _)), (proj2 (Z.ltb_lt _ _)) by lia.
Qed.
End Driver.
