(* ===== verification/VblkDemo.v ===== *)
(** A drive that takes its time, holding the disk of FsDemo.v: the ATA contract can
    be met, and the partition table is read through the driver.  Four runs show
    where the driver relies on more than the protocol or misses an error. *)

From S2P Require Import Prelude Disk Gpt FsDemo Vblk VblkSpec.

#[local] Arguments Z.testbit : simpl never.

(** A drive that stays busy for [dr_wait] polls, with bad sectors.  A [loud] one
    has DRQ set in the status it shows while it is busy. *)
Record drive (loud : bool) : Type := mkDrive { dr : ata; dr_wait : nat; dr_bad : Z → bool }.
Arguments mkDrive {loud}. Arguments dr {loud}. Arguments dr_wait {loud}. Arguments dr_bad {loud}.

Definition dr_next (bad : Z → bool) (a : ata) : ata :=
  match a_phase a with
  | RWait lba (S n) => if bad lba then failed a else set_phase (RData lba n (words_of (a_disk a lba))) a
  | WWait lba (S n) => set_phase (WData lba n []) a
  | WCommit lba n ws =>
      if bad lba then failed (set_disk (put_sector lba (replicate 512 0) (a_disk a)) a) else stored lba n ws a
  | IWait => set_phase (IData (a_ident a)) a
  | Flushing => set_phase Idle (set_dirty [] a)
  | _ => failed a
  end.

Lemma dr_next_step bad a : busy a = true → ata_step a (dr_next bad a).
Proof.
  unfold busy, dr_next. intros Hb. destruct (a_phase a) as [| |lba [|n]| |lba [|n]| |lba n ws| | |] eqn:Hp; try done.
  - apply step_failed. left. eauto.
  - destruct (bad lba); [apply step_failed; left; eauto|by apply step_read].
  - apply step_failed. left. eauto.
  - by apply step_write.
  - destruct (bad lba); [eapply step_lost; [done|]|by apply step_stored].
    split; [apply length_replicate|apply Forall_replicate; unfold is_byte; lia].
  - by apply step_ident.
  - by apply step_flushed.
Qed.

Definition dr_status (loud : bool) (a : ata) : Z :=
  if busy a then (if loud then 0x88 else 0xD0)
  else if data_phase a then 0x58 else match a_phase a with Failed => 0x51 | _ => 0x50 end.

(** Reading the status lets time pass. *)
Definition dr_tick {loud} (d : drive loud) : drive loud :=
  if busy (dr d) then
    match dr_wait d with
    | S w => mkDrive (dr d) w (dr_bad d)
    | O => mkDrive (dr_next (dr_bad d) (dr d)) 1 (dr_bad d)
    end
  else d.

Definition dr_set {loud} (d : drive loud) (a : ata) : drive loud := mkDrive a (dr_wait d) (dr_bad d).

#[export] Instance demo_ports loud : PortIO (drive loud) := {
  _outb p v d := if settled (dr d) && describes p v (dr d) then dr_set d (ata_outb p v (dr d)) else d;
  _outw p v d := match ata_outw v (dr d) with Some a => if p =? ATA_DATA then dr_set d a else d | None => d end;
  _inb p d := if p =? ATA_STATUS then (dr_status loud (dr (dr_tick d)), dr_tick d) else (0, d);
  _inw p d := match ata_inw (dr d) with Some (w, a) => if p =? ATA_DATA then (w, dr_set d a) else (0, d) | None => (0, d) end
}.

#[export] Program Instance demo_drive loud : AtaDevice (drive loud) := { ata_view d := dr d }.
Next Obligation. intros loud p v d Hs Hd. simpl. by rewrite Hs, Hd. Qed.
Next Obligation. intros loud v d a Ha. simpl. by rewrite Ha. Qed.
Next Obligation. intros loud d w a Ha. simpl. by rewrite Ha. Qed.
Next Obligation.
  intros loud p d. simpl. destruct (p =? ATA_STATUS); [|done]. simpl. unfold dr_tick.
  destruct (busy (dr d)) eqn:Hb; [|done]. destruct (dr_wait d); [|done]. by apply rtc_once, dr_next_step.
Qed.
Next Obligation.
  intros loud d. simpl. set (a := dr (dr_tick d)). unfold dr_status, shows, busy, data_phase.
  destruct loud, (a_phase a); split_and!; (done || lia).
Qed.

(** A drive that is not loud is what the driver needs. *)
#[export] Instance demo_plain : AtaPlain (drive false).
Proof.
  split.
  - intros d Hb. simpl in *. unfold dr_status. by rewrite Hb.
  - intros p v d Hs. exists (dr d). split; [done|]. simpl in *. by rewrite Hs.
Qed.

Definition demo_ata (p : phase) : ata := mkAta 0 0 0 0 0 p demo_image (replicate 256 0) [] 0.
Definition demo_disk loud bad p : vblk_state (drive loud) := mkVblk (mkDrive (demo_ata p) 1 bad) true.
Definition demo_start : vblk_state (drive false) := mkVblk (mkDrive (demo_ata Idle) 1 (λ _, false)) false.
Definition demo_blk : vblk_state (drive false) :=
  match virtio_blk_init demo_start with Ok (_, s) => s | _ => demo_start end.

Lemma demo_blk_ready : virtio_blk_init demo_start = Ok (true, demo_blk) ∧ g_ata_ready demo_blk = true.
Proof. split; vm_compute; reflexivity. Qed.

Lemma demo_blk_facts : a_disk (view demo_blk) = demo_image ∧ settled (view demo_blk) = true.
Proof.
  destruct demo_blk_ready as [Hrun _].
  assert (settled (view demo_start) = true) as H1 by reflexivity.
  assert (length (a_ident (view demo_start)) = 256%nat) as H2 by reflexivity.
  destruct (run_Ok _ _ _ _ _ _ (init_spec demo_start H1 H2) Hrun) as (Hd & _ & Hs).
  split; [exact Hd|by apply Hs].
Qed.

Lemma demo_image_ok : disk_ok demo_image.
Proof. intros lba. split; [apply (image_length (rd := demo_rd))|apply (image_bytes (rd := demo_rd))]. Qed.

(** The partition table as the driver delivers it. *)
Example demo_gpt_over_ata : gpt_init (driver_reader demo_blk) gpt_zero = gpt_init demo_rd gpt_zero.
Proof. vm_compute. reflexivity. Qed.

Definition write_run {loud} (s : vblk_state (drive loud)) (sector count : Z) (buf : list Z) : option (bool * vblk_state (drive loud)) :=
  match virtio_blk_write sector count buf s with Ok r => Some r | _ => None end.

(** A write of two sectors succeeds, but the drive was still storing the second
    when the flush came: both are left in its cache. *)
Example demo_flush_ignored :
  (λ r, (r.1, a_dirty (view r.2), a_phase (view r.2))) <$> write_run demo_blk 7 2 (replicate 1024 5) = Some (true, [8; 7], Idle).
Proof. vm_compute. reflexivity. Qed.

(** The second sector cannot be stored, and the write reports success. *)
Example demo_error_missed :
  (λ r, (r.1, a_errors (view r.2), a_disk (view r.2) 8)) <$>
    write_run (demo_disk false (Z.eqb 8) Idle) 7 2 (replicate 1024 5) = Some (true, 1%nat, replicate 512 0).
Proof. vm_compute. reflexivity. Qed.

(** A drive that shows DRQ while it is busy: the driver takes it for data. *)
Example demo_loud_misread :
  driver_reader (demo_disk true (λ _, false) Idle) 1 1 = Some (replicate 512 0) ∧ demo_image 1 ≠ replicate 512 0.
Proof. split; [vm_compute; reflexivity|]. intros H. apply (f_equal (take 8)) in H. vm_compute in H. discriminate. Qed.

(** A read of sector 1 timed out; the next read, of sector 9, is answered with it. *)
Example demo_stale_read :
  driver_reader (demo_disk false (λ _, false) (RWait 1 1)) 9 1 = Some (demo_image 1) ∧ demo_image 9 ≠ demo_image 1.
Proof. split; [vm_compute; reflexivity|]. intros H. apply (f_equal (take 8)) in H. vm_compute in H. discriminate. Qed.

#[local] Opaque demo_blk.

Lemma ata_driver_is_block_device_witness :
  DiskLaws (driver_reader demo_blk) (a_disk (view demo_blk)) ∧
  ∀ sector count, 0 ≤ sector → 0 ≤ count →
    wp (virtio_blk_read sector count) (λ r s',
      a_disk (view s') = a_disk (view demo_blk) ∧
      match r with
      | Some bs => (0 < count ≤ 255 ∧ sector < 2 ^ 28) ∧ bs = seqZ sector count ≫= a_disk (view demo_blk)
      | None => refused demo_blk sector count ∨ a_phase (view s') = Failed ∨ busy (view s') = true
      end ∧
      (busy (view s') = true ∧ r = None ∨
       settled (view s') = true ∧ DiskLaws (driver_reader s') (a_disk (view s')))) demo_blk.
Proof.
  destruct demo_blk_facts as [Hd Hs]. apply (ata_driver_is_block_device demo_blk); [rewrite Hd; exact demo_image_ok|exact Hs].
Defined.

(** The write of [demo_flush_ignored], which the drive carries out without error. *)
Lemma ata_write_read_back_witness :
  (λ r, (r.1, a_errors (view r.2))) <$> write_run demo_blk 7 2 (replicate 1024 5) = Some (true, a_errors (view demo_blk)) ∧
  wp (virtio_blk_write 7 2 (replicate 1024 5)) (λ ok s1,
    (∀ x, ¬ (7 ≤ x < 7 + 2) → x ∉ a_dirty (view demo_blk) → a_disk (view s1) x = a_disk (view demo_blk) x) ∧
    (ok = true → 0 < 2 ≤ 255 ∧ 7 < 2 ^ 28 ∧ settled (view s1) = true ∧
       (a_errors (view s1) = a_errors (view demo_blk) →
          (∀ x, ¬ (7 ≤ x < 7 + 2) → a_disk (view s1) x = a_disk (view demo_blk) x) ∧
          wp (virtio_blk_read 7 2) (λ back s2, match back with
            | Some bs => bs = replicate 1024 5
            | None => a_phase (view s2) = Failed ∨ busy (view s2) = true
            end) s1))) demo_blk.
Proof.
  split; [vm_compute; reflexivity|]. destruct demo_blk_facts as [Hd Hs].
  apply (ata_write_read_back 7 2 (replicate 1024 5) demo_blk); [rewrite Hd; exact demo_image_ok|exact Hs|discriminate|discriminate| |].
  - apply length_replicate.
  - apply Forall_replicate. unfold is_byte. split; [discriminate|reflexivity].
Defined.
