(* ===== verification/Ps2.v ===== *)
(** The keyboard (arch/x86_64/drivers/IO/ps2_keyboard.h, ps2_keyboard.c): decoding
    of scan codes and the list of listeners, kept in order of priority.

    Listeners are records in [kbd_mem], owned by their clients and linked through
    [next]; a delivered event is recorded in [kbd_calls] as the handler, the event
    and the context it was called with. *)

From Stdlib Require Import Sorting.Sorted.
From S2P Require Import Prelude.

Record kbd_event_t : Type := mkEvent {
  keycode : Z;
  e0_prefix : bool;
  pressed : bool
}.

Record kbd_listener_t : Type := mkListener {
  l_handler : Z;
  l_ctx : Z;
  l_priority : Z;
  l_next : Z
}.
Definition with_lnext (n : Z) (l : kbd_listener_t) : kbd_listener_t :=
  mkListener (l_handler l) (l_ctx l) (l_priority l) n.

Record kbd_state : Type := mkKbd {
  kbd_mem : gmap Z kbd_listener_t;
  g_kbd_list : Z;
  g_e0_prefix : bool;
  g_kbd_lock : bool;
  kbd_calls : list (Z * kbd_event_t * Z)
}.
Implicit Types s : kbd_state.

Definition set_kbd_mem (m : gmap Z kbd_listener_t) s : kbd_state :=
  mkKbd m (g_kbd_list s) (g_e0_prefix s) (g_kbd_lock s) (kbd_calls s).
Definition set_kbd_list (a : Z) s : kbd_state :=
  mkKbd (kbd_mem s) a (g_e0_prefix s) (g_kbd_lock s) (kbd_calls s).
Definition set_e0 (b : bool) s : kbd_state :=
  mkKbd (kbd_mem s) (g_kbd_list s) b (g_kbd_lock s) (kbd_calls s).
Definition set_kbd_lock (b : bool) s : kbd_state :=
  mkKbd (kbd_mem s) (g_kbd_list s) (g_e0_prefix s) b (kbd_calls s).
Definition add_call (c : Z * kbd_event_t * Z) s : kbd_state :=
  mkKbd (kbd_mem s) (g_kbd_list s) (g_e0_prefix s) (g_kbd_lock s) (kbd_calls s ++ [c]).

Definition kbd_lock : M kbd_state unit := acquire g_kbd_lock set_kbd_lock.
Definition kbd_unlock : M kbd_state unit := release set_kbd_lock.

Definition listener (a : Z) : M kbd_state kbd_listener_t :=
  λ s, match kbd_mem s !! a with Some l => Ok (l, s) | None => Fault end.
Definition store_listener (a : Z) (l : kbd_listener_t) : M kbd_state unit :=
  modify (λ s, set_kbd_mem (<[a := l]> (kbd_mem s)) s).

Definition kbd_listener_init (a handler ctx priority : Z) : M kbd_state unit :=
  if a =? 0 then ret tt
  else store_listener a (mkListener handler ctx priority 0).

(** * Interrupt *)

(** The loop over the listeners; a list longer than the memory is cyclic. *)
Fixpoint deliver (fuel : nat) (a : Z) (e : kbd_event_t) : M kbd_state unit :=
  if a =? 0 then ret tt
  else match fuel with
       | O => λ _, Hang
       | S fuel' =>
           let! l := listener a in
           (if l_handler l =? 0 then ret tt else modify (add_call (l_handler l, e, l_ctx l)));;
           deliver fuel' (l_next l) e
       end.

(** [code] is the byte read from port 0x60. *)
Definition ps2_keyboard_irq (code : Z) : M kbd_state unit :=
  kbd_lock;;
  if code =? 0xE0 then
    modify (set_e0 true);;
    kbd_unlock
  else
    let! s := get in
    let event := mkEvent (Z.land code 0x7F) (g_e0_prefix s) (Z.land code 0x80 =? 0) in
    modify (set_e0 false);;
    let! s := get in
    deliver (size (kbd_mem s)) (g_kbd_list s) event;;
    kbd_unlock.

(** * Listeners *)

(** [pp] is [&g_kbd_list] ([None]) or the [next] field of a listener. *)
Definition load_pp (pp : option Z) : M kbd_state Z :=
  match pp with
  | None => gets g_kbd_list
  | Some a => let! l := listener a in ret (l_next l)
  end.
Definition store_pp (pp : option Z) (v : Z) : M kbd_state unit :=
  match pp with
  | None => modify (set_kbd_list v)
  | Some a => let! l := listener a in store_listener a (with_lnext v l)
  end.

(** The search of [kbd_register_listener]: [None] when the listener is already
    there, else where to insert it. *)
Fixpoint find_place (fuel : nat) (pp : option Z) (new priority : Z) : M kbd_state (option (option Z)) :=
  let! cur := load_pp pp in
  if cur =? 0 then ret (Some pp)
  else if cur =? new then ret None
  else match fuel with
       | O => λ _, Hang
       | S fuel' =>
           let! l := listener cur in
           if l_priority l <? priority then ret (Some pp)
           else find_place fuel' (Some cur) new priority
       end.

(** [listener->next = *pp; *pp = listener]. *)
Definition link_at (pp : option Z) (new : Z) : M kbd_state unit :=
  let! cur := load_pp pp in
  let! l := listener new in
  store_listener new (with_lnext cur l);;
  store_pp pp new.

Definition kbd_register_listener (new : Z) : M kbd_state bool :=
  if new =? 0 then ret false
  else
    let! l := listener new in
    if l_handler l =? 0 then ret false
    else
      kbd_lock;;
      let! s := get in
      let! place := find_place (size (kbd_mem s)) None new (l_priority l) in
      match place with
      | None => kbd_unlock;; ret false
      | Some pp =>
          link_at pp new;;
          kbd_unlock;;
          ret true
      end.

Fixpoint unlink (fuel : nat) (pp : option Z) (old : Z) : M kbd_state unit :=
  let! cur := load_pp pp in
  if cur =? 0 then ret tt
  else if cur =? old then
    let! l := listener old in
    store_pp pp (l_next l);;
    let! l := listener old in
    store_listener old (with_lnext 0 l)
  else match fuel with
       | O => λ _, Hang
       | S fuel' => unlink fuel' (Some cur) old
       end.

Definition kbd_unregister_listener (old : Z) : M kbd_state unit :=
  if old =? 0 then ret tt
  else
    kbd_lock;;
    let! s := get in
    unlink (size (kbd_mem s)) None old;;
    kbd_unlock.

(** * The list of listeners *)

Fixpoint chain (m : gmap Z kbd_listener_t) (a : Z) (ls : list Z) : Prop :=
  match ls with
  | [] => a = 0
  | x :: ls' => a = x ∧ x ≠ 0 ∧ ∃ l, m !! x = Some l ∧ chain m (l_next l) ls'
  end.

Definition priority_of (m : gmap Z kbd_listener_t) (x : Z) : Z := from_option l_priority 0 (m !! x).

(** Higher priority first. *)
Definition by_priority (m : gmap Z kbd_listener_t) (ls : list Z) : Prop :=
  StronglySorted (λ x y, priority_of m y ≤ priority_of m x) ls.

Record kbd_rep s (ls : list Z) : Prop := {
  kr_chain : chain (kbd_mem s) (g_kbd_list s) ls;
  kr_nodup : NoDup ls;
  kr_sorted : by_priority (kbd_mem s) ls;
  kr_unlocked : g_kbd_lock s = false
}.

Lemma chain_lookup m a ls x : chain m a ls → x ∈ ls → x ≠ 0 ∧ is_Some (m !! x).
Proof.
  revert a. induction ls as [|y ls IH]; intros a; simpl; [set_solver|]. intros (-> & Hy & l & Hl & Hc).
  intros [->|Hin]%elem_of_cons; [eauto|]. by eapply IH.
Qed.

Lemma chain_size m a ls : chain m a ls → NoDup ls → (length ls ≤ size m)%nat.
Proof.
  intros Hc Hnd. rewrite <- (size_list_to_set (C := gset Z) ls) by done. rewrite <- (size_dom m).
  apply subseteq_size. intros x Hx. apply elem_of_list_to_set in Hx. apply elem_of_dom. by eapply chain_lookup.
Qed.

Lemma chain_agree m m' a ls : (∀ x, x ∈ ls → m' !! x = m !! x) → chain m a ls → chain m' a ls.
Proof.
  revert a. induction ls as [|y ls IH]; intros a He; simpl; [done|]. intros (-> & Hy & l & Hl & Hc).
  split; [done|]. split; [done|]. exists l. rewrite He by set_solver. split; [done|]. apply IH; [set_solver|done].
Qed.

Lemma chain_split m a l1 x l2 : chain m a (l1 ++ x :: l2) → ∃ l, m !! x = Some l ∧ x ≠ 0 ∧ chain m (l_next l) l2.
Proof.
  revert a. induction l1 as [|y l1 IH]; intros a; simpl; [intros (_ & ? & l & ? & ?); eauto|].
  intros (-> & _ & l & _ & Hc). eauto.
Qed.

(** ** Access through [pp] *)

Lemma listener_run E a l s (Q : kbd_listener_t → kbd_state → Prop) :
  kbd_mem s !! a = Some l → Q l s → run E (listener a) Q s.
Proof. unfold run, listener. by intros ->. Qed.

Lemma load_pp_run E l1 l2 s (Q : Z → kbd_state → Prop) :
  chain (kbd_mem s) (g_kbd_list s) (l1 ++ l2) → Q (default 0 (head l2)) s → run E (load_pp (last l1)) Q s.
Proof.
  intros Hc HQ. assert (∀ a, chain (kbd_mem s) a l2 → a = default 0 (head l2)) as Hhd.
  { intros a. destruct l2; [done|by intros (-> & _)]. }
  destruct l1 as [|x l1] using rev_ind.
  - simpl. run_step. by rewrite (Hhd _ Hc).
  - rewrite last_snoc. simpl. rewrite <- app_assoc in Hc. apply chain_split in Hc as (l & Hl & _ & Hc').
    run_step. eapply listener_run; [done|]. run_step. by rewrite (Hhd _ Hc').
Qed.

(** Writing [*pp] replaces the rest of the list. *)
Lemma store_pp_run E l1 l2 v l2' s (Q : unit → kbd_state → Prop) :
  chain (kbd_mem s) (g_kbd_list s) (l1 ++ l2) → NoDup l1 → chain (kbd_mem s) v l2' → (∀ x, x ∈ l1 → x ∉ l2') →
  (∀ m h, chain m h (l1 ++ l2') →
     (∀ x, with_lnext 0 <$> m !! x = with_lnext 0 <$> kbd_mem s !! x) →
     (∀ x, x ∉ l1 → m !! x = kbd_mem s !! x) →
     Q tt (set_kbd_list h (set_kbd_mem m s))) →
  run E (store_pp (last l1) v) Q s.
Proof.
  intros Hc Hnd Hv Hdis HQ. destruct l1 as [|x l1 _] using rev_ind.
  - simpl. run_step. specialize (HQ (kbd_mem s) v). destruct s. by apply HQ.
  - rewrite last_snoc. simpl. rewrite <- app_assoc in Hc. pose proof Hc as Hc0. apply chain_split in Hc0 as (l & Hl & Hx & _).
    run_step. eapply listener_run; [done|]. unfold store_listener. apply run_modify.
    apply NoDup_app in Hnd as (Hnd & Hni & _).
    assert (∀ y, y ∈ l1 → y ≠ x) as Hne by set_solver.
    refine (HQ (<[x := with_lnext v l]> (kbd_mem s)) (g_kbd_list s) _ _ _).
    + rewrite <- app_assoc. simpl. clear HQ Hnd Hni. revert Hc. generalize (g_kbd_list s).
      induction l1 as [|y l1 IH]; intros a; simpl.
      * intros (-> & _ & _). split; [done|]. split; [done|]. exists (with_lnext v l). rewrite lookup_insert_eq.
        split; [done|]. simpl. eapply chain_agree; [|done]. intros y Hy. apply lookup_insert_ne. intros ->.
        apply (Hdis y); [set_solver|done].
      * intros (-> & Hy & ly & Hly & Hc). split; [done|]. split; [done|]. exists ly.
        rewrite lookup_insert_ne by (intros ->; by apply (Hne y); set_solver). split; [done|].
        apply IH; [set_solver|set_solver|done].
    + intros y. destruct (decide (y = x)) as [->|]; [by rewrite lookup_insert_eq, Hl|by rewrite lookup_insert_ne].
    + intros y Hy. apply lookup_insert_ne. set_solver.
Qed.

Lemma priority_same m m' x :
  (∀ x, with_lnext 0 <$> m' !! x = with_lnext 0 <$> m !! x) → priority_of m' x = priority_of m x.
Proof.
  intros H. specialize (H x). unfold priority_of. destruct (m' !! x), (m !! x); simpl in *; try done. by simplify_eq.
Qed.

Lemma by_priority_same m m' ls :
  (∀ x, priority_of m' x = priority_of m x) → by_priority m ls → by_priority m' ls.
Proof.
  intros He Hs. induction Hs as [|x ls Hs IH Hf]; [constructor|]. constructor; [done|].
  eapply Forall_impl; [exact Hf|]. simpl. intros y. by rewrite !He.
Qed.

(** ** The search for the place *)

Lemma find_place_run E fuel l1 l2 new prio s (Q : option (option Z) → kbd_state → Prop) :
  chain (kbd_mem s) (g_kbd_list s) (l1 ++ l2) → (length l2 ≤ fuel)%nat →
  (∀ x, x ∈ l1 → prio ≤ priority_of (kbd_mem s) x) → new ∉ l1 →
  (∀ a b, l1 ++ l2 = a ++ b → (∀ x, x ∈ a → prio ≤ priority_of (kbd_mem s) x) → new ∉ a →
     (∀ x, head b = Some x → x ≠ new ∧ priority_of (kbd_mem s) x < prio) → Q (Some (last a)) s) →
  (new ∈ l1 ++ l2 → Q None s) →
  run E (find_place fuel (last l1) new prio) Q s.
Proof.
  revert l1 l2. induction fuel as [|fuel IH]; intros l1 l2 Hc Hf Hp Hn HQ HN; cbn [find_place]; run_step;
    (eapply load_pp_run; [done|]); destruct l2 as [|x l2]; simpl in Hf; try lia; cbn [head default from_option id].
  - rewrite Z.eqb_refl. run_step. apply (HQ l1 []); done.
  - rewrite Z.eqb_refl. run_step. apply (HQ l1 []); done.
  - destruct (chain_split _ _ _ _ _ Hc) as (l & Hl & Hx & _). rewrite (proj2 (Z.eqb_neq _ _) Hx).
    destruct (Z.eqb_spec x new) as [->|Hxn]; [run_step; apply HN; set_solver|].
    run_step. eapply listener_run; [done|].
    assert (priority_of (kbd_mem s) x = l_priority l) as Hpx by (unfold priority_of; by rewrite Hl).
    destruct (Z.ltb_spec (l_priority l) prio).
    + run_step. apply (HQ l1 (x :: l2)); [done|done|done|]. intros y [= <-]. split; [done|lia].
    + replace (Some x) with (last (l1 ++ [x])) by (by rewrite last_snoc).
      apply (IH (l1 ++ [x]) l2); rewrite <- ?app_assoc; try done; [lia| |set_solver].
      intros y [Hy|Hy%list_elem_of_singleton]%elem_of_app; [auto|]. subst y. lia.
Qed.

(** ** Insertion keeps the order *)

Lemma by_priority_app m a b :
  by_priority m (a ++ b) ↔
  by_priority m a ∧ by_priority m b ∧ ∀ x y, x ∈ a → y ∈ b → priority_of m y ≤ priority_of m x.
Proof.
  unfold by_priority. induction a as [|z a IH]; simpl.
  - split; [intros H; repeat split; [constructor|done|set_solver]|by intros (_ & ? & _)].
  - split.
    + intros H. apply StronglySorted_inv in H as [H1 H2]. apply IH in H1 as (Ha & Hb & Hab).
      rewrite Forall_forall in H2. split; [constructor; [done|]|split; [done|]].
      * apply Forall_forall. intros x Hx. apply H2, elem_of_app. by left.
      * intros x y [->|Hx]%elem_of_cons Hy; [apply H2, elem_of_app; by right|by apply Hab].
    + intros (Ha & Hb & Hab). apply StronglySorted_inv in Ha as [Ha Hz]. constructor.
      * apply IH. split; [done|]. split; [done|]. intros; apply Hab; [by apply elem_of_cons; right|done].
      * rewrite Forall_forall in Hz. apply Forall_forall. intros y [Hy|Hy]%elem_of_app; [by apply Hz|].
        apply Hab; [by apply elem_of_cons; left|done].
Qed.

(** Everything a listener keeps but its link. *)
Definition same_listeners (m m' : gmap Z kbd_listener_t) : Prop :=
  ∀ x, with_lnext 0 <$> m' !! x = with_lnext 0 <$> m !! x.

(** The part of the state the list operations leave alone. *)
Definition kbd_frame s s' : Prop :=
  same_listeners (kbd_mem s) (kbd_mem s') ∧ g_e0_prefix s' = g_e0_prefix s ∧ kbd_calls s' = kbd_calls s.

Lemma same_listeners_insert m a l n : m !! a = Some l → same_listeners m (<[a := with_lnext n l]> m).
Proof.
  intros Hl x. destruct (decide (x = a)) as [->|]; [by rewrite lookup_insert_eq, Hl|by rewrite lookup_insert_ne].
Qed.

Lemma same_listeners_trans m1 m2 m3 : same_listeners m1 m2 → same_listeners m2 m3 → same_listeners m1 m3.
Proof. intros H1 H2 x. by rewrite H2, H1. Qed.

(** Where the new listener goes: after every listener of at least its priority. *)
Definition place_of (m : gmap Z kbd_listener_t) (prio : Z) (a b : list Z) : Prop :=
  (∀ x, x ∈ a → prio ≤ priority_of m x) ∧ (∀ x, x ∈ b → priority_of m x < prio).

Lemma sorted_insert m a new b :
  by_priority m (a ++ b) → place_of m (priority_of m new) a b → by_priority m (a ++ new :: b).
Proof.
  intros (Ha & Hb & Hab)%by_priority_app [Hpa Hpb]. apply by_priority_app. split; [done|]. split.
  - constructor; [done|]. apply Forall_forall. intros x Hx. specialize (Hpb x Hx). lia.
  - intros x y Hx [->|Hy]%elem_of_cons; auto.
Qed.

Lemma sorted_place m prio a b :
  by_priority m (a ++ b) → (∀ x, x ∈ a → prio ≤ priority_of m x) →
  (∀ x, head b = Some x → priority_of m x < prio) → place_of m prio a b.
Proof.
  intros (_ & Hb & _)%by_priority_app Ha Hhd. split; [done|]. destruct b as [|x b]; [set_solver|].
  specialize (Hhd x eq_refl). apply StronglySorted_inv in Hb as [_ Hf]. rewrite Forall_forall in Hf.
  intros y [->|Hy]%elem_of_cons; [done|]. specialize (Hf y Hy). simpl in Hf. lia.
Qed.

Lemma link_at_run E a new b lnew s (Q : unit → kbd_state → Prop) :
  chain (kbd_mem s) (g_kbd_list s) (a ++ b) → NoDup (a ++ b) → new ∉ a ++ b → new ≠ 0 →
  kbd_mem s !! new = Some lnew →
  (∀ m h, chain m h (a ++ new :: b) → same_listeners (kbd_mem s) m →
     Q tt (set_kbd_list h (set_kbd_mem m s))) →
  run E (link_at (last a) new) Q s.
Proof.
  intros Hc Hnd Hni Hn0 Hl HQ. unfold link_at. run_step. eapply load_pp_run; [done|]. run_step. eapply listener_run; [done|].
  run_step. unfold store_listener. apply run_modify. set (m1 := <[new := _]> (kbd_mem s)).
  assert (∀ x, x ∈ a ++ b → m1 !! x = kbd_mem s !! x) as Hag.
  { intros x Hx. apply lookup_insert_ne. intros ->. done. }
  apply (store_pp_run _ a b new (new :: b)); simpl.
  - by apply (chain_agree (kbd_mem s)).
  - apply NoDup_app in Hnd as [Hnd _]. done.
  - split; [done|]. split; [done|]. eexists. split; [apply lookup_insert_eq|]. simpl.
    apply (chain_agree (kbd_mem s)); [intros; apply Hag; set_solver|].
    destruct a as [|x a _] using rev_ind.
    + destruct b; [done|]. destruct Hc as (_ & Hz & Hrest). simpl. eauto.
    + rewrite <- app_assoc in Hc. apply chain_split in Hc as (lx & _ & _ & Hc). destruct b; [done|].
      destruct Hc as (_ & Hz & Hrest). simpl. eauto.
  - intros x Hx. apply NoDup_app in Hnd as (_ & Hnd & _). set_solver.
  - intros m h Hch Hsame _. refine (HQ m h Hch _). eapply same_listeners_trans; [|exact Hsame].
    by apply same_listeners_insert.
Qed.

Lemma kbd_register_spec s ls new l :
  kbd_rep s ls → new ≠ 0 → kbd_mem s !! new = Some l → l_handler l ≠ 0 →
  wp (kbd_register_listener new)
    (λ r s', kbd_frame s s' ∧
       if bool_decide (new ∈ ls) then r = false ∧ kbd_rep s' ls
       else r = true ∧ ∃ a b, ls = a ++ b ∧ place_of (kbd_mem s) (l_priority l) a b ∧ kbd_rep s' (a ++ new :: b)) s.
Proof.
  intros [Hc Hnd Hs Hu] Hn0 Hl Hh. unfold kbd_register_listener.
  rewrite (proj2 (Z.eqb_neq _ _) Hn0). run_step. eapply listener_run; [done|].
  rewrite (proj2 (Z.eqb_neq _ _) Hh). run_step. apply run_acquire; [done|]. do 2 run_step. run_step.
  assert (priority_of (kbd_mem s) new = l_priority l) as Hpn by (unfold priority_of; by rewrite Hl).
  apply (find_place_run _ _ [] ls); simpl; [done|by eapply chain_size|set_solver|set_solver| |].
  - intros a b -> Ha Hna Hb. assert (place_of (kbd_mem s) (l_priority l) a b) as Hpl.
    { apply sorted_place; [done|done|]. intros x Hx. by apply Hb. }
    assert (new ∉ a ++ b) as Hni.
    { intros [Hin|Hin]%elem_of_app; [done|]. apply Hpl in Hin. lia. }
    run_step. eapply link_at_run; [done|done|done|done|done|].
    intros m h Hch Hsame. run_step. apply run_release. run_step. split; [by split|].
    rewrite bool_decide_false by done. split; [done|]. exists a, b. split; [done|]. split; [done|].
    split; simpl; [done| | |done].
    + apply NoDup_app in Hnd as (H1 & H2 & H3). apply NoDup_app. split; [done|]. split; [|constructor; set_solver].
      intros x Hx [->|Hx']%elem_of_cons; set_solver.
    + apply (by_priority_same (kbd_mem s)); [intros; by apply priority_same|].
      apply sorted_insert; [done|]. by rewrite Hpn.
  - intros Hin. run_step. apply run_release. run_step. split; [by split|].
    rewrite bool_decide_true by done. split; [done|]. by split.
Qed.

(** ** Removal *)

Lemma filter_not_in (x : Z) (ls : list Z) : x ∉ ls → filter (λ y, y ≠ x) ls = ls.
Proof.
  induction ls as [|y ls IH]; [done|]. intros Hn. rewrite filter_cons_True by set_solver. f_equal. apply IH. set_solver.
Qed.

Lemma filter_one (x : Z) a b : x ∉ a ++ b → filter (λ y, y ≠ x) (a ++ x :: b) = a ++ b.
Proof.
  intros Hn. rewrite filter_app, filter_cons_False by tauto. rewrite !filter_not_in by set_solver. done.
Qed.

Lemma unlink_run E fuel l1 l2 old s (Q : unit → kbd_state → Prop) :
  chain (kbd_mem s) (g_kbd_list s) (l1 ++ l2) → NoDup (l1 ++ l2) → (length l2 ≤ fuel)%nat → old ∉ l1 →
  (∀ m h, chain m h (filter (λ y, y ≠ old) (l1 ++ l2)) → same_listeners (kbd_mem s) m →
     (old ∈ l1 ++ l2 → l_next <$> m !! old = Some 0) → Q tt (set_kbd_list h (set_kbd_mem m s))) →
  run E (unlink fuel (last l1) old) Q s.
Proof.
  revert l1 l2. induction fuel as [|fuel IH]; intros l1 l2 Hc Hnd Hf Hn HQ; cbn [unlink]; run_step;
    (eapply load_pp_run; [done|]); destruct l2 as [|x l2]; simpl in Hf; try lia; cbn [head default from_option id].
  1,2: rewrite Z.eqb_refl; run_step; rewrite app_nil_r in *; specialize (HQ (kbd_mem s) (g_kbd_list s));
    destruct s; apply HQ; simpl in *; [by rewrite filter_not_in|done|done].
  destruct (chain_split _ _ _ _ _ Hc) as (l & Hl & Hx & Hc2). rewrite (proj2 (Z.eqb_neq _ _) Hx).
  destruct (Z.eqb_spec x old) as [->|Hxo].
  - pose proof Hnd as (Hnd1 & Hdis & [Hni2 Hnd2]%NoDup_cons)%NoDup_app.
    run_step. eapply listener_run; [done|]. run_step.
    eapply store_pp_run; [done|done|exact Hc2|set_solver|]. intros m h Hch Hsame Hout.
    run_step. assert (m !! old = Some l) as Hlm by (by rewrite Hout).
    eapply (listener_run _ _ l); [done|]. unfold store_listener. apply run_modify.
    refine (HQ (<[old := with_lnext 0 l]> m) h _ _ _).
    + rewrite filter_one by set_solver. eapply chain_agree; [|done]. intros y Hy. apply lookup_insert_ne. set_solver.
    + eapply same_listeners_trans; [exact Hsame|]. by apply same_listeners_insert.
    + intros _. by rewrite lookup_insert_eq.
  - replace (Some x) with (last (l1 ++ [x])) by (by rewrite last_snoc).
    apply (IH (l1 ++ [x]) l2); rewrite <- ?app_assoc; try done; [lia|set_solver].
Qed.

Lemma by_priority_filter m (P : Z → Prop) `{∀ x, Decision (P x)} ls : by_priority m ls → by_priority m (filter P ls).
Proof.
  unfold by_priority. induction 1 as [|x ls Hs IH Hf]; [constructor|]. destruct (decide (P x)).
  - rewrite filter_cons_True by done. constructor; [done|]. rewrite Forall_forall in *. intros y Hy.
    apply list_elem_of_filter in Hy as [_ Hy]. auto.
  - by rewrite filter_cons_False.
Qed.

Lemma kbd_unregister_spec s ls old :
  kbd_rep s ls → old ≠ 0 →
  wp (kbd_unregister_listener old)
    (λ _ s', kbd_frame s s' ∧ kbd_rep s' (filter (λ y, y ≠ old) ls) ∧
       (old ∈ ls → l_next <$> kbd_mem s' !! old = Some 0)) s.
Proof.
  intros [Hc Hnd Hs Hu] H0. unfold kbd_unregister_listener. rewrite (proj2 (Z.eqb_neq _ _) H0).
  run_step. apply run_acquire; [done|]. do 2 run_step. run_step.
  apply (unlink_run _ _ [] ls); simpl; [done|done|by eapply chain_size|set_solver|].
  intros m h Hch Hsame Hold. apply run_release. split; [by split|]. split; [|done]. split; simpl; [done| | |done].
  - by apply NoDup_filter.
  - apply by_priority_filter. apply (by_priority_same (kbd_mem s)); [intros; by apply priority_same|done].
Qed.

(** ** Delivery *)

(** What one event makes the handlers of [ls] receive. *)
Definition calls_for (m : gmap Z kbd_listener_t) (ls : list Z) (e : kbd_event_t) : list (Z * kbd_event_t * Z) :=
  omap (λ x, match m !! x with
             | Some l => if l_handler l =? 0 then None else Some (l_handler l, e, l_ctx l)
             | None => None
             end) ls.

(** The events a stream of scan codes stands for; [e0] when a prefix is pending. *)
Fixpoint decode (e0 : bool) (codes : list Z) : list kbd_event_t :=
  match codes with
  | [] => []
  | c :: codes' =>
      if c =? 0xE0 then decode true codes'
      else mkEvent (Z.land c 0x7F) e0 (Z.land c 0x80 =? 0) :: decode false codes'
  end.

(** One interrupt per byte. *)
Fixpoint keystrokes (codes : list Z) : M kbd_state unit :=
  match codes with
  | [] => ret tt
  | c :: codes' => ps2_keyboard_irq c;; keystrokes codes'
  end.

Lemma deliver_run E fuel a ls e s (Q : unit → kbd_state → Prop) :
  chain (kbd_mem s) a ls → (length ls ≤ fuel)%nat →
  Q tt (mkKbd (kbd_mem s) (g_kbd_list s) (g_e0_prefix s) (g_kbd_lock s) (kbd_calls s ++ calls_for (kbd_mem s) ls e)) →
  run E (deliver fuel a e) Q s.
Proof.
  revert a fuel s. induction ls as [|x ls IH]; intros a fuel s Hc Hf HQ.
  - simpl in Hc. subst a. destruct fuel; simpl; run_step; rewrite app_nil_r in HQ; by destruct s.
  - destruct Hc as (-> & Hx & l & Hl & Hc). destruct fuel as [|fuel]; simpl in Hf; [lia|]. cbn [deliver].
    rewrite (proj2 (Z.eqb_neq _ _) Hx). run_step. eapply listener_run; [done|]. run_step.
    unfold calls_for in HQ. cbn [omap list_omap] in HQ. rewrite Hl in HQ. destruct (l_handler l =? 0).
    + run_step. apply IH; [done|lia|done].
    + run_step. apply IH; [done|lia|]. simpl. by rewrite <- app_assoc.
Qed.

Lemma ps2_keyboard_irq_run s ls c (Q : unit → kbd_state → Prop) :
  kbd_rep s ls →
  Q tt (mkKbd (kbd_mem s) (g_kbd_list s) (c =? 0xE0) false
          (kbd_calls s ++ concat (calls_for (kbd_mem s) ls <$> decode (g_e0_prefix s) [c]))) →
  wp (ps2_keyboard_irq c) Q s.
Proof.
  intros [Hc Hnd Hs Hu] HQ. unfold ps2_keyboard_irq. run_step. apply run_acquire; [done|].
  cbn [decode] in HQ. destruct (Z.eqb_spec c 0xE0) as [->|Hne].
  - run_step. run_step. apply run_release. simpl in HQ. by rewrite app_nil_r in HQ.
  - do 2 run_step. do 2 run_step. do 2 run_step. run_step.
    apply (deliver_run _ _ _ ls); simpl; [done|by eapply chain_size|]. apply run_release.
    simpl in HQ. by rewrite app_nil_r in HQ.
Qed.

Lemma keystrokes_spec s ls codes :
  kbd_rep s ls →
  wp (keystrokes codes)
    (λ _ s', kbd_rep s' ls ∧ kbd_mem s' = kbd_mem s ∧
       kbd_calls s' = kbd_calls s ++ concat (calls_for (kbd_mem s) ls <$> decode (g_e0_prefix s) codes)) s.
Proof.
  revert s. induction codes as [|c codes IH]; intros s Hr; simpl.
  - run_step. by rewrite app_nil_r.
  - run_step. apply (ps2_keyboard_irq_run _ ls); [done|]. eapply run_mono; [apply IH|].
    { destruct Hr. by split. }
    intros [] s' (Hr' & Hm & Hcalls). split; [done|]. split; [by rewrite Hm|]. rewrite Hcalls. simpl.
    destruct (c =? 0xE0); simpl; [by rewrite app_nil_r|]. by rewrite app_nil_r, <- app_assoc.
Qed.

(** * Properties *)

(** Registering a listener that is not on the list puts it behind every listener of
    at least its priority and before the others, so that the list stays sorted
    and without repetition; a listener already there is refused and the list
    is unchanged. Nothing but links changes. *)
Theorem kbd_register_listener_correct s ls new l :
  kbd_rep s ls → new ≠ 0 → kbd_mem s !! new = Some l → l_handler l ≠ 0 →
  wp (kbd_register_listener new)
    (λ r s', kbd_frame s s' ∧
       if bool_decide (new ∈ ls) then r = false ∧ kbd_rep s' ls
       else r = true ∧ ∃ a b, ls = a ++ b ∧ place_of (kbd_mem s) (l_priority l) a b ∧ kbd_rep s' (a ++ new :: b)) s.
Proof. apply kbd_register_spec. Qed.

(** A listener that is registered and then unregistered leaves the list as it
    was, whatever was on it. *)
Theorem kbd_register_unregister s ls new l :
  kbd_rep s ls → new ∉ ls → new ≠ 0 → kbd_mem s !! new = Some l → l_handler l ≠ 0 →
  wp (kbd_register_listener new;; kbd_unregister_listener new)
    (λ _ s', kbd_frame s s' ∧ kbd_rep s' ls) s.
Proof.
  intros Hr Hni H0 Hl Hh. run_step. eapply run_mono; [by eapply kbd_register_spec|].
  intros r s1 [Hf1 Hc]. rewrite bool_decide_false in Hc by done. destruct Hc as (_ & a & b & -> & _ & Hr1).
  eapply run_mono; [by apply kbd_unregister_spec|]. intros [] s2 ((Hs & He & Hk) & Hr2 & _).
  rewrite filter_one in Hr2 by done. split; [|done]. destruct Hf1 as (Hs1 & He1 & Hk1).
  split; [by eapply same_listeners_trans|]. split; congruence.
Qed.

(** C22. Over any stream of bytes from the keyboard, one interrupt each, every listener
    with a handler receives exactly the decoded events, each once, in the order of
    the stream and for each event in the order of priority; an E0 byte marks the
    next event and is not itself an event. *)
Theorem keyboard_delivers_stream s ls codes :
  kbd_rep s ls →
  wp (keystrokes codes)
    (λ _ s', kbd_rep s' ls ∧ kbd_mem s' = kbd_mem s ∧
       kbd_calls s' = kbd_calls s ++ concat (calls_for (kbd_mem s) ls <$> decode (g_e0_prefix s) codes)) s.
Proof. apply keystrokes_spec. Qed.

(** * A concrete list *)

Definition kbd0 : kbd_state :=
  mkKbd {[ 0x1000 := mkListener 0xA0 1 10 0x2000; 0x2000 := mkListener 0xB0 2 5 0; 0x3000 := mkListener 0xC0 3 5 0 ]}
    0x1000 false false [].

Lemma kbd0_rep : kbd_rep kbd0 [0x1000; 0x2000].
Proof.
  split; [|by apply (bool_decide_unpack _); vm_compute| |done].
  - simpl. repeat (split; [done|]). eexists. split; [reflexivity|]. simpl. repeat (split; [done|]).
    eexists. split; [reflexivity|]. done.
  - repeat constructor; vm_compute; congruence.
Qed.

Lemma kbd_register_listener_correct_witness :
  wp (kbd_register_listener 0x3000)
    (λ r s', kbd_frame kbd0 s' ∧
       if bool_decide (0x3000 ∈ [0x1000; 0x2000]) then r = false ∧ kbd_rep s' [0x1000; 0x2000]
       else r = true ∧ ∃ a b, [0x1000; 0x2000] = a ++ b ∧ place_of (kbd_mem kbd0) 5 a b ∧ kbd_rep s' (a ++ 0x3000 :: b)) kbd0.
Proof. apply (kbd_register_listener_correct kbd0 _ _ (mkListener 0xC0 3 5 0)); [apply kbd0_rep|done|reflexivity|done]. Defined.

Lemma kbd_register_unregister_witness :
  wp (kbd_register_listener 0x3000;; kbd_unregister_listener 0x3000)
    (λ _ s', kbd_frame kbd0 s' ∧ kbd_rep s' [0x1000; 0x2000]) kbd0.
Proof.
  apply (kbd_register_unregister kbd0 _ _ (mkListener 0xC0 3 5 0));
    [apply kbd0_rep|by apply (bool_decide_unpack _); vm_compute|done|reflexivity|done].
Defined.

(** Right arrow (E0 4D, E0 CD) and then the A key. *)
Lemma keyboard_delivers_stream_witness :
  wp (keystrokes [0xE0; 0x4D; 0xE0; 0xCD; 0x1E])
    (λ _ s', kbd_rep s' [0x1000; 0x2000] ∧ kbd_mem s' = kbd_mem kbd0 ∧
       kbd_calls s' = kbd_calls kbd0 ++
         concat (calls_for (kbd_mem kbd0) [0x1000; 0x2000] <$> decode (g_e0_prefix kbd0) [0xE0; 0x4D; 0xE0; 0xCD; 0x1E])) kbd0.
Proof. apply keyboard_delivers_stream. apply kbd0_rep. Defined.

Example demo_decode :
  decode false [0xE0; 0x4D; 0xE0; 0xCD; 0x1E] = [mkEvent 0x4D true true; mkEvent 0x4D true false; mkEvent 0x1E false true].
Proof. reflexivity. Qed.
