(* ===== verification/Acpi.v ===== *)
(** Firmware tables: arch/x86_64/cpu/acpi.h, acpi.c (root table, search by
    signature) and madt.h, madt.c (the records that list the processors, the I/O
    interrupt controllers and the overrides of legacy interrupts).

    [mem] is the mapped memory, byte by byte; a byte that is not mapped, a null
    pointer's among them, faults when read.  The arrays g_lapics, g_ioapics and
    g_isos are the lists of their entries in use, so that the counters are the
    lengths of the lists. *)

From S2P Require Import Prelude Boot Pmm Disk.

Definition MADT_TYPE_LAPIC : Z := 0.
Definition MADT_TYPE_IOAPIC : Z := 1.
Definition MADT_TYPE_ISO : Z := 2.
Definition MADT_LAPIC_ENABLED : Z := 1.
Definition MADT_LAPIC_ONLINE_CAPABLE : Z := 2.
Definition MADT_MAX_LAPICS : nat := 256.
Definition MADT_MAX_IOAPICS : nat := 8.
Definition MADT_MAX_ISOS : nat := 24.
Definition SDT_HEADER : Z := 36.
Definition MADT_HEADER : Z := 44.

Definition ISO_POLARITY (f : Z) : Z := Z.land f 3.
Definition ISO_TRIGGER (f : Z) : Z := Z.land (Z.shiftr f 2) 3.

Record madt_lapic_info_t : Type := mkMadtLapic { ml_apic_id : Z; ml_acpi_uid : Z; ml_flags : Z }.
Record madt_ioapic_info_t : Type := mkMadtIoapic { mi_id : Z; mi_address : Z; mi_gsi_base : Z }.
Record madt_iso_info_t : Type := mkMadtIso { mo_irq : Z; mo_gsi : Z; mo_polarity : Z; mo_trigger : Z }.

(** The statics of acpi.c and the globals of madt.c; pointers are addresses, 0
    for null. *)
Record acpi_state : Type := mkAcpi {
  xsdt : Z;
  rsdt : Z;
  xsdt_entry_count : Z;
  rsdt_entry_count : Z;
  g_lapics : list madt_lapic_info_t;
  g_ioapics : list madt_ioapic_info_t;
  g_isos : list madt_iso_info_t;
  g_lapic_address : Z
}.
Implicit Types s : acpi_state.

Definition set_root (x r xn rn : Z) s : acpi_state :=
  mkAcpi x r xn rn (g_lapics s) (g_ioapics s) (g_isos s) (g_lapic_address s).
Definition set_lapic_address (a : Z) s : acpi_state :=
  mkAcpi (xsdt s) (rsdt s) (xsdt_entry_count s) (rsdt_entry_count s) (g_lapics s) (g_ioapics s) (g_isos s) a.
Definition set_madt l i o s : acpi_state :=
  mkAcpi (xsdt s) (rsdt s) (xsdt_entry_count s) (rsdt_entry_count s) l i o (g_lapic_address s).

Definition sig_of (x : string) : list Z := (λ c, Z.of_N (Ascii.N_of_ascii c)) <$> String.list_ascii_of_string x.

Section Acpi.
Context (lay : kernel_layout) (mem : Z → option Z) (g_rsdp_address : Z).

Definition load (a : Z) (n : Z) : M acpi_state (list Z) :=
  match mapM mem (seqZ a n) with Some bs => ret bs | None => fault end.
Definition load_le (a n : Z) : M acpi_state Z := let! bs := load a n in ret (le bs).

(** * acpi.c *)

Definition acpi_phys_to_virt (addr : Z) : Z :=
  if addr =? 0 then 0
  else if negb (Z.land addr (2 ^ 63) =? 0) then addr
  else pmm_phys_to_virt lay addr.

Definition acpi_sig4_equal (a b : list Z) : bool := memcmp_eq a b 4.

Fixpoint sum_bytes (n : nat) (p sum : Z) : M acpi_state Z :=
  match n with
  | O => ret sum
  | S n' => let! b := load_le p 1 in sum_bytes n' (p + 1) (u8 (sum + b))
  end.

Definition sdt_checksum_valid (hdr : Z) : M acpi_state bool :=
  let! length := load_le (hdr + 4) 4 in
  let! sum := sum_bytes (Z.to_nat length) hdr 0 in
  ret (sum =? 0).

Definition acpi_init : M acpi_state unit :=
  if g_rsdp_address =? 0 then panic "acpi: limine did not provide an RSDP response"
  else
    let rsdp := acpi_phys_to_virt g_rsdp_address in
    modify (set_root 0 0 0 0);;
    let! revision := load_le (rsdp + 15) 1 in
    let! xsdt_address := (if 2 <=? revision then load_le (rsdp + 24) 8 else ret 0) in
    (if (2 <=? revision) && negb (xsdt_address =? 0) then
       modify (set_root (acpi_phys_to_virt xsdt_address) 0 0 0)
     else
       let! rsdt_address := load_le (rsdp + 16) 4 in
       if negb (rsdt_address =? 0) then modify (set_root 0 (acpi_phys_to_virt rsdt_address) 0 0)
       else panic "acpi: no ACPI root table");;
    let! s := get in
    if negb (xsdt s =? 0) then
      let! signature := load (xsdt s) 4 in
      if negb (acpi_sig4_equal signature (sig_of "XSDT")) then panic "acpi: XSDT signature mismatch"
      else
        let! valid := sdt_checksum_valid (xsdt s) in
        if negb valid then modify (set_root 0 0 0 0)
        else
          let! length := load_le (xsdt s + 4) 4 in
          modify (set_root (xsdt s) 0 (u64 (length - SDT_HEADER) / 8) 0)
    else if negb (rsdt s =? 0) then
      let! signature := load (rsdt s) 4 in
      if negb (acpi_sig4_equal signature (sig_of "RSDT")) then panic "acpi: RSDT signature mismatch"
      else
        let! valid := sdt_checksum_valid (rsdt s) in
        if negb valid then modify (set_root 0 0 0 0)
        else
          let! length := load_le (rsdt s + 4) 4 in
          modify (set_root 0 (rsdt s) 0 (u64 (length - SDT_HEADER) / 4))
    else ret tt.

(** The search of [acpi_find_table], for entries of [w] bytes. *)
Definition find_entry (root w : Z) (n : nat) (sig : list Z) : M acpi_state Z :=
  let! r := for_loop n 0 1 (λ i,
    let! entry := load_le (root + SDT_HEADER + w * i) w in
    let hdr := acpi_phys_to_virt entry in
    let! signature := load hdr 4 in
    if negb (acpi_sig4_equal signature sig) then ret None
    else
      let! valid := sdt_checksum_valid hdr in
      if negb valid then ret None else ret (Some hdr)) in
  ret (default 0 r).

Definition acpi_find_table (sig : list Z) : M acpi_state Z :=
  let! s := get in
  if negb (xsdt s =? 0) then find_entry (xsdt s) 8 (Z.to_nat (xsdt_entry_count s)) sig
  else if negb (rsdt s =? 0) then find_entry (rsdt s) 4 (Z.to_nat (rsdt_entry_count s)) sig
  else ret 0.

(** * madt.c *)

Definition madt_lapic_record (rec rec_length : Z) : M acpi_state unit :=
  if rec_length <? 8 then ret tt
  else
    let! flags := load_le (rec + 4) 4 in
    if (Z.land flags MADT_LAPIC_ENABLED =? 0) && (Z.land flags MADT_LAPIC_ONLINE_CAPABLE =? 0) then ret tt
    else
      let! s := get in
      if (MADT_MAX_LAPICS <=? length (g_lapics s))%nat then ret tt
      else
        let! id := load_le (rec + 3) 1 in
        let! uid := load_le (rec + 2) 1 in
        modify (λ s, set_madt (g_lapics s ++ [mkMadtLapic id uid flags]) (g_ioapics s) (g_isos s) s).

Definition madt_ioapic_record (rec rec_length : Z) : M acpi_state unit :=
  if rec_length <? 12 then ret tt
  else
    let! s := get in
    if (MADT_MAX_IOAPICS <=? length (g_ioapics s))%nat then ret tt
    else
      let! id := load_le (rec + 2) 1 in
      let! address := load_le (rec + 4) 4 in
      let! gsi_base := load_le (rec + 8) 4 in
      modify (λ s, set_madt (g_lapics s) (g_ioapics s ++ [mkMadtIoapic id address gsi_base]) (g_isos s) s).

Definition madt_iso_record (rec rec_length : Z) : M acpi_state unit :=
  if rec_length <? 10 then ret tt
  else
    let! s := get in
    if (MADT_MAX_ISOS <=? length (g_isos s))%nat then ret tt
    else
      let! irq := load_le (rec + 3) 1 in
      let! gsi := load_le (rec + 4) 4 in
      let! flags := load_le (rec + 8) 2 in
      modify (λ s, set_madt (g_lapics s) (g_ioapics s)
                     (g_isos s ++ [mkMadtIso irq gsi (ISO_POLARITY flags) (ISO_TRIGGER flags)]) s).

(** The walk over the records from [ptr] to [last].  A record has at least two
    bytes, so the length of the table is fuel enough. *)
Fixpoint madt_walk (fuel : nat) (ptr last : Z) : M acpi_state unit :=
  if negb (ptr <? last) then ret tt
  else match fuel with
       | O => λ _, Hang
       | S fuel' =>
           let! rec_length := load_le (ptr + 1) 1 in
           if (rec_length <? 2) || (last <? ptr + rec_length) then ret tt
           else
             let! rec_type := load_le ptr 1 in
             (if rec_type =? MADT_TYPE_LAPIC then madt_lapic_record ptr rec_length
              else if rec_type =? MADT_TYPE_IOAPIC then madt_ioapic_record ptr rec_length
              else if rec_type =? MADT_TYPE_ISO then madt_iso_record ptr rec_length
              else ret tt);;
             madt_walk fuel' (ptr + rec_length) last
       end.

Definition madt_init : M acpi_state unit :=
  let! madt := acpi_find_table (sig_of "APIC") in
  if madt =? 0 then ret tt
  else
    let! address := load_le (madt + 36) 4 in
    modify (set_lapic_address address);;
    let! _ := load_le (madt + 40) 4 in
    let! length := load_le (madt + 4) 4 in
    madt_walk (Z.to_nat length) (madt + MADT_HEADER) (madt + length).
End Acpi.
