(* ===== verification/AcpiSpec.v ===== *)
(** Properties of the firmware-table reader: the search finds the first intact
    table with the signature, and the walk over the interrupt-controller table
    records exactly what its records say, whatever they are. *)

From S2P Require Import Prelude Boot Pmm Disk Acpi.

(** * Reference: tables as byte strings *)

Definition total (bs : list Z) : Z := foldr Z.add 0 bs.
Definition checksum_ok (bs : list Z) : bool := u8 (total bs) =? 0.

(** The first table with this signature whose bytes add up. *)
Fixpoint find_sdt (sig : list Z) (tables : list (Z * list Z)) : option (Z * list Z) :=
  match tables with
  | [] => None
  | (a, bs) :: tables' =>
      if acpi_sig4_equal (bytes 0 4 bs) sig && checksum_ok bs then Some (a, bs) else find_sdt sig tables'
  end.

(** The records of a table body: type, length, contents; a record that is too
    short or that sticks out ends the list. *)
Fixpoint records (fuel : nat) (bs : list Z) : list (list Z) :=
  match fuel, bs with
  | S fuel', _ :: len :: _ =>
      if (len <? 2) || (Z.of_nat (length bs) <? len) then []
      else take (Z.to_nat len) bs :: records fuel' (drop (Z.to_nat len) bs)
  | _, _ => []
  end.

Definition rec_is (ty : Z) (size : nat) (r : list Z) : bool :=
  (byte 0 r =? ty) && (Z.of_nat size <=? byte 1 r).

Definition lapic_of (r : list Z) : option madt_lapic_info_t :=
  if rec_is MADT_TYPE_LAPIC 8 r && (Z.testbit (field 4 4 r) 0 || Z.testbit (field 4 4 r) 1)
  then Some (mkMadtLapic (byte 3 r) (byte 2 r) (field 4 4 r)) else None.
Definition ioapic_of (r : list Z) : option madt_ioapic_info_t :=
  if rec_is MADT_TYPE_IOAPIC 12 r then Some (mkMadtIoapic (byte 2 r) (field 4 4 r) (field 8 4 r)) else None.
Definition iso_of (r : list Z) : option madt_iso_info_t :=
  if rec_is MADT_TYPE_ISO 10 r
  then Some (mkMadtIso (byte 3 r) (field 4 4 r) (field 8 2 r mod 4) (field 8 2 r / 4 mod 4)) else None.

(** ** Fields of a record inside the table *)

Lemma field_byte i bs : field i 1 bs = byte i bs.
Proof.
  unfold field, bytes, byte. destruct (bs !! i) as [b|] eqn:E; [rewrite (drop_S _ _ _ E); simpl; lia|].
  apply lookup_ge_None in E. rewrite drop_ge by done. done.
Qed.

Lemma field_sub i n k off bs : (i + n ≤ k)%nat → field i n (take k (drop off bs)) = field (off + i) n bs.
Proof.
  intros H. unfold field, bytes. rewrite skipn_firstn_comm, drop_drop, take_take. f_equal. f_equal. lia.
Qed.

(** The entry a record contributes, if any. *)
Definition as_list {A} (o : option A) : list A := match o with Some x => [x] | None => [] end.

(** The fields the three records read; a capacity keeps the first entries. *)
Definition add_record (r : list Z) s : acpi_state :=
  set_madt (take MADT_MAX_LAPICS (g_lapics s ++ as_list (lapic_of r)))
    (take MADT_MAX_IOAPICS (g_ioapics s ++ as_list (ioapic_of r)))
    (take MADT_MAX_ISOS (g_isos s ++ as_list (iso_of r))) s.
Definition add_records (rs : list (list Z)) s : acpi_state :=
  set_madt (take MADT_MAX_LAPICS (g_lapics s ++ omap lapic_of rs))
    (take MADT_MAX_IOAPICS (g_ioapics s ++ omap ioapic_of rs))
    (take MADT_MAX_ISOS (g_isos s ++ omap iso_of rs)) s.
Definition madt_fits s : Prop :=
  (length (g_lapics s) ≤ MADT_MAX_LAPICS)%nat ∧ (length (g_ioapics s) ≤ MADT_MAX_IOAPICS)%nat ∧
  (length (g_isos s) ≤ MADT_MAX_ISOS)%nat.

Lemma add_nothing s : madt_fits s →
  set_madt (take MADT_MAX_LAPICS (g_lapics s ++ [])) (take MADT_MAX_IOAPICS (g_ioapics s ++ []))
    (take MADT_MAX_ISOS (g_isos s ++ [])) s = s.
Proof. intros (H1 & H2 & H3). rewrite !app_nil_r, !take_ge by done. by destruct s. Qed.

Lemma take_take_app {A} n (l k : list A) : take n (take n l ++ k) = take n (l ++ k).
Proof.
  destruct (decide (length l ≤ n)%nat); [by rewrite (take_ge l)|].
  rewrite !take_app_le by (rewrite ?length_take; lia). by rewrite take_take, Nat.min_id.
Qed.

Lemma omap_cons_option {A B} (f : A → option B) x l : omap f (x :: l) = as_list (f x) ++ omap f l.
Proof. change (omap f (x :: l)) with (match f x with Some y => y :: omap f l | None => omap f l end). by destruct (f x). Qed.

Lemma add_records_cons r rs s : add_records rs (add_record r s) = add_records (r :: rs) s.
Proof.
  unfold add_records, add_record, set_madt. cbn [g_lapics g_ioapics g_isos xsdt rsdt xsdt_entry_count rsdt_entry_count g_lapic_address].
  by rewrite !take_take_app, !omap_cons_option, !app_assoc.
Qed.

Lemma add_record_fits r s : madt_fits (add_record r s).
Proof. unfold madt_fits, add_record. cbn [set_madt g_lapics g_ioapics g_isos]. rewrite !length_take. lia. Qed.

(** Adding one entry to an array of capacity [n]. *)
Lemma take_snoc_full {A} n (l : list A) x : (length l ≤ n)%nat → take n (l ++ [x]) = if (n <=? length l)%nat then l else l ++ [x].
Proof.
  intros H. destruct (Nat.leb_spec n (length l)).
  - replace n with (length l) by lia. by rewrite take_app_length.
  - apply take_ge. rewrite length_app. simpl. lia.
Qed.

Section Spec.
Context (lay : kernel_layout) (mem : Z → option Z) (g_rsdp_address : Z).
Abbreviation load := (load mem).
Abbreviation load_le := (load_le mem).

(** * Reading *)

Definition mem_at (a : Z) (bs : list Z) : Prop :=
  ∀ i b, bs !! i = Some b → mem (a + Z.of_nat i) = Some b.

(** A table: its length field covers exactly its bytes. *)
Record sdt (a : Z) (bs : list Z) : Prop := {
  sdt_mem : mem_at a bs;
  sdt_bytes : Forall is_byte bs;
  sdt_header : (36 ≤ length bs)%nat;
  sdt_length : field 4 4 bs = Z.of_nat (length bs)
}.

Lemma load_run E a bs off n addr len s (Q : list Z → acpi_state → Prop) :
  mem_at a bs → addr = a + Z.of_nat off → len = Z.of_nat n → (off + n ≤ length bs)%nat →
  Q (bytes off n bs) s → run E (load addr len) Q s.
Proof.
  intros Hm -> -> Hl HQ. unfold Acpi.load.
  assert (mapM mem (seqZ (a + Z.of_nat off) (Z.of_nat n)) = Some (bytes off n bs)) as ->; [|done].
  apply mapM_Some. apply Forall2_same_length_lookup_2.
  { unfold bytes. rewrite length_seqZ, length_take, length_drop. lia. }
  intros i x y Hx Hy. apply lookup_seqZ in Hx as [-> Hi]. unfold bytes in Hy.
  rewrite lookup_take_lt in Hy by lia. rewrite lookup_drop in Hy. apply Hm in Hy. rewrite <- Hy. f_equal. lia.
Qed.

Lemma load_le_run E a bs off n addr len s (Q : Z → acpi_state → Prop) :
  mem_at a bs → addr = a + Z.of_nat off → len = Z.of_nat n → (off + n ≤ length bs)%nat →
  Q (field off n bs) s → run E (load_le addr len) Q s.
Proof. intros. unfold Acpi.load_le. run_step. by eapply load_run. Qed.

Lemma sum_bytes_run E n p sum bs a off s (Q : Z → acpi_state → Prop) :
  mem_at a bs → p = a + Z.of_nat off → (off + n ≤ length bs)%nat → in_width 8 sum →
  Q (u8 (sum + total (bytes off n bs))) s → run E (sum_bytes mem n p sum) Q s.
Proof.
  revert p sum off. induction n as [|n IH]; intros p sum off Hm -> Hl Hs HQ; simpl.
  - run_step. unfold bytes in HQ. simpl in HQ. by rewrite Z.add_0_r, wrap_small in HQ.
  - destruct (lookup_lt_is_Some_2 bs off ltac:(lia)) as [b Hb].
    run_step. eapply (load_le_run _ a bs off 1); [done|done|done|lia|].
    apply (IH _ _ (S off)); [done|lia|lia|apply wrap_range; lia|].
    assert (bytes off (S n) bs = b :: bytes (S off) n bs) as He.
    { unfold bytes. by rewrite (drop_S _ _ _ Hb). }
    assert (field off 1 bs = b) as Hf.
    { unfold field, bytes. rewrite (drop_S _ _ _ Hb). simpl. lia. }
    rewrite He in HQ. rewrite Hf. simpl in HQ.
    replace (u8 (u8 (sum + b) + total (bytes (S off) n bs)))
      with (u8 (sum + (b + total (bytes (S off) n bs)))); [done|].
    unfold wrap. rewrite Zplus_mod_idemp_l. f_equal. lia.
Qed.

Lemma checksum_run E a bs s (Q : bool → acpi_state → Prop) :
  sdt a bs → Q (checksum_ok bs) s → run E (sdt_checksum_valid mem a) Q s.
Proof.
  intros [Hm Hb Hh Hl] HQ. unfold sdt_checksum_valid. run_step.
  eapply (load_le_run _ a bs 4 4); [done|done|done|lia|]. rewrite Hl. run_step.
  apply (sum_bytes_run _ _ _ _ bs a 0); [done|lia|lia|by compute|]. run_step.
  unfold checksum_ok in HQ. unfold bytes. rewrite Nat2Z.id, drop_0, firstn_all. exact HQ.
Qed.

(** * Search *)

(** A root table at [root] with entries of [w] bytes lists [tables]. *)
Record lists_tables (root : Z) (rb : list Z) (w : nat) (tables : list (Z * list Z)) : Prop := {
  lt_root : sdt root rb;
  lt_count : length rb = (36 + w * length tables)%nat;
  lt_entry i a bs : tables !! i = Some (a, bs) →
    a = acpi_phys_to_virt lay (field (36 + w * i) w rb) ∧ a ≠ 0 ∧ sdt a bs
}.

Lemma find_sdt_skip sig tables i :
  (∀ j a bs, (j < i)%nat → tables !! j = Some (a, bs) →
     acpi_sig4_equal (bytes 0 4 bs) sig && checksum_ok bs = false) →
  find_sdt sig tables = find_sdt sig (drop i tables).
Proof.
  revert i. induction tables as [|[a bs] tables IH]; intros i H; [by destruct i|].
  destruct i as [|i]; [done|]. simpl. rewrite (H 0%nat a bs) by (lia || done). apply IH.
  intros j a' bs' Hj Hl. apply (H (S j) a'); [lia|done].
Qed.

Lemma find_entry_run E root rb w tables sig s (Q : Z → acpi_state → Prop) :
  lists_tables root rb w tables →
  Q (from_option fst 0 (find_sdt sig tables)) s →
  run E (find_entry lay mem root (Z.of_nat w) (length tables) sig) Q s.
Proof.
  intros [Hr Hn He] HQ. unfold find_entry. run_step.
  eapply (run_for_loop _ _ _ _ _ (λ i s', s' = s ∧ find_sdt sig tables = find_sdt sig (drop i tables))); [done| |].
  - intros i s' Hi [-> Hf]. destruct (lookup_lt_is_Some_2 tables i Hi) as [[a bs] Hl].
    destruct (He i a bs Hl) as (Ha & Ha0 & Ht). run_step.
    assert (w * S i ≤ w * length tables)%nat by (apply Nat.mul_le_mono_l; lia).
    eapply (load_le_run _ root rb (36 + w * i) w); [apply Hr|unfold SDT_HEADER; nia|done|lia|].
    rewrite <- Ha. run_step. destruct Ht as [Hm Hb Hh Hlen] eqn:Ht'.
    eapply (load_run _ a bs 0 4); [done|lia|done|lia|].
    rewrite (drop_S _ _ _ Hl) in Hf. cbn [find_sdt] in Hf.
    destruct (acpi_sig4_equal (bytes 0 4 bs) sig); cbn [negb andb] in *; [|by run_step].
    run_step. apply (checksum_run _ _ bs); [done|]. destruct (checksum_ok bs); cbn [negb] in *; run_step; [|done].
    run_step. by rewrite Hf in HQ.
  - intros s' [-> Hf]. run_step. rewrite Hf, drop_all in HQ. exact HQ.
Qed.

(** * Start-up *)

(** What the firmware provides: an RSDP at the address the boot loader gave, and
    the root table it selects, listing [tables]. *)
Record firmware (rb : list Z) (wide : bool) (root : Z) (rt : list Z) (tables : list (Z * list Z)) : Prop := {
  fw_given : g_rsdp_address ≠ 0;
  fw_rsdp : mem_at (acpi_phys_to_virt lay g_rsdp_address) rb;
  fw_size : (20 ≤ length rb)%nat ∧ (2 ≤ field 15 1 rb → (36 ≤ length rb)%nat);
  fw_wide : wide = (2 <=? field 15 1 rb) && negb (field 24 8 rb =? 0);
  fw_root : root = acpi_phys_to_virt lay (if wide then field 24 8 rb else field 16 4 rb);
  fw_some : field (if wide then 24 else 16) (if wide then 8 else 4) rb ≠ 0 ∧ root ≠ 0;
  fw_sig : acpi_sig4_equal (bytes 0 4 rt) (sig_of (if wide then "XSDT" else "RSDT")) = true;
  fw_sum : checksum_ok rt = true;
  fw_tables : lists_tables root rt (if wide then 8 else 4) tables
}.

Definition root_set (wide : bool) (root n : Z) s : acpi_state :=
  if wide then set_root root 0 n 0 s else set_root 0 root 0 n s.

(** Signature, checksum and size of the root table. *)
Lemma root_run E root rt w tables sig msg upd s (Q : unit → acpi_state → Prop) :
  (w = 8 ∨ w = 4)%nat → lists_tables root rt w tables → checksum_ok rt = true →
  acpi_sig4_equal (bytes 0 4 rt) sig = true →
  Q tt (upd (Z.of_nat (length tables)) s) →
  run E (let! signature := load root 4 in
         if negb (acpi_sig4_equal signature sig) then panic msg
         else
           let! valid := sdt_checksum_valid mem root in
           if negb valid then modify (set_root 0 0 0 0)
           else
             let! length := load_le (root + 4) 4 in
             modify (upd (u64 (length - SDT_HEADER) / Z.of_nat w))) Q s.
Proof.
  intros Hw [Hr Hn He] Hsum Hsig HQ. pose proof Hr as [Hm Hb Hh Hl]. run_step.
  eapply (load_run _ root rt 0 4); [done|lia|done|lia|]. rewrite Hsig. cbn [negb]. run_step.
  apply (checksum_run _ _ rt); [done|]. rewrite Hsum. cbn [negb]. run_step.
  eapply (load_le_run _ root rt 4 4); [done|lia|done|lia|]. run_step.
  pose proof (field_bound 4 4 rt Hb) as Hbnd. rewrite Hl, Hn in *. unfold SDT_HEADER.
  rewrite wrap_small by (unfold in_width; lia).
  replace (Z.of_nat (36 + w * length tables) - 36) with (Z.of_nat (length tables) * Z.of_nat w) by nia.
  rewrite Z.div_mul by lia. done.
Qed.

Lemma acpi_init_run E rb wide root rt tables s (Q : unit → acpi_state → Prop) :
  firmware rb wide root rt tables →
  Q tt (root_set wide root (Z.of_nat (length tables)) s) →
  run E (acpi_init lay mem g_rsdp_address) Q s.
Proof.
  intros [Hg Hm [Hsz Hsz2] Hw Hroot [Hsome Hr0] Hsig Hsum Ht] HQ. unfold acpi_init.
  rewrite (proj2 (Z.eqb_neq _ _) Hg). run_step. run_step. run_step.
  eapply (load_le_run _ _ rb 15 1); [done|lia|done|lia|]. run_step.
  assert (∀ F s0, F (if 2 <=? field 15 1 rb then field 24 8 rb else 0) s0 →
    run E (if 2 <=? field 15 1 rb then load_le (acpi_phys_to_virt lay g_rsdp_address + 24) 8 else ret 0) F s0) as Hx.
  { intros F s0 HF. destruct (Z.leb_spec 2 (field 15 1 rb)); [|by run_step].
    eapply (load_le_run _ _ rb 24 8); [done|lia|done| |done]. specialize (Hsz2 ltac:(lia)). lia. }
  apply Hx. clear Hx. run_step. destruct wide.
  - symmetry in Hw. apply andb_true_iff in Hw as [Hv Hx]. rewrite Hv, Hx. cbn [andb]. run_step. do 2 run_step.
    rewrite <- Hroot. cbn [xsdt set_root]. rewrite (proj2 (Z.eqb_neq _ _) Hr0). cbn [negb].
    refine (root_run E root rt 8 tables _ _ (λ n, set_root root 0 n 0) _ Q _ Ht Hsum Hsig _); [by left|exact HQ].
  - rewrite (andb_comm _ (negb _)) in Hw.
    assert ((2 <=? field 15 1 rb) && negb ((if 2 <=? field 15 1 rb then field 24 8 rb else 0) =? 0) = false) as ->.
    { destruct (2 <=? _); [|done]. by destruct (_ =? 0). }
    run_step. eapply (load_le_run _ _ rb 16 4); [done|lia|done|lia|].
    rewrite (proj2 (Z.eqb_neq _ _) Hsome). cbn [negb]. run_step. do 2 run_step.
    rewrite <- Hroot. cbn [xsdt rsdt set_root]. rewrite (proj2 (Z.eqb_neq _ _) Hr0). cbn [negb Z.eqb].
    refine (root_run E root rt 4 tables _ _ (λ n, set_root 0 root 0 n) _ Q _ Ht Hsum Hsig _); [by right|exact HQ].
Qed.

(** The state after [acpi_init]. *)
Definition acpi_ready (wide : bool) (root : Z) (rt : list Z) (tables : list (Z * list Z)) s : Prop :=
  root ≠ 0 ∧ lists_tables root rt (if wide then 8 else 4) tables ∧
  (if wide then xsdt s = root ∧ xsdt_entry_count s = Z.of_nat (length tables)
   else xsdt s = 0 ∧ rsdt s = root ∧ rsdt_entry_count s = Z.of_nat (length tables)).

Lemma acpi_init_ready rb wide root rt tables s :
  firmware rb wide root rt tables → acpi_ready wide root rt tables (root_set wide root (Z.of_nat (length tables)) s).
Proof. intros []. split; [tauto|]. split; [done|]. by destruct wide. Qed.

Lemma acpi_find_run E wide root rt tables sig s (Q : Z → acpi_state → Prop) :
  acpi_ready wide root rt tables s →
  Q (from_option fst 0 (find_sdt sig tables)) s →
  run E (acpi_find_table lay mem sig) Q s.
Proof.
  intros (H0 & Ht & Hs) HQ. unfold acpi_find_table. do 2 run_step. destruct wide.
  - destruct Hs as [-> ->]. rewrite (proj2 (Z.eqb_neq _ _) H0), Nat2Z.id. by eapply (find_entry_run _ _ _ 8).
  - destruct Hs as (-> & -> & ->). rewrite (proj2 (Z.eqb_neq _ _) H0), Nat2Z.id. by eapply (find_entry_run _ _ _ 4).
Qed.

(** * The walk over the records *)

(** A record that is ignored. *)
Ltac nothing Hsame HQ := run_step; cbn [andb negb as_list] in HQ; rewrite Hsame in HQ; exact HQ.

(** One record at offset [off] of the table. *)
Lemma record_run E a bs off k s (Q : unit → acpi_state → Prop) :
  mem_at a bs → (off + k ≤ length bs)%nat → byte (off + 1) bs = Z.of_nat k → (2 ≤ k)%nat → madt_fits s →
  Q tt (add_record (take k (drop off bs)) s) →
  run E (if byte off bs =? MADT_TYPE_LAPIC then madt_lapic_record mem (a + Z.of_nat off) (Z.of_nat k)
         else if byte off bs =? MADT_TYPE_IOAPIC then madt_ioapic_record mem (a + Z.of_nat off) (Z.of_nat k)
         else if byte off bs =? MADT_TYPE_ISO then madt_iso_record mem (a + Z.of_nat off) (Z.of_nat k)
         else ret tt) Q s.
Proof.
  intros Hm Hl Hlen Hk Hfit HQ. set (r := take k (drop off bs)) in *.
  assert (∀ i n, (i + n ≤ k)%nat → field i n r = field (off + i) n bs) as Hf by (intros; by apply field_sub).
  assert (byte 0 r = byte off bs) as H0. { rewrite <- !field_byte, Hf by lia. f_equal. lia. }
  assert (byte 1 r = Z.of_nat k) as H1. { rewrite <- field_byte, Hf, field_byte by lia. done. }
  assert (∀ i n F, (i + n ≤ k)%nat → F (field i n r) s → run E (load_le (a + Z.of_nat off + Z.of_nat i) (Z.of_nat n)) F s) as Hld.
  { intros i n F Hi HF. eapply (load_le_run _ a bs (off + i) n); [done|lia|done|lia|]. by rewrite <- Hf. }
  pose proof (add_nothing s Hfit) as Hsame. destruct Hfit as (F1 & F2 & F3).
  unfold add_record, lapic_of, ioapic_of, iso_of, rec_is in HQ. rewrite H0, H1 in HQ.
  unfold MADT_TYPE_LAPIC, MADT_TYPE_IOAPIC, MADT_TYPE_ISO in *.
  destruct (Z.eqb_spec (byte off bs) 0) as [Ht|_]; [|destruct (Z.eqb_spec (byte off bs) 1) as [Ht|_];
    [|destruct (Z.eqb_spec (byte off bs) 2) as [_|_]; [|by nothing Hsame HQ]]];
    rewrite ?Ht in HQ; cbn [Z.eqb Pos.eqb andb negb as_list] in HQ.
  - unfold madt_lapic_record. change (Z.of_nat 8) with 8 in HQ. rewrite Z.ltb_antisym.
    destruct (Z.leb_spec 8 (Z.of_nat k)); cbn [negb andb] in *; [|by nothing Hsame HQ].
    run_step. apply (Hld 4%nat 4%nat); [lia|]. change MADT_LAPIC_ENABLED with (2 ^ 0). change MADT_LAPIC_ONLINE_CAPABLE with (2 ^ 1).
    rewrite !land_pow2_testbit, <- negb_orb by lia.
    destruct (_ || _); cbn [negb andb as_list] in *; [|by nothing Hsame HQ].
    do 2 run_step. rewrite take_snoc_full in HQ by done. rewrite !app_nil_r, (take_ge (g_ioapics s)), (take_ge (g_isos s)) in HQ by done.
    destruct (_ <=? _)%nat; [run_step; by destruct s|].
    run_step. apply (Hld 3%nat 1%nat); [lia|]. run_step. apply (Hld 2%nat 1%nat); [lia|]. run_step. by rewrite !field_byte.
  - unfold madt_ioapic_record. change (Z.of_nat 12) with 12 in HQ. rewrite Z.ltb_antisym.
    destruct (Z.leb_spec 12 (Z.of_nat k)); cbn [negb andb as_list] in *; [|by nothing Hsame HQ].
    do 2 run_step. rewrite take_snoc_full in HQ by done. rewrite !app_nil_r, (take_ge (g_lapics s)), (take_ge (g_isos s)) in HQ by done.
    destruct (_ <=? _)%nat; [run_step; by destruct s|].
    run_step. apply (Hld 2%nat 1%nat); [lia|]. run_step. apply (Hld 4%nat 4%nat); [lia|]. run_step.
    apply (Hld 8%nat 4%nat); [lia|]. run_step. by rewrite !field_byte.
  - unfold madt_iso_record. change (Z.of_nat 10) with 10 in HQ. rewrite Z.ltb_antisym.
    destruct (Z.leb_spec 10 (Z.of_nat k)); cbn [negb andb as_list] in *; [|by nothing Hsame HQ].
    do 2 run_step. rewrite take_snoc_full in HQ by done. rewrite !app_nil_r, (take_ge (g_lapics s)), (take_ge (g_ioapics s)) in HQ by done.
    destruct (_ <=? _)%nat; [run_step; by destruct s|].
    run_step. apply (Hld 3%nat 1%nat); [lia|]. run_step. apply (Hld 4%nat 4%nat); [lia|]. run_step.
    apply (Hld 8%nat 2%nat); [lia|]. run_step. unfold ISO_POLARITY, ISO_TRIGGER.
    change 3 with (2 ^ 2 - 1). rewrite !land_ones_mod, Z.shiftr_div_pow2 by lia. by rewrite !field_byte.
Qed.

Lemma walk_run E a bs fuel off s (Q : unit → acpi_state → Prop) :
  mem_at a bs → Forall is_byte bs → is_Some (mem (a + Z.of_nat (length bs))) → (off ≤ length bs)%nat →
  (length bs - off ≤ fuel)%nat → madt_fits s →
  Q tt (add_records (records fuel (drop off bs)) s) →
  run E (madt_walk mem fuel (a + Z.of_nat off) (a + Z.of_nat (length bs))) Q s.
Proof.
  intros Hm Hb Hn. revert off s. induction fuel as [|fuel IH]; intros off s Ho Hf Hfit HQ; cbn [madt_walk].
  { rewrite (proj2 (Z.ltb_ge _ _)) by lia. cbn [negb]. run_step. unfold add_records in HQ. simpl in HQ. by rewrite add_nothing in HQ. }
  destruct (Z.ltb_spec (a + Z.of_nat off) (a + Z.of_nat (length bs))); cbn [negb].
  2: { run_step. rewrite drop_ge in HQ by lia. unfold add_records in HQ. simpl in HQ. by rewrite add_nothing in HQ. }
  destruct (lookup_lt_is_Some_2 bs off ltac:(lia)) as [t Ht]. run_step.
  destruct (decide (off + 1 = length bs)%nat) as [Hlast|Hlast].
  { destruct Hn as [b Hn]. assert (mem_at (a + Z.of_nat (length bs)) [b]) as Hmb.
    { intros [|i] b' Hi; [|done]. simpl in Hi. simplify_eq. rewrite <- Hn. f_equal. lia. }
    eapply (load_le_run _ _ [b] 0 1); [exact Hmb|lia|done|simpl; lia|]. rewrite field_byte. change (byte 0 [b]) with b.
    assert ((b <? 2) || (a + Z.of_nat (length bs) <? a + Z.of_nat off + b) = true) as ->.
    { destruct (Z.ltb_spec b 2); [done|]. apply Z.ltb_lt. lia. }
    run_step. rewrite (drop_S _ _ _ Ht), drop_ge in HQ by lia. simpl in HQ. unfold add_records in HQ. simpl in HQ.
    by rewrite add_nothing in HQ. }
  destruct (lookup_lt_is_Some_2 bs (off + 1) ltac:(lia)) as [len Hlen].
  eapply (load_le_run _ _ bs (off + 1) 1); [done|lia|done|lia|]. rewrite field_byte. unfold byte. rewrite Hlen. cbn [default from_option id].
  rewrite (drop_S _ _ _ Ht) in HQ. replace (S off) with (off + 1)%nat in HQ by lia. rewrite (drop_S _ _ _ Hlen) in HQ.
  cbn [records] in HQ. rewrite <- (drop_S _ _ _ Hlen) in HQ.
  replace (off + 1)%nat with (S off) in HQ by lia. rewrite <- (drop_S _ _ _ Ht) in HQ. rewrite length_drop in HQ.
  replace (a + Z.of_nat (length bs) <? a + Z.of_nat off + len) with (Z.of_nat (length bs - off) <? len)
    by (apply eq_true_iff_eq; rewrite !Z.ltb_lt; lia).
  destruct ((len <? 2) || _) eqn:Hbad.
  { run_step. unfold add_records in HQ. simpl in HQ. by rewrite add_nothing in HQ. }
  apply orb_false_iff in Hbad as [Hb1%Z.ltb_ge Hb2%Z.ltb_ge].
  run_step. eapply (load_le_run _ _ bs off 1); [done|lia|done|lia|]. rewrite field_byte. run_step.
  replace len with (Z.of_nat (Z.to_nat len)) by lia.
  apply record_run; [done|lia|unfold byte; rewrite Hlen; simpl; lia|lia|done|].
  replace (a + Z.of_nat off + Z.of_nat (Z.to_nat len)) with (a + Z.of_nat (off + Z.to_nat len)) by lia.
  apply IH; [lia|lia|apply add_record_fits|].
  rewrite add_records_cons, <- drop_drop. exact HQ.
Qed.
End Spec.

(** * Tables written out and read back *)

(** The records of the table as the ACPI specification lays them out; [flags] of
    an override holds polarity and trigger mode. *)
Inductive madt_entry : Type :=
  | ELapic (uid id flags : Z)
  | EIoapic (id address gsi_base : Z)
  | EIso (irq gsi flags : Z)
  | EOther (ty : Z) (payload : list Z).

Definition encode (e : madt_entry) : list Z :=
  match e with
  | ELapic uid id flags => [0; 8; uid; id] ++ le_enc 4 flags
  | EIoapic id address gsi_base => [1; 12; id; 0] ++ le_enc 4 address ++ le_enc 4 gsi_base
  | EIso irq gsi flags => [2; 10; 0; irq] ++ le_enc 4 gsi ++ le_enc 2 flags
  | EOther ty payload => ty :: (2 + Z.of_nat (length payload)) :: payload
  end.

Definition entry_ok (e : madt_entry) : Prop :=
  match e with
  | ELapic _ _ flags => in_width 32 flags
  | EIoapic _ address gsi_base => in_width 32 address ∧ in_width 32 gsi_base
  | EIso _ gsi flags => in_width 32 gsi ∧ in_width 16 flags
  | EOther ty payload => 2 < ty ∧ (length payload ≤ 253)%nat
  end.

(** The processors that can be used, the controllers, the overrides. *)
Definition entry_lapic (e : madt_entry) : option madt_lapic_info_t :=
  match e with
  | ELapic uid id flags => if Z.testbit flags 0 || Z.testbit flags 1 then Some (mkMadtLapic id uid flags) else None
  | _ => None
  end.
Definition entry_ioapic (e : madt_entry) : option madt_ioapic_info_t :=
  match e with EIoapic id address gsi_base => Some (mkMadtIoapic id address gsi_base) | _ => None end.
Definition entry_iso (e : madt_entry) : option madt_iso_info_t :=
  match e with EIso irq gsi flags => Some (mkMadtIso irq gsi (flags mod 4) (flags / 4 mod 4)) | _ => None end.

Lemma encode_read e : entry_ok e →
  lapic_of (encode e) = entry_lapic e ∧ ioapic_of (encode e) = entry_ioapic e ∧ iso_of (encode e) = entry_iso e.
Proof.
  unfold in_width. destruct e as [uid id flags|id addr gsi|irq gsi flags|ty p]; cbn [entry_ok]; intros H.
  - assert (le (le_enc 4 flags) = flags) as Hf by (by apply le_le_enc).
    split; [|done]. unfold lapic_of. change (field 4 4 (encode (ELapic uid id flags))) with (le (le_enc 4 flags)). by rewrite Hf.
  - destruct H. split; [done|]. split; [|done]. unfold ioapic_of.
    change (field 4 4 (encode (EIoapic id addr gsi))) with (le (le_enc 4 addr)).
    change (field 8 4 (encode (EIoapic id addr gsi))) with (le (le_enc 4 gsi)).
    by rewrite !(le_le_enc 4).
  - destruct H. split; [done|]. split; [done|]. unfold iso_of.
    change (field 4 4 (encode (EIso irq gsi flags))) with (le (le_enc 4 gsi)).
    change (field 8 2 (encode (EIso irq gsi flags))) with (le (le_enc 2 flags)).
    by rewrite (le_le_enc 4), (le_le_enc 2).
  - unfold lapic_of, ioapic_of, iso_of, rec_is. change (byte 0 (encode (EOther ty p))) with ty.
    unfold MADT_TYPE_LAPIC, MADT_TYPE_IOAPIC, MADT_TYPE_ISO.
    by rewrite (proj2 (Z.eqb_neq ty 0)), (proj2 (Z.eqb_neq ty 1)), (proj2 (Z.eqb_neq ty 2)) by lia.
Qed.

Lemma encode_shape e : entry_ok e → ∃ t p, encode e = t :: Z.of_nat (length (encode e)) :: p ∧ (2 ≤ length (encode e))%nat.
Proof.
  destruct e; cbn [entry_ok]; intros H; simpl; [..|eexists _, _; split; [do 2 f_equal; lia|lia]];
    eexists _, _; (split; [done|lia]).
Qed.

Lemma records_encode fuel es : Forall entry_ok es → (length (concat (encode <$> es)) ≤ fuel)%nat →
  records fuel (concat (encode <$> es)) = encode <$> es.
Proof.
  revert fuel. induction es as [|e es IH]; intros fuel Hok Hf; [by destruct fuel|].
  apply Forall_cons in Hok as [He Hok]. destruct (encode_shape e He) as (t & p & Hs & Hl).
  cbn [fmap list_fmap concat] in *. rewrite length_app in Hf. destruct fuel as [|fuel]; [lia|].
  assert (encode e ++ concat (encode <$> es) = t :: Z.of_nat (length (encode e)) :: p ++ concat (encode <$> es)) as Hc
    by (rewrite Hs at 1; done).
  rewrite Hc. cbn [records]. rewrite <- Hc, length_app.
  rewrite (proj2 (Z.ltb_ge _ 2)), (proj2 (Z.ltb_ge _ (Z.of_nat (length (encode e))))) by lia. cbn [orb].
  rewrite Nat2Z.id, take_app_length, drop_app_length. f_equal. apply IH; [done|lia].
Qed.

Lemma omap_encode {A} (f : list Z → option A) (g : madt_entry → option A) es :
  Forall entry_ok es → (∀ e, entry_ok e → f (encode e) = g e) → omap f (encode <$> es) = omap g es.
Proof.
  intros Hok H. induction Hok as [|e es He _ IH]; [done|]. cbn [fmap list_fmap].
  by rewrite !omap_cons_option, H, IH.
Qed.

Section Theorems.
Context (lay : kernel_layout) (mem : Z → option Z) (g_rsdp_address : Z).

(** Whichever root table the firmware offers, the 64-bit XSDT or the 32-bit RSDT,
    the search returns the first table it lists that has the signature and whose
    bytes sum to zero, and NULL when there is none; damaged tables are skipped. *)
Theorem acpi_find_table_correct rb wide root rt tables sig s :
  firmware lay mem g_rsdp_address rb wide root rt tables →
  wp (acpi_init lay mem g_rsdp_address;; acpi_find_table lay mem sig)
    (λ r _, r = from_option fst 0 (find_sdt sig tables)) s.
Proof.
  intros Hfw. run_step. eapply acpi_init_run; [done|].
  eapply acpi_find_run; [by eapply acpi_init_ready|done].
Qed.

Lemma find_sdt_valid sig root rt w tables a bs :
  lists_tables lay mem root rt w tables → find_sdt sig tables = Some (a, bs) → a ≠ 0 ∧ sdt mem a bs.
Proof.
  intros [_ _ He] Hf. assert (∃ i, tables !! i = Some (a, bs)) as [i Hi]; [|by apply He in Hi as (_ & ? & ?)].
  clear He. induction tables as [|[a' bs'] tables IH]; [done|]. simpl in Hf.
  destruct (_ && _); [simplify_eq; by exists 0%nat|]. destruct (IH Hf) as [i Hi]. by exists (S i).
Qed.

(** [madt_init] adds what the records of the table say, in order. *)
Lemma madt_init_run E wide root rt tables a bs s (Q : unit → acpi_state → Prop) :
  acpi_ready lay mem wide root rt tables s → find_sdt (sig_of "APIC") tables = Some (a, bs) →
  (44 ≤ length bs)%nat → is_Some (mem (a + Z.of_nat (length bs))) → madt_fits s →
  Q tt (add_records (records (length bs) (drop 44 bs)) (set_lapic_address (field 36 4 bs) s)) →
  run E (madt_init lay mem) Q s.
Proof.
  intros Hr Hf Hlen Hn Hfit HQ. destruct (find_sdt_valid _ _ _ _ _ _ _ (proj1 (proj2 Hr)) Hf) as (Ha & [Hm Hb _ Hl]).
  unfold madt_init. run_step. eapply acpi_find_run; [done|]. rewrite Hf. cbn [from_option fst].
  rewrite (proj2 (Z.eqb_neq _ _) Ha). run_step. eapply (load_le_run _ _ a bs 36 4); [done|lia|done|lia|].
  do 2 run_step. run_step. eapply (load_le_run _ _ a bs 40 4); [done|lia|done|lia|].
  run_step. eapply (load_le_run _ _ a bs 4 4); [done|lia|done|lia|]. rewrite Hl, Nat2Z.id.
  replace (a + MADT_HEADER) with (a + Z.of_nat 44) by (unfold MADT_HEADER; lia).
  by apply walk_run; [| | |lia|lia| |].
Qed.

(** C23. Whatever the body of the interrupt-controller table holds, truncated and
    unknown records included, the walk ends, reads at most one byte past the
    table, and adds exactly the usable processors, the controllers and the
    overrides of its records in order, never more than the arrays hold. *)
Theorem madt_init_correct rb wide root rt tables a bs s :
  firmware lay mem g_rsdp_address rb wide root rt tables →
  find_sdt (sig_of "APIC") tables = Some (a, bs) → (44 ≤ length bs)%nat →
  is_Some (mem (a + Z.of_nat (length bs))) → madt_fits s →
  wp (acpi_init lay mem g_rsdp_address;; madt_init lay mem)
    (λ _ s', let rs := records (length bs) (drop 44 bs) in
       g_lapic_address s' = field 36 4 bs ∧ madt_fits s' ∧
       g_lapics s' = take MADT_MAX_LAPICS (g_lapics s ++ omap lapic_of rs) ∧
       g_ioapics s' = take MADT_MAX_IOAPICS (g_ioapics s ++ omap ioapic_of rs) ∧
       g_isos s' = take MADT_MAX_ISOS (g_isos s ++ omap iso_of rs)) s.
Proof.
  intros Hfw Hf Hlen Hn Hfit. run_step. eapply acpi_init_run; [done|].
  eapply madt_init_run; [by eapply acpi_init_ready|done|done|done|by destruct wide|]. destruct wide; simpl;
    (split; [done|]; split; [|done]); unfold madt_fits; simpl; rewrite !length_take; lia.
Qed.

(** Round trip: a table whose body is the encoding of any list of entries is read
    back as exactly those entries, as far as the arrays hold. *)
Theorem madt_roundtrip rb wide root rt tables a bs es s :
  firmware lay mem g_rsdp_address rb wide root rt tables →
  find_sdt (sig_of "APIC") tables = Some (a, bs) → (44 ≤ length bs)%nat →
  is_Some (mem (a + Z.of_nat (length bs))) →
  drop 44 bs = concat (encode <$> es) → Forall entry_ok es →
  g_lapics s = [] → g_ioapics s = [] → g_isos s = [] →
  wp (acpi_init lay mem g_rsdp_address;; madt_init lay mem)
    (λ _ s', g_lapics s' = take MADT_MAX_LAPICS (omap entry_lapic es) ∧
       g_ioapics s' = take MADT_MAX_IOAPICS (omap entry_ioapic es) ∧
       g_isos s' = take MADT_MAX_ISOS (omap entry_iso es)) s.
Proof.
  intros Hfw Hf Hlen Hn Hbody Hok H1 H2 H3. run_step. eapply acpi_init_run; [done|].
  eapply madt_init_run; [by eapply acpi_init_ready|done|done|done| |].
  { unfold madt_fits. destruct wide; simpl; rewrite H1, H2, H3; simpl; lia. }
  rewrite Hbody, records_encode by (done || rewrite <- Hbody, length_drop; lia).
  rewrite <- (omap_encode lapic_of entry_lapic), <- (omap_encode ioapic_of entry_ioapic), <- (omap_encode iso_of entry_iso)
    by (done || intros; by apply encode_read).
  destruct wide; simpl; by rewrite H1, H2, H3.
Qed.
End Theorems.
