(* ===== verification/AcpiDemo.v ===== *)
(** A concrete machine: an RSDP, an XSDT and two tables in memory, one of them a
    damaged copy of the interrupt-controller table. *)

From S2P Require Import Prelude Boot Pmm Disk Acpi AcpiSpec.

(** Setting the checksum byte of a table. *)
Definition seal (bs : list Z) : list Z := <[9%nat := u8 (- total bs)]> bs.

Definition sdt_bytes_of (sig : string) (body : list Z) : list Z :=
  seal (sig_of sig ++ le_enc 4 (36 + Z.of_nat (length body)) ++ replicate 28 0 ++ body).

Definition demo_entries : list madt_entry :=
  [ELapic 0 0 1; EOther 4 [0xFF; 0; 0; 1]; ELapic 1 2 2; ELapic 2 4 0; EIoapic 1 0xFEC00000 0; EIso 0 2 0; EIso 9 9 0xF].

Definition demo_madt : list Z := sdt_bytes_of "APIC" (le_enc 4 0xFEE00000 ++ le_enc 4 1 ++ concat (encode <$> demo_entries)).
Definition demo_damaged : list Z := <[40%nat := 7]> demo_madt.
Definition demo_xsdt : list Z := sdt_bytes_of "XSDT" (le_enc 8 0x3000 ++ le_enc 8 0x4000).
Definition demo_rsdp : list Z :=
  sig_of "RSD PTR " ++ [0] ++ replicate 6 0 ++ [2] ++ le_enc 4 0 ++ le_enc 4 36 ++ le_enc 8 0x2000 ++ replicate 4 0.

Definition demo_layout : kernel_layout := mkLayout 0x100000 0 0 0 0.

Definition region (base : Z) (bs : list Z) (a : Z) : option Z :=
  if (base <=? a) then bs !! Z.to_nat (a - base) else None.

Definition demo_mem (a : Z) : option Z :=
  let a := a - 0x100000 in
  union (region 0x1000 demo_rsdp a) (union (region 0x2000 demo_xsdt a)
    (union (region 0x3000 demo_damaged a) (region 0x4000 (demo_madt ++ [0]) a))).

Definition demo_tables : list (Z * list Z) := [(0x103000, demo_damaged); (0x104000, demo_madt)].

Lemma mem_at_check mem a bs :
  forallb (λ i, bool_decide (mem (a + Z.of_nat i) = bs !! i)) (seq 0 (length bs)) = true → mem_at mem a bs.
Proof.
  intros H i b Hb. rewrite forallb_forall in H. specialize (H i). rewrite <- Hb.
  apply (bool_decide_eq_true _). apply H. apply in_seq. apply lookup_lt_Some in Hb. lia.
Qed.

Lemma sdt_check mem a bs :
  forallb (λ i, bool_decide (mem (a + Z.of_nat i) = bs !! i)) (seq 0 (length bs)) = true →
  forallb (λ b, (0 <=? b) && (b <? 256)) bs = true → (36 <=? length bs)%nat = true →
  field 4 4 bs =? Z.of_nat (length bs) = true → sdt mem a bs.
Proof.
  intros H1 H2 H3%Nat.leb_le H4%Z.eqb_eq. split; [by apply mem_at_check| |done|done].
  apply Forall_forall. intros b Hb. rewrite forallb_forall in H2. apply list_elem_of_In, H2 in Hb.
  apply andb_true_iff in Hb as [?%Z.leb_le ?%Z.ltb_lt]. done.
Qed.

Lemma demo_firmware : firmware demo_layout demo_mem 0x1000 demo_rsdp true 0x102000 demo_xsdt demo_tables.
Proof.
  split; [done|by apply mem_at_check; vm_compute|split; [by apply Nat.leb_le; vm_compute|intros _; by apply Nat.leb_le; vm_compute]
    |by vm_compute|by vm_compute|by vm_compute|by vm_compute|by vm_compute|].
  split; [by apply sdt_check; vm_compute|by vm_compute|].
  intros [|[|i]] a bs H; [..|done]; simpl in H; injection H as <- <-;
    (split; [by vm_compute|]; split; [done|]; by apply sdt_check; vm_compute).
Qed.

Definition acpi_zero : acpi_state := mkAcpi 0 0 0 0 [] [] [] 0.

Lemma acpi_find_table_correct_witness :
  wp (acpi_init demo_layout demo_mem 0x1000;; acpi_find_table demo_layout demo_mem (sig_of "APIC"))
    (λ r _, r = from_option fst 0 (find_sdt (sig_of "APIC") demo_tables)) acpi_zero.
Proof. by apply (acpi_find_table_correct demo_layout demo_mem 0x1000 demo_rsdp true 0x102000 demo_xsdt), demo_firmware. Defined.

(** The damaged copy is passed over. *)
Example demo_find : from_option fst 0 (find_sdt (sig_of "APIC") demo_tables) = 0x104000.
Proof. by vm_compute. Qed.

Lemma demo_find_madt : find_sdt (sig_of "APIC") demo_tables = Some (0x104000, demo_madt).
Proof. by vm_compute. Qed.

Lemma madt_init_correct_witness :
  wp (acpi_init demo_layout demo_mem 0x1000;; madt_init demo_layout demo_mem)
    (λ _ s', let rs := records (length demo_madt) (drop 44 demo_madt) in
       g_lapic_address s' = field 36 4 demo_madt ∧ madt_fits s' ∧
       g_lapics s' = take MADT_MAX_LAPICS (g_lapics acpi_zero ++ omap lapic_of rs) ∧
       g_ioapics s' = take MADT_MAX_IOAPICS (g_ioapics acpi_zero ++ omap ioapic_of rs) ∧
       g_isos s' = take MADT_MAX_ISOS (g_isos acpi_zero ++ omap iso_of rs)) acpi_zero.
Proof.
  apply (madt_init_correct demo_layout demo_mem 0x1000 demo_rsdp true 0x102000 demo_xsdt demo_tables 0x104000).
  - apply demo_firmware.
  - apply demo_find_madt.
  - by apply Nat.leb_le; vm_compute.
  - exists 0. by vm_compute.
  - unfold madt_fits. simpl. lia.
Defined.

Lemma madt_roundtrip_witness :
  wp (acpi_init demo_layout demo_mem 0x1000;; madt_init demo_layout demo_mem)
    (λ _ s', g_lapics s' = take MADT_MAX_LAPICS (omap entry_lapic demo_entries) ∧
       g_ioapics s' = take MADT_MAX_IOAPICS (omap entry_ioapic demo_entries) ∧
       g_isos s' = take MADT_MAX_ISOS (omap entry_iso demo_entries)) acpi_zero.
Proof.
  apply (madt_roundtrip demo_layout demo_mem 0x1000 demo_rsdp true 0x102000 demo_xsdt demo_tables 0x104000 demo_madt).
  - apply demo_firmware.
  - apply demo_find_madt.
  - by apply Nat.leb_le; vm_compute.
  - exists 0. by vm_compute.
  - by vm_compute.
  - repeat constructor; simpl; unfold in_width; lia.
  - done.
  - done.
  - done.
Defined.

(** Run as a program: two usable processors, one controller, two overrides. *)
Example demo_acpi_run :
  (let! _ := acpi_init demo_layout demo_mem 0x1000 in
   let! _ := madt_init demo_layout demo_mem in
   let! s := get in ret (ml_apic_id <$> g_lapics s, mi_address <$> g_ioapics s, mo_gsi <$> g_isos s)) acpi_zero =
  Ok ([0; 2], [0xFEC00000], [2; 9],
      mkAcpi 0x102000 0 2 0 [mkMadtLapic 0 0 1; mkMadtLapic 2 1 2] [mkMadtIoapic 1 0xFEC00000 0]
        [mkMadtIso 0 2 0 0; mkMadtIso 9 9 3 3] 0xFEE00000).
Proof. by vm_compute. Qed.
