(* ===== verification/Ioapic.v ===== *)
(** The I/O interrupt controllers (arch/x86_64/cpu/ioapic.c) on top of what
    madt.c found.

    The chips are hardware behind two memory-mapped registers, [regsel] and
    [window]: class [Mmio] has the accesses, class [IoapicDevice] what the
    chips' data sheet says of them.  The array of descriptors is the list of the
    entries in use. *)

From S2P Require Import Prelude Boot Pmm Acpi.

Definition IOAPIC_REG_VER : Z := 1.
Definition IOAPIC_REDIR_BASE : Z := 0x10.
Definition IOAPIC_REDIR_MASKED : Z := 2 ^ 16.
Definition IOAPIC_REDIR_POLARITY : Z := 2 ^ 13.
Definition IOAPIC_REDIR_TRIGGER : Z := 2 ^ 15.

Record ioapic_desc_t : Type := mkDesc {
  io_id : Z;
  io_gsi_base : Z;
  max_redirs : Z;
  io_phys_base : Z;
  regsel : Z;
  window : Z
}.

Class Mmio (D : Type) : Type := {
  mmio_write32 : Z → Z → D → D;
  mmio_read32 : Z → D → Z * D
}.

Record ioapic_state (D : Type) : Type := mkIoapic {
  g_ioapic_desc : list ioapic_desc_t;
  g_ioapic_ready : bool;
  io_dev : D
}.
Arguments mkIoapic {D}. Arguments g_ioapic_desc {D}. Arguments g_ioapic_ready {D}. Arguments io_dev {D}.

Section Ioapic.
Context {D : Type} `{!Mmio D}.
Abbreviation state := (ioapic_state D).
Implicit Types s : state.

Definition set_desc (l : list ioapic_desc_t) s : state := mkIoapic l (g_ioapic_ready s) (io_dev s).
Definition set_io_ready s : state := mkIoapic (g_ioapic_desc s) true (io_dev s).
Definition set_io_dev (d : D) s : state := mkIoapic (g_ioapic_desc s) (g_ioapic_ready s) d.

Definition poke (a v : Z) : M state unit := modify (λ s, set_io_dev (mmio_write32 a v (io_dev s)) s).
Definition peek (a : Z) : M state Z := λ s, let r := mmio_read32 a (io_dev s) in Ok (r.1, set_io_dev r.2 s).

Definition ioapic_read (io : ioapic_desc_t) (reg : Z) : M state Z :=
  poke (regsel io) reg;;
  peek (window io).

Definition ioapic_write (io : ioapic_desc_t) (reg value : Z) : M state unit :=
  poke (regsel io) reg;;
  poke (window io) value.

Definition ioapic_write_redir (io : ioapic_desc_t) (index entry : Z) : M state unit :=
  let lo := u8 (u32 (IOAPIC_REDIR_BASE + u32 (index * 2))) in
  ioapic_write io lo (Z.land entry 0xFFFFFFFF);;
  ioapic_write io (u8 (lo + 1)) (u32 (Z.shiftr entry 32)).

Definition ioapic_read_redir (io : ioapic_desc_t) (index : Z) : M state Z :=
  let lo := u8 (u32 (IOAPIC_REDIR_BASE + u32 (index * 2))) in
  let! low := ioapic_read io lo in
  let! high := ioapic_read io (u8 (lo + 1)) in
  ret (Z.lor low (u64 (Z.shiftl high 32))).

(** The descriptor and, in the output parameter, the index of its entry. *)
Fixpoint ioapic_for_gsi (l : list ioapic_desc_t) (gsi : Z) : option (ioapic_desc_t * Z) :=
  match l with
  | [] => None
  | io :: l' =>
      let max_gsi := u32 (io_gsi_base io + max_redirs io - 1) in
      if (io_gsi_base io <=? gsi) && (gsi <=? max_gsi) then Some (io, gsi - io_gsi_base io)
      else ioapic_for_gsi l' gsi
  end.

Fixpoint find_iso_for_irq (isos : list madt_iso_info_t) (irq : Z) : option madt_iso_info_t :=
  match isos with
  | [] => None
  | i :: isos' => if mo_irq i =? irq then Some i else find_iso_for_irq isos' irq
  end.

(** One round of the loop of [x86_ioapic_init]. *)
Definition ioapic_add (lay : kernel_layout) (i : madt_ioapic_info_t) : M state unit :=
  let virt := pmm_phys_to_virt lay (mi_address i) in
  let io := mkDesc (mi_id i) (mi_gsi_base i) 0 (mi_address i) virt (u64 (virt + 0x10)) in
  let! ver := ioapic_read io IOAPIC_REG_VER in
  let io := mkDesc (mi_id i) (mi_gsi_base i) (Z.land (Z.shiftr ver 16) 0xFF + 1) (mi_address i) virt (u64 (virt + 0x10)) in
  modify (λ s, set_desc (g_ioapic_desc s ++ [io]) s);;
  for_each (Z.to_nat (max_redirs io)) 0 (λ r, ioapic_write_redir io r (Z.lor IOAPIC_REDIR_MASKED 0x20)).

Fixpoint ioapic_add_all (lay : kernel_layout) (l : list madt_ioapic_info_t) : M state unit :=
  match l with
  | [] => ret tt
  | i :: l' => ioapic_add lay i;; ioapic_add_all lay l'
  end.

(** [ioapics] and [isos] are what madt.c stored. *)
Definition x86_ioapic_init (lay : kernel_layout) (paging_ready : bool) (ioapics : list madt_ioapic_info_t) : M state bool :=
  let! s := get in
  if g_ioapic_ready s then ret true
  else if negb paging_ready then ret false
  else if (length ioapics =? 0)%nat then ret false
  else
    modify (set_desc []);;
    ioapic_add_all lay (take MADT_MAX_IOAPICS ioapics);;
    modify set_io_ready;;
    ret true.

Definition x86_ioapic_ready s : bool := g_ioapic_ready s.

(** The redirection entry for a legacy interrupt. *)
Definition route_entry (vector polarity trigger : Z) (masked : bool) (dest : Z) : Z :=
  let entry := vector in
  let entry := if polarity =? 3 then Z.lor entry IOAPIC_REDIR_POLARITY else entry in
  let entry := if trigger =? 3 then Z.lor entry IOAPIC_REDIR_TRIGGER else entry in
  let entry := if masked then Z.lor entry IOAPIC_REDIR_MASKED else entry in
  Z.lor entry (u64 (Z.shiftl dest 56)).

(** [me] is this processor's controller id, [x86_lapic_id()]. *)
Definition x86_ioapic_route_isa_irq (isos : list madt_iso_info_t) (me irq vector : Z) (masked : bool) : M state bool :=
  let! s := get in
  if negb (g_ioapic_ready s) then ret false
  else if vector <? 32 then ret false
  else
    let '(gsi, polarity, trigger) :=
      match find_iso_for_irq isos irq with
      | Some iso => (mo_gsi iso, mo_polarity iso, mo_trigger iso)
      | None => (irq, 0, 0)
      end in
    match ioapic_for_gsi (g_ioapic_desc s) gsi with
    | None => ret false
    | Some (io, index) =>
        ioapic_write_redir io index (route_entry vector polarity trigger masked me);;
        ret true
    end.

Definition x86_ioapic_mask_gsi (gsi : Z) (masked : bool) : M state bool :=
  let! s := get in
  if negb (g_ioapic_ready s) then ret false
  else
    match ioapic_for_gsi (g_ioapic_desc s) gsi with
    | None => ret false
    | Some (io, index) =>
        let! entry := ioapic_read_redir io index in
        let entry := if masked then Z.lor entry IOAPIC_REDIR_MASKED else Z.land entry (lnotw 64 IOAPIC_REDIR_MASKED) in
        ioapic_write_redir io index entry;;
        ret true
    end.
End Ioapic.

(** * The chips *)

(** One chip: the selected register, the version register and the redirection
    entries.  Bits 12 (delivery status) and 14 (remote IRR) of an entry are the
    chip's own. *)
Definition chip_bit (k : Z) : bool := (k =? 12) || (k =? 14).

Class IoapicDevice (D : Type) `{!Mmio D} (bases : list Z) : Type := {
  io_sel : D → Z → Z;
  io_ver : D → Z → Z;
  io_redir : D → Z → Z → Z;
  io_count (b : Z) : Z;
  io_select d b v : b ∈ bases → 0 ≤ v < 256 →
    let d' := mmio_write32 b v d in
    io_sel d' b = v ∧ (∀ b', b' ≠ b → io_sel d' b' = io_sel d b') ∧ io_ver d' = io_ver d ∧ io_redir d' = io_redir d;
  io_read_ver d b : b ∈ bases → io_sel d b = IOAPIC_REG_VER → mmio_read32 (b + 0x10) d = (io_ver d b, d);
  io_read_low d b i : b ∈ bases → 0 ≤ i < io_count b → io_sel d b = 0x10 + 2 * i →
    mmio_read32 (b + 0x10) d = (io_redir d b i mod 2 ^ 32, d);
  io_read_high d b i : b ∈ bases → 0 ≤ i < io_count b → io_sel d b = 0x10 + 2 * i + 1 →
    mmio_read32 (b + 0x10) d = (io_redir d b i / 2 ^ 32, d);
  io_write_low d b i v : b ∈ bases → 0 ≤ i < io_count b → io_sel d b = 0x10 + 2 * i →
    let d' := mmio_write32 (b + 0x10) v d in
    io_sel d' = io_sel d ∧ io_ver d' = io_ver d ∧
    (∀ b' j, (b', j) ≠ (b, i) → io_redir d' b' j = io_redir d b' j) ∧
    (∀ k, 0 ≤ k → Z.testbit (io_redir d' b i) k =
       if (k <? 32) && negb (chip_bit k) then Z.testbit v k else Z.testbit (io_redir d b i) k);
  io_write_high d b i v : b ∈ bases → 0 ≤ i < io_count b → io_sel d b = 0x10 + 2 * i + 1 →
    let d' := mmio_write32 (b + 0x10) v d in
    io_sel d' = io_sel d ∧ io_ver d' = io_ver d ∧
    (∀ b' j, (b', j) ≠ (b, i) → io_redir d' b' j = io_redir d b' j) ∧
    (∀ k, 0 ≤ k → Z.testbit (io_redir d' b i) k =
       if (32 <=? k) && (k <? 64) then Z.testbit v (k - 32) else Z.testbit (io_redir d b i) k);
  io_redir_range d b i : in_width 64 (io_redir d b i);
  io_ver_count d b : b ∈ bases → io_ver d b / 2 ^ 16 mod 2 ^ 8 + 1 = io_count b;
  io_count_max b : b ∈ bases → io_count b ≤ 120
}.
