(* ===== verification/IoapicSpec.v ===== *)
(** Properties of the I/O interrupt controllers: set-up masks every input, routing
    programs exactly the entry of the right input, masking flips one bit. *)

From S2P Require Import Prelude Boot Pmm Acpi Ioapic.

(** * Bits and fields *)

(** [n] bits of [e] from bit [lo]. *)
Definition bits_of (e lo n : Z) : Z := e / 2 ^ lo mod 2 ^ n.

Lemma bits_of_eq e lo n v :
  0 ≤ lo → 0 ≤ n → in_width n v → (∀ k, 0 ≤ k < n → Z.testbit e (lo + k) = Z.testbit v k) → bits_of e lo n = v.
Proof.
  intros Hlo Hn Hv H. unfold bits_of. apply Z.bits_inj'. intros k Hk. destruct (decide (k < n)).
  - rewrite Z.mod_pow2_bits_low, <- Z.shiftr_div_pow2, Z.shiftr_spec by lia. rewrite Z.add_comm. apply H. lia.
  - rewrite Z.mod_pow2_bits_high by lia. rewrite <- (wrap_small n v Hv). unfold wrap. by rewrite Z.mod_pow2_bits_high by lia.
Qed.

Lemma testbit_if (b : bool) x y k : Z.testbit (if b then x else y) k = if b then Z.testbit x k else Z.testbit y k.
Proof. by destruct b. Qed.

Lemma testbit_u64_shiftl x k n : 0 ≤ n → 0 ≤ k < 64 → Z.testbit (u64 (Z.shiftl x n)) k = Z.testbit x (k - n).
Proof. intros. unfold wrap. rewrite Z.mod_pow2_bits_low, Z.shiftl_spec by lia. done. Qed.

(** Bit [k] of a routed entry. *)
Lemma route_entry_bit vector pol trig masked me k :
  in_width 8 vector → 0 ≤ k < 64 →
  Z.testbit (route_entry vector pol trig masked me) k =
    Z.testbit vector k || ((pol =? 3) && (k =? 13)) || ((trig =? 3) && (k =? 15)) || (masked && (k =? 16)) ||
    Z.testbit me (k - 56).
Proof.
  intros Hv Hk. unfold route_entry. rewrite Z.lor_spec, testbit_u64_shiftl by lia.
  unfold IOAPIC_REDIR_POLARITY, IOAPIC_REDIR_TRIGGER, IOAPIC_REDIR_MASKED.
  f_equal. rewrite testbit_if, Z.lor_spec, testbit_if, Z.lor_spec, testbit_if, Z.lor_spec.
  rewrite !Z.pow2_bits_eqb, !(Z.eqb_sym _ k) by lia.
  by destruct (pol =? 3), (trig =? 3), masked; cbn [andb]; rewrite ?orb_false_r.
Qed.

Lemma route_entry_range vector pol trig masked me : in_width 8 vector → in_width 64 (route_entry vector pol trig masked me).
Proof.
  intros Hv. unfold route_entry, IOAPIC_REDIR_POLARITY, IOAPIC_REDIR_TRIGGER, IOAPIC_REDIR_MASKED, in_width in *.
  destruct (_ =? 3), (_ =? 3), masked; repeat (apply lor_range; [lia| |]); try (apply wrap_range; lia); unfold in_width; lia.
Qed.

(** * Programming one entry *)

Section Spec.
Context {D : Type} `{!Mmio D} {bases : list Z} `{!IoapicDevice D bases}.
Abbreviation state := (ioapic_state D).
Implicit Types s : state.

(** A descriptor of the chip at [b]. *)
Record desc_ok (io : ioapic_desc_t) : Prop := {
  do_chip : regsel io ∈ bases;
  do_window : window io = regsel io + 0x10;
  do_count : max_redirs io = io_count (regsel io);
  do_gsi : 0 ≤ io_gsi_base io ∧ 1 ≤ max_redirs io ∧ io_gsi_base io + max_redirs io ≤ 2 ^ 32
}.

(** Every entry but [i] of the chip at [b] is as before. *)
Definition only_entry (b i : Z) (d d' : D) : Prop :=
  ∀ b' j, (b', j) ≠ (b, i) → io_redir d' b' j = io_redir d b' j.

Lemma redir_reg i : 0 ≤ i < 120 → u8 (u32 (IOAPIC_REDIR_BASE + u32 (i * 2))) = 0x10 + 2 * i.
Proof.
  intros. unfold IOAPIC_REDIR_BASE. rewrite (wrap_small 32 (i * 2)) by (unfold in_width; lia).
  rewrite (wrap_small 32) by (unfold in_width; lia). rewrite wrap_small by (unfold in_width; lia). lia.
Qed.

Lemma write_redir_run E io i e s (Q : unit → state → Prop) :
  desc_ok io → 0 ≤ i < io_count (regsel io) → in_width 64 e →
  (∀ d', only_entry (regsel io) i (io_dev s) d' → io_ver d' = io_ver (io_dev s) →
     (∀ k, 0 ≤ k < 64 → Z.testbit (io_redir d' (regsel io) i) k =
        if chip_bit k then Z.testbit (io_redir (io_dev s) (regsel io) i) k else Z.testbit e k) →
     Q tt (set_io_dev d' s)) →
  run E (ioapic_write_redir io i e) Q s.
Proof.
  intros [Hb Hw _ _] Hi He HQ. pose proof (io_count_max (regsel io) Hb) as Hmax.
  unfold ioapic_write_redir. cbv zeta. rewrite redir_reg by lia. rewrite (wrap_small 8) by (unfold in_width; lia).
  set (b := regsel io) in *. unfold ioapic_write, poke. rewrite Hw. fold b.
  run_steps.
  set (d0 := io_dev s) in *. cbn [io_dev set_io_dev].
  destruct (io_select d0 b (0x10 + 2 * i) Hb ltac:(lia)) as (S1 & _ & V1 & R1).
  set (d1 := mmio_write32 b (0x10 + 2 * i) d0) in *.
  destruct (io_write_low d1 b i (Z.land e 0xFFFFFFFF) Hb Hi S1) as (S2 & V2 & O2 & B2).
  set (d2 := mmio_write32 (b + 0x10) (Z.land e 0xFFFFFFFF) d1) in *.
  destruct (io_select d2 b (0x10 + 2 * i + 1) Hb ltac:(lia)) as (S3 & _ & V3 & R3).
  set (d3 := mmio_write32 b (0x10 + 2 * i + 1) d2) in *.
  destruct (io_write_high d3 b i (u32 (Z.shiftr e 32)) Hb Hi S3) as (S4 & V4 & O4 & B4).
  set (d4 := mmio_write32 (b + 0x10) (u32 (Z.shiftr e 32)) d3) in *.
  refine (HQ d4 _ _ _).
  - intros b' j Hne. rewrite O4, R3, O2, R1 by done. done.
  - congruence.
  - intros k Hk. rewrite B4, R3, B2, R1 by lia. change 0xFFFFFFFF with (Z.ones 32).
    destruct (Z.leb_spec 32 k); cbn [andb].
    + rewrite (proj2 (Z.ltb_lt k 64)) by lia. unfold wrap.
      rewrite Z.mod_pow2_bits_low, Z.shiftr_spec by lia. replace (k - 32 + 32) with k by lia.
      unfold chip_bit. by rewrite (proj2 (Z.eqb_neq k 12)), (proj2 (Z.eqb_neq k 14)) by lia.
    + rewrite (proj2 (Z.ltb_lt k 32)) by lia. cbn [andb]. destruct (chip_bit k); cbn [negb]; [done|].
      rewrite Z.land_spec, Z.ones_spec_low, andb_true_r by lia. done.
Qed.

Lemma read_redir_run E io i s (Q : Z → state → Prop) :
  desc_ok io → 0 ≤ i < io_count (regsel io) →
  (∀ d', io_redir d' = io_redir (io_dev s) → io_ver d' = io_ver (io_dev s) →
     Q (io_redir (io_dev s) (regsel io) i) (set_io_dev d' s)) →
  run E (ioapic_read_redir io i) Q s.
Proof.
  intros [Hb Hw _ _] Hi HQ. pose proof (io_count_max (regsel io) Hb) as Hmax.
  unfold ioapic_read_redir. cbv zeta. rewrite redir_reg by lia. rewrite (wrap_small 8) by (unfold in_width; lia).
  set (b := regsel io) in *. unfold ioapic_read, poke, peek. rewrite Hw. fold b.
  run_steps. set (d0 := io_dev s) in *.
  destruct (io_select d0 b (0x10 + 2 * i) Hb ltac:(lia)) as (S1 & _ & V1 & R1).
  set (d1 := mmio_write32 b (0x10 + 2 * i) d0) in *. unfold run at 1. cbn [io_dev set_io_dev].
  fold d0 d1. rewrite (io_read_low d1 b i Hb Hi S1). cbn [fst snd]. run_steps. cbn [io_dev set_io_dev].
  destruct (io_select d1 b (0x10 + 2 * i + 1) Hb ltac:(lia)) as (S2 & _ & V2 & R2).
  set (d2 := mmio_write32 b (0x10 + 2 * i + 1) d1) in *. unfold run at 1. cbn [io_dev set_io_dev].
  fold d2. rewrite (io_read_high d2 b i Hb Hi S2). cbn [fst snd]. run_step. rewrite R2, R1.
  pose proof (io_redir_range d0 b i) as Hr.
  assert (Z.lor (io_redir d0 b i mod 2 ^ 32) (u64 (Z.shiftl (io_redir d0 b i / 2 ^ 32) 32)) = io_redir d0 b i) as ->.
  { rewrite wrap_small.
    - apply Z.bits_inj'. intros k Hk. rewrite Z.lor_spec, Z.shiftl_spec by lia. destruct (decide (k < 32)).
      + rewrite Z.mod_pow2_bits_low, (Z.testbit_neg_r _ (k - 32)) by lia. apply orb_false_r.
      + rewrite Z.mod_pow2_bits_high, <- Z.shiftr_div_pow2, Z.shiftr_spec by lia. simpl. f_equal. lia.
    - unfold in_width in *. rewrite Z.shiftl_mul_pow2 by lia. dlia. }
  refine (HQ d2 _ _); congruence.
Qed.

(** The controller that serves an input. *)
Lemma ioapic_for_gsi_spec l gsi :
  Forall desc_ok l →
  match ioapic_for_gsi l gsi with
  | Some (io, i) => io ∈ l ∧ desc_ok io ∧ gsi = io_gsi_base io + i ∧ 0 ≤ i < io_count (regsel io)
  | None => ∀ io, io ∈ l → ¬ (io_gsi_base io ≤ gsi < io_gsi_base io + max_redirs io)
  end.
Proof.
  induction 1 as [|io l Hio Hl IH]; simpl; [set_solver|]. pose proof Hio as [Hb Hw Hc (Hg0 & Hg1 & Hg)].
  rewrite wrap_small by (unfold in_width; lia).
  destruct (Z.leb_spec (io_gsi_base io) gsi); cbn [andb].
  1: destruct (Z.leb_spec gsi (io_gsi_base io + max_redirs io - 1)).
  1: { split; [by left|]. split; [done|]. rewrite <- Hc. lia. }
  all: destruct (ioapic_for_gsi l gsi) as [[io' i]|]; [destruct IH as (? & ? & ?); split; [by right|done]|].
  all: intros io' [->|Hin]%elem_of_cons; [lia|by apply IH].
Qed.

(** * Set-up *)

(** Every input of the chips at [bs] is masked. *)
Definition all_masked (bs : list Z) (d : D) : Prop :=
  ∀ b i, b ∈ bs → 0 ≤ i < io_count b → Z.testbit (io_redir d b i) 16 = true.

Lemma mask_all_run E io s bs (Q : unit → state → Prop) :
  desc_ok io → all_masked bs (io_dev s) →
  (∀ d', all_masked (regsel io :: bs) d' → io_ver d' = io_ver (io_dev s) → Q tt (set_io_dev d' s)) →
  run E (for_each (Z.to_nat (max_redirs io)) 0 (λ r, ioapic_write_redir io r (Z.lor IOAPIC_REDIR_MASKED 0x20))) Q s.
Proof.
  intros Hio Hm HQ. pose proof Hio as [Hb _ Hc (_ & Hn & _)].
  apply (run_for_each _ _ _ _ (λ j s', ∃ d', s' = set_io_dev d' s ∧ io_ver d' = io_ver (io_dev s) ∧ all_masked bs d' ∧
    ∀ i, 0 ≤ i < Z.of_nat j → Z.testbit (io_redir d' (regsel io) i) 16 = true)).
  - exists (io_dev s). split; [by destruct s|]. split; [done|]. split; [done|lia].
  - intros j s' Hj (d' & -> & Hv & Hbs & Hpre). apply write_redir_run; [done|rewrite <- Hc; lia|by compute|].
    cbn [io_dev set_io_dev]. intros d'' Ho Hv' Hbit. rewrite Z.add_0_l in *. exists d''. split; [done|]. split; [congruence|].
    assert (Z.testbit (io_redir d'' (regsel io) (Z.of_nat j)) 16 = true) as Hj' by (by rewrite Hbit by lia).
    split.
    + intros b i Hin Hi. destruct (decide ((b, i) = (regsel io, Z.of_nat j))) as [[= -> ->]|]; [done|]. rewrite Ho by done. by apply Hbs.
    + intros i Hi. destruct (decide (i = Z.of_nat j)) as [->|]; [done|]. rewrite Ho by congruence. apply Hpre. lia.
  - intros s' (d' & -> & Hv & Hbs & Hall). apply HQ; [|done].
    intros b i [->|Hin]%elem_of_cons Hi; [apply Hall; rewrite Z2Nat.id by lia; by rewrite Hc|by apply Hbs].
Qed.

(** What the firmware says of a controller fits the chip at its address. *)
Definition madt_ok (lay : kernel_layout) (i : madt_ioapic_info_t) : Prop :=
  let b := pmm_phys_to_virt lay (mi_address i) in
  b ∈ bases ∧ 0 ≤ b ∧ b + 0x10 < 2 ^ 64 ∧ 0 ≤ mi_gsi_base i ∧ 1 ≤ io_count b ∧ mi_gsi_base i + io_count b ≤ 2 ^ 32.

Definition desc_of (lay : kernel_layout) (i : madt_ioapic_info_t) : ioapic_desc_t :=
  let b := pmm_phys_to_virt lay (mi_address i) in
  mkDesc (mi_id i) (mi_gsi_base i) (io_count b) (mi_address i) b (b + 0x10).

Lemma desc_of_ok lay i : madt_ok lay i → desc_ok (desc_of lay i).
Proof. intros (Hb & H0 & H1 & H2 & H3 & H4). by split. Qed.

Lemma ioapic_add_run E lay i s bs (Q : unit → state → Prop) :
  madt_ok lay i → all_masked bs (io_dev s) →
  (∀ d', all_masked (pmm_phys_to_virt lay (mi_address i) :: bs) d' →
     Q tt (mkIoapic (g_ioapic_desc s ++ [desc_of lay i]) (g_ioapic_ready s) d')) →
  run E (ioapic_add lay i) Q s.
Proof.
  intros Hok Hm HQ. pose proof Hok as (Hb & H0 & H1 & H2 & H3 & H4). unfold ioapic_add.
  set (b := pmm_phys_to_virt lay (mi_address i)) in *. cbv zeta. rewrite (wrap_small 64) by (unfold in_width; lia).
  unfold ioapic_read, poke, peek. cbn [regsel window]. run_steps.
  destruct (io_select (io_dev s) b IOAPIC_REG_VER Hb ltac:(by compute)) as (S1 & _ & V1 & R1).
  set (d1 := mmio_write32 b IOAPIC_REG_VER (io_dev s)) in *. unfold run at 1. cbn [io_dev set_io_dev].
  fold d1. rewrite (io_read_ver d1 b Hb S1). cbn [fst snd]. do 2 run_step.
  assert (Z.land (Z.shiftr (io_ver d1 b) 16) 0xFF + 1 = io_count b) as Hcnt.
  { change 0xFF with (2 ^ 8 - 1). rewrite land_ones_mod, Z.shiftr_div_pow2 by lia. by apply io_ver_count. }
  rewrite Hcnt. apply (mask_all_run _ (desc_of lay i) _ bs); [by apply desc_of_ok| |].
  - intros b' j. cbn [io_dev set_io_dev set_desc]. rewrite R1. apply Hm.
  - intros d' Hd' _. exact (HQ d' Hd').
Qed.

Lemma ioapic_add_all_run E lay l s bs (Q : unit → state → Prop) :
  Forall (madt_ok lay) l → all_masked bs (io_dev s) →
  (∀ d', all_masked (((λ i, pmm_phys_to_virt lay (mi_address i)) <$> l) ++ bs) d' →
     Q tt (mkIoapic (g_ioapic_desc s ++ (desc_of lay <$> l)) (g_ioapic_ready s) d')) →
  run E (ioapic_add_all lay l) Q s.
Proof.
  intros Hl. revert s bs. induction Hl as [|i l Hi Hl IH]; intros s bs Hm HQ; cbn [ioapic_add_all].
  - run_step. specialize (HQ (io_dev s) Hm). rewrite app_nil_r in HQ. by destruct s.
  - run_step. apply (ioapic_add_run _ _ _ _ bs); [done|done|]. intros d' Hd'. eapply IH; [exact Hd'|].
    intros d'' Hd''. cbn [g_ioapic_desc g_ioapic_ready]. rewrite <- app_assoc. apply HQ.
    intros b j Hin. apply Hd''. set_solver.
Qed.

(** * Properties *)

(** Set-up: with paging on and at least one controller found, every input of
    every controller is masked, and the descriptors say where the chips are and
    which inputs they serve. *)
Theorem x86_ioapic_init_correct lay ioapics s :
  g_ioapic_ready s = false → ioapics ≠ [] → (length ioapics ≤ MADT_MAX_IOAPICS)%nat → Forall (madt_ok lay) ioapics →
  wp (x86_ioapic_init lay true ioapics)
    (λ r s', r = true ∧ g_ioapic_ready s' = true ∧ g_ioapic_desc s' = desc_of lay <$> ioapics ∧
       Forall desc_ok (g_ioapic_desc s') ∧
       all_masked ((λ i, pmm_phys_to_virt lay (mi_address i)) <$> ioapics) (io_dev s')) s.
Proof.
  intros Hr Hne Hlen Hok. unfold x86_ioapic_init. do 2 run_step. rewrite Hr. cbn [negb].
  rewrite (proj2 (Nat.eqb_neq _ 0)) by (by destruct ioapics). do 2 run_step. run_step. rewrite take_ge by done.
  apply (ioapic_add_all_run _ _ _ _ []); [done|intros b i ?; set_solver|].
  intros d' Hd'. do 2 run_step. run_step. cbn [set_io_ready g_ioapic_desc g_ioapic_ready io_dev set_desc app].
  split; [done|]. split; [done|]. split; [done|]. split; [|by rewrite app_nil_r in Hd'].
  apply Forall_fmap. eapply Forall_impl; [exact Hok|]. apply desc_of_ok.
Qed.

(** The input a legacy interrupt arrives on, with polarity and trigger mode: those
    of the first override recorded for it, or else its own number and zeros. *)
Definition isa_source (isos : list madt_iso_info_t) (irq : Z) : Z * Z * Z :=
  hd (irq, 0, 0) ((λ iso, (mo_gsi iso, mo_polarity iso, mo_trigger iso)) <$> filter (λ iso, mo_irq iso = irq) isos).

Lemma isa_source_found isos irq :
  match find_iso_for_irq isos irq with
  | Some iso => (mo_gsi iso, mo_polarity iso, mo_trigger iso)
  | None => (irq, 0, 0)
  end = isa_source isos irq.
Proof.
  unfold isa_source. induction isos as [|i isos IH]; [done|]. cbn [find_iso_for_irq]. rewrite filter_cons.
  destruct (Z.eqb_spec (mo_irq i) irq) as [Hi|Hi]; [by rewrite decide_True|by rewrite decide_False].
Qed.

(** What an entry tells the chip to do. *)
Record routes (e vector pol trig : Z) (masked : bool) (dest : Z) : Prop := {
  rt_vector : bits_of e 0 8 = vector;
  rt_fixed_physical : bits_of e 8 4 = 0;
  rt_polarity : Z.testbit e 13 = (pol =? 3);
  rt_trigger : Z.testbit e 15 = (trig =? 3);
  rt_masked : Z.testbit e 16 = masked;
  rt_reserved : bits_of e 17 39 = 0;
  rt_dest : bits_of e 56 8 = dest mod 2 ^ 8
}.

Lemma routes_bits e vector pol trig masked dest :
  in_width 8 vector →
  (∀ k, 0 ≤ k < 64 → chip_bit k = false → Z.testbit e k = Z.testbit (route_entry vector pol trig masked dest) k) →
  routes e vector pol trig masked dest.
Proof.
  intros Hv H. assert (∀ k, 0 ≤ k < 64 → k ≠ 12 → k ≠ 14 → Z.testbit e k =
    Z.testbit vector k || ((pol =? 3) && (k =? 13)) || ((trig =? 3) && (k =? 15)) || (masked && (k =? 16)) ||
    Z.testbit dest (k - 56)) as Hk.
  { intros k Hk H12 H14. rewrite H by (done || unfold chip_bit; lia). by apply route_entry_bit. }
  assert (∀ k, 17 ≤ k < 56 ∨ 8 ≤ k < 12 → Z.testbit e k = false) as H0.
  { intros k Hr. rewrite Hk, (testbit_in_width 8), (Z.testbit_neg_r dest), (proj2 (Z.eqb_neq k 13)), (proj2 (Z.eqb_neq k 15)),
      (proj2 (Z.eqb_neq k 16)) by (done || lia). by rewrite !andb_false_r. }
  split.
  - apply bits_of_eq; [lia|lia|done|]. intros k Hr. rewrite Hk, (Z.testbit_neg_r dest), (proj2 (Z.eqb_neq (0 + k) 13)),
      (proj2 (Z.eqb_neq (0 + k) 15)), (proj2 (Z.eqb_neq (0 + k) 16)) by lia. by rewrite !andb_false_r, !orb_false_r.
  - apply bits_of_eq; [lia|lia|done|]. intros k Hr. rewrite H0 by lia. by rewrite Z.bits_0.
  - rewrite Hk, (testbit_in_width 8), Z.testbit_neg_r by (done || lia). cbn [Z.eqb Pos.eqb orb]. by rewrite andb_true_r, !andb_false_r, !orb_false_r.
  - rewrite Hk, (testbit_in_width 8), Z.testbit_neg_r by (done || lia). cbn [Z.eqb Pos.eqb orb]. by rewrite andb_true_r, !andb_false_r, !orb_false_r.
  - rewrite Hk, (testbit_in_width 8), Z.testbit_neg_r by (done || lia). cbn [Z.eqb Pos.eqb orb]. by rewrite andb_true_r, !andb_false_r, !orb_false_r.
  - apply bits_of_eq; [lia|lia|done|]. intros k Hr. rewrite H0 by lia. by rewrite Z.bits_0.
  - apply bits_of_eq; [lia|lia|apply Z.mod_pos_bound; lia|]. intros k Hr.
    rewrite Hk, (testbit_in_width 8), (proj2 (Z.eqb_neq (56 + k) 13)), (proj2 (Z.eqb_neq (56 + k) 15)), (proj2 (Z.eqb_neq (56 + k) 16))
      by (done || lia). rewrite !andb_false_r. cbn [orb]. rewrite Z.mod_pow2_bits_low by lia. f_equal. lia.
Qed.

Lemma route_spec isos me irq vector masked s :
  Forall desc_ok (g_ioapic_desc s) → 32 ≤ vector < 256 →
  let '(gsi, pol, trig) := isa_source isos irq in
  wp (x86_ioapic_route_isa_irq isos me irq vector masked)
    (λ r s', g_ioapic_desc s' = g_ioapic_desc s ∧ g_ioapic_ready s' = g_ioapic_ready s ∧
       if r then g_ioapic_ready s = true ∧ ∃ io i, io ∈ g_ioapic_desc s ∧ gsi = io_gsi_base io + i ∧ 0 ≤ i < max_redirs io ∧
         routes (io_redir (io_dev s') (regsel io) i) vector pol trig masked me ∧
         only_entry (regsel io) i (io_dev s) (io_dev s')
       else s' = s ∧ (g_ioapic_ready s = true →
         ∀ io, io ∈ g_ioapic_desc s → ¬ (io_gsi_base io ≤ gsi < io_gsi_base io + max_redirs io))) s.
Proof.
  intros Hds Hv. destruct (isa_source isos irq) as [[gsi pol] trig] eqn:Hsrc. unfold x86_ioapic_route_isa_irq.
  do 2 run_step. destruct (g_ioapic_ready s) eqn:Hr; cbn [negb]; [|by run_step].
  rewrite (proj2 (Z.ltb_ge _ _)) by lia. rewrite isa_source_found, Hsrc.
  pose proof (ioapic_for_gsi_spec (g_ioapic_desc s) gsi Hds) as Hgsi.
  destruct (ioapic_for_gsi _ gsi) as [[io i]|]; [|by run_step].
  destruct Hgsi as (Hin & Hio & -> & Hi). run_step. assert (in_width 8 vector) by (unfold in_width; lia).
  apply write_redir_run; [done|done|by apply route_entry_range|]. intros d' Ho _ Hbit. run_step.
  cbn [set_io_dev g_ioapic_desc g_ioapic_ready io_dev]. split; [done|]. split; [done|]. split; [done|].
  exists io, i. split; [done|]. split; [done|]. split; [by rewrite (do_count _ Hio)|]. split; [|done].
  apply routes_bits; [done|]. intros k Hk Hc. rewrite Hbit by lia. by rewrite Hc.
Qed.

(** C24. Routing a legacy interrupt: the source override of the firmware, if there is
    one, decides the input, the polarity and the trigger mode; the entry of that
    input, on the controller that serves it, then delivers the vector to this
    processor, and no other entry of any controller changes. When no controller
    serves the input, or before set-up, nothing is written. *)
Theorem x86_ioapic_route_correct isos me irq vector masked s :
  Forall desc_ok (g_ioapic_desc s) → 32 ≤ vector < 256 →
  let '(gsi, pol, trig) := isa_source isos irq in
  wp (x86_ioapic_route_isa_irq isos me irq vector masked)
    (λ r s', g_ioapic_desc s' = g_ioapic_desc s ∧ g_ioapic_ready s' = g_ioapic_ready s ∧
       if r then g_ioapic_ready s = true ∧ ∃ io i, io ∈ g_ioapic_desc s ∧ gsi = io_gsi_base io + i ∧ 0 ≤ i < max_redirs io ∧
         routes (io_redir (io_dev s') (regsel io) i) vector pol trig masked me ∧
         only_entry (regsel io) i (io_dev s) (io_dev s')
       else s' = s ∧ (g_ioapic_ready s = true →
         ∀ io, io ∈ g_ioapic_desc s → ¬ (io_gsi_base io ≤ gsi < io_gsi_base io + max_redirs io))) s.
Proof. apply route_spec. Qed.

(** Masking or unmasking an input changes the mask bit of its entry and nothing
    else, on this or any other controller. *)
Theorem x86_ioapic_mask_correct gsi masked s :
  Forall desc_ok (g_ioapic_desc s) → g_ioapic_ready s = true →
  wp (x86_ioapic_mask_gsi gsi masked)
    (λ r s', g_ioapic_desc s' = g_ioapic_desc s ∧
       if r then ∃ io i, io ∈ g_ioapic_desc s ∧ gsi = io_gsi_base io + i ∧ 0 ≤ i < max_redirs io ∧
         (∀ k, 0 ≤ k < 64 → Z.testbit (io_redir (io_dev s') (regsel io) i) k =
            if k =? 16 then masked else Z.testbit (io_redir (io_dev s) (regsel io) i) k) ∧
         only_entry (regsel io) i (io_dev s) (io_dev s')
       else s' = s ∧ ∀ io, io ∈ g_ioapic_desc s → ¬ (io_gsi_base io ≤ gsi < io_gsi_base io + max_redirs io)) s.
Proof.
  intros Hds Hr. unfold x86_ioapic_mask_gsi. do 2 run_step. rewrite Hr. cbn [negb].
  pose proof (ioapic_for_gsi_spec (g_ioapic_desc s) gsi Hds) as Hgsi.
  destruct (ioapic_for_gsi _ gsi) as [[io i]|]; [|by run_step].
  destruct Hgsi as (Hin & Hio & -> & Hi). run_step. apply read_redir_run; [done|done|]. intros d1 Hd1 _.
  set (e := io_redir (io_dev s) (regsel io) i). pose proof (io_redir_range (io_dev s) (regsel io) i) as Hrng. fold e in Hrng.
  set (e' := if masked then _ else _).
  assert (∀ k, 0 ≤ k < 64 → Z.testbit e' k = if k =? 16 then masked else Z.testbit e k) as Hbit'.
  { intros k Hk. unfold e', lnotw, IOAPIC_REDIR_MASKED. destruct masked.
    - rewrite Z.lor_spec, Z.pow2_bits_eqb, (Z.eqb_sym 16) by lia. destruct (k =? 16); [apply orb_true_r|apply orb_false_r].
    - rewrite Z.land_spec. unfold wrap. rewrite Z.mod_pow2_bits_low, Z.lnot_spec, Z.pow2_bits_eqb, (Z.eqb_sym 16) by lia.
      destruct (k =? 16); [apply andb_false_r|apply andb_true_r]. }
  assert (in_width 64 e') as Hrng'.
  { unfold e'. destruct masked; [by apply lor_range|by apply land_range]. }
  run_step. apply write_redir_run; [done|done|done|]. cbn [io_dev set_io_dev]. intros d' Ho _ Hbit. run_step.
  cbn [g_ioapic_desc g_ioapic_ready io_dev set_io_dev]. split; [done|]. exists io, i. split; [done|]. split; [done|].
  split; [by rewrite (do_count _ Hio)|]. split.
  - intros k Hk. rewrite Hbit, Hbit' by lia. rewrite Hd1. fold e. destruct (chip_bit k) eqn:Hc; [|done].
    rewrite (proj2 (Z.eqb_neq k 16)); [done|]. unfold chip_bit in Hc. lia.
  - intros b j Hne. by rewrite Ho, Hd1.
Qed.
End Spec.
