(* ===== verification/IoapicDemo.v ===== *)
(** Two controllers with 24 inputs each: a concrete device for the contract of
    Ioapic.v, and the firmware tables of AcpiDemo.v routed on it. *)

From S2P Require Import Prelude Boot Pmm Acpi AcpiSpec AcpiDemo Ioapic IoapicSpec.

Record chips : Type := mkChips { c_sel : gmap Z Z; c_redir : gmap (Z * Z) Z }.

Definition demo_bases : list Z := [0xFED00000; 0xFED01000].
Definition LOWMASK : Z := Z.ldiff (Z.ones 32) (Z.lor (2 ^ 12) (2 ^ 14)).
Definition HIGHMASK : Z := Z.shiftl (Z.ones 32) 32.

Definition chip_sel (d : chips) (b : Z) : Z := default 0 (c_sel d !! b).
Definition chip_redir (d : chips) (b i : Z) : Z := u64 (default 0 (c_redir d !! (b, i))).
(** The bits of [m] from [v], the others from [old]. *)
Definition merge (m v old : Z) : Z := Z.lor (Z.land v m) (Z.land old (Z.lnot m)).

Definition chip_write (a v : Z) (d : chips) : chips :=
  if bool_decide (a ∈ demo_bases) then mkChips (<[a := v]> (c_sel d)) (c_redir d)
  else
    let b := a - 0x10 in
    let r := chip_sel d b - 0x10 in
    let i := r / 2 in
    let old := chip_redir d b i in
    mkChips (c_sel d) (<[(b, i) := if r mod 2 =? 0 then merge LOWMASK v old else merge HIGHMASK (Z.shiftl v 32) old]> (c_redir d)).

Definition chip_read (a : Z) (d : chips) : Z * chips :=
  let b := a - 0x10 in
  let r := chip_sel d b - 0x10 in
  (if chip_sel d b =? 1 then 23 * 2 ^ 16
   else if r mod 2 =? 0 then chip_redir d b (r / 2) mod 2 ^ 32 else chip_redir d b (r / 2) / 2 ^ 32, d).

#[export] Instance demo_mmio : Mmio chips := { mmio_write32 := chip_write; mmio_read32 := chip_read }.

Lemma merge_bit m v old k : 0 ≤ k → Z.testbit (merge m v old) k = if Z.testbit m k then Z.testbit v k else Z.testbit old k.
Proof.
  intros Hk. unfold merge. rewrite Z.lor_spec, !Z.land_spec, Z.lnot_spec by done.
  destruct (Z.testbit m k), (Z.testbit v k), (Z.testbit old k); done.
Qed.

Lemma lowmask_bit k : 0 ≤ k → Z.testbit LOWMASK k = (k <? 32) && negb (chip_bit k).
Proof.
  intros Hk. unfold LOWMASK, chip_bit. rewrite Z.ldiff_spec, Z.lor_spec, !Z.pow2_bits_eqb, (Z.eqb_sym 12), (Z.eqb_sym 14) by lia.
  f_equal. by rewrite Z.testbit_ones_nonneg by lia.
Qed.

Lemma highmask_bit k : 0 ≤ k → Z.testbit HIGHMASK k = (32 <=? k) && (k <? 64).
Proof.
  intros Hk. unfold HIGHMASK. rewrite Z.shiftl_spec by done. destruct (Z.leb_spec 32 k); cbn [andb].
  - rewrite Z.testbit_ones_nonneg by lia. apply eq_true_iff_eq. rewrite !Z.ltb_lt. lia.
  - apply Z.testbit_neg_r. lia.
Qed.

Lemma window_not_base b : b ∈ demo_bases → b + 0x10 ∉ demo_bases.
Proof. unfold demo_bases. rewrite !elem_of_cons, !elem_of_nil. lia. Qed.

Lemma chip_redir_range d b i : in_width 64 (chip_redir d b i).
Proof. apply wrap_range. lia. Qed.

(** A write to the window with entry [i] selected. *)
Lemma chip_write_window d b i (hi : Z) v :
  b ∈ demo_bases → (hi = 0 ∨ hi = 1) → chip_sel d b = 0x10 + 2 * i + hi →
  chip_write (b + 0x10) v d = mkChips (c_sel d) (<[(b, i) := if hi =? 0 then merge LOWMASK v (chip_redir d b i)
    else merge HIGHMASK (Z.shiftl v 32) (chip_redir d b i)]> (c_redir d)).
Proof.
  intros Hb Hhi Hs. unfold chip_write. rewrite bool_decide_false by (by apply window_not_base).
  replace (b + 0x10 - 0x10) with b by lia. cbv zeta. rewrite Hs.
  replace ((0x10 + 2 * i + hi - 0x10) / 2) with i by dlia. replace ((0x10 + 2 * i + hi - 0x10) mod 2) with hi by dlia. done.
Qed.

Lemma chip_read_window d b i (hi : Z) :
  b ∈ demo_bases → (hi = 0 ∨ hi = 1) → 0 ≤ i → chip_sel d b = 0x10 + 2 * i + hi →
  chip_read (b + 0x10) d = (if hi =? 0 then chip_redir d b i mod 2 ^ 32 else chip_redir d b i / 2 ^ 32, d).
Proof.
  intros Hb Hhi Hi Hs. unfold chip_read. replace (b + 0x10 - 0x10) with b by lia. cbv zeta. rewrite Hs.
  rewrite (proj2 (Z.eqb_neq _ 1)) by lia.
  replace ((0x10 + 2 * i + hi - 0x10) / 2) with i by dlia. replace ((0x10 + 2 * i + hi - 0x10) mod 2) with hi by dlia. done.
Qed.

Lemma chip_stored_bit d b i m v k :
  0 ≤ k →
  (∀ k, 64 ≤ k → Z.testbit m k = false) →
  Z.testbit (chip_redir (mkChips (c_sel d) (<[(b, i) := merge m v (chip_redir d b i)]> (c_redir d))) b i) k =
    if Z.testbit m k then Z.testbit v k else Z.testbit (chip_redir d b i) k.
Proof.
  intros Hk Hm. unfold chip_redir at 1. cbn [c_redir]. rewrite lookup_insert_eq. cbn [default from_option id]. unfold wrap.
  destruct (decide (k < 64)); [by rewrite Z.mod_pow2_bits_low, merge_bit by lia|].
  rewrite Z.mod_pow2_bits_high, Hm, (testbit_in_width 64) by (apply chip_redir_range || lia). done.
Qed.

#[export, refine] Instance demo_chips : IoapicDevice chips demo_bases := {
  io_sel := chip_sel; io_ver := λ _ _, 23 * 2 ^ 16; io_redir := chip_redir; io_count := λ _, 24
}.
Proof.
  - intros d b v Hb Hv. simpl. unfold chip_write. rewrite bool_decide_true by done. unfold chip_sel. simpl.
    rewrite lookup_insert_eq. split; [done|]. split; [|done]. intros b' Hne. by rewrite lookup_insert_ne.
  - intros d b Hb Hs. simpl. unfold chip_read. replace (b + 0x10 - 0x10) with b by lia. by rewrite Hs.
  - intros d b i Hb Hi Hs. apply (chip_read_window d b i 0); [done|by left|lia|lia].
  - intros d b i Hb Hi Hs. apply (chip_read_window d b i 1); [done|by right|lia|lia].
  - intros d b i v Hb Hi Hs. simpl. rewrite (chip_write_window d b i 0 v) by (done || lia). cbn [Z.eqb].
    split; [done|]. split; [done|]. split.
    + intros b' j Hne. unfold chip_redir. simpl. by rewrite lookup_insert_ne by congruence.
    + intros k Hk. rewrite chip_stored_bit by (done || intros; rewrite lowmask_bit, (proj2 (Z.ltb_ge _ 32)) by lia; done).
      by rewrite lowmask_bit.
  - intros d b i v Hb Hi Hs. simpl. rewrite (chip_write_window d b i 1 v) by (done || lia). cbn [Z.eqb].
    split; [done|]. split; [done|]. split.
    + intros b' j Hne. unfold chip_redir. simpl. by rewrite lookup_insert_ne by congruence.
    + intros k Hk. rewrite chip_stored_bit by (done || intros; rewrite highmask_bit, (proj2 (Z.ltb_ge _ 64)), andb_false_r by lia; done).
      rewrite highmask_bit by done. destruct (Z.leb_spec 32 k); cbn [andb]; [|done].
      destruct (k <? 64); [|done]. by rewrite Z.shiftl_spec.
  - intros. apply chip_redir_range.
  - done.
  - done.
Defined.

(** * The theorems on it *)

Definition io0 : ioapic_state chips := mkIoapic [] false (mkChips ∅ ∅).
Definition demo_ioapics : list madt_ioapic_info_t := [mkMadtIoapic 1 0xFEC00000 0; mkMadtIoapic 2 0xFEC01000 24].

Lemma demo_madt_ok : Forall (madt_ok (bases := demo_bases) demo_layout) demo_ioapics.
Proof. repeat constructor; try (by compute); apply (bool_decide_unpack _); by vm_compute. Qed.

Lemma x86_ioapic_init_correct_witness :
  wp (x86_ioapic_init demo_layout true demo_ioapics)
    (λ r s', r = true ∧ g_ioapic_ready s' = true ∧ g_ioapic_desc s' = desc_of demo_layout <$> demo_ioapics ∧
       Forall desc_ok (g_ioapic_desc s') ∧
       all_masked ((λ i, pmm_phys_to_virt demo_layout (mi_address i)) <$> demo_ioapics) (io_dev s')) io0.
Proof. apply x86_ioapic_init_correct; [done|done|simpl; unfold MADT_MAX_IOAPICS; lia|apply demo_madt_ok]. Defined.

Definition io1 : ioapic_state chips := mkIoapic (desc_of demo_layout <$> demo_ioapics) true (mkChips ∅ ∅).

Lemma io1_ok : Forall desc_ok (g_ioapic_desc io1).
Proof. apply Forall_fmap. eapply Forall_impl; [exact demo_madt_ok|]. apply desc_of_ok. Qed.

Definition demo_isos : list madt_iso_info_t := [mkMadtIso 0 2 0 0; mkMadtIso 9 25 3 3].

(** Legacy interrupt 9 arrives, active low and level-triggered, on input 25, the
    second of the second controller. *)
Lemma x86_ioapic_route_correct_witness :
  wp (x86_ioapic_route_isa_irq demo_isos 0 9 0x29 false)
    (λ r s', g_ioapic_desc s' = g_ioapic_desc io1 ∧ g_ioapic_ready s' = g_ioapic_ready io1 ∧
       if r then g_ioapic_ready io1 = true ∧ ∃ io i, io ∈ g_ioapic_desc io1 ∧ 25 = io_gsi_base io + i ∧ 0 ≤ i < max_redirs io ∧
         routes (io_redir (io_dev s') (regsel io) i) 0x29 3 3 false 0 ∧
         only_entry (regsel io) i (io_dev io1) (io_dev s')
       else s' = io1 ∧ (g_ioapic_ready io1 = true →
         ∀ io, io ∈ g_ioapic_desc io1 → ¬ (io_gsi_base io ≤ 25 < io_gsi_base io + max_redirs io))) io1.
Proof.
  assert (32 ≤ 0x29 < 256) as Hv by lia.
  exact (x86_ioapic_route_correct demo_isos 0 9 0x29 false io1 io1_ok Hv).
Defined.

Lemma x86_ioapic_mask_correct_witness :
  wp (x86_ioapic_mask_gsi 25 true)
    (λ r s', g_ioapic_desc s' = g_ioapic_desc io1 ∧
       if r then ∃ io i, io ∈ g_ioapic_desc io1 ∧ 25 = io_gsi_base io + i ∧ 0 ≤ i < max_redirs io ∧
         (∀ k, 0 ≤ k < 64 → Z.testbit (io_redir (io_dev s') (regsel io) i) k =
            if k =? 16 then true else Z.testbit (io_redir (io_dev io1) (regsel io) i) k) ∧
         only_entry (regsel io) i (io_dev io1) (io_dev s')
       else s' = io1 ∧ ∀ io, io ∈ g_ioapic_desc io1 → ¬ (io_gsi_base io ≤ 25 < io_gsi_base io + max_redirs io)) io1.
Proof. apply x86_ioapic_mask_correct; [apply io1_ok|done]. Defined.

(** Set-up, then the keyboard's interrupt 1 to vector 0x21, run as a program. *)
Example demo_ioapic_run :
  match (let! _ := x86_ioapic_init demo_layout true demo_ioapics in
         let! r := x86_ioapic_route_isa_irq demo_isos 3 1 0x21 false in
         let! m := x86_ioapic_mask_gsi 1 true in
         let! s := get in ret (r, m, chip_redir (io_dev s) 0xFED00000 0, chip_redir (io_dev s) 0xFED00000 1)) io0 with
  | Ok (x, _) => x = (true, true, 2 ^ 16 + 0x20, 3 * 2 ^ 56 + 2 ^ 16 + 0x21)
  | _ => False
  end.
Proof. by vm_compute. Qed.
