(* ===== verification/Descriptors.v ===== *)
(** Descriptor tables (arch/x86_64/gdt.c, tss.h, idt.c): the segment table, the
    task-state segment and the interrupt gates the processor reads.

    The tables are laid out field by field as the packed structures are; the
    processor's view of them ([seg_base], [gate_offset] and the like) follows the
    architecture manual.  Loading the table registers is recorded in the state. *)

From S2P Require Import Prelude Disk.

(** * gdt.c *)

Definition X86_GDT_CODE_SEGMENT : Z := 0x08.
Definition X86_GDT_DATA_SEGMENT : Z := 0x10.
Definition X86_GDT_TSS_SEGMENT : Z := 0x18.
Definition CPU_GDT_SIZE : Z := 40.
Definition TSS_SIZE : Z := 104.

Definition CODE_READABLE : Z := 0x02.
Definition DATA_WRITEABLE : Z := 0x02.
Definition DATA_SEGMENT : Z := 0x10.
Definition CODE_SEGMENT : Z := 0x18.
Definition RING_ZERO : Z := 0x00.
Definition ACCESS_PRESENT : Z := 0x80.
Definition FLAG_64BIT : Z := 0x20.
Definition GRANULARITY_4K : Z := 0x80.

Definition GDT_LOWER_LIMIT (limit : Z) : Z := Z.land limit 0xFFFF.
Definition GDT_LOWER_BASE (base : Z) : Z := Z.land base 0xFFFF.
Definition GDT_MIDDLE_BASE (base : Z) : Z := Z.land (Z.shiftr base 16) 0xFF.
Definition GDT_FLAGS_LIMIT_HIGH (limit flags : Z) : Z := Z.lor (Z.land (Z.shiftr limit 16) 0x0F) (Z.land flags 0xF0).
Definition GDT_HIGHER_BASE (base : Z) : Z := Z.land (Z.shiftr base 24) 0xFF.

(** The eight bytes of a [gdtEntry]. *)
Definition GDT_ENTRY (base limit access flags : Z) : list Z :=
  le_enc 2 (GDT_LOWER_LIMIT limit) ++ le_enc 2 (GDT_LOWER_BASE base) ++
  [GDT_MIDDLE_BASE base; access; GDT_FLAGS_LIMIT_HIGH limit flags; GDT_HIGHER_BASE base].

(** The sixteen bytes of a [tssDescriptor], for a task-state segment at [tss]. *)
Definition tss_descriptor (tss : Z) : list Z :=
  let limit := TSS_SIZE - 1 in
  le_enc 2 (Z.land limit 0xFFFF) ++ le_enc 2 (Z.land tss 0xFFFF) ++
  [Z.land (Z.shiftr tss 16) 0xFF; 0x89; Z.land (Z.shiftr limit 16) 0x0F; Z.land (Z.shiftr tss 24) 0xFF] ++
  le_enc 4 (Z.land (Z.shiftr tss 32) 0xFFFFFFFF) ++ le_enc 4 0.

(** The parts of [cpu_t] the tables live in, with the registers that point at them. *)
Record desc_state : Type := mkDescState {
  gdt : list Z;
  tss_rsp0 : Z;
  tss_iomap_base : Z;
  gdtr : Z * Z;
  segments : Z * Z;
  task_register : Z
}.

Definition set_gdt (g : list Z) (s : desc_state) : desc_state :=
  mkDescState g (tss_rsp0 s) (tss_iomap_base s) (gdtr s) (segments s) (task_register s).

(** [bs] stored at byte [off] of the table. *)
Definition store_at (off : nat) (bs g : list Z) : list Z := take off g ++ bs ++ drop (off + length bs) g.

Definition gdt_set_tss (tss : Z) : M desc_state unit :=
  modify (λ s, set_gdt (store_at 24 (tss_descriptor tss) (gdt s)) s).

(** [x86_gdt_init_cpu(cpu, rsp0)] for a [cpu] whose table is at [gdt_addr] and whose
    task-state segment is at [tss_addr]. *)
Definition x86_gdt_init_cpu (gdt_addr tss_addr rsp0 : Z) : M desc_state unit :=
  modify (set_gdt (replicate (Z.to_nat CPU_GDT_SIZE) 0));;
  modify (λ s, set_gdt (store_at 0 (GDT_ENTRY 0 0 0 0) (gdt s)) s);;
  modify (λ s, set_gdt (store_at 8 (GDT_ENTRY 0 0
    (Z.lor (Z.lor (Z.lor ACCESS_PRESENT RING_ZERO) CODE_SEGMENT) CODE_READABLE) (Z.lor FLAG_64BIT GRANULARITY_4K)) (gdt s)) s);;
  modify (λ s, set_gdt (store_at 16 (GDT_ENTRY 0 0
    (Z.lor (Z.lor (Z.lor ACCESS_PRESENT RING_ZERO) DATA_SEGMENT) DATA_WRITEABLE) GRANULARITY_4K) (gdt s)) s);;
  modify (λ s, mkDescState (gdt s) rsp0 (u16 TSS_SIZE) (gdtr s) (segments s) (task_register s));;
  gdt_set_tss tss_addr;;
  modify (λ s, mkDescState (gdt s) (tss_rsp0 s) (tss_iomap_base s) (u16 (CPU_GDT_SIZE - 1), gdt_addr)
    (X86_GDT_CODE_SEGMENT, X86_GDT_DATA_SEGMENT) X86_GDT_TSS_SEGMENT).

(** The boot processor's: its current stack is also recorded as [kernel_stack_top],
    the second component of the state. *)
Definition x86_initGDT (gdt_addr tss_addr rsp : Z) : M (desc_state * Z) unit :=
  modify (λ s, (s.1, rsp));;
  zoom fst (λ d s, (d, s.2)) (x86_gdt_init_cpu gdt_addr tss_addr rsp).

(** ** The processor's view *)

Definition segment (sel : Z) (g : list Z) : list Z := drop (Z.to_nat sel) g.
Definition seg_limit (d : list Z) : Z := field 0 2 d + 2 ^ 16 * (byte 6 d mod 16).
Definition seg_base (d : list Z) : Z := field 2 3 d + 2 ^ 24 * byte 7 d.
Definition seg_access (d : list Z) : Z := byte 5 d.
Definition seg_flags (d : list Z) : Z := byte 6 d / 16.
(** A system descriptor has the upper half of its base in the next slot. *)
Definition sys_base (d : list Z) : Z := seg_base d + 2 ^ 32 * field 8 4 d.

(** * idt.c *)

Definition IDT_MAX_DESCRIPTORS : nat := 256.
Definition GDT_OFFSET_KERNEL_CODE : Z := 0x08.

Record idtEntry : Type := mkGate {
  isr_low : Z;
  kernel_cs : Z;
  ist : Z;
  attributes : Z;
  isr_mid : Z;
  isr_high : Z;
  reserved : Z
}.
Definition zero_gate : idtEntry := mkGate 0 0 0 0 0 0 0.

Record idt_state : Type := mkIdt {
  idt : list idtEntry;
  idtr : Z * Z;
  idtr_loaded : Z * Z
}.

Definition idt_set_descriptor (vector isr flags : Z) : M idt_state unit :=
  modify (λ s, mkIdt (<[Z.to_nat vector := mkGate (Z.land isr 0xFFFF) GDT_OFFSET_KERNEL_CODE 0 flags
    (Z.land (Z.shiftr isr 16) 0xFFFF) (Z.land (Z.shiftr isr 32) 0xFFFFFFFF) 0]> (idt s)) (idtr s) (idtr_loaded s)).

Definition idt_load : M idt_state unit := modify (λ s, mkIdt (idt s) (idtr s) (idtr s)).

(** [idt_addr] is [&idt[0]]; [isr_stub_table] is the assembly's table of entry points. *)
Definition idt_init (idt_addr : Z) (isr_stub_table : list Z) : M idt_state unit :=
  modify (λ s, mkIdt (idt s) (u16 (16 * Z.of_nat IDT_MAX_DESCRIPTORS - 1), idt_addr) (idtr_loaded s));;
  for_each IDT_MAX_DESCRIPTORS 0 (λ vector,
    match isr_stub_table !! Z.to_nat vector with
    | None => fault
    | Some isr => idt_set_descriptor (u8 vector) isr 0x8E
    end);;
  modify (λ s, mkIdt (idt s) (idtr s) (idtr s)).

(** Where an interrupt through this gate goes: the entry point, the segment, and
    whether the gate is a present interrupt gate of ring 0 on the current stack. *)
Definition gate_offset (g : idtEntry) : Z := isr_low g + 2 ^ 16 * isr_mid g + 2 ^ 32 * isr_high g.
Definition gate_usable (g : idtEntry) : Prop := attributes g = 0x8E ∧ ist g = 0 ∧ reserved g = 0.

(** * Round trips *)

Lemma le_enc_mod n x : le (le_enc n (x mod 256 ^ Z.of_nat n)) = x mod 256 ^ Z.of_nat n.
Proof. apply le_le_enc. apply Z.mod_pos_bound. apply Z.pow_pos_nonneg; lia. Qed.

Lemma split64 x : in_width 64 x → x mod 2 ^ 16 + 2 ^ 16 * (x / 2 ^ 16 mod 2 ^ 16) + 2 ^ 32 * (x / 2 ^ 32 mod 2 ^ 32) = x.
Proof. unfold in_width. intros. change (2 ^ 16) with 65536. change (2 ^ 32) with 4294967296. change (2 ^ 64) with 18446744073709551616 in *. dlia. Qed.

Lemma gate_roundtrip isr cs i fl r :
  in_width 64 isr →
  gate_offset (mkGate (Z.land isr 0xFFFF) cs i fl (Z.land (Z.shiftr isr 16) 0xFFFF) (Z.land (Z.shiftr isr 32) 0xFFFFFFFF) r) = isr.
Proof.
  intros H. unfold gate_offset. cbn [isr_low isr_mid isr_high].
  change 0xFFFF with (2 ^ 16 - 1). change 0xFFFFFFFF with (2 ^ 32 - 1).
  rewrite !land_field, land_ones_mod by lia. by apply split64.
Qed.

Lemma seg_base_roundtrip base limit access flags rest :
  in_width 32 base → seg_base (GDT_ENTRY base limit access flags ++ rest) = base.
Proof.
  intros Hb. unfold seg_base, GDT_ENTRY, GDT_LOWER_BASE, GDT_MIDDLE_BASE, GDT_HIGHER_BASE.
  set (lo := Z.land base 0xFFFF). set (mid := Z.land (Z.shiftr base 16) 0xFF). set (hi := Z.land (Z.shiftr base 24) 0xFF).
  match goal with |- field 2 3 ?d + _ * byte 7 ?d = _ =>
    change (byte 7 d) with hi; change (field 2 3 d) with (lo mod 256 + 256 * (lo / 256 mod 256 + 256 * (mid + 256 * 0))) end.
  unfold lo, mid, hi. change 0xFFFF with (2 ^ 16 - 1). change 0xFF with (2 ^ 8 - 1).
  rewrite !land_field, land_ones_mod by lia. unfold in_width in *.
  change (2 ^ 16) with 65536. change (2 ^ 24) with 16777216. change (2 ^ 8) with 256. change (2 ^ 32) with 4294967296 in *. dlia.
Qed.

Lemma land_f0 x : Z.land x 0xF0 = Z.shiftl (x / 2 ^ 4 mod 2 ^ 4) 4.
Proof.
  rewrite <- land_field by lia. change 0xF0 with (Z.shiftl (2 ^ 4 - 1) 4). apply Z.bits_inj'. intros k Hk.
  rewrite Z.land_spec, !Z.shiftl_spec, Z.land_spec by lia. destruct (decide (k < 4)).
  - rewrite !(Z.testbit_neg_r _ (k - 4)) by lia. apply andb_false_r.
  - rewrite Z.shiftr_spec by lia. do 2 f_equal. lia.
Qed.

Lemma flags_high_split limit flags :
  in_width 20 limit → in_width 8 flags →
  GDT_FLAGS_LIMIT_HIGH limit flags mod 16 = limit / 2 ^ 16 ∧ GDT_FLAGS_LIMIT_HIGH limit flags / 16 = flags / 16.
Proof.
  intros Hl Hf. unfold GDT_FLAGS_LIMIT_HIGH. change 0x0F with (2 ^ 4 - 1). rewrite land_field, land_f0 by lia.
  rewrite lor_shiftl_add by (lia || apply Z.mod_pos_bound; lia). unfold in_width in *.
  change (2 ^ 16) with 65536. change (2 ^ 4) with 16. change (2 ^ 20) with 1048576 in *. change (2 ^ 8) with 256 in *. dlia.
Qed.

Lemma seg_limit_roundtrip base limit access flags rest :
  in_width 20 limit → in_width 8 flags →
  seg_limit (GDT_ENTRY base limit access flags ++ rest) = limit ∧
  seg_flags (GDT_ENTRY base limit access flags ++ rest) = flags / 16.
Proof.
  intros Hl Hf. destruct (flags_high_split limit flags Hl Hf) as [H1 H2]. unfold seg_limit, seg_flags, GDT_ENTRY.
  set (g := GDT_FLAGS_LIMIT_HIGH limit flags) in *. unfold GDT_LOWER_LIMIT. set (lo := Z.land limit 0xFFFF).
  match goal with |- field 0 2 ?d + _ * (byte 6 ?d mod 16) = _ ∧ _ =>
    change (byte 6 d) with g; change (field 0 2 d) with (lo mod 256 + 256 * (lo / 256 mod 256 + 256 * 0)) end.
  split; [|done]. rewrite H1. unfold lo. change 0xFFFF with (2 ^ 16 - 1). rewrite land_ones_mod by lia. unfold in_width in *.
  change (2 ^ 16) with 65536. change (2 ^ 20) with 1048576 in *. dlia.
Qed.

Lemma tss_roundtrip tss rest :
  in_width 64 tss →
  sys_base (tss_descriptor tss ++ rest) = tss ∧ seg_limit (tss_descriptor tss ++ rest) = 103 ∧ seg_access (tss_descriptor tss ++ rest) = 0x89.
Proof.
  intros Ht. split; [|done]. unfold sys_base, seg_base, tss_descriptor. cbv zeta.
  set (lo := Z.land tss 0xFFFF). set (mid := Z.land (Z.shiftr tss 16) 0xFF). set (hi := Z.land (Z.shiftr tss 24) 0xFF).
  set (up := Z.land (Z.shiftr tss 32) 0xFFFFFFFF).
  match goal with |- field 2 3 ?d + _ * byte 7 ?d + _ * field 8 4 ?d = _ =>
    change (byte 7 d) with hi; change (field 2 3 d) with (lo mod 256 + 256 * (lo / 256 mod 256 + 256 * (mid + 256 * 0)));
    change (field 8 4 d) with (le (le_enc 4 up)) end.
  unfold lo, mid, hi, up. change 0xFFFF with (2 ^ 16 - 1). change 0xFF with (2 ^ 8 - 1). change 0xFFFFFFFF with (2 ^ 32 - 1).
  rewrite !land_field, land_ones_mod by lia.
  rewrite le_le_enc by (change (256 ^ Z.of_nat 4) with (2 ^ 32); apply Z.mod_pos_bound; lia). unfold in_width in *.
  change (2 ^ 16) with 65536. change (2 ^ 24) with 16777216. change (2 ^ 8) with 256. change (2 ^ 32) with 4294967296.
  change (2 ^ 64) with 18446744073709551616 in *. dlia.
Qed.

(** * Properties *)

(** Descriptor encoding: whatever base, limit, access byte and flags are given, the
    processor reads the same values back from the eight bytes. *)
Theorem gdt_entry_roundtrip base limit access flags :
  in_width 32 base → in_width 20 limit → in_width 8 flags →
  let d := GDT_ENTRY base limit access flags in
  length d = 8%nat ∧ seg_base d = base ∧ seg_limit d = limit ∧ seg_access d = access ∧ seg_flags d = flags / 16.
Proof.
  intros Hb Hl Hf d. pose proof (seg_base_roundtrip base limit access flags [] Hb) as H1.
  pose proof (seg_limit_roundtrip base limit access flags [] Hl Hf) as [H2 H3]. rewrite app_nil_r in *. done.
Qed.

(** After [x86_gdt_init_cpu] the three selectors the kernel uses select, within the
    table's limit, a present 64-bit code segment of ring 0, a present writable data
    segment of ring 0, and the available 64-bit task-state segment of this
    processor, whose ring-0 stack is the one given. *)
Theorem x86_gdt_init_cpu_correct gdt_addr tss_addr rsp0 s :
  in_width 64 tss_addr →
  wp (x86_gdt_init_cpu gdt_addr tss_addr rsp0)
    (λ _ s', gdtr s' = (39, gdt_addr) ∧ length (gdt s') = 40%nat ∧ segments s' = (8, 16) ∧ task_register s' = 24 ∧
       take 8 (gdt s') = replicate 8 0 ∧
       (let code := segment 8 (gdt s') in seg_access code = 0x9A ∧ seg_flags code = 0xA) ∧
       (let data := segment 16 (gdt s') in seg_access data = 0x92 ∧ seg_flags data = 0x8) ∧
       (let tss := segment 24 (gdt s') in sys_base tss = tss_addr ∧ seg_limit tss = TSS_SIZE - 1 ∧ seg_access tss = 0x89) ∧
       tss_rsp0 s' = rsp0 ∧ tss_iomap_base s' = TSS_SIZE) s.
Proof.
  intros Ht. unfold x86_gdt_init_cpu, gdt_set_tss. run_steps. cbn [set_gdt gdt tss_rsp0 tss_iomap_base gdtr segments task_register].
  split; [done|]. split; [done|]. do 3 (split; [done|]). split; [done|]. split; [done|]. split; [|done].
  pose proof (tss_roundtrip tss_addr [] Ht) as H. exact H.
Qed.

(** After [idt_init] each of the 256 vectors has a present ring-0 interrupt gate, on
    the kernel code segment, that leads to that vector's own entry point, and the
    register covers exactly the table. *)
Theorem idt_init_correct idt_addr stubs s :
  length (idt s) = IDT_MAX_DESCRIPTORS → length stubs = IDT_MAX_DESCRIPTORS → Forall (in_width 64) stubs →
  wp (idt_init idt_addr stubs)
    (λ _ s', idtr_loaded s' = (4095, idt_addr) ∧ length (idt s') = IDT_MAX_DESCRIPTORS ∧
       ∀ v isr, stubs !! v = Some isr → ∃ g, idt s' !! v = Some g ∧
         gate_offset g = isr ∧ kernel_cs g = X86_GDT_CODE_SEGMENT ∧ gate_usable g) s.
Proof.
  intros Hl Hs Hw. unfold idt_init. do 2 run_step. run_step.
  apply (run_for_each _ _ _ _ (λ j s', idtr s' = (4095, idt_addr) ∧ length (idt s') = IDT_MAX_DESCRIPTORS ∧
    ∀ v isr, (v < j)%nat → stubs !! v = Some isr → ∃ g, idt s' !! v = Some g ∧
         gate_offset g = isr ∧ kernel_cs g = X86_GDT_CODE_SEGMENT ∧ gate_usable g)).
  - split; [done|]. split; [done|]. lia.
  - intros j s' Hj (Hr & Hlen & Hpre). rewrite Z.add_0_l, Nat2Z.id.
    destruct (lookup_lt_is_Some_2 stubs j ltac:(lia)) as [isr Hisr]. rewrite Hisr.
    unfold IDT_MAX_DESCRIPTORS in Hj. rewrite wrap_small by (unfold in_width; lia).
    unfold idt_set_descriptor. run_step. cbn [idt idtr]. rewrite Nat2Z.id, length_insert. split; [done|]. split; [done|].
    intros v isr' Hv Hv'. destruct (decide (v = j)) as [->|].
    + simplify_eq. eexists. split; [apply list_lookup_insert_eq; rewrite Hlen; unfold IDT_MAX_DESCRIPTORS; lia|].
      split; [apply gate_roundtrip; by eapply Forall_lookup_1|]. by split.
    + rewrite list_lookup_insert_ne by done. apply Hpre; [lia|done].
  - intros s' (Hr & Hlen & Hall). run_step. cbn [idt idtr_loaded]. split; [done|]. split; [done|].
    intros v isr Hv. apply Hall; [|done]. apply lookup_lt_Some in Hv. lia.
Qed.

(** * Witnesses *)

Lemma gdt_entry_roundtrip_witness :
  let d := GDT_ENTRY 0x12345678 0xABCDE 0x9A 0xC0 in
  length d = 8%nat ∧ seg_base d = 0x12345678 ∧ seg_limit d = 0xABCDE ∧ seg_access d = 0x9A ∧ seg_flags d = 0xC0 / 16.
Proof. apply (gdt_entry_roundtrip 0x12345678 0xABCDE 0x9A 0xC0); by compute. Defined.

Definition desc0 : desc_state := mkDescState (replicate 40 0) 0 0 (0, 0) (0, 0) 0.

Lemma x86_gdt_init_cpu_correct_witness :
  wp (x86_gdt_init_cpu 0xFFFFFFFF80001000 0xFFFFFFFF80002000 0xFFFF800000010000)
    (λ _ s', gdtr s' = (39, 0xFFFFFFFF80001000) ∧ length (gdt s') = 40%nat ∧ segments s' = (8, 16) ∧ task_register s' = 24 ∧
       take 8 (gdt s') = replicate 8 0 ∧
       (let code := segment 8 (gdt s') in seg_access code = 0x9A ∧ seg_flags code = 0xA) ∧
       (let data := segment 16 (gdt s') in seg_access data = 0x92 ∧ seg_flags data = 0x8) ∧
       (let tss := segment 24 (gdt s') in sys_base tss = 0xFFFFFFFF80002000 ∧ seg_limit tss = TSS_SIZE - 1 ∧ seg_access tss = 0x89) ∧
       tss_rsp0 s' = 0xFFFF800000010000 ∧ tss_iomap_base s' = TSS_SIZE) desc0.
Proof. apply (x86_gdt_init_cpu_correct 0xFFFFFFFF80001000 0xFFFFFFFF80002000 0xFFFF800000010000 desc0). by compute. Defined.

Definition demo_stubs : list Z := (λ i, 0xFFFFFFFF80100000 + 16 * i) <$> seqZ 0 256.
Definition idt0 : idt_state := mkIdt (replicate 256 zero_gate) (0, 0) (0, 0).

Lemma demo_stubs_width : Forall (in_width 64) demo_stubs.
Proof.
  apply Forall_fmap, Forall_forall. intros i Hi. apply elem_of_seqZ in Hi. unfold in_width. simpl.
  change (2 ^ 64) with 18446744073709551616. lia.
Qed.

Lemma idt_init_correct_witness :
  wp (idt_init 0xFFFFFFFF80003000 demo_stubs)
    (λ _ s', idtr_loaded s' = (4095, 0xFFFFFFFF80003000) ∧ length (idt s') = IDT_MAX_DESCRIPTORS ∧
       ∀ v isr, demo_stubs !! v = Some isr → ∃ g, idt s' !! v = Some g ∧
         gate_offset g = isr ∧ kernel_cs g = X86_GDT_CODE_SEGMENT ∧ gate_usable g) idt0.
Proof. apply idt_init_correct; [done|done|apply demo_stubs_width]. Defined.
