(* ===== verification/Devices.v ===== *)
(** Start of the devices (arch_irq_init in arch/x86_64/init.c, ps2_keyboard_init in
    arch/x86_64/drivers/IO/ps2_keyboard.c): the I/O controllers, then the
    keyboard's handler and its route, so that a key press reaches its driver. *)

From S2P Require Import Prelude Boot Pmm Vmalloc VmallocSpec Kmalloc KernMem Percpu Sched SchedSpec SchedDemo Irq IrqSpec IrqDemo Acpi AcpiDemo Ioapic IoapicSpec IoapicDemo.

Record dev_state (Mem D : Type) : Type := mkDev {
  dv_irq : irq_state Mem;
  dv_io : ioapic_state D
}.
Arguments mkDev {Mem D}. Arguments dv_irq {Mem D}. Arguments dv_io {Mem D}.

Section Devices.
Context {Mem : Type} `{!KernelMemory Mem} {D : Type} `{!Mmio D}.
Abbreviation state := (dev_state Mem D).
Implicit Types s : state.

Definition set_dv_irq (x : irq_state Mem) s : state := mkDev x (dv_io s).
Definition set_dv_io (x : ioapic_state D) s : state := mkDev (dv_irq s) x.

Definition ps2_keyboard_init (isos : list madt_iso_info_t) (me : Z) : M state bool :=
  let! ok := zoom dv_irq set_dv_irq (irq_register_handler PS2_KBD_VECTOR (Some ps2_keyboard_irq)) in
  if negb ok then ret false
  else
    let! ok := zoom dv_io set_dv_io (x86_ioapic_route_isa_irq isos me 1 PS2_KBD_VECTOR false) in
    if negb ok then ret false else ret true.

(** Without the final [sti]. *)
Definition arch_irq_init (lay : kernel_layout) (paging_ready : bool) (ioapics : list madt_ioapic_info_t)
    (isos : list madt_iso_info_t) (me : Z) : M state unit :=
  let! ok := zoom dv_io set_dv_io (x86_ioapic_init lay paging_ready ioapics) in
  if negb ok then panic "IOAPIC init failed"
  else
    let! ok := ps2_keyboard_init isos me in
    if negb ok then panic "PS/2 keyboard init failed" else ret tt.

Context {bases : list Z} `{!IoapicDevice D bases}.

(** C26. The path of a key press is complete: after [arch_irq_init], on a machine where some
    controller serves the keyboard's input, that input delivers vector 0x21 to
    this processor, with the polarity and trigger mode of the firmware, every
    other input of every controller is masked, and the handler of vector 0x21 is
    the keyboard driver; no other handler changes. *)
Theorem arch_irq_init_connects_keyboard lay ioapics isos me s :
  let '(gsi, pol, trig) := isa_source isos 1 in
  g_ioapic_ready (dv_io s) = false → (length ioapics ≤ MADT_MAX_IOAPICS)%nat → Forall (madt_ok (D := D) (bases := bases) lay) ioapics →
  Exists (λ i, mi_gsi_base i ≤ gsi < mi_gsi_base i + io_count (D := D) (bases := bases) (pmm_phys_to_virt lay (mi_address i))) ioapics →
  length (g_irq_handlers (dv_irq s)) = 256%nat →
  wp (arch_irq_init lay true ioapics isos me)
    (λ _ s', handler_of (dv_irq s') PS2_KBD_VECTOR = Some ps2_keyboard_irq ∧
       (∀ v, 0 ≤ v → v ≠ PS2_KBD_VECTOR → handler_of (dv_irq s') v = handler_of (dv_irq s) v) ∧
       ∃ io i, io ∈ desc_of (D := D) (bases := bases) lay <$> ioapics ∧ gsi = io_gsi_base io + i ∧
         routes (io_redir (io_dev (dv_io s')) (regsel io) i) PS2_KBD_VECTOR pol trig false me ∧
         ∀ b j, b ∈ (λ i, pmm_phys_to_virt lay (mi_address i)) <$> ioapics → 0 ≤ j < io_count (D := D) (bases := bases) b →
           (b, j) ≠ (regsel io, i) → Z.testbit (io_redir (io_dev (dv_io s')) b j) 16 = true) s.
Proof.
  pose proof (route_spec (D := D) (bases := bases) isos me 1 PS2_KBD_VECTOR false) as Hroute.
  destruct (isa_source isos 1) as [[gsi pol] trig]. intros Hr Hlen Hok Hex Hh.
  unfold arch_irq_init. run_step. apply run_zoom. eapply run_mono.
  { apply (x86_ioapic_init_correct (bases := bases)); [done| |done|done]. intros ->. by apply Exists_nil in Hex. }
  intros ok x (-> & Hrdy & Hdesc & Hds & Hm). cbn [negb]. run_step. unfold ps2_keyboard_init. run_step.
  apply run_zoom. unfold irq_register_handler. rewrite bool_decide_false by done.
  change (PS2_KBD_VECTOR <? 32) with false. cbn [orb]. cbv iota. run_step. run_step. run_step. cbn [negb]. run_step. apply run_zoom.
  eapply run_mono; [apply Hroute; [done|by compute]|]. intros r x' (Hd' & _ & Hres). destruct r; cbn [negb]; run_step; cbn [negb].
  - run_step. cbn [dv_irq dv_io set_dv_irq set_dv_io set_handlers g_irq_handlers].
    destruct Hres as (_ & io & i & Hin & Hgsi & Hi & Hrt & Ho). unfold handler_of. cbn [g_irq_handlers set_handlers].
    split; [rewrite list_lookup_insert_eq; [done|rewrite Hh; vm_compute; lia]|]. split.
    + intros v Hv0 Hv. rewrite list_lookup_insert_ne; [done|]. unfold PS2_KBD_VECTOR in *. lia.
    + exists io, i. rewrite <- Hdesc. split; [done|]. split; [done|]. split; [done|].
      intros b j Hb Hj Hne. rewrite Ho by done. by apply Hm.
  - exfalso. destruct Hres as [_ Hno]. apply Exists_exists in Hex as (i & Hi & Hg).
    apply (Hno Hrdy (desc_of lay i)); [change (desc_of lay i ∈ g_ioapic_desc x); rewrite Hdesc; by apply list_elem_of_fmap_2|exact Hg].
Qed.
End Devices.

(** * A concrete machine *)

Definition demo_dev : dev_state SchedDemo.demo_mem chips := mkDev (demo_irq 0 SCHED_TICK_VECTOR) io0.

Lemma arch_irq_init_connects_keyboard_witness :
  wp (arch_irq_init demo_layout true demo_ioapics demo_isos 4)
    (λ _ s', handler_of (dv_irq s') PS2_KBD_VECTOR = Some ps2_keyboard_irq ∧
       (∀ v, 0 ≤ v → v ≠ PS2_KBD_VECTOR → handler_of (dv_irq s') v = handler_of (dv_irq demo_dev) v) ∧
       ∃ io i, io ∈ desc_of (D := chips) (bases := demo_bases) demo_layout <$> demo_ioapics ∧ 1 = io_gsi_base io + i ∧
         routes (io_redir (io_dev (dv_io s')) (regsel io) i) PS2_KBD_VECTOR 0 0 false 4 ∧
         ∀ b j, b ∈ (λ i, pmm_phys_to_virt demo_layout (mi_address i)) <$> demo_ioapics →
           0 ≤ j < io_count (D := chips) (bases := demo_bases) b →
           (b, j) ≠ (regsel io, i) → Z.testbit (io_redir (io_dev (dv_io s')) b j) 16 = true) demo_dev.
Proof.
  pose proof (arch_irq_init_connects_keyboard (bases := demo_bases) demo_layout demo_ioapics demo_isos 4 demo_dev) as Hthm.
  assert (isa_source demo_isos 1 = (1, 0, 0)) as Hsrc by (vm_compute; reflexivity). rewrite Hsrc in Hthm. apply Hthm.
  - done.
  - simpl. unfold MADT_MAX_IOAPICS. lia.
  - apply demo_madt_ok.
  - left. clear. vm_compute. split; congruence.
  - done.
Defined.
