(* ===== verification/Pci.v ===== *)
(** The PCI bus (arch/x86_64/drivers/block/pci.h, pci.c): access to configuration
    space through the two ports, capability search, enumeration.

    The bus is hardware behind the ports: class [PciPorts] has the accesses, class
    [PciBus] what the specification says of them.  Device nodes live in [pci_mem],
    in regions from vmalloc.  The message that a function is dropped for want of
    memory is recorded in [pci_dropped]. *)

From S2P Require Import Prelude Vmalloc VmallocSpec Kmalloc.

Definition PCI_CONFIG_ADDRESS : Z := 0xCF8.
Definition PCI_CONFIG_DATA : Z := 0xCFC.

Record pci_device_t : Type := mkPciDev {
  bus : Z; device : Z; function : Z;
  vendor_id : Z; device_id : Z;
  command : Z; status : Z;
  class_code : Z; subclass : Z; prog_if : Z; revision : Z;
  header_type : Z;
  irq_pin : Z; irq_line : Z;
  bars : list Z
}.

Record pci_node_t : Type := mkPciNode { pn_dev : pci_device_t; pn_next : Z }.

(** [sizeof(pci_node_t)]: 44 bytes of device, padding, a pointer. *)
Definition PCI_NODE_BYTES : Z := 56.

Class PciPorts (D : Type) : Type := {
  port_outl : Z → Z → D → D;
  port_inl : Z → D → Z * D
}.

Record pci_state (D V : Type) : Type := mkPci {
  pci_hw : D;
  pci_vm : V;
  pci_mem : gmap Z pci_node_t;
  pci_device_list : Z;
  pci_device_count : Z;
  pci_dropped : list (Z * Z * Z)
}.
Arguments mkPci {D V}. Arguments pci_hw {D V}. Arguments pci_vm {D V}. Arguments pci_mem {D V}.
Arguments pci_device_list {D V}. Arguments pci_device_count {D V}. Arguments pci_dropped {D V}.

Section Pci.
Context {D V : Type} `{!PciPorts D, !RegionAllocator V}.
Abbreviation state := (pci_state D V).
Implicit Types s : state.

Definition set_pci_hw (d : D) s : state :=
  mkPci d (pci_vm s) (pci_mem s) (pci_device_list s) (pci_device_count s) (pci_dropped s).
Definition set_pci_vm (v : V) s : state :=
  mkPci (pci_hw s) v (pci_mem s) (pci_device_list s) (pci_device_count s) (pci_dropped s).
Definition drop_function (x : Z * Z * Z) s : state :=
  mkPci (pci_hw s) (pci_vm s) (pci_mem s) (pci_device_list s) (pci_device_count s) (pci_dropped s ++ [x]).

Definition outl_u32 (port value : Z) : M state unit :=
  modify (λ s, set_pci_hw (port_outl port value (pci_hw s)) s).
Definition inl_u32 (port : Z) : M state Z :=
  λ s, let r := port_inl port (pci_hw s) in Ok (r.1, set_pci_hw r.2 s).

(** * Configuration space *)

Definition pci_address (bus device function offset : Z) : Z :=
  Z.lor (Z.lor (Z.lor (Z.lor (Z.shiftl 1 31) (u32 (Z.shiftl bus 16))) (u32 (Z.shiftl device 11)))
    (u32 (Z.shiftl function 8))) (Z.land offset 0xFC).

Definition pci_write32 (bus device function offset value : Z) : M state unit :=
  outl_u32 PCI_CONFIG_ADDRESS (pci_address bus device function offset);;
  outl_u32 PCI_CONFIG_DATA value.

Definition pci_read32 (bus device function offset : Z) : M state Z :=
  outl_u32 PCI_CONFIG_ADDRESS (pci_address bus device function offset);;
  inl_u32 PCI_CONFIG_DATA.

Definition pci_read16 (bus device function offset : Z) : M state Z :=
  let! value := pci_read32 bus device function offset in
  let shift := Z.land offset 2 * 8 in
  ret (Z.land (Z.shiftr value shift) 0xFFFF).

Definition pci_read8 (bus device function offset : Z) : M state Z :=
  let! value := pci_read32 bus device function offset in
  let shift := Z.land offset 3 * 8 in
  ret (Z.land (Z.shiftr value shift) 0xFF).

(** [None] is the null pointer. *)
Definition pci_cfg_read32 (dev : option pci_device_t) (offset : Z) : M state Z :=
  match dev with
  | None => ret 0
  | Some d => pci_read32 (bus d) (device d) (function d) offset
  end.

Definition pci_cfg_read16 (dev : option pci_device_t) (offset : Z) : M state Z :=
  match dev with
  | None => ret 0
  | Some d => pci_read16 (bus d) (device d) (function d) offset
  end.

Definition pci_cfg_read8 (dev : option pci_device_t) (offset : Z) : M state Z :=
  match dev with
  | None => ret 0
  | Some d => pci_read8 (bus d) (device d) (function d) offset
  end.

Definition pci_cfg_write32 (dev : option pci_device_t) (offset value : Z) : M state unit :=
  match dev with
  | None => ret tt
  | Some d => pci_write32 (bus d) (device d) (function d) offset value
  end.

Definition pci_cfg_write16 (dev : option pci_device_t) (offset value : Z) : M state unit :=
  match dev with
  | None => ret tt
  | Some d =>
      let! cur := pci_read32 (bus d) (device d) (function d) offset in
      let shift := Z.land offset 2 * 8 in
      let mask := u32 (Z.shiftl 0xFFFF shift) in
      let next := Z.lor (Z.land cur (lnotw 32 mask)) (u32 (Z.shiftl value shift)) in
      pci_write32 (bus d) (device d) (function d) offset next
  end.

Definition pci_cfg_write8 (dev : option pci_device_t) (offset value : Z) : M state unit :=
  match dev with
  | None => ret tt
  | Some d =>
      let! cur := pci_read32 (bus d) (device d) (function d) offset in
      let shift := Z.land offset 3 * 8 in
      let mask := u32 (Z.shiftl 0xFF shift) in
      let next := Z.lor (Z.land cur (lnotw 32 mask)) (u32 (Z.shiftl value shift)) in
      pci_write32 (bus d) (device d) (function d) offset next
  end.

(** ** Capabilities *)

(** The loop of [pci_find_capability], [n] rounds left. *)
Fixpoint capability_loop (n : nat) (dev : option pci_device_t) (cap_id cap_ptr : Z) : M state (option Z) :=
  match n with
  | O => ret None
  | S n' =>
      if cap_ptr <? 0x40 then ret None
      else
        let! id := pci_cfg_read8 dev (u8 (cap_ptr + 0)) in
        if id =? cap_id then ret (Some cap_ptr)
        else
          let! next := pci_cfg_read8 dev (u8 (cap_ptr + 1)) in
          capability_loop n' dev cap_id next
  end.

(** [Some offset] for [true] with the output parameter set. *)
Definition pci_find_capability (dev : option pci_device_t) (cap_id : Z) : M state (option Z) :=
  match dev with
  | None => ret None
  | Some _ =>
      let! status := pci_cfg_read16 dev 0x06 in
      if Z.land status (Z.shiftl 1 4) =? 0 then ret None
      else
        let! cap_ptr := pci_cfg_read8 dev 0x34 in
        capability_loop 48 dev cap_id cap_ptr
  end.

(** * Enumeration *)

Fixpoint read_bars (n : nat) (bus device function i : Z) : M state (list Z) :=
  match n with
  | O => ret []
  | S n' =>
      let! bar := pci_read32 bus device function (0x10 + i * 4) in
      let! rest := read_bars n' bus device function (i + 1) in
      ret (bar :: rest)
  end.

(** [scan_bus] is the recursive call of [pci_scan_bus]. *)
Definition pci_scan_function (scan_bus : Z → M state unit) (bus device function : Z) : M state unit :=
  let! vendor := pci_read16 bus device function 0x00 in
  if vendor =? 0xFFFF then ret tt
  else
    let! node := zoom pci_vm set_pci_vm (ra_alloc PCI_NODE_BYTES VMALLOC_DEFAULT_FLAGS) in
    if node =? 0 then modify (drop_function (bus, device, function))
    else
      let! device_id := pci_read16 bus device function 0x02 in
      let! command := pci_read16 bus device function 0x04 in
      let! status := pci_read16 bus device function 0x06 in
      let! class_code := pci_read8 bus device function 0x0B in
      let! subclass := pci_read8 bus device function 0x0A in
      let! prog_if := pci_read8 bus device function 0x09 in
      let! revision := pci_read8 bus device function 0x08 in
      let! header_type := pci_read8 bus device function 0x0E in
      let! irq_pin := pci_read8 bus device function 0x3D in
      let! irq_line := pci_read8 bus device function 0x3C in
      let type := Z.land header_type 0x7F in
      let! bars :=
        (if type =? 0x00 then read_bars 6 bus device function 0
         else if type =? 0x01 then
           let! b := read_bars 2 bus device function 0 in
           let! secondary_bus := pci_read8 bus device function 0x19 in
           (if negb (secondary_bus =? 0) then scan_bus secondary_bus else ret tt);;
           ret (b ++ replicate 4 0)
         else ret (replicate 6 0)) in
      let dev := mkPciDev bus device function vendor device_id command status class_code subclass prog_if revision
                   header_type irq_pin irq_line bars in
      modify (λ s, mkPci (pci_hw s) (pci_vm s) (<[node := mkPciNode dev (pci_device_list s)]> (pci_mem s)) node
                     (u64 (pci_device_count s + 1)) (pci_dropped s)).

Definition pci_scan_device (scan_bus : Z → M state unit) (bus device : Z) : M state unit :=
  let! vendor := pci_read16 bus device 0 0x00 in
  if vendor =? 0xFFFF then ret tt
  else
    let! header_type := pci_read8 bus device 0 0x0E in
    pci_scan_function scan_bus bus device 0;;
    if negb (Z.land header_type 0x80 =? 0) then
      for_each 7 1 (λ fn, pci_scan_function scan_bus bus device fn)
    else ret tt.

(** [depth] bounds the nesting of bridges; the stack has no such bound. *)
Fixpoint pci_scan_bus (depth : nat) (bus : Z) : M state unit :=
  for_each 32 0 (λ dev,
    pci_scan_device (match depth with O => λ _ _, Hang | S depth' => pci_scan_bus depth' end) bus dev).

Definition pci_enumerate (depth : nat) : M state unit := pci_scan_bus depth 0.

(** ** The list of devices *)

Definition pci_node (a : Z) : M state pci_node_t :=
  λ s, match pci_mem s !! a with Some n => Ok (n, s) | None => Fault end.

Fixpoint find_node (fuel : nat) (a : Z) (want : pci_device_t → bool) : M state (option pci_device_t) :=
  if a =? 0 then ret None
  else match fuel with
       | O => λ _, Hang
       | S fuel' =>
           let! n := pci_node a in
           if want (pn_dev n) then ret (Some (pn_dev n)) else find_node fuel' (pn_next n) want
       end.

Definition pci_find_by_class (class sub : Z) : M state (option pci_device_t) :=
  let! s := get in
  find_node (size (pci_mem s)) (pci_device_list s) (λ d, (class_code d =? class) && (subclass d =? sub)).

Definition pci_find_by_id (vendor dev_id : Z) : M state (option pci_device_t) :=
  let! s := get in
  find_node (size (pci_mem s)) (pci_device_list s) (λ d, (vendor_id d =? vendor) && (device_id d =? dev_id)).
End Pci.

(** * The bus *)

(** [pci_sel] is the latched address, [pci_cfg] the double words of configuration
    space by address, [pci_accept] what a register makes of a write. *)
Class PciBus (D : Type) `{!PciPorts D} : Type := {
  pci_sel : D → Z;
  pci_cfg : D → Z → Z;
  pci_accept : Z → Z → Z → Z;
  pci_select d a : Z.testbit a 31 = true →
    let d' := port_outl PCI_CONFIG_ADDRESS a d in pci_sel d' = a ∧ pci_cfg d' = pci_cfg d;
  pci_read d : Z.testbit (pci_sel d) 31 = true → port_inl PCI_CONFIG_DATA d = (pci_cfg d (pci_sel d), d);
  pci_write d v : Z.testbit (pci_sel d) 31 = true → in_width 32 v →
    let d' := port_outl PCI_CONFIG_DATA v d in
    pci_sel d' = pci_sel d ∧
    ∀ a, pci_cfg d' a = if bool_decide (a = pci_sel d) then pci_accept a (pci_cfg d a) v else pci_cfg d a;
  pci_cfg_range d a : in_width 32 (pci_cfg d a)
}.
