(* ===== verification/PciSpec.v ===== *)
(** The PCI bus: accesses against configuration space seen as 256 bytes for each
    function, the search for a capability, and enumeration against the set of
    functions that can be reached from bus 0. *)

From S2P Require Import Prelude Vmalloc VmallocSpec Kmalloc Pci.

(** * Configuration space *)

Definition valid_bdf (b d f : Z) : Prop := in_width 8 b ∧ in_width 5 d ∧ in_width 3 f.

(** The bytes of a function's configuration space, given its double words. *)
Definition cfg_byte (cfg : Z → Z) (b d f i : Z) : Z := cfg (pci_address b d f i) / 2 ^ (8 * (i mod 4)) mod 256.
Definition cfg_word (cfg : Z → Z) (b d f i : Z) : Z := cfg_byte cfg b d f i + 256 * cfg_byte cfg b d f (i + 1).
Definition cfg_dword (cfg : Z → Z) (b d f i : Z) : Z := cfg_word cfg b d f i + 65536 * cfg_word cfg b d f (i + 2).

Lemma pci_address_eq b d f off :
  valid_bdf b d f → in_width 8 off →
  pci_address b d f off = off / 4 * 4 + f * 2 ^ 8 + d * 2 ^ 11 + b * 2 ^ 16 + 1 * 2 ^ 31.
Proof.
  intros (Hb & Hd & Hf) Ho. unfold in_width in *. change (2 ^ 8) with 256 in *. change (2 ^ 5) with 32 in *.
  change (2 ^ 3) with 8 in *. unfold pci_address. rewrite !Z.shiftl_mul_pow2 by lia.
  rewrite !wrap_small by (unfold in_width; change (2 ^ 16) with 65536; change (2 ^ 11) with 2048; change (2 ^ 8) with 256;
    change (2 ^ 32) with 4294967296; lia).
  assert (Z.land off 0xFC = off / 4 * 4) as ->.
  { change 0xFC with (Z.land 0xFF (lnotw 64 (2 ^ 2 - 1))). rewrite Z.land_assoc, land_clear_low; [| |lia].
    - change 0xFF with (2 ^ 8 - 1). rewrite land_ones_mod by lia. change (2 ^ 8) with 256. change (2 ^ 2) with 4. dlia.
    - change 0xFF with (2 ^ 8 - 1). rewrite land_ones_mod by lia. unfold in_width. change (2 ^ 8) with 256. dlia. }
  rewrite <- !Z.lor_assoc. rewrite <- !(Z.shiftl_mul_pow2) by lia.
  rewrite (Z.lor_comm (Z.shiftl f 8)), (Z.lor_comm (Z.shiftl d 11)), (Z.lor_comm (Z.shiftl b 16)), (Z.lor_comm (Z.shiftl 1 31)).
  rewrite (lor_shiftl_add _ f) by (unfold in_width; change (2 ^ 8) with 256; dlia).
  rewrite (lor_shiftl_add _ d) by (unfold in_width; change (2 ^ 8) with 256; change (2 ^ 11) with 2048; dlia).
  rewrite (lor_shiftl_add _ b) by (unfold in_width; change (2 ^ 8) with 256; change (2 ^ 11) with 2048;
    change (2 ^ 16) with 65536; dlia).
  rewrite (lor_shiftl_add _ 1) by (unfold in_width; change (2 ^ 8) with 256; change (2 ^ 11) with 2048;
    change (2 ^ 16) with 65536; change (2 ^ 31) with 2147483648; dlia).
  rewrite !Z.shiftl_mul_pow2 by lia. lia.
Qed.

Ltac pow_consts :=
  change (2 ^ 3) with 8 in *; change (2 ^ 5) with 32 in *; change (2 ^ 8) with 256 in *; change (2 ^ 11) with 2048 in *;
  change (2 ^ 16) with 65536 in *; change (2 ^ 31) with 2147483648 in *; change (2 ^ 32) with 4294967296 in *.

Lemma pci_address_enabled b d f off :
  valid_bdf b d f → in_width 8 off → Z.testbit (pci_address b d f off) 31 = true.
Proof.
  intros Hv Ho. rewrite pci_address_eq by done. destruct Hv as (Hb & Hd & Hf). unfold in_width in *.
  rewrite Z.testbit_true by lia. pow_consts.
  replace ((off / 4 * 4 + f * 256 + d * 2048 + b * 65536 + 1 * 2147483648) / 2147483648) with 1 by dlia. done.
Qed.

(** Distinct double words have distinct addresses. *)
Lemma pci_address_inj b d f off b' d' f' off' :
  valid_bdf b d f → in_width 8 off → valid_bdf b' d' f' → in_width 8 off' →
  pci_address b d f off = pci_address b' d' f' off' → b = b' ∧ d = d' ∧ f = f' ∧ off / 4 = off' / 4.
Proof.
  intros Hv Ho Hv' Ho'. rewrite !pci_address_eq by done. destruct Hv as (Hb & Hd & Hf). destruct Hv' as (Hb' & Hd' & Hf').
  unfold in_width in *. pow_consts. dlia.
Qed.

Lemma pci_address_block b d f off off' :
  valid_bdf b d f → in_width 8 off → in_width 8 off' → off / 4 = off' / 4 →
  pci_address b d f off = pci_address b d f off'.
Proof. intros Hv Ho Ho' He. by rewrite !pci_address_eq, He by done. Qed.

(** Bytes of a double word. *)
Lemma word_bytes x k : 0 ≤ k → x / 2 ^ (8 * k) mod 65536 = x / 2 ^ (8 * k) mod 256 + 256 * (x / 2 ^ (8 * (k + 1)) mod 256).
Proof.
  intros. replace (8 * (k + 1)) with (8 * k + 8) by lia. rewrite Z.pow_add_r, <- Z.div_div by lia.
  change (2 ^ 8) with 256. set (y := x / 2 ^ (8 * k)). dlia.
Qed.

Lemma cfg_byte_range cfg b d f i : in_width 8 (cfg_byte cfg b d f i).
Proof. unfold cfg_byte, in_width. change (2 ^ 8) with 256. apply Z.mod_pos_bound. lia. Qed.

Lemma cfg_word_at cfg b d f off :
  valid_bdf b d f → in_width 8 off → off mod 2 = 0 →
  cfg (pci_address b d f off) / 2 ^ (8 * (off mod 4)) mod 65536 = cfg_word cfg b d f off.
Proof.
  intros Hv Ho He. unfold cfg_word, cfg_byte. unfold in_width in Ho. pow_consts.
  rewrite (pci_address_block b d f (off + 1) off); [|done|unfold in_width; pow_consts; dlia..].
  rewrite word_bytes by dlia. do 6 f_equal. dlia.
Qed.

Lemma cfg_dword_at cfg b d f off :
  valid_bdf b d f → in_width 8 off → off mod 4 = 0 → in_width 32 (cfg (pci_address b d f off)) →
  cfg (pci_address b d f off) = cfg_dword cfg b d f off.
Proof.
  intros Hv Ho He Hc. unfold cfg_dword. unfold in_width in Ho. pow_consts.
  rewrite <- !cfg_word_at by (try done; unfold in_width; pow_consts; dlia).
  rewrite (pci_address_block b d f (off + 2) off); [|done|unfold in_width; pow_consts; dlia..].
  replace ((off + 2) mod 4) with 2 by dlia. rewrite He. change (2 ^ (8 * 0)) with 1. change (2 ^ (8 * 2)) with 65536.
  unfold in_width in Hc. pow_consts. dlia.
Qed.

(** [n] bits at position [k] of a double word replaced. *)
Definition merged (cur v k n : Z) : Z :=
  Z.lor (Z.land cur (lnotw 32 (u32 (Z.shiftl (2 ^ n - 1) k)))) (u32 (Z.shiftl v k)).

Lemma merged_testbit cur v k n i :
  0 ≤ k → 0 ≤ n → k + n ≤ 32 → in_width 32 cur → in_width n v → 0 ≤ i →
  Z.testbit (merged cur v k n) i = if bool_decide (k ≤ i < k + n) then Z.testbit v (i - k) else Z.testbit cur i.
Proof.
  intros Hk Hn Hkn Hc Hv Hi. unfold merged, lnotw, wrap. rewrite Z.lor_spec, Z.land_spec.
  replace (2 ^ n - 1) with (Z.ones n) by (rewrite Z.ones_equiv; lia).
  destruct (decide (i < 32)).
  2: { rewrite bool_decide_eq_false_2 by lia. rewrite !(Z.mod_pow2_bits_high _ 32), andb_false_r by lia.
    by rewrite (testbit_in_width 32) by (done || lia). }
  rewrite !(Z.mod_pow2_bits_low _ 32), Z.lnot_spec, !(Z.mod_pow2_bits_low _ 32), !Z.shiftl_spec by lia.
  case_bool_decide as Hin.
  - rewrite Z.ones_spec_low by lia. by rewrite andb_false_r.
  - assert (Z.testbit (Z.ones n) (i - k) = false ∧ Z.testbit v (i - k) = false) as [-> ->].
    { destruct (decide (i < k)); [by rewrite !Z.testbit_neg_r by lia|].
      by rewrite Z.ones_spec_high, (testbit_in_width n v) by (done || lia). }
    by rewrite andb_true_r, orb_false_r.
Qed.

Lemma merged_range cur v k n :
  0 ≤ k → 0 ≤ n → k + n ≤ 32 → in_width 32 cur → in_width n v → in_width 32 (merged cur v k n).
Proof.
  intros Hk Hn Hkn Hc Hv. apply width_of_bits; [lia|]. intros i Hi. rewrite merged_testbit by (done || lia).
  rewrite bool_decide_eq_false_2 by lia. by apply (testbit_in_width 32); [|lia].
Qed.

Lemma byte_testbit x a i : 0 ≤ a → 0 ≤ i → Z.testbit (x / 2 ^ a mod 256) i = bool_decide (i < 8) && Z.testbit x (i + a).
Proof.
  intros Ha Hi. change 256 with (2 ^ 8). case_bool_decide.
  - by rewrite Z.mod_pow2_bits_low, <- Z.shiftr_div_pow2, Z.shiftr_spec by lia.
  - by rewrite Z.mod_pow2_bits_high by lia.
Qed.

(** The bytes of the merged double word: [n] bytes from byte [k] on are those of [v]. *)
Lemma merged_byte cur v k n j :
  0 ≤ k → 0 ≤ n → k + n ≤ 4 → in_width 32 cur → in_width (8 * n) v → 0 ≤ j →
  merged cur v (8 * k) (8 * n) / 2 ^ (8 * j) mod 256 =
  if bool_decide (k ≤ j < k + n) then v / 2 ^ (8 * (j - k)) mod 256 else cur / 2 ^ (8 * j) mod 256.
Proof.
  intros Hk Hn Hkn Hc Hv Hj. apply Z.bits_inj'. intros i Hi. rewrite byte_testbit by lia.
  destruct (decide (i < 8)).
  - rewrite (bool_decide_eq_true_2 (i < 8)), merged_testbit by (done || lia). cbn [andb].
    case_bool_decide as H1; case_bool_decide as H2; try lia; rewrite byte_testbit, (bool_decide_eq_true_2 (i < 8)) by lia; cbn [andb].
    + f_equal. lia.
    + done.
  - rewrite (bool_decide_eq_false_2 (i < 8)) by lia. case_bool_decide; by rewrite byte_testbit, (bool_decide_eq_false_2 (i < 8)) by lia.
Qed.

Section Access.
Context {D V : Type} `{!PciPorts D, !PciBus D, !RegionAllocator V}.
Implicit Types s : pci_state D V.
Abbreviation cfg_of s := (pci_cfg (pci_hw s)).

(** A read leaves all but the address latch. *)
Lemma run_pci_read32 E b d f off (Q : Z → pci_state D V → Prop) s :
  valid_bdf b d f → in_width 8 off →
  (∀ h, pci_cfg h = cfg_of s → Q (cfg_of s (pci_address b d f off)) (set_pci_hw h s)) →
  run E (pci_read32 b d f off) Q s.
Proof.
  intros Hv Ho HQ. pose proof (pci_address_enabled _ _ _ _ Hv Ho) as Ha.
  destruct (pci_select (pci_hw s) _ Ha) as [Hs Hc]. unfold pci_read32, outl_u32, inl_u32, run, bind, modify. cbn.
  rewrite pci_read by (by rewrite Hs). cbn [fst snd]. rewrite Hs, Hc. by apply HQ.
Qed.

Lemma run_pci_write32 E b d f off v (Q : unit → pci_state D V → Prop) s :
  valid_bdf b d f → in_width 8 off → in_width 32 v →
  (∀ h, (∀ a, pci_cfg h a = if bool_decide (a = pci_address b d f off) then pci_accept a (cfg_of s a) v else cfg_of s a) →
    Q tt (set_pci_hw h s)) →
  run E (pci_write32 b d f off v) Q s.
Proof.
  intros Hv Ho Hw HQ. pose proof (pci_address_enabled _ _ _ _ Hv Ho) as Ha.
  destruct (pci_select (pci_hw s) _ Ha) as [Hs Hc]. unfold pci_write32, outl_u32, run, bind, modify. cbn.
  apply HQ. intros a. destruct (pci_write (port_outl PCI_CONFIG_ADDRESS (pci_address b d f off) (pci_hw s)) v) as [_ Hw'];
    [by rewrite Hs|done|]. by rewrite Hw', Hs, Hc.
Qed.

Lemma land_off_3 off : Z.land off 3 * 8 = 8 * (off mod 4).
Proof. change 3 with (2 ^ 2 - 1). rewrite land_ones_mod by lia. change (2 ^ 2) with 4. lia. Qed.

Lemma land_off_2 off : off mod 2 = 0 → Z.land off 2 * 8 = 8 * (off mod 4).
Proof.
  intros He. assert (Z.land off 2 = Z.land off 3) as ->; [|apply land_off_3].
  apply Z.bits_inj'. intros i Hi. rewrite !Z.land_spec. destruct (decide (i = 0)) as [->|].
  - rewrite <- Z.bit0_mod in He. destruct (Z.testbit off 0); [done|]. done.
  - f_equal. change 2 with (2 ^ 1). change 3 with (Z.lor (2 ^ 0) (2 ^ 1)). rewrite Z.lor_spec, (Z.pow2_bits_false 0) by lia. done.
Qed.

Lemma run_pci_read16 E b d f off (Q : Z → pci_state D V → Prop) s :
  valid_bdf b d f → in_width 8 off → off mod 2 = 0 →
  (∀ h, pci_cfg h = cfg_of s → Q (cfg_word (cfg_of s) b d f off) (set_pci_hw h s)) →
  run E (pci_read16 b d f off) Q s.
Proof.
  intros Hv Ho He HQ. unfold pci_read16. run_step. apply run_pci_read32; [done..|]. intros h Hh. cbv zeta. run_step.
  change 0xFFFF with (2 ^ 16 - 1). rewrite land_off_2, land_field by dlia. change (2 ^ 16) with 65536.
  rewrite cfg_word_at by done. by apply HQ.
Qed.

Lemma run_pci_read8 E b d f off (Q : Z → pci_state D V → Prop) s :
  valid_bdf b d f → in_width 8 off →
  (∀ h, pci_cfg h = cfg_of s → Q (cfg_byte (cfg_of s) b d f off) (set_pci_hw h s)) →
  run E (pci_read8 b d f off) Q s.
Proof.
  intros Hv Ho HQ. unfold pci_read8. run_step. apply run_pci_read32; [done..|]. intros h Hh. cbv zeta. run_step.
  change 0xFF with (2 ^ 8 - 1). rewrite land_off_3, land_field by dlia. by apply HQ.
Qed.
Definition on_bus (dv : pci_device_t) : Prop := valid_bdf (bus dv) (device dv) (function dv).

(** All that a write of [n] bytes at [off] does when the register takes what is
    written: the bytes there become those of [v], every other byte of every
    function stays, and so does all of the kernel's state. *)
Definition wrote (dv : pci_device_t) (off n v : Z) s s' : Prop :=
  s' = set_pci_hw (pci_hw s') s ∧
  ∀ b d f i, valid_bdf b d f → in_width 8 i →
    cfg_byte (cfg_of s') b d f i =
    if bool_decide ((b, d, f) = (bus dv, device dv, function dv) ∧ off ≤ i < off + n)
    then v / 2 ^ (8 * (i - off)) mod 256 else cfg_byte (cfg_of s) b d f i.

Lemma wrote_merged dv off n v s h :
  on_bus dv → in_width 8 off → 0 ≤ n → off mod 4 + n ≤ 4 → in_width (8 * n) v →
  (∀ a, pci_cfg h a = if bool_decide (a = pci_address (bus dv) (device dv) (function dv) off)
     then merged (cfg_of s (pci_address (bus dv) (device dv) (function dv) off)) v (8 * (off mod 4)) (8 * n) else cfg_of s a) →
  wrote dv off n v s (set_pci_hw h s).
Proof.
  intros Hb Ho Hn Hin Hv Hh. split; [done|]. intros b d f i Hval Hi. unfold cfg_byte. cbn [pci_hw set_pci_hw]. rewrite Hh.
  case_bool_decide as Ha.
  - apply pci_address_inj in Ha as (-> & -> & -> & He); [|done..].
    rewrite merged_byte by (try done; try apply pci_cfg_range; dlia).
    rewrite (bool_decide_ext _ ((bus dv, device dv, function dv) = (bus dv, device dv, function dv) ∧ off ≤ i < off + n))
      by (split; [intros; split; [done|dlia]|intros [_ ?]; dlia]).
    case_bool_decide; [do 4 f_equal; dlia|]. do 2 f_equal. by rewrite (pci_address_block _ _ _ i off).
  - rewrite bool_decide_eq_false_2; [done|]. intros [Heq ?]. injection Heq as -> -> ->. apply Ha.
    apply pci_address_block; try done. dlia.
Qed.

Lemma pci_cfg_write16_spec E dv off v s :
  on_bus dv → in_width 8 off → off mod 2 = 0 → in_width 16 v →
  (∀ cur x, in_width 32 x → pci_accept (pci_address (bus dv) (device dv) (function dv) off) cur x = x) →
  run E (pci_cfg_write16 (Some dv) off v) (λ _ s', wrote dv off 2 v s s') s.
Proof.
  intros Hb Ho He Hv Hacc. cbn [pci_cfg_write16]. run_step. apply run_pci_read32; [done..|]. intros h Hh.
  cbv zeta. rewrite land_off_2 by done. set (cur := cfg_of s _).
  assert (in_width 32 (merged cur v (8 * (off mod 4)) (8 * 2))) as Hm
    by (apply merged_range; [dlia|lia|dlia|apply pci_cfg_range|done]).
  apply run_pci_write32; [done..|]. intros h' Hh'.
  apply (wrote_merged _ _ _ _ s h'); [done..|lia|dlia|done|]. intros a. rewrite Hh'. cbn [pci_hw set_pci_hw]. rewrite Hh.
  case_bool_decide as Ha; [|done]. by rewrite Ha, Hacc.
Qed.

Lemma pci_cfg_write8_spec E dv off v s :
  on_bus dv → in_width 8 off → in_width 8 v →
  (∀ cur x, in_width 32 x → pci_accept (pci_address (bus dv) (device dv) (function dv) off) cur x = x) →
  run E (pci_cfg_write8 (Some dv) off v) (λ _ s', wrote dv off 1 v s s') s.
Proof.
  intros Hb Ho Hv Hacc. cbn [pci_cfg_write8]. run_step. apply run_pci_read32; [done..|]. intros h Hh.
  cbv zeta. rewrite land_off_3. set (cur := cfg_of s _).
  assert (in_width 32 (merged cur v (8 * (off mod 4)) (8 * 1))) as Hm
    by (apply merged_range; [dlia|lia|dlia|apply pci_cfg_range|done]).
  apply run_pci_write32; [done..|]. intros h' Hh'.
  apply (wrote_merged _ _ _ _ s h'); [done..|lia|dlia|done|]. intros a. rewrite Hh'. cbn [pci_hw set_pci_hw]. rewrite Hh.
  case_bool_decide as Ha; [|done]. by rewrite Ha, Hacc.
Qed.
End Access.

(** * Capabilities *)

Section Caps.
Context (cfg : Z → Z) (dv : pci_device_t).
Abbreviation byte := (cfg_byte cfg (bus dv) (device dv) (function dv)).

(** The linked list in configuration space: it starts at the pointer in byte
    0x34 and goes on until a pointer into the header. *)
Inductive cap_on_list : Z → Prop :=
  | cap_first : 0x40 ≤ byte 0x34 → cap_on_list (byte 0x34)
  | cap_more p : cap_on_list p → 0x40 ≤ byte (p + 1) → cap_on_list (byte (p + 1)).

Fixpoint cap_ptr (k : nat) : Z := match k with O => byte 0x34 | S k' => byte (cap_ptr k' + 1) end.

Lemma cap_on_list_ptr p : cap_on_list p ↔ ∃ k, p = cap_ptr k ∧ ∀ i, (i ≤ k)%nat → 0x40 ≤ cap_ptr i.
Proof.
  split.
  - induction 1 as [H|p _ (k & -> & Hk) H].
    + exists 0%nat. split; [done|]. intros i Hi. by replace i with 0%nat by lia.
    + exists (S k). split; [done|]. intros i Hi. destruct (decide (i = S k)) as [->|]; [done|]. apply Hk. lia.
  - intros (k & -> & Hk). induction k as [|k IH]; [apply cap_first, (Hk 0%nat); lia|].
    cbn [cap_ptr]. apply cap_more; [|by apply (Hk (S k))]. apply IH. intros i Hi. apply Hk. lia.
Qed.

Lemma cap_ptr_shift i i' m : cap_ptr i = cap_ptr i' → cap_ptr (i + m) = cap_ptr (i' + m).
Proof. intros H. induction m as [|m IH]; [by rewrite !Nat.add_0_r|]. rewrite !Nat.add_succ_r. cbn [cap_ptr]. by rewrite IH. Qed.

Lemma cap_ptr_range k : in_width 8 (cap_ptr k).
Proof. destruct k; apply cfg_byte_range. Qed.

(** There is room for 48 capabilities: one that is on the list at all is among
    the first 48, on a list that runs in a circle too. *)
Lemma cap_within_48 id p :
  (∀ q, cap_on_list q → q mod 4 = 0) → cap_on_list p → byte p = id →
  ∃ k, (k < 48)%nat ∧ byte (cap_ptr k) = id ∧ ∀ i, (i ≤ k)%nat → 0x40 ≤ cap_ptr i.
Proof.
  intros Hal (k & -> & Hk)%cap_on_list_ptr Hid. revert Hk Hid. induction (lt_wf k) as [k _ IH]. intros Hk Hid.
  destruct (decide (k < 48)%nat); [by exists k|].
  destruct (decide (Exists (λ j, byte (cap_ptr j) = id) (seq 0 k))) as [Hex|Hno].
  { apply Exists_exists in Hex as (j & Hj & Hid'). apply elem_of_seq in Hj. apply (IH j); [lia| |done].
    intros i Hi. apply Hk. lia. }
  exfalso. assert (NoDup (cap_ptr <$> seq 0 (S k))) as Hnd.
  { apply NoDup_fmap_2_strong; [|apply NoDup_seq].
    assert (∀ i i', (i < i' ≤ k)%nat → cap_ptr i ≠ cap_ptr i') as Hd.
    { intros i i' Hi Heq. apply Hno, Exists_exists. exists (i + (k - i'))%nat. split; [apply elem_of_seq; lia|].
      rewrite (cap_ptr_shift _ _ _ Heq). by replace (i' + (k - i'))%nat with k by lia. }
    intros i i' Hi Hi' Heq. apply elem_of_seq in Hi, Hi'. destruct (decide (i < i')%nat); [by destruct (Hd i i'); [lia|]|].
    destruct (decide (i' < i)%nat); [by destruct (Hd i' i); [lia|]|lia]. }
  assert (cap_ptr <$> seq 0 (S k) ⊆+ (λ j, 64 + 4 * Z.of_nat j) <$> seq 0 48) as Hsub.
  { apply NoDup_submseteq; [done|]. intros x (i & -> & Hi)%list_elem_of_fmap. apply elem_of_seq in Hi.
    assert (cap_on_list (cap_ptr i)) as Hol by (apply cap_on_list_ptr; exists i; split; [done|]; intros i' ?; apply Hk; lia).
    pose proof (Hal _ Hol). pose proof (Hk i ltac:(lia)). pose proof (cap_ptr_range i). unfold in_width in *. pow_consts.
    apply list_elem_of_fmap. exists (Z.to_nat ((cap_ptr i - 64) / 4)). rewrite elem_of_seq. split; dlia. }
  apply submseteq_length in Hsub. rewrite !length_fmap, !length_seq in Hsub. lia.
Qed.
End Caps.

Section Find.
Context {D V : Type} `{!PciPorts D, !PciBus D, !RegionAllocator V}.
Implicit Types s : pci_state D V.
Abbreviation cfg_of s := (pci_cfg (pci_hw s)).

(** Only the address latch differs. *)
Definition same_but_latch s s' : Prop := s' = set_pci_hw (pci_hw s') s ∧ cfg_of s' = cfg_of s.

Lemma same_but_latch_refl s : same_but_latch s s.
Proof. by destruct s. Qed.

Lemma same_but_latch_read s h : pci_cfg h = cfg_of s → same_but_latch s (set_pci_hw h s).
Proof. by split. Qed.

Lemma same_but_latch_trans s1 s2 s3 : same_but_latch s1 s2 → same_but_latch s2 s3 → same_but_latch s1 s3.
Proof. intros [H1 H2] [H3 H4]. split; [by rewrite H3, H1|congruence]. Qed.

Lemma capability_loop_spec dv cfg id n k s :
  on_bus dv → (∀ q, cap_on_list cfg dv q → q mod 4 = 0) → cfg_of s = cfg → (n + k = 48)%nat →
  (∀ i, (i < k)%nat → 0x40 ≤ cap_ptr cfg dv i ∧ cfg_byte cfg (bus dv) (device dv) (function dv) (cap_ptr cfg dv i) ≠ id) →
  wp (capability_loop n (Some dv) id (cap_ptr cfg dv k)) (λ r s', same_but_latch s s' ∧
    match r with
    | Some p => cap_on_list cfg dv p ∧ cfg_byte cfg (bus dv) (device dv) (function dv) p = id
    | None => ∀ p, cap_on_list cfg dv p → cfg_byte cfg (bus dv) (device dv) (function dv) p ≠ id
    end) s.
Proof.
  intros Hb Hal. revert k s. induction n as [|n IH]; intros k s Hc Hnk Hpre; cbn [capability_loop].
  { run_step. split; [apply same_but_latch_refl|]. intros p Hp Hid. destruct (cap_within_48 cfg dv id p Hal Hp Hid) as (j & Hj & Hjd & _).
    by apply (Hpre j); [lia|]. }
  destruct (Z.ltb_spec (cap_ptr cfg dv k) 0x40) as [Hlt|Hge].
  { run_step. split; [apply same_but_latch_refl|]. intros p (j & -> & Hj)%cap_on_list_ptr Hid.
    destruct (decide (j < k)%nat); [by apply (Hpre j)|]. specialize (Hj k). lia. }
  assert (cap_on_list cfg dv (cap_ptr cfg dv k)) as Hol.
  { apply cap_on_list_ptr. exists k. split; [done|]. intros i Hi. destruct (decide (i = k)) as [->|]; [done|]. apply Hpre. lia. }
  pose proof (Hal _ Hol). pose proof (cap_ptr_range cfg dv k) as Hr. unfold in_width in Hr. pow_consts.
  rewrite Z.add_0_r, !wrap_small by (unfold in_width; pow_consts; dlia). run_step. cbn [pci_cfg_read8].
  apply run_pci_read8; [done|unfold in_width; pow_consts; dlia|]. intros h Hh. rewrite Hc in *. case_match eqn:Hid.
  { apply Z.eqb_eq in Hid. run_step. split; [by apply same_but_latch_read; rewrite Hc|done]. }
  apply Z.eqb_neq in Hid. run_step. apply run_pci_read8; [done|unfold in_width; pow_consts; dlia|].
  cbn [pci_hw set_pci_hw]. rewrite Hh. intros h' Hh'. eapply run_mono.
  { apply (IH (S k)); [done|lia|]. intros i Hi. destruct (decide (i = k)) as [->|]; [done|]. apply Hpre. lia. }
  intros r s' [Hs' Hr']. split; [|done]. eapply same_but_latch_trans; [|exact Hs'].
  apply (same_but_latch_read s h'). by rewrite Hh', Hc.
Qed.

Definition has_caps (cfg : Z → Z) (dv : pci_device_t) : bool :=
  Z.testbit (cfg_word cfg (bus dv) (device dv) (function dv) 0x06) 4.

Lemma pci_find_capability_spec dv id s :
  on_bus dv → (∀ q, cap_on_list (cfg_of s) dv q → q mod 4 = 0) →
  wp (pci_find_capability (Some dv) id) (λ r s', same_but_latch s s' ∧
    match r with
    | Some p => has_caps (cfg_of s) dv = true ∧ cap_on_list (cfg_of s) dv p ∧
                cfg_byte (cfg_of s) (bus dv) (device dv) (function dv) p = id
    | None => has_caps (cfg_of s) dv = true →
              ∀ p, cap_on_list (cfg_of s) dv p → cfg_byte (cfg_of s) (bus dv) (device dv) (function dv) p ≠ id
    end) s.
Proof.
  intros Hb Hal. unfold pci_find_capability. run_step. apply run_pci_read16; [done..|]. intros h Hh.
  rewrite Z.shiftl_1_l, land_pow2_testbit by lia. fold (has_caps (cfg_of s) dv).
  destruct (has_caps (cfg_of s) dv); cbn [negb]; [|run_step; split; [by apply same_but_latch_read|discriminate]].
  run_step. apply run_pci_read8; [done..|]. cbn [pci_hw set_pci_hw]. rewrite Hh. intros h' Hh'. eapply run_mono.
  { apply (capability_loop_spec dv (cfg_of s) id 48 0); [done..|]. intros i Hi. lia. }
  intros r s' [Hs' Hr]. split; [by eapply same_but_latch_trans; [apply (same_but_latch_read s h')|]|]. destruct r; [done|]. intros _. apply Hr.
Qed.
(** The reads and writes of configuration space address the bytes they name:
    a byte, an aligned word or an aligned double word read is what is there and
    changes nothing; a word written replaces its two bytes and leaves every other
    byte of every function. *)
Theorem pci_config_access_correct dv s :
  on_bus dv →
  let byte := cfg_byte (cfg_of s) (bus dv) (device dv) (function dv) in
  (∀ off, in_width 8 off → wp (pci_cfg_read8 (Some dv) off) (λ v s', same_but_latch s s' ∧ v = byte off) s) ∧
  (∀ off, in_width 8 off → off mod 2 = 0 →
    wp (pci_cfg_read16 (Some dv) off) (λ v s', same_but_latch s s' ∧ v = byte off + 256 * byte (off + 1)) s) ∧
  (∀ off, in_width 8 off → off mod 4 = 0 →
    wp (pci_cfg_read32 (Some dv) off) (λ v s', same_but_latch s s' ∧
      v = byte off + 256 * byte (off + 1) + 65536 * (byte (off + 2) + 256 * byte (off + 3))) s) ∧
  (∀ off v, in_width 8 off → off mod 2 = 0 → in_width 16 v →
    (∀ cur x, in_width 32 x → pci_accept (pci_address (bus dv) (device dv) (function dv) off) cur x = x) →
    wp (pci_cfg_write16 (Some dv) off v) (λ _ s', wrote dv off 2 v s s') s) ∧
  (∀ off v, in_width 8 off → in_width 8 v →
    (∀ cur x, in_width 32 x → pci_accept (pci_address (bus dv) (device dv) (function dv) off) cur x = x) →
    wp (pci_cfg_write8 (Some dv) off v) (λ _ s', wrote dv off 1 v s s') s).
Proof.
  intros Hb byte. split_and!.
  - intros off Ho. apply run_pci_read8; [done..|]. intros h Hh. by split; [apply same_but_latch_read|].
  - intros off Ho He. apply run_pci_read16; [done..|]. intros h Hh. by split; [apply same_but_latch_read|].
  - intros off Ho He. apply run_pci_read32; [done..|]. intros h Hh. split; [by apply same_but_latch_read|].
    rewrite cfg_dword_at by (done || apply pci_cfg_range). unfold cfg_dword, cfg_word.
    by replace (off + 2 + 1) with (off + 3) by lia.
  - intros. by apply pci_cfg_write16_spec.
  - intros. by apply pci_cfg_write8_spec.
Qed.

(** The search for a capability returns, also on a list that runs in a
    circle, and finds a capability with the identifier exactly when one is on the
    list. *)
Theorem pci_find_capability_correct dv id s :
  on_bus dv → (∀ q, cap_on_list (cfg_of s) dv q → q mod 4 = 0) →
  wp (pci_find_capability (Some dv) id) (λ r s', same_but_latch s s' ∧
    match r with
    | Some p => has_caps (cfg_of s) dv = true ∧ cap_on_list (cfg_of s) dv p ∧
                cfg_byte (cfg_of s) (bus dv) (device dv) (function dv) p = id
    | None => has_caps (cfg_of s) dv = true →
              ∀ p, cap_on_list (cfg_of s) dv p → cfg_byte (cfg_of s) (bus dv) (device dv) (function dv) p ≠ id
    end) s.
Proof. apply pci_find_capability_spec. Qed.
End Find.
