(* ===== verification/PciEnum.v ===== *)
(** Enumeration of the PCI bus: the list of devices that [pci_enumerate] builds
    against the functions that can be reached from bus 0 over bridges. *)

From S2P Require Import Prelude Vmalloc VmallocSpec Kmalloc Pci PciSpec.

(** * What there is to find *)

Section Reference.
Context (cfg : Z → Z).

Definition present (b d f : Z) : bool := negb (cfg_word cfg b d f 0x00 =? 0xFFFF).
Definition header_at (b d f : Z) : Z := cfg_byte cfg b d f 0x0E.
Definition is_bridge (b d f : Z) : bool := Z.land (header_at b d f) 0x7F =? 0x01.
Definition multi_function (b d : Z) : bool := negb (Z.land (header_at b d 0) 0x80 =? 0).
Definition secondary (b d f : Z) : Z := cfg_byte cfg b d f 0x19.

(** The function is there to be found on its bus: functions other than 0 count
    only on a device that says it has several. *)
Definition enumerable (b d f : Z) : Prop :=
  in_width 5 d ∧ in_width 3 f ∧ present b d 0 = true ∧ present b d f = true ∧ (f = 0 ∨ multi_function b d = true).

Inductive bus_reached : Z → Prop :=
  | root_bus : bus_reached 0
  | behind_bridge b d f : bus_reached b → enumerable b d f → is_bridge b d f = true → secondary b d f ≠ 0 →
      bus_reached (secondary b d f).

Definition bars_at (b d f : Z) : list Z :=
  let type := Z.land (header_at b d f) 0x7F in
  if type =? 0x00 then (λ i, cfg_dword cfg b d f (0x10 + 4 * i)) <$> seqZ 0 6
  else if type =? 0x01 then [cfg_dword cfg b d f 0x10; cfg_dword cfg b d f 0x14; 0; 0; 0; 0]
  else replicate 6 0.

Definition dev_at (x : Z * Z * Z) : pci_device_t :=
  let '(b, d, f) := x in
  mkPciDev b d f (cfg_word cfg b d f 0x00) (cfg_word cfg b d f 0x02) (cfg_word cfg b d f 0x04) (cfg_word cfg b d f 0x06)
    (cfg_byte cfg b d f 0x0B) (cfg_byte cfg b d f 0x0A) (cfg_byte cfg b d f 0x09) (cfg_byte cfg b d f 0x08)
    (cfg_byte cfg b d f 0x0E) (cfg_byte cfg b d f 0x3D) (cfg_byte cfg b d f 0x3C) (bars_at b d f).

(** The functions in the order in which they are linked: what is behind a bridge
    before the bridge. *)
Definition found_function (rec : Z → list (Z * Z * Z)) (b d f : Z) : list (Z * Z * Z) :=
  if present b d f then
    (if is_bridge b d f && negb (secondary b d f =? 0) then rec (secondary b d f) else []) ++ [(b, d, f)]
  else [].

Definition found_device (rec : Z → list (Z * Z * Z)) (b d : Z) : list (Z * Z * Z) :=
  if present b d 0 then
    found_function rec b d 0 ++ (if multi_function b d then seqZ 1 7 ≫= found_function rec b d else [])
  else [].

Fixpoint found_bus (depth : nat) (b : Z) : list (Z * Z * Z) :=
  seqZ 0 32 ≫= found_device (match depth with O => λ _, [] | S depth' => found_bus depth' end) b.

(** A bridge's secondary bus has a higher number than the bus the bridge is on,
    as the numbering of buses requires. *)
Definition bridges_ordered : Prop :=
  ∀ b d f, in_width 8 b → enumerable b d f → is_bridge b d f = true → secondary b d f ≠ 0 → b < secondary b d f.

Lemma in_found_function rec b d f x :
  x ∈ found_function rec b d f ↔ present b d f = true ∧
    (x = (b, d, f) ∨ is_bridge b d f = true ∧ secondary b d f ≠ 0 ∧ x ∈ rec (secondary b d f)).
Proof.
  unfold found_function. destruct (present b d f); [|set_solver]. rewrite elem_of_app, list_elem_of_singleton.
  destruct (is_bridge b d f), (Z.eqb_spec (secondary b d f) 0); cbn [andb negb]; set_solver.
Qed.

Lemma in_found_device rec b d x :
  in_width 5 d →
  x ∈ found_device rec b d ↔ ∃ f, enumerable b d f ∧
    (x = (b, d, f) ∨ is_bridge b d f = true ∧ secondary b d f ≠ 0 ∧ x ∈ rec (secondary b d f)).
Proof.
  intros Hd. unfold found_device, enumerable, in_width in *. pow_consts. destruct (present b d 0) eqn:H0; [|split; [set_solver|naive_solver]].
  rewrite elem_of_app, in_found_function. split.
  - intros [[? ?]|Hx]; [exists 0; naive_solver lia|]. destruct (multi_function b d) eqn:Hm; [|set_solver].
    apply list_elem_of_bind in Hx as (f & [Hp Hx]%in_found_function & Hf). apply elem_of_seqZ in Hf.
    exists f. naive_solver lia.
  - intros (f & (_ & Hf & _ & Hp & [->|Hm]) & Hx); [by left|]. destruct (decide (f = 0)) as [->|]; [by left|right].
    rewrite Hm. apply list_elem_of_bind. exists f. rewrite in_found_function, elem_of_seqZ. split; [done|lia].
Qed.

Lemma in_found_bus depth b x :
  x ∈ found_bus depth b ↔ ∃ d f, enumerable b d f ∧ (x = (b, d, f) ∨
    is_bridge b d f = true ∧ secondary b d f ≠ 0 ∧
    x ∈ (match depth with O => λ _, [] | S depth' => found_bus depth' end) (secondary b d f)).
Proof.
  assert (found_bus depth b = seqZ 0 32 ≫= found_device (match depth with O => λ _, [] | S depth' => found_bus depth' end) b)
    as -> by (by destruct depth).
  rewrite list_elem_of_bind. split.
  - intros (d & Hx & Hd). apply elem_of_seqZ in Hd. apply in_found_device in Hx as (f & Hf); [naive_solver|].
    unfold in_width. pow_consts. lia.
  - intros (d & f & Hf & Hx). exists d. split; [apply in_found_device; [by destruct Hf|naive_solver]|].
    destruct Hf as [Hd _]. unfold in_width in Hd. pow_consts. apply elem_of_seqZ. lia.
Qed.

Lemma secondary_range b d f : in_width 8 (secondary b d f).
Proof. unfold secondary. apply cfg_byte_range. Qed.

Lemma bus_reached_range b : bus_reached b → in_width 8 b.
Proof. destruct 1; [unfold in_width; pow_consts; lia|apply secondary_range]. Qed.

Lemma found_reached depth b b' d f :
  bus_reached b → (b', d, f) ∈ found_bus depth b → bus_reached b' ∧ enumerable b' d f.
Proof.
  revert b. induction depth as [|depth IH]; intros b Hb (d0 & f0 & He & [Heq|(Hbr & Hs & Hx)])%in_found_bus.
  - by injection Heq as -> -> ->.
  - by apply not_elem_of_nil in Hx.
  - by injection Heq as -> -> ->.
  - eapply IH, Hx. by apply behind_bridge.
Qed.

(** A bus reached from [b] over bridges is covered by the scan of [b]. *)
Lemma found_covers depth b b' d f :
  bridges_ordered → in_width 8 b → 255 - b ≤ Z.of_nat depth → (∃ d0 f0, (b', d0, f0) ∈ found_bus depth b) ∨ b' = b →
  enumerable b' d f → (b', d, f) ∈ found_bus depth b.
Proof.
  intros Hord. revert b. induction depth as [|depth IH]; intros b Hb Hd Hreach He.
  all: destruct Hreach as [(d0 & f0 & (d1 & f1 & He1 & [Heq|(Hbr & Hs & Hx)])%in_found_bus)| ->];
    [injection Heq as -> -> ->| |]; apply in_found_bus; try (by exists d, f; eauto).
  - by apply not_elem_of_nil in Hx.
  - exists d1, f1. split; [done|right]. split_and!; try done. pose proof (Hord b d1 f1 Hb He1 Hbr Hs).
    apply IH; [apply secondary_range|lia|by eauto|done].
Qed.

Lemma found_behind depth b b' d f :
  bridges_ordered → in_width 8 b → 255 - b ≤ Z.of_nat depth → (b', d, f) ∈ found_bus depth b →
  is_bridge b' d f = true → secondary b' d f ≠ 0 → ∀ d' f', enumerable (secondary b' d f) d' f' →
  (secondary b' d f, d', f') ∈ found_bus depth b.
Proof.
  intros Hord. revert b. induction depth as [|depth IH]; intros b Hb Hd Hx Hbr Hs d' f' He.
  all: apply in_found_bus in Hx as (d1 & f1 & He1 & [Heq|(Hbr1 & Hs1 & Hx)]); [injection Heq as -> -> ->|].
  - pose proof (Hord b d1 f1 Hb He1 Hbr Hs). pose proof (secondary_range b d1 f1) as Hr. unfold in_width in Hr. pow_consts. lia.
  - by apply not_elem_of_nil in Hx.
  - pose proof (Hord b d1 f1 Hb He1 Hbr Hs). apply in_found_bus. exists d1, f1. split; [done|right]. split_and!; try done.
    apply found_covers; [done|apply secondary_range|lia|by right|done].
  - pose proof (Hord b d1 f1 Hb He1 Hbr1 Hs1). apply in_found_bus. exists d1, f1. split; [done|right]. split_and!; try done.
    apply IH; try done; [apply secondary_range|lia].
Qed.

(** The scan to depth 255 from bus 0 lists exactly the reachable functions. *)
Lemma found_iff b d f :
  bridges_ordered → (b, d, f) ∈ found_bus 255 0 ↔ bus_reached b ∧ enumerable b d f.
Proof.
  intros Hord. split; [by apply found_reached; constructor|]. intros [Hb He]. revert d f He.
  assert (in_width 8 0) by (unfold in_width; lia).
  induction Hb as [|b d f _ IH He Hbr Hs]; intros d' f' He'; [apply found_covers; try done; by right|].
  by apply found_behind; auto.
Qed.
(** No two bridges lead to the same bus. *)
Definition bridges_unique : Prop :=
  ∀ b d f b' d' f', enumerable b d f → enumerable b' d' f' → is_bridge b d f = true → is_bridge b' d' f' = true →
    secondary b d f ≠ 0 → secondary b d f = secondary b' d' f' → (b, d, f) = (b', d', f').

Lemma found_above depth b x : bridges_ordered → in_width 8 b → x ∈ found_bus depth b → b ≤ x.1.1.
Proof.
  intros Hord. revert b. induction depth as [|depth IH]; intros b Hb (d & f & He & [->|(Hbr & Hs & Hx)])%in_found_bus; try done.
  - by apply not_elem_of_nil in Hx.
  - pose proof (Hord b d f Hb He Hbr Hs). apply IH in Hx; [lia|apply secondary_range].
Qed.

(** A bus other than the one the scan starts at is behind a bridge of the scan. *)
Lemma found_parent depth b x :
  x ∈ found_bus depth b → x.1.1 ≠ b →
  ∃ p d f, (p, d, f) ∈ found_bus depth b ∧ enumerable p d f ∧ is_bridge p d f = true ∧ secondary p d f = x.1.1.
Proof.
  revert b. induction depth as [|depth IH]; intros b (d & f & He & [->|(Hbr & Hs & Hx)])%in_found_bus Hne; try done.
  { by apply not_elem_of_nil in Hx. }
  destruct (decide (x.1.1 = secondary b d f)) as [->|Hn].
  - exists b, d, f. split_and!; try done. apply in_found_bus. eauto.
  - destruct (IH _ Hx Hn) as (p & d' & f' & Hin & ? & ? & ?). exists p, d', f'. split_and!; try done.
    apply in_found_bus. exists d, f. eauto 6.
Qed.

Lemma found_disjoint depth b d1 f1 d2 f2 x :
  bridges_ordered → bridges_unique → in_width 8 b →
  enumerable b d1 f1 → is_bridge b d1 f1 = true → secondary b d1 f1 ≠ 0 →
  enumerable b d2 f2 → is_bridge b d2 f2 = true → secondary b d2 f2 ≠ 0 →
  x ∈ found_bus depth (secondary b d1 f1) → x ∈ found_bus depth (secondary b d2 f2) → (d1, f1) = (d2, f2).
Proof.
  intros Hord Huni Hb He1 Hb1 Hs1 He2 Hb2 Hs2.
  pose proof (Hord _ _ _ Hb He1 Hb1 Hs1). pose proof (Hord _ _ _ Hb He2 Hb2 Hs2).
  remember (Z.to_nat x.1.1) as n eqn:Hn. revert x Hn. induction (lt_wf n) as [n _ IH]. intros x -> Hx1 Hx2.
  assert (∀ d f, secondary b d f ≠ 0 → b < secondary b d f → ∀ y, y ∈ found_bus depth (secondary b d f) → b < y.1.1) as Hab.
  { intros d f _ Hlt y Hy. apply found_above in Hy; [lia|done|apply secondary_range]. }
  destruct (decide (secondary b d1 f1 = secondary b d2 f2)) as [Heq|Hne].
  { pose proof (Huni _ _ _ _ _ _ He1 He2 Hb1 Hb2 Hs1 Heq). congruence. }
  exfalso. destruct (decide (x.1.1 = secondary b d1 f1)) as [E1|E1].
  { destruct (found_parent _ _ _ Hx2 ltac:(congruence)) as (p & d & f & Hin & Hp & Hpb & Hps).
    pose proof (Huni _ _ _ _ _ _ He1 Hp Hb1 Hpb Hs1 ltac:(congruence)) as Heq. injection Heq as <- <- <-.
    apply Hab in Hin; [|done..]. cbn in Hin. lia. }
  destruct (decide (x.1.1 = secondary b d2 f2)) as [E2|E2].
  { destruct (found_parent _ _ _ Hx1 ltac:(congruence)) as (p & d & f & Hin & Hp & Hpb & Hps).
    pose proof (Huni _ _ _ _ _ _ He2 Hp Hb2 Hpb Hs2 ltac:(congruence)) as Heq. injection Heq as <- <- <-.
    apply Hab in Hin; [|done..]. cbn in Hin. lia. }
  destruct (found_parent _ _ _ Hx1 E1) as (p1 & d & f & Hin1 & Hp1 & Hpb1 & Hps1).
  destruct (found_parent _ _ _ Hx2 E2) as (p2 & d' & f' & Hin2 & Hp2 & Hpb2 & Hps2).
  pose proof (Hab _ _ Hs1 ltac:(lia) _ Hx1). pose proof (Hab _ _ Hs1 ltac:(lia) _ Hin1) as Hlow. cbn in Hlow.
  unfold in_width in Hb. pow_consts.
  assert (secondary p1 d f ≠ 0) as Hns by lia.
  pose proof (Huni _ _ _ _ _ _ Hp1 Hp2 Hpb1 Hpb2 Hns ltac:(congruence)) as Heq. injection Heq as <- <- <-.
  destruct (Z_lt_dec p1 256) as [Hpw|Hpw].
  - assert (p1 < secondary p1 d f) by (apply Hord; try done; unfold in_width; pow_consts; lia).
    assert ((d1, f1) = (d2, f2)) as Heq; [|congruence].
    apply (IH (Z.to_nat p1) ltac:(lia) (p1, d, f)); done.
  - assert (∀ k c, in_width 8 c → (p1, d, f) ∈ found_bus k c → p1 < 256) as Hk; [|by apply Hpw, (Hk _ _ (secondary_range _ _ _) Hin1)].
    clear -Hord. intros k. induction k as [|k IHk]; intros c Hc (d0 & f0 & _ & [Heq|(_ & _ & Hx)])%in_found_bus.
    all: try (injection Heq as -> -> ->; unfold in_width in Hc; pow_consts; lia).
    + by apply not_elem_of_nil in Hx.
    + eapply IHk, Hx. apply secondary_range.
Qed.

(** A function under two functions of one bus is under the same one. *)
Lemma found_function_unique depth b d1 f1 d2 f2 x :
  bridges_ordered → bridges_unique → in_width 8 b → enumerable b d1 f1 → enumerable b d2 f2 →
  let rec := match depth with O => λ _, [] | S depth' => found_bus depth' end in
  x ∈ found_function rec b d1 f1 → x ∈ found_function rec b d2 f2 → (d1, f1) = (d2, f2).
Proof.
  intros Hord Huni Hb He1 He2 rec [_ H1]%in_found_function [_ H2]%in_found_function.
  assert (∀ d f, enumerable b d f → is_bridge b d f = true → secondary b d f ≠ 0 → x ∈ rec (secondary b d f) → b < x.1.1) as Hab.
  { intros d f He Hbr Hs Hx. pose proof (Hord _ _ _ Hb He Hbr Hs). destruct depth; [by apply not_elem_of_nil in Hx|].
    apply found_above in Hx; [lia|done|apply secondary_range]. }
  destruct H1 as [->|(Hb1 & Hs1 & Hx1)], H2 as [Heq|(Hb2 & Hs2 & Hx2)]; [congruence| | |].
  - apply Hab in Hx2; try done. cbn in Hx2. lia.
  - subst x. apply Hab in Hx1; try done. cbn in Hx1. lia.
  - destruct depth; [by apply not_elem_of_nil in Hx1|]. by eapply found_disjoint.
Qed.

Lemma found_function_nodup depth b d f :
  bridges_ordered → in_width 8 b → enumerable b d f →
  let rec := match depth with O => λ _, [] | S depth' => found_bus depth' end in
  (∀ c, in_width 8 c → NoDup (rec c)) → NoDup (found_function rec b d f).
Proof.
  intros Hord Hb He rec Hrec. unfold found_function. destruct (present b d f); [|constructor].
  apply NoDup_app. split_and!; [| |apply NoDup_singleton].
  - destruct (_ && _); [apply Hrec, secondary_range|constructor].
  - intros x Hx ->%list_elem_of_singleton. destruct (is_bridge b d f) eqn:Hbr; [|by apply not_elem_of_nil in Hx].
    destruct (Z.eqb_spec (secondary b d f) 0) as [|Hs]; [by apply not_elem_of_nil in Hx|]. cbn [andb negb] in Hx.
    pose proof (Hord _ _ _ Hb He Hbr Hs). destruct depth; [by apply not_elem_of_nil in Hx|].
    apply found_above in Hx; [cbn in Hx; lia|done|apply secondary_range].
Qed.

Lemma found_device_function rec b d x :
  in_width 5 d → x ∈ found_device rec b d → ∃ f, enumerable b d f ∧ x ∈ found_function rec b d f.
Proof.
  intros Hd (f & He & Hx)%in_found_device; [|done]. exists f. split; [done|]. apply in_found_function.
  destruct He as (_ & _ & _ & ? & _). done.
Qed.

Lemma found_scan_nodup depth b :
  bridges_ordered → bridges_unique → in_width 8 b →
  let rec := match depth with O => λ _, [] | S depth' => found_bus depth' end in
  (∀ c, in_width 8 c → NoDup (rec c)) → NoDup (seqZ 0 32 ≫= found_device rec b).
Proof.
  intros Hord Huni Hb rec Hrec. apply NoDup_bind; [| |apply NoDup_seqZ].
  - intros d1 d2 x Hd1%elem_of_seqZ Hd2%elem_of_seqZ Hx1 Hx2.
    apply found_device_function in Hx1 as (f1 & He1 & Hx1); [|unfold in_width; pow_consts; lia].
    apply found_device_function in Hx2 as (f2 & He2 & Hx2); [|unfold in_width; pow_consts; lia].
    pose proof (found_function_unique depth b d1 f1 d2 f2 x Hord Huni Hb He1 He2 Hx1 Hx2). congruence.
  - intros d Hd%elem_of_seqZ. unfold found_device. destruct (present b d 0) eqn:Hp; [|constructor].
    assert (∀ f x, f = 0 ∨ multi_function b d = true → 0 ≤ f < 8 → x ∈ found_function rec b d f → enumerable b d f) as Hen.
    { intros f x Hm Hf [Hpf _]%in_found_function. unfold enumerable, in_width. pow_consts. split_and!; done || lia. }
    assert (∀ f, f = 0 ∨ multi_function b d = true → 0 ≤ f < 8 → NoDup (found_function rec b d f)) as Hnd.
    { intros f Hm Hf. destruct (present b d f) eqn:Hpf; [|unfold found_function; rewrite Hpf; constructor].
      apply found_function_nodup; try done. }
    apply NoDup_app. split_and!; [apply Hnd; [by left|lia]| |].
    + intros x Hx0 Hx. destruct (multi_function b d) eqn:Hm; [|by apply not_elem_of_nil in Hx].
      apply list_elem_of_bind in Hx as (f & Hx & Hf%elem_of_seqZ).
      assert ((d, 0) = (d, f)) as Heq; [|injection Heq; lia].
      apply (found_function_unique depth b d 0 d f x); try done; eapply Hen; eauto; lia.
    + destruct (multi_function b d) eqn:Hm; [|constructor]. apply NoDup_bind; [| |apply NoDup_seqZ].
      * intros f1 f2 x Hf1%elem_of_seqZ Hf2%elem_of_seqZ Hx1 Hx2.
        assert ((d, f1) = (d, f2)) as Heq; [|by injection Heq].
        apply (found_function_unique depth b d f1 d f2 x); try done; eapply Hen; eauto; lia.
      * intros f Hf%elem_of_seqZ. apply Hnd; [by right|lia].
Qed.

Lemma found_bus_nodup depth b :
  bridges_ordered → bridges_unique → in_width 8 b → NoDup (found_bus depth b).
Proof.
  intros Hord Huni. revert b. induction depth as [|depth IH]; intros b Hb.
  - apply (found_scan_nodup 0); try done. intros. constructor.
  - apply (found_scan_nodup (S depth)); try done.
Qed.
End Reference.

(** * The list in memory *)

(** [addrs] are the nodes in list order, [ds] their devices. *)
Fixpoint chain (m : gmap Z pci_node_t) (head : Z) (addrs : list Z) (ds : list pci_device_t) : Prop :=
  match addrs, ds with
  | [], [] => head = 0
  | a :: addrs', d :: ds' => head = a ∧ a ≠ 0 ∧ ∃ next, m !! a = Some (mkPciNode d next) ∧ chain m next addrs' ds'
  | _, _ => False
  end.

Lemma chain_insert m head addrs ds a n : a ∉ addrs → chain m head addrs ds → chain (<[a := n]> m) head addrs ds.
Proof.
  revert head ds. induction addrs as [|x addrs IH]; intros head [|d ds] Ha; try done.
  intros (-> & Hx & next & Hm & Hc). apply not_elem_of_cons in Ha as [Ha Ha']. split; [done|]. split; [done|].
  exists next. split; [by rewrite lookup_insert_ne|by apply IH].
Qed.

Lemma chain_length m head addrs ds : chain m head addrs ds → length addrs = length ds.
Proof.
  revert head ds. induction addrs as [|x addrs IH]; intros head [|d ds]; try done. intros (_ & _ & next & _ & Hc).
  simpl. f_equal. by eapply IH.
Qed.

Lemma chain_dom m head addrs ds : chain m head addrs ds → ∀ a, a ∈ addrs → is_Some (m !! a).
Proof.
  revert head ds. induction addrs as [|x addrs IH]; intros head [|d ds]; try done; [set_solver|].
  intros (_ & _ & next & Hm & Hc) a [->|Ha]%elem_of_cons; [by eexists|by eapply IH].
Qed.

Definition node_range (a : Z) : vmalloc_range_t := mkRange a 4096.

Lemma ranges_nodup l addrs live : l ≡ₚ (node_range <$> addrs) ++ live → pairwise_disjoint l → NoDup addrs.
Proof.
  intros ->. induction addrs as [|a addrs IH]; cbn [fmap list_fmap app pairwise_disjoint]; [constructor|].
  intros [Hd Hrest]. constructor; [|by apply IH]. intros Hin. apply (Hd a).
  - unfold in_range, node_range. simpl. lia.
  - exists (node_range a). split; [apply elem_of_app; left; by apply list_elem_of_fmap_2|]. unfold in_range, node_range. simpl. lia.
Qed.

Section Enum.
Context {D V : Type} `{!PciPorts D, !PciBus D, !RegionAllocator V, !RegionAllocatorLaws V}.
Implicit Types s : pci_state D V.
Context (cfg : Z → Z).

(** The list holds the functions [devs], the last one linked first; nodes and the
    ranges [live] are handed out by the allocator. *)
Record scan_inv (live : list vmalloc_range_t) s (devs : list (Z * Z * Z)) : Prop := {
  si_cfg : pci_cfg (pci_hw s) = cfg;
  si_count : pci_device_count s = u64 (Z.of_nat (length devs));
  si_list : ∃ addrs l, l ≡ₚ (node_range <$> addrs) ++ live ∧ ra_live (pci_vm s) l ∧
              chain (pci_mem s) (pci_device_list s) addrs (dev_at cfg <$> devs)
}.

(** [m] links the functions [F], but for those it reports as dropped and what is
    behind them. *)
Definition scans (F : list (Z * Z * Z)) (m : M (pci_state D V) unit) : Prop :=
  ∀ live s devs, scan_inv live s devs →
    run vm_panic m (λ _ s', ∃ new dr, scan_inv live s' (reverse new ++ devs) ∧ pci_dropped s' = pci_dropped s ++ dr ∧
      new `sublist_of` F ∧ (dr = [] → new = F)) s.

Lemma scans_ret : scans [] (ret tt).
Proof. intros live s devs Hs. exists [], []. by rewrite app_nil_r. Qed.

Lemma scans_seq F G m k : scans F m → scans G k → scans (F ++ G) (m;; k).
Proof.
  intros Hm Hk live s devs Hs. run_step. eapply run_mono; [by apply Hm|]. intros [] s1 (n1 & r1 & H1 & E1 & S1 & D1).
  eapply run_mono; [by apply Hk|]. intros [] s2 (n2 & r2 & H2 & E2 & S2 & D2). exists (n1 ++ n2), (r1 ++ r2).
  split_and!.
  - by rewrite reverse_app, <- (assoc_L (++)).
  - by rewrite E2, E1, (assoc_L (++)).
  - by apply sublist_app.
  - intros [??]%app_nil. by rewrite D1, D2.
Qed.

Lemma scans_for_each n i F body :
  (∀ j, i ≤ j < i + Z.of_nat n → scans (F j) (body j)) → scans (seqZ i (Z.of_nat n) ≫= F) (for_each n i body).
Proof.
  revert i. induction n as [|n IH]; intros i Hb; [apply scans_ret|].
  rewrite seqZ_cons by lia. cbn [for_each mbind list_bind]. apply scans_seq; [apply Hb; lia|].
  replace (Z.pred (Z.of_nat (S n))) with (Z.of_nat n) by lia. rewrite <- Z.add_1_r. apply IH. intros j Hj. apply Hb. lia.
Qed.

(** Reading is invisible to the invariant. *)
Lemma scan_inv_latch live s s' devs : same_but_latch s s' → scan_inv live s devs → scan_inv live s' devs.
Proof. intros [-> Hc] [H1 H2 H3]. split; [by rewrite Hc|done..]. Qed.

Lemma latch_read16 E b d f off s0 s (Q : Z → pci_state D V → Prop) :
  same_but_latch s0 s → pci_cfg (pci_hw s0) = cfg → valid_bdf b d f → in_width 8 off → off mod 2 = 0 →
  (∀ s', same_but_latch s0 s' → Q (cfg_word cfg b d f off) s') → run E (pci_read16 b d f off) Q s.
Proof.
  intros H0 Hc Hv Ho He HQ. pose proof H0 as [_ Hcs]. apply run_pci_read16; [done..|]. intros h Hh. rewrite Hcs, Hc.
  apply HQ. eapply same_but_latch_trans; [done|]. by apply same_but_latch_read.
Qed.

Lemma latch_read8 E b d f off s0 s (Q : Z → pci_state D V → Prop) :
  same_but_latch s0 s → pci_cfg (pci_hw s0) = cfg → valid_bdf b d f → in_width 8 off →
  (∀ s', same_but_latch s0 s' → Q (cfg_byte cfg b d f off) s') → run E (pci_read8 b d f off) Q s.
Proof.
  intros H0 Hc Hv Ho HQ. pose proof H0 as [_ Hcs]. apply run_pci_read8; [done..|]. intros h Hh. rewrite Hcs, Hc.
  apply HQ. eapply same_but_latch_trans; [done|]. by apply same_but_latch_read.
Qed.

Lemma read_bars_spec E n i b d f s0 s (Q : list Z → pci_state D V → Prop) :
  same_but_latch s0 s → pci_cfg (pci_hw s0) = cfg → valid_bdf b d f → 0 ≤ i → i + Z.of_nat n ≤ 6 →
  (∀ s', same_but_latch s0 s' → Q ((λ j, cfg_dword cfg b d f (0x10 + 4 * j)) <$> seqZ i (Z.of_nat n)) s') →
  run E (read_bars n b d f i) Q s.
Proof.
  revert i s Q. induction n as [|n IH]; intros i s Q H0 Hc Hv Hi Hn HQ; cbn [read_bars]; [run_step; by apply HQ|].
  pose proof H0 as [_ Hcs]. run_step.
  assert (in_width 8 (16 + i * 4)) by (unfold in_width; pow_consts; lia).
  apply run_pci_read32; [done..|]. intros h Hh. run_step. apply IH; [|done|done|lia|lia|].
  { eapply same_but_latch_trans; [exact H0|]. by apply same_but_latch_read. }
  intros s' Hs'. run_step. rewrite cfg_dword_at by (try done; try apply pci_cfg_range; dlia). rewrite Hcs, Hc.
  apply HQ in Hs'. rewrite seqZ_cons in Hs' by lia. replace (Z.pred (Z.of_nat (S n))) with (Z.of_nat n) in Hs' by lia.
  rewrite <- Z.add_1_r in Hs'. cbn [fmap list_fmap] in Hs'. by replace (16 + i * 4) with (16 + 4 * i) by lia.
Qed.
(** The node is new to the list, and its range stays handed out while what is
    behind it is scanned. *)
Lemma link_node live s devs a x :
  0 < a → scan_inv (node_range a :: live) s devs →
  scan_inv live (mkPci (pci_hw s) (pci_vm s) (<[a := mkPciNode (dev_at cfg x) (pci_device_list s)]> (pci_mem s)) a
    (u64 (pci_device_count s + 1)) (pci_dropped s)) (x :: devs).
Proof.
  intros Ha [Hc Hn (addrs & l & Hp & Hl & Hch)]. split; cbn; [done| |].
  - rewrite Hn. unfold wrap. rewrite Zplus_mod_idemp_l. f_equal. simpl. lia.
  - assert (l ≡ₚ (node_range <$> a :: addrs) ++ live) as Hp' by (rewrite Hp; cbn; by rewrite Permutation_middle).
    exists (a :: addrs), l. split; [done|]. split; [done|]. split; [done|]. split; [lia|].
    exists (pci_device_list s). rewrite lookup_insert_eq. split; [done|]. apply chain_insert; [|done].
    pose proof (ranges_nodup _ _ _ Hp' (ra_disjoint _ _ Hl)) as Hnd. by apply NoDup_cons in Hnd as [? _].
Qed.

Lemma node_pages : align_up PCI_NODE_BYTES PAGE = 4096.
Proof. reflexivity. Qed.

Lemma alloc_node_spec live s devs :
  scan_inv live s devs →
  run vm_panic (zoom pci_vm set_pci_vm (ra_alloc PCI_NODE_BYTES VMALLOC_DEFAULT_FLAGS)) (λ a s',
    pci_dropped s' = pci_dropped s ∧
    ((a = 0 ∧ scan_inv live s' devs) ∨ (0 < a ∧ scan_inv (node_range a :: live) s' devs))) s.
Proof.
  intros [Hc Hn (addrs & l & Hp & Hl & Hch)]. apply run_zoom. eapply run_mono.
  { apply (ra_alloc_spec _ l); [done|]. unfold PCI_NODE_BYTES. lia. }
  intros a v [[-> Hv]|(Ha & _ & _ & Hv)]; (split; [done|]); [left|right]; (split; [done|]); split; cbn; try done.
  - by exists addrs, l.
  - rewrite node_pages in Hv. exists addrs, (node_range a :: l). split_and!; [|done..]. rewrite Hp. apply Permutation_middle.
Qed.

(** Reading the base registers, with the scan behind a bridge. *)
Lemma bars_part_spec (scan_bus : Z → M (pci_state D V) unit) rec live s devs b d f :
  valid_bdf b d f → scan_inv live s devs →
  (is_bridge cfg b d f = true → secondary cfg b d f ≠ 0 → scans (rec (secondary cfg b d f)) (scan_bus (secondary cfg b d f))) →
  run vm_panic
    (if Z.land (header_at cfg b d f) 0x7F =? 0x00 then read_bars 6 b d f 0
     else if Z.land (header_at cfg b d f) 0x7F =? 0x01 then
       let! bb := read_bars 2 b d f 0 in
       let! secondary_bus := pci_read8 b d f 0x19 in
       (if negb (secondary_bus =? 0) then scan_bus secondary_bus else ret tt);;
       ret (bb ++ replicate 4 0)
     else ret (replicate 6 0))
    (λ bars s', bars = bars_at cfg b d f ∧ ∃ new dr, scan_inv live s' (reverse new ++ devs) ∧ pci_dropped s' = pci_dropped s ++ dr ∧
      new `sublist_of` (if is_bridge cfg b d f && negb (secondary cfg b d f =? 0) then rec (secondary cfg b d f) else []) ∧
      (dr = [] → new = if is_bridge cfg b d f && negb (secondary cfg b d f =? 0) then rec (secondary cfg b d f) else [])) s.
Proof.
  intros Hv Hs Hrec. pose proof (si_cfg _ _ _ Hs) as Hc. unfold bars_at, is_bridge in *.
  assert (∀ s', same_but_latch s s' → ∃ new dr, scan_inv live s' (reverse new ++ devs) ∧ pci_dropped s' = pci_dropped s ++ dr ∧
    new `sublist_of` [] ∧ (dr = [] → new = [])) as Hnone.
  { intros s' Hs'. exists [], []. rewrite app_nil_r. split_and!; [by eapply scan_inv_latch|by destruct Hs' as [-> _]|done..]. }
  destruct (Z.eqb_spec (Z.land (header_at cfg b d f) 0x7F) 0) as [H0|H0].
  { rewrite H0. cbn [Z.eqb andb]. eapply read_bars_spec; [apply same_but_latch_refl|done|done|lia|lia|]. intros s' Hs'. by split; [|apply Hnone]. }
  destruct (Z.eqb_spec (Z.land (header_at cfg b d f) 0x7F) 1) as [H1|H1]; cbn [andb].
  2: { run_step. by split; [|apply Hnone, same_but_latch_refl]. }
  run_step. eapply read_bars_spec; [apply same_but_latch_refl|done|done|lia|lia|]. intros s1 Hs1.
  run_step. eapply (latch_read8); [exact Hs1|done|done|unfold in_width; lia|]. intros s2 Hs2. fold (secondary cfg b d f). run_step.
  destruct (Z.eqb_spec (secondary cfg b d f) 0) as [Hz|Hz]; cbn [negb].
  { run_steps. by split; [|apply Hnone]. }
  eapply run_mono; [by apply (Hrec eq_refl Hz); eapply scan_inv_latch|].
  intros [] s3 (new & dr & H3 & E3 & S3 & D3). run_step. split; [done|]. exists new, dr.
  split_and!; try done. rewrite E3. by destruct Hs2 as [-> _].
Qed.

Lemma scan_function_spec scan_bus rec b d f :
  valid_bdf b d f →
  (present cfg b d f = true → is_bridge cfg b d f = true → secondary cfg b d f ≠ 0 →
    scans (rec (secondary cfg b d f)) (scan_bus (secondary cfg b d f))) →
  scans (found_function cfg rec b d f) (pci_scan_function scan_bus b d f).
Proof.
  intros Hv Hrec live s devs Hs. pose proof (si_cfg _ _ _ Hs) as Hc. unfold pci_scan_function, found_function. run_step.
  eapply latch_read16; [apply same_but_latch_refl|done|done|unfold in_width; lia|done|]. intros s1 Hs1.
  unfold present in *. destruct (Z.eqb_spec (cfg_word cfg b d f 0) 0xFFFF) as [_|Hpr]; cbn [negb].
  { run_step. exists [], []. rewrite app_nil_r. split_and!; try done; [by eapply scan_inv_latch|by destruct Hs1 as [-> _]]. }
  run_step. eapply run_mono; [by eapply alloc_node_spec, scan_inv_latch|].
  intros a s2 (E2 & [[-> H2]|[Ha H2]]).
  { cbn [Z.eqb]. run_step. exists [], [(b, d, f)]. cbn. split_and!.
    - destruct H2 as [I1 I2 I3]. by split.
    - rewrite E2. by destruct Hs1 as [-> _].
    - apply sublist_nil_l.
    - done. }
  destruct (Z.eqb_spec a 0); [lia|]. pose proof (si_cfg _ _ _ H2) as Hc2. pose proof (same_but_latch_refl s2) as L.
  do 3 (run_step; eapply latch_read16; [exact L|done|done|unfold in_width; lia|done|]; clear L; intros ? L).
  do 7 (run_step; eapply latch_read8; [exact L|done|done|unfold in_width; lia|]; clear L; intros ? L).
  cbv zeta. run_step. fold (header_at cfg b d f). eapply run_mono.
  { eapply (bars_part_spec scan_bus rec); [done|eapply scan_inv_latch; [exact L|done]|]. intros. by apply Hrec. }
  intros bars s3 (-> & new & dr & H3 & E3 & S3 & D3). run_step. exists (new ++ [(b, d, f)]), dr.
  split_and!.
  - rewrite reverse_app. cbn [reverse rev_append app]. by apply link_node with (x := (b, d, f)).
  - cbn. rewrite E3. destruct L as [-> _]. cbn. rewrite E2. by destruct Hs1 as [-> _].
  - by apply sublist_app.
  - intros Hd. by rewrite (D3 Hd).
Qed.

Lemma scan_device_spec scan_bus rec b d :
  in_width 8 b → in_width 5 d →
  (∀ f, enumerable cfg b d f → is_bridge cfg b d f = true → secondary cfg b d f ≠ 0 →
    scans (rec (secondary cfg b d f)) (scan_bus (secondary cfg b d f))) →
  scans (found_device cfg rec b d) (pci_scan_device scan_bus b d).
Proof.
  intros Hb Hd Hrec. assert (∀ f, 0 ≤ f < 8 → valid_bdf b d f) as Hv by (intros f Hf; by split_and!).
  intros live s devs Hs. pose proof (si_cfg _ _ _ Hs) as Hc. unfold pci_scan_device, found_device. run_step.
  eapply latch_read16; [apply same_but_latch_refl|done|apply Hv; lia|unfold in_width; lia|done|]. intros s1 Hs1.
  assert ((cfg_word cfg b d 0 0 =? 0xFFFF) = negb (present cfg b d 0)) as -> by (unfold present; by rewrite negb_involutive).
  destruct (present cfg b d 0) eqn:Hp0; cbn [negb].
  2: { run_step. exists [], []. rewrite app_nil_r. split_and!; try done; [by eapply scan_inv_latch|by destruct Hs1 as [-> _]]. }
  run_step. eapply latch_read8; [exact Hs1|done|apply Hv; lia|unfold in_width; lia|]. intros s2 Hs2.
  fold (header_at cfg b d 0). fold (multi_function cfg b d).
  eapply run_mono.
  { eapply (scans_seq (found_function cfg rec b d 0)
      (if multi_function cfg b d then seqZ 1 7 ≫= found_function cfg rec b d else []) (pci_scan_function scan_bus b d 0)
      (if multi_function cfg b d then for_each 7 1 (λ fn, pci_scan_function scan_bus b d fn) else ret tt)).
    - apply scan_function_spec; [apply Hv; lia|]. intros. apply Hrec; try done. split_and!; try done. by left.
    - destruct (multi_function cfg b d) eqn:Hm; [|apply scans_ret]. apply (scans_for_each 7). intros f Hf.
      apply scan_function_spec; [apply Hv; lia|]. intros. apply Hrec; try done. split_and!; try done; [|by right].
      unfold in_width. pow_consts. lia.
    - by eapply scan_inv_latch. }
  intros [] s' (new & dr & H1 & H2 & H3 & H4). exists new, dr. split_and!; try done. rewrite H2. by destruct Hs2 as [-> _].
Qed.

Lemma scan_bus_spec depth b :
  bridges_ordered cfg → in_width 8 b → 255 - b ≤ Z.of_nat depth →
  scans (found_bus cfg depth b) (pci_scan_bus depth b).
Proof.
  intros Hord. revert b. induction depth as [|depth IH]; intros b Hb Hd.
  - apply (scans_for_each 32). intros d Hd'. apply scan_device_spec; [done|unfold in_width; pow_consts; lia|].
    intros f He Hbr Hs. pose proof (Hord b d f Hb He Hbr Hs). pose proof (secondary_range cfg b d f) as Hr.
    unfold in_width in Hr. pow_consts. lia.
  - apply (scans_for_each 32). intros d Hd'. apply scan_device_spec; [done|unfold in_width; pow_consts; lia|].
    intros f He Hbr Hs. pose proof (Hord b d f Hb He Hbr Hs). apply IH; [apply secondary_range|lia].
Qed.

(** ** The searches *)

Lemma find_node_spec fuel want s head addrs ds :
  chain (pci_mem s) head addrs ds → (length addrs ≤ fuel)%nat →
  wp (find_node fuel head want) (λ r s', s' = s ∧ r = List.find want ds) s.
Proof.
  revert fuel head ds. induction addrs as [|a addrs IH]; intros fuel head [|d ds] Hch Hf; try done.
  - cbn in Hch. subst head. by destruct fuel.
  - destruct Hch as (-> & Ha & next & Hm & Hch). destruct fuel as [|fuel]; [simpl in Hf; lia|].
    cbn [find_node List.find]. destruct (Z.eqb_spec a 0); [done|]. run_step. unfold pci_node, run. rewrite Hm. cbn [pn_dev pn_next].
    destruct (want d); [done|]. apply (IH fuel); [done|simpl in Hf; lia].
Qed.

Lemma find_spec want live s devs :
  scan_inv live s devs →
  wp (find_node (size (pci_mem s)) (pci_device_list s) want) (λ r s', s' = s ∧ r = List.find want (dev_at cfg <$> devs)) s.
Proof.
  intros [Hc Hn (addrs & l & Hp & Hl & Hch)]. eapply find_node_spec; [done|].
  pose proof (ranges_nodup _ _ _ Hp (ra_disjoint _ _ Hl)) as Hnd.
  rewrite <- (size_list_to_set (C := gset Z)), <- size_dom by done. apply subseteq_size. intros a Ha%elem_of_list_to_set.
  apply elem_of_dom. by eapply chain_dom.
Qed.
End Enum.

Section Theorems.
Context {D V : Type} `{!PciPorts D, !PciBus D, !RegionAllocator V, !RegionAllocatorLaws V}.
Implicit Types s : pci_state D V.
Abbreviation cfg_of s := (pci_cfg (pci_hw s)).

(** No function on the list yet. *)
Definition pci_fresh s live : Prop :=
  pci_device_list s = 0 ∧ pci_device_count s = 0 ∧ pci_dropped s = [] ∧ ra_live (pci_vm s) live.

Lemma pci_enumerate_spec s live :
  pci_fresh s live → bridges_ordered (cfg_of s) →
  run vm_panic (pci_enumerate 255) (λ _ s', ∃ devs,
    scan_inv (cfg_of s) live s' devs ∧
    (∀ b d f, (b, d, f) ∈ devs → bus_reached (cfg_of s) b ∧ enumerable (cfg_of s) b d f) ∧
    (pci_dropped s' = [] → ∀ b d f, bus_reached (cfg_of s) b → enumerable (cfg_of s) b d f → (b, d, f) ∈ devs) ∧
    (bridges_unique (cfg_of s) → NoDup devs)) s.
Proof.
  intros (Hl & Hn & Hdr & Hra) Hord. assert (in_width 8 0) as H0 by (unfold in_width; lia). eapply run_mono.
  { apply (scan_bus_spec (cfg_of s) 255 0 Hord H0 ltac:(lia) live s []). split; [done|by rewrite Hn|]. exists [], live. done. }
  intros [] s' (new & dr & Hs' & Hd & Hsub & Hall). rewrite app_nil_r in Hs'. rewrite Hdr in Hd. cbn in Hd.
  exists (reverse new). split_and!; [done|..].
  - intros b d f Hx%(proj1 (elem_of_reverse _ _)). apply found_iff; [done|]. exact (elem_of_sublist _ _ _ Hx Hsub).
  - intros Hz b d f Hb He. apply elem_of_reverse. rewrite Hall by congruence. by apply found_iff.
  - intros Hu. rewrite reverse_Permutation. eapply sublist_NoDup; [|done]. by apply found_bus_nodup.
Qed.

(** C18. Enumeration ends when every bridge leads to a higher bus, and links one
    node for each function that can be reached from bus 0, filled with what
    configuration space says of it: no other function, each one once if no two
    bridges lead to the same bus, and all of them unless the system log names one
    as dropped for want of memory. *)
Theorem pci_enumerate_correct s live :
  pci_fresh s live → bridges_ordered (cfg_of s) →
  run vm_panic (pci_enumerate 255) (λ _ s', ∃ devs,
    scan_inv (cfg_of s) live s' devs ∧
    (∀ b d f, (b, d, f) ∈ devs → bus_reached (cfg_of s) b ∧ enumerable (cfg_of s) b d f) ∧
    (pci_dropped s' = [] → ∀ b d f, bus_reached (cfg_of s) b → enumerable (cfg_of s) b d f → (b, d, f) ∈ devs) ∧
    (bridges_unique (cfg_of s) → NoDup devs)) s.
Proof. apply pci_enumerate_spec. Qed.

(** A search by class after enumeration finds a device of the class if there
    is one that can be reached, and nothing otherwise. *)
Theorem pci_search_after_enumeration s live c sc :
  pci_fresh s live → bridges_ordered (cfg_of s) →
  run vm_panic (pci_enumerate 255;; pci_find_by_class c sc) (λ r s', pci_dropped s' = [] →
    match r with
    | Some dv => ∃ b d f, bus_reached (cfg_of s) b ∧ enumerable (cfg_of s) b d f ∧ dv = dev_at (cfg_of s) (b, d, f) ∧
                   class_code dv = c ∧ subclass dv = sc
    | None => ∀ b d f, bus_reached (cfg_of s) b → enumerable (cfg_of s) b d f →
                ¬ (cfg_byte (cfg_of s) b d f 0x0B = c ∧ cfg_byte (cfg_of s) b d f 0x0A = sc)
    end) s.
Proof.
  intros Hf Hord. run_step. eapply run_mono; [by apply pci_enumerate_spec|].
  intros [] s1 (devs & Hinv & Hin & Hall & _). unfold pci_find_by_class. run_step. run_step.
  eapply run_weaken; [by eapply find_spec|done|]. intros r s2 [-> ->] Hd.
  destruct (List.find _ _) as [dv|] eqn:Hfind.
  - apply List.find_some in Hfind as [Hx Hw]. apply list_elem_of_In, list_elem_of_fmap in Hx as ([[b d] f] & -> & Hx).
    apply andb_true_iff in Hw as [?%Z.eqb_eq ?%Z.eqb_eq]. exists b, d, f. apply Hin in Hx as [??]. done.
  - intros b d f Hb He [Hc1 Hc2]. assert (dev_at (cfg_of s) (b, d, f) ∈ dev_at (cfg_of s) <$> devs) as Hx%list_elem_of_In
      by (apply list_elem_of_fmap_2, Hall; done).
    apply (List.find_none _ _ Hfind) in Hx. cbn in Hx. by rewrite Hc1, Hc2, !Z.eqb_refl in Hx.
Qed.
End Theorems.
