(* ===== verification/PciDemo.v ===== *)
(** A PCI bus with a host bridge, a bridge and a disk controller behind it. *)

From S2P Require Import Prelude Vmalloc VmallocSpec Kmalloc KmallocDemo Pci PciSpec PciEnum.

(** The latched address, and the double words of configuration space; there is
    nothing else on the bus. *)
Definition demo_bus : Type := Z * gmap Z Z.

#[export] Instance demo_ports : PciPorts demo_bus := {
  port_outl port v h :=
    if port =? PCI_CONFIG_ADDRESS then (v, h.2)
    else if (port =? PCI_CONFIG_DATA) && Z.testbit h.1 31 then (h.1, <[h.1 := v]> h.2) else h;
  port_inl port h := if port =? PCI_CONFIG_DATA then (u32 (default 0xFFFFFFFF (h.2 !! h.1)), h) else (0xFFFFFFFF, h)
}.

#[export] Program Instance demo_pci_bus : PciBus demo_bus := {
  pci_sel h := h.1;
  pci_cfg h a := u32 (default 0xFFFFFFFF (h.2 !! a));
  pci_accept _ _ v := v
}.
Next Obligation. done. Qed.
Next Obligation. done. Qed.
Next Obligation.
  intros [sel m] v Hs Hv. cbn in *. rewrite Hs. cbn. split; [done|]. intros a. case_bool_decide as Ha.
  - subst. rewrite lookup_insert_eq. by apply wrap_small.
  - by rewrite lookup_insert_ne.
Qed.
Next Obligation. intros h a. by apply wrap_range. Qed.

Definition demo_words : gmap Z Z := list_to_map [
  (pci_address 0 0 0 0x00, 0x12378086); (pci_address 0 0 0 0x08, 0x06000000); (pci_address 0 0 0 0x0C, 0);
  (pci_address 0 1 0 0x00, 0x00018086); (pci_address 0 1 0 0x08, 0x06040000); (pci_address 0 1 0 0x0C, 0x00010000);
  (pci_address 0 1 0 0x18, 0x00010100);
  (pci_address 1 0 0 0x00, 0x58451B36); (pci_address 1 0 0 0x04, 0x00100000); (pci_address 1 0 0 0x08, 0x01080200);
  (pci_address 1 0 0 0x0C, 0); (pci_address 1 0 0 0x10, 0xFEBF0004); (pci_address 1 0 0 0x14, 0);
  (pci_address 1 0 0 0x34, 0x40); (pci_address 1 0 0 0x40, 0x5001); (pci_address 1 0 0 0x50, 0x00070011);
  (pci_address 1 0 0 0x54, 0x2000)].

#[local] Existing Instance KmallocDemo.bump.
#[local] Existing Instance KmallocDemo.bump_laws.

Definition demo_pci : pci_state demo_bus Z := mkPci (0, demo_words) 4096 ∅ 0 0 [].

Lemma demo_fresh : pci_fresh demo_pci [].
Proof.
  split_and!; try done. split; [done|]. split; [done|]. split; [done|]. intros x Hx. by apply covered_nil in Hx.
Qed.

(** The functions that answer. *)
Lemma demo_present b d f :
  valid_bdf b d f → present (pci_cfg (pci_hw demo_pci)) b d f = true → (b, d, f) ∈ [(0, 0, 0); (0, 1, 0); (1, 0, 0)].
Proof.
  intros Hv. unfold present, cfg_word, cfg_byte. rewrite (pci_address_block b d f (0 + 1) 0) by (done || by vm_compute).
  cbn [pci_cfg demo_pci_bus pci_hw demo_pci snd]. destruct (demo_words !! pci_address b d f 0) as [v|] eqn:Hl.
  - intros _. apply elem_of_list_to_map_2 in Hl.
    assert (∀ b' d' f' off, in_width 8 off → valid_bdf b' d' f' → pci_address b d f 0 = pci_address b' d' f' off →
      (b, d, f) = (b', d', f')) as Hinj.
    { intros b' d' f' off Ho Hv' He. by apply pci_address_inj in He as (-> & -> & -> & _). }
    rewrite !elem_of_cons in Hl. rewrite !elem_of_cons.
    repeat (destruct Hl as [Hl|Hl]; [injection Hl as Hl _; apply Hinj in Hl; [tauto|by vm_compute|split_and!; by vm_compute]|]).
    by apply not_elem_of_nil in Hl.
  - by vm_compute.
Qed.

Lemma demo_ordered : bridges_ordered (pci_cfg (pci_hw demo_pci)).
Proof.
  intros b d f Hb (Hd & Hf & _ & Hp & _) Hbr Hs.
  pose proof (demo_present b d f ltac:(done) Hp) as Hin. rewrite !elem_of_cons in Hin.
  destruct Hin as [H|[H|[H|H]]]; [injection H as -> -> -> ..|by apply not_elem_of_nil in H]; by vm_compute in Hbr, Hs |- *.
Qed.

Lemma pci_enumerate_correct_witness :
  run vm_panic (pci_enumerate 255) (λ _ s', ∃ devs,
    scan_inv (pci_cfg (pci_hw demo_pci)) [] s' devs ∧
    (∀ b d f, (b, d, f) ∈ devs → bus_reached (pci_cfg (pci_hw demo_pci)) b ∧ enumerable (pci_cfg (pci_hw demo_pci)) b d f) ∧
    (pci_dropped s' = [] → ∀ b d f, bus_reached (pci_cfg (pci_hw demo_pci)) b → enumerable (pci_cfg (pci_hw demo_pci)) b d f →
      (b, d, f) ∈ devs) ∧
    (bridges_unique (pci_cfg (pci_hw demo_pci)) → NoDup devs)) demo_pci.
Proof. exact (pci_enumerate_correct demo_pci [] demo_fresh demo_ordered). Defined.

Lemma pci_search_after_enumeration_witness :
  run vm_panic (pci_enumerate 255;; pci_find_by_class 0x01 0x08) (λ r s', pci_dropped s' = [] →
    match r with
    | Some dv => ∃ b d f, bus_reached (pci_cfg (pci_hw demo_pci)) b ∧ enumerable (pci_cfg (pci_hw demo_pci)) b d f ∧
                   dv = dev_at (pci_cfg (pci_hw demo_pci)) (b, d, f) ∧ class_code dv = 0x01 ∧ subclass dv = 0x08
    | None => ∀ b d f, bus_reached (pci_cfg (pci_hw demo_pci)) b → enumerable (pci_cfg (pci_hw demo_pci)) b d f →
                ¬ (cfg_byte (pci_cfg (pci_hw demo_pci)) b d f 0x0B = 0x01 ∧ cfg_byte (pci_cfg (pci_hw demo_pci)) b d f 0x0A = 0x08)
    end) demo_pci.
Proof. exact (pci_search_after_enumeration demo_pci [] 0x01 0x08 demo_fresh demo_ordered). Defined.

Definition demo_disk : pci_device_t := dev_at (pci_cfg (pci_hw demo_pci)) (1, 0, 0).

(** The run itself: three functions, the disk found by its class. *)
Example demo_enumerate :
  match (pci_enumerate 255;; pci_find_by_class 0x01 0x08) demo_pci with
  | Ok (Some dv, s') => dv = demo_disk ∧ pci_device_count s' = 3 ∧ pci_dropped s' = []
  | _ => False
  end.
Proof. vm_compute. auto. Qed.

Lemma pci_config_access_correct_witness :
  on_bus demo_disk ∧
  wp (pci_cfg_read16 (Some demo_disk) 0x52) (λ v s', same_but_latch demo_pci s' ∧ v = 7) demo_pci ∧
  wp (pci_cfg_write16 (Some demo_disk) 0x52 0x8007) (λ _ s', wrote demo_disk 0x52 2 0x8007 demo_pci s') demo_pci.
Proof.
  assert (on_bus demo_disk) as Hb by (split_and!; by vm_compute).
  destruct (pci_config_access_correct demo_disk demo_pci Hb) as (_ & H16 & _ & Hw & _).
  split; [exact Hb|]. split; [apply (H16 0x52); by vm_compute|]. apply (Hw 0x52 0x8007); done.
Defined.

Lemma demo_caps q : cap_on_list (pci_cfg (pci_hw demo_pci)) demo_disk q → q = 0x40 ∨ q = 0x50.
Proof.
  induction 1 as [_|p _ IH Hn]; [left; by vm_compute|]. destruct IH as [-> | ->]; [right; by vm_compute|].
  exfalso. by vm_compute in Hn.
Qed.

Lemma pci_find_capability_correct_witness :
  wp (pci_find_capability (Some demo_disk) 0x11) (λ r s', same_but_latch demo_pci s' ∧
    match r with
    | Some p => has_caps (pci_cfg (pci_hw demo_pci)) demo_disk = true ∧ cap_on_list (pci_cfg (pci_hw demo_pci)) demo_disk p ∧
                cfg_byte (pci_cfg (pci_hw demo_pci)) (bus demo_disk) (device demo_disk) (function demo_disk) p = 0x11
    | None => has_caps (pci_cfg (pci_hw demo_pci)) demo_disk = true →
              ∀ p, cap_on_list (pci_cfg (pci_hw demo_pci)) demo_disk p →
                cfg_byte (pci_cfg (pci_hw demo_pci)) (bus demo_disk) (device demo_disk) (function demo_disk) p ≠ 0x11
    end) demo_pci.
Proof.
  apply pci_find_capability_correct; [split_and!; by vm_compute|]. intros q Hq. by destruct (demo_caps q Hq) as [-> | ->].
Defined.

Example demo_find_msix :
  match pci_find_capability (Some demo_disk) 0x11 demo_pci with Ok (r, _) => r = Some 0x50 | _ => False end.
Proof. by vm_compute. Qed.

(** A bridge that leads back to its own bus is followed without end: the
    numbering of buses is taken on trust. *)
Definition demo_loop_words : gmap Z Z := list_to_map [
  (pci_address 0 0 0 0x00, 0x00018086); (pci_address 0 0 0 0x0C, 0x00010000); (pci_address 0 0 0 0x18, 0x00010100);
  (pci_address 1 0 0 0x00, 0x00018086); (pci_address 1 0 0 0x0C, 0x00010000); (pci_address 1 0 0 0x18, 0x00010100)].

Example demo_bridge_loop :
  pci_enumerate 1000 (mkPci (0, demo_loop_words) 4096 ∅ 0 0 [] : pci_state demo_bus Z) = Hang.
Proof. by vm_compute. Qed.
