(* ===== verification/Nvme.v ===== *)
(** The NVMe driver (arch/x86_64/drivers/block/nvme.h, nvme.c), all but the bring-up
    of the controller: queues, commands, physical region pages, reads and writes.

    The controller and the memory it shares with the driver are hardware: class
    [NvmeIo] has the accesses, each of which may find that the controller has gone
    on meanwhile.  Pages come from the frame allocator (Pmm).  The loops that wait
    for the controller are bounded by fuel; they hang without it. *)

From S2P Require Import Prelude Boot Pmm.

Definition NVME_ADMIN_QUEUE_DEPTH : Z := 64.
Definition NVME_IO_QUEUE_DEPTH : Z := 64.
Definition NVME_ADMIN_QUEUE_ID : Z := 0.
Definition NVME_IO_QUEUE_ID : Z := 1.
Definition NVME_NAMESPACE_ID : Z := 1.
Definition NVME_NVM_OPC_WRITE : Z := 0x01.
Definition NVME_NVM_OPC_READ : Z := 0x02.

Record nvme_sqe_t : Type := mkSqe {
  cdw0 : Z; nsid : Z; sqe_res : Z; mptr : Z; sqe_prp1 : Z; sqe_prp2 : Z;
  cdw10 : Z; cdw11 : Z; cdw12 : Z; cdw13 : Z; cdw14 : Z; cdw15 : Z
}.
Definition zero_sqe : nvme_sqe_t := mkSqe 0 0 0 0 0 0 0 0 0 0 0 0.
Definition SQE_BYTES : Z := 64.

Record nvme_cqe_t : Type := mkCqe { dw0 : Z; dw1 : Z; sq_head : Z; sq_id : Z; cqe_cid : Z; cqe_status : Z }.
Definition CQE_BYTES : Z := 16.

(** The fields of [nvme_ctrl_t], those of the two pairs of queues in records of
    their own.  Addresses are virtual, 0 the null pointer. *)
Record admin_queues : Type := mkAdmin {
  asq : Z; acq : Z; asq_phys : Z; acq_phys : Z;
  admin_q_depth : Z; asq_tail : Z; acq_head : Z; acq_phase : Z
}.

Record io_queues : Type := mkIo {
  iosq : Z; iocq : Z; iosq_phys : Z; iocq_phys : Z;
  io_q_depth : Z; iosq_tail : Z; iosq_head : Z; iocq_head : Z; iocq_phase : Z
}.

Record nvme_ctrl_t : Type := mkCtrl {
  bar : Z;
  doorbell_stride : Z;
  admin : admin_queues;
  io : io_queues;
  next_admin_cid : Z;
  next_io_cid : Z;
  mdts_bytes : Z;
  lba_size : Z;
  lba_shift : Z;
  msix_enabled : bool;
  msix_vector : Z;
  ready : bool;
  admin_lock : bool;
  io_lock : bool
}.

Definition zero_ctrl : nvme_ctrl_t :=
  mkCtrl 0 0 (mkAdmin 0 0 0 0 0 0 0 0) (mkIo 0 0 0 0 0 0 0 0 0) 0 0 0 0 0 false 0 false false false.

Record nvme_cmd_state_t : Type := mkCmd { in_use : Z; done_ : Z; cmd_status : Z; cmd_result : Z }.

Class NvmeIo (D : Type) : Type := {
  (** Registers of the controller. *)
  hw_read32 : Z → D → Z * D;
  hw_read64 : Z → D → Z * D;
  hw_write32 : Z → Z → D → D;
  hw_write64 : Z → Z → D → D;
  (** Memory. *)
  mem_load8 : Z → D → Z * D;
  mem_store64 : Z → Z → D → D;
  mem_zero : Z → Z → D → D;
  mem_store_sqe : Z → nvme_sqe_t → D → D;
  mem_load_cqe : Z → D → nvme_cqe_t * D
}.

Record nvme_state (D : Type) : Type := mkNvme {
  nv_hw : D;
  nv_pmm : pmm_state;
  g_nvme : nvme_ctrl_t;
  g_io_cmd_state : list nvme_cmd_state_t
}.
Arguments mkNvme {D}. Arguments nv_hw {D}. Arguments nv_pmm {D}. Arguments g_nvme {D}. Arguments g_io_cmd_state {D}.

(** Updates of single fields of the queues. *)
Definition set_asq_tail (t : Z) (a : admin_queues) : admin_queues :=
  mkAdmin (asq a) (acq a) (asq_phys a) (acq_phys a) (admin_q_depth a) t (acq_head a) (acq_phase a).
Definition set_acq_head (h p : Z) (a : admin_queues) : admin_queues :=
  mkAdmin (asq a) (acq a) (asq_phys a) (acq_phys a) (admin_q_depth a) (asq_tail a) h p.
Definition set_iosq_tail (t : Z) (q : io_queues) : io_queues :=
  mkIo (iosq q) (iocq q) (iosq_phys q) (iocq_phys q) (io_q_depth q) t (iosq_head q) (iocq_head q) (iocq_phase q).
Definition set_iocq_head (sqh h p : Z) (q : io_queues) : io_queues :=
  mkIo (iosq q) (iocq q) (iosq_phys q) (iocq_phys q) (io_q_depth q) (iosq_tail q) sqh h p.

Definition with_admin (a : admin_queues) (c : nvme_ctrl_t) : nvme_ctrl_t :=
  mkCtrl (bar c) (doorbell_stride c) a (io c) (next_admin_cid c) (next_io_cid c) (mdts_bytes c) (lba_size c) (lba_shift c)
    (msix_enabled c) (msix_vector c) (ready c) (admin_lock c) (io_lock c).
Definition with_io (q : io_queues) (c : nvme_ctrl_t) : nvme_ctrl_t :=
  mkCtrl (bar c) (doorbell_stride c) (admin c) q (next_admin_cid c) (next_io_cid c) (mdts_bytes c) (lba_size c) (lba_shift c)
    (msix_enabled c) (msix_vector c) (ready c) (admin_lock c) (io_lock c).
Definition with_cids (a i : Z) (c : nvme_ctrl_t) : nvme_ctrl_t :=
  mkCtrl (bar c) (doorbell_stride c) (admin c) (io c) a i (mdts_bytes c) (lba_size c) (lba_shift c)
    (msix_enabled c) (msix_vector c) (ready c) (admin_lock c) (io_lock c).
Definition with_locks (a i : bool) (c : nvme_ctrl_t) : nvme_ctrl_t :=
  mkCtrl (bar c) (doorbell_stride c) (admin c) (io c) (next_admin_cid c) (next_io_cid c) (mdts_bytes c) (lba_size c) (lba_shift c)
    (msix_enabled c) (msix_vector c) (ready c) a i.

(** [cmd->cdw0 |= (uint32_t)cid << 16] *)
Definition tag_cid (cid : Z) (e : nvme_sqe_t) : nvme_sqe_t :=
  mkSqe (Z.lor (cdw0 e) (u32 (Z.shiftl cid 16))) (nsid e) (sqe_res e) (mptr e) (sqe_prp1 e) (sqe_prp2 e)
    (cdw10 e) (cdw11 e) (cdw12 e) (cdw13 e) (cdw14 e) (cdw15 e).

(** * Helpers *)

Definition nvme_sq_tdbl (bar qid stride : Z) : Z := u64 (bar + 0x1000 + u32 (2 * qid * stride)).
Definition nvme_cq_hdbl (bar qid stride : Z) : Z := u64 (bar + 0x1000 + u32 ((2 * qid + 1) * stride)).

Definition nvme_calc_depth (desired cap_mqes entry_size : Z) : Z :=
  let max_hw := u16 (cap_mqes + 1) in
  let depth := if desired <? max_hw then desired else max_hw in
  let max_page := u16 (PMM_PAGE_SIZE / entry_size) in
  let depth := if depth >? max_page then max_page else depth in
  if depth <? 2 then 0 else depth.

Record nvme_prp_t : Type := mkPrp { prp1 : Z; prp2 : Z; prp_list_virt : Z; prp_list_phys : Z }.

Section Driver.
Context (lay : kernel_layout).
Context {D : Type} `{!NvmeIo D}.
Abbreviation state := (nvme_state D).
Implicit Types s : state.

Definition set_nv_hw (d : D) s : state := mkNvme d (nv_pmm s) (g_nvme s) (g_io_cmd_state s).
Definition set_nv_pmm (p : pmm_state) s : state := mkNvme (nv_hw s) p (g_nvme s) (g_io_cmd_state s).
Definition set_ctrl (c : nvme_ctrl_t) s : state := mkNvme (nv_hw s) (nv_pmm s) c (g_io_cmd_state s).
Definition set_cmds (l : list nvme_cmd_state_t) s : state := mkNvme (nv_hw s) (nv_pmm s) (g_nvme s) l.

Definition hw_do (f : D → D) : M state unit := modify (λ s, set_nv_hw (f (nv_hw s)) s).
Definition hw_get {A} (f : D → A * D) : M state A := λ s, let r := f (nv_hw s) in Ok (r.1, set_nv_hw r.2 s).
Definition update_ctrl (f : nvme_ctrl_t → nvme_ctrl_t) : M state unit := modify (λ s, set_ctrl (f (g_nvme s)) s).

Definition lock_admin : M state unit :=
  acquire (λ s, admin_lock (g_nvme s)) (λ b s, set_ctrl (with_locks b (io_lock (g_nvme s)) (g_nvme s)) s).
Definition unlock_admin : M state unit :=
  release (λ b s, set_ctrl (with_locks b (io_lock (g_nvme s)) (g_nvme s)) s).
Definition lock_io : M state unit :=
  acquire (λ s, io_lock (g_nvme s)) (λ b s, set_ctrl (with_locks (admin_lock (g_nvme s)) b (g_nvme s)) s).
Definition unlock_io : M state unit :=
  release (λ b s, set_ctrl (with_locks (admin_lock (g_nvme s)) b (g_nvme s)) s).

(** An index into [g_io_cmd_state]. *)
Definition cmd_at (cid : Z) : M state nvme_cmd_state_t :=
  λ s, match g_io_cmd_state s !! Z.to_nat cid with Some c => Ok (c, s) | None => Fault end.
Definition set_cmd (cid : Z) (c : nvme_cmd_state_t) : M state unit :=
  λ s, match g_io_cmd_state s !! Z.to_nat cid with
       | Some _ => Ok (tt, set_cmds (<[Z.to_nat cid := c]> (g_io_cmd_state s)) s)
       | None => Fault
       end.

(** Waiting for a register; the delay between two looks has no effect. *)
Definition nvme_poll (reg mask expected iters : Z) : M state Z :=
  let! r := for_loop (Z.to_nat iters) 0 1 (λ _,
    let! v := hw_get (hw_read32 reg) in
    ret (if Z.land v mask =? expected then Some tt else None)) in
  ret (match r with Some _ => 0 | None => -1 end).

(** * Physical region pages *)

Fixpoint prp_entries (n : nat) (list page_addr i : Z) : M state unit :=
  match n with
  | O => ret tt
  | S n' =>
      hw_do (mem_store64 (u64 (list + 8 * i)) (pmm_virt_to_phys lay page_addr));;
      prp_entries n' list (u64 (page_addr + PMM_PAGE_SIZE)) (i + 1)
  end.

Definition nvme_build_prp (buf len : Z) : M state (option nvme_prp_t) :=
  if (buf =? 0) || (len =? 0) then ret None
  else
    let vaddr := buf in
    let phys := pmm_virt_to_phys lay vaddr in
    let offset := Z.land vaddr (PMM_PAGE_SIZE - 1) in
    let first_bytes := PMM_PAGE_SIZE - offset in
    if len <=? first_bytes then ret (Some (mkPrp phys 0 0 0))
    else
      let remaining := len - first_bytes in
      let page_count := u64 (remaining + PMM_PAGE_SIZE - 1) / PMM_PAGE_SIZE in
      let max_entries := PMM_PAGE_SIZE / 8 in
      if page_count >? max_entries then ret None
      else
        let! list := zoom nv_pmm set_nv_pmm (pmm_alloc_page lay) in
        if list =? 0 then ret None
        else
          hw_do (mem_zero list PMM_PAGE_SIZE);;
          let list_phys := pmm_virt_to_phys lay list in
          prp_entries (Z.to_nat page_count) list (u64 (vaddr + first_bytes)) 0;;
          ret (Some (mkPrp phys list_phys list list_phys)).

(** The structure is not read after it is freed. *)
Definition nvme_free_prp (prp : nvme_prp_t) : M state unit :=
  if negb (prp_list_virt prp =? 0) then zoom nv_pmm set_nv_pmm (pmm_free_page lay (prp_list_virt prp)) else ret tt.

(** * Completions and commands *)

(** One completion taken off the queue. *)
Definition complete_one (entry : Z) (status : Z) : M state unit :=
  let! cid := hw_get (λ d, let r := mem_load_cqe entry d in (cqe_cid r.1, r.2)) in
  let! s := get in
  (if cid <? io_q_depth (io (g_nvme s)) then
     let! c := cmd_at cid in
     let! result := hw_get (λ d, let r := mem_load_cqe entry d in (dw0 r.1, r.2)) in
     set_cmd cid (mkCmd (in_use c) (done_ c) (Z.shiftr status 1) result);;
     set_cmd cid (mkCmd (in_use c) 1 (Z.shiftr status 1) result)
   else ret tt);;
  let! sqh := hw_get (λ d, let r := mem_load_cqe entry d in (sq_head r.1, r.2)) in
  update_ctrl (λ c,
    let head := u16 (iocq_head (io c) + 1) in
    if head =? io_q_depth (io c) then with_io (set_iocq_head sqh 0 (Z.lxor (iocq_phase (io c)) 1) (io c)) c
    else with_io (set_iocq_head sqh head (iocq_phase (io c)) (io c)) c).

(** The loop: [true] when something was processed. *)
Fixpoint poll_loop (fuel : nat) (processed : bool) : M state bool :=
  match fuel with
  | O => λ _, Hang
  | S fuel' =>
      let! s := get in
      let q := io (g_nvme s) in
      let entry := u64 (iocq q + CQE_BYTES * iocq_head q) in
      let! status := hw_get (λ d, let r := mem_load_cqe entry d in (cqe_status r.1, r.2)) in
      if negb (Z.land status 1 =? iocq_phase q) then ret processed
      else complete_one entry status;; poll_loop fuel' true
  end.

(** The controller never has more completions outstanding than the queue holds, so
    [io_q_depth] rounds are enough. *)
Definition nvme_poll_completions : M state unit :=
  let! s := get in
  if (iocq (io (g_nvme s)) =? 0) || (bar (g_nvme s) =? 0) || (io_q_depth (io (g_nvme s)) =? 0) then ret tt
  else
    lock_io;;
    let! processed := poll_loop (Z.to_nat (io_q_depth (io (g_nvme s)))) false in
    (if processed then
       let! s := get in
       let c := g_nvme s in
       hw_do (hw_write32 (nvme_cq_hdbl (bar c) NVME_IO_QUEUE_ID (doorbell_stride c)) (iocq_head (io c)))
     else ret tt);;
    unlock_io.

Definition nvme_alloc_cid : M state (option Z) :=
  let! s := get in
  let depth := io_q_depth (io (g_nvme s)) in
  if depth =? 0 then ret None
  else
    let start := next_io_cid (g_nvme s) in
    for_loop (Z.to_nat depth) 0 1 (λ i,
      let cid := u16 ((start + i) mod depth) in
      let! c := cmd_at cid in
      if in_use c =? 0 then
        set_cmd cid (mkCmd 1 0 0 0);;
        update_ctrl (λ g, with_cids (next_admin_cid g) (u16 ((cid + 1) mod depth)) g);;
        ret (Some cid)
      else ret None).

Definition nvme_release_cid (cid : Z) : M state unit :=
  let! s := get in
  if cid >=? io_q_depth (io (g_nvme s)) then ret tt
  else
    let! c := cmd_at cid in
    set_cmd cid (mkCmd 0 0 (cmd_status c) (cmd_result c)).

Definition nvme_submit_io (cmd : nvme_sqe_t) : M state (option Z) :=
  let! s := get in
  if iosq (io (g_nvme s)) =? 0 then ret None
  else
    lock_io;;
    let! r := nvme_alloc_cid in
    match r with
    | None => unlock_io;; ret None
    | Some cid =>
        let! s := get in
        let q := io (g_nvme s) in
        let tail := iosq_tail q in
        let next_tail := u16 ((tail + 1) mod io_q_depth q) in
        if next_tail =? iosq_head q then
          nvme_release_cid cid;; unlock_io;; ret None
        else
          hw_do (mem_store_sqe (u64 (iosq q + SQE_BYTES * tail)) (tag_cid cid cmd));;
          update_ctrl (λ g, with_io (set_iosq_tail next_tail (io g)) g);;
          let! s := get in
          hw_do (hw_write32 (nvme_sq_tdbl (bar (g_nvme s)) NVME_IO_QUEUE_ID (doorbell_stride (g_nvme s))) (iosq_tail (io (g_nvme s))));;
          unlock_io;;
          ret (Some cid)
    end.

Fixpoint wait_done (fuel : nat) (cid : Z) : M state unit :=
  match fuel with
  | O => λ _, Hang
  | S fuel' =>
      let! c := cmd_at cid in
      if done_ c =? 0 then nvme_poll_completions;; wait_done fuel' cid else ret tt
  end.

(** The return value, the result and the status. *)
Definition nvme_wait_cid (fuel : nat) (cid : Z) : M state (bool * Z * Z) :=
  wait_done fuel cid;;
  let! c := cmd_at cid in
  let result := cmd_result c in
  let! c := cmd_at cid in
  let status := cmd_status c in
  lock_io;;
  nvme_release_cid cid;;
  unlock_io;;
  ret (status =? 0, result, status).

(** * Reading and writing *)

(** The two differ in the operation code. *)
Definition nvme_transfer (fuel : nat) (opcode sector count buf : Z) : M state bool :=
  let! s := get in
  let c := g_nvme s in
  if negb (ready c) || (buf =? 0) || (count =? 0) then ret false
  else if count >? 0x10000 then ret false
  else
    let bytes := u64 (count * lba_size c) in
    if (lba_size c =? 0) || negb (bytes / lba_size c =? count) then ret false
    else if negb (mdts_bytes c =? 0) && (bytes >? mdts_bytes c) then ret false
    else
      let! r := nvme_build_prp buf bytes in
      match r with
      | None => ret false
      | Some prp =>
          let cmd := mkSqe opcode NVME_NAMESPACE_ID 0 0 (prp1 prp) (prp2 prp) (Z.land sector 0xFFFFFFFF)
                       (u32 (Z.shiftr sector 32)) (Z.land (count - 1) 0xFFFF) 0 0 0 in
          let! r := nvme_submit_io cmd in
          match r with
          | None => nvme_free_prp prp;; ret false
          | Some cid =>
              let! w := nvme_wait_cid fuel cid in
              nvme_free_prp prp;;
              ret w.1.1
          end
      end.

Definition nvme_read (fuel : nat) (sector count buf : Z) : M state bool := nvme_transfer fuel NVME_NVM_OPC_READ sector count buf.
Definition nvme_write (fuel : nat) (sector count buf : Z) : M state bool := nvme_transfer fuel NVME_NVM_OPC_WRITE sector count buf.

(** * Administrative commands *)

Fixpoint admin_wait (fuel : nat) : M state nvme_cqe_t :=
  match fuel with
  | O => λ _, Hang
  | S fuel' =>
      let! s := get in
      let a := admin (g_nvme s) in
      let entry := u64 (acq a + CQE_BYTES * acq_head a) in
      let! status := hw_get (λ d, let r := mem_load_cqe entry d in (cqe_status r.1, r.2)) in
      if negb (Z.land status 1 =? acq_phase a) then admin_wait fuel'
      else
        let! cqe := hw_get (mem_load_cqe entry) in
        update_ctrl (λ c,
          let head := u16 (acq_head (admin c) + 1) in
          if head =? admin_q_depth (admin c) then with_admin (set_acq_head 0 (Z.lxor (acq_phase (admin c)) 1) (admin c)) c
          else with_admin (set_acq_head head (acq_phase (admin c)) (admin c)) c);;
        let! s := get in
        let c := g_nvme s in
        hw_do (hw_write32 (nvme_cq_hdbl (bar c) NVME_ADMIN_QUEUE_ID (doorbell_stride c)) (acq_head (admin c)));;
        ret cqe
  end.

(** The return value; every caller passes null for the two outputs. *)
Definition nvme_admin_cmd (fuel : nat) (cmd : nvme_sqe_t) : M state bool :=
  let! s := get in
  if (bar (g_nvme s) =? 0) || (asq (admin (g_nvme s)) =? 0) || (acq (admin (g_nvme s)) =? 0) then ret false
  else
    lock_admin;;
    let! s := get in
    let c := g_nvme s in
    let cid := next_admin_cid c in
    let tail := asq_tail (admin c) in
    update_ctrl (λ c, with_cids (u16 (cid + 1)) (next_io_cid c) c);;
    hw_do (mem_store_sqe (u64 (asq (admin c) + SQE_BYTES * tail)) (tag_cid cid cmd));;
    update_ctrl (λ c, with_admin (set_asq_tail (u16 ((tail + 1) mod admin_q_depth (admin c))) (admin c)) c);;
    let! s := get in
    hw_do (hw_write32 (nvme_sq_tdbl (bar (g_nvme s)) NVME_ADMIN_QUEUE_ID (doorbell_stride (g_nvme s))) (asq_tail (admin (g_nvme s))));;
    let! cqe := admin_wait fuel in
    unlock_admin;;
    let status := Z.shiftr (cqe_status cqe) 1 in
    if negb (cqe_cid cqe =? cid) then ret false
    else ret (status =? 0).
End Driver.
