(* ===== verification/NvmeSpec.v ===== *)
(** The NVMe driver against the abstract queue pair of the specification.

    [qpair] is what the controller and the memory of one submission and one
    completion queue come to: counts never wrap, the wrapped indices and the phase
    tag are derived from them.  [qstep] is what the controller may do at any time.
    The laws of class [NvmeQueues] say that loads, stores and doorbells act on it
    in this way. *)

From stdpp Require Import relations.
From S2P Require Import Prelude Boot Frames Pmm Nvme.

(** * The queue pair *)

Record completion : Type := mkCompletion { c_dw0 : Z; c_cid : Z; c_status : Z; c_fetched : nat }.

Record qpair : Type := mkQ {
  q_slots : list nvme_sqe_t;      (* the submission queue's memory *)
  q_tail : nat;                   (* commands announced by the tail doorbell *)
  q_fetched : nat;                (* commands the controller has taken *)
  q_pending : list nvme_sqe_t;    (* taken and not yet completed *)
  q_log : list nvme_sqe_t;        (* every command taken, in order *)
  q_posted : list completion;     (* every completion posted, in order *)
  q_released : nat                (* completions given back by the head doorbell *)
}.

Definition sqe_cid (e : nvme_sqe_t) : Z := cdw0 e / 2 ^ 16 mod 2 ^ 16.

Lemma sqe_cid_range e : in_width 16 (sqe_cid e).
Proof. apply Z.mod_pos_bound. lia. Qed.

Definition q_set_slot (i : nat) (e : nvme_sqe_t) (q : qpair) : qpair :=
  mkQ (<[i := e]> (q_slots q)) (q_tail q) (q_fetched q) (q_pending q) (q_log q) (q_posted q) (q_released q).
Definition q_set_tail (t : nat) (q : qpair) : qpair :=
  mkQ (q_slots q) t (q_fetched q) (q_pending q) (q_log q) (q_posted q) (q_released q).
Definition q_set_released (r : nat) (q : qpair) : qpair :=
  mkQ (q_slots q) (q_tail q) (q_fetched q) (q_pending q) (q_log q) (q_posted q) r.

Section Queue.
Context (depth : nat).

Inductive qstep : qpair → qpair → Prop :=
  | q_fetch q e : (q_fetched q < q_tail q)%nat → q_slots q !! (q_fetched q `mod` depth)%nat = Some e →
      qstep q (mkQ (q_slots q) (q_tail q) (S (q_fetched q)) (q_pending q ++ [e]) (q_log q ++ [e]) (q_posted q) (q_released q))
  | q_post q e l1 l2 c : q_pending q = l1 ++ e :: l2 → (S (length (q_posted q)) < q_released q + depth)%nat →
      c_cid c = sqe_cid e → c_fetched c = q_fetched q → in_width 15 (c_status c) → in_width 32 (c_dw0 c) →
      qstep q (mkQ (q_slots q) (q_tail q) (q_fetched q) (l1 ++ l2) (q_log q) (q_posted q ++ [c]) (q_released q)).
Abbreviation qsteps := (rtc qstep).

(** The counts fit together. *)
Record q_wf (q : qpair) : Prop := {
  wf_slots : length (q_slots q) = depth;
  wf_tail : (q_fetched q ≤ q_tail q ≤ q_fetched q + depth)%nat;
  wf_room : (q_released q ≤ length (q_posted q) < q_released q + depth)%nat;
  wf_count : (length (q_posted q) + length (q_pending q) = q_fetched q)%nat;
  wf_log : length (q_log q) = q_fetched q;
  wf_status : Forall (λ c, in_width 15 (c_status c) ∧ in_width 16 (c_cid c) ∧ (c_fetched c ≤ q_fetched q)%nat) (q_posted q);
  wf_sorted : ∀ i j x y, (i ≤ j)%nat → q_posted q !! i = Some x → q_posted q !! j = Some y → (c_fetched x ≤ c_fetched y)%nat
}.

Lemma qstep_wf q q' : qstep q q' → q_wf q → q_wf q'.
Proof.
  intros [? e Hlt Hs|? e l1 l2 c Hp Hroom Hcid Hf Hst Hdw] [W1 W2 W3 W4 W5 W6 W7]; split; cbn; try done.
  - lia.
  - rewrite length_app. cbn. lia.
  - rewrite length_app. cbn. lia.
  - eapply Forall_impl; [done|]. cbn. intros c (? & ? & ?). split_and!; [done..|lia].
  - rewrite length_app. cbn. lia.
  - rewrite Hp in W4. rewrite !length_app in *. cbn in *. lia.
  - apply Forall_app. split; [done|]. apply Forall_singleton. split_and!; [done|rewrite Hcid; apply sqe_cid_range|lia].
  - intros i j x y Hij Hx Hy. apply lookup_snoc_Some in Hy as [[_ Hy]|[-> <-]].
    + apply (W7 i j); try done. pose proof (lookup_lt_Some _ _ _ Hy). by rewrite lookup_app_l in Hx by lia.
    + apply lookup_snoc_Some in Hx as [[_ Hx]|[_ <-]]; [|done]. rewrite Forall_lookup in W6. apply W6 in Hx as (_ & _ & ?). lia.
Qed.

(** What stays and what only grows while the driver submits nothing: a command
    that is taken is the one in its slot. *)
Definition q_evolves (q q' : qpair) : Prop :=
  q_slots q' = q_slots q ∧ q_tail q' = q_tail q ∧
  q_posted q `prefix_of` q_posted q' ∧ q_log q `prefix_of` q_log q' ∧
  ∀ k e, (q_fetched q ≤ k < q_fetched q')%nat → q_slots q !! (k `mod` depth)%nat = Some e → q_log q' !! k = Some e.

#[export] Instance q_evolves_preorder : PreOrder q_evolves.
Proof.
  split; [intros q; split_and!; try done; intros; lia|].
  intros q1 q2 q3 (A1 & A2 & A4 & A5 & A6) (B1 & B2 & B4 & B5 & B6).
  split_and!; [congruence..|by etrans|by etrans|]. intros k e Hk He. destruct (decide (k < q_fetched q2)%nat).
  - eapply prefix_lookup_Some; [|exact B5]. apply A6; [lia|done].
  - apply B6; [lia|]. by rewrite A1.
Qed.

Definition q_grows (q q' : qpair) : Prop := q_evolves q q' ∧ q_released q' = q_released q.

Lemma qstep_grows q q' : qstep q q' → q_wf q → q_grows q q'.
Proof.
  intros Hst Hwf. pose proof (wf_log _ Hwf) as Hl. revert Hl. clear Hwf.
  destruct Hst as [q e Hlt Hs|q e l1 l2 c Hp _ _ _ _ _]; intros Hl; split; cbn; try done; split_and!; cbn; try done; try by eexists.
  - intros k e' Hk He'. assert (k = q_fetched q) as -> by lia. rewrite Hs in He'. injection He' as <-.
    rewrite <- Hl. by apply list_lookup_middle.
  - intros; lia.
Qed.

Lemma qsteps_wf q q' : qsteps q q' → q_wf q → q_wf q' ∧ q_grows q q'.
Proof.
  induction 1 as [q|q1 q2 q3 H12 _ IH]; intros Hwf; [done|].
  destruct IH as [Hwf' [Hg Hr]]; [by eapply qstep_wf|]. destruct (qstep_grows _ _ H12 Hwf) as [Hg1 Hr1].
  split; [done|]. split; [by etrans|congruence].
Qed.

(** The n-th completion goes to slot [n mod depth], with a phase tag that changes
    each time round. *)
Definition phase_of (n : nat) : Z := if Nat.even (n / depth) then 1 else 0.

Definition slot_index (len i : nat) : option nat :=
  if (i <? len)%nat then Some (i + (len - 1 - i) / depth * depth)%nat else None.

(** Slot [i] shows entry [e]: the last completion posted there, or memory as it
    was cleared. *)
Definition shows (posted : list completion) (i : nat) (e : nvme_cqe_t) : Prop :=
  match slot_index (length posted) i with
  | None => cqe_status e = 0
  | Some n => ∃ c, posted !! n = Some c ∧ cqe_status e = 2 * c_status c + phase_of n ∧
      dw0 e = c_dw0 c ∧ cqe_cid e = c_cid c ∧ sq_head e = Z.of_nat (c_fetched c `mod` depth)
  end.

Lemma slot_index_spec len c :
  (0 < depth)%nat → (c ≤ len < c + depth)%nat →
  slot_index len (c `mod` depth) = if decide (c < len)%nat then Some c
    else if decide (depth ≤ c)%nat then Some (c - depth)%nat else None.
Proof.
  intros Hd Hl. unfold slot_index. pose proof (Nat.div_mod_eq c depth) as Hc. pose proof (Nat.mod_upper_bound c depth ltac:(lia)).
  set (i := (c `mod` depth)%nat) in *. set (k := (c `div` depth)%nat) in *.
  destruct (Nat.ltb_spec i len) as [Hil|Hil].
  - case_decide as Hlt.
    + f_equal. assert ((len - 1 - i) / depth = k)%nat as ->; [|lia].
      symmetry. apply (Nat.div_unique _ _ _ (len - 1 - c)); lia.
    + assert (len = c) as -> by lia. destruct k as [|k']; [lia|]. rewrite decide_True by lia. f_equal.
      assert ((c - 1 - i) / depth = k')%nat as ->; [|lia]. symmetry. apply (Nat.div_unique _ _ _ (depth - 1)); lia.
  - rewrite decide_False by lia. rewrite decide_False; [done|]. destruct k; lia.
Qed.

Lemma phase_of_add c : (0 < depth)%nat → phase_of (c + depth) = 1 - phase_of c.
Proof.
  intros Hd. unfold phase_of. replace ((c + depth) / depth)%nat with (S (c / depth)).
  - rewrite Nat.even_succ, <- Nat.negb_even. by destruct (Nat.even (c / depth)).
  - replace (c + depth)%nat with (c + 1 * depth)%nat by lia. rewrite Nat.div_add by lia. lia.
Qed.

Lemma phase_bit c : phase_of c = 0 ∨ phase_of c = 1.
Proof. unfold phase_of. destruct (Nat.even _); auto. Qed.

Lemma status_phase st n : Z.land (2 * st + phase_of n) 1 = phase_of n.
Proof. change 1 with (2 ^ 1 - 1). rewrite land_ones_mod by lia. change (2 ^ 1) with 2. destruct (phase_bit n) as [-> | ->]; dlia. Qed.

Lemma status_value st n : Z.shiftr (2 * st + phase_of n) 1 = st.
Proof. rewrite Z.shiftr_div_pow2 by lia. change (2 ^ 1) with 2. destruct (phase_bit n) as [-> | ->]; dlia. Qed.

(** The phase tag tells a new completion from one of the round before. *)
Lemma shows_old posted c e :
  (0 < depth)%nat → length posted = c → shows posted (c `mod` depth) e → Z.land (cqe_status e) 1 ≠ phase_of c.
Proof.
  intros Hd Hl. unfold shows. rewrite (slot_index_spec _ c) by lia. rewrite decide_False by lia. case_decide as Hc.
  - intros (x & _ & -> & _). rewrite status_phase. pose proof (phase_of_add (c - depth) Hd) as Hp.
    replace (c - depth + depth)%nat with c in Hp by lia. destruct (phase_bit c), (phase_bit (c - depth)); lia.
  - intros ->. unfold phase_of. by rewrite Nat.div_small by lia.
Qed.

Lemma shows_new posted c e :
  (0 < depth)%nat → (c < length posted < c + depth)%nat → shows posted (c `mod` depth) e →
  ∃ x, posted !! c = Some x ∧ cqe_status e = 2 * c_status x + phase_of c ∧
    dw0 e = c_dw0 x ∧ cqe_cid e = c_cid x ∧ sq_head e = Z.of_nat (c_fetched x `mod` depth).
Proof. intros Hd Hl. unfold shows. rewrite (slot_index_spec _ c) by lia. by rewrite decide_True by lia. Qed.
End Queue.

Abbreviation qsteps depth := (rtc (qstep depth)).

(** * The hardware *)

(** Something is left for the controller to do, and there is room to say so. *)
Definition q_waiting (depth : nat) (q : qpair) : Prop :=
  (length (q_posted q) < q_tail q)%nat ∧ (S (length (q_posted q)) < q_released q + depth)%nat.

(** The queues at these addresses, [nq] their abstract state.  [nq_eta] counts down
    while the controller works on a command: it gets done in the end. *)
Class NvmeQueues (D : Type) `{!NvmeIo D} (sq cq sqdb cqdb : Z) (depth : nat) : Type := {
  nq : D → qpair;
  nq_eta : D → nat;
  nq_load d i : (i < depth)%nat → q_wf depth (nq d) →
    let r := mem_load_cqe (u64 (cq + CQE_BYTES * Z.of_nat i)) d in
    qsteps depth (nq d) (nq r.2) ∧ shows depth (q_posted (nq r.2)) i r.1 ∧
    (q_waiting depth (nq d) → (length (q_posted (nq d)) < length (q_posted (nq r.2)))%nat ∨ (nq_eta r.2 < nq_eta d)%nat);
  nq_store d i e : (i < depth)%nat →
    nq (mem_store_sqe (u64 (sq + SQE_BYTES * Z.of_nat i)) e d) = q_set_slot i e (nq d);
  nq_sq_bell d n : q_wf depth (nq d) → (q_tail (nq d) ≤ n < q_fetched (nq d) + depth)%nat →
    qsteps depth (q_set_tail n (nq d)) (nq (hw_write32 sqdb (Z.of_nat (n `mod` depth)) d));
  nq_cq_bell d n : q_wf depth (nq d) → (q_released (nq d) ≤ n ≤ length (q_posted (nq d)))%nat →
    qsteps depth (q_set_released n (nq d)) (nq (hw_write32 cqdb (Z.of_nat (n `mod` depth)) d));
  (** Stores elsewhere in memory. *)
  nq_zero d a n : (a + n ≤ sq ∨ sq + 4096 ≤ a) → (a + n ≤ cq ∨ cq + 4096 ≤ a) → nq (mem_zero a n d) = nq d;
  nq_store64 d a v : (a + 8 ≤ sq ∨ sq + 4096 ≤ a) → (a + 8 ≤ cq ∨ cq + 4096 ≤ a) → nq (mem_store64 a v d) = nq d
}.

(** * Completions *)

(** What a completion does to the table of commands. *)
Definition deliver (depth : nat) (cmds : list nvme_cmd_state_t) (c : completion) : list nvme_cmd_state_t :=
  if c_cid c <? Z.of_nat depth
  then alter (λ x, mkCmd (in_use x) 1 (c_status c) (c_dw0 c)) (Z.to_nat (c_cid c)) cmds
  else cmds.

Section Poll.
Context {D : Type} `{!NvmeIo D} {sq cq sqdb cqdb : Z} {depth : nat} {NQ : NvmeQueues D sq cq sqdb cqdb depth}.
Implicit Types (s : nvme_state D) (q : qpair).
Abbreviation q_of s := (nq (NvmeQueues := NQ) (nv_hw s)).

(** The driver's view of the queues: [c] completions have been taken so far. *)
Record configured (g : nvme_ctrl_t) : Prop := {
  cf_depth : (2 ≤ depth ≤ 64)%nat;
  cf_bar : bar g ≠ 0;
  cf_sq : iosq (io g) = sq ∧ sq ≠ 0;
  cf_cq : iocq (io g) = cq ∧ cq ≠ 0;
  cf_q_depth : io_q_depth (io g) = Z.of_nat depth;
  cf_sqdb : nvme_sq_tdbl (bar g) NVME_IO_QUEUE_ID (doorbell_stride g) = sqdb;
  cf_cqdb : nvme_cq_hdbl (bar g) NVME_IO_QUEUE_ID (doorbell_stride g) = cqdb
}.

Record ring s (c : nat) : Prop := {
  ri_conf : configured (g_nvme s);
  ri_wf : q_wf depth (q_of s);
  ri_head : iocq_head (io (g_nvme s)) = Z.of_nat (c `mod` depth);
  ri_phase : iocq_phase (io (g_nvme s)) = phase_of depth c;
  ri_count : (q_released (q_of s) ≤ c ≤ length (q_posted (q_of s)))%nat;
  ri_cmds : length (g_io_cmd_state s) = 64%nat
}.

(** A state in which nothing but the hardware differs. *)
Lemma ring_hw s c d :
  ring s c → qsteps depth (q_of s) (nq (NvmeQueues := NQ) d) → ring (set_nv_hw d s) c ∧ q_grows depth (q_of s) (nq (NvmeQueues := NQ) d).
Proof.
  intros [R1 R2 R3 R4 R5 R6] Hst. destruct (qsteps_wf _ _ _ Hst R2) as [Hwf Hg]. split; [|done].
  destruct Hg as [(_ & _ & Hp & _) Hr]. apply prefix_length in Hp. split; cbn; try done. rewrite Hr. lia.
Qed.

Lemma run_cmd_at E cid x (Q : nvme_cmd_state_t → nvme_state D → Prop) s :
  g_io_cmd_state s !! Z.to_nat cid = Some x → Q x s → run E (cmd_at cid) Q s.
Proof. intros Hx HQ. unfold cmd_at, run. by rewrite Hx. Qed.

Lemma run_set_cmd E cid x y (Q : unit → nvme_state D → Prop) s :
  g_io_cmd_state s !! Z.to_nat cid = Some x → Q tt (set_cmds (<[Z.to_nat cid := y]> (g_io_cmd_state s)) s) →
  run E (set_cmd cid y) Q s.
Proof. intros Hx HQ. unfold set_cmd, run. by rewrite Hx. Qed.

(** Looking at the slot at the head. *)
Lemma run_load_cqe {A} E (f : nvme_cqe_t → A) s c (Q : A → nvme_state D → Prop) :
  ring s c →
  (∀ e d, qsteps depth (q_of s) (nq (NvmeQueues := NQ) d) → shows depth (q_posted (nq (NvmeQueues := NQ) d)) (c `mod` depth) e →
    (q_waiting depth (q_of s) → (length (q_posted (q_of s)) < length (q_posted (nq (NvmeQueues := NQ) d)))%nat ∨
       (nq_eta (NvmeQueues := NQ) d < nq_eta (NvmeQueues := NQ) (nv_hw s))%nat) →
    Q (f e) (set_nv_hw d s)) →
  run E (hw_get (λ d, let r := mem_load_cqe (u64 (cq + CQE_BYTES * Z.of_nat (c `mod` depth))) d in (f r.1, r.2))) Q s.
Proof.
  intros [R1 R2 R3 R4 R5 R6] HQ. destruct R1 as [Hd _ _ _ _ _ _].
  destruct (nq_load (NvmeQueues := NQ) (nv_hw s) (c `mod` depth)%nat) as (H1 & H2 & H3); [apply Nat.mod_upper_bound; lia|done|].
  unfold hw_get, run. cbn. apply HQ; done.
Qed.

Lemma lxor_phase c : (0 < depth)%nat → Z.lxor (phase_of depth c) 1 = 1 - phase_of depth c.
Proof. by destruct (phase_bit depth c) as [-> | ->]. Qed.

(** The head and the phase after one more. *)
Lemma next_head c :
  (2 ≤ depth ≤ 64)%nat →
  u16 (Z.of_nat (c `mod` depth) + 1) = Z.of_nat (S (c `mod` depth)) ∧
  if (S (c `mod` depth) =? depth)%nat
  then (S c `mod` depth = 0)%nat ∧ phase_of depth (S c) = 1 - phase_of depth c
  else (S c `mod` depth = S (c `mod` depth))%nat ∧ phase_of depth (S c) = phase_of depth c.
Proof.
  intros Hd. pose proof (Nat.mod_upper_bound c depth ltac:(lia)) as Hm. pose proof (Nat.div_mod_eq c depth) as Hc. split.
  - rewrite wrap_small by (unfold in_width; lia). lia.
  - unfold phase_of. destruct (Nat.eqb_spec (S (c `mod` depth)) depth) as [He|He].
    + assert (S c = depth * S (c / depth))%nat as Hs by lia. rewrite Hs. split; [by rewrite Nat.mul_comm, Nat.Div0.mod_mul|].
      rewrite Nat.mul_comm, Nat.div_mul by lia. rewrite Nat.even_succ, <- Nat.negb_even. by destruct (Nat.even (c / depth)).
    + assert (S c = depth * (c / depth) + S (c `mod` depth))%nat as Hs by lia. split.
      * symmetry. apply (Nat.mod_unique _ _ (c / depth)); lia.
      * replace (S c / depth)%nat with (c / depth)%nat; [done|]. apply (Nat.div_unique _ _ _ (S (c `mod` depth))); lia.
Qed.

(** The state after one completion. *)
Definition took (x : completion) (c : nat) (d : D) s : nvme_state D :=
  mkNvme d (nv_pmm s)
    (with_io (set_iocq_head (Z.of_nat (c_fetched x `mod` depth)) (Z.of_nat (S c `mod` depth)) (phase_of depth (S c)) (io (g_nvme s)))
       (g_nvme s))
    (deliver depth (g_io_cmd_state s) x).

Lemma complete_one_spec E s c x :
  ring s c → q_posted (q_of s) !! c = Some x → 0 ≤ c_cid x →
  run E (complete_one (u64 (cq + CQE_BYTES * Z.of_nat (c `mod` depth))) (2 * c_status x + phase_of depth c)) (λ _ s',
    ∃ d, qsteps depth (q_of s) (nq (NvmeQueues := NQ) d) ∧ s' = took x c d s) s.
Proof.
  intros Hr Hx Hcid. pose proof Hr as [R1 R2 R3 R4 R5 R6]. pose proof R1 as [Hd _ _ _ Hqd _ _].
  pose proof (lookup_lt_Some _ _ _ Hx) as Hlt.
  assert (∀ d e, qsteps depth (q_of s) (nq (NvmeQueues := NQ) d) → shows depth (q_posted (nq (NvmeQueues := NQ) d)) (c `mod` depth) e →
    dw0 e = c_dw0 x ∧ cqe_cid e = c_cid x ∧ sq_head e = Z.of_nat (c_fetched x `mod` depth)) as Hsame.
  { intros d e Hst Hsh. destruct (qsteps_wf _ _ _ Hst R2) as [[_ _ Hroom _ _ _ _] [(_ & _ & Hpre & _) Hrel]].
    pose proof (prefix_length _ _ Hpre). apply shows_new in Hsh as (y & Hy & _ & H1 & H2 & H3); [|lia|lia].
    rewrite (prefix_lookup_Some _ _ _ _ Hx Hpre) in Hy. injection Hy as <-. done. }
  unfold complete_one. run_step. apply (run_load_cqe _ _ _ c); [done|]. intros e1 d1 Hs1 Hsh1 _.
  destruct (Hsame _ _ Hs1 Hsh1) as (_ & -> & _). destruct (ring_hw _ _ _ Hr Hs1) as [Hr1 _]. run_step. run_step.
  cbn [g_nvme set_nv_hw]. rewrite Hqd. run_step.
  assert (∀ d' cm s', s' = mkNvme d' (nv_pmm s) (g_nvme s) cm → cm = deliver depth (g_io_cmd_state s) x →
    qsteps depth (q_of s) (nq (NvmeQueues := NQ) d') →
    run E (let! sqh := hw_get (λ d, let r := mem_load_cqe (u64 (cq + CQE_BYTES * Z.of_nat (c `mod` depth))) d in (sq_head r.1, r.2)) in
      update_ctrl (λ g, let head := u16 (iocq_head (io g) + 1) in
        if head =? io_q_depth (io g) then with_io (set_iocq_head sqh 0 (Z.lxor (iocq_phase (io g)) 1) (io g)) g
        else with_io (set_iocq_head sqh head (iocq_phase (io g)) (io g)) g))
      (λ _ s', ∃ d, qsteps depth (q_of s) (nq (NvmeQueues := NQ) d) ∧ s' = took x c d s) s') as Hend.
  { intros d' cm s' -> Hcm Hst. run_step. destruct (ring_hw _ _ _ Hr Hst) as [Hr' _].
    apply (run_load_cqe _ _ _ c).
    { destruct Hr' as [? ? ? ? ? ?]. split; try done. cbn. rewrite Hcm. unfold deliver. case_match; by rewrite ?length_alter. }
    cbn [nv_hw]. intros e2 d2 Hs2 Hsh2 _.
    assert (qsteps depth (q_of s) (nq (NvmeQueues := NQ) d2)) as Hst2 by (by etrans).
    destruct (Hsame _ _ Hst2 Hsh2) as (_ & _ & ->). unfold update_ctrl. run_step. exists d2. split; [done|].
    unfold took, set_ctrl, set_nv_hw. cbn [g_nvme nv_hw nv_pmm g_io_cmd_state]. cbv zeta. rewrite R3, R4, Hqd, Hcm.
    destruct (next_head c Hd) as [-> Hn]. destruct (Nat.eqb_spec (S (c `mod` depth)) depth) as [He|He]; destruct Hn as [-> ->].
    - rewrite He, Z.eqb_refl, lxor_phase by lia. done.
    - destruct (Z.eqb_spec (Z.of_nat (S (c `mod` depth))) (Z.of_nat depth)); [lia|done]. }
  destruct (Z.ltb_spec (c_cid x) (Z.of_nat depth)) as [Hc|Hc].
  - destruct (lookup_lt_is_Some_2 (g_io_cmd_state s) (Z.to_nat (c_cid x))) as [cm Hcm]; [lia|].
    run_step. apply (run_cmd_at _ _ cm); [done|]. run_step. apply (run_load_cqe _ _ _ c); [done|].
    cbn [nv_hw set_nv_hw]. intros e3 d3 Hs3 Hsh3 _.
    assert (qsteps depth (q_of s) (nq (NvmeQueues := NQ) d3)) as Hst3 by (by etrans).
    destruct (Hsame _ _ Hst3 Hsh3) as (-> & _ & _). rewrite status_value.
    run_step. apply (run_set_cmd _ _ cm); [done|]. eapply run_set_cmd.
    { cbn. rewrite list_lookup_insert_eq; [done|]. by eapply lookup_lt_Some. }
    cbn [g_io_cmd_state set_cmds set_nv_hw]. rewrite list_insert_insert_eq. eapply (Hend d3); [reflexivity| |done].
    unfold deliver. rewrite (proj2 (Z.ltb_lt _ _)) by done. rewrite list_insert_alter. apply list_alter_ext; [|done].
    intros y Hy. by rewrite Hcm in Hy; injection Hy as <-.
  - run_step. eapply (Hend d1); [done| |done]. unfold deliver. by rewrite (proj2 (Z.ltb_ge _ _)).
Qed.
(** The state after the completions [xs]. *)
Definition took_all (xs : list completion) (c : nat) (d : D) s : nvme_state D :=
  let sqh := match last xs with Some x => Z.of_nat (c_fetched x `mod` depth) | None => iosq_head (io (g_nvme s)) end in
  mkNvme d (nv_pmm s)
    (with_io (set_iocq_head sqh (Z.of_nat ((c + length xs) `mod` depth)) (phase_of depth (c + length xs)) (io (g_nvme s))) (g_nvme s))
    (foldl (deliver depth) (g_io_cmd_state s) xs).

Lemma took_none s c d : ring s c → took_all [] c d s = set_nv_hw d s.
Proof.
  intros [_ _ R3 R4 _ _]. unfold took_all, set_nv_hw. cbn [last length foldl]. rewrite Nat.add_0_r, <- R3, <- R4.
  destruct s as [? ? [? ? ? [] ? ? ? ? ? ? ? ? ? ?] ?]. done.
Qed.

Lemma took_cons s c x xs d d' : took_all xs (S c) d' (took x c d s) = took_all (x :: xs) c d' s.
Proof.
  unfold took_all, took. cbn [g_nvme nv_pmm g_io_cmd_state length foldl]. rewrite Nat.add_succ_r, last_cons.
  by destruct (last xs).
Qed.

Lemma length_deliver cmds x : length (deliver depth cmds x) = length cmds.
Proof. unfold deliver. case_match; by rewrite ?length_alter. Qed.

Lemma took_ring s c x d :
  ring s c → qsteps depth (q_of s) (nq (NvmeQueues := NQ) d) → (c < length (q_posted (q_of s)))%nat → ring (took x c d s) (S c).
Proof.
  intros Hr Hst Hc. destruct (ring_hw _ _ _ Hr Hst) as [[R1 R2 R3 R4 R5 R6] [(_ & _ & Hp & _) _]].
  apply prefix_length in Hp. cbn in *. split; cbn; try done; [by destruct R1; split|lia|]. by rewrite length_deliver.
Qed.

Lemma poll_loop_spec E fuel b s c :
  ring s c → (q_released (q_of s) + depth ≤ c + fuel)%nat →
  run E (poll_loop fuel b) (λ b' s', ∃ xs d, qsteps depth (q_of s) (nq (NvmeQueues := NQ) d) ∧ s' = took_all xs c d s ∧
    drop c (q_posted (nq (NvmeQueues := NQ) d)) = xs ∧ b' = b || negb (bool_decide (xs = [])) ∧
    (q_waiting depth (q_of s) → xs = [] → (nq_eta (NvmeQueues := NQ) d < nq_eta (NvmeQueues := NQ) (nv_hw s))%nat)) s.
Proof.
  revert b s c. induction fuel as [|fuel IH]; intros b s c Hr Hf.
  { pose proof Hr as [_ [_ _ ? _ _ _ _] _ _ ? _]. lia. }
  pose proof Hr as [R1 R2 R3 R4 R5 R6]. pose proof R1 as [Hd _ _ [Hcq _] _ _ _]. cbn [poll_loop]. run_step. run_step.
  cbv zeta. rewrite Hcq, R3, R4. run_step. apply (run_load_cqe _ _ _ c); [done|]. intros e d Hst Hsh Heta.
  destruct (ring_hw _ _ _ Hr Hst) as [Hr1 [(_ & _ & Hpre & _) Hrel]]. pose proof (prefix_length _ _ Hpre) as Hlen.
  pose proof (wf_room _ _ (ri_wf _ _ Hr1)) as Hroom. cbn in Hroom.
  destruct (decide (length (q_posted (nq (NvmeQueues := NQ) d)) = c)) as [He|Hne].
  - pose proof (shows_old depth _ c e ltac:(lia) He Hsh) as Hph. destruct (Z.eqb_spec (Z.land (cqe_status e) 1) (phase_of depth c)); [done|].
    cbn [negb]. run_step. exists [], d. split_and!; [done|by rewrite took_none|rewrite drop_ge; [done|lia]|by rewrite orb_false_r|].
    intros Hw _. destruct (Heta Hw); [lia|done].
  - destruct (shows_new depth (q_posted (nq (NvmeQueues := NQ) d)) c e ltac:(lia) ltac:(lia) Hsh) as (x & Hx & Hstat & _). rewrite Hstat, status_phase, Z.eqb_refl. cbn [negb].
    assert (in_width 16 (c_cid x)) as [Hcid _].
    { pose proof (wf_status _ _ (ri_wf _ _ Hr1)) as Hall. rewrite Forall_lookup in Hall. by apply Hall in Hx as (_ & ? & _). }
    run_step. eapply run_mono; [by apply (complete_one_spec _ _ c x)|]. intros [] s2 (d2 & Hs2 & ->). cbn [nv_hw set_nv_hw] in Hs2.
    pose proof (lookup_lt_Some _ _ _ Hx) as Hlt.
    assert (ring (took x c d2 (set_nv_hw d s)) (S c)) as Hr2 by (by apply took_ring).
    destruct (qsteps_wf _ _ _ Hs2 (ri_wf _ _ Hr1)) as [_ [(_ & _ & Hpre2 & _) Hrel2]].
    eapply run_mono; [apply (IH true); [done|cbn; rewrite Hrel2, Hrel; lia]|].
    intros b' s3 (xs & d3 & Hs3 & -> & Hdrop & -> & _). cbn [nv_hw took] in Hs3.
    destruct (qsteps_wf _ _ _ Hs3 (ri_wf _ _ Hr2)) as [_ [(_ & _ & Hpre3 & _) _]].
    exists (x :: xs), d3. split_and!; [by etrans; [|etrans]|by rewrite took_cons| |by rewrite orb_true_r|done].
    rewrite <- Hdrop. apply drop_S. eapply prefix_lookup_Some, Hpre3. cbn. by eapply prefix_lookup_Some.
Qed.
End Poll.
