(* ===== verification/NvmeFlight.v ===== *)
(** The NVMe driver with any number of commands in flight: an invariant of the
    queues and the table of commands that submission, completion and waiting keep. *)

From stdpp Require Import relations.
From S2P Require Import Prelude Boot Frames Pmm Nvme NvmeSpec.

(** * Commands in flight *)

Section Outstanding.
Context (depth : nat).

Definition q_unfetched (q : qpair) : list nvme_sqe_t :=
  (λ k, default zero_sqe (q_slots q !! (k `mod` depth)%nat)) <$> seq (q_fetched q) (q_tail q - q_fetched q).

(** The identifiers of the commands submitted whose completion was not taken, when
    [c] completions were. *)
Definition outstanding (c : nat) (q : qpair) : list Z :=
  (sqe_cid <$> q_unfetched q ++ q_pending q) ++ (c_cid <$> drop c (q_posted q)).

(** What the controller has taken of the submission queue, as far as the driver
    knows. *)
Definition sq_seen (c : nat) (q : qpair) : nat :=
  match last (take c (q_posted q)) with Some x => c_fetched x | None => 0%nat end.

Lemma qstep_outstanding c q q' :
  q_wf depth q → (c ≤ length (q_posted q))%nat → qstep depth q q' → outstanding c q' ≡ₚ outstanding c q.
Proof.
  intros Hwf Hc Hst. revert Hwf Hc.
  destruct Hst as [q e Hlt Hs|q e l1 l2 x Hp _ Hcid _ _ _]; intros Hwf Hc; unfold outstanding, q_unfetched; cbn.
  - replace (q_tail q - q_fetched q)%nat with (S (q_tail q - S (q_fetched q))) by lia. cbn [seq fmap list_fmap].
    rewrite Hs. cbn [default]. f_equiv. apply fmap_Permutation. cbn. rewrite (assoc_L (++)). by rewrite <- Permutation_cons_append.
  - rewrite Hp, drop_app_le by lia. rewrite !fmap_app. cbn. rewrite Hcid. rewrite <- !(assoc_L (++)). f_equiv. f_equiv. cbn.
    rewrite (assoc_L (++)). rewrite <- Permutation_cons_append. by rewrite Permutation_middle.
Qed.

Lemma qsteps_outstanding c q q' :
  q_wf depth q → (c ≤ length (q_posted q))%nat → qsteps depth q q' → outstanding c q' ≡ₚ outstanding c q.
Proof.
  intros Hwf Hc Hst. induction Hst as [|q1 q2 q3 H12 H23 IH]; [done|]. rewrite IH.
  - by apply qstep_outstanding.
  - by eapply qstep_wf.
  - assert (q_posted q1 `prefix_of` q_posted q2) as ?%prefix_length by (destruct H12; cbn; [done|by eexists]). lia.
Qed.

Lemma sq_seen_grows c q q' : (c ≤ length (q_posted q))%nat → q_posted q `prefix_of` q_posted q' → sq_seen c q' = sq_seen c q.
Proof. intros Hc [l Hl]. unfold sq_seen. by rewrite Hl, take_app_le. Qed.

Lemma sq_seen_fetched c q : q_wf depth q → (sq_seen c q ≤ q_fetched q)%nat.
Proof.
  intros [_ _ _ _ _ W _]. unfold sq_seen. destruct (last _) as [x|] eqn:Hx; [|lia].
  rewrite last_lookup in Hx. apply lookup_take_Some in Hx as [Hx _]. rewrite Forall_lookup in W. by apply W in Hx as (_ & _ & ?).
Qed.

Lemma sq_seen_mono c c' q : q_wf depth q → (c ≤ c')%nat → (sq_seen c q ≤ sq_seen c' q)%nat.
Proof.
  intros [_ _ _ _ _ _ W] Hc. unfold sq_seen. destruct (last (take c _)) as [x|] eqn:Hx; [|lia].
  rewrite last_lookup in Hx. destruct (last (take c' _)) as [y|] eqn:Hy.
  - rewrite last_lookup in Hy. apply lookup_take_Some in Hx as [Hx ?], Hy as [Hy ?]. rewrite !length_take in *.
    eapply W; [|exact Hx|exact Hy]. lia.
  - apply last_None in Hy. assert (take c (q_posted q) = []) as Hz; [|by rewrite Hz in Hx].
    apply (f_equal length) in Hy. rewrite length_take in Hy. cbn in Hy. apply nil_length_inv. rewrite length_take. lia.
Qed.

(** The slots between what is fetched and the tail are not the slot at the tail. *)
Lemma slots_apart k t f : (f ≤ k < t)%nat → (t < f + depth)%nat → (k `mod` depth ≠ t `mod` depth)%nat.
Proof.
  intros Hk Ht He. assert (0 < depth)%nat by lia.
  pose proof (Nat.div_mod_eq k depth). pose proof (Nat.div_mod_eq t depth). rewrite He in *.
  assert (k / depth < t / depth)%nat by nia. nia.
Qed.

Lemma outstanding_submit c q e t :
  q_wf depth q → q_tail q = t → (t < q_fetched q + depth)%nat →
  outstanding c (q_set_tail (S t) (q_set_slot (t `mod` depth) e q)) ≡ₚ sqe_cid e :: outstanding c q.
Proof.
  intros [W1 W2 _ _ _ _ _] <- Ht. unfold outstanding, q_unfetched. cbn.
  replace (S (q_tail q) - q_fetched q)%nat with ((q_tail q - q_fetched q) + 1)%nat by lia. rewrite seq_app, !fmap_app. cbn.
  replace (q_fetched q + (q_tail q - q_fetched q))%nat with (q_tail q) by lia.
  rewrite list_lookup_insert_eq by (rewrite W1; apply Nat.mod_upper_bound; lia). cbn [default].
  assert ((λ k, default zero_sqe (<[(q_tail q `mod` depth)%nat := e]> (q_slots q) !! (k `mod` depth)%nat)) <$>
    seq (q_fetched q) (q_tail q - q_fetched q) =
    (λ k, default zero_sqe (q_slots q !! (k `mod` depth)%nat)) <$> seq (q_fetched q) (q_tail q - q_fetched q)) as ->.
  { apply list_fmap_ext. intros i k Hk. apply lookup_seq in Hk as [-> Hi].
    rewrite list_lookup_insert_ne; [done|]. intros He. symmetry in He. revert He. apply slots_apart with (q_fetched q); lia. }
  rewrite <- !(assoc_L (++)). cbn. symmetry. apply Permutation_middle.
Qed.
End Outstanding.

(** ** Delivering completions *)

Section Deliver.
Context (depth : nat).

Lemma deliver_other cmds xs cid :
  cid ∉ c_cid <$> xs → 0 ≤ cid → Forall (λ x, in_width 16 (c_cid x)) xs →
  foldl (deliver depth) cmds xs !! Z.to_nat cid = cmds !! Z.to_nat cid.
Proof.
  revert cmds. induction xs as [|x xs IH]; intros cmds Hni Hc Hall; [done|]. cbn in *. apply Forall_cons in Hall as [Hx Hall].
  apply not_elem_of_cons in Hni as [Hne Hni]. rewrite IH by done. unfold deliver, in_width in *. case_match; [|done].
  rewrite list_lookup_alter_ne; [done|]. lia.
Qed.

Lemma deliver_hit cmds xs x y cid :
  NoDup (c_cid <$> xs) → x ∈ xs → c_cid x = cid → 0 ≤ cid < Z.of_nat depth → Forall (λ x, in_width 16 (c_cid x)) xs →
  cmds !! Z.to_nat cid = Some y →
  foldl (deliver depth) cmds xs !! Z.to_nat cid = Some (mkCmd (in_use y) 1 (c_status x) (c_dw0 x)).
Proof.
  revert cmds. induction xs as [|z xs IH]; intros cmds Hnd Hx Hcid Hr Hall Hy; [by apply not_elem_of_nil in Hx|].
  cbn in *. apply NoDup_cons in Hnd as [Hni Hnd]. apply Forall_cons in Hall as [Hz Hall]. apply elem_of_cons in Hx as [->|Hx].
  - rewrite deliver_other by (congruence || lia || done). unfold deliver. rewrite (proj2 (Z.ltb_lt _ _)) by lia.
    rewrite Hcid, list_lookup_alter_eq, Hy. done.
  - apply IH; try done. assert (c_cid z ≠ cid). { intros Heq. apply Hni. rewrite Heq, <- Hcid. by apply list_elem_of_fmap_2. }
    unfold deliver, in_width in *. case_match; [|done]. rewrite list_lookup_alter_ne; [done|]. lia.
Qed.
End Deliver.

Section Flight.
Context {D : Type} `{!NvmeIo D} {sq cq sqdb cqdb : Z} {depth : nat} {NQ : NvmeQueues D sq cq sqdb cqdb depth}.
Implicit Types (s : nvme_state D) (q : qpair).
Abbreviation nq_ := (nq (NvmeQueues := NQ)).
Abbreviation eta_ := (nq_eta (NvmeQueues := NQ)).
Abbreviation q_of s := (nq (NvmeQueues := NQ) (nv_hw s)).
Abbreviation ring := (ring (NQ := NQ)).
Abbreviation configured := (configured (sq := sq) (cq := cq) (sqdb := sqdb) (cqdb := cqdb) (depth := depth)).
Abbreviation took_all := (took_all (depth := depth)).

(** The entry of a command in flight. *)
Definition waiting_cmd (cmds : list nvme_cmd_state_t) (cid : Z) : Prop :=
  0 ≤ cid < Z.of_nat depth ∧ ∃ x, cmds !! Z.to_nat cid = Some x ∧ in_use x = 1 ∧ done_ x = 0.

(** [c] completions were taken so far, and the controller knows; the submission
    queue has room for what was submitted; the commands in flight have different
    identifiers, each with an entry that waits. *)
Record inflight s (c : nat) : Prop := {
  if_ring : ring s c;
  if_rel : q_released (q_of s) = c;
  if_tail : iosq_tail (io (g_nvme s)) = Z.of_nat (q_tail (q_of s) `mod` depth);
  if_head : iosq_head (io (g_nvme s)) = Z.of_nat (sq_seen c (q_of s) `mod` depth);
  if_room : (q_tail (q_of s) < sq_seen c (q_of s) + depth)%nat;
  if_nodup : NoDup (outstanding depth c (q_of s));
  if_cmds : ∀ cid, cid ∈ outstanding depth c (q_of s) → waiting_cmd (g_io_cmd_state s) cid;
  if_next : 0 ≤ next_io_cid (g_nvme s);
  if_lock : io_lock (g_nvme s) = false
}.

Lemma took_all_flight s c q d :
  inflight s c → qsteps depth (q_of s) q →
  let xs := drop c (q_posted q) in
  let c' := (c + length xs)%nat in
  qsteps depth (q_set_released c' q) (nq_ d) →
  inflight (took_all xs c d s) c' ∧
  outstanding depth c (q_of s) ≡ₚ outstanding depth c' (nq_ d) ++ (c_cid <$> xs).
Proof.
  intros [Hr Hrel Htl Hhd Hrm Hnd Hcm Hnx Hlk] Hst xs c' Hst'. pose proof Hr as [R1 R2 R3 R4 R5 R6].
  destruct (qsteps_wf _ _ _ Hst R2) as [Hwf [(_ & Gt & Gp & _) Grel]]. pose proof (prefix_length _ _ Gp) as Hl.
  assert (c' = length (q_posted q)) as Hc' by (unfold c', xs; rewrite length_drop; lia).
  assert (q_wf depth (q_set_released c' q)) as Hwf'.
  { pose proof R1 as [Hd _ _ _ _ _ _]. destruct Hwf as [W1 W2 W3 W4 W5 W6 W7]. split; cbn; try done. lia. }
  destruct (qsteps_wf _ _ _ Hst' Hwf') as [Hwfd [(_ & Gt' & Gp' & _) Grel']]. cbn in Gt', Grel', Gp'.
  pose proof (prefix_length _ _ Gp') as Hl'.
  assert (outstanding depth c (q_of s) ≡ₚ outstanding depth c' (nq_ d) ++ (c_cid <$> xs)) as Hout.
  { rewrite <- (qsteps_outstanding _ c _ _ R2 ltac:(lia) Hst).
    rewrite (qsteps_outstanding _ c' _ _ Hwf' ltac:(cbn; lia) Hst'). unfold outstanding. cbn [q_posted q_pending q_set_released].
    rewrite (drop_ge (q_posted q) c') by lia. change (q_unfetched depth (q_set_released c' q)) with (q_unfetched depth q).
    by rewrite app_nil_r. }
  split; [|done]. rewrite Hout in Hnd. apply NoDup_app in Hnd as (Hnd1 & Hdis & Hnd2).
  assert (Forall (λ x, in_width 16 (c_cid x)) xs) as Hw.
  { apply Forall_drop. eapply Forall_impl; [exact (wf_status _ _ Hwf)|]. by intros x (_ & ? & _). }
  assert (sq_seen c' (nq_ d) = sq_seen c' q) as Hseen by (apply sq_seen_grows; [lia|done]).
  assert (sq_seen c (q_of s) = sq_seen c q) as Hseen0 by (symmetry; apply sq_seen_grows; [lia|done]).
  split; cbn [nv_hw NvmeSpec.took_all].
  - split; cbn; try done; [by destruct R1; split|rewrite Grel'; lia|].
    assert (∀ l cm, length (foldl (deliver depth) cm l) = length cm) as ->; [|done].
    intros l. induction l as [|x l IH]; intros cm; cbn; [done|]. by rewrite IH, length_deliver.
  - done.
  - cbn. by rewrite Htl, Gt', Gt.
  - unfold NvmeSpec.took_all. cbn [g_nvme io with_io iosq_head set_iocq_head]. rewrite Hseen. unfold sq_seen at 1. rewrite (take_ge _ c') by lia.
    assert (q_posted q = take c (q_posted q) ++ xs) as Heq by (unfold xs; by rewrite take_drop).
    destruct (last xs) as [x|] eqn:Hlast.
    + rewrite Heq, last_app, Hlast. done.
    + apply last_None in Hlast. rewrite Hhd, Hseen0. unfold sq_seen. rewrite Hlast, app_nil_r in Heq. by rewrite <- Heq.
  - rewrite Gt', Gt, Hseen. pose proof (sq_seen_mono _ c c' q Hwf ltac:(lia)). lia.
  - done.
  - intros cid Hin. destruct (Hcm cid) as (Hr' & x & Hx & Hu & Hdn); [rewrite Hout; apply elem_of_app; by left|].
    split; [done|]. exists x. split; [|done]. unfold NvmeSpec.took_all. cbn [g_io_cmd_state]. rewrite deliver_other; [done| |lia|done].
    intros Hin'. by apply (Hdis cid).
  - done.
  - done.
Qed.

Lemma poll_completions_spec E s c :
  inflight s c →
  run E nvme_poll_completions (λ _ s', ∃ q d,
    qsteps depth (q_of s) q ∧
    let xs := drop c (q_posted q) in
    let c' := (c + length xs)%nat in
    s' = took_all xs c d s ∧ inflight s' c' ∧
    outstanding depth c (q_of s) ≡ₚ outstanding depth c' (nq_ d) ++ (c_cid <$> xs) ∧
    q_evolves depth q (nq_ d) ∧
    (xs = [] → q_waiting depth (q_of s) → (eta_ d < eta_ (nv_hw s))%nat)) s.
Proof.
  intros Hi. pose proof Hi as [Hr Hrel _ _ _ _ _ _ Hlk]. pose proof Hr as [R1 R2 R3 R4 R5 R6].
  pose proof R1 as [Hd Hbar _ [Hcq Hcq0] Hqd _ Hcqdb]. unfold nvme_poll_completions. run_step. run_step.
  rewrite Hqd, Hcq. destruct (Z.eqb_spec cq 0); [done|]. destruct (Z.eqb_spec (bar (g_nvme s)) 0); [done|].
  destruct (Z.eqb_spec (Z.of_nat depth) 0); [lia|]. cbn [orb]. run_step. apply run_acquire; [done|].
  set (s1 := set_ctrl _ s). assert (ring s1 c) as Hr1 by (split; try done; by destruct R1; split).
  run_step. rewrite Nat2Z.id. eapply run_mono; [apply (poll_loop_spec _ _ _ s1 c Hr1); cbn; lia|].
  intros b s2 (xs & d & Hst & -> & Hdrop & -> & Heta). cbn [orb nv_hw set_ctrl s1] in *.
  destruct (qsteps_wf _ _ _ Hst R2) as [Hwf [Hev Grel]]. pose proof Hev as (_ & Gt & Gp & _). pose proof (prefix_length _ _ Gp) as Hl.
  assert (∀ d', set_ctrl (with_locks (admin_lock (g_nvme (took_all xs c d' s1))) false (g_nvme (took_all xs c d' s1)))
    (took_all xs c d' s1) = took_all xs c d' s) as Hunlock.
  { intros d'. unfold NvmeSpec.took_all, s1, set_ctrl, with_locks, with_io. cbn. rewrite <- Hlk. done. }
  run_step. destruct (decide (xs = [])) as [Hx|Hx].
  - rewrite bool_decide_eq_true_2 by done. cbn [negb]. run_step. apply run_release. cbv beta. rewrite Hunlock. exists (nq_ d), d.
    split; [done|]. cbv zeta. rewrite Hdrop. split; [done|].
    assert (qsteps depth (q_set_released (c + length (drop c (q_posted (nq_ d))))%nat (nq_ d)) (nq_ d)) as Hst'.
    { rewrite Hdrop, Hx, Nat.add_0_r, <- Hrel, <- Grel. by destruct (nq_ d). }
    destruct (took_all_flight s c _ d Hi Hst Hst') as [Hi' Hout]. rewrite Hdrop in Hi', Hout. split_and!; try done.
    intros _ Hw. by apply Heta.
  - rewrite bool_decide_eq_false_2 by done. cbn [negb]. run_step. run_step. cbv zeta.
    assert (c + length xs = length (q_posted (nq_ d)))%nat as Hlen by (rewrite <- Hdrop, length_drop; lia).
    assert (qsteps depth (q_set_released (c + length xs) (nq_ d))
      (nq_ (hw_write32 cqdb (Z.of_nat ((c + length xs) `mod` depth)) d))) as Hst' by (apply nq_cq_bell; [done|lia]).
    unfold hw_do. run_step. set (d' := hw_write32 cqdb (Z.of_nat ((c + length xs) `mod` depth)) d).
    eapply (run_mono _ _ (λ _ s', s' = took_all xs c d' s)).
    { apply run_release. rewrite <- Hunlock. unfold d'. rewrite <- Hcqdb. done. }
    intros [] s' ->.
    exists (nq_ d), d'. split; [done|]. cbv zeta. rewrite Hdrop. split.
    + done.
    + assert (xs = drop c (q_posted (nq_ d))) as Hdx by done.
      destruct (took_all_flight s c (nq_ d) (hw_write32 cqdb (Z.of_nat ((c + length xs) `mod` depth)) d) Hi Hst) as [Hi' Hout];
        [by rewrite <- Hdx|]. rewrite <- Hdx in Hi', Hout.
      assert (q_wf depth (q_set_released (c + length xs) (nq_ d))) as Hwf'.
      { destruct Hwf as [W1 W2 W3 W4 W5 W6 W7]. split; cbn; try done. lia. }
      destruct (qsteps_wf _ _ _ Hst' Hwf') as [_ [Gp' _]]. split_and!; try done.
Qed.
(** ** Submission *)

(** The state after an identifier was taken. *)
Definition with_cid (cid : Z) s : nvme_state D :=
  mkNvme (nv_hw s) (nv_pmm s) (with_cids (next_admin_cid (g_nvme s)) (u16 ((cid + 1) mod Z.of_nat depth)) (g_nvme s))
    (<[Z.to_nat cid := mkCmd 1 0 0 0]> (g_io_cmd_state s)).

Definition cid_free s (cid : Z) : Prop :=
  0 ≤ cid < Z.of_nat depth ∧ ∃ x, g_io_cmd_state s !! Z.to_nat cid = Some x ∧ in_use x = 0.

(** The search starts at the identifier after the last one given out. *)
Lemma alloc_cid_spec E s :
  configured (g_nvme s) → length (g_io_cmd_state s) = 64%nat → 0 ≤ next_io_cid (g_nvme s) →
  run E nvme_alloc_cid (λ r s',
    match r with
    | Some cid => cid_free s cid ∧ s' = with_cid cid s
    | None => s' = s ∧ ∀ cid, ¬ cid_free s cid
    end) s.
Proof.
  intros [Hd _ _ _ Hqd _ _] Hlen Hnx. unfold nvme_alloc_cid. run_step. run_step. rewrite Hqd. cbv zeta.
  destruct (Z.eqb_spec (Z.of_nat depth) 0); [lia|]. set (start := next_io_cid (g_nvme s)) in *. rewrite Nat2Z.id.
  apply (run_for_loop _ _ _ _ _ (λ j s', s' = s ∧ ∀ i, (i < j)%nat → ¬ cid_free s ((start + Z.of_nat i) mod Z.of_nat depth))).
  - split; [done|]. intros i Hi. lia.
  - intros j s' Hj [-> Hpre]. rewrite Z.add_0_l, Z.mul_1_r.
    pose proof (Z.mod_pos_bound (start + Z.of_nat j) (Z.of_nat depth) ltac:(lia)) as Hm.
    rewrite (wrap_small 16 ((start + Z.of_nat j) mod Z.of_nat depth)) by (unfold in_width; lia).
    set (cid := (start + Z.of_nat j) mod Z.of_nat depth) in *.
    destruct (lookup_lt_is_Some_2 (g_io_cmd_state s) (Z.to_nat cid)) as [x Hx]; [lia|].
    run_step. apply (run_cmd_at _ _ x); [done|]. destruct (Z.eqb_spec (in_use x) 0) as [Hu|Hu].
    + run_step. apply (run_set_cmd _ _ x); [done|]. run_step. unfold update_ctrl. run_step. run_step.
      split; [split; [done|by exists x]|]. done.
    + run_step. split; [done|]. intros i Hi. destruct (decide (i = j)) as [->|]; [|apply Hpre; lia].
      intros (_ & y & Hy & Hy0). fold cid in Hy. rewrite Hx in Hy. by injection Hy as <-.
  - intros s' [-> Hall]. split; [done|]. intros cid Hf. pose proof Hf as [Hc _].
    pose proof (Z.mod_pos_bound (cid - start) (Z.of_nat depth) ltac:(lia)) as Hm.
    apply (Hall (Z.to_nat ((cid - start) mod Z.of_nat depth))); [lia|]. rewrite Z2Nat.id by lia.
    rewrite Zplus_mod_idemp_r. replace (start + (cid - start)) with cid by lia. by rewrite Z.mod_small.
Qed.

(** The state after a submission. *)
Definition submitted (cid : Z) (d : D) s : nvme_state D :=
  let s1 := with_cid cid s in
  mkNvme d (nv_pmm s1)
    (with_io (set_iosq_tail (Z.of_nat (S (q_tail (q_of s)) `mod` depth)) (io (g_nvme s1))) (g_nvme s1)) (g_io_cmd_state s1).

Lemma tag_cid_id cid cmd : in_width 16 (cdw0 cmd) → in_width 16 cid → sqe_cid (tag_cid cid cmd) = cid.
Proof.
  intros Hc Hi. unfold sqe_cid, tag_cid. cbn. unfold in_width in *. change (2 ^ 16) with 65536 in *.
  rewrite wrap_small by (unfold in_width; rewrite Z.shiftl_mul_pow2 by lia; change (2 ^ 32) with 4294967296; change (2 ^ 16) with 65536; lia).
  rewrite lor_shiftl_add by (unfold in_width; change (2 ^ 16) with 65536; lia). change (2 ^ 16) with 65536.
  replace ((cdw0 cmd + cid * 65536) / 65536) with cid by dlia. by apply Z.mod_small.
Qed.

(** The next tail meets the head the driver knows exactly when the queue is full. *)
Lemma full_iff t h : (0 < depth)%nat → (h ≤ t < h + depth)%nat →
  (S t `mod` depth)%nat = (h `mod` depth)%nat ↔ S t = (h + depth)%nat.
Proof.
  intros Hd Ht. split.
  - intros He. destruct (decide (S t = h + depth)%nat); [done|]. exfalso. symmetry in He. revert He.
    apply (slots_apart depth h (S t) h); lia.
  - intros ->. replace (h + depth)%nat with (h + 1 * depth)%nat by lia. by rewrite Nat.Div0.mod_add.
Qed.

Lemma next_tail t : (2 ≤ depth ≤ 64)%nat → u16 ((Z.of_nat (t `mod` depth) + 1) mod Z.of_nat depth) = Z.of_nat (S t `mod` depth).
Proof.
  intros Hd. rewrite Nat2Z.inj_mod, Z.add_mod_idemp_l by lia. rewrite Nat2Z.inj_mod, Nat2Z.inj_succ, <- Z.add_1_r.
  apply wrap_small. pose proof (Z.mod_pos_bound (Z.of_nat t + 1) (Z.of_nat depth) ltac:(lia)). unfold in_width. lia.
Qed.

Lemma submit_flight s c cmd cid d :
  inflight s c → in_width 16 (cdw0 cmd) → cid_free s cid → (S (q_tail (q_of s)) < sq_seen c (q_of s) + depth)%nat →
  let t := q_tail (q_of s) in
  qsteps depth (q_set_tail (S t) (q_set_slot (t `mod` depth) (tag_cid cid cmd) (q_of s))) (nq_ d) →
  inflight (submitted cid d s) c ∧ outstanding depth c (nq_ d) ≡ₚ cid :: outstanding depth c (q_of s).
Proof.
  intros [Hr Hrel Htl Hhd Hrm Hnd Hcm Hnx Hlk] Hw [Hcid (x & Hx & Hu)] Hroom t Hst. pose proof Hr as [R1 R2 R3 R4 R5 R6].
  pose proof R1 as [Hd _ _ _ _ _ _]. pose proof (sq_seen_fetched depth c _ R2) as Hseen.
  set (q1 := q_set_tail (S t) (q_set_slot (t `mod` depth) (tag_cid cid cmd) (q_of s))) in *.
  assert (q_wf depth q1) as Hwf1.
  { destruct R2 as [W1 W2 W3 W4 W5 W6 W7]. split; cbn; try done; [by rewrite length_insert|fold t in Hroom; lia]. }
  destruct (qsteps_wf _ _ _ Hst Hwf1) as [Hwf [(_ & Gt & Gp & _) Grel]]. pose proof (prefix_length _ _ Gp). cbn in Gt, Grel, Gp.
  assert (outstanding depth c (nq_ d) ≡ₚ cid :: outstanding depth c (q_of s)) as Hout.
  { rewrite (qsteps_outstanding _ c _ _ Hwf1 ltac:(cbn; lia) Hst). unfold q1. rewrite outstanding_submit by (done || fold t in Hroom; lia).
    rewrite tag_cid_id by (done || unfold in_width; lia). done. }
  assert (cid ∉ outstanding depth c (q_of s)) as Hfresh.
  { intros Hin. apply Hcm in Hin as (_ & y & Hy & Hy1 & _). rewrite Hx in Hy. injection Hy as <-. lia. }
  assert (sq_seen c (nq_ d) = sq_seen c (q_of s)) as Hs by (apply sq_seen_grows; [lia|done]).
  split; [|done]. split; cbn [nv_hw submitted].
  - split; cbn; try done; [by destruct R1; split|rewrite Grel; cbn in *; lia|by rewrite length_insert].
  - by rewrite Grel.
  - cbn. by rewrite Gt.
  - cbn. by rewrite Hhd, Hs.
  - rewrite Gt, Hs. fold t in Hroom. lia.
  - rewrite Hout. by constructor.
  - intros cid'. rewrite Hout, elem_of_cons. unfold waiting_cmd. cbn. intros [->|Hin].
    + split; [done|]. rewrite list_lookup_insert_eq by (by eapply lookup_lt_Some). by eexists.
    + destruct (Hcm cid' Hin) as (Hr' & y & Hy & ?). split; [done|]. exists y. split; [|done].
      rewrite list_lookup_insert_ne; [done|]. intros He. assert (cid = cid') as -> by lia. done.
  - cbn. pose proof (Z.mod_pos_bound (cid + 1) (Z.of_nat depth) ltac:(lia)). apply wrap_range. lia.
  - done.
Qed.

Lemma submit_io_spec E s c cmd :
  inflight s c → in_width 16 (cdw0 cmd) →
  run E (nvme_submit_io cmd) (λ r s',
    match r with
    | Some cid => cid_free s cid ∧ inflight s' c ∧ outstanding depth c (q_of s') ≡ₚ cid :: outstanding depth c (q_of s) ∧
        let t := q_tail (q_of s) in
        (t < q_fetched (q_of s) + depth)%nat ∧
        qsteps depth (q_set_tail (S t) (q_set_slot (t `mod` depth) (tag_cid cid cmd) (q_of s))) (q_of s') ∧
        ∃ d, s' = submitted cid d s
    | None => inflight s' c ∧ nv_hw s' = nv_hw s ∧ nv_pmm s' = nv_pmm s ∧
        ((∀ cid, ¬ cid_free s cid) ∨ S (q_tail (q_of s)) = (sq_seen c (q_of s) + depth)%nat)
    end) s.
Proof.
  intros Hi Hw. pose proof Hi as [Hr Hrel Htl Hhd Hrm Hnd Hcm Hnx Hlk]. pose proof Hr as [R1 R2 R3 R4 R5 R6].
  pose proof R1 as [Hd _ [Hsq Hsq0] _ Hqd Hsqdb _]. unfold nvme_submit_io. run_step. run_step. rewrite Hsq.
  destruct (Z.eqb_spec sq 0); [done|]. run_step. apply run_acquire; [done|]. set (s1 := set_ctrl _ s).
  assert (configured (g_nvme s1)) as Hc1 by (by destruct R1; split).
  assert (∀ y, set_ctrl (with_locks (admin_lock (g_nvme s)) false (with_locks (admin_lock (g_nvme s)) true y)) s =
    set_ctrl (with_locks (admin_lock (g_nvme s)) false y) s) as Hll by done.
  run_step. eapply run_mono; [by apply alloc_cid_spec|]. intros [cid|] s2.
  2: { intros [-> Hno]. run_step. apply run_release. run_step.
    assert (set_ctrl (with_locks (admin_lock (g_nvme s1)) false (g_nvme s1)) s1 = s) as ->.
    { destruct s as [? ? [] ?]. cbn in *. by subst. }
    split_and!; try done. by left. }
  intros [Hf ->]. change (cid_free s cid) in Hf. run_step. run_step. cbv zeta.
  cbn [g_nvme with_cid with_cids io s1 set_ctrl with_locks]. rewrite Hqd, Htl, Hhd, next_tail by done.
  pose proof (sq_seen_fetched depth c _ R2) as Hseen. pose proof (wf_tail _ _ R2) as Htail.
  destruct (Z.eqb_spec (Z.of_nat (S (q_tail (q_of s)) `mod` depth)) (Z.of_nat (sq_seen c (q_of s) `mod` depth))) as [He|He].
  - apply Nat2Z.inj, full_iff in He; [|lia|lia]. unfold nvme_release_cid. run_step. run_step. run_step. cbn [g_nvme with_cid with_cids io].
    destruct Hf as (Hcid & x & Hx & Hu). change (io_q_depth (io (g_nvme s1))) with (io_q_depth (io (g_nvme s))). rewrite Hqd.
    rewrite Z.geb_leb, (proj2 (Z.leb_gt _ _)) by lia. run_step.
    assert (Z.to_nat cid < length (g_io_cmd_state s))%nat as Hlt by (by eapply lookup_lt_Some).
    eapply run_cmd_at; [cbn; by rewrite list_lookup_insert_eq|]. eapply run_set_cmd; [cbn; by rewrite list_lookup_insert_eq|].
    run_step. apply run_release. run_step. cbn. split_and!; try done; [|by right].
    split; cbn; try done; [split; try done; [by destruct R1; split|cbn; by rewrite !length_insert]| |].
    + intros cid' Hin. destruct (Hcm cid' Hin) as (Hr' & y & Hy & Hy1 & Hy2). split; [done|]. exists y. split; [|done].
      cbn. rewrite list_insert_insert_eq, list_lookup_insert_ne; [done|]. intros Heq. assert (cid = cid') as -> by lia.
      rewrite Hx in Hy. injection Hy as <-. lia.
    + apply wrap_range. lia.
  - assert (S (q_tail (q_of s)) < sq_seen c (q_of s) + depth)%nat as Hroom.
    { destruct (decide (S (q_tail (q_of s)) = sq_seen c (q_of s) + depth)%nat) as [Hfull|]; [|lia].
      exfalso. apply He. f_equal. apply full_iff; [lia|lia|done]. }
    unfold hw_do, update_ctrl. run_steps. apply run_release. run_step. cbv zeta. cbn [with_cid nv_hw s1 set_ctrl set_nv_hw g_nvme].
    set (d1 := mem_store_sqe _ _ _). 
    assert (nq_ d1 = q_set_slot (q_tail (q_of s) `mod` depth) (tag_cid cid cmd) (q_of s)) as Hd1.
    { unfold d1. rewrite Hsq. apply nq_store. apply Nat.mod_upper_bound. lia. }
    set (d2 := hw_write32 _ _ _).
    assert (qsteps depth (q_set_tail (S (q_tail (q_of s))) (q_set_slot (q_tail (q_of s) `mod` depth) (tag_cid cid cmd) (q_of s))) (nq_ d2)) as Hst.
    { rewrite <- Hd1. unfold d2. cbn. rewrite Hsqdb. apply nq_sq_bell; rewrite Hd1; [|cbn; lia].
      destruct R2 as [W1 W2 W3 W4 W5 W6 W7]. split; cbn; try done. by rewrite length_insert. }
    destruct (submit_flight s c cmd cid d2 Hi Hw Hf Hroom Hst) as [Hi' Hout].
    match goal with |- context [inflight ?x c] => assert (x = submitted cid d2 s) as -> end.
    { unfold submitted, with_cid, s1, set_ctrl, set_nv_hw, with_locks, with_io, with_cids. cbn. by rewrite Hlk. }
    split_and!; try done; [lia|by exists d2].
Qed.
(** ** Waiting *)

(** What submission, completion and waiting keep. *)
Definition kept s s' : Prop :=
  nv_pmm s' = nv_pmm s ∧ ready (g_nvme s') = ready (g_nvme s) ∧ lba_size (g_nvme s') = lba_size (g_nvme s) ∧
  mdts_bytes (g_nvme s') = mdts_bytes (g_nvme s) ∧ admin (g_nvme s') = admin (g_nvme s).

#[local] Instance kept_preorder : PreOrder kept.
Proof. split; [by intros s|]. intros s1 s2 s3 (?&?&?&?&?) (?&?&?&?&?). split_and!; congruence. Qed.

(** The completion of [cid] was taken, as the one numbered [n], and is in the table. *)
Definition completed s (cid : Z) (n : nat) (x : completion) : Prop :=
  q_posted (q_of s) !! n = Some x ∧ c_cid x = cid ∧
  g_io_cmd_state s !! Z.to_nat cid = Some (mkCmd 1 1 (c_status x) (c_dw0 x)).

Lemma waiting_q s c :
  inflight s c → outstanding depth c (q_of s) ≠ [] → length (q_posted (q_of s)) = c → q_waiting depth (q_of s).
Proof.
  intros [[R1 R2 _ _ _ _] Hrel _ _ _ _ _ _ _] Hne Hl. destruct R1 as [Hd _ _ _ _ _ _]. destruct R2 as [_ W2 _ W4 _ _ _].
  unfold q_waiting. rewrite Hrel, Hl. split; [|lia].
  destruct (decide (q_tail (q_of s) ≤ c)%nat); [|lia]. exfalso. apply Hne.
  assert (q_pending (q_of s) = []) as Hp by (apply nil_length_inv; lia).
  unfold outstanding, q_unfetched. rewrite Hp, (drop_ge (q_posted _)) by lia.
  by replace (q_tail (q_of s) - q_fetched (q_of s))%nat with 0%nat by lia.
Qed.

Lemma wait_done_spec s c cid :
  inflight s c → cid ∈ outstanding depth c (q_of s) →
  ∃ fuel s' c' n x, wait_done fuel cid s = Ok (tt, s') ∧ inflight s' c' ∧ (c ≤ n < c')%nat ∧ completed s' cid n x ∧
    cid ∉ outstanding depth c' (q_of s') ∧ kept s s' ∧ q_evolves depth (q_of s) (q_of s').
Proof.
  remember (length (outstanding depth c (q_of s))) as m eqn:Hm. remember (eta_ (nv_hw s)) as k eqn:Hk.
  revert s c k Hm Hk. induction (lt_wf m) as [m _ IHm]. intros s c k Hm Hk. revert s c Hm Hk.
  induction (lt_wf k) as [k _ IHk]. intros s c -> -> Hi Hin.
  pose proof Hi as [Hr Hrel _ _ _ Hnd Hcm _ _]. destruct (Hcm _ Hin) as (Hcid & y & Hy & Hu & Hdn).
  assert (∀ E, run E nvme_poll_completions _ s) as Hpoll by (intros E; exact (poll_completions_spec E s c Hi)).
  specialize (Hpoll never). apply wp_inv in Hpoll as ([] & s1 & Hrun & q & d & Hst & Hs1 & Hi1 & Hout & Hev1 & Heta).
  destruct (qsteps_wf _ _ _ Hst (ri_wf _ _ Hr)) as [Hwf [Hev0 _]]. pose proof Hev0 as (_ & _ & Gp & _).
  pose proof Hev1 as (_ & _ & Hpost & _).
  assert (∀ f, wait_done (S f) cid s = wait_done f cid s1) as Hstep.
  { intros f. cbn [wait_done]. unfold bind, cmd_at. rewrite Hy, Hdn, Z.eqb_refl. by rewrite Hrun. }
  set (xs := drop c (q_posted q)) in *. cbv zeta in Hs1, Hi1, Hout, Heta. fold xs in Hs1, Hi1, Hout, Heta.
  assert (q_of s1 = nq_ d) as Hq1 by (by rewrite Hs1).
  assert (kept s s1) as Hk1 by (by rewrite Hs1).
  assert (q_evolves depth (q_of s) (q_of s1)) as Hev by (rewrite Hq1; by etrans).
  pose proof Hnd as Hnd'. rewrite Hout in Hnd'. apply NoDup_app in Hnd' as (_ & Hdis & Hndx).
  assert (Forall (λ x, in_width 16 (c_cid x)) xs) as Hw.
  { apply Forall_drop. eapply Forall_impl; [exact (wf_status _ _ Hwf)|]. by intros x (_ & ? & _). }
  rewrite Hout in Hin. apply elem_of_app in Hin as [Hin|Hin].
  - assert (∃ fuel s' c' n x, wait_done fuel cid s1 = Ok (tt, s') ∧ inflight s' c' ∧ (c + length xs ≤ n < c')%nat ∧ completed s' cid n x ∧
      cid ∉ outstanding depth c' (q_of s') ∧ kept s1 s' ∧ q_evolves depth (q_of s1) (q_of s')) as (fuel & s' & c' & n & x & H1 & H2 & H3 & H4 & H5 & H6 & H7).
    { rewrite <- Hq1 in Hin, Hout. destruct (decide (xs = [])) as [Hx|Hx].
      - rewrite Hx, Nat.add_0_r, app_nil_r in *.
        eapply (IHk (eta_ (nv_hw s1))); [|by rewrite <- Hout|done|done|done].
        rewrite Hs1. cbn. apply Heta; [done|]. apply (waiting_q s c); [done|by intros He; rewrite He in Hout; apply Permutation_nil in Hout; rewrite Hout in Hin; apply not_elem_of_nil in Hin|].
        pose proof (prefix_length _ _ Gp). pose proof (ri_count _ _ Hr). apply (f_equal length) in Hx. unfold xs in Hx. rewrite length_drop in Hx.
        cbn in Hx. lia.
      - eapply (IHm (length (outstanding depth (c + length xs) (q_of s1)))); [|done|done|done|done].
        rewrite Hout, length_app, length_fmap. destruct xs; [done|]. cbn. lia. }
    exists (S fuel), s', c', n, x. rewrite Hstep. split_and!; try done; [lia|lia|by etrans|by etrans].
  - apply list_elem_of_fmap in Hin as (x & Hcx & Hx). pose proof Hx as Hlx. apply list_elem_of_lookup in Hlx as [i Hi0].
    unfold xs in Hi0. rewrite lookup_drop in Hi0.
    assert (g_io_cmd_state s1 !! Z.to_nat cid = Some (mkCmd 1 1 (c_status x) (c_dw0 x))) as Hd1.
    { rewrite Hs1. unfold NvmeSpec.took_all. cbn [g_io_cmd_state].
      rewrite (deliver_hit depth _ xs x y cid) by done. by rewrite Hu. }
    exists 2%nat, s1, (c + length xs)%nat, (c + i)%nat, x. rewrite Hstep. split_and!; try done.
    + cbn [wait_done]. unfold bind, cmd_at. rewrite Hd1. done.
    + lia.
    + pose proof (lookup_lt_Some _ _ _ Hi0). unfold xs. rewrite length_drop. lia.
    + split_and!; [|done..]. eapply prefix_lookup_Some; [exact Hi0|]. rewrite Hq1. apply Hpost.
    + rewrite Hq1. intros Hin'. apply (Hdis cid Hin'). rewrite Hcx. by apply list_elem_of_fmap_2.
Qed.

Lemma run_seq3 {A B C R} E (m1 : M (nvme_state D) A) (m2 : M (nvme_state D) B) (m3 : M (nvme_state D) C) (k : M (nvme_state D) R) Q s :
  run E (m1;; m2;; m3) (λ _ s', run E k Q s') s → run E (m1;; m2;; m3;; k) Q s.
Proof.
  unfold run, bind. destruct (m1 s) as [[? s1]| | |]; [|done..]. destruct (m2 s1) as [[? s2]| | |]; [|done..].
  by destruct (m3 s2) as [[? ?]| | |].
Qed.

Lemma release_flight E s c cid x (Q : unit → nvme_state D → Prop) :
  inflight s c → 0 ≤ cid < Z.of_nat depth → cid ∉ outstanding depth c (q_of s) → g_io_cmd_state s !! Z.to_nat cid = Some x →
  (inflight (set_cmds (<[Z.to_nat cid := mkCmd 0 0 (cmd_status x) (cmd_result x)]> (g_io_cmd_state s)) s) c →
    Q tt (set_cmds (<[Z.to_nat cid := mkCmd 0 0 (cmd_status x) (cmd_result x)]> (g_io_cmd_state s)) s)) →
  run E (lock_io;; nvme_release_cid cid;; unlock_io) Q s.
Proof.
  intros [Hr Hrel Htl Hhd Hrm Hnd Hcm Hnx Hlk] Hcid Hno Hx HQ. pose proof Hr as [R1 R2 R3 R4 R5 R6].
  pose proof R1 as [Hd _ _ _ Hqd _ _]. run_step. apply run_acquire; [done|]. run_step. unfold nvme_release_cid. run_step. run_step.
  cbn [g_nvme set_ctrl with_locks io]. rewrite Hqd, Z.geb_leb, (proj2 (Z.leb_gt _ _)) by lia.
  run_step. apply (run_cmd_at _ _ x); [done|]. apply (run_set_cmd _ _ x); [done|]. apply run_release.
  match goal with |- Q tt ?y => assert (y = set_cmds (<[Z.to_nat cid := mkCmd 0 0 (cmd_status x) (cmd_result x)]> (g_io_cmd_state s)) s) as -> end.
  { destruct s as [? ? [] ?]. cbn in *. by subst. }
  apply HQ. split; try done; [split; try done; cbn; by rewrite length_insert|].
  intros cid' Hin. destruct (Hcm cid' Hin) as (Hr' & y & Hy & ?). split; [done|]. exists y. split; [|done]. cbn.
  rewrite list_lookup_insert_ne; [done|]. intros He. assert (cid = cid') as -> by lia. done.
Qed.

Lemma wait_cid_spec s c cid :
  inflight s c → cid ∈ outstanding depth c (q_of s) →
  ∃ fuel s' c' n x, nvme_wait_cid fuel cid s = Ok ((c_status x =? 0, c_dw0 x, c_status x), s') ∧ inflight s' c' ∧ (c ≤ n < c')%nat ∧
    q_posted (q_of s') !! n = Some x ∧ c_cid x = cid ∧ cid ∉ outstanding depth c' (q_of s') ∧ cid_free s' cid ∧ kept s s' ∧
    q_evolves depth (q_of s) (q_of s').
Proof.
  intros Hi Hin. destruct (if_cmds _ _ Hi _ Hin) as [Hcid _].
  destruct (wait_done_spec s c cid Hi Hin) as (fuel & s1 & c' & n & x & Hrun & Hi1 & Hn & (Hx & Hcx & Hd1) & Hno & Hk & Hev).
  exists fuel. assert (wp (nvme_wait_cid fuel cid) (λ r s', r = (c_status x =? 0, c_dw0 x, c_status x) ∧ inflight s' c' ∧
    q_of s' = q_of s1 ∧ cid_free s' cid ∧ kept s1 s') s) as Hwp.
  { unfold nvme_wait_cid. run_step. eapply run_value; [done|]. run_step. eapply run_cmd_at; [done|]. cbv zeta. run_step.
    eapply run_cmd_at; [done|]. cbn [cmd_status cmd_result].
    apply run_seq3. eapply release_flight; try done. intros Hi2. run_step. split_and!; try done.
    split; [done|]. cbn. rewrite list_lookup_insert_eq by (by eapply lookup_lt_Some). by eexists. }
  apply wp_inv in Hwp as (r & s' & Hr & -> & Hi' & Hq & Hf & Hk'). exists s', c', n, x. rewrite Hq. split_and!; try done; [lia|lia|by etrans].
Qed.
(** Taking completions ends, and takes every completion the controller had
    posted, and any it posts meanwhile, each exactly once and in the order of
    posting, over any number of times round the queue: each is stored under its own
    identifier, and the controller is told how far the driver got. *)
Theorem nvme_poll_completions_correct s c :
  inflight s c →
  wp nvme_poll_completions (λ _ s', ∃ q d,
    qsteps depth (q_of s) q ∧
    let xs := drop c (q_posted q) in
    let c' := (c + length xs)%nat in
    s' = took_all xs c d s ∧ inflight s' c' ∧ (length (q_posted (q_of s)) ≤ c')%nat ∧ q_released (q_of s') = c' ∧
    ∀ x, x ∈ xs → ∃ y, g_io_cmd_state s !! Z.to_nat (c_cid x) = Some y ∧
      g_io_cmd_state s' !! Z.to_nat (c_cid x) = Some (mkCmd (in_use y) 1 (c_status x) (c_dw0 x))) s.
Proof.
  intros Hi. eapply run_mono; [by apply poll_completions_spec|].
  intros [] s' (q & d & Hst & Hs' & Hi' & Hout & _ & _). exists q, d. cbv zeta in *. split; [done|]. split; [done|]. split; [done|].
  pose proof (ri_wf _ _ (if_ring _ _ Hi)) as Hwf0. destruct (qsteps_wf _ _ _ Hst Hwf0) as [Hwf [(_ & _ & Hp & _) _]].
  split; [|split].
  - apply prefix_length in Hp. pose proof (ri_count _ _ (if_ring _ _ Hi)). rewrite length_drop. lia.
  - by apply if_rel.
  - intros x Hx. pose proof (if_nodup _ _ Hi) as Hnd. rewrite Hout in Hnd. apply NoDup_app in Hnd as (_ & _ & Hnd).
    destruct (if_cmds _ _ Hi (c_cid x)) as (Hr & y & Hy & _ & _).
    { rewrite Hout. apply elem_of_app. right. by apply list_elem_of_fmap_2. }
    exists y. split; [done|]. rewrite Hs'. unfold NvmeSpec.took_all. cbn [g_io_cmd_state]. apply deliver_hit; try done.
    apply Forall_drop. eapply Forall_impl; [exact (wf_status _ _ Hwf)|]. by intros z (_ & ? & _).
Qed.

(** C16. A submission never overwrites a command the controller has not taken yet and
    never reuses the identifier of a command in flight; it is refused only when every
    identifier is in use or the queue is full as far as the driver knows, and then
    the controller is not touched. *)
Theorem nvme_submit_io_safe s c cmd :
  inflight s c → in_width 16 (cdw0 cmd) →
  wp (nvme_submit_io cmd) (λ r s',
    match r with
    | Some cid => cid ∉ outstanding depth c (q_of s) ∧ inflight s' c ∧
        let t := q_tail (q_of s) in
        (∀ k, (q_fetched (q_of s) ≤ k < t)%nat → (k `mod` depth ≠ t `mod` depth)%nat) ∧
        qsteps depth (q_set_tail (S t) (q_set_slot (t `mod` depth) (tag_cid cid cmd) (q_of s))) (q_of s')
    | None => inflight s' c ∧ nv_hw s' = nv_hw s ∧
        ((∀ cid, ¬ cid_free s cid) ∨ S (q_tail (q_of s)) = (sq_seen c (q_of s) + depth)%nat)
    end) s.
Proof.
  intros Hi Hw. eapply run_mono; [by apply (submit_io_spec _ s c)|]. intros [cid|] s'.
  - intros (_ & Hi' & Hout & Hroom & Hst & _). cbv zeta. split_and!; try done.
    + pose proof (if_nodup _ _ Hi') as Hnd. rewrite Hout in Hnd. by apply NoDup_cons in Hnd as [? _].
    + intros k Hk. by apply slots_apart with (q_fetched (q_of s)).
  - intros (Hi' & Hh & _ & Hwhy). done.
Qed.
End Flight.

Lemma calc_depth_spec desired mqes size :
  in_width 16 desired → in_width 16 mqes → 1 ≤ size ≤ 4096 →
  let d := nvme_calc_depth desired mqes size in
  (mqes < 65535 → d = let m := Z.min (Z.min desired (mqes + 1)) (4096 / size) in if decide (m < 2) then 0 else m) ∧
  d * size ≤ 4096 ∧ d ≤ mqes + 1 ∧ (d = 0 ∨ 2 ≤ d ≤ desired) ∧ (mqes = 65535 → d = 0).
Proof.
  intros Hd Hm Hs. unfold in_width in *. change (2 ^ 16) with 65536 in *. cbv zeta. unfold nvme_calc_depth, PMM_PAGE_SIZE.
  assert (1 ≤ 4096 / size ≤ 4096) as Hq by (split; [apply Z.div_le_lower_bound; lia|apply Z.div_le_upper_bound; nia]).
  rewrite (wrap_small 16 (4096 / size)) by (unfold in_width; change (2 ^ 16) with 65536; lia).
  pose proof (Z.mul_div_le 4096 size ltac:(lia)). rewrite Z.gtb_ltb.
  destruct (decide (mqes = 65535)) as [->|Hne].
  - change (u16 (65535 + 1)) with 0. destruct (Z.ltb_spec desired 0); [lia|]. destruct (Z.ltb_spec (4096 / size) 0); [lia|].
    cbn. split_and!; lia || (by left) || done.
  - rewrite (wrap_small 16 (mqes + 1)) by (unfold in_width; change (2 ^ 16) with 65536; lia).
    destruct (Z.ltb_spec desired (mqes + 1)); cbv zeta;
      (match goal with |- context [if 4096 / size <? ?x then _ else _] => destruct (Z.ltb_spec (4096 / size) x) end);
      (match goal with |- context [if ?x <? 2 then _ else _] => destruct (Z.ltb_spec x 2) end);
      split_and!; try (intros; case_decide; lia); try nia; try lia.
Qed.

(** The depth of a queue fits a page of entries and what the controller
    supports, and is never 1; but a controller that supports 65536 entries is taken
    to support none. *)
Theorem nvme_calc_depth_bounds desired mqes size :
  in_width 16 desired → in_width 16 mqes → 1 ≤ size ≤ 4096 →
  let d := nvme_calc_depth desired mqes size in
  (mqes < 65535 → d = let m := Z.min (Z.min desired (mqes + 1)) (4096 / size) in if decide (m < 2) then 0 else m) ∧
  d * size ≤ 4096 ∧ d ≤ mqes + 1 ∧ (d = 0 ∨ 2 ≤ d ≤ desired) ∧ (mqes = 65535 → d = 0).
Proof. apply calc_depth_spec. Qed.
