(* ===== verification/NvmeTransfer.v ===== *)
(** NVMe reads and writes: the physical region pages of a buffer against what the
    controller makes of them, and a transfer from the checks to the release of
    everything it took. *)

From stdpp Require Import relations.
From S2P Require Import Prelude Boot Frames Pmm Nvme NvmeSpec NvmeFlight.

(** * Physical region pages *)

(** Memory as aligned 64-bit words by virtual address. *)
Class NvmeMemory (D : Type) `{!NvmeIo D} : Type := {
  mem_word : D → Z → Z;
  mem_store64_word d a v b : a mod 8 = 0 → b mod 8 = 0 → mem_word (mem_store64 a v d) b = if bool_decide (b = a) then v else mem_word d b;
  mem_zero_word d a n b : a mod 8 = 0 → b mod 8 = 0 → n mod 8 = 0 →
    mem_word (mem_zero a n d) b = if bool_decide (a ≤ b < a + n) then 0 else mem_word d b
}.

(** Pages beyond the one the buffer starts in. *)
Definition pages_after (buf len : Z) : Z :=
  let first := 4096 - buf mod 4096 in if len <=? first then 0 else (len - first + 4095) / 4096.

(** The physical addresses of the pieces of a buffer that is contiguous in
    physical memory. *)
Definition buffer_pages (phys len : Z) : list Z :=
  phys :: ((λ i, (phys / 4096 + 1 + i) * 4096) <$> seqZ 0 (pages_after phys len)).

(** What the controller takes the two entries of a command to mean: with one more
    page to go the second entry is the address of that page, with more it is the
    address of a list; [word] reads physical memory. *)
Definition prp_pages (word : Z → Z) (p1 p2 len : Z) : list Z :=
  let n := pages_after p1 len in
  if n =? 0 then [p1] else if n =? 1 then [p1; p2] else p1 :: ((λ i, word (p2 + 8 * i)) <$> seqZ 0 n).

(** The direct map starts at a page and covers all of physical memory. *)
Definition hhdm_ok (lay : kernel_layout) : Prop :=
  0 < g_hhdm_offset lay ∧ g_hhdm_offset lay mod 4096 = 0 ∧ g_hhdm_offset lay + 2 ^ 52 < 2 ^ 64.

Section Pages.
Context (lay : kernel_layout) (Hlay : hhdm_ok lay).
Abbreviation hh := (g_hhdm_offset lay).

Lemma virt_phys a : hh ≤ a < 2 ^ 64 → pmm_virt_to_phys lay a = a - hh.
Proof. destruct Hlay as (? & _ & _). intros Ha. unfold pmm_virt_to_phys. apply wrap_small. unfold in_width. lia. Qed.

Lemma phys_virt p : 0 ≤ p < 2 ^ 52 → pmm_phys_to_virt lay p = p + hh.
Proof. destruct Hlay as (? & _ & ?). intros Ha. unfold pmm_phys_to_virt. apply wrap_small. unfold in_width. lia. Qed.

Lemma alloc_page_spec p :
  frames_inv p →
  wp (pmm_alloc_page lay) (λ a p', frames_inv p' ∧ (∀ q, frame_managed p' q ↔ frame_managed p q) ∧
    ((a = 0 ∧ (∀ q, frame_free p' q ↔ frame_free p q) ∧ ∀ q, ¬ frame_free p q) ∨
     (∃ f, a = f + hh ∧ f mod 4096 = 0 ∧ 0 ≤ f < 2 ^ 52 ∧ frame_free p f ∧ frame_managed p f ∧
        ∀ q, frame_free p' q ↔ frame_free p q ∧ q ≠ f))) p.
Proof.
  intros Hp. pose proof (try_alloc_frame_spec p Hp) as Hs. unfold pmm_alloc_page, run, bind in *. cbn [try_alloc_frame pmm_frames] in Hs.
  unfold run, bind in Hs. destruct (pmm_try_alloc_page_phys _ p) as [[[b cell] p']| | |]; [|done..]. cbn in Hs.
  destruct b; [destruct cell as [f|]|]; destruct Hs as (H1 & H2 & H3); cbn.
  - destruct H3 as [Hf Hn]. pose proof (frame_free_managed _ _ Hp Hf) as Hm. destruct (frame_managed_aligned _ _ Hp Hm) as [Ha Hr].
    split; [done|]. split; [done|]. right. exists f. rewrite phys_virt by done. split; [done|]. split; [done|]. split; [done|]. split; [done|]. split; [done|]. done.
  - split; [done|]. split; [done|]. left. split; [done|apply H3].
  - split; [done|]. split; [done|]. left. split; [done|apply H3].
Qed.

Lemma free_page_spec p f :
  frames_inv p → frame_managed p f →
  wp (pmm_free_page lay (f + hh)) (λ _ p', frames_inv p' ∧ ∀ q, frame_free p' q ↔ frame_free p q ∨ q = f) p.
Proof.
  intros Hp Hm. destruct (frame_managed_aligned _ _ Hp Hm) as [Ha Hr]. destruct Hlay as (? & ? & ?). unfold pmm_free_page.
  destruct (Z.eqb_spec (f + hh) 0); [lia|]. rewrite virt_phys by lia. replace (f + hh - hh) with f by lia.
  eapply run_mono; [exact (free_frame_spec p f Hp Hm)|]. intros [] p' (? & _ & ?). done.
Qed.

Lemma pages_after_phys buf len : hh ≤ buf → pages_after (buf - hh) len = pages_after buf len.
Proof.
  intros Hb. destruct Hlay as (_ & Ha & _). unfold pages_after. assert ((buf - hh) mod 4096 = buf mod 4096) as ->; [|done].
  rewrite Zminus_mod, Ha, Z.sub_0_r. by rewrite Z.mod_mod.
Qed.

Lemma pages_after_nonneg buf len : 0 ≤ pages_after buf len.
Proof.
  unfold pages_after. pose proof (Z.mod_pos_bound buf 4096 ltac:(lia)). destruct (Z.leb_spec len (4096 - buf mod 4096)); [lia|].
  apply Z.div_pos; lia.
Qed.

Lemma page_base_phys buf i :
  hh ≤ buf → buf + (4096 - buf mod 4096) + 4096 * i - hh = ((buf - hh) / 4096 + 1 + i) * 4096.
Proof. intros Hb. destruct Hlay as (_ & Ha & _). dlia. Qed.

Section Build.
Context {D : Type} `{!NvmeIo D, !NvmeMemory D} {sq cq sqdb cqdb : Z} {depth : nat} {NQ : NvmeQueues D sq cq sqdb cqdb depth}.
Implicit Types s : nvme_state D.
Abbreviation nq_ := (nq (NvmeQueues := NQ)).

(** A page apart from the queues. *)
Definition apart (a : Z) : Prop := (a + 4096 ≤ sq ∨ sq + 4096 ≤ a) ∧ (a + 4096 ≤ cq ∨ cq + 4096 ≤ a).

Lemma prp_entries_spec E n list page i s :
  list mod 4096 = 0 → 0 ≤ list → list + 4096 ≤ 2 ^ 64 → apart list → 0 ≤ i → i + Z.of_nat n ≤ 512 →
  hh ≤ page → page + 4096 * Z.of_nat n ≤ 2 ^ 64 →
  run E (prp_entries lay n list page i) (λ _ s', ∃ d, s' = set_nv_hw d s ∧ nq_ d = nq_ (nv_hw s) ∧
    ∀ b, b mod 8 = 0 → mem_word d b =
      if bool_decide (list + 8 * i ≤ b < list + 8 * (i + Z.of_nat n)) then page + 4096 * ((b - list) / 8 - i) - hh
      else mem_word (nv_hw s) b) s.
Proof.
  intros Hal Hl0 Hl Hap. revert page i s. induction n as [|n IH]; intros page i s Hi Hn Hp Hpe; cbn [prp_entries].
  { run_step. exists (nv_hw s). split; [by destruct s|]. split; [done|]. intros b Hb. by rewrite bool_decide_eq_false_2 by lia. }
  destruct Hlay as (HH & HHa & HHe).
  assert (u64 (list + 8 * i) = list + 8 * i) as -> by (apply wrap_small; unfold in_width; lia). rewrite virt_phys by lia.
  run_step. unfold hw_do. run_step. destruct n as [|n].
  - cbn [prp_entries]. run_step. exists (mem_store64 (list + 8 * i) (page - hh) (nv_hw s)). split; [done|].
    destruct Hap as [Ha1 Ha2]. split; [apply nq_store64; lia|]. intros b Hb. rewrite mem_store64_word by (done || dlia).
    case_bool_decide; case_bool_decide; try dlia.
  - assert (u64 (page + PMM_PAGE_SIZE) = page + 4096) as -> by (apply wrap_small; unfold in_width, PMM_PAGE_SIZE; lia).
    eapply run_mono; [apply (IH (page + 4096) (i + 1)); lia|]. intros [] s' (d & -> & Hq & Hw). exists d. split; [done|].
    cbn [nv_hw set_nv_hw] in Hq, Hw. destruct Hap as [Ha1 Ha2]. split; [rewrite Hq; apply nq_store64; lia|].
    intros b Hb. rewrite Hw by done. rewrite mem_store64_word by (done || dlia).
    case_bool_decide as B1; case_bool_decide as B2; try case_bool_decide as B3; try dlia.
Qed.

(** The queues' own pages. *)
Definition queue_pages s : Prop :=
  sq mod 4096 = 0 ∧ cq mod 4096 = 0 ∧ ¬ frame_free (nv_pmm s) (sq - hh) ∧ ¬ frame_free (nv_pmm s) (cq - hh).

Lemma frame_apart s f : queue_pages s → frame_free (nv_pmm s) f → f mod 4096 = 0 → apart (f + hh).
Proof.
  intros (Hs & Hc & Hfs & Hfc) Hf Ha. destruct Hlay as (_ & HHa & _).
  assert (f ≠ sq - hh) by (intros ->; done). assert (f ≠ cq - hh) by (intros ->; done). unfold apart. dlia.
Qed.

(** What building the entries does to the state. *)
Lemma build_prp_spec E s buf len :
  frames_inv (nv_pmm s) → queue_pages s → hh ≤ buf → 0 < len → buf + len + 4096 < 2 ^ 64 →
  run E (nvme_build_prp lay buf len) (λ r s', g_nvme s' = g_nvme s ∧ g_io_cmd_state s' = g_io_cmd_state s ∧
    frames_inv (nv_pmm s') ∧ nq_ (nv_hw s') = nq_ (nv_hw s) ∧
    match r with
    | None => (∀ q, frame_free (nv_pmm s') q ↔ frame_free (nv_pmm s) q) ∧
        (512 < pages_after buf len ∨ ∀ q, ¬ frame_free (nv_pmm s) q)
    | Some prp => prp1 prp = buf - hh ∧
        if pages_after buf len =? 0 then prp_list_virt prp = 0 ∧ s' = s
        else ∃ f, frame_free (nv_pmm s) f ∧ frame_managed (nv_pmm s') f ∧ prp2 prp = f ∧ prp_list_virt prp = f + hh ∧
          (∀ q, frame_free (nv_pmm s') q ↔ frame_free (nv_pmm s) q ∧ q ≠ f) ∧
          ∀ i, 0 ≤ i < pages_after buf len →
            mem_word (nv_hw s') (f + 8 * i + hh) = ((buf - hh) / 4096 + 1 + i) * 4096
    end) s.
Proof.
  intros Hfi Hqp Hb Hlen Hend. destruct Hlay as (HH & HHa & HHe). unfold nvme_build_prp.
  destruct (Z.eqb_spec buf 0); [lia|]. destruct (Z.eqb_spec len 0); [lia|]. cbn [orb]. cbv zeta.
  unfold PMM_PAGE_SIZE. change (4096 - 1) with (2 ^ 12 - 1). rewrite land_ones_mod by lia. change (2 ^ 12) with 4096.
  rewrite virt_phys by lia. pose proof (Z.mod_pos_bound buf 4096 ltac:(lia)) as Hm. unfold pages_after.
  destruct (Z.leb_spec len (4096 - buf mod 4096)) as [Hfit|Hfit]; [run_step; by split_and!|].
  rewrite wrap_small by (unfold in_width; lia).
  replace (len - (4096 - buf mod 4096) + 4096 - 1) with (len - (4096 - buf mod 4096) + 4095) by lia.
  set (np := (len - (4096 - buf mod 4096) + 4095) / 4096) in *. assert (0 < np) as Hn by (unfold np; apply Z.div_str_pos; lia).
  destruct (Z.eqb_spec np 0); [lia|]. change (4096 / 8) with 512. rewrite Z.gtb_ltb. destruct (Z.ltb_spec 512 np); [run_step; split_and!; try done; by left|].
  run_step. apply run_zoom. eapply run_weaken; [by apply alloc_page_spec|done|].
  intros list p' (Hfi' & Hmg & [(-> & Hff & Hno)|(f & -> & Hfa & Hfr & Hf & Hfm & Hff)]).
  { cbn [Z.eqb]. run_step. split; [done|]. split; [done|]. split; [done|]. split; [done|]. split; [done|by right]. }
  destruct (Z.eqb_spec (f + hh) 0); [lia|]. run_step. unfold hw_do. run_step. run_step.
  pose proof (frame_apart _ _ Hqp Hf Hfa) as Hap. rewrite virt_phys by lia. rewrite (wrap_small 64 (buf + (4096 - buf mod 4096))) by (unfold in_width; lia).
  assert (4096 * np < len - (4096 - buf mod 4096) + 4096) as Hnle by (unfold np; dlia).
  eapply run_mono.
  { assert (f + hh + 4096 ≤ 2 ^ 64) by (change (2 ^ 52) with 4503599627370496 in *; dlia).
    apply prp_entries_spec; [by rewrite Z.add_mod, Hfa, HHa|lia..|done|lia|rewrite Z2Nat.id; lia|lia|rewrite Z2Nat.id; lia]. }
  intros [] s' (d & -> & Hq & Hw). run_step. cbn [g_nvme g_io_cmd_state nv_pmm nv_hw set_nv_hw set_nv_pmm prp1 prp2 prp_list_virt] in *.
  destruct Hap as [Ha1 Ha2]. split_and!; try done; [rewrite Hq; by apply nq_zero|].
  exists f. split_and!; try done; [by apply Hmg|lia|]. intros i Hi. rewrite Hw by dlia.
  rewrite bool_decide_eq_true_2 by (rewrite Z2Nat.id; lia). rewrite <- page_base_phys by done.
  replace ((f + 8 * i + hh - (f + hh)) / 8 - 0) with i by dlia. done.
Qed.
Lemma free_prp_spec E s prp f :
  frames_inv (nv_pmm s) → frame_managed (nv_pmm s) f → prp_list_virt prp = f + hh →
  run E (nvme_free_prp lay prp) (λ _ s', ∃ p, s' = set_nv_pmm p s ∧ frames_inv p ∧ ∀ q, frame_free p q ↔ frame_free (nv_pmm s) q ∨ q = f) s.
Proof.
  intros Hfi Hm Hp. destruct (frame_managed_aligned _ _ Hfi Hm) as [_ Hr]. destruct Hlay as (? & _ & _).
  unfold nvme_free_prp. rewrite Hp. destruct (Z.eqb_spec (f + hh) 0); [lia|]. cbn [negb]. apply run_zoom.
  eapply run_weaken; [by apply free_page_spec|done|]. intros [] p' [? ?]. by exists p'.
Qed.

(** Entries that are as [build_prp_spec] says name the buffer's pages, but for the
    buffer in exactly two pages. *)
Lemma entries_pages s' prp buf len :
  hh ≤ buf → prp1 prp = buf - hh → pages_after buf len ≠ 1 →
  (pages_after buf len ≠ 0 → ∃ f, prp2 prp = f ∧
     ∀ i, 0 ≤ i < pages_after buf len → mem_word (nv_hw s') (f + 8 * i + hh) = ((buf - hh) / 4096 + 1 + i) * 4096) →
  prp_pages (λ p, mem_word (nv_hw s') (p + hh)) (prp1 prp) (prp2 prp) len = buffer_pages (buf - hh) len.
Proof.
  intros Hb Hp1 Hne Hr. unfold prp_pages, buffer_pages. rewrite Hp1, pages_after_phys by done.
  destruct (Z.eqb_spec (pages_after buf len) 0) as [Hz|Hz]; [by rewrite Hz|].
  destruct (Z.eqb_spec (pages_after buf len) 1); [done|]. destruct (Hr Hz) as (f & -> & Hw).
  f_equal. apply list_fmap_ext. intros i x Hx. apply lookup_seqZ in Hx as [-> Hi]. apply Hw. lia.
Qed.

(** C19. The two entries made for a buffer mean the buffer's own pages to the
    controller, in order, for a buffer in the direct map that lies in one page or
    in three or more; none are made only for more than 512 further pages or when
    no frame is left. *)
Theorem nvme_prp_describes_buffer s buf len :
  frames_inv (nv_pmm s) → queue_pages s → hh ≤ buf → 0 < len → buf + len + 4096 < 2 ^ 64 →
  wp (nvme_build_prp lay buf len) (λ r s',
    match r with
    | Some prp => pages_after buf len ≠ 1 →
        prp_pages (λ p, mem_word (nv_hw s') (p + hh)) (prp1 prp) (prp2 prp) len = buffer_pages (buf - hh) len
    | None => 512 < pages_after buf len ∨ ∀ q, ¬ frame_free (nv_pmm s) q
    end) s.
Proof.
  intros Hfi Hqp Hb Hl He. eapply run_mono; [by apply build_prp_spec|].
  intros [prp|] s' (_ & _ & _ & _ & Hr); [|by destruct Hr as [_ ?]]. destruct Hr as [Hp1 Hr]. intros Hne.
  apply entries_pages; try done. intros Hz. rewrite (proj2 (Z.eqb_neq _ _) Hz) in Hr.
  destruct Hr as (f & _ & _ & -> & _ & _ & Hw). by exists f.
Qed.

(** C38. For a buffer in exactly two pages the second entry is the address of the
    list, where the controller expects the second page: the transfer goes to the
    frame of the list and not to the buffer. *)
Theorem nvme_prp_two_pages_misdirected s buf len :
  frames_inv (nv_pmm s) → queue_pages s → hh ≤ buf → 0 < len → buf + len + 4096 < 2 ^ 64 → pages_after buf len = 1 →
  ¬ frame_free (nv_pmm s) (((buf - hh) / 4096 + 1) * 4096) →
  wp (nvme_build_prp lay buf len) (λ r s',
    match r with
    | Some prp => ∃ f, frame_free (nv_pmm s) f ∧
        prp_pages (λ p, mem_word (nv_hw s') (p + hh)) (prp1 prp) (prp2 prp) len = [buf - hh; f] ∧
        buffer_pages (buf - hh) len = [buf - hh; ((buf - hh) / 4096 + 1) * 4096] ∧ f ≠ ((buf - hh) / 4096 + 1) * 4096
    | None => ∀ q, ¬ frame_free (nv_pmm s) q
    end) s.
Proof.
  intros Hfi Hqp Hb Hl He Hone Hbusy. eapply run_mono; [by apply build_prp_spec|]. rewrite Hone.
  intros [prp|] s' (_ & _ & _ & _ & Hr); [|destruct Hr as [_ [|]]; [lia|done]]. cbn [Z.eqb] in Hr.
  destruct Hr as (Hp1 & f & Hf & _ & -> & _). exists f. unfold prp_pages, buffer_pages. rewrite Hp1, pages_after_phys, Hone by done.
  split_and!; try done; [apply Hf..| |].
  - change (seqZ 0 1) with [0]. cbn. by rewrite Z.add_0_r.
  - intros ->. by apply Hbusy.
Qed.

(** * Transfers *)

Abbreviation q_of s := (nq (NvmeQueues := NQ) (nv_hw s)).
Abbreviation inflight := (inflight (NQ := NQ)).

Lemma inflight_ext s s' c :
  g_nvme s' = g_nvme s → g_io_cmd_state s' = g_io_cmd_state s → q_of s' = q_of s → inflight s c → inflight s' c.
Proof.
  intros Hg Hc Hq [[R1 R2 R3 R4 R5 R6] F1 F2 F3 F4 F5 F6 F7 F8]. split; rewrite ?Hq, ?Hg, ?Hc; try done.
  split; rewrite ?Hq, ?Hg, ?Hc; done.
Qed.

(** The command of a request. *)
Definition request (op sector count p1 p2 : Z) : nvme_sqe_t :=
  mkSqe op NVME_NAMESPACE_ID 0 0 p1 p2 (Z.land sector 0xFFFFFFFF) (u32 (Z.shiftr sector 32)) (Z.land (count - 1) 0xFFFF) 0 0 0.

(** Submitting a command and waiting for it. *)
Lemma submit_wait_spec s c cmd :
  inflight s c → in_width 16 (cdw0 cmd) →
  (∃ s', nvme_submit_io cmd s = Ok (None, s') ∧ inflight s' c ∧ nv_pmm s' = nv_pmm s ∧ q_of s' = q_of s ∧
    ((∀ cid, ¬ cid_free (depth := depth) s cid) ∨ S (q_tail (q_of s)) = (sq_seen c (q_of s) + depth)%nat)) ∨
  (∃ fuel cid s1 s' c' n x, nvme_submit_io cmd s = Ok (Some cid, s1) ∧
    nvme_wait_cid fuel cid s1 = Ok ((c_status x =? 0, c_dw0 x, c_status x), s') ∧
    inflight s' c' ∧ nv_pmm s' = nv_pmm s ∧
    (c ≤ n < c')%nat ∧ q_posted (q_of s') !! n = Some x ∧ c_cid x = cid ∧
    q_log (q_of s') !! q_tail (q_of s) = Some (tag_cid cid cmd) ∧ in_width 16 cid).
Proof.
  intros Hi Hw. pose proof (submit_io_spec never s c cmd Hi Hw) as Hsub. apply wp_inv in Hsub as ([cid|] & s1 & Hrun & Hr); [right|left].
  2: { destruct Hr as (Hi1 & Hh & Hp & Hwhy). exists s1. by rewrite Hh. }
  destruct Hr as ([Hcid _] & Hi1 & Hout & Hroom & Hst & d & Hs1).
  destruct (wait_cid_spec s1 c cid Hi1) as (fuel & s' & c' & n & x & Hwait & Hi' & Hn & Hx & Hcx & Hno & _ & Hk & Hev).
  { rewrite Hout. apply elem_of_cons. by left. }
  assert (in_width 16 cid) as Hw16.
  { pose proof (cf_depth _ (ri_conf _ _ (if_ring _ _ Hi))). unfold in_width. lia. }
  exists fuel, cid, s1, s', c', n, x. split_and!; try done; [by destruct Hk as [-> _]; rewrite Hs1|lia|lia| ].
  pose proof (ri_wf _ _ (if_ring _ _ Hi)) as Hwf. pose proof (wf_slots _ _ Hwf) as Hsl. pose proof (wf_tail _ _ Hwf) as Htl.
  set (t := q_tail (q_of s)) in *. set (e := tag_cid cid cmd) in *. set (q1 := q_set_tail (S t) (q_set_slot (t `mod` depth) e (q_of s))) in *.
  assert (t `mod` depth < depth)%nat as Hmod by (apply Nat.mod_upper_bound; lia).
  assert (q_wf depth q1) as Hwf1.
  { destruct Hwf as [W1 W2 W3 W4 W5 W6 W7]. split; cbn; try done; [by rewrite length_insert|lia]. }
  destruct (qsteps_wf _ _ _ Hst Hwf1) as [_ [Hev1 _]].
  assert (q_evolves depth q1 (q_of s')) as Hev' by (by etrans). destruct Hev' as (Es & Et & _ & _ & El).
  assert (q_slots q1 !! (t `mod` depth)%nat = Some e) as Hslot by (cbn; apply list_lookup_insert_eq; lia).
  apply El; [|done]. split; [cbn; lia|]. destruct (decide (t < q_fetched (q_of s'))%nat); [done|]. exfalso. apply Hno.
  apply elem_of_app. left. apply list_elem_of_fmap. exists e.
  assert (sqe_cid e = cid) as He by (by apply tag_cid_id).
  split; [done|]. apply elem_of_app. left. apply list_elem_of_fmap. exists t.
  rewrite Es, Hslot. split; [done|]. apply elem_of_seq. rewrite Et. cbn. lia.
Qed.

(** The checks before a transfer. *)
Definition acceptable s (count buf : Z) : bool :=
  ready (g_nvme s) && negb (buf =? 0) && negb (count =? 0) && (count <=? 0x10000) && negb (lba_size (g_nvme s) =? 0) &&
  (count * lba_size (g_nvme s) <? 2 ^ 64) && ((mdts_bytes (g_nvme s) =? 0) || (count * lba_size (g_nvme s) <=? mdts_bytes (g_nvme s))).

(** The words of a read or write command, as the specification lays them out: the
    opcode below the identifier, namespace 1, the starting block in two halves and
    the number of blocks less one. *)
Record asks (e : nvme_sqe_t) (cid op sector count : Z) : Prop := {
  as_op : cdw0 e = op + 2 ^ 16 * cid;
  as_space : nsid e = 1;
  as_block : 0 ≤ cdw10 e < 2 ^ 32 ∧ 0 ≤ cdw11 e < 2 ^ 32 ∧ cdw10 e + 2 ^ 32 * cdw11 e = sector mod 2 ^ 64;
  as_count : cdw12 e = count - 1;
  as_rest : sqe_res e = 0 ∧ mptr e = 0 ∧ cdw13 e = 0 ∧ cdw14 e = 0 ∧ cdw15 e = 0
}.

Lemma request_asks op sector count p1 p2 cid :
  in_width 16 op → in_width 16 cid → 1 ≤ count ≤ 0x10000 →
  asks (tag_cid cid (request op sector count p1 p2)) cid op sector count.
Proof.
  intros Ho Hc Hn. unfold in_width in *. split; cbn; try done.
  - rewrite (wrap_small 32) by (unfold in_width; rewrite Z.shiftl_mul_pow2 by lia; lia).
    rewrite lor_shiftl_add by done. lia.
  - change 4294967295 with (2 ^ 32 - 1). rewrite land_ones_mod by lia. unfold u32, wrap.
    rewrite Z.shiftr_div_pow2 by lia. change (2 ^ 64) with (2 ^ 32 * 2 ^ 32).
    rewrite Z.rem_mul_r by lia. split_and!; try apply Z.mod_pos_bound; lia.
  - change 65535 with (2 ^ 16 - 1). rewrite land_ones_mod by lia. apply Z.mod_small. lia.
Qed.

(** The request was taken by the controller, as the next command: it asks for the
    operation, its two entries are those built for the buffer, and they mean the
    buffer's own pages unless the buffer lies in exactly two; the completion of that
    very command has this status. *)
Definition carried_out s s' (c : nat) (op sector count buf : Z) (ok : bool) : Prop :=
  let len := count * lba_size (g_nvme s) in
  ∃ cid e prp s1 n x, q_log (q_of s') !! q_tail (q_of s) = Some e ∧ asks e cid op sector count ∧
    nvme_build_prp lay buf len s = Ok (Some prp, s1) ∧ sqe_prp1 e = prp1 prp ∧ sqe_prp2 e = prp2 prp ∧
    (pages_after buf len ≠ 1 →
       prp_pages (λ p, mem_word (nv_hw s1) (p + hh)) (sqe_prp1 e) (sqe_prp2 e) len = buffer_pages (buf - hh) len) ∧
    (c ≤ n)%nat ∧ q_posted (q_of s') !! n = Some x ∧ c_cid x = cid ∧ ok = (c_status x =? 0).

Lemma transfer_guards {A} s count buf (k : M (nvme_state D) A) (r : A) :
  0 ≤ count → 0 ≤ lba_size (g_nvme s) < 2 ^ 32 →
  let c := g_nvme s in
  let bytes := u64 (count * lba_size c) in
  (if negb (ready c) || (buf =? 0) || (count =? 0) then ret r
   else if count >? 0x10000 then ret r
   else if (lba_size c =? 0) || negb (bytes / lba_size c =? count) then ret r
   else if negb (mdts_bytes c =? 0) && (bytes >? mdts_bytes c) then ret r else k) =
  if acceptable s count buf then k else ret r.
Proof.
  intros Hc Hl. cbv zeta. unfold acceptable. set (l := lba_size (g_nvme s)) in *.
  destruct (ready (g_nvme s)); [|done]. destruct (buf =? 0); [done|]. destruct (count =? 0); [done|]. cbn [negb orb andb].
  rewrite Z.gtb_ltb, Z.leb_antisym. destruct (Z.ltb_spec 0x10000 count) as [|Hle]; [done|]. cbn [negb andb].
  destruct (Z.eqb_spec l 0) as [|Hl0]; [done|]. cbn [negb orb andb].
  assert (count * l < 2 ^ 64) by nia. rewrite (proj2 (Z.ltb_lt _ _)) by done. rewrite wrap_small by (unfold in_width; nia).
  rewrite Z.div_mul, Z.eqb_refl by done. cbn [negb andb]. rewrite Z.gtb_ltb, Z.leb_antisym.
  destruct (mdts_bytes (g_nvme s) =? 0); [done|]. cbn [negb orb andb]. by destruct (mdts_bytes (g_nvme s) <? count * l).
Qed.

(** Something needed for the request is used up: room in the list of pages, frames,
    identifiers, the submission queue. *)
Definition used_up s (c : nat) (count buf : Z) : Prop :=
  512 < pages_after buf (count * lba_size (g_nvme s)) ∨ (∀ q, ¬ frame_free (nv_pmm s) q) ∨
  (∀ cid, ¬ cid_free (depth := depth) s cid) ∨ S (q_tail (q_of s)) = (sq_seen c (q_of s) + depth)%nat.

Lemma acceptable_bytes s count buf :
  acceptable s count buf = true → 0 ≤ count → 0 ≤ lba_size (g_nvme s) →
  0 < count * lba_size (g_nvme s) ∧ 1 ≤ count ≤ 0x10000 ∧ u64 (count * lba_size (g_nvme s)) = count * lba_size (g_nvme s).
Proof.
  unfold acceptable. rewrite !andb_true_iff, !negb_true_iff, !Z.eqb_neq, Z.ltb_lt, Z.leb_le. intros ((((((_ & _) & Hc) & Hm) & Hl) & Hb) & _) ? ?.
  split; [nia|]. split; [lia|]. apply wrap_small. unfold in_width. nia.
Qed.

(** What the transfer does after the checks. *)
Lemma transfer_body s c op sector count buf :
  inflight s c → frames_inv (nv_pmm s) → queue_pages s → in_width 16 op → 0 ≤ count → 0 ≤ lba_size (g_nvme s) →
  hh ≤ buf → buf + count * lba_size (g_nvme s) + 4096 < 2 ^ 64 → acceptable s count buf = true →
  ∃ fuel, wp (let! r := nvme_build_prp lay buf (u64 (count * lba_size (g_nvme s))) in
    match r with
    | None => ret false
    | Some prp =>
        let! r := nvme_submit_io (request op sector count (prp1 prp) (prp2 prp)) in
        match r with
        | None => nvme_free_prp lay prp;; ret false
        | Some cid => let! w := nvme_wait_cid fuel cid in nvme_free_prp lay prp;; ret w.1.1
        end
    end) (λ ok s', (∃ c', inflight s' c') ∧ frames_inv (nv_pmm s') ∧ (∀ q, frame_free (nv_pmm s') q ↔ frame_free (nv_pmm s) q) ∧
      (carried_out s s' c op sector count buf ok ∨ ok = false ∧ q_of s' = q_of s ∧ used_up s c count buf)) s.
Proof.
  intros Hi Hfi Hqp Hop Hc Hl Hb He Hacc. destruct (acceptable_bytes _ _ _ Hacc Hc Hl) as (Hpos & Hcnt & ->).
  pose proof (build_prp_spec never s buf (count * lba_size (g_nvme s)) Hfi Hqp Hb Hpos He) as Hbuild.
  apply wp_inv in Hbuild as (r & s1 & Hrun & Hg & Hcm & Hfi1 & Hq & Hr).
  assert (inflight s1 c) as Hi1 by (by eapply inflight_ext).
  destruct r as [prp|].
  2: { exists 0%nat. run_step. eapply run_value; [done|]. cbv beta iota. run_step. destruct Hr as [Hff Hwhy].
    split; [by exists c|]. split; [done|]. split; [done|]. right. split_and!; try done. unfold used_up. tauto. }
  destruct Hr as [Hp1 Hr].
  assert (∀ E s2, frames_inv (nv_pmm s2) → nv_pmm s2 = nv_pmm s1 → run E (nvme_free_prp lay prp) (λ _ s3, ∃ p, s3 = set_nv_pmm p s2 ∧
    frames_inv p ∧ ∀ q, frame_free p q ↔ frame_free (nv_pmm s) q) s2) as Hfree.
  { intros E s2 Hfi2 Hp2. destruct (pages_after buf _ =? 0).
    - destruct Hr as [Hv Hs]. unfold nvme_free_prp. rewrite Hv. cbn [Z.eqb negb]. run_step. exists (nv_pmm s2).
      split; [by destruct s2|]. split; [done|]. by rewrite Hp2, Hs.
    - destruct Hr as (f & Hf & Hm & _ & Hv & Hff & _). eapply run_mono; [apply (free_prp_spec E s2 prp f); [done|by rewrite Hp2|done]|].
      intros [] s3 (p & -> & Hp & Hpf). exists p. split; [done|]. split; [done|]. intros q. rewrite Hpf, Hp2, Hff.
      split; [intros [[? ?]| ->]; done|]. intros Hqf. destruct (decide (q = f)); [by right|by left]. }
  destruct (submit_wait_spec s1 c (request op sector count (prp1 prp) (prp2 prp)) Hi1 Hop) as
    [(s2 & Hsub & Hi2 & Hp2 & Hq2 & Hwhy)|(fuel & cid & s2 & s3 & c' & n & x & Hsub & Hwait & Hi3 & Hp3 & Hn & Hx & Hcx & Hlog & Hcid)].
  - exists 0%nat. run_step. eapply run_value; [done|]. cbv beta iota. run_step. eapply run_value; [done|]. cbv beta iota. run_step.
    eapply run_mono; [apply Hfree; [by rewrite Hp2|done]|]. intros [] s3 (p & -> & Hp & Hpf). run_step.
    split; [exists c; by apply (inflight_ext s2)|]. split; [done|]. split; [done|]. right. split; [done|].
    split; [by rewrite <- Hq, <- Hq2|]. unfold used_up. rewrite Hq in Hwhy. right. right.
    destruct Hwhy as [Hno|Hfull]; [left|by right]. intros cid [Hcid (y & Hy & Hu)]. apply (Hno cid). split; [done|].
    exists y. by rewrite Hcm.
  - exists fuel. run_step. eapply run_value; [done|]. cbv beta iota. run_step. eapply run_value; [done|]. cbv beta iota. run_step. eapply run_value; [done|]. cbv beta iota. run_step.
    eapply run_mono; [apply Hfree; [by rewrite Hp3|done]|]. intros [] s4 (p & -> & Hp & Hpf). run_step. cbn [fst].
    split; [exists c'; by apply (inflight_ext s3)|]. split; [done|]. split; [done|]. left.
    eexists cid, _, prp, s1, n, x. rewrite <- Hq. split; [exact Hlog|]. split; [by apply request_asks|].
    split_and!; try done; [|lia]. intros Hne. cbn. apply entries_pages; try done. intros Hz.
    rewrite (proj2 (Z.eqb_neq _ _) Hz) in Hr. destruct Hr as (f & _ & _ & -> & _ & _ & Hw). by exists f.
Qed.

(** C15. A read or write returns.  One that passes the checks, with the resources it
    needs at hand, has the controller take exactly the command asked for (operation,
    block address, count, and both entries as built for the buffer), whatever else is
    in flight, and answers with the status of that command's own completion.  The
    entries name the buffer's own pages when it lies in one page or in three or more;
    for exactly two pages they do not (see [nvme_prp_two_pages_misdirected]).  A
    request that fails a check does nothing.  Every frame it took is given back, and the queues and the table of
    commands are left in order. *)
Theorem nvme_transfer_correct s c op sector count buf :
  inflight s c → frames_inv (nv_pmm s) → queue_pages s → in_width 16 op → 0 ≤ count → 0 ≤ lba_size (g_nvme s) < 2 ^ 32 →
  hh ≤ buf → buf + count * lba_size (g_nvme s) + 4096 < 2 ^ 64 →
  ∃ fuel ok s' c', nvme_transfer lay fuel op sector count buf s = Ok (ok, s') ∧
    inflight s' c' ∧ frames_inv (nv_pmm s') ∧ (∀ q, frame_free (nv_pmm s') q ↔ frame_free (nv_pmm s) q) ∧
    if acceptable s count buf
    then carried_out s s' c op sector count buf ok ∨ ok = false ∧ q_of s' = q_of s ∧ used_up s c count buf
    else ok = false ∧ s' = s.
Proof.
  intros Hi Hfi Hqp Hop Hc Hl Hb He. unfold nvme_transfer. destruct (acceptable s count buf) eqn:Hacc.
  - destruct (transfer_body s c op sector count buf) as [fuel Hwp]; try done; [lia|].
    apply wp_inv in Hwp as (ok & s' & Hrun & (c' & Hi') & Hfi' & Hff & Hres). exists fuel, ok, s', c'. split; [|done].
    unfold bind at 1, get. rewrite (transfer_guards s count buf) by done. by rewrite Hacc.
  - exists 0%nat, false, s, c. split; [|done]. unfold bind at 1, get. rewrite (transfer_guards s count buf) by done. by rewrite Hacc.
Qed.
End Build.
End Pages.
