(* ===== verification/NvmeDemo.v ===== *)
(** An NVMe controller that takes and completes one command each time the driver
    looks at the completion queue, and the driver run against it. *)

From stdpp Require Import relations.
From S2P Require Import Prelude Boot Frames Pmm Nvme NvmeSpec NvmeFlight NvmeTransfer.

Definition demo_depth : nat := 4.
Definition demo_hhdm : Z := g_hhdm_offset demo_layout.
Definition demo_sq : Z := demo_hhdm + 32768.
Definition demo_cq : Z := demo_hhdm + 36864.
Definition demo_bar : Z := demo_hhdm + 0xFEBF0000.
Definition demo_sqdb : Z := nvme_sq_tdbl demo_bar 1 4.
Definition demo_cqdb : Z := nvme_cq_hdbl demo_bar 1 4.

Record demo_ctl : Type := mkCtl { dc_q : qpair; dc_words : Z → Z }.

(** One command taken, one completed; reads and writes succeed, anything else is an
    invalid operation. *)
Definition demo_turn (q : qpair) : qpair :=
  let q1 := match q_slots q !! (q_fetched q `mod` demo_depth)%nat with
            | Some e => if (q_fetched q <? q_tail q)%nat
                        then mkQ (q_slots q) (q_tail q) (S (q_fetched q)) (q_pending q ++ [e]) (q_log q ++ [e]) (q_posted q) (q_released q)
                        else q
            | None => q
            end in
  match q_pending q1 with
  | e :: l => if (S (length (q_posted q1)) <? q_released q1 + demo_depth)%nat
              then mkQ (q_slots q1) (q_tail q1) (q_fetched q1) l (q_log q1)
                     (q_posted q1 ++ [mkCompletion 0 (sqe_cid e) (if (cdw0 e mod 256 =? 1) || (cdw0 e mod 256 =? 2) then 0 else 1) (q_fetched q1)])
                     (q_released q1)
              else q1
  | [] => q1
  end.

(** The next count from [cur] on with this value of the doorbell. *)
Definition demo_advance (cur v : nat) : nat := (cur + (v + demo_depth - cur `mod` demo_depth) `mod` demo_depth)%nat.

Definition demo_entry (posted : list completion) (i : nat) : nvme_cqe_t :=
  match slot_index demo_depth (length posted) i with
  | None => mkCqe 0 0 0 0 0 0
  | Some n => match posted !! n with
              | Some c => mkCqe (c_dw0 c) 0 (Z.of_nat (c_fetched c `mod` demo_depth)) 1 (c_cid c) (2 * c_status c + phase_of demo_depth n)
              | None => mkCqe 0 0 0 0 0 0
              end
  end.

#[export] Instance demo_nvme_io : NvmeIo demo_ctl := {
  hw_read32 _ d := (0, d);
  hw_read64 _ d := (0, d);
  hw_write32 a v d :=
    if a =? demo_sqdb then mkCtl (q_set_tail (demo_advance (q_tail (dc_q d)) (Z.to_nat v)) (dc_q d)) (dc_words d)
    else if a =? demo_cqdb then mkCtl (q_set_released (demo_advance (q_released (dc_q d)) (Z.to_nat v)) (dc_q d)) (dc_words d)
    else d;
  hw_write64 _ _ d := d;
  mem_load8 _ d := (0, d);
  mem_store64 a v d := mkCtl (dc_q d) (λ b, if bool_decide (b = a) then v else dc_words d b);
  mem_zero a n d := mkCtl (dc_q d) (λ b, if bool_decide (a ≤ b < a + n) then 0 else dc_words d b);
  mem_store_sqe a e d := mkCtl (q_set_slot (Z.to_nat ((a - demo_sq) / 64)) e (dc_q d)) (dc_words d);
  mem_load_cqe a d :=
    let q := demo_turn (dc_q d) in (demo_entry (q_posted q) (Z.to_nat ((a - demo_cq) / 16)), mkCtl q (dc_words d))
}.

#[export] Instance demo_nvme_memory : NvmeMemory demo_ctl.
Proof. exists dc_words; done. Defined.

Lemma demo_turn_steps q : q_wf demo_depth q → qsteps demo_depth q (demo_turn q).
Proof.
  intros Hwf. unfold demo_turn. set (q1 := match _ !! _ with Some _ => _ | None => _ end).
  assert (qsteps demo_depth q q1) as H1.
  { unfold q1. destruct (q_slots q !! _) as [e|] eqn:He; [|done]. destruct (Nat.ltb_spec (q_fetched q) (q_tail q)); [|done].
    apply rtc_once. by apply q_fetch. }
  destruct (q_pending q1) as [|e l] eqn:Hp; [done|]. destruct (Nat.ltb_spec (S (length (q_posted q1))) (q_released q1 + demo_depth)); [|done].
  etrans; [exact H1|]. apply rtc_once. apply (q_post demo_depth q1 e [] l); try done. cbn. destruct (_ || _); done.
Qed.

Lemma demo_turn_progress q : q_wf demo_depth q → q_waiting demo_depth q → (length (q_posted q) < length (q_posted (demo_turn q)))%nat.
Proof.
  intros [W1 W2 W3 W4 W5 W6 W7] [Hw1 Hw2]. unfold demo_turn.
  destruct (lookup_lt_is_Some_2 (q_slots q) (q_fetched q `mod` demo_depth)%nat) as [e He].
  { rewrite W1. by apply Nat.mod_upper_bound. }
  rewrite He. destruct (Nat.ltb_spec (q_fetched q) (q_tail q)) as [Hlt|Hge]; cbv zeta; cbn [q_pending q_posted q_released].
  - destruct (q_pending q ++ [e]) as [|e' l] eqn:Hl; [by destruct (q_pending q)|].
    rewrite (proj2 (Nat.ltb_lt _ _)) by done. cbn. rewrite length_app. cbn. lia.
  - destruct (q_pending q) as [|e' l] eqn:Hl; [cbn in W4; lia|].
    rewrite (proj2 (Nat.ltb_lt _ _)) by done. cbn. rewrite length_app. cbn. lia.
Qed.

Lemma demo_advance_eq cur n : (cur ≤ n < cur + demo_depth)%nat → demo_advance cur (n `mod` demo_depth) = n.
Proof.
  unfold demo_advance, demo_depth. intros H. pose proof (Nat.div_mod_eq n 4). pose proof (Nat.div_mod_eq cur 4).
  pose proof (Nat.mod_upper_bound n 4 ltac:(lia)). pose proof (Nat.mod_upper_bound cur 4 ltac:(lia)).
  assert ((n mod 4 + 4 - cur mod 4) mod 4 = n - cur)%nat as ->; [|lia].
  symmetry. apply (Nat.mod_unique _ _ (1 + cur / 4 - n / 4)); lia.
Qed.

Lemma demo_slot i : (i < demo_depth)%nat → Z.to_nat ((u64 (demo_sq + SQE_BYTES * Z.of_nat i) - demo_sq) / 64) = i.
Proof.
  unfold demo_depth. intros Hi. do 4 (destruct i as [|i]; [by vm_compute|]). lia.
Qed.

Lemma demo_cslot i : (i < demo_depth)%nat → Z.to_nat ((u64 (demo_cq + CQE_BYTES * Z.of_nat i) - demo_cq) / 16) = i.
Proof.
  unfold demo_depth. intros Hi. do 4 (destruct i as [|i]; [by vm_compute|]). lia.
Qed.

Lemma demo_shows posted i : (i < demo_depth)%nat → shows demo_depth posted i (demo_entry posted i).
Proof.
  intros Hi. unfold shows, demo_entry. destruct (slot_index demo_depth (length posted) i) as [n|] eqn:Hn; [|done].
  assert (n < length posted)%nat as Hlt.
  { unfold slot_index in Hn. destruct (Nat.ltb_spec i (length posted)); [|done]. assert (n = i + (length posted - 1 - i) / demo_depth * demo_depth)%nat as -> by congruence.
    pose proof (Nat.Div0.mul_div_le (length posted - 1 - i) demo_depth). lia. }
  destruct (lookup_lt_is_Some_2 posted n Hlt) as [c Hc]. rewrite Hc. by exists c.
Qed.

#[export] Program Instance demo_queues : NvmeQueues demo_ctl demo_sq demo_cq demo_sqdb demo_cqdb demo_depth := {
  nq := dc_q;
  nq_eta _ := 0%nat
}.
Next Obligation.
  intros d i Hi Hwf. cbn. rewrite demo_cslot by done. split; [by apply demo_turn_steps|]. split; [by apply demo_shows|].
  intros Hw. left. by apply demo_turn_progress.
Qed.
Next Obligation. intros d i e Hi. cbn. by rewrite demo_slot. Qed.
Next Obligation.
  intros d n [W1 W2 W3 W4 W5 W6 W7] Hn. unfold hw_write32, demo_nvme_io. rewrite Z.eqb_refl, Nat2Z.id, demo_advance_eq by lia. done.
Qed.
Next Obligation.
  intros d n [W1 W2 W3 W4 W5 W6 W7] Hn. unfold hw_write32, demo_nvme_io. change (demo_cqdb =? demo_sqdb) with false.
  rewrite Z.eqb_refl, Nat2Z.id, demo_advance_eq by lia. done.
Qed.
Next Obligation. done. Qed.
Next Obligation. done. Qed.

(** The queues fresh, no command yet. *)
Definition demo_nctrl : nvme_ctrl_t :=
  mkCtrl demo_bar 4 (mkAdmin 0 0 0 0 0 0 0 0) (mkIo demo_sq demo_cq 32768 36864 4 0 0 0 1) 0 0 0 512 9 false 0 true false false.
Definition demo_nvme : nvme_state demo_ctl :=
  mkNvme (mkCtl (mkQ (replicate 4 zero_sqe) 0 0 [] [] [] 0) (λ _, 0)) demo_pmm demo_nctrl (replicate 64 (mkCmd 0 0 0 0)).

Lemma demo_inflight : inflight (NQ := demo_queues) demo_nvme 0.
Proof.
  split; try done.
  - split; try done. split; try done. unfold demo_depth. lia.
    split; try done; cbn; unfold demo_depth; try lia.
  - cbn. unfold demo_depth. lia.
  - constructor.
  - intros cid Hin. by apply not_elem_of_nil in Hin.
Qed.

Lemma demo_hhdm_ok : hhdm_ok demo_layout.
Proof. split_and!; by vm_compute. Qed.

Lemma demo_frames : frames_inv (nv_pmm demo_nvme).
Proof. split; [apply demo_pmm_inv|by vm_compute]. Qed.

Lemma demo_page_busy p : bit_test demo_pmm p = true → ¬ frame_free demo_pmm (p * 4096).
Proof. intros Hb [_ [_ Hf]]. unfold PMM_PAGE_SIZE in Hf. rewrite Z.div_mul in Hf by done. by rewrite Hb in Hf. Qed.

Lemma demo_queue_pages : queue_pages demo_layout (sq := demo_sq) (cq := demo_cq) demo_nvme.
Proof.
  split_and!; [done..| |].
  - apply (demo_page_busy 8). by vm_compute.
  - apply (demo_page_busy 9). by vm_compute.
Qed.

Lemma nvme_poll_completions_correct_witness :
  inflight (NQ := demo_queues) demo_nvme 0 ∧
  wp nvme_poll_completions (λ _ s', ∃ q d,
    qsteps demo_depth (dc_q (nv_hw demo_nvme)) q ∧
    let xs := drop 0 (q_posted q) in
    let c' := (0 + length xs)%nat in
    s' = took_all (depth := demo_depth) xs 0 d demo_nvme ∧ inflight (NQ := demo_queues) s' c' ∧
    (length (q_posted (dc_q (nv_hw demo_nvme))) ≤ c')%nat ∧ q_released (dc_q (nv_hw s')) = c' ∧
    ∀ x, x ∈ xs → ∃ y, g_io_cmd_state demo_nvme !! Z.to_nat (c_cid x) = Some y ∧
      g_io_cmd_state s' !! Z.to_nat (c_cid x) = Some (mkCmd (in_use y) 1 (c_status x) (c_dw0 x))) demo_nvme.
Proof. split; [exact demo_inflight|]. exact (nvme_poll_completions_correct (NQ := demo_queues) demo_nvme 0 demo_inflight). Defined.

Definition demo_cmd : nvme_sqe_t := request 2 5 8 8192 0.

Lemma nvme_submit_io_safe_witness :
  wp (nvme_submit_io demo_cmd) (λ r s',
    match r with
    | Some cid => cid ∉ outstanding demo_depth 0 (dc_q (nv_hw demo_nvme)) ∧ inflight (NQ := demo_queues) s' 0 ∧
        let t := q_tail (dc_q (nv_hw demo_nvme)) in
        (∀ k, (q_fetched (dc_q (nv_hw demo_nvme)) ≤ k < t)%nat → (k `mod` demo_depth ≠ t `mod` demo_depth)%nat) ∧
        qsteps demo_depth (q_set_tail (S t) (q_set_slot (t `mod` demo_depth) (tag_cid cid demo_cmd) (dc_q (nv_hw demo_nvme)))) (dc_q (nv_hw s'))
    | None => inflight (NQ := demo_queues) s' 0 ∧ nv_hw s' = nv_hw demo_nvme ∧
        ((∀ cid, ¬ cid_free (depth := demo_depth) demo_nvme cid) ∨
         S (q_tail (dc_q (nv_hw demo_nvme))) = (sq_seen 0 (dc_q (nv_hw demo_nvme)) + demo_depth)%nat)
    end) demo_nvme.
Proof. apply (nvme_submit_io_safe (NQ := demo_queues) demo_nvme 0 demo_cmd); [exact demo_inflight|done]. Defined.

Lemma nvme_calc_depth_bounds_witness :
  nvme_calc_depth 64 1023 64 = 64 ∧ nvme_calc_depth 64 65535 64 = 0.
Proof.
  destruct (nvme_calc_depth_bounds 64 1023 64) as (H1 & _); [done|done|lia|].
  destruct (nvme_calc_depth_bounds 64 65535 64) as (_ & _ & _ & _ & H2); [done|done|lia|].
  split; [by rewrite H1|by apply H2].
Defined.

Lemma nvme_prp_describes_buffer_witness :
  pages_after (demo_hhdm + 8192) 12288 = 2 ∧
  wp (nvme_build_prp demo_layout (demo_hhdm + 8192) 12288) (λ r s',
    match r with
    | Some prp => pages_after (demo_hhdm + 8192) 12288 ≠ 1 →
        prp_pages (λ p, mem_word (nv_hw s') (p + demo_hhdm)) (prp1 prp) (prp2 prp) 12288 = buffer_pages (demo_hhdm + 8192 - demo_hhdm) 12288
    | None => 512 < pages_after (demo_hhdm + 8192) 12288 ∨ ∀ q, ¬ frame_free (nv_pmm demo_nvme) q
    end) demo_nvme.
Proof.
  split; [by vm_compute|].
  apply (nvme_prp_describes_buffer demo_layout demo_hhdm_ok (NQ := demo_queues) demo_nvme (demo_hhdm + 8192) 12288);
    [exact demo_frames|exact demo_queue_pages|done..].
Defined.

Lemma nvme_prp_two_pages_misdirected_witness :
  wp (nvme_build_prp demo_layout (demo_hhdm + 8192) 8192) (λ r s',
    match r with
    | Some prp => ∃ f, frame_free (nv_pmm demo_nvme) f ∧
        prp_pages (λ p, mem_word (nv_hw s') (p + demo_hhdm)) (prp1 prp) (prp2 prp) 8192 = [demo_hhdm + 8192 - demo_hhdm; f] ∧
        buffer_pages (demo_hhdm + 8192 - demo_hhdm) 8192 =
          [demo_hhdm + 8192 - demo_hhdm; ((demo_hhdm + 8192 - demo_hhdm) / 4096 + 1) * 4096] ∧
        f ≠ ((demo_hhdm + 8192 - demo_hhdm) / 4096 + 1) * 4096
    | None => ∀ q, ¬ frame_free (nv_pmm demo_nvme) q
    end) demo_nvme.
Proof.
  apply (nvme_prp_two_pages_misdirected demo_layout demo_hhdm_ok (NQ := demo_queues) demo_nvme (demo_hhdm + 8192) 8192);
    [exact demo_frames|exact demo_queue_pages|done..|]. apply (demo_page_busy 3). by vm_compute.
Defined.

Lemma nvme_transfer_correct_witness :
  acceptable demo_nvme 24 (demo_hhdm + 8192) = true ∧
  ∃ fuel ok s' c', nvme_transfer demo_layout fuel 2 5 24 (demo_hhdm + 8192) demo_nvme = Ok (ok, s') ∧
    inflight (NQ := demo_queues) s' c' ∧ frames_inv (nv_pmm s') ∧
    (∀ q, frame_free (nv_pmm s') q ↔ frame_free (nv_pmm demo_nvme) q) ∧
    if acceptable demo_nvme 24 (demo_hhdm + 8192)
    then carried_out demo_layout (NQ := demo_queues) demo_nvme s' 0 2 5 24 (demo_hhdm + 8192) ok ∨
         ok = false ∧ dc_q (nv_hw s') = dc_q (nv_hw demo_nvme) ∧ used_up (NQ := demo_queues) demo_nvme 0 24 (demo_hhdm + 8192)
    else ok = false ∧ s' = demo_nvme.
Proof.
  split; [by vm_compute|].
  apply (nvme_transfer_correct demo_layout demo_hhdm_ok (NQ := demo_queues) demo_nvme 0 2 5 24 (demo_hhdm + 8192));
    [exact demo_inflight|exact demo_frames|exact demo_queue_pages|done..].
Defined.

(** Six reads and writes in a row, once and a half round the queues of four. *)
Example demo_run :
  match (let! a := nvme_read demo_layout 3 0 8 (demo_hhdm + 8192) in
         let! b := nvme_write demo_layout 3 8 24 (demo_hhdm + 8192) in
         let! c := nvme_read demo_layout 3 0 8 (demo_hhdm + 8192) in
         let! d := nvme_read demo_layout 3 0 8 (demo_hhdm + 8192) in
         let! e := nvme_read demo_layout 3 0 8 (demo_hhdm + 8192) in
         let! f := nvme_write demo_layout 3 16 1 (demo_hhdm + 8192 + 16) in
         ret [a; b; c; d; e; f]) demo_nvme with
  | Ok (r, s') => r = [true; true; true; true; true; true] ∧ iocq_head (io (g_nvme s')) = 2 ∧ iocq_phase (io (g_nvme s')) = 0 ∧
      nv_pmm s' = nv_pmm demo_nvme ∧ (sqe_cid <$> q_log (dc_q (nv_hw s'))) = [0; 1; 2; 3; 0; 1]
  | _ => False
  end.
Proof. vm_compute. auto 6. Qed.
