(* ===== verification/Lapic.v ===== *)
(** The local interrupt controller (arch/x86_64/cpu/apic.c): access to its registers
    in both modes, bring-up on the boot processor and the others, the timer and its
    calibration, commands to other processors.

    Model-specific registers, the memory-mapped page, the time-stamp counter and the
    ports are hardware: class [LapicIo] has the accesses, class [LapicHw] what the
    manual says of them.  A write that the processor refuses is a general-protection
    fault, which the kernel does not survive.  [cpuid] is the instruction, by leaf and
    sub-leaf.  Loops that wait for hardware are bounded by fuel. *)

From S2P Require Import Prelude Boot Pmm Percpu.

Definition IA32_APIC_BASE_MSR : Z := 0x1B.
Definition IA32_X2APIC_ID_MSR : Z := 0x802.
Definition APIC_BASE_BSP_BIT : Z := Z.shiftl 1 8.
Definition APIC_BASE_X2APIC_ENABLE_BIT : Z := Z.shiftl 1 10.
Definition APIC_BASE_GLOBAL_ENABLE_BIT : Z := Z.shiftl 1 11.
Definition APIC_BASE_ADDR_MASK : Z := 0x000FFFFFFFFFF000.
Definition LAPIC_REG_ID : Z := 0x020.
Definition LAPIC_REG_VERSION : Z := 0x030.
Definition LAPIC_REG_TPR : Z := 0x080.
Definition LAPIC_REG_EOI : Z := 0x0B0.
Definition LAPIC_REG_SVR : Z := 0x0F0.
Definition LAPIC_REG_ESR : Z := 0x280.
Definition LAPIC_REG_LVT_CMCI : Z := 0x2F0.
Definition LAPIC_REG_ICR_LOW : Z := 0x300.
Definition LAPIC_REG_ICR_HIGH : Z := 0x310.
Definition LAPIC_REG_LVT_TIMER : Z := 0x320.
Definition LAPIC_REG_LVT_THERM : Z := 0x330.
Definition LAPIC_REG_LVT_PERF : Z := 0x340.
Definition LAPIC_REG_LVT_LINT0 : Z := 0x350.
Definition LAPIC_REG_LVT_LINT1 : Z := 0x360.
Definition LAPIC_REG_LVT_ERROR : Z := 0x370.
Definition LAPIC_REG_TIMER_INITCNT : Z := 0x380.
Definition LAPIC_REG_TIMER_CURRCNT : Z := 0x390.
Definition LAPIC_REG_TIMER_DIVCONF : Z := 0x3E0.
Definition LAPIC_SVR_SOFT_ENABLE : Z := Z.shiftl 1 8.
Definition LAPIC_LVT_MASKED : Z := Z.shiftl 1 16.
Definition LAPIC_TIMER_PERIODIC : Z := Z.shiftl 1 17.
Definition LAPIC_TIMER_DIVIDE_BY_16 : Z := 0x3.
Definition LAPIC_SPURIOUS_VECTOR : Z := 0xFF.
Definition LAPIC_TIMER_VECTOR_DEFAULT : Z := 0x20.
Definition LAPIC_TIMER_INIT_COUNT_DEFAULT : Z := 1000000.
Definition LAPIC_ICR_STATUS_PENDING : Z := Z.shiftl 1 12.
Definition LAPIC_ICR_DELIVERY_INIT : Z := 0x500.
Definition LAPIC_ICR_DELIVERY_SIPI : Z := 0x600.
Definition LAPIC_ICR_LEVEL_ASSERT : Z := Z.shiftl 1 14.
Definition PIC1_DATA_PORT : Z := 0x21.
Definition PIC2_DATA_PORT : Z := 0xA1.

Class LapicIo (D : Type) : Type := {
  la_rdmsr : Z → D → Z * D;
  la_wrmsr : Z → Z → D → option D;
  la_read32 : Z → D → Z * D;
  la_write32 : Z → Z → D → D;
  la_rdtsc : D → Z * D;
  la_outb : Z → Z → D → D
}.

Record lapic_state (D : Type) : Type := mkLa { la_hw : D; la_cpus : percpu }.
Arguments mkLa {D}. Arguments la_hw {D}. Arguments la_cpus {D}.

(** The four registers the instruction returns. *)
Record cpuid_regs : Type := mkRegs { r_eax : Z; r_ebx : Z; r_ecx : Z; r_edx : Z }.

Definition tsc_hz_from_cpuid (cpuid : Z → Z → cpuid_regs) : Z :=
  let max_leaf := r_eax (cpuid 0 0) in
  let from_0x16 :=
    if 0x16 <=? max_leaf then
      let r := cpuid 0x16 0 in if negb (r_eax r =? 0) then r_eax r * 1000000 else 0
    else 0 in
  if 0x15 <=? max_leaf then
    let r := cpuid 0x15 0 in
    if negb (r_eax r =? 0) && negb (r_ebx r =? 0) then
      if negb (r_ecx r =? 0) then u64 (r_ecx r * r_ebx r) / r_eax r else from_0x16
    else from_0x16
  else from_0x16.

Section Lapic.
Context (lay : kernel_layout) (cpuid : Z → Z → cpuid_regs).
Context {D : Type} `{!LapicIo D}.
Abbreviation state := (lapic_state D).
Implicit Types (s : state) (l : lapic_info_t).

Definition set_la_hw (d : D) s : state := mkLa d (la_cpus s).
Definition set_la_cpus (p : percpu) s : state := mkLa (la_hw s) p.
Definition set_entry (i : nat) (f : cpu_t → cpu_t) : M state unit :=
  modify (λ s, set_la_cpus (set_cpu i (f (cpu_at (la_cpus s) i)) (la_cpus s)) s).

Definition rdmsr_u64 (msr : Z) : M state Z := λ s, let r := la_rdmsr msr (la_hw s) in Ok (r.1, set_la_hw r.2 s).
Definition wrmsr_u64 (msr value : Z) : M state unit :=
  λ s, match la_wrmsr msr value (la_hw s) with
       | Some d => Ok (tt, set_la_hw d s)
       | None => Halt "General Protection Fault"
       end.
Definition read_u32 (a : Z) : M state Z := λ s, let r := la_read32 a (la_hw s) in Ok (r.1, set_la_hw r.2 s).
Definition write_u32 (a v : Z) : M state unit := modify (λ s, set_la_hw (la_write32 a v (la_hw s)) s).
Definition rdtsc_u64 : M state Z := λ s, let r := la_rdtsc (la_hw s) in Ok (r.1, set_la_hw r.2 s).
Definition outb_u8 (port v : Z) : M state unit := modify (λ s, set_la_hw (la_outb port v (la_hw s)) s).

(** * Registers *)

Definition lapic_read_reg l (reg : Z) : M state Z :=
  if x2apic_enabled l then
    let! v := rdmsr_u64 (u32 (0x800 + Z.shiftr reg 4)) in ret (u32 v)
  else read_u32 (u64 (apic_base_virt l + 4 * Z.shiftr reg 2)).

Definition lapic_write_reg l (reg value : Z) : M state unit :=
  if x2apic_enabled l then wrmsr_u64 (u32 (0x800 + Z.shiftr reg 4)) value
  else
    write_u32 (u64 (apic_base_virt l + 4 * Z.shiftr reg 2)) value;;
    let! _ := read_u32 (u64 (apic_base_virt l + 4 * Z.shiftr LAPIC_REG_ID 2)) in
    ret tt.

Definition lapic_mask_lvt l (reg : Z) : M state unit :=
  let! v := lapic_read_reg l reg in
  lapic_write_reg l reg (Z.lor v LAPIC_LVT_MASKED).

Definition pic_disable_legacy_8259 : M state unit :=
  outb_u8 PIC1_DATA_PORT 0xFF;;
  outb_u8 PIC2_DATA_PORT 0xFF.

Fixpoint lapic_wait_icr_idle (fuel : nat) l : M state unit :=
  if x2apic_enabled l then ret tt
  else match fuel with
       | O => λ _, Hang
       | S fuel' =>
           let! v := lapic_read_reg l LAPIC_REG_ICR_LOW in
           if negb (Z.land v LAPIC_ICR_STATUS_PENDING =? 0) then lapic_wait_icr_idle fuel' l else ret tt
       end.

(** * Bring-up *)

(** The local vector table in the order in which its entries are masked. *)
Definition lvt_regs : list Z :=
  [LAPIC_REG_LVT_TIMER; LAPIC_REG_LVT_THERM; LAPIC_REG_LVT_PERF; LAPIC_REG_LVT_LINT0; LAPIC_REG_LVT_LINT1;
   LAPIC_REG_LVT_ERROR; LAPIC_REG_LVT_CMCI].

Fixpoint mask_lvts l (n : Z) (regs : list Z) : M state unit :=
  match regs with
  | [] => ret tt
  | r :: rest => (if n <=? max_lvt_entries l then lapic_mask_lvt l r else ret tt);; mask_lvts l (n + 1) rest
  end.

Definition started l (vec count : Z) (periodic : bool) (ini : bool) : lapic_info_t :=
  mkLapic ini (bsp l) (x2apic_supported l) (x2apic_enabled l) (apic_base_msr_raw l) (apic_base_phys l) (apic_base_virt l)
    (lapic_apic_id l) (apic_version l) (max_lvt_entries l) (spurious_vector l) vec count periodic.

(** On entry [i] of the table; the answer is always [true]. *)
Definition lapic_configure (i : nat) : M state bool :=
  let! s := get in
  let l := lapic (cpu_at (la_cpus s) i) in
  lapic_write_reg l LAPIC_REG_TPR 0;;
  mask_lvts l 1 lvt_regs;;
  (if negb (x2apic_enabled l) then
     lapic_write_reg l LAPIC_REG_ESR 0;;
     lapic_write_reg l LAPIC_REG_ESR 0
   else ret tt);;
  let! svr := lapic_read_reg l LAPIC_REG_SVR in
  let svr := Z.lor (Z.land svr (lnotw 32 0xFF)) (spurious_vector l) in
  let svr := Z.lor svr LAPIC_SVR_SOFT_ENABLE in
  lapic_write_reg l LAPIC_REG_SVR svr;;
  lapic_write_reg l LAPIC_REG_EOI 0;;
  set_entry i (λ c, with_lapic (lapic c) 0 false c);;
  lapic_write_reg l LAPIC_REG_TIMER_DIVCONF LAPIC_TIMER_DIVIDE_BY_16;;
  let lvt := Z.lor LAPIC_TIMER_VECTOR_DEFAULT LAPIC_TIMER_PERIODIC in
  lapic_write_reg l LAPIC_REG_LVT_TIMER lvt;;
  lapic_write_reg l LAPIC_REG_TIMER_INITCNT LAPIC_TIMER_INIT_COUNT_DEFAULT;;
  set_entry i (λ c, with_lapic (started (lapic c) LAPIC_TIMER_VECTOR_DEFAULT LAPIC_TIMER_INIT_COUNT_DEFAULT true true)
                      (lapic_timer_ticks c) (lapic_timer_first_tick c) c);;
  ret true.

(** The fields of [old] before the identifier and the version are read, given the base register. *)
Definition base_info (old : lapic_info_t) (is_bsp x2s x2e : bool) (apic_base : Z) : lapic_info_t :=
  let phys := Z.land apic_base APIC_BASE_ADDR_MASK in
  mkLapic false is_bsp x2s x2e apic_base phys (if x2e then 0 else pmm_phys_to_virt lay phys)
    (lapic_apic_id old) (apic_version old) (max_lvt_entries old) LAPIC_SPURIOUS_VECTOR
    (timer_vector old) (timer_initial_count old) (timer_periodic old).

Definition with_version l (id_reg ver_reg : Z) : lapic_info_t :=
  mkLapic (initialized l) (bsp l) (x2apic_supported l) (x2apic_enabled l) (apic_base_msr_raw l) (apic_base_phys l) (apic_base_virt l)
    (if x2apic_enabled l then id_reg else Z.shiftr id_reg 24) (Z.land ver_reg 0xFF) (Z.land (Z.shiftr ver_reg 16) 0xFF + 1)
    (spurious_vector l) (timer_vector l) (timer_initial_count l) (timer_periodic l).

(** [paging] is the answer of [paging_ready]. *)
Definition x86_lapic_bsp_init (paging : bool) : M state bool :=
  if negb paging then ret false
  else
    let r := cpuid 1 0 in
    let has_apic := Z.testbit (r_edx r) 9 in
    let has_msr := Z.testbit (r_edx r) 5 in
    let has_x2apic := Z.testbit (r_ecx r) 21 in
    if negb has_msr || negb has_apic then ret false
    else
      let! apic_base := rdmsr_u64 IA32_APIC_BASE_MSR in
      wrmsr_u64 IA32_APIC_BASE_MSR (Z.lor apic_base APIC_BASE_GLOBAL_ENABLE_BIT);;
      let! apic_base := rdmsr_u64 IA32_APIC_BASE_MSR in
      let! apic_base :=
        (if negb (Z.land apic_base APIC_BASE_X2APIC_ENABLE_BIT =? 0) && has_x2apic then
           wrmsr_u64 IA32_APIC_BASE_MSR (Z.land apic_base (lnotw 64 APIC_BASE_X2APIC_ENABLE_BIT));;
           rdmsr_u64 IA32_APIC_BASE_MSR
         else ret apic_base) in
      let! s := get in
      let l := base_info (lapic (cpu_at (la_cpus s) 0)) (negb (Z.land apic_base APIC_BASE_BSP_BIT =? 0)) has_x2apic
                 (negb (Z.land apic_base APIC_BASE_X2APIC_ENABLE_BIT =? 0)) apic_base in
      let! id_reg := lapic_read_reg l LAPIC_REG_ID in
      let! ver_reg := lapic_read_reg l LAPIC_REG_VERSION in
      let l := with_version l id_reg ver_reg in
      set_entry 0 (λ c, with_ids (cpu_id c) (lapic_apic_id l) (bsp l) (online c)
                          (with_lapic l (lapic_timer_ticks c) (lapic_timer_first_tick c) c));;
      modify (λ s, set_la_cpus (set_cpu_count 1 (la_cpus s)) s);;
      pic_disable_legacy_8259;;
      lapic_configure 0.

(** On entry [i], by the processor itself. *)
Definition x86_lapic_ap_init (i : nat) : M state bool :=
  let! s := get in
  let bsp_lapic := lapic (cpu_at (la_cpus s) 0) in
  let! apic_base := rdmsr_u64 IA32_APIC_BASE_MSR in
  wrmsr_u64 IA32_APIC_BASE_MSR (Z.lor apic_base APIC_BASE_GLOBAL_ENABLE_BIT);;
  let! apic_base := rdmsr_u64 IA32_APIC_BASE_MSR in
  let! s := get in
  let l := base_info (lapic (cpu_at (la_cpus s) i)) false (x2apic_supported bsp_lapic) (x2apic_enabled bsp_lapic) apic_base in
  let! id_reg := lapic_read_reg l LAPIC_REG_ID in
  let! ver_reg := lapic_read_reg l LAPIC_REG_VERSION in
  let l := with_version l id_reg ver_reg in
  set_entry i (λ c, with_lapic l (lapic_timer_ticks c) (lapic_timer_first_tick c) c);;
  let! s := get in
  if negb (lapic_apic_id l =? apic_id (cpu_at (la_cpus s) i)) then ret false
  else lapic_configure i.

(** * The running processor *)

Definition x86_lapic_id : M state Z :=
  let! base := rdmsr_u64 IA32_APIC_BASE_MSR in
  if negb (Z.land base APIC_BASE_X2APIC_ENABLE_BIT =? 0) then
    let! v := rdmsr_u64 IA32_X2APIC_ID_MSR in ret (u32 v)
  else
    let virt := pmm_phys_to_virt lay (Z.land base APIC_BASE_ADDR_MASK) in
    let! v := read_u32 (u64 (virt + 4 * Z.shiftr LAPIC_REG_ID 2)) in
    ret (Z.shiftr v 24).

(** [cpu_self()]: the entry of the table. *)
Definition self : M state nat :=
  let! me := x86_lapic_id in
  let! s := get in
  ret (cpu_self (la_cpus s) me).

Definition self_lapic : M state lapic_info_t :=
  let! i := self in
  let! s := get in
  ret (lapic (cpu_at (la_cpus s) i)).

Definition x86_lapic_ready : M state bool := let! l := self_lapic in ret (initialized l).
Definition x86_lapic_get_info : M state lapic_info_t := self_lapic.

Definition x86_lapic_eoi : M state unit :=
  let! l := self_lapic in
  if negb (initialized l) then ret tt else lapic_write_reg l LAPIC_REG_EOI 0.

(** * The timer *)

Definition x86_lapic_timer_start (vector initial_count : Z) (periodic : bool) : M state bool :=
  let! i := self in
  let! s := get in
  let l := lapic (cpu_at (la_cpus s) i) in
  if negb (initialized l) then ret false
  else if vector <? 32 then ret false
  else if initial_count =? 0 then ret false
  else
    lapic_write_reg l LAPIC_REG_TIMER_DIVCONF LAPIC_TIMER_DIVIDE_BY_16;;
    lapic_write_reg l LAPIC_REG_LVT_TIMER (if periodic then Z.lor vector LAPIC_TIMER_PERIODIC else vector);;
    lapic_write_reg l LAPIC_REG_TIMER_INITCNT initial_count;;
    set_entry i (λ c, with_lapic (started (lapic c) vector initial_count periodic (initialized (lapic c)))
                        (lapic_timer_ticks c) (lapic_timer_first_tick c) c);;
    ret true.

Definition x86_lapic_timer_stop : M state unit :=
  let! l := self_lapic in
  if negb (initialized l) then ret tt
  else
    let! lvt := lapic_read_reg l LAPIC_REG_LVT_TIMER in
    lapic_write_reg l LAPIC_REG_LVT_TIMER (Z.lor lvt LAPIC_LVT_MASKED);;
    lapic_write_reg l LAPIC_REG_TIMER_INITCNT 0.

Definition x86_lapic_timer_ticks : M state Z :=
  let! i := self in
  let! s := get in
  ret (lapic_timer_ticks (cpu_at (la_cpus s) i)).

Fixpoint wait_tsc_passed (fuel : nat) (start wait : Z) : M state unit :=
  match fuel with
  | O => λ _, Hang
  | S fuel' =>
      let! t := rdtsc_u64 in
      if u64 (t - start) <? wait then wait_tsc_passed fuel' start wait else ret tt
  end.

(** [Some count] for [true] with the output set. *)
Definition x86_lapic_timer_calibrate (fuel : nat) (target_hz : Z) : M state (option Z) :=
  if target_hz =? 0 then ret None
  else
    let! l := self_lapic in
    if negb (initialized l) then ret None
    else
      let tsc_hz := tsc_hz_from_cpuid cpuid in
      if tsc_hz =? 0 then ret None
      else
        let! old_lvt := lapic_read_reg l LAPIC_REG_LVT_TIMER in
        let! old_div := lapic_read_reg l LAPIC_REG_TIMER_DIVCONF in
        let! old_init := lapic_read_reg l LAPIC_REG_TIMER_INITCNT in
        lapic_write_reg l LAPIC_REG_TIMER_DIVCONF LAPIC_TIMER_DIVIDE_BY_16;;
        lapic_write_reg l LAPIC_REG_LVT_TIMER LAPIC_LVT_MASKED;;
        lapic_write_reg l LAPIC_REG_TIMER_INITCNT 0xFFFFFFFF;;
        let! tsc_start := rdtsc_u64 in
        let wait_tsc := tsc_hz / 100 in
        let wait_tsc := if wait_tsc =? 0 then 1 else wait_tsc in
        wait_tsc_passed fuel tsc_start wait_tsc;;
        let! cur := lapic_read_reg l LAPIC_REG_TIMER_CURRCNT in
        let elapsed := u32 (0xFFFFFFFF - cur) in
        lapic_write_reg l LAPIC_REG_TIMER_INITCNT old_init;;
        lapic_write_reg l LAPIC_REG_LVT_TIMER old_lvt;;
        lapic_write_reg l LAPIC_REG_TIMER_DIVCONF old_div;;
        if elapsed =? 0 then ret None
        else
          let ticks_per_sec := u64 (elapsed * tsc_hz) / wait_tsc in
          let init := u32 (ticks_per_sec / target_hz) in
          ret (Some (if init =? 0 then 1 else init)).

(** * Commands to other processors *)

Definition x86_lapic_send_ipi (fuel : nat) (target_apic_id icr_low : Z) : M state unit :=
  let! l := self_lapic in
  if x2apic_enabled l then wrmsr_u64 0x830 (Z.lor (Z.shiftl target_apic_id 32) icr_low)
  else
    lapic_wait_icr_idle fuel l;;
    lapic_write_reg l LAPIC_REG_ICR_HIGH (u32 (Z.shiftl target_apic_id 24));;
    lapic_write_reg l LAPIC_REG_ICR_LOW icr_low;;
    lapic_wait_icr_idle fuel l.

Definition x86_lapic_send_init (fuel : nat) (target : Z) : M state unit :=
  x86_lapic_send_ipi fuel target (Z.lor LAPIC_ICR_DELIVERY_INIT LAPIC_ICR_LEVEL_ASSERT).

Definition x86_lapic_send_sipi (fuel : nat) (target trampoline_page : Z) : M state unit :=
  x86_lapic_send_ipi fuel target (Z.lor (Z.lor LAPIC_ICR_DELIVERY_SIPI LAPIC_ICR_LEVEL_ASSERT) trampoline_page).
End Lapic.
