(* ===== verification/LapicSpec.v ===== *)
(** The local interrupt controller against the manual: what bring-up leaves in its
    registers, what calibration puts back, and the mode it cannot leave. *)

From S2P Require Import Prelude Boot Pmm Percpu Lapic.

(** * The hardware *)

(** The local vector table of the manual, by offset: timer, thermal sensor, performance
    counters, LINT0, LINT1, error, corrected machine checks. *)
Definition lvt_table : list Z := [0x320; 0x330; 0x340; 0x350; 0x360; 0x370; 0x2F0].
(** Identifier, version, task priority, spurious vector, initial count, divider. *)
Definition plain_regs : list Z := [0x20; 0x30; 0x80; 0xF0; 0x380; 0x3E0].
Definition stable_regs : list Z := plain_regs ++ lvt_table.
Definition all_regs : list Z := [0xB0; 0x280] ++ stable_regs.
(** The registers the kernel may write, end-of-interrupt and error status included. *)
Definition write_regs : list Z := [0xB0; 0x280; 0x80; 0xF0; 0x380; 0x3E0] ++ lvt_table.

(** The bits of a register that software sets; the others are status bits, reserved or
    depend on the model, and nothing is said of them. *)
Definition writable (r : Z) : Z :=
  if r =? 0x80 then 0xFF else if r =? 0xF0 then 0x1FF else if r =? 0x3E0 then 0xB
  else if r =? 0x320 then 0x700FF else if (r =? 0x350) || (r =? 0x360) then 0x1A7FF
  else if r =? 0x370 then 0x100FF else if (r =? 0x330) || (r =? 0x340) || (r =? 0x2F0) then 0x107FF
  else 0xFFFFFFFF.

(** The number of vector-table entries by the version register, and the number from
    which a controller has the entry: 4 are timer, LINT0, LINT1 and error; the fifth is
    the performance counters', the sixth the thermal sensor's, the seventh the one for
    corrected machine checks. *)
Definition lvt_count (version : Z) : Z := version / 2 ^ 16 mod 256 + 1.
Definition lvt_needs (r : Z) : Z :=
  if r =? 0x2F0 then 7 else if r =? 0x330 then 6 else if r =? 0x340 then 5
  else if bool_decide (r ∈ lvt_table) then 4 else 0.
Definition has_reg (f : Z → Z) (r : Z) : Prop := lvt_needs r ≤ lvt_count (f 0x30).

(** The registers [f] after [v] was written to [r].  While the controller is disabled by
    software (bit 8 of the spurious-vector register) every entry of the table is masked,
    whatever is written to it. *)
Definition written (f : Z → Z) (r v : Z) : Z → Z := λ r',
  let x := if bool_decide (r' = r) then Z.land v (writable r) else f r' in
  if bool_decide (r' ∈ lvt_table) && negb (Z.testbit (if r =? 0xF0 then v else f 0xF0) 8) then Z.lor x (2 ^ 16) else x.

Definition x2_mode (base : Z) : bool := Z.testbit base 10.
Definition enabled (base : Z) : bool := Z.testbit base 11.
Definition reg_addr (lay : kernel_layout) (base r : Z) : Z :=
  u64 (pmm_phys_to_virt lay (Z.land base APIC_BASE_ADDR_MASK) + r).

(** [l_reg d r] are the writable bits of register [r]. *)
Class LapicHw (D : Type) `{!LapicIo D} (lay : kernel_layout) : Type := {
  l_base : D → Z;
  l_reg : D → Z → Z;
  l_pic : D → Z → Z;
  l_tsc : D → Z;
  lr_base d : la_rdmsr IA32_APIC_BASE_MSR d = (l_base d, d);
  (** The controller goes from x2APIC mode to xAPIC mode only by way of being
      disabled; the processor refuses the direct way.  Registers are kept when the
      controller is on before and after in the same mode and place; otherwise only the
      version is sure to be the same. *)
  lw_base d v : in_width 64 v → x2_mode (l_base d) = false ∨ x2_mode v = true ∨ enabled v = false →
    ∃ d', la_wrmsr IA32_APIC_BASE_MSR v d = Some d' ∧ l_base d' = v ∧ (∀ p, l_pic d' p = l_pic d p) ∧
      l_reg d' 0x30 = l_reg d 0x30 ∧ (v = l_base d → enabled v = true → ∀ r, l_reg d' r = l_reg d r);
  lw_base_refused d v : x2_mode (l_base d) = true → x2_mode v = false → enabled v = true → la_wrmsr IA32_APIC_BASE_MSR v d = None;
  lr_reg d r : x2_mode (l_base d) = false → r ∈ stable_regs → has_reg (l_reg d) r →
    ∃ v, la_read32 (reg_addr lay (l_base d) r) d = (v, d) ∧ in_width 32 v ∧ Z.land v (writable r) = l_reg d r;
  (** A write is as [written] says, but for two cases the manual sets apart: asking for
      the timer's deadline mode (bit 18), which not every model has, and the initial
      count in that mode, where the timer ignores it. *)
  lw_reg d r v : x2_mode (l_base d) = false → r ∈ write_regs → has_reg (l_reg d) r → in_width 32 v →
    (r = 0x320 → Z.testbit v 18 = true → Z.testbit (l_reg d 0x320) 18 = true) →
    (r = 0x380 → Z.testbit (l_reg d 0x320) 18 = false) →
    let d' := la_write32 (reg_addr lay (l_base d) r) v d in
    l_base d' = l_base d ∧ (∀ p, l_pic d' p = l_pic d p) ∧
    ∀ r', r' ∈ stable_regs → has_reg (l_reg d) r' → l_reg d' r' = written (l_reg d) r v r';
  (** The running count is there to be read. *)
  lr_current d : x2_mode (l_base d) = false → ∃ v, la_read32 (reg_addr lay (l_base d) LAPIC_REG_TIMER_CURRCNT) d = (v, d) ∧ in_width 32 v;
  (** The counter moves on, by less than half its range between two readings. *)
  l_tsc_moves d : let r := la_rdtsc d in
    r.1 = u64 (l_tsc r.2) ∧ l_tsc d < l_tsc r.2 < l_tsc d + 2 ^ 63 ∧
    l_base r.2 = l_base d ∧ (∀ x, l_reg r.2 x = l_reg d x) ∧ (∀ p, l_pic r.2 p = l_pic d p);
  (** The mask registers of the two old controllers. *)
  l_out d p v : p ∈ [0x21; 0xA1] → let d' := la_outb p v d in
    l_base d' = l_base d ∧ (∀ r, l_reg d' r = l_reg d r) ∧ ∀ q, q ∈ [0x21; 0xA1] → l_pic d' q = if bool_decide (q = p) then v else l_pic d q;
  l_base_range d : in_width 64 (l_base d)
}.

(** Membership in a list of registers. *)
Ltac in_regs := apply (bool_decide_unpack _); vm_compute; exact I.

Lemma writable_range r : in_width 32 (writable r).
Proof. unfold writable, in_width. repeat case_match; lia. Qed.

Lemma land_32 v : in_width 32 v → Z.land v 0xFFFFFFFF = v.
Proof. intros Hv. change 0xFFFFFFFF with (2 ^ 32 - 1). rewrite land_ones_mod by lia. by apply Z.mod_small. Qed.

Lemma lvt_count_code v : Z.land (Z.shiftr v 16) 0xFF + 1 = lvt_count v.
Proof. unfold lvt_count. change 0xFF with (2 ^ 8 - 1). by rewrite land_ones_mod, Z.shiftr_div_pow2 by lia. Qed.

Lemma lvt_count_pos v : 1 ≤ lvt_count v.
Proof. unfold lvt_count. pose proof (Z.mod_pos_bound (v / 2 ^ 16) 256). lia. Qed.

Lemma plain_has f r : r ∈ plain_regs → has_reg f r.
Proof.
  intros Hr. unfold has_reg. pose proof (lvt_count_pos (f 0x30)). unfold plain_regs in Hr. rewrite !elem_of_cons in Hr.
  assert (lvt_needs r = 0) as ->; [|lia]. repeat (destruct Hr as [->|Hr]; [reflexivity|]). by apply not_elem_of_nil in Hr.
Qed.

Lemma plain_not_lvt r : r ∈ plain_regs → r ∉ lvt_table.
Proof.
  intros Hr. unfold plain_regs in Hr. rewrite !elem_of_cons in Hr.
  repeat (destruct Hr as [->|Hr]; [in_regs|]). by apply not_elem_of_nil in Hr.
Qed.

Lemma lvt_mask_bit r : r ∈ lvt_table → Z.testbit (writable r) 16 = true.
Proof.
  intros Hr. unfold lvt_table in Hr. rewrite !elem_of_cons in Hr.
  repeat (destruct Hr as [->|Hr]; [reflexivity|]). by apply not_elem_of_nil in Hr.
Qed.

(** Evaluates the number of entries a given register needs. *)
Ltac eval_needs := match goal with |- context [lvt_needs ?r] => let n := eval vm_compute in (lvt_needs r) in change (lvt_needs r) with n end.

Section Spec.
Context {lay : kernel_layout} {D : Type} `{!LapicIo D} {HW : LapicHw D lay}.
Implicit Types (s : lapic_state D) (l : lapic_info_t).
Abbreviation base := (l_base (LapicHw := HW)).
Abbreviation reg := (l_reg (LapicHw := HW)).
Abbreviation pic := (l_pic (LapicHw := HW)).

(** The table's view of the controller is the controller's, in xAPIC mode. *)
Definition info_ok l (d : D) : Prop :=
  x2_mode (base d) = false ∧ x2apic_enabled l = false ∧
  apic_base_virt l = pmm_phys_to_virt lay (Z.land (base d) APIC_BASE_ADDR_MASK).

(** The hardware after a write. *)
Record wrote (d d' : D) (r v : Z) : Prop := {
  wr_base : base d' = base d;
  wr_pic p : pic d' p = pic d p;
  wr_regs r' : r' ∈ stable_regs → has_reg (reg d) r' → reg d' r' = written (reg d) r v r'
}.

Lemma reg_offset r : r ∈ all_regs → 4 * Z.shiftr r 2 = r.
Proof.
  intros Hr. unfold all_regs, stable_regs, plain_regs, lvt_table in Hr. cbn [app] in Hr. rewrite !elem_of_cons in Hr.
  repeat (destruct Hr as [->|Hr]; [reflexivity|]). by apply not_elem_of_nil in Hr.
Qed.

Lemma stable_all r : r ∈ stable_regs → r ∈ all_regs.
Proof. intros. apply elem_of_app. by right. Qed.

Lemma write_all r : r ∈ write_regs → r ∈ all_regs.
Proof. unfold write_regs, all_regs, stable_regs, plain_regs. set_solver. Qed.

Lemma lvt_stable r : r ∈ lvt_table → r ∈ stable_regs.
Proof. intros. apply elem_of_app. by right. Qed.

Lemma lvt_write r : r ∈ lvt_table → r ∈ write_regs.
Proof. intros. apply elem_of_app. by right. Qed.

Lemma plain_stable r : r ∈ plain_regs → r ∈ stable_regs.
Proof. intros. apply elem_of_app. by left. Qed.

Lemma info_ok_base l d d' : info_ok l d → base d' = base d → info_ok l d'.
Proof. intros (H1 & H2 & H3) Hb. unfold info_ok. by rewrite Hb. Qed.

Lemma run_read_reg E l r s (Q : Z → lapic_state D → Prop) :
  info_ok l (la_hw s) → r ∈ stable_regs → has_reg (reg (la_hw s)) r →
  (∀ v, in_width 32 v → Z.land v (writable r) = reg (la_hw s) r → Q v s) → run E (lapic_read_reg l r) Q s.
Proof.
  intros (Hx & Hl & Hv) Hr Hh HQ. unfold lapic_read_reg. rewrite Hl. unfold read_u32, run. rewrite Hv, reg_offset by (by apply stable_all).
  destruct (lr_reg (LapicHw := HW) (la_hw s) r Hx Hr Hh) as (v & Hrd & Hw & Hm). unfold reg_addr in Hrd. rewrite Hrd.
  specialize (HQ v Hw Hm). by destruct s.
Qed.

(** A register without model-dependent bits. *)
Lemma run_read_full E l r s (Q : Z → lapic_state D → Prop) :
  info_ok l (la_hw s) → r ∈ plain_regs → writable r = 0xFFFFFFFF → Q (reg (la_hw s) r) s → run E (lapic_read_reg l r) Q s.
Proof.
  intros Hi Hr Hf HQ. apply run_read_reg; [done|by apply plain_stable|by apply plain_has|]. intros v Hw Hm.
  rewrite Hf, land_32 in Hm by done. by rewrite Hm.
Qed.

Lemma run_write_reg E l r v s (Q : unit → lapic_state D → Prop) :
  info_ok l (la_hw s) → r ∈ write_regs → has_reg (reg (la_hw s)) r → in_width 32 v →
  (r = 0x320 → Z.testbit v 18 = true → Z.testbit (reg (la_hw s) 0x320) 18 = true) →
  (r = 0x380 → Z.testbit (reg (la_hw s) 0x320) 18 = false) →
  (∀ d, wrote (la_hw s) d r v → Q tt (set_la_hw d s)) → run E (lapic_write_reg l r v) Q s.
Proof.
  intros (Hx & Hl & Hv) Hr Hh Hw H320 H380 HQ. unfold lapic_write_reg. rewrite Hl. run_step. unfold write_u32. run_step. run_step.
  destruct (lw_reg (LapicHw := HW) (la_hw s) r v Hx Hr Hh Hw H320 H380) as (Hb & Hp & Hg). unfold read_u32, run. cbn [la_hw set_la_hw].
  rewrite Hv, !reg_offset by (in_regs || by apply write_all).
  unfold reg_addr in Hb, Hp, Hg. set (d := la_write32 _ v (la_hw s)) in *.
  destruct (lr_reg (LapicHw := HW) d LAPIC_REG_ID) as (x & Hrd & _ & _); [by rewrite Hb|in_regs|apply plain_has; in_regs|].
  rewrite Hb in Hrd. unfold reg_addr in Hrd. rewrite Hrd. cbn. by apply HQ.
Qed.

(** ** What a write does, register by register *)

Lemma wrote_plain d d' r v r' : wrote d d' r v → r' ∈ plain_regs → r' ≠ r → reg d' r' = reg d r'.
Proof.
  intros [_ _ H] Hr Hne. rewrite H by (by apply plain_stable || by apply plain_has). unfold written.
  rewrite (bool_decide_eq_false_2 (r' ∈ lvt_table)) by (by apply plain_not_lvt). by rewrite bool_decide_eq_false_2.
Qed.

Lemma wrote_plain_self d d' r v : wrote d d' r v → r ∈ plain_regs → reg d' r = Z.land v (writable r).
Proof.
  intros [_ _ H] Hr. rewrite H by (by apply plain_stable || by apply plain_has). unfold written.
  rewrite (bool_decide_eq_false_2 (r ∈ lvt_table)) by (by apply plain_not_lvt). by rewrite bool_decide_eq_true_2.
Qed.

Lemma wrote_masked d d' r v r' :
  wrote d d' r v → r' ∈ lvt_table → has_reg (reg d) r' → r' ≠ r →
  Z.testbit (reg d r') 16 = true → Z.testbit (reg d' r') 16 = true.
Proof.
  intros [_ _ H] Hr Hh Hne Hm. rewrite H by (done || by apply lvt_stable). unfold written. rewrite (bool_decide_eq_false_2 (r' = r)) by done.
  case_match; [by rewrite Z.lor_spec, Hm|done].
Qed.

Lemma wrote_mask_self d d' r v :
  wrote d d' r v → r ∈ lvt_table → has_reg (reg d) r → Z.testbit v 16 = true → Z.testbit (reg d' r) 16 = true.
Proof.
  intros [_ _ H] Hr Hh Hm. rewrite H by (done || by apply lvt_stable). unfold written. rewrite (bool_decide_eq_true_2 (r = r)) by done.
  assert (Z.testbit (Z.land v (writable r)) 16 = true) as Hb by (by rewrite Z.land_spec, Hm, lvt_mask_bit).
  case_match; [by rewrite Z.lor_spec, Hb|done].
Qed.

(** Once the controller is enabled a write changes its own register only. *)
Lemma wrote_on d d' r v r' :
  wrote d d' r v → Z.testbit (reg d 0xF0) 8 = true → r ≠ 0xF0 → r' ∈ stable_regs → has_reg (reg d) r' →
  reg d' r' = if bool_decide (r' = r) then Z.land v (writable r) else reg d r'.
Proof.
  intros [_ _ H] Hon Hr Hr' Hh. rewrite H by done. unfold written. rewrite (proj2 (Z.eqb_neq r 0xF0)), Hon by done.
  cbn [negb]. by rewrite andb_false_r.
Qed.

Lemma wrote_has d d' r v r' : wrote d d' r v → r ≠ 0x30 → has_reg (reg d) r' → has_reg (reg d') r'.
Proof. intros Hw Hr Hh. unfold has_reg in *. rewrite (wrote_plain _ _ _ _ 0x30 Hw); [done|in_regs|done]. Qed.

(** ** Masking the table *)

(** The hardware changed in the entries of the table only, none of which lost its mask. *)
Record masking (d d' : D) : Prop := {
  mk_base : base d' = base d;
  mk_pic p : pic d' p = pic d p;
  mk_plain r : r ∈ plain_regs → reg d' r = reg d r;
  mk_keep r : r ∈ lvt_table → has_reg (reg d) r → Z.testbit (reg d r) 16 = true → Z.testbit (reg d' r) 16 = true
}.

Lemma masking_refl d : masking d d.
Proof. by split. Qed.

Lemma masking_has d d' r : masking d d' → has_reg (reg d) r → has_reg (reg d') r.
Proof. intros [_ _ H _] Hh. unfold has_reg in *. rewrite H by in_regs. done. Qed.

Lemma masking_trans d1 d2 d3 : masking d1 d2 → masking d2 d3 → masking d1 d3.
Proof.
  intros M1 M2. pose proof M1 as [A1 A2 A3 A4]. pose proof M2 as [B1 B2 B3 B4]. split.
  - congruence.
  - intros p. by rewrite B2, A2.
  - intros r Hr. rewrite B3, A3; done.
  - intros r Hr Hh Hm. apply B4; [done|by eapply masking_has|by apply A4].
Qed.

Lemma wrote_masking d d' r v :
  wrote d d' r v → (r ∈ lvt_table → Z.testbit v 16 = true) → r ∉ plain_regs → masking d d'.
Proof.
  intros Hw Hv Hr. split; [apply Hw|apply Hw| |].
  - intros r' Hr'. apply (wrote_plain _ _ _ _ _ Hw); [done|]. by intros ->.
  - intros r' Hr' Hh Hm. destruct (decide (r' = r)) as [->|]; [by eapply wrote_mask_self; auto|by eapply wrote_masked].
Qed.

Lemma mask_lvts_spec E l n rs s (Q : unit → lapic_state D → Prop) :
  info_ok l (la_hw s) → (∀ r, r ∈ rs → r ∈ lvt_table) →
  (∀ (k : nat) r, rs !! k = Some r → n + Z.of_nat k ≤ max_lvt_entries l → has_reg (reg (la_hw s)) r) →
  (∀ d, masking (la_hw s) d →
     (∀ (k : nat) r, rs !! k = Some r → n + Z.of_nat k ≤ max_lvt_entries l → Z.testbit (reg d r) 16 = true) → Q tt (set_la_hw d s)) →
  run E (mask_lvts l n rs) Q s.
Proof.
  revert n s. induction rs as [|r rs IH]; intros n s Hi Hin Hhas HQ; cbn [mask_lvts].
  { run_step. replace s with (set_la_hw (la_hw s) s) by (by destruct s). apply HQ; [apply masking_refl|done]. }
  assert (r ∈ lvt_table) as Hr by (apply Hin; by left).
  run_step. destruct (Z.leb_spec n (max_lvt_entries l)) as [Hle|Hgt].
  - assert (has_reg (reg (la_hw s)) r) as Hh by (apply (Hhas 0%nat); [done|lia]).
    unfold lapic_mask_lvt. run_step. apply run_read_reg; [done|by apply lvt_stable|done|]. intros v Hv Hm.
    apply run_write_reg; [done|by apply lvt_write|done|by apply lor_range| | |].
    { intros ->. rewrite <- Hm, Z.land_spec, Z.lor_spec. change (Z.testbit LAPIC_LVT_MASKED 18) with false. by rewrite orb_false_r, andb_true_r. }
    { intros ->. exfalso. revert Hr. in_regs. }
    intros d Hd. assert (Z.testbit (Z.lor v LAPIC_LVT_MASKED) 16 = true) as Hbit by (rewrite Z.lor_spec; apply orb_true_r).
    assert (masking (la_hw s) d) as Md by (eapply wrote_masking; [done|done|by intros ?%plain_not_lvt]).
    apply (IH (n + 1)).
    + eapply info_ok_base; [done|apply Hd].
    + intros r' ?. apply Hin. by right.
    + intros k r' Hk Hle'. eapply masking_has; [exact Md|]. apply (Hhas (S k)); [done|lia].
    + intros d2 M2 Hall. cbn [la_hw set_la_hw] in M2. apply (HQ d2); [by eapply masking_trans|].
      intros [|k] r' Hk Hle'; [|apply (Hall k); [done|lia]]. injection Hk as <-.
      apply (mk_keep _ _ M2); [done|by eapply masking_has|by eapply wrote_mask_self].
  - run_step. apply (IH (n + 1)); try done.
    + intros r' ?. apply Hin. by right.
    + intros k r' Hk Hle'. apply (Hhas (S k)); [done|lia].
    + intros d Md Hall. apply HQ; [done|]. intros k r' Hk Hle'. lia.
Qed.

(** ** Configuration *)

(** The registers at the end of a successful bring-up, by offset. *)
Record brought_up (d : D) : Prop := {
  bu_priority : reg d 0x80 = 0;
  bu_enabled : Z.testbit (reg d 0xF0) 8 = true ∧ reg d 0xF0 mod 256 = 0xFF;
  bu_timer : reg d 0x320 = 0x20 + 2 ^ 17 ∧ reg d 0x3E0 = 3 ∧ reg d 0x380 = 1000000;
  bu_masked r : r ∈ [0x330; 0x340; 0x350; 0x360; 0x370] → Z.testbit (reg d r) 16 = true;
  bu_machine_check : 7 ≤ lvt_count (reg d 0x30) → Z.testbit (reg d 0x2F0) 16 = true
}.

(** Entries other than the timer's that the controller has are masked. *)
Definition others_masked (d : D) : Prop :=
  ∀ r, r ∈ lvt_table → r ≠ 0x320 → has_reg (reg d) r → Z.testbit (reg d r) 16 = true.

Lemma others_masked_wrote d d' r v :
  wrote d d' r v → r ≠ 0x30 → (r ∈ lvt_table → r = 0x320) → others_masked d → others_masked d'.
Proof.
  intros Hw H30 Hr Ho r' Hr' Hne Hh.
  assert (has_reg (reg d) r') as Hh' by (unfold has_reg in *; by rewrite (wrote_plain _ _ _ _ 0x30 Hw) in Hh by (done || in_regs)).
  apply (wrote_masked _ _ _ _ _ Hw); [done|done| |by apply Ho]. intros ->. by apply Hne, Hr.
Qed.

(** The code masks the entries in an order of its own; with six or more they are all
    among those the controller has. *)
Lemma lvt_regs_has f k r :
  6 ≤ lvt_count (f 0x30) → lvt_regs !! k = Some r → 1 + Z.of_nat k ≤ lvt_count (f 0x30) → has_reg f r.
Proof.
  intros H6 Hk Hle. unfold has_reg.
  do 7 (destruct k as [|k]; [injection Hk as <-; eval_needs; lia|]). done.
Qed.

Lemma lvt_regs_all r : r ∈ lvt_table → ∃ k, lvt_regs !! k = Some r ∧ (r ≠ 0x2F0 → (k < 6)%nat) ∧ (k < 7)%nat.
Proof.
  intros Hr. unfold lvt_table in Hr. rewrite !elem_of_cons in Hr.
  destruct Hr as [->|[->|[->|[->|[->|[->|[->|Hr]]]]]]]; [exists 0%nat|exists 1%nat|exists 2%nat|exists 3%nat|exists 4%nat|exists 5%nat|exists 6%nat|by apply not_elem_of_nil in Hr];
    (split; [done|split; [done || lia|lia]]).
Qed.

Lemma svr_value v : Z.land (Z.lor (Z.lor (Z.land v (lnotw 32 0xFF)) 0xFF) LAPIC_SVR_SOFT_ENABLE) (writable 0xF0) = 0x1FF.
Proof.
  rewrite !Z.land_lor_distr_l, <- Z.land_assoc. change (Z.land (lnotw 32 0xFF) (writable 0xF0)) with (2 ^ 8).
  change (Z.land 0xFF (writable 0xF0)) with 0xFF. change (Z.land LAPIC_SVR_SOFT_ENABLE (writable 0xF0)) with (2 ^ 8).
  rewrite <- Z.lor_assoc. change (Z.lor 0xFF (2 ^ 8)) with 0x1FF. apply Z.bits_inj'. intros n Hn.
  rewrite Z.lor_spec, Z.land_spec. destruct (decide (n = 8)) as [->|]; [by rewrite orb_true_r|].
  rewrite Z.pow2_bits_false by lia. by rewrite andb_false_r.
Qed.

Lemma lapic_configure_spec E i s (Q : bool → lapic_state D → Prop) :
  let c := cpu_at (la_cpus s) i in
  let d0 := la_hw s in
  info_ok (lapic c) d0 → (i < length (g_cpus (la_cpus s)))%nat → spurious_vector (lapic c) = 0xFF →
  max_lvt_entries (lapic c) = lvt_count (reg d0 0x30) → 6 ≤ lvt_count (reg d0 0x30) →
  (∀ d, base d = base d0 → (∀ p, pic d p = pic d0 p) → reg d 0x20 = reg d0 0x20 → reg d 0x30 = reg d0 0x30 → brought_up d →
    Q true (mkLa d (set_cpu i (with_lapic (started (lapic c) LAPIC_TIMER_VECTOR_DEFAULT LAPIC_TIMER_INIT_COUNT_DEFAULT true true) 0 false c)
                      (la_cpus s)))) →
  run E (lapic_configure i) Q s.
Proof.
  intros c d0 Hi Hlen Hsp Hmax H6 HQ. unfold lapic_configure. run_step. run_step. fold c. set (l := lapic c) in *. cbv zeta.
  assert (x2apic_enabled l = false) as Hx by apply Hi.
  assert (∀ f r, r ∈ [0xB0; 0x280; 0x80; 0xF0; 0x380; 0x3E0] → has_reg f r) as Hhas.
  { intros f r Hr. unfold has_reg. pose proof (lvt_count_pos (f 0x30)). rewrite !elem_of_cons in Hr.
    assert (lvt_needs r = 0) as ->; [|lia]. repeat (destruct Hr as [->|Hr]; [reflexivity|]). by apply not_elem_of_nil in Hr. }
  run_step. apply run_write_reg; [done|in_regs|apply Hhas; in_regs|done|done|done|]. intros d1 W1.
  assert (∀ r, r ∈ [0x20; 0x30] → reg d1 r = reg d0 r) as V1.
  { intros r Hr. apply (wrote_plain _ _ _ _ _ W1); [set_solver|set_solver]. }
  run_step. apply mask_lvts_spec.
  { eapply info_ok_base; [done|apply W1]. }
  { intros r Hr. unfold lvt_regs in Hr. unfold lvt_table. set_solver. }
  { intros k r Hk Hle. cbn [la_hw set_la_hw]. rewrite Hmax in Hle.
    apply (lvt_regs_has (reg d1) k); [rewrite V1; [done|in_regs]|done|rewrite V1; [done|in_regs]]. }
  intros d2 M2 Hall. cbn [la_hw set_la_hw] in M2. run_step. rewrite Hx. cbn [negb].
  assert (info_ok l d2) as I2 by (eapply info_ok_base; [done|]; by rewrite (mk_base _ _ M2), (wr_base _ _ _ _ W1)).
  assert (others_masked d2) as O2.
  { intros r Hr Hne Hh. unfold has_reg in Hh. rewrite (mk_plain _ _ M2), V1 in Hh by in_regs.
    destruct (lvt_regs_all r Hr) as (k & Hk & Hk6 & Hk7). apply (Hall k); [done|]. rewrite Hmax.
    destruct (decide (r = 0x2F0)) as [->|Hr2]; [change (lvt_needs 0x2F0) with 7 in Hh; lia|]. specialize (Hk6 Hr2). lia. }
  run_step. apply run_write_reg; [done|in_regs|apply Hhas; in_regs|done|done|done|]. intros d3 W3.
  assert (info_ok l d3) as I3 by (eapply info_ok_base; [exact I2|apply W3]).
  pose proof (others_masked_wrote _ _ _ _ W3 ltac:(done) ltac:(intros Hr; exfalso; revert Hr; in_regs) O2) as O3.
  apply run_write_reg; [done|in_regs|apply Hhas; in_regs|done|done|done|]. intros d4 W4.
  assert (info_ok l d4) as I4 by (eapply info_ok_base; [exact I3|apply W4]).
  pose proof (others_masked_wrote _ _ _ _ W4 ltac:(done) ltac:(intros Hr; exfalso; revert Hr; in_regs) O3) as O4.
  cbn [la_hw set_la_hw] in W3, W4.
  assert (∀ r, r ∈ plain_regs → reg d4 r = reg d1 r) as V4.
  { intros r Hr. rewrite (wrote_plain _ _ _ _ _ W4), (wrote_plain _ _ _ _ _ W3), (mk_plain _ _ M2); try done;
      intros ->; revert Hr; in_regs. }
  run_step. apply run_read_reg; [done|in_regs|apply plain_has; in_regs|]. intros svr Hsvr _. rewrite Hsp.
  run_step. apply run_write_reg; [done|in_regs|apply Hhas; in_regs| |done|done|].
  { apply lor_range; [lia| |done]. apply lor_range; [lia|by apply land_range|done]. }
  intros d5 W5. cbn [la_hw set_la_hw] in W5. pose proof (wrote_plain_self _ _ _ _ W5 ltac:(in_regs)) as S5. rewrite svr_value in S5.
  assert (info_ok l d5) as I5 by (eapply info_ok_base; [exact I4|apply W5]).
  pose proof (others_masked_wrote _ _ _ _ W5 ltac:(done) ltac:(intros Hr; exfalso; revert Hr; in_regs) O4) as O5.
  run_step. apply run_write_reg; [done|in_regs|apply Hhas; in_regs|done|done|done|]. intros d6 W6. cbn [la_hw set_la_hw] in W6.
  assert (info_ok l d6) as I6 by (eapply info_ok_base; [exact I5|apply W6]).
  pose proof (others_masked_wrote _ _ _ _ W6 ltac:(done) ltac:(intros Hr; exfalso; revert Hr; in_regs) O5) as O6.
  run_step. unfold set_entry. run_step. cbn [la_hw la_cpus set_la_hw set_la_cpus]. fold c. fold l.
  run_step. apply run_write_reg; [done|in_regs|apply Hhas; in_regs|done|done|done|]. intros d7 W7. cbn [la_hw set_la_hw set_la_cpus] in W7.
  assert (info_ok l d7) as I7 by (eapply info_ok_base; [exact I6|apply W7]).
  pose proof (others_masked_wrote _ _ _ _ W7 ltac:(done) ltac:(intros Hr; exfalso; revert Hr; in_regs) O6) as O7.
  assert (∀ r, r ∈ plain_regs → r ≠ 0xF0 → r ≠ 0x3E0 → reg d7 r = reg d1 r) as V7.
  { intros r Hr N1 N2. rewrite (wrote_plain _ _ _ _ _ W7), (wrote_plain _ _ _ _ _ W6), (wrote_plain _ _ _ _ _ W5); try done; [by apply V4|].
    intros ->; revert Hr; in_regs. }
  assert (reg d7 0xF0 = 0x1FF) as S7.
  { rewrite (wrote_plain _ _ _ _ _ W7), (wrote_plain _ _ _ _ _ W6) by (done || in_regs). done. }
  assert (has_reg (reg d7) 0x320) as H320.
  { unfold has_reg. rewrite V7, V1 by (done || in_regs). change (lvt_needs 0x320) with 4. lia. }
  run_step. apply run_write_reg; [done|in_regs|exact H320|done|done|done|]. intros d8 W8. cbn [la_hw set_la_hw] in W8.
  assert (info_ok l d8) as I8 by (eapply info_ok_base; [exact I7|apply W8]).
  pose proof (others_masked_wrote _ _ _ _ W8 ltac:(done) ltac:(done) O7) as O8.
  assert (reg d8 0x320 = 0x20 + 2 ^ 17) as T8.
  { rewrite (wrote_on _ _ _ _ 0x320 W8); [by vm_compute|by rewrite S7|done|in_regs|done]. }
  assert (reg d8 0xF0 = 0x1FF) as S8 by (rewrite (wrote_plain _ _ _ _ _ W8); [done|in_regs|done]).
  run_step. apply run_write_reg; [done|in_regs|apply Hhas; in_regs|done|done|intros _; cbn [la_hw set_la_hw]; by rewrite T8|]. intros d9 W9. cbn [la_hw set_la_hw] in W9.
  pose proof (others_masked_wrote _ _ _ _ W9 ltac:(done) ltac:(intros Hr; exfalso; revert Hr; in_regs) O8) as O9.
  assert (∀ r, r ∈ plain_regs → r ≠ 0x380 → reg d9 r = reg d7 r) as V9.
  { intros r Hr N1. rewrite (wrote_plain _ _ _ _ _ W9), (wrote_plain _ _ _ _ _ W8); try done. intros ->; revert Hr; in_regs. }
  assert (∀ r, r ∈ [0x20; 0x30] → reg d9 r = reg d0 r) as V90.
  { intros r Hr. rewrite V9, V7, V1 by set_solver. done. }
  assert (brought_up d9) as BU.
  { split.
    - rewrite V9, V7 by (done || in_regs). exact (wrote_plain_self _ _ _ _ W1 ltac:(in_regs)).
    - rewrite V9, S7 by (done || in_regs). done.
    - split; [|split].
      + rewrite (wrote_on _ _ _ _ 0x320 W9); [exact T8|by rewrite S8|done|in_regs|].
        eapply wrote_has; [exact W8|done|done].
      + rewrite V9 by (done || in_regs). exact (wrote_plain_self _ _ _ _ W7 ltac:(in_regs)).
      + exact (wrote_plain_self _ _ _ _ W9 ltac:(in_regs)).
    - intros r Hr. apply O9; [unfold lvt_table; set_solver|intros ->; revert Hr; in_regs|].
      unfold has_reg. rewrite V90 by in_regs. rewrite !elem_of_cons in Hr.
      destruct Hr as [->|[->|[->|[->|[->|Hr]]]]]; [eval_needs; lia..|by apply not_elem_of_nil in Hr].
    - intros H7. apply O9; [in_regs|done|exact H7]. }
  run_step. run_step. run_step. cbn [la_hw la_cpus set_la_hw set_la_cpus].
  assert (cpu_at (set_cpu i (with_lapic l 0 false c) (la_cpus s)) i = with_lapic l 0 false c) as Hc.
  { unfold cpu_at, set_cpu. cbn. apply nth_lookup_Some. by apply list_lookup_insert_eq. }
  rewrite Hc. cbn [lapic with_lapic lapic_timer_ticks lapic_timer_first_tick].
  assert (base d9 = base d0) as Hb.
  { rewrite (wr_base _ _ _ _ W9), (wr_base _ _ _ _ W8), (wr_base _ _ _ _ W7), (wr_base _ _ _ _ W6), (wr_base _ _ _ _ W5),
      (wr_base _ _ _ _ W4), (wr_base _ _ _ _ W3), (mk_base _ _ M2). apply W1. }
  assert (∀ p, pic d9 p = pic d0 p) as Hp.
  { intros p. rewrite (wr_pic _ _ _ _ W9), (wr_pic _ _ _ _ W8), (wr_pic _ _ _ _ W7), (wr_pic _ _ _ _ W6), (wr_pic _ _ _ _ W5),
      (wr_pic _ _ _ _ W4), (wr_pic _ _ _ _ W3), (mk_pic _ _ M2). apply W1. }
  specialize (HQ d9 Hb Hp (V90 0x20 ltac:(in_regs)) (V90 0x30 ltac:(in_regs)) BU). unfold set_cpu in *. cbn [g_cpus g_cpu_count] in *. by rewrite list_insert_insert_eq.
Qed.
(** ** The base register *)

Lemma run_read_base E s (Q : Z → lapic_state D → Prop) :
  Q (base (la_hw s)) s → run E (rdmsr_u64 IA32_APIC_BASE_MSR) Q s.
Proof. intros HQ. unfold rdmsr_u64, run. rewrite (lr_base (LapicHw := HW)). by destruct s. Qed.

Lemma run_write_base E v s (Q : unit → lapic_state D → Prop) :
  in_width 64 v → x2_mode (base (la_hw s)) = false →
  (∀ d, base d = v → (∀ p, pic d p = pic (la_hw s) p) → reg d 0x30 = reg (la_hw s) 0x30 →
     (v = base (la_hw s) → enabled v = true → ∀ r, reg d r = reg (la_hw s) r) → Q tt (set_la_hw d s)) →
  run E (wrmsr_u64 IA32_APIC_BASE_MSR v) Q s.
Proof.
  intros Hv Hx HQ. destruct (lw_base (LapicHw := HW) (la_hw s) v Hv (or_introl Hx)) as (d & Hw & ? & ? & ? & ?).
  unfold wrmsr_u64, run. rewrite Hw. by apply HQ.
Qed.

Lemma global_enable b : in_width 64 b →
  in_width 64 (Z.lor b APIC_BASE_GLOBAL_ENABLE_BIT) ∧ x2_mode (Z.lor b APIC_BASE_GLOBAL_ENABLE_BIT) = x2_mode b ∧
  Z.land (Z.lor b APIC_BASE_GLOBAL_ENABLE_BIT) APIC_BASE_ADDR_MASK = Z.land b APIC_BASE_ADDR_MASK ∧
  Z.testbit (Z.lor b APIC_BASE_GLOBAL_ENABLE_BIT) 8 = Z.testbit b 8.
Proof.
  intros Hb. split_and!.
  - by apply lor_range.
  - unfold x2_mode. rewrite Z.lor_spec. apply orb_false_r.
  - rewrite Z.land_lor_distr_l. change (Z.land APIC_BASE_GLOBAL_ENABLE_BIT APIC_BASE_ADDR_MASK) with 0. by rewrite Z.lor_0_r.
  - rewrite Z.lor_spec. apply orb_false_r.
Qed.

Lemma enable_again b : enabled b = true → Z.lor b APIC_BASE_GLOBAL_ENABLE_BIT = b.
Proof.
  intros He. apply Z.bits_inj'. intros n Hn. rewrite Z.lor_spec. change APIC_BASE_GLOBAL_ENABLE_BIT with (2 ^ 11).
  destruct (decide (n = 11)) as [->|]; [unfold enabled in He; by rewrite He|]. rewrite Z.pow2_bits_false by lia. apply orb_false_r.
Qed.

Lemma x2_bit b : (Z.land b APIC_BASE_X2APIC_ENABLE_BIT =? 0) = negb (x2_mode b).
Proof. change APIC_BASE_X2APIC_ENABLE_BIT with (2 ^ 10). by apply land_pow2_testbit. Qed.

(** What the table says of a controller that was brought up. *)
Definition entry_up (c : cpu_t) (d : D) (boot : bool) : Prop :=
  initialized (lapic c) = true ∧ bsp (lapic c) = boot ∧ info_ok (lapic c) d ∧
  lapic_apic_id (lapic c) = Z.shiftr (reg d 0x20) 24 ∧ apic_id c = lapic_apic_id (lapic c) ∧
  timer_vector (lapic c) = 0x20 ∧ lapic_timer_ticks c = 0 ∧
  max_lvt_entries (lapic c) = lvt_count (reg d 0x30).

Context (cpuid : Z → Z → cpuid_regs).

Lemma bsp_init_spec s :
  x2_mode (base (la_hw s)) = false → Z.testbit (r_edx (cpuid 1 0)) 9 = true → Z.testbit (r_edx (cpuid 1 0)) 5 = true →
  6 ≤ lvt_count (reg (la_hw s) 0x30) → (0 < length (g_cpus (la_cpus s)))%nat →
  wp (x86_lapic_bsp_init lay cpuid true) (λ ok s', ok = true ∧
    base (la_hw s') = Z.lor (base (la_hw s)) (2 ^ 11) ∧
    pic (la_hw s') 0x21 = 0xFF ∧ pic (la_hw s') 0xA1 = 0xFF ∧
    let c := cpu_at (la_cpus s') 0 in
    entry_up c (la_hw s') (Z.testbit (base (la_hw s)) 8) ∧ is_bsp c = Z.testbit (base (la_hw s)) 8 ∧
    brought_up (la_hw s') ∧
    g_cpu_count (la_cpus s') = 1 ∧ ∀ i, (0 < i)%nat → cpu_at (la_cpus s') i = cpu_at (la_cpus s) i) s.
Proof.
  intros Hx Ha Hm H6 Hlen. unfold x86_lapic_bsp_init. cbn [negb]. cbv zeta. rewrite Ha, Hm. cbn [negb orb].
  run_step. apply run_read_base. run_step.
  destruct (global_enable _ (l_base_range (LapicHw := HW) (la_hw s))) as (G1 & G2 & G3 & G4).
  apply run_write_base; [done|done|]. intros d1 Hb1 Hp1 Hv1 _. set (s1 := set_la_hw d1 s).
  set (b := Z.lor (base (la_hw s)) APIC_BASE_GLOBAL_ENABLE_BIT) in *.
  run_step. apply run_read_base. cbn [la_hw s1 set_la_hw]. rewrite Hb1. run_step. rewrite !x2_bit, G2, Hx. cbn [negb andb].
  run_step. run_step. run_step. cbn [la_cpus s1 set_la_hw].
  rewrite x2_bit, G2, Hx. cbn [negb]. set (l := base_info lay _ _ _ _ b).
  assert (info_ok l d1) as Il.
  { unfold info_ok. rewrite Hb1, G2, Hx. done. }
  run_step. apply run_read_full; [done|in_regs|done|]. run_step. apply run_read_full; [done|in_regs|done|]. cbn [la_hw s1 set_la_hw].
  run_step. unfold set_entry. run_step. run_step. run_step. cbn [la_cpus set_la_hw set_la_cpus la_hw s1].
  unfold pic_disable_legacy_8259, outb_u8. run_step. run_step. run_step. run_step. cbn [la_cpus set_la_hw set_la_cpus la_hw].
  set (d2 := la_outb PIC1_DATA_PORT 0xFF d1). set (d3 := la_outb PIC2_DATA_PORT 0xFF d2).
  destruct (l_out (LapicHw := HW) d1 PIC1_DATA_PORT 0xFF ltac:(in_regs)) as (Hb2 & Hr2 & Hp2). fold d2 in Hb2, Hr2, Hp2.
  destruct (l_out (LapicHw := HW) d2 PIC2_DATA_PORT 0xFF ltac:(in_regs)) as (Hb3 & Hr3 & Hp3). fold d3 in Hb3, Hr3, Hp3.
  set (l' := with_version l _ _). set (c0 := cpu_at (la_cpus s) 0). set (c1 := with_ids _ _ _ _ _).
  match goal with |- run _ _ _ ?x => set (s2 := x) end.
  assert (cpu_at (la_cpus s2) 0 = c1) as Hc1.
  { unfold s2. cbn. unfold cpu_at, set_cpu. cbn. apply nth_lookup_Some. by apply list_lookup_insert_eq. }
  apply lapic_configure_spec; rewrite ?Hc1; change (la_hw s2) with d3.
  - unfold info_ok. rewrite Hb3, Hb2, Hb1, G2. done.
  - unfold s2. cbn. by rewrite length_insert.
  - done.
  - rewrite Hr3, Hr2. apply lvt_count_code.
  - by rewrite Hr3, Hr2, Hv1.
  - intros d Hbd Hpd Hid Hvd Hup. split; [done|]. cbn [la_hw la_cpus].
    assert (cpu_at (set_cpu 0 (with_lapic (started (lapic c1) LAPIC_TIMER_VECTOR_DEFAULT LAPIC_TIMER_INIT_COUNT_DEFAULT true true) 0 false c1)
      (la_cpus s2)) 0 = with_lapic (started (lapic c1) LAPIC_TIMER_VECTOR_DEFAULT LAPIC_TIMER_INIT_COUNT_DEFAULT true true) 0 false c1) as Hc2.
    { unfold cpu_at, set_cpu. cbn. apply nth_lookup_Some. apply list_lookup_insert_eq. by rewrite length_insert. }
    rewrite Hc2. split; [by rewrite Hbd, Hb3, Hb2|].
    split; [rewrite Hpd, Hp3, bool_decide_eq_false_2, Hp2 by (done || in_regs); done|].
    split; [rewrite Hpd, Hp3 by in_regs; done|]. split; [|split; [|split; [|split]]].
    + unfold entry_up. rewrite Hid, Hvd, !Hr3, !Hr2. split_and!; try done.
      * cbn. change APIC_BASE_BSP_BIT with (2 ^ 8). rewrite land_pow2_testbit by lia. by rewrite negb_involutive, G4.
      * unfold info_ok. rewrite Hbd, Hb3, Hb2, Hb1, G2. done.
      * apply lvt_count_code.
    + cbn. change APIC_BASE_BSP_BIT with (2 ^ 8). rewrite land_pow2_testbit by lia. by rewrite negb_involutive, G4.
    + done.
    + done.
    + intros i Hi. unfold cpu_at, set_cpu, s2. cbn. rewrite !nth_lookup. by rewrite !list_lookup_insert_ne by lia.
Qed.

(** C25. Bring-up of the boot processor's controller in xAPIC mode, for controllers with
    six or more entries in the local vector table (which the code's order of masking
    supposes), whether it was enabled before or not: it succeeds and leaves the
    controller accepting interrupts of every priority, enabled with the spurious vector
    0xFF, its timer unmasked on vector 32, periodic with the default count and divider,
    and every other entry of the table it has masked; the old controllers are masked;
    the table has the one processor with its identifier.  A controller masks its
    entries while it is disabled by software, so the order of the writes matters. *)
Theorem x86_lapic_bsp_init_correct s :
  x2_mode (base (la_hw s)) = false → Z.testbit (r_edx (cpuid 1 0)) 9 = true → Z.testbit (r_edx (cpuid 1 0)) 5 = true →
  6 ≤ lvt_count (reg (la_hw s) 0x30) → (0 < length (g_cpus (la_cpus s)))%nat →
  wp (x86_lapic_bsp_init lay cpuid true) (λ ok s', ok = true ∧
    base (la_hw s') = Z.lor (base (la_hw s)) (2 ^ 11) ∧
    pic (la_hw s') 0x21 = 0xFF ∧ pic (la_hw s') 0xA1 = 0xFF ∧
    let c := cpu_at (la_cpus s') 0 in
    entry_up c (la_hw s') (Z.testbit (base (la_hw s)) 8) ∧ is_bsp c = Z.testbit (base (la_hw s)) 8 ∧
    brought_up (la_hw s') ∧
    g_cpu_count (la_cpus s') = 1 ∧ ∀ i, (0 < i)%nat → cpu_at (la_cpus s') i = cpu_at (la_cpus s) i) s.
Proof. apply bsp_init_spec. Qed.

(** When the firmware hands over in x2APIC mode, bring-up ends in a
    general-protection fault: it asks for the direct change to xAPIC mode, which the
    processor refuses. *)
Theorem x86_lapic_bsp_init_x2apic_faults s :
  x2_mode (base (la_hw s)) = true → Z.testbit (r_edx (cpuid 1 0)) 9 = true → Z.testbit (r_edx (cpuid 1 0)) 5 = true →
  Z.testbit (r_ecx (cpuid 1 0)) 21 = true →
  x86_lapic_bsp_init lay cpuid true s = Halt "General Protection Fault".
Proof.
  intros Hx Ha Hm Hx2. unfold x86_lapic_bsp_init. cbn [negb]. cbv zeta. rewrite Ha, Hm, Hx2. cbn [negb orb].
  unfold bind, rdmsr_u64, wrmsr_u64. rewrite (lr_base (LapicHw := HW)). cbn [fst snd la_hw set_la_hw].
  destruct (global_enable _ (l_base_range (LapicHw := HW) (la_hw s))) as (G1 & G2 & _ & _).
  set (b := Z.lor (base (la_hw s)) APIC_BASE_GLOBAL_ENABLE_BIT) in *. rewrite Hx in G2.
  destruct (lw_base (LapicHw := HW) (la_hw s) b G1 (or_intror (or_introl G2))) as (d1 & Hw & Hb1 & _).
  rewrite Hw. cbn [la_hw set_la_hw]. rewrite (lr_base (LapicHw := HW)). cbn [fst snd la_hw set_la_hw]. rewrite Hb1, x2_bit, G2. cbn [negb andb la_hw set_la_hw].
  rewrite (lw_base_refused (LapicHw := HW)); [done|cbn [la_hw set_la_hw]; by rewrite Hb1|..].
  - unfold x2_mode. rewrite Z.land_spec. change (Z.testbit (lnotw 64 APIC_BASE_X2APIC_ENABLE_BIT) 10) with false. apply andb_false_r.
  - unfold enabled. rewrite Z.land_spec. change (Z.testbit (lnotw 64 APIC_BASE_X2APIC_ENABLE_BIT) 11) with true. rewrite andb_true_r.
    unfold b. rewrite Z.lor_spec. apply orb_true_r.
Qed.

(** Another processor's bring-up, with the mode of the boot processor, on a controller
    that is on and has six or more entries in its vector table, checks that the
    controller has the identifier the processor table expects: if so the controller is
    left as the boot processor's is, if not it is not configured. *)
Theorem x86_lapic_ap_init_correct s i :
  x2_mode (base (la_hw s)) = false → enabled (base (la_hw s)) = true → x2apic_enabled (lapic (cpu_at (la_cpus s) 0)) = false →
  6 ≤ lvt_count (reg (la_hw s) 0x30) → (i < length (g_cpus (la_cpus s)))%nat →
  wp (x86_lapic_ap_init lay i) (λ ok s',
    ok = bool_decide (Z.shiftr (reg (la_hw s) 0x20) 24 = apic_id (cpu_at (la_cpus s) i)) ∧
    (if ok then entry_up (cpu_at (la_cpus s') i) (la_hw s') false ∧ brought_up (la_hw s')
     else (∀ r, reg (la_hw s') r = reg (la_hw s) r) ∧ initialized (lapic (cpu_at (la_cpus s') i)) = false) ∧
    ∀ j, j ≠ i → cpu_at (la_cpus s') j = cpu_at (la_cpus s) j) s.
Proof.
  intros Hx Hen Hx2 H6 Hlen. unfold x86_lapic_ap_init. run_step. run_step. cbv zeta. run_step. apply run_read_base. run_step.
  rewrite (enable_again _ Hen). set (b := base (la_hw s)) in *.
  apply run_write_base; [apply l_base_range|done|]. intros d1 Hb1 Hp1 _ Hr1. specialize (Hr1 eq_refl Hen). set (s1 := set_la_hw d1 s).
  run_step. apply run_read_base. cbn [la_hw s1 set_la_hw]. rewrite Hb1. run_step. run_step. cbn [la_cpus s1 set_la_hw]. rewrite Hx2.
  set (l := base_info lay _ _ _ _ b). assert (info_ok l d1) as Il by (unfold info_ok; rewrite Hb1, Hx; done).
  run_step. apply run_read_full; [done|in_regs|done|]. run_step. apply run_read_full; [done|in_regs|done|]. cbn [la_hw s1 set_la_hw].
  rewrite !Hr1. run_step. unfold set_entry. run_step. cbn [la_cpus set_la_hw set_la_cpus la_hw s1]. run_step. run_step.
  set (l' := with_version l _ _). set (c0 := cpu_at (la_cpus s) i). set (c1 := with_lapic l' _ _ c0).
  match goal with |- run _ _ _ ?x => set (s2 := x) end.
  assert (cpu_at (la_cpus s2) i = c1) as Hc1.
  { unfold s2. cbn. unfold cpu_at, set_cpu. cbn. apply nth_lookup_Some. by apply list_lookup_insert_eq. }
  assert (∀ j, j ≠ i → cpu_at (la_cpus s2) j = cpu_at (la_cpus s) j) as Hoth.
  { intros j Hj. unfold cpu_at, s2, set_cpu. cbn. rewrite !nth_lookup. by rewrite list_lookup_insert_ne by done. }
  rewrite Hc1. change (apic_id c1) with (apic_id c0). change (lapic_apic_id l') with (Z.shiftr (reg (la_hw s) 0x20) 24).
  destruct (Z.eqb_spec (Z.shiftr (reg (la_hw s) 0x20) 24) (apic_id c0)) as [Hid|Hid]; cbn [negb].
  2: { run_step. rewrite bool_decide_eq_false_2 by done. split; [done|]. split; [|done]. rewrite Hc1. done. }
  rewrite bool_decide_eq_true_2 by done. apply lapic_configure_spec; rewrite ?Hc1; change (la_hw s2) with d1.
  - unfold info_ok. rewrite Hb1. done.
  - unfold s2. cbn. by rewrite length_insert.
  - done.
  - rewrite Hr1. apply lvt_count_code.
  - by rewrite Hr1.
  - intros d Hbd Hpd Hidd Hvd Hup. split; [done|]. cbn [la_hw la_cpus].
    set (c2 := with_lapic (started _ _ _ _ _) 0 false c1).
    assert (cpu_at (set_cpu i c2 (la_cpus s2)) i = c2) as Hc2.
    { unfold cpu_at, set_cpu. cbn. apply nth_lookup_Some. apply list_lookup_insert_eq. by rewrite length_insert. }
    rewrite Hc2. split; [split; [|done]|].
    + unfold entry_up. rewrite Hidd, Hvd, !Hr1. split_and!; try done; [|apply lvt_count_code].
      unfold info_ok. rewrite Hbd, Hb1. done.
    + intros j Hj. rewrite <- Hoth by done. unfold cpu_at, set_cpu. cbn. rewrite !nth_lookup. by rewrite list_lookup_insert_ne by done.
Qed.
(** ** Calibration *)

Abbreviation tsc := (l_tsc (LapicHw := HW)).

(** The hardware after writes that leave registers [f]. *)
Record holds (d d' : D) (f : Z → Z) : Prop := {
  ho_base : base d' = base d;
  ho_pic p : pic d' p = pic d p;
  ho_reg r : r ∈ stable_regs → has_reg (reg d) r → reg d' r = f r
}.

Definition upd (f : Z → Z) (r v : Z) : Z → Z := λ r', if bool_decide (r' = r) then v else f r'.

(** The entry of the processor that runs. *)
Definition self_index s : nat := cpu_self (la_cpus s) (Z.shiftr (reg (la_hw s) 0x20) 24).
Definition self_info s : lapic_info_t := lapic (cpu_at (la_cpus s) (self_index s)).

(** A controller that runs and whose timer is not in deadline mode. *)
Definition timer_on (d : D) : Prop :=
  Z.testbit (reg d 0xF0) 8 = true ∧ 4 ≤ lvt_count (reg d 0x30) ∧ Z.testbit (reg d 0x320) 18 = false.

Lemma run_self_lapic E s (Q : lapic_info_t → lapic_state D → Prop) :
  x2_mode (base (la_hw s)) = false → Q (self_info s) s → run E (self_lapic lay) Q s.
Proof.
  intros Hx HQ. unfold self_lapic, self, x86_lapic_id. run_step. run_step. run_step. apply run_read_base. rewrite x2_bit, Hx. cbn [negb].
  cbv zeta. rewrite reg_offset by in_regs. run_step. unfold read_u32, run.
  destruct (lr_reg (LapicHw := HW) (la_hw s) LAPIC_REG_ID Hx ltac:(in_regs) ltac:(apply plain_has; in_regs)) as (v & Hrd & Hw & Hm).
  unfold reg_addr in Hrd. rewrite Hrd. change (writable LAPIC_REG_ID) with 0xFFFFFFFF in Hm. rewrite land_32 in Hm by done. cbn. subst v. by destruct s.
Qed.

Lemma wait_tsc_spec s start wait :
  0 < wait ≤ 2 ^ 63 → start ≤ tsc (la_hw s) < start + wait →
  ∃ fuel d, wait_tsc_passed fuel (u64 start) wait s = Ok (tt, set_la_hw d s) ∧
    base d = base (la_hw s) ∧ (∀ p, pic d p = pic (la_hw s) p) ∧ ∀ r, reg d r = reg (la_hw s) r.
Proof.
  intros Hw. remember (Z.to_nat (start + wait - tsc (la_hw s))) as n eqn:Hn. revert s Hn.
  induction (lt_wf n) as [n _ IH]. intros s -> Ht.
  destruct (l_tsc_moves (LapicHw := HW) (la_hw s)) as (Hv & Hm & Hb & Hr & Hp). set (d := (la_rdtsc (la_hw s)).2) in *.
  assert (u64 (u64 (tsc d) - u64 start) = tsc d - start) as Hd.
  { unfold wrap. rewrite <- Zminus_mod. apply Z.mod_small. lia. }
  destruct (decide (tsc d - start < wait)) as [Hlt|Hge].
  - destruct (IH (Z.to_nat (start + wait - tsc d)) ltac:(lia) (set_la_hw d s)) as (fuel & d2 & Hrun & B1 & B2 & B3); [done|cbn; lia|].
    exists (S fuel), d2. cbn [wait_tsc_passed]. unfold bind, rdtsc_u64. fold d. rewrite Hv, Hd, (proj2 (Z.ltb_lt _ _)) by done.
    rewrite Hrun. cbn in B1, B2, B3. split; [done|]. split_and!; [congruence|intros p; by rewrite B2, Hp|intros r; by rewrite B3, Hr].
  - exists 1%nat, d. cbn [wait_tsc_passed]. unfold bind, rdtsc_u64. fold d. rewrite Hv, Hd, (proj2 (Z.ltb_ge _ _)) by lia. done.
Qed.

Lemma bind_step {S A B} (m : M S A) (k : A → M S B) (s : S) (a : A) (s' : S) : m s = Ok (a, s') → bind m k s = k a s'.
Proof. intros H. unfold bind. by rewrite H. Qed.

(** A write to one of the timer's registers, with the registers so far known as [f]. *)
Lemma write_reg_ok l r v s d0 f :
  holds d0 (la_hw s) f → info_ok l d0 → timer_on d0 → f 0xF0 = reg d0 0xF0 → f 0x30 = reg d0 0x30 →
  r ∈ [0x3E0; 0x320; 0x380] → in_width 32 v → Z.testbit (f 0x320) 18 = false → (r = 0x320 → Z.testbit v 18 = false) →
  ∃ d, lapic_write_reg l r v s = Ok (tt, set_la_hw d s) ∧ holds d0 d (upd f r (Z.land v (writable r))).
Proof.
  intros Hh Hi (Hon & H4 & _) Hf0 Hf3 Hr Hv H18 Hv18. pose proof Hh as [Hb Hp Hg].
  assert (has_reg (reg d0) 0x320) as H320 by (unfold has_reg; eval_needs; lia).
  assert (reg (la_hw s) 0x30 = reg d0 0x30) as H30 by (rewrite Hg; [done|in_regs|apply plain_has; in_regs]).
  assert (wp (lapic_write_reg l r v) (λ _ s', ∃ d, s' = set_la_hw d s ∧ wrote (la_hw s) d r v) s) as Hw.
  { apply run_write_reg; [by eapply info_ok_base| | |done| | |eauto].
    - unfold write_regs, lvt_table. set_solver.
    - unfold has_reg. rewrite H30. rewrite !elem_of_cons in Hr. destruct Hr as [->|[->|[->|Hr]]]; [eval_needs; lia..|by apply not_elem_of_nil in Hr].
    - intros Hr2 Hc. rewrite Hv18 in Hc by done. done.
    - intros _. rewrite Hg; [done|in_regs|done]. }
  apply wp_inv in Hw as ([] & s' & Hrun & d & -> & Hd). exists d. split; [done|].
  assert (∀ r', has_reg (reg d0) r' → has_reg (reg (la_hw s)) r') as Hhas by (intros r'; unfold has_reg; by rewrite H30).
  split; [by rewrite (wr_base _ _ _ _ Hd)|intros p; by rewrite (wr_pic _ _ _ _ Hd)|]. intros r' Hr' Hh'.
  rewrite (wrote_on _ _ _ _ r' Hd); [|rewrite Hg; [by rewrite Hf0|in_regs|apply plain_has; in_regs]| |done|by apply Hhas].
  - unfold upd. case_bool_decide; [done|by apply Hg].
  - intros ->. rewrite !elem_of_cons in Hr. destruct Hr as [Hr|[Hr|[Hr|Hr]]]; [done..|by apply not_elem_of_nil in Hr].
Qed.

Lemma read_reg_ok l r s :
  info_ok l (la_hw s) → r ∈ stable_regs → has_reg (reg (la_hw s)) r →
  ∃ v, lapic_read_reg l r s = Ok (v, s) ∧ in_width 32 v ∧ Z.land v (writable r) = reg (la_hw s) r.
Proof.
  intros Hi Hr Hh. assert (wp (lapic_read_reg l r) (λ v s', s' = s ∧ in_width 32 v ∧ Z.land v (writable r) = reg (la_hw s) r) s) as Hw
    by (by apply run_read_reg).
  apply wp_inv in Hw as (v & s' & Hrun & -> & Hv). eauto.
Qed.

Lemma read_current_ok l s :
  info_ok l (la_hw s) → ∃ v, lapic_read_reg l LAPIC_REG_TIMER_CURRCNT s = Ok (v, s) ∧ in_width 32 v.
Proof.
  intros (Hx & Hl & Hv). destruct (lr_current (LapicHw := HW) (la_hw s) Hx) as (v & Hr & Hw). exists v. split; [|done].
  unfold lapic_read_reg, read_u32. rewrite Hl, Hv. unfold reg_addr in Hr.
  change (4 * Z.shiftr LAPIC_REG_TIMER_CURRCNT 2) with LAPIC_REG_TIMER_CURRCNT. rewrite Hr. by destruct s.
Qed.

Lemma calibrate_spec s target :
  info_ok (self_info s) (la_hw s) → timer_on (la_hw s) → initialized (self_info s) = true → target ≠ 0 →
  0 < tsc_hz_from_cpuid cpuid < 2 ^ 64 →
  ∃ fuel r d, x86_lapic_timer_calibrate lay cpuid fuel target s = Ok (r, set_la_hw d s) ∧
    holds (la_hw s) d (reg (la_hw s)) ∧ ∀ n, r = Some n → 1 ≤ n < 2 ^ 32.
Proof.
  intros Hi Hon Hini Ht Hhz. pose proof (proj1 Hi) as Hx. pose proof Hon as (_ & H4 & H18).
  assert (self_lapic lay s = Ok (self_info s, s)) as Hself.
  { assert (wp (self_lapic lay) (λ l s', l = self_info s ∧ s' = s) s) as Hw by (by apply run_self_lapic).
    by apply wp_inv in Hw as (l & s' & Hrun & -> & ->). }
  set (l := self_info s) in *. set (hz := tsc_hz_from_cpuid cpuid) in *.
  set (wt := if hz / 100 =? 0 then 1 else hz / 100).
  assert (0 < wt ≤ 2 ^ 63) as Hwt.
  { unfold wt. assert (0 ≤ hz / 100 ≤ 2 ^ 63) by (split; [apply Z.div_pos; lia|apply Z.div_le_upper_bound; lia]). destruct (Z.eqb_spec (hz / 100) 0); lia. }
  destruct (read_reg_ok l 0x320 s) as (lvt & R1 & Hw1 & Hm1); [done|in_regs|unfold has_reg; eval_needs; lia|].
  destruct (read_reg_ok l 0x3E0 s) as (dv & R2 & Hw2 & Hm2); [done|in_regs|apply plain_has; in_regs|].
  destruct (read_reg_ok l 0x380 s) as (ini & R3 & Hw3 & Hm3); [done|in_regs|apply plain_has; in_regs|].
  assert (Z.testbit lvt 18 = false) as Hl18.
  { rewrite <- Hm1, Z.land_spec in H18. change (Z.testbit (writable 0x320) 18) with true in H18. by rewrite andb_true_r in H18. }
  destruct (write_reg_ok l 0x3E0 3 s (la_hw s) (reg (la_hw s))) as (d1 & W1 & G1); [by split|done|done|done|done|in_regs|done|done|done|].
  destruct (write_reg_ok l 0x320 LAPIC_LVT_MASKED (set_la_hw d1 s) _ _ G1) as (d2 & W2 & G2); [done|done|done|done|in_regs|done|exact H18|done|].
  destruct (write_reg_ok l 0x380 0xFFFFFFFF (set_la_hw d2 s) _ _ G2) as (d3 & W3 & G3); [done|done|done|done|in_regs|done|done|done|].
  destruct (l_tsc_moves (LapicHw := HW) d3) as (Hv & Hm & Hb & Hr & Hp). set (d4 := (la_rdtsc d3).2) in *.
  destruct (wait_tsc_spec (set_la_hw d4 s) (tsc d4) wt Hwt) as (fuel & d5 & W5 & B1 & B2 & B3); [cbn; lia|]. cbn [la_hw set_la_hw] in W5, B1, B2, B3.
  match type of G3 with holds _ _ ?g => assert (holds (la_hw s) d5 g) as G5 end.
  { destruct G3 as [A1 A2 A3]. split; [congruence|intros p; by rewrite B2, Hp, A2|]. intros r Hin Hh. by rewrite B3, Hr, A3. }
  destruct (read_current_ok l (set_la_hw d5 s)) as (cur & W6 & Hcur); [eapply info_ok_base; [exact Hi|apply G5]|].
  destruct (write_reg_ok l 0x380 ini (set_la_hw d5 s) _ _ G5) as (d6 & W7 & G7); [done|done|done|done|in_regs|done|done|done|].
  destruct (write_reg_ok l 0x320 lvt (set_la_hw d6 s) _ _ G7) as (d7 & W8 & G8); [done|done|done|done|in_regs|done|done|done|].
  rewrite Hm3 in G7, G8. rewrite Hm1 in G8.
  destruct (write_reg_ok l 0x3E0 dv (set_la_hw d7 s) _ _ G8) as (d8 & W9 & G9); [done|done|done|done|in_regs|done|exact H18|done|].
  rewrite Hm2 in G9.
  exists fuel. unfold x86_lapic_timer_calibrate. destruct (Z.eqb_spec target 0); [done|]. rewrite (bind_step _ _ _ _ _ Hself), Hini.
  cbn [negb]. cbv zeta. fold hz. destruct (Z.eqb_spec hz 0); [lia|].
  rewrite (bind_step _ _ _ _ _ R1), (bind_step _ _ _ _ _ R2), (bind_step _ _ _ _ _ R3). fold wt.
  rewrite (bind_step _ _ _ _ _ W1), (bind_step _ _ _ _ _ W2), (bind_step _ _ _ _ _ W3).
  rewrite (bind_step rdtsc_u64 _ _ (u64 (tsc d4)) (set_la_hw d4 s)) by (unfold rdtsc_u64; cbn; by rewrite Hv).
  rewrite (bind_step _ _ _ _ _ W5), (bind_step _ _ _ _ _ W6), (bind_step _ _ _ _ _ W7), (bind_step _ _ _ _ _ W8), (bind_step _ _ _ _ _ W9).
  assert (holds (la_hw s) d8 (reg (la_hw s))) as Hend.
  { destruct G9 as [A1 A2 A3]. split; [done|done|]. intros r Hin Hh. rewrite A3 by done. unfold upd. repeat case_bool_decide; congruence. }
  destruct (u32 (0xFFFFFFFF - cur) =? 0); [exists None, d8; split; [done|]; split; [done|]; discriminate|].
  set (c := u32 ((u64 (u32 (0xFFFFFFFF - cur) * hz) `div` wt) `div` target)).
  exists (Some (if c =? 0 then 1 else c)), d8. split; [done|]. split; [done|]. intros m [= <-].
  assert (in_width 32 c) as Hr32 by (apply wrap_range; lia). unfold in_width in Hr32. destruct (Z.eqb_spec c 0); lia.
Qed.

(** Calibration of a timer that is on returns, as the time-stamp counter moves on, and
    puts the timer's registers back as they were, every other register untouched; a
    count it answers with fits the register and is not 0. *)
Theorem x86_lapic_timer_calibrate_restores s target :
  info_ok (self_info s) (la_hw s) → timer_on (la_hw s) → initialized (self_info s) = true → target ≠ 0 →
  0 < tsc_hz_from_cpuid cpuid < 2 ^ 64 →
  ∃ fuel r d, x86_lapic_timer_calibrate lay cpuid fuel target s = Ok (r, set_la_hw d s) ∧
    base d = base (la_hw s) ∧ (∀ x, x ∈ stable_regs → has_reg (reg (la_hw s)) x → reg d x = reg (la_hw s) x) ∧
    ∀ n, r = Some n → 1 ≤ n < 2 ^ 32.
Proof.
  intros Hi Hon Hini Ht Hhz. destruct (calibrate_spec s target Hi Hon Hini Ht Hhz) as (fuel & r & d & Hrun & [Hb _ Hr] & Hn).
  exists fuel, r, d. done.
Qed.
End Spec.
