(* ===== verification/LapicDemo.v ===== *)
(** A concrete local interrupt controller for the contract of LapicSpec.v - with its
    software-disabled state, its reset when it is switched on, and status bits that show
    up in what is read -, and the theorems on it. *)

From S2P Require Import Prelude Boot Pmm Percpu AcpiDemo Lapic LapicSpec.

(** The counter advances by 1,000 cycles from one reading to the next; half of the
    initial count has run down whenever the current count is read. *)
Record lchip : Type := mkLchip { lc_base : Z; lc_regs : Z → Z; lc_pic : gmap Z Z; lc_tsc : Z }.

Definition lchip_base (d : lchip) : Z := u64 (lc_base d).
Definition lchip_reg (d : lchip) (r : Z) : Z := Z.land (lc_regs d r) (writable r).
Definition lchip_offset (a : Z) (d : lchip) : Z :=
  u64 (a - pmm_phys_to_virt demo_layout (Z.land (lchip_base d) APIC_BASE_ADDR_MASK)).

(** The registers after power-up: identifier and version stay, the controller is disabled
    by software, the vector table is masked. *)
Definition lchip_reset (f : Z → Z) : Z → Z := λ r,
  if (r =? 0x20) || (r =? 0x30) then f r else if r =? 0xF0 then 0xFF else if bool_decide (r ∈ lvt_table) then 2 ^ 16 else 0.

Definition lchip_store (f : Z → Z) (o v : Z) : Z → Z := λ r,
  let x := if r =? o then v else f r in
  if bool_decide (r ∈ lvt_table) && negb (Z.testbit (if o =? 0xF0 then v else f 0xF0) 8) then Z.lor x (2 ^ 16) else x.

Definition lchip_wrmsr (msr v : Z) (d : lchip) : option lchip :=
  if msr =? IA32_APIC_BASE_MSR then
    if x2_mode (lchip_base d) && negb (x2_mode v) && enabled v then None
    else Some (mkLchip v (if (v =? lchip_base d) && enabled v then lc_regs d else lchip_reset (lc_regs d)) (lc_pic d) (lc_tsc d))
  else Some (mkLchip (lc_base d) (lchip_store (lc_regs d) (16 * (msr - 0x800)) v) (lc_pic d) (lc_tsc d)).

(** Bit 12 (delivery pending) is set in whatever has such a bit. *)
Definition lchip_read (d : lchip) (o : Z) : Z := Z.lor (lchip_reg d o) (Z.ldiff (2 ^ 12) (writable o)).

#[export] Instance lchip_io : LapicIo lchip := {
  la_rdmsr msr d := (if msr =? IA32_APIC_BASE_MSR then lchip_base d else lchip_read d (16 * (msr - 0x800)), d);
  la_wrmsr := lchip_wrmsr;
  la_read32 a d :=
    let o := lchip_offset a d in
    (if o =? LAPIC_REG_TIMER_CURRCNT then u32 (lc_regs d 0x380) / 2 else lchip_read d o, d);
  la_write32 a v d := mkLchip (lc_base d) (lchip_store (lc_regs d) (lchip_offset a d) v) (lc_pic d) (lc_tsc d);
  la_rdtsc d := let t := lc_tsc d + 1000 in (u64 t, mkLchip (lc_base d) (lc_regs d) (lc_pic d) t);
  la_outb p v d := mkLchip (lc_base d) (lc_regs d) (<[p := v]> (lc_pic d)) (lc_tsc d)
}.

Lemma lchip_offset_reg d r : 0 ≤ r < 2 ^ 64 → lchip_offset (reg_addr demo_layout (lchip_base d) r) d = r.
Proof.
  intros Hr. unfold lchip_offset, reg_addr. set (v := pmm_phys_to_virt _ _). unfold wrap.
  rewrite Zminus_mod_idemp_l. replace (v + r - v) with r by lia. by apply Z.mod_small.
Qed.

Lemma all_regs_small r : r ∈ all_regs → 0 ≤ r < 2 ^ 64.
Proof.
  intros Hr. unfold all_regs, stable_regs, plain_regs, lvt_table in Hr. cbn [app] in Hr. rewrite !elem_of_cons in Hr.
  repeat (destruct Hr as [->|Hr]; [done|]). by apply not_elem_of_nil in Hr.
Qed.

Lemma current_not_stable r : r ∈ stable_regs → r ≠ LAPIC_REG_TIMER_CURRCNT.
Proof. intros Hr ->. revert Hr. in_regs. Qed.

Lemma lchip_read_ok d r : in_width 32 (lchip_read d r) ∧ Z.land (lchip_read d r) (writable r) = lchip_reg d r.
Proof.
  unfold lchip_read. split.
  - apply lor_range; [lia| |].
    + unfold lchip_reg. rewrite Z.land_comm. apply land_range; [lia|apply writable_range].
    + unfold writable. repeat case_match; by vm_compute.
  - rewrite Z.land_lor_distr_l, Z.land_ldiff, Z.lor_0_r. unfold lchip_reg. by rewrite <- Z.land_assoc, Z.land_diag.
Qed.

Lemma lchip_store_ok d r v r' b p t :
  lchip_reg (mkLchip b (lchip_store (lc_regs d) r v) p t) r' = written (lchip_reg d) r v r'.
Proof.
  unfold lchip_reg at 1, written, lchip_store. cbn [lc_regs].
  assert (Z.testbit (if r =? 0xF0 then v else lchip_reg d 0xF0) 8 = Z.testbit (if r =? 0xF0 then v else lc_regs d 0xF0) 8) as ->.
  { destruct (r =? 0xF0); [done|]. unfold lchip_reg. rewrite Z.land_spec. apply andb_true_r. }
  assert (Z.land (if r' =? r then v else lc_regs d r') (writable r') =
    (if bool_decide (r' = r) then Z.land v (writable r) else lchip_reg d r')) as Hx.
  { destruct (Z.eqb_spec r' r) as [->|]; [by rewrite bool_decide_eq_true_2|by rewrite bool_decide_eq_false_2]. }
  destruct (decide (r' ∈ lvt_table)) as [Hl|Hl];
    [rewrite (bool_decide_eq_true_2 _ Hl)|rewrite (bool_decide_eq_false_2 _ Hl)]; cbn [andb]; [|exact Hx].
  destruct (negb _); [|exact Hx].
  rewrite Z.land_lor_distr_l, Hx. f_equal. apply Z.bits_inj'. intros n Hn. rewrite Z.land_spec.
  destruct (decide (n = 16)) as [->|]; [by rewrite lvt_mask_bit|by rewrite Z.pow2_bits_false by lia].
Qed.

#[export, refine] Instance lchip_hw : LapicHw lchip demo_layout := {
  l_base := lchip_base; l_reg := lchip_reg; l_pic := λ d p, default 0 (lc_pic d !! p); l_tsc := lc_tsc
}.
Proof.
  - done.
  - intros d v Hv Hok. cbn [la_wrmsr lchip_io]. unfold lchip_wrmsr. rewrite Z.eqb_refl.
    replace (x2_mode (lchip_base d) && negb (x2_mode v) && enabled v) with false
      by (destruct Hok as [-> | [-> | ->]]; by rewrite ?andb_false_r).
    eexists. split; [done|]. split; [apply Z.mod_small, Hv|]. split; [done|]. split.
    + unfold lchip_reg. cbn [lc_regs]. by case_match.
    + intros -> ->. intros r. unfold lchip_reg. cbn [lc_regs]. by rewrite Z.eqb_refl.
  - intros d v H1 H2 H3. cbn [la_wrmsr lchip_io]. unfold lchip_wrmsr. by rewrite Z.eqb_refl, H1, H2, H3.
  - intros d r _ Hr _. cbn [la_read32 lchip_io]. rewrite lchip_offset_reg by (by apply all_regs_small, stable_all).
    cbv zeta. rewrite (proj2 (Z.eqb_neq _ _)) by (by apply current_not_stable). eexists. split; [done|]. apply lchip_read_ok.
  - intros d r v _ Hr _ Hv _ _. cbn [la_write32 lchip_io]. rewrite lchip_offset_reg by (by apply all_regs_small, write_all). split; [done|]. split; [done|].
    intros r' _ _. apply lchip_store_ok.
  - intros d _. cbn [la_read32 lchip_io]. rewrite lchip_offset_reg by done. cbv zeta. rewrite Z.eqb_refl. eexists. split; [done|].
    pose proof (wrap_range 32 (lc_regs d 0x380) ltac:(lia)) as Hw. unfold in_width in *. dlia.
  - intros d. cbn. split_and!; try done; lia.
  - intros d p v _. cbn [la_outb lchip_io]. split; [done|]. split; [done|]. intros q _. cbn [lc_pic]. case_bool_decide as Hd.
    + subst. by rewrite lookup_insert_eq.
    + by rewrite lookup_insert_ne.
  - intros. apply wrap_range. lia.
Defined.

(** * The theorems on it *)

(** A processor with a controller of six vector-table entries and a 2.5 GHz counter. *)
Definition demo_cpuid (leaf sub : Z) : cpuid_regs :=
  if leaf =? 0 then mkRegs 0x16 0 0 0
  else if leaf =? 1 then mkRegs 0 0 (2 ^ 21) (2 ^ 9 + 2 ^ 5)
  else if leaf =? 0x16 then mkRegs 2500 0 0 0
  else mkRegs 0 0 0 0.

Definition demo_lchip (base id : Z) : lchip :=
  mkLchip base (λ r, if r =? 0x20 then id * 2 ^ 24 else if r =? 0x30 then 0x50014 else 0) ∅ 0.
Definition la0 : lapic_state lchip := mkLa (demo_lchip 0xFEE00100 0) percpu_zero.
Definition la_x2 : lapic_state lchip := mkLa (demo_lchip 0xFEE00D00 0) percpu_zero.

(** The end of a computation that returns. *)
Definition end_state {S A} (m : M S A) (s : S) : S := match m s with Ok (_, s') => s' | _ => s end.
Definition la1 : lapic_state lchip := end_state (x86_lapic_bsp_init demo_layout demo_cpuid true) la0.

Lemma x86_lapic_bsp_init_correct_witness :
  ∃ s, x86_lapic_bsp_init demo_layout demo_cpuid true la0 = Ok (true, s) ∧
    brought_up (la_hw s) ∧ entry_up (cpu_at (la_cpus s) 0) (la_hw s) true.
Proof.
  destruct (wp_inv _ _ _ (x86_lapic_bsp_init_correct (HW := lchip_hw) demo_cpuid la0 eq_refl eq_refl eq_refl
    ltac:(vm_compute; discriminate) ltac:(vm_compute; lia))) as (ok & s & Hrun & -> & _ & _ & _ & Hup & _ & Hreg & _).
  exists s. split; [done|]. split; [exact Hreg|exact Hup].
Defined.

Lemma x86_lapic_bsp_init_x2apic_faults_witness :
  x86_lapic_bsp_init demo_layout demo_cpuid true la_x2 = Halt "General Protection Fault".
Proof. apply x86_lapic_bsp_init_x2apic_faults; by vm_compute. Defined.

(** The table after the boot processor's bring-up, with a second processor whose
    identifier is 1, and that processor's controller. *)
Definition la_ap : lapic_state lchip :=
  mkLa (demo_lchip 0xFEE00800 1) (set_cpu 1 (with_ids 1 1 false false zero_cpu) (la_cpus la1)).

Lemma x86_lapic_ap_init_correct_witness :
  ∃ s, x86_lapic_ap_init demo_layout 1 la_ap = Ok (true, s) ∧ brought_up (la_hw s).
Proof.
  destruct (wp_inv _ _ _ (x86_lapic_ap_init_correct (HW := lchip_hw) la_ap 1 eq_refl eq_refl eq_refl
    ltac:(vm_compute; discriminate) ltac:(vm_compute; lia))) as (ok & s & Hrun & Hok & Hup & _).
  assert (ok = true) as -> by (rewrite Hok; by vm_compute). exists s. split; [done|]. apply Hup.
Defined.

Lemma x86_lapic_timer_calibrate_restores_witness :
  ∃ fuel r d, x86_lapic_timer_calibrate demo_layout demo_cpuid fuel 100 la1 = Ok (r, set_la_hw d la1) ∧
    lchip_reg d LAPIC_REG_LVT_TIMER = 0x20020 ∧ lchip_reg d LAPIC_REG_TIMER_INITCNT = 1000000.
Proof.
  destruct (x86_lapic_timer_calibrate_restores demo_cpuid la1 100) as (fuel & r & d & Hrun & _ & Hr & _).
  - split_and!; by vm_compute.
  - split_and!; by vm_compute.
  - by vm_compute.
  - done.
  - by vm_compute.
  - exists fuel, r, d. split; [done|]. split; (etransitivity; [apply Hr; [in_regs|by vm_compute]|by vm_compute]).
Defined.

(** While the controller is disabled by software an entry stays masked, whatever is
    written to it. *)
Example demo_disabled_write :
  let d := mkLchip 0xFEE00900 (lchip_reset (λ _, 0x50014)) ∅ 0 in
  lchip_reg (la_write32 (reg_addr demo_layout 0xFEE00900 0x320) 0x20020 d) 0x320 = 0x30020.
Proof. vm_compute. reflexivity. Qed.
