(* ===== verification/NvmeInit.v ===== *)
(** Bring-up of the NVMe controller (arch/x86_64/drivers/block/nvme.c, nvme_init and
    what it calls): the controller is found on the PCI bus, reset, given its
    administrative queues, identified, connected to an interrupt and given the pair of
    queues of Nvme.v.

    The function works on the driver's state, the PCI bus, the table of interrupt
    handlers and the local interrupt controller; messages are not modelled. *)

From S2P Require Import Prelude Boot Pmm Kmalloc KernMem Sched Irq Lapic Pci Nvme.

Definition NVME_CLASS : Z := 0x01.
Definition NVME_SUBCLASS : Z := 0x08.
Definition NVME_MSIX_CAP_ID : Z := 0x11.
Definition NVME_MSIX_VECTOR : Z := 0x22.
Definition NVME_MSIX_TABLE_ENTRY : Z := 0.
Definition NVME_CC_EN : Z := Z.shiftl 1 0.
Definition NVME_CC_CSS_NVM : Z := Z.shiftl 0 4.
Definition NVME_CC_MPS_4K : Z := Z.shiftl 0 7.
Definition NVME_CC_AMS_RR : Z := Z.shiftl 0 11.
Definition NVME_CC_IOSQES : Z := Z.shiftl 6 16.
Definition NVME_CC_IOCQES : Z := Z.shiftl 4 20.
Definition NVME_CSTS_RDY : Z := Z.shiftl 1 0.
Definition NVME_CSTS_CFS : Z := Z.shiftl 1 1.
Definition PCI_CMD_BUS_MASTER : Z := Z.shiftl 1 2.
Definition PCI_CMD_MEM_SPACE : Z := Z.shiftl 1 1.
Definition NVME_CAP_MQES (cap : Z) : Z := u16 (Z.land cap 0xFFFF).
Definition NVME_CAP_DSTRD (cap : Z) : Z := u8 (Z.land (Z.shiftr cap 32) 0xF).
Definition NVME_CAP_TO (cap : Z) : Z := u8 (Z.land (Z.shiftr cap 24) 0xFF).
Definition NVME_CAP_CSS (cap : Z) : Z := u8 (Z.land (Z.shiftr cap 37) 0xFF).
Definition NVME_CAP_MPSMIN (cap : Z) : Z := u8 (Z.land (Z.shiftr cap 48) 0xF).
Definition NVME_ADMIN_OPC_IDENTIFY : Z := 0x06.
Definition NVME_ADMIN_OPC_CREATE_IO_CQ : Z := 0x05.
Definition NVME_ADMIN_OPC_CREATE_IO_SQ : Z := 0x01.

(** Offsets of [nvme_bar_t]. *)
Definition BAR_CAP : Z := 0x00.
Definition BAR_CC : Z := 0x14.
Definition BAR_CSTS : Z := 0x1C.
Definition BAR_AQA : Z := 0x24.
Definition BAR_ASQ : Z := 0x28.
Definition BAR_ACQ : Z := 0x30.

(** * Updates of the controller's record *)

Definition with_bar (b stride : Z) (c : nvme_ctrl_t) : nvme_ctrl_t :=
  mkCtrl b stride (admin c) (io c) (next_admin_cid c) (next_io_cid c) (mdts_bytes c) (lba_size c) (lba_shift c)
    (msix_enabled c) (msix_vector c) (ready c) (admin_lock c) (io_lock c).
Definition with_limits (mdts size shift : Z) (c : nvme_ctrl_t) : nvme_ctrl_t :=
  mkCtrl (bar c) (doorbell_stride c) (admin c) (io c) (next_admin_cid c) (next_io_cid c) mdts size shift
    (msix_enabled c) (msix_vector c) (ready c) (admin_lock c) (io_lock c).
Definition with_msix (on : bool) (vector : Z) (c : nvme_ctrl_t) : nvme_ctrl_t :=
  mkCtrl (bar c) (doorbell_stride c) (admin c) (io c) (next_admin_cid c) (next_io_cid c) (mdts_bytes c) (lba_size c) (lba_shift c)
    on vector (ready c) (admin_lock c) (io_lock c).
Definition with_ready (r : bool) (c : nvme_ctrl_t) : nvme_ctrl_t :=
  mkCtrl (bar c) (doorbell_stride c) (admin c) (io c) (next_admin_cid c) (next_io_cid c) (mdts_bytes c) (lba_size c) (lba_shift c)
    (msix_enabled c) (msix_vector c) r (admin_lock c) (io_lock c).
Definition set_admin_depth (n : Z) (a : admin_queues) : admin_queues :=
  mkAdmin (asq a) (acq a) (asq_phys a) (acq_phys a) n (asq_tail a) (acq_head a) (acq_phase a).
Definition set_io_depth (n : Z) (q : io_queues) : io_queues :=
  mkIo (iosq q) (iocq q) (iosq_phys q) (iocq_phys q) n (iosq_tail q) (iosq_head q) (iocq_head q) (iocq_phase q).

(** A base address register: [Some phys] for [true] with the output set. *)
Definition nvme_get_bar_phys (dev : option pci_device_t) (bar_index : Z) : option Z :=
  match dev with
  | None => None
  | Some d =>
      if bar_index >=? 6 then None
      else
        let bar := nth (Z.to_nat bar_index) (bars d) 0 in
        if negb (Z.land bar 0x1 =? 0) then None
        else
          let type := Z.land (Z.shiftr bar 1) 0x3 in
          if type =? 0x2 then
            if bar_index + 1 >=? 6 then None
            else
              let high := nth (Z.to_nat (bar_index + 1)) (bars d) 0 in
              Some (Z.lor (u64 (Z.shiftl high 32)) (Z.land bar (lnotw 64 0xF)))
          else Some (Z.land bar (lnotw 64 0xF))
  end.

(** * Administrative commands *)

Section Admin.
Context (lay : kernel_layout) (fuel : nat).
Context {D : Type} `{!NvmeIo D}.
Abbreviation nstate := (nvme_state D).

Definition id_byte (a : Z) : M nstate Z := hw_get (mem_load8 (u64 a)).

Definition nvme_le64 (p : Z) : M nstate Z :=
  let! b0 := id_byte p in
  let! b1 := id_byte (p + 1) in
  let! b2 := id_byte (p + 2) in
  let! b3 := id_byte (p + 3) in
  let! b4 := id_byte (p + 4) in
  let! b5 := id_byte (p + 5) in
  let! b6 := id_byte (p + 6) in
  let! b7 := id_byte (p + 7) in
  ret (Z.lor (Z.lor (Z.lor (Z.lor (Z.lor (Z.lor (Z.lor b0 (Z.shiftl b1 8)) (Z.shiftl b2 16)) (Z.shiftl b3 24))
         (Z.shiftl b4 32)) (Z.shiftl b5 40)) (Z.shiftl b6 48)) (Z.shiftl b7 56)).

Definition alloc_page : M nstate Z := zoom nv_pmm set_nv_pmm (pmm_alloc_page lay).
Definition free_page (a : Z) : M nstate unit := zoom nv_pmm set_nv_pmm (pmm_free_page lay a).

Definition identify_cmd (ns prp cns : Z) : nvme_sqe_t := mkSqe NVME_ADMIN_OPC_IDENTIFY ns 0 0 prp 0 cns 0 0 0 0 0.

Definition nvme_identify_controller (cap : Z) : M nstate bool :=
  let! id_buf := alloc_page in
  if id_buf =? 0 then ret false
  else
    hw_do (mem_zero id_buf PMM_PAGE_SIZE);;
    let! ok := nvme_admin_cmd fuel (identify_cmd 0 (pmm_virt_to_phys lay id_buf) 1) in
    if negb ok then free_page id_buf;; ret false
    else
      let! mdts := id_byte (id_buf + 0x4D) in
      let! cntrltype := id_byte (id_buf + 0x6E) in
      let mpsmin := NVME_CAP_MPSMIN cap in
      (if mdts =? 0 then update_ctrl (λ c, with_limits 0 (lba_size c) (lba_shift c) c)
       else
         let shift := u32 (mdts + 12 + mpsmin) in
         update_ctrl (λ c, with_limits (if shift >=? 63 then 2 ^ 64 - 1 else Z.shiftl 1 shift) (lba_size c) (lba_shift c) c));;
      if negb (cntrltype =? 0) && negb (cntrltype =? 1) then free_page id_buf;; ret false
      else free_page id_buf;; ret true.

(** The C shift is undefined from 32 on; the processor takes the count modulo 32. *)
Definition nvme_identify_namespace (ns : Z) : M nstate bool :=
  let! id_buf := alloc_page in
  if id_buf =? 0 then ret false
  else
    hw_do (mem_zero id_buf PMM_PAGE_SIZE);;
    let! ok := nvme_admin_cmd fuel (identify_cmd ns (pmm_virt_to_phys lay id_buf) 0) in
    if negb ok then free_page id_buf;; ret false
    else
      let! nsze := nvme_le64 id_buf in
      if nsze =? 0 then free_page id_buf;; ret false
      else
        let! nlba := id_byte (id_buf + 0x19) in
        let! flbas := id_byte (id_buf + 0x1A) in
        let fmt := Z.land flbas 0x0F in
        let fmt := if fmt >? nlba then 0 else fmt in
        let! lbads := id_byte (id_buf + (0x80 + fmt * 4 + 2)) in
        update_ctrl (λ c, with_limits (mdts_bytes c) (Z.shiftl 1 (lbads mod 32)) lbads c);;
        free_page id_buf;;
        ret true.

Definition create_cq_cmd (phys qid depth : Z) (enable_irq : bool) (iv : Z) : nvme_sqe_t :=
  mkSqe NVME_ADMIN_OPC_CREATE_IO_CQ 0 0 0 phys 0 (Z.lor (u32 (Z.shiftl (u32 (depth - 1)) 16)) qid)
    (Z.lor (Z.lor (u32 (Z.shiftl iv 16)) (Z.shiftl (if enable_irq then 1 else 0) 1)) 1) 0 0 0 0.
Definition nvme_create_io_cq (qid depth : Z) (enable_irq : bool) (iv : Z) : M nstate bool :=
  let! s := get in
  nvme_admin_cmd fuel (create_cq_cmd (iocq_phys (io (g_nvme s))) qid depth enable_irq iv).

Definition create_sq_cmd (phys qid depth cqid : Z) : nvme_sqe_t :=
  mkSqe NVME_ADMIN_OPC_CREATE_IO_SQ 0 0 0 phys 0 (Z.lor (u32 (Z.shiftl (u32 (depth - 1)) 16)) qid)
    (Z.lor (Z.lor (u32 (Z.shiftl cqid 16)) (Z.shiftl 0 1)) 1) 0 0 0 0.
Definition nvme_create_io_sq (qid depth cqid : Z) : M nstate bool :=
  let! s := get in
  nvme_admin_cmd fuel (create_sq_cmd (iosq_phys (io (g_nvme s))) qid depth cqid).

(** The handler that the interrupt table calls. *)
Definition nvme_irq : M nstate unit := nvme_poll_completions.
End Admin.

(** * The whole machine *)

Record init_state (D P V Mem L : Type) : Type := mkInit {
  in_nvme : nvme_state D;
  in_pci : pci_state P V;
  in_irq : irq_state Mem;
  in_lapic : L
}.
Arguments mkInit {D P V Mem L}. Arguments in_nvme {D P V Mem L}. Arguments in_pci {D P V Mem L}.
Arguments in_irq {D P V Mem L}. Arguments in_lapic {D P V Mem L}.

Section Init.
Context (lay : kernel_layout) (fuel : nat).
Context {D P V Mem L : Type} `{!NvmeIo D, !PciPorts P, !RegionAllocator V, !KernelMemory Mem, !LapicIo L}.
Abbreviation state := (init_state D P V Mem L).
Implicit Types s : state.

Definition on_nvme {A} : M (nvme_state D) A → M state A :=
  zoom in_nvme (λ x s, mkInit x (in_pci s) (in_irq s) (in_lapic s)).
Definition on_pci {A} : M (pci_state P V) A → M state A :=
  zoom in_pci (λ x s, mkInit (in_nvme s) x (in_irq s) (in_lapic s)).
Definition on_irq {A} : M (irq_state Mem) A → M state A :=
  zoom in_irq (λ x s, mkInit (in_nvme s) (in_pci s) x (in_lapic s)).
Definition on_lapic {A} : M (lapic_state L) A → M state A :=
  zoom (λ s, mkLa (in_lapic s) (sc_percpu (ir_sched (in_irq s)))) (λ x s, mkInit (in_nvme s) (in_pci s) (in_irq s) (la_hw x)).

Definition nvme_pci_enable (dev : option pci_device_t) : M state unit :=
  let! cmd := on_pci (pci_cfg_read16 dev 0x04) in
  on_pci (pci_cfg_write16 dev 0x04 (u16 (Z.lor cmd (Z.lor PCI_CMD_BUS_MASTER PCI_CMD_MEM_SPACE)))).

Definition nvme_setup_msix (dev : option pci_device_t) (vector : Z) : M state bool :=
  let! cap := on_pci (pci_find_capability dev NVME_MSIX_CAP_ID) in
  match cap with
  | None => ret false
  | Some cap_off =>
      let! ctrl := on_pci (pci_cfg_read16 dev (u8 (cap_off + 0x2))) in
      let table_size := u16 (Z.land ctrl 0x7FF + 1) in
      if table_size <=? NVME_MSIX_TABLE_ENTRY then ret false
      else
        let! table_info := on_pci (pci_cfg_read32 dev (u8 (cap_off + 0x4))) in
        let bir := u8 (Z.land table_info 0x7) in
        let table_off := Z.land table_info (lnotw 32 0x7) in
        match nvme_get_bar_phys dev bir with
        | None => ret false
        | Some bar_phys =>
            let table := pmm_phys_to_virt lay (u64 (bar_phys + table_off)) in
            let entry := u64 (table + 4 * (NVME_MSIX_TABLE_ENTRY * 4)) in
            let ctrl := u16 (Z.lor ctrl (Z.shiftl 1 14)) in
            on_pci (pci_cfg_write16 dev (u8 (cap_off + 0x2)) ctrl);;
            let! me := on_lapic (x86_lapic_id lay) in
            let msg_addr := Z.lor 0xFEE00000 (u64 (Z.shiftl me 12)) in
            on_nvme (hw_do (hw_write32 entry (u32 (Z.land msg_addr 0xFFFFFFFF))));;
            on_nvme (hw_do (hw_write32 (u64 (entry + 4)) (u32 (Z.shiftr msg_addr 32))));;
            on_nvme (hw_do (hw_write32 (u64 (entry + 8)) vector));;
            on_nvme (hw_do (hw_write32 (u64 (entry + 12)) 0));;
            let ctrl := u16 (Z.lor ctrl (Z.shiftl 1 15)) in
            let ctrl := u16 (Z.land ctrl (lnotw 32 (Z.shiftl 1 14))) in
            on_pci (pci_cfg_write16 dev (u8 (cap_off + 0x2)) ctrl);;
            on_nvme (update_ctrl (λ c, with_msix (msix_enabled c) NVME_MSIX_TABLE_ENTRY c));;
            ret true
        end
  end.

Definition reg32 (b off : Z) : M state Z := on_nvme (hw_get (hw_read32 (u64 (b + off)))).
Definition set_reg32 (b off v : Z) : M state unit := on_nvme (hw_do (hw_write32 (u64 (b + off)) v)).
Definition set_reg64 (b off v : Z) : M state unit := on_nvme (hw_do (hw_write64 (u64 (b + off)) v)).

(** ** The steps of [nvme_init], in order *)

(** Steps 6 to 11: [false] for each [return false]. *)
Definition init_admin_queues (b to admin_depth : Z) : M state bool :=
  let! cc := reg32 b BAR_CC in
  (if negb (Z.land cc NVME_CC_EN =? 0) then
     let! cc := reg32 b BAR_CC in
     set_reg32 b BAR_CC (Z.land cc (lnotw 32 NVME_CC_EN))
   else ret tt);;
  let! r := on_nvme (nvme_poll (u64 (b + BAR_CSTS)) NVME_CSTS_RDY 0 (u32 (to * 500000))) in
  if r <? 0 then ret false
  else
    let! asq_virt := on_nvme (alloc_page lay) in
    let! acq_virt := on_nvme (alloc_page lay) in
    if (asq_virt =? 0) || (acq_virt =? 0) then ret false
    else
      on_nvme (hw_do (mem_zero asq_virt PMM_PAGE_SIZE));;
      on_nvme (hw_do (mem_zero acq_virt PMM_PAGE_SIZE));;
      let asq_p := pmm_virt_to_phys lay asq_virt in
      let acq_p := pmm_virt_to_phys lay acq_virt in
      on_nvme (update_ctrl (λ c, with_admin (mkAdmin asq_virt acq_virt asq_p acq_p (admin_q_depth (admin c)) 0 0 1) c));;
      let aqa := Z.lor (u32 (Z.shiftl (u32 (admin_depth - 1)) 16)) (u32 (admin_depth - 1)) in
      set_reg32 b BAR_AQA aqa;;
      set_reg64 b BAR_ASQ asq_p;;
      set_reg64 b BAR_ACQ acq_p;;
      set_reg32 b BAR_CC (Z.lor (Z.lor (Z.lor (Z.lor (Z.lor NVME_CC_CSS_NVM NVME_CC_MPS_4K) NVME_CC_AMS_RR) NVME_CC_IOSQES)
                                  NVME_CC_IOCQES) NVME_CC_EN);;
      let! r := on_nvme (nvme_poll (u64 (b + BAR_CSTS)) NVME_CSTS_RDY NVME_CSTS_RDY (u32 (to * 500000))) in
      if r <? 0 then ret false
      else
        let! csts := reg32 b BAR_CSTS in
        ret (Z.land csts NVME_CSTS_CFS =? 0).

Definition init_msix (dev : option pci_device_t) : M state unit :=
  let! irq_ok := on_irq (irq_register_handler NVME_MSIX_VECTOR (Some nvme_irq_handler)) in
  let! on := (if irq_ok then nvme_setup_msix dev NVME_MSIX_VECTOR else ret false) in
  if on then on_nvme (update_ctrl (λ c, with_msix true (msix_vector c) c))
  else
    (if irq_ok then on_irq (irq_unregister_handler NVME_MSIX_VECTOR) else ret tt);;
    on_nvme (update_ctrl (λ c, with_msix false (msix_vector c) c)).

Definition init_io_depth (mqes : Z) : Z :=
  let io_depth := NVME_IO_QUEUE_DEPTH in
  let max_hw := u16 (mqes + 1) in
  let max_sq := u16 (PMM_PAGE_SIZE / SQE_BYTES) in
  let max_cq := u16 (PMM_PAGE_SIZE / CQE_BYTES) in
  let io_depth := if io_depth >? max_hw then max_hw else io_depth in
  let io_depth := if io_depth >? max_sq then max_sq else io_depth in
  if io_depth >? max_cq then max_cq else io_depth.

Definition init_io_queues (mqes : Z) : M state bool :=
  let io_depth := init_io_depth mqes in
  if io_depth <? 2 then ret false
  else
    on_nvme (update_ctrl (λ c, with_io (set_io_depth io_depth (io c)) c));;
    let! iosq_virt := on_nvme (alloc_page lay) in
    let! iocq_virt := on_nvme (alloc_page lay) in
    if (iosq_virt =? 0) || (iocq_virt =? 0) then ret false
    else
      on_nvme (hw_do (mem_zero iosq_virt PMM_PAGE_SIZE));;
      on_nvme (hw_do (mem_zero iocq_virt PMM_PAGE_SIZE));;
      on_nvme (update_ctrl (λ c, with_io (mkIo iosq_virt iocq_virt (pmm_virt_to_phys lay iosq_virt) (pmm_virt_to_phys lay iocq_virt)
                                            (io_q_depth (io c)) 0 0 0 1) c));;
      on_nvme (modify (set_cmds (replicate (Z.to_nat NVME_IO_QUEUE_DEPTH) (mkCmd 0 0 0 0))));;
      let! s := get in
      let c := g_nvme (in_nvme s) in
      let! ok := on_nvme (nvme_create_io_cq fuel NVME_IO_QUEUE_ID io_depth (msix_enabled c) (msix_vector c)) in
      if negb ok then ret false
      else
        let! ok := on_nvme (nvme_create_io_sq fuel NVME_IO_QUEUE_ID io_depth NVME_IO_QUEUE_ID) in
        if negb ok then ret false
        else
          on_nvme (update_ctrl (with_ready true));;
          ret true.

Definition nvme_init : M state bool :=
  on_nvme (update_ctrl (λ _, zero_ctrl));;
  let! dev := on_pci (pci_find_by_class NVME_CLASS NVME_SUBCLASS) in
  match dev with
  | None => ret false
  | Some _ =>
      match nvme_get_bar_phys dev 0 with
      | None => ret false
      | Some phys =>
          nvme_pci_enable dev;;
          let b := pmm_phys_to_virt lay phys in
          on_nvme (update_ctrl (λ c, with_bar b (doorbell_stride c) c));;
          let! cap := on_nvme (hw_get (hw_read64 (u64 (b + BAR_CAP)))) in
          let mqes := NVME_CAP_MQES cap in
          let dstrd := NVME_CAP_DSTRD cap in
          let to := NVME_CAP_TO cap in
          let css := NVME_CAP_CSS cap in
          let mpsmin := NVME_CAP_MPSMIN cap in
          on_nvme (update_ctrl (λ c, with_bar (bar c) (u32 (Z.shiftl 4 dstrd)) c));;
          if Z.land css 0x1 =? 0 then ret false
          else if mpsmin >? 0 then ret false
          else
            let admin_depth := nvme_calc_depth NVME_ADMIN_QUEUE_DEPTH mqes SQE_BYTES in
            if admin_depth =? 0 then ret false
            else
              on_nvme (update_ctrl (λ c, with_admin (set_admin_depth admin_depth (admin c)) c));;
              let! ok := init_admin_queues b to admin_depth in
              if negb ok then ret false
              else
                let! ok := on_nvme (nvme_identify_controller lay fuel cap) in
                if negb ok then ret false
                else
                  let! ok := on_nvme (nvme_identify_namespace lay fuel NVME_NAMESPACE_ID) in
                  if negb ok then ret false
                  else
                    init_msix dev;;
                    init_io_queues mqes
      end
  end.
End Init.
