(* ===== verification/NvmeAdmin.v ===== *)
(** Administrative commands of the NVMe driver against a controller that answers them:
    the registers that start it, the pair of administrative queues, and the commands
    it has been given.

    [adm] is what the controller's side comes to; the laws of class [NvmeAdmin] say how
    the driver's accesses act on it.  The driver has one command at a time with the
    controller, which answers within [looks] looks at the completion queue. *)

From S2P Require Import Prelude Boot Frames Pmm Nvme NvmeSpec NvmeFlight NvmeTransfer NvmeInit.

(** * The controller *)

Inductive adm_phase : Type :=
  | AIdle
  | AWorking (n : nat)          (* a command announced: at most [n] looks more *)
  | APosted (e : nvme_cqe_t).   (* its completion is in the queue, not yet taken *)

Record adm : Type := mkAdm {
  a_en : bool;                  (* CC.EN *)
  a_rdy : bool;                 (* CSTS.RDY *)
  a_aqa : Z; a_asq : Z; a_acq : Z;
  a_slots : nat → nvme_sqe_t;
  a_log : list nvme_sqe_t;      (* commands announced, in order *)
  a_taken : nat;                (* completions given back by the head doorbell *)
  a_phase : adm_phase
}.

Definition adm_set_rdy (r : bool) (a : adm) : adm :=
  mkAdm (a_en a) r (a_aqa a) (a_asq a) (a_acq a) (a_slots a) (a_log a) (a_taken a) (a_phase a).
Definition adm_stop (a : adm) : adm :=
  mkAdm false (a_rdy a) (a_aqa a) (a_asq a) (a_acq a) (a_slots a) (a_log a) (a_taken a) (a_phase a).
Definition adm_start (a : adm) : adm := mkAdm true false (a_aqa a) (a_asq a) (a_acq a) (a_slots a) [] 0 AIdle.
Definition adm_set_regs (aqa asq acq : Z) (a : adm) : adm :=
  mkAdm (a_en a) (a_rdy a) aqa asq acq (a_slots a) (a_log a) (a_taken a) (a_phase a).
Definition adm_set_slot (i : nat) (e : nvme_sqe_t) (a : adm) : adm :=
  mkAdm (a_en a) (a_rdy a) (a_aqa a) (a_asq a) (a_acq a) (λ j, if bool_decide (j = i) then e else a_slots a j)
    (a_log a) (a_taken a) (a_phase a).
Definition adm_set_phase (p : adm_phase) (a : adm) : adm :=
  mkAdm (a_en a) (a_rdy a) (a_aqa a) (a_asq a) (a_acq a) (a_slots a) (a_log a) (a_taken a) p.
Definition adm_announce (e : nvme_sqe_t) (n : nat) (a : adm) : adm :=
  mkAdm (a_en a) (a_rdy a) (a_aqa a) (a_asq a) (a_acq a) (a_slots a) (a_log a ++ [e]) (a_taken a) (AWorking n).
Definition adm_take (a : adm) : adm :=
  mkAdm (a_en a) (a_rdy a) (a_aqa a) (a_asq a) (a_acq a) (a_slots a) (a_log a) (S (a_taken a)) AIdle.

(** The sizes of the queues in the register, each one less than the queue's. *)
Definition adm_sqn (a : adm) : nat := Z.to_nat (a_aqa a mod 2 ^ 12 + 1).
Definition adm_cqn (a : adm) : nat := Z.to_nat (a_aqa a / 2 ^ 16 mod 2 ^ 12 + 1).
Definition adm_on (a : adm) : Prop := a_en a = true ∧ a_rdy a = true.

(** The doorbells are 4 bytes times a power of two apart. *)
Definition cap_stride (cap : Z) : Z := u32 (Z.shiftl 4 (NVME_CAP_DSTRD cap)).

Class NvmeAdmin (D : Type) `{!NvmeIo D} (lay : kernel_layout) (b cap : Z) (looks : nat) : Type := {
  ad : D → adm;
  al_cap d : let r := hw_read64 (u64 (b + BAR_CAP)) d in r.1 = cap ∧ ad r.2 = ad d;
  al_cc d : let r := hw_read32 (u64 (b + BAR_CC)) d in ad r.2 = ad d ∧ Z.testbit r.1 0 = a_en (ad d) ∧ in_width 32 r.1;
  (** Ready follows enable, when the controller sees fit. *)
  al_csts d : let r := hw_read32 (u64 (b + BAR_CSTS)) d in
    ∃ rdy, ad r.2 = adm_set_rdy rdy (ad d) ∧ Z.testbit r.1 0 = rdy ∧ (rdy = a_rdy (ad d) ∨ rdy = a_en (ad d));
  al_disable d v : in_width 32 v → Z.testbit v 0 = false → ad (hw_write32 (u64 (b + BAR_CC)) v d) = adm_stop (ad d);
  al_enable d v : a_en (ad d) = false → a_rdy (ad d) = false → in_width 32 v → Z.testbit v 0 = true →
    ad (hw_write32 (u64 (b + BAR_CC)) v d) = adm_start (ad d);
  al_aqa d v : a_en (ad d) = false → in_width 32 v →
    ad (hw_write32 (u64 (b + BAR_AQA)) v d) = adm_set_regs v (a_asq (ad d)) (a_acq (ad d)) (ad d);
  al_asq d v : a_en (ad d) = false → in_width 64 v →
    ad (hw_write64 (u64 (b + BAR_ASQ)) v d) = adm_set_regs (a_aqa (ad d)) v (a_acq (ad d)) (ad d);
  al_acq d v : a_en (ad d) = false → in_width 64 v →
    ad (hw_write64 (u64 (b + BAR_ACQ)) v d) = adm_set_regs (a_aqa (ad d)) (a_asq (ad d)) v (ad d);
  al_store d i e : adm_on (ad d) → (i < adm_sqn (ad d))%nat →
    ad (mem_store_sqe (u64 (pmm_phys_to_virt lay (a_asq (ad d)) + SQE_BYTES * Z.of_nat i)) e d) = adm_set_slot i e (ad d);
  al_sq_bell d : adm_on (ad d) → a_phase (ad d) = AIdle →
    ∃ n, (n ≤ looks)%nat ∧
      ad (hw_write32 (nvme_sq_tdbl b NVME_ADMIN_QUEUE_ID (cap_stride cap)) (Z.of_nat (S (a_taken (ad d)) `mod` adm_sqn (ad d))) d) =
      adm_announce (a_slots (ad d) (a_taken (ad d) `mod` adm_sqn (ad d))%nat) n (ad d);
  (** The completion appears with the phase tag of its round and the identifier of
      the command. *)
  al_look d n : adm_on (ad d) → a_phase (ad d) = AWorking n →
    let r := mem_load_cqe (u64 (pmm_phys_to_virt lay (a_acq (ad d)) + CQE_BYTES * Z.of_nat (a_taken (ad d) `mod` adm_cqn (ad d)))) d in
    (Z.land (cqe_status r.1) 1 ≠ phase_of (adm_cqn (ad d)) (a_taken (ad d)) ∧
       ∃ m, (m < n)%nat ∧ ad r.2 = adm_set_phase (AWorking m) (ad d)) ∨
    (Z.land (cqe_status r.1) 1 = phase_of (adm_cqn (ad d)) (a_taken (ad d)) ∧
       (∀ c, last (sqe_cid <$> a_log (ad d)) = Some c → cqe_cid r.1 = c) ∧ ad r.2 = adm_set_phase (APosted r.1) (ad d));
  al_again d e : adm_on (ad d) → a_phase (ad d) = APosted e →
    let r := mem_load_cqe (u64 (pmm_phys_to_virt lay (a_acq (ad d)) + CQE_BYTES * Z.of_nat (a_taken (ad d) `mod` adm_cqn (ad d)))) d in
    r.1 = e ∧ ad r.2 = ad d;
  al_cq_bell d e : adm_on (ad d) → a_phase (ad d) = APosted e →
    ad (hw_write32 (nvme_cq_hdbl b NVME_ADMIN_QUEUE_ID (cap_stride cap)) (Z.of_nat (S (a_taken (ad d)) `mod` adm_cqn (ad d))) d) =
    adm_take (ad d);
  (** What is not the controller's business. *)
  al_load8 d a : let r := mem_load8 a d in ad r.2 = ad d ∧ in_width 8 r.1;
  al_zero d a n : a_en (ad d) = false ∨
      (a + n ≤ pmm_phys_to_virt lay (a_asq (ad d)) ∨ pmm_phys_to_virt lay (a_asq (ad d)) + 4096 ≤ a) ∧
      (a + n ≤ pmm_phys_to_virt lay (a_acq (ad d)) ∨ pmm_phys_to_virt lay (a_acq (ad d)) + 4096 ≤ a) →
    ad (mem_zero a n d) = ad d;
  al_elsewhere d a v : (∀ i, 0 ≤ i < 0x1000 + 4 * cap_stride cap → a ≠ u64 (b + i)) → ad (hw_write32 a v d) = ad d
}.

Section Spec.
Context {lay : kernel_layout} (Hlay : hhdm_ok lay) {D : Type} `{!NvmeIo D} {b cap : Z} {looks : nat} {NA : NvmeAdmin D lay b cap looks}.
Implicit Types (s : nvme_state D) (l : list nvme_sqe_t).
Abbreviation adv s := (ad (NvmeAdmin := NA) (nv_hw s)).
Abbreviation hh := (g_hhdm_offset lay).

(** The driver and the controller agree: [n] commands so far, [l] in all. *)
Record admin_up (fs fc : Z) (depth n : nat) l s : Prop := {
  au_depth : (2 ≤ depth ≤ 64)%nat;
  au_bar : bar (g_nvme s) = b ∧ b ≠ 0 ∧ doorbell_stride (g_nvme s) = cap_stride cap;
  au_frames : 0 ≤ fs < 2 ^ 52 ∧ 0 ≤ fc < 2 ^ 52;
  au_driver : admin (g_nvme s) = mkAdmin (fs + hh) (fc + hh) fs fc (Z.of_nat depth)
    (Z.of_nat (n `mod` depth)) (Z.of_nat (n `mod` depth)) (phase_of depth n);
  au_cid : next_admin_cid (g_nvme s) = Z.of_nat n ∧ (n < 100)%nat;
  au_lock : admin_lock (g_nvme s) = false;
  au_on : adm_on (adv s);
  au_regs : adm_sqn (adv s) = depth ∧ adm_cqn (adv s) = depth ∧ a_asq (adv s) = fs ∧ a_acq (adv s) = fc;
  au_taken : a_taken (adv s) = n ∧ a_phase (adv s) = AIdle ∧ a_log (adv s) = l
}.

(** The state after command number [n]. *)
Definition admin_after (depth n : nat) (d : D) s : nvme_state D :=
  let g := g_nvme s in let a := admin g in
  mkNvme d (nv_pmm s)
    (with_cids (Z.of_nat (S n)) (next_io_cid g)
      (with_admin (mkAdmin (asq a) (acq a) (asq_phys a) (acq_phys a) (Z.of_nat depth) (Z.of_nat (S n `mod` depth))
        (Z.of_nat (S n `mod` depth)) (phase_of depth (S n))) g)) (g_io_cmd_state s).

Lemma run_hw_get {A} E (f : D → A * D) (Q : A → nvme_state D → Prop) s :
  Q (f (nv_hw s)).1 (set_nv_hw (f (nv_hw s)).2 s) → run E (hw_get f) Q s.
Proof. done. Qed.

Lemma run_hw_do E (f : D → D) (Q : unit → nvme_state D → Prop) s :
  Q tt (set_nv_hw (f (nv_hw s)) s) → run E (hw_do f) Q s.
Proof. done. Qed.

Lemma run_update E f (Q : unit → nvme_state D → Prop) s : Q tt (set_ctrl (f (g_nvme s)) s) → run E (update_ctrl f) Q s.
Proof. done. Qed.

(** The loop that waits for the completion, [s] the state when the command was announced. *)
Lemma admin_wait_spec E fs fc depth n k cid fuel s (Q : nvme_cqe_t → nvme_state D → Prop) :
  (2 ≤ depth ≤ 64)%nat → bar (g_nvme s) = b → doorbell_stride (g_nvme s) = cap_stride cap → 0 ≤ fc < 2 ^ 52 →
  acq (admin (g_nvme s)) = fc + hh → admin_q_depth (admin (g_nvme s)) = Z.of_nat depth →
  acq_head (admin (g_nvme s)) = Z.of_nat (n `mod` depth) → acq_phase (admin (g_nvme s)) = phase_of depth n →
  adm_on (adv s) → adm_cqn (adv s) = depth → a_acq (adv s) = fc → a_taken (adv s) = n → a_asq (adv s) = fs →
  last (sqe_cid <$> a_log (adv s)) = Some cid → a_phase (adv s) = AWorking k → (k < fuel)%nat →
  (∀ e d, cqe_cid e = cid → ad (NvmeAdmin := NA) d = adm_take (adv s) →
    Q e (set_ctrl (with_admin (set_acq_head (Z.of_nat (S n `mod` depth)) (phase_of depth (S n)) (admin (g_nvme s))) (g_nvme s)) (set_nv_hw d s))) →
  run E (admin_wait fuel) Q s.
Proof.
  revert s k. induction fuel as [|fuel IH]; intros s k Hd Hbar Hstr Hfc Hcq Hqd Hhead Hph Hon Hcn Hac Htk Has Hlast Hk Hlt HQ; [lia|].
  cbn [admin_wait]. run_step. run_step. cbv zeta. rewrite Hcq, Hhead, Hph.
  pose proof (al_look (NvmeAdmin := NA) (nv_hw s) k Hon Hk) as Hlook. rewrite Hac, Hcn, Htk, (phys_virt _ Hlay) in Hlook by done.
  set (r := mem_load_cqe _ (nv_hw s)) in Hlook.
  run_step. apply run_hw_get. cbn [fst snd]. fold r. destruct Hlook as [(Hne & m & Hm & Had)|(Heq & Hcid & Had)].
  - rewrite (proj2 (Z.eqb_neq _ _)) by done. cbn [negb]. apply (IH _ m); cbn [g_nvme nv_hw set_nv_hw]; rewrite ?Had; try done. lia.
  - rewrite Heq, Z.eqb_refl. cbn [negb]. run_step. apply run_hw_get. cbn [nv_hw set_nv_hw].
    pose proof (al_again (NvmeAdmin := NA) r.2 r.1) as Hag. rewrite Had in Hag. cbn [adm_set_phase a_phase a_taken a_acq] in Hag.
    change (adm_cqn (adm_set_phase _ _)) with (adm_cqn (adv s)) in Hag. rewrite Hac, Hcn, Htk, (phys_virt _ Hlay) in Hag by done.
    destruct (Hag Hon eq_refl) as [Hr1 Hr2]. set (r2 := mem_load_cqe _ r.2) in *.
    run_step. apply run_update. cbn [g_nvme set_nv_hw]. rewrite Hhead, Hqd, Hph. destruct (next_head n Hd) as [-> Hn].
    assert ((if Z.of_nat (S (n `mod` depth)) =? Z.of_nat depth
      then with_admin (set_acq_head 0 (Z.lxor (phase_of depth n) 1) (admin (g_nvme s))) (g_nvme s)
      else with_admin (set_acq_head (Z.of_nat (S (n `mod` depth))) (phase_of depth n) (admin (g_nvme s))) (g_nvme s)) =
      with_admin (set_acq_head (Z.of_nat (S n `mod` depth)) (phase_of depth (S n)) (admin (g_nvme s))) (g_nvme s)) as ->.
    { destruct (Nat.eqb_spec (S (n `mod` depth)) depth) as [He|He]; destruct Hn as [-> ->].
      - rewrite He, Z.eqb_refl, lxor_phase by lia. done.
      - destruct (Z.eqb_spec (Z.of_nat (S (n `mod` depth))) (Z.of_nat depth)); [lia|done]. }
    run_step. run_step. run_step. apply run_hw_do. cbn [nv_hw g_nvme set_nv_hw set_ctrl with_admin bar doorbell_stride admin set_acq_head acq_head].
    rewrite Hbar, Hstr. run_step. rewrite Hr1.
    pose proof (al_cq_bell (NvmeAdmin := NA) r2.2 r.1) as Hb. rewrite Hr2 in Hb. cbn [adm_set_phase a_phase a_taken] in Hb.
    change (adm_cqn (adm_set_phase _ _)) with (adm_cqn (adv s)) in Hb. rewrite Hcn, Htk in Hb. specialize (Hb Hon eq_refl).
    apply (HQ r.1 (hw_write32 (nvme_cq_hdbl b NVME_ADMIN_QUEUE_ID (cap_stride cap)) (Z.of_nat (S n `mod` depth)) r2.2)); [by apply Hcid|done].
Qed.

(** One command: the controller is given it with the next identifier, the driver takes
    its completion, both are ready for the next. *)
Lemma admin_cmd_spec E fs fc depth n l fuel cmd s :
  admin_up fs fc depth n l s → in_width 16 (cdw0 cmd) → (looks < fuel)%nat → (n < 99)%nat →
  run E (nvme_admin_cmd fuel cmd) (λ _ s',
    admin_up fs fc depth (S n) (l ++ [tag_cid (Z.of_nat n) cmd]) s' ∧ ∃ d, s' = admin_after depth n d s) s.
Proof.
  intros [Hd (Hbar & Hb0 & Hstr) [Hfs Hfc] Hdrv [Hcid _] Hlock Hon (Hsn & Hcn & Hsq & Hcq) (Htk & Hidle & Hlog)] Hcdw Hfuel Hn.
  destruct Hlay as (Hhh & _ & _). unfold nvme_admin_cmd. run_step. run_step. rewrite Hbar, Hdrv. cbn [asq acq].
  destruct (Z.eqb_spec b 0); [done|]. destruct (Z.eqb_spec (fs + hh) 0); [lia|]. destruct (Z.eqb_spec (fc + hh) 0); [lia|]. cbn [orb].
  run_step. unfold lock_admin. apply run_acquire; [done|]. set (s1 := set_ctrl _ s).
  run_step. run_step. cbv zeta. run_step. apply run_update. run_step. apply run_hw_do. cbn [nv_hw set_ctrl s1 g_nvme with_locks next_admin_cid admin].
  rewrite Hdrv, Hcid. cbn [asq asq_tail].
  pose proof (al_store (NvmeAdmin := NA) (nv_hw s) (n `mod` depth)%nat (tag_cid (Z.of_nat n) cmd) Hon) as Hst.
  rewrite Hsn, Hsq, (phys_virt _ Hlay) in Hst by done. specialize (Hst ltac:(apply Nat.mod_upper_bound; lia)).
  set (d1 := mem_store_sqe _ _ (nv_hw s)) in *.
  run_step. apply run_update. run_step. run_step. run_step. apply run_hw_do.
  cbn [g_nvme nv_hw set_nv_hw set_ctrl with_admin with_cids with_locks bar doorbell_stride admin set_asq_tail asq_tail admin_q_depth].
  rewrite Hbar, Hstr, Hdrv. cbn [admin_q_depth]. rewrite next_tail by done.
  destruct (al_sq_bell (NvmeAdmin := NA) d1) as (k & Hk & Hbell); [by rewrite Hst|by rewrite Hst|].
  rewrite Hst in Hbell. cbn [adm_set_slot a_taken a_slots] in Hbell. change (adm_sqn (adm_set_slot _ _ _)) with (adm_sqn (adv s)) in Hbell.
  rewrite Htk, Hsn, bool_decide_eq_true_2 in Hbell by done. set (d2 := hw_write32 _ _ d1) in *.
  run_step. apply (admin_wait_spec _ fs fc depth n k (Z.of_nat n)); cbn [g_nvme nv_hw set_nv_hw set_ctrl with_admin with_cids with_locks bar
    doorbell_stride admin set_asq_tail acq admin_q_depth acq_head acq_phase]; rewrite ?Hbell, ?Hdrv; try done; [|lia|].
  { cbn [adm_announce a_log adm_set_slot]. rewrite fmap_app, last_app. cbn. f_equal. apply tag_cid_id; [done|]. unfold in_width. lia. }
  intros e d He Hd'. run_step. unfold unlock_admin. apply run_release. rewrite He, Z.eqb_refl. cbn [negb]. run_step. split.
  - split; cbn [g_nvme nv_hw set_nv_hw set_ctrl with_admin with_cids with_locks bar doorbell_stride admin set_asq_tail set_acq_head
      next_admin_cid admin_lock asq acq asq_phys acq_phys admin_q_depth asq_tail acq_head acq_phase]; rewrite ?Hd', ?Hbell; try done.
    + split; [|lia]. rewrite wrap_small by (unfold in_width; lia). lia.
    + cbn [adm_take adm_announce adm_set_slot a_taken a_phase a_log]. by rewrite Htk, Hlog.
  - exists d. unfold admin_after. rewrite Hdrv. unfold set_ctrl, set_nv_hw, s1. cbn. rewrite ?Hdrv. cbn.
    rewrite wrap_small by (unfold in_width; lia). replace (Z.of_nat n + 1) with (Z.of_nat (S n)) by lia.
    unfold with_locks, with_admin, with_cids. cbn. by rewrite Hlock.
Qed.
End Spec.
