(* ===== verification/NvmeInitSpec.v ===== *)
(** Bring-up of the NVMe controller: the commands it is given, the memory it is given,
    and the state in which the driver is left. *)

From S2P Require Import Prelude Boot Frames Pmm Vmalloc VmallocSpec Kmalloc KernMem Percpu Sched Irq Lapic Pci PciSpec PciEnum Nvme NvmeSpec NvmeFlight NvmeTransfer NvmeInit NvmeAdmin.

Section Identify.
Context {lay : kernel_layout} (Hlay : hhdm_ok lay) {D : Type} `{!NvmeIo D} {b cap : Z} {looks : nat} {NA : NvmeAdmin D lay b cap looks}.
Implicit Types (s : nvme_state D) (l : list nvme_sqe_t) (p : pmm_state).
Abbreviation adv s := (ad (NvmeAdmin := NA) (nv_hw s)).
Abbreviation hh := (g_hhdm_offset lay).
Abbreviation admin_up := (admin_up (lay := lay) (NA := NA)).

(** A frame that is the driver's. *)
Definition owned p (f : Z) : Prop := frame_managed p f ∧ ¬ frame_free p f.

Definition same_frames p p' : Prop :=
  frames_inv p' ∧ (∀ q, frame_managed p' q ↔ frame_managed p q) ∧ ∀ q, frame_free p' q ↔ frame_free p q.

(** What administrative commands leave of the driver's state. *)
Definition kept_io s s' : Prop :=
  io (g_nvme s') = io (g_nvme s) ∧ msix_enabled (g_nvme s') = msix_enabled (g_nvme s) ∧ msix_vector (g_nvme s') = msix_vector (g_nvme s) ∧
  ready (g_nvme s') = ready (g_nvme s) ∧ next_io_cid (g_nvme s') = next_io_cid (g_nvme s) ∧ io_lock (g_nvme s') = io_lock (g_nvme s) ∧
  g_io_cmd_state s' = g_io_cmd_state s.

Lemma kept_io_trans s1 s2 s3 : kept_io s1 s2 → kept_io s2 s3 → kept_io s1 s3.
Proof. unfold kept_io. intros (?&?&?&?&?&?&?) (?&?&?&?&?&?&?). split_and!; congruence. Qed.

(** [admin_up] reads the controller's view and these fields. *)
Lemma admin_up_ext fs fc depth n l s s' :
  admin_up fs fc depth n l s → adv s' = adv s → bar (g_nvme s') = bar (g_nvme s) → doorbell_stride (g_nvme s') = doorbell_stride (g_nvme s) →
  admin (g_nvme s') = admin (g_nvme s) → next_admin_cid (g_nvme s') = next_admin_cid (g_nvme s) →
  admin_lock (g_nvme s') = admin_lock (g_nvme s) → admin_up fs fc depth n l s'.
Proof. intros [H1 H2 H3 H4 H5 H6 H7 H8 H9] E1 E2 E3 E4 E5 E6. split; rewrite ?E1, ?E2, ?E3, ?E4, ?E5, ?E6; done. Qed.

Lemma frames_apart f g : f mod 4096 = 0 → g mod 4096 = 0 → f ≠ g → f + hh + 4096 ≤ g + hh ∨ g + hh + 4096 ≤ f + hh.
Proof. intros. dlia. Qed.

Lemma owned_frame p f : frames_inv p → owned p f → f mod 4096 = 0 ∧ 0 ≤ f < 2 ^ 52.
Proof. intros Hp [Hm _]. by apply (frame_managed_aligned p). Qed.

Lemma run_alloc E s (Q : Z → nvme_state D → Prop) :
  frames_inv (nv_pmm s) →
  (∀ p, same_frames (nv_pmm s) p → Q 0 (set_nv_pmm p s)) →
  (∀ p f, frames_inv p → (∀ q, frame_managed p q ↔ frame_managed (nv_pmm s) q) → (∀ q, frame_free p q ↔ frame_free (nv_pmm s) q ∧ q ≠ f) →
    frame_free (nv_pmm s) f → frame_managed p f → f mod 4096 = 0 → 0 ≤ f < 2 ^ 52 → Q (f + hh) (set_nv_pmm p s)) →
  run E (alloc_page lay) Q s.
Proof.
  intros Hp H0 H1. unfold alloc_page. apply run_zoom. eapply run_weaken; [by apply (alloc_page_spec _ Hlay)|done|].
  intros a p (Hi & Hm & [(-> & Hf & _)|(f & -> & Ha & Hr & Hfree & Hman & Hf)]); [by apply H0|].
  apply H1; try done. by apply Hm.
Qed.

Lemma run_free E s f (Q : unit → nvme_state D → Prop) :
  frames_inv (nv_pmm s) → frame_managed (nv_pmm s) f →
  (∀ p, frames_inv p → (∀ q, frame_managed p q ↔ frame_managed (nv_pmm s) q) → (∀ q, frame_free p q ↔ frame_free (nv_pmm s) q ∨ q = f) →
    Q tt (set_nv_pmm p s)) →
  run E (free_page lay (f + hh)) Q s.
Proof.
  intros Hp Hm HQ. unfold free_page. apply run_zoom. destruct Hlay as (? & ? & ?). unfold pmm_free_page.
  destruct (frame_managed_aligned _ _ Hp Hm) as [Ha Hr]. destruct (Z.eqb_spec (f + hh) 0); [lia|].
  rewrite (virt_phys _ Hlay) by lia. replace (f + hh - hh) with f by lia.
  eapply run_weaken; [exact (free_frame_spec _ f Hp Hm)|done|]. intros [] p' (? & ? & ?). by apply HQ.
Qed.

(** A page for the answer is taken and cleared, the command given; [k] reads it. *)
Lemma run_identify E fs fc depth n l fuel mk (k : Z → bool → M (nvme_state D) bool) s (Q : bool → nvme_state D → Prop) :
  admin_up fs fc depth n l s → frames_inv (nv_pmm s) → owned (nv_pmm s) fs → owned (nv_pmm s) fc →
  (∀ q, in_width 16 (cdw0 (mk q))) → (looks < fuel)%nat → (n < 99)%nat →
  (∀ p, same_frames (nv_pmm s) p → Q false (set_nv_pmm p s)) →
  (∀ f ok s', admin_up fs fc depth (S n) (l ++ [tag_cid (Z.of_nat n) (mk f)]) s' → kept_io s s' →
    frames_inv (nv_pmm s') → (∀ q, frame_managed (nv_pmm s') q ↔ frame_managed (nv_pmm s) q) → frame_managed (nv_pmm s') f →
    frame_free (nv_pmm s) f → (∀ q, frame_free (nv_pmm s') q ↔ frame_free (nv_pmm s) q ∧ q ≠ f) → run E (k (f + hh) ok) Q s') →
  run E (let! id_buf := alloc_page lay in
         if id_buf =? 0 then ret false
         else hw_do (mem_zero id_buf PMM_PAGE_SIZE);;
              let! ok := nvme_admin_cmd fuel (mk (pmm_virt_to_phys lay id_buf)) in k id_buf ok) Q s.
Proof.
  intros Hup Hp Hfs Hfc Hmk Hfuel Hn H0 Hk. pose proof Hlay as (Hhh & _ & ?). run_step. apply run_alloc; [done|by intros; apply H0|].
  intros p f Hi Hman Hfree Hff Hfm Ha Hr. destruct (Z.eqb_spec (f + hh) 0); [lia|]. run_step. apply run_hw_do.
  destruct (owned_frame _ _ Hp Hfs) as [As Rs]. destruct (owned_frame _ _ Hp Hfc) as [Ac Rc].
  assert (ad (NvmeAdmin := NA) (mem_zero (f + hh) PMM_PAGE_SIZE (nv_hw s)) = adv s) as Hz.
  { pose proof Hup as [_ _ _ _ _ _ _ (_ & _ & E1 & E2) _]. apply (al_zero (NvmeAdmin := NA)). right. rewrite E1, E2, !(phys_virt _ Hlay) by done.
    change PMM_PAGE_SIZE with 4096. split; apply frames_apart; try done; intros ->; [by apply Hfs|by apply Hfc]. }
  run_step. rewrite (virt_phys _ Hlay) by lia. replace (f + hh - hh) with f by lia.
  eapply run_weaken; [apply (admin_cmd_spec Hlay _ fs fc depth n l); [by eapply admin_up_ext|apply Hmk|done|done]|done|].
  intros ok s' [Hup' [d ->]]. apply (Hk f ok); try done.
Qed.

(** Reading the answer. *)
Lemma run_id_byte E a s (Q : Z → nvme_state D → Prop) :
  (∀ v d, in_width 8 v → ad (NvmeAdmin := NA) d = adv s → Q v (set_nv_hw d s)) → run E (id_byte a) Q s.
Proof. intros HQ. destruct (al_load8 (NvmeAdmin := NA) (nv_hw s) (u64 a)) as [H1 H2]. apply run_hw_get. by apply HQ. Qed.

(** The end of an identify command that answered. *)
Definition identified fs fc depth n l (mk : Z → nvme_sqe_t) s (ok : bool) s' : Prop :=
  frames_inv (nv_pmm s') ∧ ready (g_nvme s') = ready (g_nvme s) ∧
  if ok then ∃ f, admin_up fs fc depth (S n) (l ++ [tag_cid (Z.of_nat n) (mk f)]) s' ∧ kept_io s s' ∧ same_frames (nv_pmm s) (nv_pmm s') else True.

Lemma free_answer E fs fc depth n l mk s s1 f ok :
  admin_up fs fc depth (S n) (l ++ [tag_cid (Z.of_nat n) (mk f)]) s1 → kept_io s s1 →
  frames_inv (nv_pmm s1) → (∀ q, frame_managed (nv_pmm s1) q ↔ frame_managed (nv_pmm s) q) → frame_managed (nv_pmm s1) f →
  frame_free (nv_pmm s) f → (∀ q, frame_free (nv_pmm s1) q ↔ frame_free (nv_pmm s) q ∧ q ≠ f) →
  run E (free_page lay (f + hh);; ret ok) (λ ok' s', identified fs fc depth n l mk s ok' s' ∧ ok' = ok ∧ g_nvme s' = g_nvme s1) s1.
Proof.
  intros Hup Hk Hi Hm Hf Hff Hfree. run_step. apply run_free; [done..|]. intros p Hp Hm' Hfree'. run_step.
  split; [|done]. split; [done|]. split; [apply Hk|]. destruct ok; [|done]. exists f. split; [by eapply admin_up_ext|]. split; [done|].
  split; [done|]. split; intros q; [cbn [nv_pmm set_nv_pmm]; rewrite Hm'; apply Hm|]. cbn [nv_pmm set_nv_pmm]. rewrite Hfree', Hfree. destruct (decide (q = f)) as [->|]; tauto.
Qed.

Lemma identify_controller_spec E fs fc depth n l fuel s :
  admin_up fs fc depth n l s → frames_inv (nv_pmm s) → owned (nv_pmm s) fs → owned (nv_pmm s) fc → (looks < fuel)%nat → (n < 99)%nat →
  run E (nvme_identify_controller lay fuel cap) (identified fs fc depth n l (λ f, identify_cmd 0 f 1) s) s.
Proof.
  intros Hup Hp Hfs Hfc Hfuel Hn. unfold nvme_identify_controller.
  apply (run_identify _ fs fc depth n l fuel (λ q, identify_cmd 0 q 1)); try done; [by intros p (? & ? & ?)|].
  intros f ok s1 Hup1 Hk Hi Hm Hfm Hff Hfree. destruct ok; cbn [negb].
  2: { eapply run_mono; [by apply (free_answer _ fs fc depth n l (λ q, identify_cmd 0 q 1) s)|]. by intros ? ? [? _]. }
  run_step. apply run_id_byte. intros mdts d1 _ Hd1. run_step. apply run_id_byte. intros ct d2 _ Hd2. cbv zeta.
  assert (∀ v, run E (update_ctrl (λ c, with_limits v (lba_size c) (lba_shift c) c);;
    (if negb (ct =? 0) && negb (ct =? 1) then free_page lay (f + hh);; ret false else free_page lay (f + hh);; ret true))
    (identified fs fc depth n l (λ f0, identify_cmd 0 f0 1) s) (set_nv_hw d2 (set_nv_hw d1 s1))) as Hend.
  { intros v. run_step. apply run_update. destruct (negb _ && _); (eapply run_mono; [apply (free_answer _ fs fc depth n l (λ q, identify_cmd 0 q 1) s); try done|by intros ? ? [? _]]);
      (eapply admin_up_ext; [exact Hup1|cbn; by rewrite Hd2|done..]). }
  destruct (mdts =? 0); apply Hend.
Qed.

Lemma identify_namespace_spec E fs fc depth n l fuel ns s :
  admin_up fs fc depth n l s → frames_inv (nv_pmm s) → owned (nv_pmm s) fs → owned (nv_pmm s) fc → (looks < fuel)%nat → (n < 99)%nat →
  run E (nvme_identify_namespace lay fuel ns) (λ ok s', identified fs fc depth n l (λ f, identify_cmd ns f 0) s ok s' ∧
    (ok = true → ∃ k, 0 ≤ k < 32 ∧ lba_size (g_nvme s') = 2 ^ k)) s.
Proof.
  intros Hup Hp Hfs Hfc Hfuel Hn. unfold nvme_identify_namespace.
  apply (run_identify _ fs fc depth n l fuel (λ q, identify_cmd ns q 0)); try done; [by intros p (? & ? & ?)|].
  intros f ok s1 Hup1 Hk Hi Hm Hfm Hff Hfree. destruct ok; cbn [negb].
  2: { eapply run_mono; [by apply (free_answer _ fs fc depth n l (λ q, identify_cmd ns q 0) s)|]. intros ? ? (? & -> & _). done. }
  run_step. unfold nvme_le64. do 8 (run_step; apply run_id_byte; intros ? ? _ ?). run_step.
  match goal with |- run _ (if ?c then _ else _) _ _ => destruct c end.
  { eapply run_mono; [apply (free_answer _ fs fc depth n l (λ q, identify_cmd ns q 0) s); try done|].
    - eapply admin_up_ext; [exact Hup1|cbn in *; congruence|done..].
    - intros ? ? (? & -> & _). done. }
  do 2 (run_step; apply run_id_byte; intros ? ? _ ?). cbv zeta. run_step. apply run_id_byte. intros lbads dl _ Hdl.
  run_step. apply run_update. eapply run_mono; [apply (free_answer _ fs fc depth n l (λ q, identify_cmd ns q 0) s); try done|].
  - eapply admin_up_ext; [exact Hup1|cbn in *; congruence|done..].
  - intros ? s' (? & -> & ->). split; [done|]. intros _. exists (lbads mod 32). pose proof (Z.mod_pos_bound lbads 32 ltac:(lia)).
    split; [lia|]. cbn [g_nvme set_ctrl lba_size with_limits]. apply Z.shiftl_1_l.
Qed.
End Identify.

(** * The administrative queues *)

Section Init.
Context {lay : kernel_layout} (Hlay : hhdm_ok lay).
Context {D P V Mem L : Type} `{!NvmeIo D, !PciPorts P, !PciBus P, !RegionAllocator V, !KernelMemory Mem, !LapicIo L}.
Context {b cap : Z} {looks : nat} {NA : NvmeAdmin D lay b cap looks}.
Abbreviation state := (init_state D P V Mem L).
Implicit Types (s : state) (x : nvme_state D).
Abbreviation adv x := (ad (NvmeAdmin := NA) (nv_hw x)).
Abbreviation hh := (g_hhdm_offset lay).
Abbreviation admin_up := (admin_up (lay := lay) (NA := NA)).
Abbreviation pm s := (nv_pmm (in_nvme s)).
Abbreviation ctl s := (g_nvme (in_nvme s)).

Definition set_in_nvme x s : state := mkInit x (in_pci s) (in_irq s) (in_lapic s).

Lemma run_on_nvme {A} E (m : M (nvme_state D) A) (Q : A → state → Prop) s :
  run E m (λ a x, Q a (set_in_nvme x s)) (in_nvme s) → run E (on_nvme m) Q s.
Proof. apply run_zoom. Qed.

(** Waiting for the ready bit: when it comes to an end, the bit was seen. *)
Lemma poll_ready_spec E (want : bool) iters x :
  run E (nvme_poll (u64 (b + BAR_CSTS)) NVME_CSTS_RDY (Z.b2z want) iters) (λ r x',
    ∃ d rdy, x' = set_nv_hw d x ∧ ad (NvmeAdmin := NA) d = adm_set_rdy rdy (adv x) ∧ (r <? 0 = false → rdy = want)) x.
Proof.
  unfold nvme_poll. run_step.
  apply (run_for_loop _ _ _ _ _ (λ _ x', ∃ d rdy, x' = set_nv_hw d x ∧ ad (NvmeAdmin := NA) d = adm_set_rdy rdy (adv x))).
  - exists (nv_hw x), (a_rdy (adv x)). split; [by destruct x|]. by destruct (adv x).
  - intros j x1 _ (d & rdy & -> & Hd). run_step. apply run_hw_get. run_step. cbn [nv_hw set_nv_hw].
    destruct (al_csts (NvmeAdmin := NA) d) as (r & Hr & Hbit & _). set (rd := hw_read32 _ d) in *. rewrite Hd in Hr.
    change NVME_CSTS_RDY with (2 ^ 1 - 1). rewrite land_ones_mod by lia. change (2 ^ 1) with 2. rewrite <- Z.bit0_mod, Hbit.
    destruct (Z.eqb_spec (Z.b2z r) (Z.b2z want)) as [He|He]; cbn beta iota.
    + run_step. exists rd.2, r. split; [done|]. split; [done|]. intros _. by destruct r, want.
    + by exists rd.2, r.
  - intros x1 (d & rdy & -> & Hd). cbn beta iota. run_step. exists d, rdy. split; [done|]. split; [done|]. discriminate.
Qed.

(** The register with the two sizes. *)
Lemma aqa_sizes (depth : nat) a :
  (2 ≤ depth ≤ 64)%nat →
  a_aqa a = Z.lor (u32 (Z.shiftl (u32 (Z.of_nat depth - 1)) 16)) (u32 (Z.of_nat depth - 1)) →
  in_width 32 (a_aqa a) ∧ adm_sqn a = depth ∧ adm_cqn a = depth.
Proof.
  intros Hd Ha. rewrite (wrap_small 32 (Z.of_nat depth - 1)) in Ha by (unfold in_width; lia).
  rewrite (wrap_small 32 (Z.shiftl _ _)) in Ha by (rewrite Z.shiftl_mul_pow2 by lia; unfold in_width; lia).
  rewrite Z.lor_comm, lor_shiftl_add in Ha by (unfold in_width; lia). unfold adm_sqn, adm_cqn, in_width. rewrite Ha.
  split_and!; dlia.
Qed.

(** The end of a step that may have failed. *)
Definition step_ok (s : state) (ok : bool) (good : state → Prop) s' : Prop :=
  frames_inv (pm s') ∧ ready (ctl s') = false ∧ (ok = true → good s').

Definition admin_ready (depth : nat) s s' : Prop :=
  ∃ fs fc, s' = set_in_nvme (in_nvme s') s ∧ admin_up fs fc depth 0 [] (in_nvme s') ∧ kept_io (in_nvme s) (in_nvme s') ∧
    fs ≠ fc ∧ frame_free (pm s) fs ∧ frame_free (pm s) fc ∧ frame_managed (pm s') fs ∧ frame_managed (pm s') fc ∧
    ∀ q, frame_free (pm s') q ↔ frame_free (pm s) q ∧ q ≠ fs ∧ q ≠ fc.

Lemma reset_spec E s (Q : unit → state → Prop) :
  (∀ d, ad (NvmeAdmin := NA) d = adv (in_nvme s) ∨ ad (NvmeAdmin := NA) d = adm_stop (adv (in_nvme s)) →
    a_en (ad (NvmeAdmin := NA) d) = false → Q tt (set_in_nvme (set_nv_hw d (in_nvme s)) s)) →
  run E (let! cc := reg32 b BAR_CC in
         if negb (Z.land cc NVME_CC_EN =? 0) then let! cc := reg32 b BAR_CC in set_reg32 b BAR_CC (Z.land cc (lnotw 32 NVME_CC_EN)) else ret tt) Q s.
Proof.
  intros HQ. unfold reg32, set_reg32. run_step. apply run_on_nvme, run_hw_get.
  destruct (al_cc (NvmeAdmin := NA) (nv_hw (in_nvme s))) as (Ha & Hb & _). set (r := hw_read32 _ _) in *.
  change NVME_CC_EN with (2 ^ 0). rewrite land_pow2_testbit, Hb by lia. destruct (a_en (adv (in_nvme s))) eqn:Hen; cbn [negb].
  - run_step. apply run_on_nvme, run_hw_get. cbn [nv_hw in_nvme set_in_nvme set_nv_hw].
    destruct (al_cc (NvmeAdmin := NA) r.2) as (Ha2 & _ & Hw). set (r2 := hw_read32 _ r.2) in *. apply run_on_nvme, run_hw_do.
    cbn [nv_hw in_nvme set_in_nvme set_nv_hw].
    assert (ad (NvmeAdmin := NA) (hw_write32 (u64 (b + BAR_CC)) (Z.land r2.1 (lnotw 32 (2 ^ 0))) r2.2) = adm_stop (adv (in_nvme s))) as Hd.
    { rewrite (al_disable (NvmeAdmin := NA)); [by rewrite Ha2, Ha|by apply land_range|]. rewrite Z.land_spec.
      change (Z.testbit (lnotw 32 (2 ^ 0)) 0) with false. apply andb_false_r. }
    apply (HQ (hw_write32 (u64 (b + BAR_CC)) (Z.land r2.1 (lnotw 32 (2 ^ 0))) r2.2)); [by right|by rewrite Hd].
  - run_step. apply (HQ r.2); [by left|by rewrite Ha].
Qed.

(** The driver before its administrative queues are there. *)
Definition fresh_driver (depth : nat) s : Prop :=
  bar (ctl s) = b ∧ b ≠ 0 ∧ doorbell_stride (ctl s) = cap_stride cap ∧ admin_q_depth (admin (ctl s)) = Z.of_nat depth ∧
  next_admin_cid (ctl s) = 0 ∧ admin_lock (ctl s) = false ∧ ready (ctl s) = false ∧ (2 ≤ depth ≤ 64)%nat.

(** The controller's view when it has been started with these queues. *)
Definition started_with (depth : nat) (fs fc : Z) (rdy : bool) (a : adm) : Prop :=
  a_en a = true ∧ a_rdy a = rdy ∧ adm_sqn a = depth ∧ adm_cqn a = depth ∧ a_asq a = fs ∧ a_acq a = fc ∧
  a_taken a = 0%nat ∧ a_phase a = AIdle ∧ a_log a = [].

(** The registers are set and the controller is switched on; it has been off. *)
Lemma start_writes depth fs fc (d : D) :
  (2 ≤ depth ≤ 64)%nat → 0 ≤ fs < 2 ^ 52 → 0 ≤ fc < 2 ^ 52 → a_en (ad (NvmeAdmin := NA) d) = false → a_rdy (ad (NvmeAdmin := NA) d) = false →
  started_with depth fs fc false (ad (NvmeAdmin := NA)
    (hw_write32 (u64 (b + BAR_CC)) (Z.lor (Z.lor (Z.lor (Z.lor (Z.lor NVME_CC_CSS_NVM NVME_CC_MPS_4K) NVME_CC_AMS_RR) NVME_CC_IOSQES)
           NVME_CC_IOCQES) NVME_CC_EN)
      (hw_write64 (u64 (b + BAR_ACQ)) fc (hw_write64 (u64 (b + BAR_ASQ)) fs
        (hw_write32 (u64 (b + BAR_AQA)) (Z.lor (u32 (Z.shiftl (u32 (Z.of_nat depth - 1)) 16)) (u32 (Z.of_nat depth - 1))) d))))).
Proof.
  intros Hd Hfs Hfc Hen Hrdy. set (v := Z.lor (u32 _) _).
  destruct (aqa_sizes depth (mkAdm true false v fs fc (λ _, zero_sqe) [] 0 AIdle) Hd eq_refl) as (Hv & Hs & Hc). cbn [a_aqa] in Hv.
  pose proof (al_aqa (NvmeAdmin := NA) d v Hen Hv) as A1. set (d1 := hw_write32 _ v _) in *.
  assert (a_en (ad (NvmeAdmin := NA) d1) = false) as E1 by (by rewrite A1).
  assert (in_width 64 fs ∧ in_width 64 fc) as [Ws Wc] by (unfold in_width; lia).
  pose proof (al_asq (NvmeAdmin := NA) d1 fs E1 Ws) as A2. set (d2 := hw_write64 _ fs d1) in *.
  assert (a_en (ad (NvmeAdmin := NA) d2) = false) as E2 by (by rewrite A2, A1).
  pose proof (al_acq (NvmeAdmin := NA) d2 fc E2 Wc) as A3. set (d3 := hw_write64 _ fc d2) in *.
  set (cc := Z.lor _ NVME_CC_EN). pose proof (al_enable (NvmeAdmin := NA) d3 cc) as A4. set (d4 := hw_write32 _ cc d3) in *.
  rewrite A3, A2, A1 in A4. specialize (A4 Hen Hrdy ltac:(by vm_compute) ltac:(by vm_compute)).
  rewrite A4. cbn. split_and!; done.
Qed.

Lemma run_after {S A B C} E (m : M S A) (k : A → M S B) (h : B → M S C) (Q : C → S → Prop) (t : S) :
  run E (bind m k) (λ c t', run E (h c) Q t') t → run E (bind m (λ a, bind (k a) h)) Q t.
Proof. unfold run, bind. destruct (m t) as [[a t']| | |]; [|done..]. by destruct (k a t') as [[? ?]| | |]. Qed.

Lemma admin_queues_spec E depth to s :
  frames_inv (pm s) → fresh_driver depth s →
  run E (init_admin_queues lay b to (Z.of_nat depth)) (λ ok s', step_ok s ok (admin_ready depth s) s') s.
Proof.
  intros Hp (Hbar & Hb0 & Hstr & Hqd & Hcid & Hlock & Hrdy & Hd). pose proof Hlay as (Hhh & _ & ?). unfold init_admin_queues.
  apply run_after. apply reset_spec. intros d1 _ Hen. run_step. apply run_on_nvme. eapply run_mono; [apply (poll_ready_spec _ false)|].
  intros r x2 (d2 & rdy & -> & Hd2 & Hr). cbn [in_nvme set_in_nvme nv_hw set_nv_hw] in Hd2.
  destruct (r <? 0) eqn:Hlt; [run_step; done|]. specialize (Hr eq_refl). subst rdy.
  run_step. apply run_on_nvme. apply (run_alloc Hlay); [done| |].
  { intros p1 (Hi1 & Hm1 & Hf1). run_step. apply run_on_nvme. apply (run_alloc Hlay); [done|by intros p2 (? & _)|by intros p2 f2 ?]. }
  intros p1 fs Hi1 Hm1 Hf1 Hff1 Hfm1 Ha1 Hr1. run_step. apply run_on_nvme. apply (run_alloc Hlay); [done| |].
  { intros p2 (? & _). rewrite orb_true_r. run_step. done. }
  cbn [nv_pmm in_nvme set_in_nvme set_nv_hw set_nv_pmm]. intros p2 fc Hi2 Hm2 Hf2 Hff2 Hfm2 Ha2 Hr2. destruct (Z.eqb_spec (fs + hh) 0); [lia|]. destruct (Z.eqb_spec (fc + hh) 0); [lia|]. cbn [orb].
  run_step. apply run_on_nvme, run_hw_do. run_step. apply run_on_nvme, run_hw_do. cbn [in_nvme set_in_nvme nv_hw set_nv_hw set_nv_pmm].
  set (d3 := mem_zero _ _ (mem_zero _ _ d2)).
  assert (ad (NvmeAdmin := NA) d3 = ad (NvmeAdmin := NA) d2) as Hd3.
  { assert (a_en (ad (NvmeAdmin := NA) d2) = false) as E2 by (by rewrite Hd2). unfold d3.
    rewrite !(al_zero (NvmeAdmin := NA)); [done|by left|]. left. rewrite (al_zero (NvmeAdmin := NA)); [done|by left]. }
  cbv zeta. rewrite !(virt_phys _ Hlay) by lia. replace (fs + hh - hh) with fs by lia. replace (fc + hh - hh) with fc by lia.
  run_step. apply run_on_nvme, run_update. unfold set_reg32, set_reg64.
  do 4 (run_step; apply run_on_nvme, run_hw_do). cbn [in_nvme set_in_nvme nv_hw set_nv_hw set_nv_pmm set_ctrl].
  pose proof (start_writes depth fs fc d3 Hd Hr1 Hr2) as Hst. rewrite Hd3, Hd2 in Hst. specialize (Hst Hen eq_refl).
  set (d4 := hw_write32 _ _ (hw_write64 _ _ _)) in *. run_step. apply run_on_nvme.
  eapply run_mono; [apply (poll_ready_spec _ true)|]. intros r2 x5 (d5 & rdy & -> & Hd5 & Hrd). cbn [in_nvme set_in_nvme nv_hw set_nv_hw] in Hd5.
  destruct (r2 <? 0); [run_step; done|]. specialize (Hrd eq_refl). subst rdy.
  run_step. unfold reg32. apply run_on_nvme, run_hw_get. run_step. cbn [in_nvme set_in_nvme nv_hw set_nv_hw].
  destruct (al_csts (NvmeAdmin := NA) d5) as (rdy & Hd6 & _ & Hrdy6). set (rd := hw_read32 _ d5) in *.
  destruct Hst as (S1 & S2 & S3 & S4 & S5 & S6 & S7 & S8 & S9).
  assert (rdy = true) as -> by (destruct Hrdy6 as [-> | ->]; rewrite Hd5; [done|apply S1]).
  split; [done|]. split; [done|]. intros _. exists fs, fc. split; [done|]. cbn [in_nvme set_in_nvme].
  split; [|split; [done|split; [|split; [done|split; [|split; [by apply Hm2|split; [done|]]]]]]].
  - split; cbn [g_nvme nv_hw set_nv_hw set_ctrl set_nv_pmm with_admin bar doorbell_stride admin next_admin_cid admin_lock]; rewrite ?Hd6, ?Hd5; try done.
    + rewrite Hqd, Nat.Div0.mod_0_l. unfold phase_of. by rewrite Nat.Div0.div_0_l.
    + split; [done|lia].
  - intros ->. by apply Hf1 in Hff2 as [_ ?].
  - by apply Hf1 in Hff2 as [? _].
  - intros q. cbn [nv_pmm set_nv_hw set_ctrl set_nv_pmm]. rewrite Hf2. cbn [nv_pmm set_nv_hw set_nv_pmm]. rewrite Hf1. cbn. tauto.
Qed.

(** ** The PCI function and its interrupt *)

Abbreviation cfg_of s := (pci_cfg (pci_hw (in_pci s))).

(** Configuration space but for one double word of the function. *)
Definition cfg_but (dv : pci_device_t) (off : Z) (cfg cfg' : Z → Z) : Prop :=
  ∀ a, a ≠ pci_address (bus dv) (device dv) (function dv) off → cfg' a = cfg a.

Lemma write16_any E dv off v (t : pci_state P V) (Q : unit → pci_state P V → Prop) :
  on_bus dv → in_width 8 off → in_width 16 v →
  (∀ h, cfg_but dv off (pci_cfg (pci_hw t)) (pci_cfg h) → Q tt (set_pci_hw h t)) →
  run E (pci_cfg_write16 (Some dv) off v) Q t.
Proof.
  intros Hb Ho Hv HQ. cbn [pci_cfg_write16]. run_step. apply run_pci_read32; [done..|]. intros h Hh. cbv zeta.
  apply run_pci_write32; [done..| |].
  - apply lor_range; [lia|apply land_range; [lia|apply pci_cfg_range]|apply wrap_range; lia].
  - intros h' Hh'. apply HQ. intros a Ha. rewrite Hh', bool_decide_eq_false_2 by done. cbn [pci_hw set_pci_hw]. by rewrite Hh.
Qed.

(** The capabilities are where they belong, and the interrupt table one of them
    names is not among the controller's registers. *)
Definition msix_ok (cfg : Z → Z) (dv : pci_device_t) : Prop :=
  ∀ q, cap_on_list cfg dv q → q mod 4 = 0 ∧
    (cfg_byte cfg (bus dv) (device dv) (function dv) q = NVME_MSIX_CAP_ID →
     let info := cfg (pci_address (bus dv) (device dv) (function dv) (u8 (q + 4))) in
     ∀ phys, nvme_get_bar_phys (Some dv) (u8 (Z.land info 0x7)) = Some phys →
       ∀ k i, k ∈ [0; 4; 8; 12] → 0 ≤ i < 0x1000 + 4 * cap_stride cap →
         u64 (pmm_phys_to_virt lay (u64 (phys + Z.land info (lnotw 32 0x7))) + k) ≠ u64 (b + i)).

Lemma cap_list_range cfg dv q : cap_on_list cfg dv q → 0x40 ≤ q < 256.
Proof.
  intros H. assert (in_width 8 q ∧ 0x40 ≤ q) as [Hq ?] by (destruct H; (split; [apply cfg_byte_range|done])). unfold in_width in Hq. lia.
Qed.

Lemma cfg_but_addr cfg cfg' dv i :
  on_bus dv → cfg_but dv 4 cfg cfg' → in_width 8 i → i / 4 ≠ 1 →
  cfg' (pci_address (bus dv) (device dv) (function dv) i) = cfg (pci_address (bus dv) (device dv) (function dv) i).
Proof. intros Hb Hc Hi Hne. apply Hc. intros (_ & _ & _ & He)%pci_address_inj; try done. Qed.

Lemma msix_ok_but cfg cfg' dv : on_bus dv → cfg_but dv 4 cfg cfg' → msix_ok cfg dv → msix_ok cfg' dv.
Proof.
  intros Hb Hc Hok. assert (∀ i, in_width 8 i → i / 4 ≠ 1 →
    cfg_byte cfg' (bus dv) (device dv) (function dv) i = cfg_byte cfg (bus dv) (device dv) (function dv) i) as Hbyte.
  { intros i Hi Hne. unfold cfg_byte. by rewrite (cfg_but_addr cfg cfg'). }
  assert (∀ q, cap_on_list cfg' dv q → cap_on_list cfg dv q) as Hlist.
  { induction 1 as [H|q Hq IH H].
    - rewrite Hbyte in H |- * by done. by apply cap_first.
    - pose proof (cap_list_range _ _ _ IH). destruct (Hok _ IH) as [Ha _].
      assert (in_width 8 (q + 1) ∧ (q + 1) / 4 ≠ 1) as [??] by (unfold in_width; dlia).
      rewrite Hbyte in H |- * by done. by apply cap_more. }
  intros q Hq%Hlist. pose proof (cap_list_range _ _ _ Hq). destruct (Hok _ Hq) as [Ha Ht]. split; [done|].
  rewrite Hbyte by (unfold in_width; dlia). rewrite (cfg_but_addr cfg cfg'); [exact Ht|done|done|apply wrap_range; lia|].
  unfold wrap. change (2 ^ 8) with 256. dlia.
Qed.

Lemma lapic_id_returns E (t : lapic_state L) (Q : Z → lapic_state L → Prop) :
  (∀ v la, Q v (set_la_hw la t)) → run E (x86_lapic_id lay) Q t.
Proof.
  intros HQ. unfold x86_lapic_id, run, bind, rdmsr_u64, read_u32, ret. cbn. destruct (negb _); cbn; apply HQ.
Qed.

Lemma with_msix_same (c : nvme_ctrl_t) : with_msix (msix_enabled c) (msix_vector c) c = c.
Proof. by destruct c. Qed.

(** The controller does not notice, and the driver's state stays. *)
Lemma setup_msix_spec E dv vec s :
  on_bus dv → msix_ok (cfg_of s) dv → msix_vector (ctl s) = 0 →
  run E (nvme_setup_msix lay (Some dv) vec) (λ _ s', ∃ d, in_nvme s' = set_nv_hw d (in_nvme s) ∧
    ad (NvmeAdmin := NA) d = adv (in_nvme s) ∧ in_irq s' = in_irq s) s.
Proof.
  intros Hb Hok Hvec. unfold nvme_setup_msix. assert (in_nvme s = set_nv_hw (nv_hw (in_nvme s)) (in_nvme s)) as Hsame by (by destruct (in_nvme s)).
  run_step. apply run_zoom. eapply run_weaken; [apply pci_find_capability_spec; [done|by apply Hok]|done|].
  intros [q|] t [[Ht Hcfg] Hfind]; [|run_step; by exists (nv_hw (in_nvme s))]. destruct Hfind as (_ & Hq & Hid).
  destruct (Hok _ Hq) as [Ha Htab]. specialize (Htab Hid). cbv zeta in Htab. pose proof (cap_list_range _ _ _ Hq).
  assert (u8 (q + 0x2) = q + 2) as Hq2 by (apply wrap_small; unfold in_width; dlia).
  run_step. apply run_zoom. cbn [pci_cfg_read16 in_pci]. rewrite Hq2. apply run_pci_read16; [done|unfold in_width; dlia|dlia|]. intros h1 Hh1.
  set (ctrl := cfg_word _ _ _ _ _).
  match goal with |- run _ (if ?c then _ else _) _ _ => destruct c end; [run_step; by exists (nv_hw (in_nvme s))|].
  run_step. apply run_zoom. cbn [pci_cfg_read32 in_pci]. apply run_pci_read32; [done|apply wrap_range; lia|]. intros h2 Hh2.
  cbn [pci_hw set_pci_hw]. rewrite Hh1, Hcfg. cbv zeta. set (info := cfg_of s _) in *.
  destruct (nvme_get_bar_phys (Some dv) (u8 (Z.land info 0x7))) as [phys|]; [|run_step; by exists (nv_hw (in_nvme s))].
  specialize (Htab phys eq_refl). set (table := pmm_phys_to_virt lay _) in *.
  run_step. apply run_zoom. apply write16_any; [done|unfold in_width; dlia|apply wrap_range; lia|]. intros h3 _.
  run_step. apply run_zoom. apply lapic_id_returns. intros me la.
  do 4 (run_step; apply run_on_nvme; apply run_hw_do). run_step. apply run_zoom. apply write16_any; [done|unfold in_width; dlia|apply wrap_range; lia|].
  intros h4 _. run_step. apply run_on_nvme. unfold update_ctrl. apply run_modify. run_step.
  cbn [in_nvme nv_hw set_nv_hw g_nvme set_ctrl in_irq set_in_nvme].
  pose proof (with_msix_same (ctl s)) as Hms. rewrite Hvec in Hms.
  change (with_msix (msix_enabled (ctl s)) NVME_MSIX_TABLE_ENTRY (ctl s)) with (with_msix (msix_enabled (ctl s)) 0 (ctl s)). rewrite Hms.
  change (table + 4 * (NVME_MSIX_TABLE_ENTRY * 4)) with (table + 0).
  match goal with |- context [set_ctrl _ (set_nv_hw ?d4 _)] => exists d4 end. split; [done|]. split; [|done].
  assert (∀ k, u64 (u64 (table + 0) + k) = u64 (table + k)) as Hk by (intros k; unfold wrap; rewrite Z.add_0_r; by rewrite Zplus_mod_idemp_l).
  rewrite !Hk. rewrite !(al_elsewhere (NvmeAdmin := NA)); [done|intros i Hi; apply Htab; [set_solver|done]..].
Qed.

Lemma init_msix_spec E dv s :
  on_bus dv → msix_ok (cfg_of s) dv → msix_vector (ctl s) = 0 →
  run E (init_msix lay (Some dv)) (λ _ s', ∃ d (on : bool), in_nvme s' = set_ctrl (with_msix on 0 (ctl s)) (set_nv_hw d (in_nvme s)) ∧
    ad (NvmeAdmin := NA) d = adv (in_nvme s) ∧
    g_irq_handlers (in_irq s') = <[Z.to_nat NVME_MSIX_VECTOR := if on then Some nvme_irq_handler else None]> (g_irq_handlers (in_irq s))) s.
Proof.
  intros Hb Hok Hvec. unfold init_msix. run_step. apply run_zoom. unfold irq_register_handler.
  rewrite bool_decide_eq_false_2 by done. change (NVME_MSIX_VECTOR <? 32) with false. cbn [orb]. run_step. apply run_modify. run_step.
  run_step. eapply run_mono; [by apply setup_msix_spec|]. cbn [in_nvme in_irq].
  intros on s1 (d & Hn & Hd & Hi). destruct on.
  - apply run_on_nvme, run_update. exists d, true. cbn [in_nvme set_in_nvme in_irq]. rewrite Hn, Hi. cbn [g_nvme set_nv_hw]. rewrite Hvec. done.
  - run_step. apply run_zoom. unfold irq_unregister_handler. change (NVME_MSIX_VECTOR <? 32) with false. apply run_modify.
    apply run_on_nvme, run_update. exists d, false. cbn [in_nvme set_in_nvme in_irq]. rewrite Hn, Hi. cbn [g_nvme set_nv_hw g_irq_handlers set_handlers].
    rewrite Hvec. split; [done|]. split; [done|]. by rewrite list_insert_insert_eq.
Qed.

(** ** The pair of queues for reading and writing *)

Lemma io_depth_bounds mqes : in_width 16 mqes → init_io_depth mqes <? 2 = false → 2 ≤ init_io_depth mqes ≤ Z.min 64 (mqes + 1).
Proof.
  intros Hm. unfold init_io_depth. change (u16 (PMM_PAGE_SIZE / SQE_BYTES)) with 64. change (u16 (PMM_PAGE_SIZE / CQE_BYTES)) with 256.
  unfold NVME_IO_QUEUE_DEPTH. unfold in_width in Hm. change (2 ^ 16) with 65536 in Hm. cbv zeta. rewrite !Z.gtb_ltb.
  destruct (decide (mqes = 65535)) as [->|]; [by vm_compute|].
  rewrite wrap_small by (unfold in_width; change (2 ^ 16) with 65536; lia).
  destruct (Z.ltb_spec (mqes + 1) 64); (match goal with |- context [64 <? ?x] => destruct (Z.ltb_spec 64 x) end); try lia;
    (match goal with |- context [256 <? ?x] => destruct (Z.ltb_spec 256 x) end); try lia; rewrite Z.ltb_ge; lia.
Qed.

(** The queues as they are handed to the controller and to the driver. *)
Definition io_ready (fs fc : Z) (adepth n : nat) (l : list nvme_sqe_t) (mqes : Z) s s' : Prop :=
  ∃ fq fp, let depth := init_io_depth mqes in
    2 ≤ depth ≤ Z.min 64 (mqes + 1) ∧
    io (ctl s') = mkIo (fq + hh) (fp + hh) fq fp depth 0 0 0 1 ∧
    g_io_cmd_state (in_nvme s') = replicate 64 (mkCmd 0 0 0 0) ∧ next_io_cid (ctl s') = next_io_cid (ctl s) ∧
    io_lock (ctl s') = io_lock (ctl s) ∧ msix_enabled (ctl s') = msix_enabled (ctl s) ∧ lba_size (ctl s') = lba_size (ctl s) ∧
    admin_up fs fc adepth (S (S n)) (l ++ [tag_cid (Z.of_nat n) (create_cq_cmd fp NVME_IO_QUEUE_ID depth (msix_enabled (ctl s)) (msix_vector (ctl s)));
      tag_cid (Z.of_nat (S n)) (create_sq_cmd fq NVME_IO_QUEUE_ID depth NVME_IO_QUEUE_ID)]) (in_nvme s') ∧
    fq ≠ fp ∧ frame_free (pm s) fq ∧ frame_free (pm s) fp ∧ (∀ q, frame_free (pm s') q ↔ frame_free (pm s) q ∧ q ≠ fq ∧ q ≠ fp) ∧
    in_irq s' = in_irq s.

Lemma io_queues_spec E fs fc adepth n l fuel mqes s :
  admin_up fs fc adepth n l (in_nvme s) → frames_inv (pm s) → owned (pm s) fs → owned (pm s) fc → (looks < fuel)%nat → (n < 90)%nat →
  ready (ctl s) = false → in_width 16 mqes →
  run E (init_io_queues lay fuel mqes) (λ ok s', frames_inv (pm s') ∧ ready (ctl s') = ok ∧ (ok = true → io_ready fs fc adepth n l mqes s s')) s.
Proof.
  intros Hup Hp Hfs Hfc Hfuel Hn Hrdy Hm. pose proof Hlay as (Hhh & _ & ?). unfold init_io_queues. cbv zeta.
  destruct (init_io_depth mqes <? 2) eqn:Hd; [run_step; done|]. apply io_depth_bounds in Hd; [|done]. set (depth := init_io_depth mqes) in *.
  run_step. apply run_on_nvme, run_update. run_step. apply run_on_nvme. apply (run_alloc Hlay); [done| |].
  { intros p1 (Hi1 & Hm1 & Hf1). run_step. apply run_on_nvme. apply (run_alloc Hlay); [done|by intros p2 (? & _)|by intros p2 f2 ?]. }
  intros p1 fq Hi1 Hm1 Hf1 Hff1 Hfm1 Ha1 Hr1. run_step. apply run_on_nvme. apply (run_alloc Hlay); [done| |].
  { intros p2 (? & _). rewrite orb_true_r. run_step. done. }
  cbn [nv_pmm in_nvme set_in_nvme set_ctrl set_nv_pmm]. intros p2 fp Hi2 Hm2 Hf2 Hff2 Hfm2 Ha2 Hr2.
  destruct (Z.eqb_spec (fq + hh) 0); [lia|]. destruct (Z.eqb_spec (fp + hh) 0); [lia|]. cbn [orb].
  run_step. apply run_on_nvme, run_hw_do. run_step. apply run_on_nvme, run_hw_do. cbn [in_nvme set_in_nvme nv_hw set_nv_hw set_nv_pmm set_ctrl].
  set (d3 := mem_zero _ _ (mem_zero _ _ _)).
  destruct (owned_frame _ _ Hp Hfs) as [As Rs]. destruct (owned_frame _ _ Hp Hfc) as [Ac Rc].
  assert (∀ f d, ad (NvmeAdmin := NA) d = adv (in_nvme s) → frame_free (pm s) f → f mod 4096 = 0 →
    ad (NvmeAdmin := NA) (mem_zero (f + hh) PMM_PAGE_SIZE d) = adv (in_nvme s)) as Hz.
  { intros f d Hd' Hf Ha. rewrite <- Hd'. pose proof Hup as [_ _ _ _ _ _ _ (_ & _ & E1 & E2) _]. apply (al_zero (NvmeAdmin := NA)). right.
    rewrite Hd', E1, E2, !(phys_virt _ Hlay) by done. change PMM_PAGE_SIZE with 4096.
    split; apply frames_apart; try done; intros ->; [by apply Hfs|by apply Hfc]. }
  assert (ad (NvmeAdmin := NA) d3 = adv (in_nvme s)) as Hd3 by (unfold d3; apply Hz; [by apply Hz|by apply Hf1 in Hff2 as [? _]|done]).
  rewrite !(virt_phys _ Hlay) by lia. replace (fq + hh - hh) with fq by lia. replace (fp + hh - hh) with fp by lia.
  run_step. apply run_on_nvme, run_update. run_step. apply run_on_nvme, run_modify. run_step. run_step.
  cbn [in_nvme set_in_nvme nv_hw set_nv_hw set_nv_pmm set_ctrl g_nvme set_cmds with_io msix_enabled msix_vector io io_q_depth set_io_depth].
  run_step. apply run_on_nvme. unfold nvme_create_io_cq. run_step. run_step.
  eapply run_mono; [apply (admin_cmd_spec Hlay _ fs fc adepth n l); [by eapply admin_up_ext|done|done|lia]|].
  cbn [g_nvme io iocq_phys set_ctrl with_io set_cmds]. intros ok x1 [Hup1 [d1 ->]]. destruct ok; cbn [negb]; [|run_step; done].
  run_step. apply run_on_nvme. unfold nvme_create_io_sq. run_step. run_step. cbn [in_nvme set_in_nvme].
  eapply run_mono; [eapply (admin_cmd_spec Hlay _ fs fc adepth (S n)); [exact Hup1|done|done|lia]|].
  intros ok x2 [Hup2 [d2 ->]]. destruct ok; cbn [negb]; [|run_step; done].
  run_step. apply run_on_nvme, run_update. run_step. split; [done|]. split; [done|]. intros _. exists fq, fp. cbv zeta. fold depth.
  cbn [in_nvme set_in_nvme]. split; [done|]. do 6 (split; [done|]). split; [|split; [|split; [done|split; [|split; [|done]]]]].
  - rewrite <- app_assoc in Hup2. by eapply admin_up_ext.
  - intros ->. by apply Hf1 in Hff2 as [_ ?].
  - by apply Hf1 in Hff2 as [? _].
  - intros q. cbn [nv_pmm set_ctrl admin_after set_cmds set_nv_hw set_nv_pmm]. rewrite Hf2, Hf1. tauto.
Qed.

(** ** The whole *)

Definition is_nvme (d : pci_device_t) : bool := (class_code d =? NVME_CLASS) && (subclass d =? NVME_SUBCLASS).

(** The function on the bus is the controller of class [NvmeAdmin]. *)
Definition function_ok (cfg : Z → Z) (ds : list pci_device_t) : Prop :=
  ∀ dv, List.find is_nvme ds = Some dv → on_bus dv ∧ msix_ok cfg dv ∧
    ∀ phys, nvme_get_bar_phys (Some dv) 0 = Some phys → pmm_phys_to_virt lay phys = b ∧ b ≠ 0.

(** The four commands of a bring-up that succeeds, word by word: Identify (opcode 6)
    of the controller and of namespace 1, Create I/O Completion Queue (5) and Create
    I/O Submission Queue (1), both for queue 1 with [depth] entries, physically
    contiguous, the first with interrupts (bit 1) on vector 0 if [irq], the second
    on completion queue 1.  The identifier is in the upper half of the first word;
    sizes are counted from 0. *)
Definition init_commands (f1 f2 fq fp depth : Z) (irq : bool) : list nvme_sqe_t :=
  [mkSqe 0x00000006 0 0 0 f1 0 1 0 0 0 0 0;
   mkSqe 0x00010006 1 0 0 f2 0 0 0 0 0 0 0;
   mkSqe 0x00020005 0 0 0 fp 0 (2 ^ 16 * (depth - 1) + 1) (if irq then 3 else 1) 0 0 0 0;
   mkSqe 0x00030001 0 0 0 fq 0 (2 ^ 16 * (depth - 1) + 1) 0x00010001 0 0 0 0].

Lemma depth_word depth : 2 ≤ depth ≤ 64 → Z.lor (u32 (Z.shiftl (u32 (depth - 1)) 16)) 1 = 2 ^ 16 * (depth - 1) + 1.
Proof.
  intros Hd. rewrite (wrap_small 32 (depth - 1)) by (unfold in_width; lia).
  rewrite (wrap_small 32) by (unfold in_width; rewrite Z.shiftl_mul_pow2; lia).
  rewrite Z.lor_comm, lor_shiftl_add by (done || lia). lia.
Qed.

Lemma init_commands_eq f1 f2 fq fp depth irq : 2 ≤ depth ≤ 64 →
  [tag_cid 0 (identify_cmd 0 f1 1); tag_cid 1 (identify_cmd NVME_NAMESPACE_ID f2 0);
   tag_cid 2 (create_cq_cmd fp NVME_IO_QUEUE_ID depth irq 0); tag_cid 3 (create_sq_cmd fq NVME_IO_QUEUE_ID depth NVME_IO_QUEUE_ID)] =
  init_commands f1 f2 fq fp depth irq.
Proof.
  intros Hd. unfold init_commands, create_cq_cmd, create_sq_cmd, NVME_IO_QUEUE_ID. rewrite depth_word by done.
  by destruct irq.
Qed.

(** The driver can read and write. *)
Definition brought_up s s' : Prop :=
  ∃ fs fc fq fp f1 f2 adepth (k : Z), let depth := init_io_depth (NVME_CAP_MQES cap) in
    2 ≤ depth ≤ Z.min 64 (NVME_CAP_MQES cap + 1) ∧
    bar (ctl s') = b ∧ doorbell_stride (ctl s') = cap_stride cap ∧
    io (ctl s') = mkIo (fq + hh) (fp + hh) fq fp depth 0 0 0 1 ∧ next_io_cid (ctl s') = 0 ∧ io_lock (ctl s') = false ∧
    g_io_cmd_state (in_nvme s') = replicate 64 (mkCmd 0 0 0 0) ∧
    0 ≤ k < 32 ∧ lba_size (ctl s') = 2 ^ k ∧
    admin_up fs fc adepth 4 (init_commands f1 f2 fq fp depth (msix_enabled (ctl s'))) (in_nvme s') ∧
    NoDup [fs; fc; fq; fp] ∧ Forall (frame_free (pm s)) [fs; fc; fq; fp] ∧
    (∀ q, frame_free (pm s') q ↔ frame_free (pm s) q ∧ q ∉ [fs; fc; fq; fp]) ∧
    g_irq_handlers (in_irq s') =
      <[Z.to_nat NVME_MSIX_VECTOR := if msix_enabled (ctl s') then Some nvme_irq_handler else None]> (g_irq_handlers (in_irq s)).

Lemma find_nvme_spec E s addrs ds (Q : option pci_device_t → state → Prop) :
  chain (pci_mem (in_pci s)) (pci_device_list (in_pci s)) addrs ds → (length addrs ≤ size (pci_mem (in_pci s)))%nat →
  Q (List.find is_nvme ds) s → run E (on_pci (pci_find_by_class NVME_CLASS NVME_SUBCLASS)) Q s.
Proof.
  intros Hc Hl HQ. apply run_zoom. unfold pci_find_by_class. run_step. run_step.
  eapply run_weaken; [by eapply (find_node_spec _ is_nvme)|done|]. intros r t [-> ->]. by destruct s.
Qed.

Lemma pci_enable_spec E dv s (Q : unit → state → Prop) :
  on_bus dv → (∀ h, cfg_but dv 4 (cfg_of s) (pci_cfg h) → Q tt (mkInit (in_nvme s) (set_pci_hw h (in_pci s)) (in_irq s) (in_lapic s))) →
  run E (nvme_pci_enable (Some dv)) Q s.
Proof.
  intros Hb HQ. unfold nvme_pci_enable. run_step. apply run_zoom. cbn [pci_cfg_read16]. apply run_pci_read16; [done..|]. intros h Hh.
  apply run_zoom. apply write16_any; [done|done|apply wrap_range; lia|]. intros h' Hh'. cbn [in_pci pci_hw set_pci_hw] in Hh'. rewrite Hh in Hh'.
  apply (HQ h'). exact Hh'.
Qed.

Lemma mqes_range : in_width 16 (NVME_CAP_MQES cap).
Proof. apply wrap_range. lia. Qed.

Lemma nvme_init_spec E s addrs ds fuel :
  frames_inv (pm s) → chain (pci_mem (in_pci s)) (pci_device_list (in_pci s)) addrs ds → (length addrs ≤ size (pci_mem (in_pci s)))%nat →
  function_ok (cfg_of s) ds → (looks < fuel)%nat →
  run E (nvme_init lay fuel) (λ ok s', frames_inv (pm s') ∧ ready (ctl s') = ok ∧ (ok = true → brought_up s s')) s.
Proof.
  intros Hp Hch Hlen Hfun Hfuel. unfold nvme_init. run_step. apply run_on_nvme, run_update.
  run_step. eapply find_nvme_spec; [exact Hch|done|]. destruct (List.find is_nvme ds) as [dv|] eqn:Hfind; [|run_step; done].
  destruct (Hfun dv Hfind) as (Hb & Hmsix & Hbar).
  destruct (nvme_get_bar_phys (Some dv) 0) as [phys|]; [|run_step; done]. destruct (Hbar phys eq_refl) as [Hphys Hb0].
  run_step. apply pci_enable_spec; [done|]. intros h Hh. cbn [in_pci set_in_nvme] in Hh.
  apply (msix_ok_but _ _ _ Hb Hh) in Hmsix. cbv zeta. rewrite Hphys. run_step. apply run_on_nvme, run_update.
  run_step. apply run_on_nvme, run_hw_get. cbn [in_nvme set_in_nvme nv_hw set_ctrl].
  destruct (al_cap (NvmeAdmin := NA) (nv_hw (in_nvme s))) as [-> Hcap]. set (d0 := (hw_read64 _ _).2) in *.
  run_step. apply run_on_nvme, run_update. fold (cap_stride cap).
  destruct (Z.land (NVME_CAP_CSS cap) 0x1 =? 0); [run_step; done|]. destruct (NVME_CAP_MPSMIN cap >? 0); [run_step; done|].
  destruct (calc_depth_spec NVME_ADMIN_QUEUE_DEPTH (NVME_CAP_MQES cap) SQE_BYTES) as (_ & _ & _ & Hdep & _); [done|apply mqes_range|done|].
  set (adepth := nvme_calc_depth _ _ _) in *. destruct (Z.eqb_spec adepth 0) as [|Hne]; [run_step; done|].
  destruct Hdep as [?|Hdep]; [done|]. unfold NVME_ADMIN_QUEUE_DEPTH in Hdep.
  clearbody adepth. destruct (Z_of_nat_complete adepth ltac:(lia)) as [n ->].
  run_step. apply run_on_nvme, run_update. set (s1 := set_in_nvme _ _).
  run_step. eapply run_mono; [apply (admin_queues_spec _ n _ s1); [exact Hp|]|].
  { unfold fresh_driver, s1. cbn. split_and!; done || lia. }
  intros ok s2 (Hp2 & Hr2 & Hg2). destruct ok; cbn [negb]; [|run_step; done].
  destruct (Hg2 eq_refl) as (fs & fc & Hs2 & Hup2 & Hk2 & Hne2 & Hfs & Hfc & Hms & Hmc & Hfree2). clear Hg2.
  assert (owned (pm s2) fs ∧ owned (pm s2) fc) as [Os Oc] by (split; (split; [done|]; rewrite Hfree2; tauto)).
  assert (∀ p f, same_frames (pm s2) p → owned (pm s2) f → owned p f) as Hown.
  { intros p f (_ & Hm & Hf) [? ?]. split; [by apply Hm|by rewrite Hf]. }
  run_step. apply run_on_nvme. eapply run_mono; [apply (identify_controller_spec Hlay _ fs fc n 0 []); try done; lia|].
  intros ok x3 (Hp3 & Hr3 & Hg3). rewrite Hr2 in Hr3. destruct ok; cbn [negb]; [|run_step; done].
  destruct Hg3 as (f1 & Hup3 & Hk3 & Hsf3).
  run_step. apply run_on_nvme. cbn [in_nvme set_in_nvme].
  eapply run_mono; [eapply (identify_namespace_spec Hlay _ fs fc n 1); [exact Hup3|done|by eapply Hown|by eapply Hown|done|lia]|].
  intros ok x4 ((Hp4 & Hr4 & Hg4) & Hlba). rewrite Hr3 in Hr4. destruct ok; cbn [negb]; [|run_step; done].
  destruct Hg4 as (f2 & Hup4 & Hk4 & Hsf4). destruct (Hlba eq_refl) as (k & Hk & Hlb).
  pose proof (kept_io_trans _ _ _ Hk2 (kept_io_trans _ _ _ Hk3 Hk4)) as Hkept.
  assert (∀ q, frame_free (nv_pmm x4) q ↔ frame_free (pm s2) q) as Hfree4.
  { intros q. destruct Hsf4 as (_ & _ & ->). by destruct Hsf3 as (_ & _ & ->). }
  assert (∀ f, owned (pm s2) f → owned (nv_pmm x4) f) as Hown4.
  { intros f [Hm Hf]. split; [|by rewrite Hfree4]. destruct Hsf4 as (_ & Hm4 & _), Hsf3 as (_ & Hm3 & _). by apply Hm4, Hm3. }
  destruct Hkept as (Kio & Kme & Kmv & Krd & Kcid & Klk & Kcm). cbn in Kcid, Klk, Kmv.
  assert (in_pci s2 = set_pci_hw h (in_pci s) ∧ in_irq s2 = in_irq s) as [Epci Eirq] by (by rewrite Hs2).
  run_step. eapply run_mono; [apply init_msix_spec; [done| |exact Kmv]|].
  { cbn [in_pci set_in_nvme]. by rewrite Epci. }
  intros [] s5 (d5 & on & E5 & Hd5 & Hirq5). cbn [in_nvme set_in_nvme in_irq] in E5, Hd5, Hirq5. rewrite Eirq in Hirq5.
  eapply run_mono; [apply (io_queues_spec _ fs fc n 2 [tag_cid 0 (identify_cmd 0 f1 1); tag_cid 1 (identify_cmd NVME_NAMESPACE_ID f2 0)])|];
    rewrite ?E5; try done; [by eapply admin_up_ext|by apply Hown4|by apply Hown4|lia|apply mqes_range|].
  intros ok s6 (Hp6 & Hr6 & Hg6). split; [done|]. split; [done|]. intros ->.
  destruct (Hg6 eq_refl) as (fq & fp & B1 & B2 & B3 & B4 & B5 & B6 & B7 & B8 & B9 & B10 & B11 & B12 & B13).
  rewrite E5 in B4, B5, B6, B7, B8, B10, B11, B12. cbn [g_nvme nv_pmm set_ctrl set_nv_hw with_msix next_io_cid io_lock msix_enabled msix_vector lba_size] in *.
  apply Hfree4, Hfree2 in B10 as (B10 & N1 & N2). apply Hfree4, Hfree2 in B11 as (B11 & N3 & N4).
  exists fs, fc, fq, fp, f1, f2, n, k. cbv zeta. rewrite B6. split; [done|].
  pose proof (au_bar _ _ _ _ _ _ B8) as (Ebar & _ & Estr).
  do 2 (split; [done|]). split; [done|]. split; [congruence|]. split; [congruence|]. split; [done|]. split; [done|]. split; [congruence|].
  split; [rewrite <- init_commands_eq by lia; exact B8|]. split; [|split; [|split]].
  - rewrite !NoDup_cons, !not_elem_of_cons, !elem_of_nil. split_and!; try done; try apply NoDup_nil_2; tauto.
  - rewrite !Forall_cons. done.
  - intros q. rewrite B12, Hfree4, Hfree2, !not_elem_of_cons, elem_of_nil. change (pm s1) with (pm s). tauto.
  - by rewrite B13, Hirq5.
Qed.

(** What reading and writing start from: when the controller has the pair of queues as
    created, with nothing in it yet, the driver is ready for the first command. *)
Definition handed_over s' : Prop :=
  let q := io (ctl s') in let depth := Z.to_nat (io_q_depth q) in
  ∀ (NQ : NvmeQueues D (iosq q) (iocq q) (nvme_sq_tdbl b NVME_IO_QUEUE_ID (cap_stride cap)) (nvme_cq_hdbl b NVME_IO_QUEUE_ID (cap_stride cap)) depth) slots,
    length slots = depth → nq (NvmeQueues := NQ) (nv_hw (in_nvme s')) = mkQ slots 0 0 [] [] [] 0 →
    inflight (NQ := NQ) (in_nvme s') 0 ∧ queue_pages lay (sq := iosq q) (cq := iocq q) (in_nvme s').

Lemma brought_up_hands_over s s' : frames_inv (pm s) → brought_up s s' → handed_over s'.
Proof.
  intros Hp (fs & fc & fq & fp & f1 & f2 & n & k & Hd & Hbar & Hstr & Hio & Hcid & Hlock & Hcmds & _ & _ & Hup & Hnd & Hall & Hfree & _).
  pose proof (au_bar _ _ _ _ _ _ Hup) as (_ & Hb0 & _). pose proof Hlay as (Hhh & Hal & _).
  rewrite !Forall_cons in Hall. destruct Hall as (_ & _ & Hq & Hc & _).
  destruct (frame_managed_aligned _ _ Hp (frame_free_managed _ _ Hp Hq)) as [Aq Rq].
  destruct (frame_managed_aligned _ _ Hp (frame_free_managed _ _ Hp Hc)) as [Ac Rc].
  unfold handed_over. rewrite Hio. cbn [iosq iocq io_q_depth]. cbv zeta. intros NQ slots Hl Hq0. set (depth := Z.to_nat _) in *.
  assert (2 ≤ depth ≤ 64)%nat as Hdep by (unfold depth; lia). split.
  - split; rewrite ?Hq0; rewrite ?Hio; cbn [q_released q_tail iosq_tail iosq_head]; try done.
    + split; rewrite ?Hq0; rewrite ?Hio; cbn [iocq_head iocq_phase q_released q_posted]; try done.
      * split; rewrite ?Hio; cbn [iosq iocq io_q_depth]; rewrite ?Hbar, ?Hstr; try done; try (split; [done|lia]). unfold depth. lia.
      * split; cbn [q_slots q_tail q_fetched q_released q_posted q_pending q_log length]; try done; try lia.
      * by rewrite Nat.Div0.mod_0_l.
      * unfold phase_of. by rewrite Nat.Div0.div_0_l.
      * by rewrite Hcmds.
    + by rewrite Nat.Div0.mod_0_l.
    + by rewrite Nat.Div0.mod_0_l.
    + cbn. lia.
    + constructor.
    + intros cid Hin. by apply not_elem_of_nil in Hin.
    + by rewrite Hcid.
  - split_and!.
    + rewrite Zplus_mod, Aq, Hal. done.
    + rewrite Zplus_mod, Ac, Hal. done.
    + rewrite Hfree. replace (fq + hh - hh) with fq by lia. set_solver.
    + rewrite Hfree. replace (fp + hh - hh) with fp by lia. set_solver.
Qed.

(** C17. Bring-up of the controller returns.  When it succeeds, the controller has been
    given exactly four commands, which identify it and its first namespace and create
    the completion and the submission queue, both of the depth the driver uses and at
    the pages the driver cleared; four frames are taken from the allocator for queues
    and no others; the handler is registered exactly when the interrupt is in use; and
    the driver is in the state from which reading and writing work.  When it fails,
    every read and write is refused. *)
Theorem nvme_init_correct s addrs ds fuel :
  frames_inv (pm s) → chain (pci_mem (in_pci s)) (pci_device_list (in_pci s)) addrs ds → (length addrs ≤ size (pci_mem (in_pci s)))%nat →
  function_ok (cfg_of s) ds → (looks < fuel)%nat →
  wp (nvme_init lay fuel) (λ ok s', frames_inv (pm s') ∧ ready (ctl s') = ok ∧
    if ok then brought_up s s' ∧ handed_over s'
    else ∀ f op sector count buf, nvme_transfer lay f op sector count buf (in_nvme s') = Ok (false, in_nvme s')) s.
Proof.
  intros Hp Hch Hlen Hfun Hfuel. eapply run_mono; [by eapply nvme_init_spec|]. intros ok s' (Hp' & Hr & Hg). split; [done|]. split; [done|].
  destruct ok; [split; [by apply Hg|]; eapply brought_up_hands_over; [exact Hp|by apply Hg]|].
  intros f op sector count buf. unfold nvme_transfer, bind, get. cbv zeta. by rewrite Hr.
Qed.
End Init.
