(* ===== verification/NvmeInitDemo.v ===== *)
(** A controller that answers an administrative command at the second look, on the bus
    of PciDemo.v, brought up by the driver. *)

From S2P Require Import Prelude Boot Frames Pmm Kmalloc KmallocDemo KernMem Percpu Sched SchedDemo Irq LapicDemo Lapic Pci PciSpec PciEnum PciDemo Nvme NvmeSpec NvmeFlight NvmeTransfer NvmeDemo NvmeInit NvmeAdmin NvmeInitSpec.

(** 64 entries, doorbells 4 bytes apart, ready within half a second, the NVM command
    set, pages of 4 KiB. *)
Definition demo_cap : Z := 2 ^ 37 + 2 ^ 24 + 63.

Definition demo_admin_sq : Z := nvme_sq_tdbl demo_bar NVME_ADMIN_QUEUE_ID 4.
Definition demo_admin_cq : Z := nvme_cq_hdbl demo_bar NVME_ADMIN_QUEUE_ID 4.

(** The answers: a namespace of 8 blocks of 512 bytes, transfers up to 128 KiB. *)
Definition demo_answer (off : Z) : Z :=
  if off =? 0 then 8 else if off =? 0x4D then 5 else if off =? 0x6E then 1 else if off =? 0x82 then 9 else 0.

Definition demo_post (a : adm) : nvme_cqe_t :=
  mkCqe 0 0 0 0 (default 0 (last (sqe_cid <$> a_log a))) (phase_of (adm_cqn a) (a_taken a)).
Definition demo_stale (a : adm) : nvme_cqe_t := mkCqe 0 0 0 0 0 (1 - phase_of (adm_cqn a) (a_taken a)).

#[export] Instance adm_io : NvmeIo adm := {
  hw_read32 r a :=
    if r =? u64 (demo_bar + BAR_CC) then (Z.b2z (a_en a), a)
    else if r =? u64 (demo_bar + BAR_CSTS) then (Z.b2z (a_en a), adm_set_rdy (a_en a) a) else (0, a);
  hw_read64 _ a := (demo_cap, a);
  hw_write32 r v a :=
    if r =? u64 (demo_bar + BAR_CC) then if Z.testbit v 0 then adm_start a else adm_stop a
    else if r =? u64 (demo_bar + BAR_AQA) then adm_set_regs v (a_asq a) (a_acq a) a
    else if r =? demo_admin_sq then adm_announce (a_slots a (a_taken a `mod` adm_sqn a)%nat) 1 a
    else if r =? demo_admin_cq then adm_take a
    else a;
  hw_write64 r v a :=
    if r =? u64 (demo_bar + BAR_ASQ) then adm_set_regs (a_aqa a) v (a_acq a) a
    else if r =? u64 (demo_bar + BAR_ACQ) then adm_set_regs (a_aqa a) (a_asq a) v a else a;
  mem_load8 p a := (demo_answer (p mod 4096), a);
  mem_store64 _ _ a := a;
  mem_zero _ _ a := a;
  mem_store_sqe p e a := adm_set_slot (Z.to_nat (u64 (p - pmm_phys_to_virt demo_layout (a_asq a)) / 64)) e a;
  mem_load_cqe _ a :=
    match a_phase a with
    | AIdle => (demo_stale a, a)
    | AWorking 0 => (demo_post a, adm_set_phase (APosted (demo_post a)) a)
    | AWorking (S n) => (demo_stale a, adm_set_phase (AWorking n) a)
    | APosted e => (e, a)
    end
}.

Lemma demo_answer_range off : in_width 8 (demo_answer off).
Proof. unfold demo_answer. repeat case_match; done. Qed.

Lemma phase_land n c : Z.land (phase_of n c) 1 = phase_of n c ∧ Z.land (1 - phase_of n c) 1 ≠ phase_of n c.
Proof. by destruct (phase_bit n c) as [-> | ->]. Qed.

Lemma adm_slot (v : Z) (i : nat) : (i < 5000)%nat → Z.to_nat (u64 (u64 (v + SQE_BYTES * Z.of_nat i) - v) / 64) = i.
Proof.
  intros Hi. unfold wrap, SQE_BYTES. rewrite Zminus_mod_idemp_l. replace (v + 64 * Z.of_nat i - v) with (64 * Z.of_nat i) by lia.
  rewrite Z.mod_small by lia. rewrite Z.mul_comm, Z.div_mul by lia. lia.
Qed.

#[export] Program Instance adm_device : NvmeAdmin adm demo_layout demo_bar demo_cap 1 := { ad a := a }.
Next Obligation. done. Qed.
Next Obligation. intros a. cbn. split; [done|]. by destruct (a_en a). Qed.
Next Obligation. intros a. cbn. exists (a_en a). split; [done|]. split; [by destruct (a_en a)|by right]. Qed.
Next Obligation. intros a v _ Hv. unfold hw_write32, adm_io. by rewrite Z.eqb_refl, Hv. Qed.
Next Obligation. intros a v _ _ _ Hv. unfold hw_write32, adm_io. by rewrite Z.eqb_refl, Hv. Qed.
Next Obligation. done. Qed.
Next Obligation. done. Qed.
Next Obligation. done. Qed.
Next Obligation.
  intros a i e _ Hi. unfold mem_store_sqe, adm_io. rewrite adm_slot; [done|]. unfold adm_sqn in Hi.
  pose proof (Z.mod_pos_bound (a_aqa a) (2 ^ 12) ltac:(lia)). lia.
Qed.
Next Obligation. intros a _ _. by exists 1%nat. Qed.
Next Obligation.
  intros a n _ Hp. unfold mem_load_cqe, adm_io. rewrite Hp. destruct (phase_land (adm_cqn a) (a_taken a)) as [H1 H2]. destruct n as [|n]; cbn [fst snd].
  - right. split; [exact H1|]. split; [|done]. intros c Hc. cbn [demo_post cqe_cid]. by rewrite Hc.
  - left. split; [exact H2|]. exists n. split; [lia|done].
Qed.
Next Obligation. intros a e _ Hp. unfold mem_load_cqe, adm_io. by rewrite Hp. Qed.
Next Obligation. done. Qed.
Next Obligation. intros a p. split; [done|]. apply demo_answer_range. Qed.
Next Obligation. done. Qed.
Next Obligation.
  intros a r v Hr. unfold hw_write32, adm_io. change (cap_stride demo_cap) with 4 in Hr.
  rewrite !(proj2 (Z.eqb_neq r _)); [done|apply (Hr 0x1004); lia|apply (Hr 0x1000); lia|apply (Hr BAR_AQA); unfold BAR_AQA; lia|apply (Hr BAR_CC); unfold BAR_CC; lia].
Qed.

(** * The driver on it *)

#[local] Existing Instance KmallocDemo.bump.

(** The function of PciDemo.v on the list, five frames in the allocator. *)
Definition demo_found : pci_state demo_bus Z := mkPci (0, demo_words) 8192 {[4096 := mkPciNode demo_disk 0]} 4096 1 [].
Definition demo_off : adm := mkAdm true true 0 0 0 (λ _, zero_sqe) [] 0 AIdle.
Definition demo_init : init_state adm demo_bus Z demo_mem lchip :=
  mkInit (mkNvme demo_off demo_pmm demo_nctrl []) demo_found
    (mkIrq demo_sched0 (replicate 256 None) false []) (demo_lchip 0xFEE00900 0).

Lemma demo_chain : chain (pci_mem (in_pci demo_init)) (pci_device_list (in_pci demo_init)) [4096] [demo_disk].
Proof. split; [done|]. split; [done|]. exists 0. done. Qed.

Lemma demo_table k i : k ∈ [0; 4; 8; 12] → 0 ≤ i < 0x1000 + 4 * cap_stride demo_cap →
  u64 (demo_hhdm + 0xFEBF2000 + k) ≠ u64 (demo_bar + i).
Proof.
  change (cap_stride demo_cap) with 4. unfold demo_bar. set_unfold. change demo_hhdm with (2 ^ 63). unfold wrap.
  intros Hk Hi. rewrite !Z.mod_small; lia.
Qed.

Lemma demo_function : function_ok (lay := demo_layout) (b := demo_bar) (cap := demo_cap) (pci_cfg (pci_hw (in_pci demo_init))) [demo_disk].
Proof.
  intros dv Hf. assert (dv = demo_disk) as -> by (vm_compute in Hf; by injection Hf as <-). clear Hf.
  split; [split_and!; by vm_compute|]. split.
  - intros q Hq. destruct (demo_caps q Hq) as [-> | ->]; (split; [done|]).
    + intros Hx. by vm_compute in Hx.
    + intros _. cbv zeta. intros phys Hph.
      assert (phys = 0xFEBF0000) as -> by (vm_compute in Hph; by injection Hph as <-). intros k i Hk Hi.
      pose proof (demo_table k i Hk Hi) as Hne. exact Hne.
  - intros phys Hph. assert (phys = 0xFEBF0000) as -> by (vm_compute in Hph; by injection Hph as <-). split; vm_compute; [reflexivity|discriminate].
Qed.

Lemma demo_init_frames : frames_inv (nv_pmm (in_nvme demo_init)).
Proof. split; [exact demo_pmm_inv|by vm_compute]. Qed.

Lemma nvme_init_correct_witness :
  ∃ s', nvme_init demo_layout 2 demo_init = Ok (true, s') ∧ ready (g_nvme (in_nvme s')) = true ∧
    brought_up (lay := demo_layout) (NA := adm_device) demo_init s' ∧ handed_over (lay := demo_layout) (b := demo_bar) (cap := demo_cap) s' ∧
    lba_size (g_nvme (in_nvme s')) = 512.
Proof.
  destruct (wp_inv _ _ _ (nvme_init_correct demo_hhdm_ok (NA := adm_device) demo_init [4096] [demo_disk] 2
    demo_init_frames demo_chain ltac:(vm_compute; lia) demo_function ltac:(lia))) as (ok & s' & Hrun & _ & Hr & Hok).
  assert (match nvme_init demo_layout 2 demo_init with Ok (r, s) => r && (lba_size (g_nvme (in_nvme s)) =? 512) | _ => false end = true) as Hv
    by (vm_compute; reflexivity).
  rewrite Hrun in Hv. apply andb_true_iff in Hv as [-> Hl%Z.eqb_eq]. exists s'. destruct Hok as [H1 H2]. exact (conj Hrun (conj Hr (conj H1 (conj H2 Hl)))).
Defined.
