(* ===== verification/Cpuid.v ===== *)
(** Identification of the processor (arch/x86_64/cpu/vendor.h): [cpuid_get_info] as a
    function of the instruction [cpuid], by leaf and sub-leaf.

    The structure is zeroed first and filled leaf by leaf, with two early returns;
    here each field is given by what it ends up with.  The vendor's name is from
    apic.c. *)

From S2P Require Import Prelude Disk Boot Acpi Lapic.

Inductive cpu_vendor_t : Type :=
  | CPU_VENDOR_UNKNOWN | CPU_VENDOR_INTEL | CPU_VENDOR_AMD | CPU_VENDOR_KVM | CPU_VENDOR_HYPERV | CPU_VENDOR_VMWARE.
#[export] Instance cpu_vendor_t_eq_dec : EqDecision cpu_vendor_t.
Proof. solve_decision. Defined.

Record cpu_features_t : Type := mkFeatures {
  fpu : bool; vme : bool; de : bool; pse : bool; tsc : bool; msr : bool; pae : bool; mce : bool; cx8 : bool; apic : bool; sep : bool;
  mtrr : bool; pge : bool; mca : bool; cmov : bool; pat : bool; pse36 : bool; clflush : bool; mmx : bool; fxsr : bool; sse : bool;
  sse2 : bool; htt : bool;
  sse3 : bool; pclmul : bool; ssse3 : bool; fma : bool; cx16 : bool; sse4_1 : bool; sse4_2 : bool; x2apic : bool; movbe : bool;
  popcnt : bool; aes : bool; xsave : bool; osxsave : bool; avx : bool; f16c : bool; rdrand : bool; hypervisor : bool;
  fsgsbase : bool; smep : bool; bmi1 : bool; avx2 : bool; bmi2 : bool; invpcid : bool; mpx : bool; avx512f : bool; rdseed : bool;
  adx : bool; smap : bool; clflushopt : bool; clwb : bool; sha : bool;
  umip : bool; pku : bool; vaes : bool; vpclmulqdq : bool; rdpid : bool;
  syscall : bool; nx : bool; pdpe1gb : bool; rdtscp : bool; lm : bool;
  lahf_lm : bool; cmp_legacy : bool; abm : bool; sse4a : bool; prefetchw : bool
}.

(** The flags from leaf 1, leaf 7 and leaf 0x80000001. *)
Definition features_of (r1 r7 rx : cpuid_regs) : cpu_features_t :=
  let d1 := Z.testbit (r_edx r1) in let c1 := Z.testbit (r_ecx r1) in
  let b7 := Z.testbit (r_ebx r7) in let c7 := Z.testbit (r_ecx r7) in
  let dx := Z.testbit (r_edx rx) in let cx := Z.testbit (r_ecx rx) in
  {| fpu := d1 0; vme := d1 1; de := d1 2; pse := d1 3; tsc := d1 4; msr := d1 5; pae := d1 6; mce := d1 7; cx8 := d1 8;
     apic := d1 9; sep := d1 11; mtrr := d1 12; pge := d1 13; mca := d1 14; cmov := d1 15; pat := d1 16; pse36 := d1 17;
     clflush := d1 19; mmx := d1 23; fxsr := d1 24; sse := d1 25; sse2 := d1 26; htt := d1 28;
     sse3 := c1 0; pclmul := c1 1; ssse3 := c1 9; fma := c1 12; cx16 := c1 13; sse4_1 := c1 19; sse4_2 := c1 20; x2apic := c1 21;
     movbe := c1 22; popcnt := c1 23; aes := c1 25; xsave := c1 26; osxsave := c1 27; avx := c1 28; f16c := c1 29; rdrand := c1 30;
     hypervisor := c1 31;
     fsgsbase := b7 0; smep := b7 7; bmi1 := b7 3; avx2 := b7 5; bmi2 := b7 8; invpcid := b7 10; mpx := b7 14; avx512f := b7 16;
     rdseed := b7 18; adx := b7 19; smap := b7 20; clflushopt := b7 23; clwb := b7 24; sha := b7 29;
     umip := c7 2; pku := c7 3; vaes := c7 9; vpclmulqdq := c7 10; rdpid := c7 22;
     syscall := dx 11; nx := dx 20; pdpe1gb := dx 26; rdtscp := dx 27; lm := dx 29;
     lahf_lm := cx 0; cmp_legacy := cx 1; abm := cx 5; sse4a := cx 6; prefetchw := cx 8 |}.

(** [type] is the field of five bits as it was reported. *)
Record cache_info_t : Type := mkCache {
  cache_type : Z; level : Z; size_kb : Z; line_size : Z; associativity : Z; sets : Z;
  self_initializing : bool; fully_associative : bool
}.
Definition zero_cache : cache_info_t := mkCache 0 0 0 0 0 0 false false.
Definition CPUID_MAX_CACHES : nat := 8.

Record cpu_info_t : Type := mkInfo {
  vendor_string : list Z;       (* 13 bytes *)
  vendor : cpu_vendor_t;
  brand_string : list Z;        (* 49 bytes *)
  stepping : Z; model : Z; family : Z; cpu_type : Z; extended_model : Z; extended_family : Z;
  display_model : Z; display_family : Z;
  brand_index : Z; clflush_line_size : Z; logical_processors : Z; initial_apic_id : Z;
  max_basic_leaf : Z; max_extended_leaf : Z;
  features : cpu_features_t;
  caches : list cache_info_t;   (* 8 entries *)
  cache_count : Z;
  phys_addr_bits : Z; virt_addr_bits : Z
}.

Definition zero_regs : cpuid_regs := mkRegs 0 0 0 0.

(** * The steps *)

(** [memcmp] of the first twelve bytes with the names. *)
Definition vendor_of (s : list Z) : cpu_vendor_t :=
  if bool_decide (take 12 s = sig_of "GenuineIntel") then CPU_VENDOR_INTEL
  else if bool_decide (take 12 s = sig_of "AuthenticAMD") then CPU_VENDOR_AMD
  else if bool_decide (take 12 s = sig_of "KVMKVMKVM" ++ [0; 0; 0]) then CPU_VENDOR_KVM
  else if bool_decide (take 12 s = sig_of "Microsoft Hv") then CPU_VENDOR_HYPERV
  else if bool_decide (take 12 s = sig_of "VMwareVMware") then CPU_VENDOR_VMWARE
  else CPU_VENDOR_UNKNOWN.

Definition vendor_bytes (r : cpuid_regs) : list Z := le_enc 4 (r_ebx r) ++ le_enc 4 (r_edx r) ++ le_enc 4 (r_ecx r) ++ [0].

Definition field_at (x pos mask : Z) : Z := Z.land (Z.shiftr x pos) mask.

Definition cache_of (r : cpuid_regs) : cache_info_t :=
  let line := Z.land (r_ebx r) 0xFFF + 1 in
  let parts := field_at (r_ebx r) 12 0x3FF + 1 in
  let ways := field_at (r_ebx r) 22 0x3FF + 1 in
  let sets := u32 (r_ecx r + 1) in
  mkCache (Z.land (r_eax r) 0x1F) (field_at (r_eax r) 5 0x7) (u32 (u32 (u32 (ways * parts) * line) * sets) / 1024) line ways sets
    (Z.testbit (r_eax r) 8) (Z.testbit (r_eax r) 9).

(** The loop over sub-leaves, with room for [n] more. *)
Fixpoint caches_from (cpuid : Z → Z → cpuid_regs) (leaf : Z) (n : nat) (sub : Z) : list cache_info_t :=
  match n with
  | O => []
  | S n' =>
      let r := cpuid leaf sub in
      if Z.land (r_eax r) 0x1F =? 0 then [] else cache_of r :: caches_from cpuid leaf n' (sub + 1)
  end.

Definition padded (l : list cache_info_t) : list cache_info_t := l ++ replicate (CPUID_MAX_CACHES - length l) zero_cache.

Definition cpuid_get_info (cpuid : Z → Z → cpuid_regs) : cpu_info_t :=
  let r0 := cpuid 0 0 in
  let max_basic := r_eax r0 in
  let vs := vendor_bytes r0 in
  let v := vendor_of vs in
  if max_basic =? 0 then
    mkInfo vs v (replicate 49 0) 0 0 0 0 0 0 0 0 0 0 0 0 max_basic 0 (features_of zero_regs zero_regs zero_regs) (padded []) 0 0 0
  else
    let r1 := cpuid 1 0 in
    let eax := r_eax r1 in
    let ebx := r_ebx r1 in
    let fam := field_at eax 8 0xF in
    let mdl := field_at eax 4 0xF in
    let xmdl := field_at eax 16 0xF in
    let xfam := field_at eax 20 0xFF in
    let disp_fam := if fam =? 0xF then u16 (xfam + fam) else fam in
    let disp_mdl := if (fam =? 0x6) || (fam =? 0xF) then u8 (Z.lor (Z.shiftl xmdl 4) mdl) else mdl in
    let basic_caches := if 4 <=? max_basic then caches_from cpuid 4 CPUID_MAX_CACHES 0 else [] in
    let r7 := if 7 <=? max_basic then cpuid 7 0 else zero_regs in
    let max_ext := r_eax (cpuid 0x80000000 0) in
    let info := λ brand rx cs pa va,
      mkInfo vs v brand (field_at eax 0 0xF) mdl fam (field_at eax 12 0x3) xmdl xfam disp_mdl disp_fam
        (field_at ebx 0 0xFF) (u8 (field_at ebx 8 0xFF * 8)) (field_at ebx 16 0xFF) (field_at ebx 24 0xFF)
        max_basic max_ext (features_of r1 r7 rx) (padded cs) (Z.of_nat (length cs)) pa va in
    if max_ext <? 0x80000001 then info (replicate 49 0) zero_regs basic_caches 0 0
    else
      let rx := cpuid 0x80000001 0 in
      let brand :=
        if 0x80000004 <=? max_ext then
          concat ((λ l, let r := cpuid l 0 in le_enc 4 (r_eax r) ++ le_enc 4 (r_ebx r) ++ le_enc 4 (r_ecx r) ++ le_enc 4 (r_edx r))
            <$> [0x80000002; 0x80000003; 0x80000004]) ++ [0]
        else replicate 49 0 in
      let r8 := if 0x80000008 <=? max_ext then cpuid 0x80000008 0 else zero_regs in
      let cs :=
        if bool_decide (v = CPU_VENDOR_AMD) && (0x8000001D <=? max_ext) && (length basic_caches =? 0)%nat
        then caches_from cpuid 0x8000001D CPUID_MAX_CACHES 0 else basic_caches in
      info brand rx cs (field_at (r_eax r8) 0 0xFF) (field_at (r_eax r8) 8 0xFF).

Definition x86_cpu_vendor_name (v : cpu_vendor_t) : string :=
  match v with
  | CPU_VENDOR_INTEL => "Intel"
  | CPU_VENDOR_AMD => "AMD"
  | CPU_VENDOR_KVM => "KVM"
  | CPU_VENDOR_HYPERV => "Hyper-V"
  | CPU_VENDOR_VMWARE => "VMware"
  | CPU_VENDOR_UNKNOWN => "Unknown"
  end.

(** * What the processor was asked *)

(** A leaf is defined when its range reports a largest leaf at least as large; the
    two leaves that report are. *)
Definition leaf_defined (cpuid : Z → Z → cpuid_regs) (leaf : Z) : Prop :=
  leaf = 0 ∨ leaf = 0x80000000 ∨ leaf ≤ r_eax (cpuid 0 0) ∧ 0 ≤ leaf < 0x80000000 ∨ 0x80000000 ≤ leaf ≤ r_eax (cpuid 0x80000000 0).

Lemma caches_from_ext c1 c2 leaf n sub : (∀ s, c1 leaf s = c2 leaf s) → caches_from c1 leaf n sub = caches_from c2 leaf n sub.
Proof. intros H. revert sub. induction n as [|n IH]; intros sub; cbn; [done|]. by rewrite H, IH. Qed.

Lemma get_info_ext c1 c2 :
  0 ≤ r_eax (c1 0 0) → (∀ leaf sub, leaf_defined c1 leaf → c1 leaf sub = c2 leaf sub) → cpuid_get_info c1 = cpuid_get_info c2.
Proof.
  intros Hpos H. unfold cpuid_get_info. rewrite <- (H 0 0), <- (H 0x80000000 0) by (unfold leaf_defined; auto).
  set (mb := r_eax (c1 0 0)) in *. set (mx := r_eax (c1 0x80000000 0)) in *.
  assert (∀ leaf sub, 0 ≤ leaf < 0x80000000 → leaf ≤ mb → c1 leaf sub = c2 leaf sub) as Hb.
  { intros. apply H. unfold leaf_defined. fold mb. lia. }
  assert (∀ leaf sub, 0x80000000 ≤ leaf → leaf ≤ mx → c1 leaf sub = c2 leaf sub) as Hx.
  { intros. apply H. unfold leaf_defined. fold mx. lia. }
  destruct (Z.eqb_spec mb 0); [done|]. cbv zeta. rewrite <- (Hb 1 0) by lia.
  assert ((if 4 <=? mb then caches_from c2 4 CPUID_MAX_CACHES 0 else []) = (if 4 <=? mb then caches_from c1 4 CPUID_MAX_CACHES 0 else [])) as ->.
  { destruct (Z.leb_spec 4 mb); [|done]. apply caches_from_ext. intros. symmetry. by apply Hb. }
  assert ((if 7 <=? mb then c2 7 0 else zero_regs) = (if 7 <=? mb then c1 7 0 else zero_regs)) as ->.
  { destruct (Z.leb_spec 7 mb); [|done]. symmetry. by apply Hb. }
  destruct (Z.ltb_spec mx 0x80000001) as [|Hm]; [done|]. rewrite <- (Hx 0x80000001 0) by lia.
  assert ((if 0x80000008 <=? mx then c2 0x80000008 0 else zero_regs) = (if 0x80000008 <=? mx then c1 0x80000008 0 else zero_regs)) as ->.
  { destruct (Z.leb_spec 0x80000008 mx); [|done]. symmetry. by apply Hx. }
  set (bc := if 4 <=? mb then _ else []). set (amd := bool_decide _ && _ && _).
  assert ((if amd then caches_from c2 0x8000001D CPUID_MAX_CACHES 0 else bc) = (if amd then caches_from c1 0x8000001D CPUID_MAX_CACHES 0 else bc)) as ->.
  { destruct amd eqn:Ha; [|done]. apply andb_true_iff in Ha as [[_ Ha%Z.leb_le]%andb_true_iff _]. apply caches_from_ext. intros. symmetry. by apply Hx. }
  f_equal. destruct (Z.leb_spec 0x80000004 mx); [|done]. f_equal. f_equal. cbn [fmap list_fmap].
  by rewrite <- !(Hx 0x80000002), <- !(Hx 0x80000003), <- !(Hx 0x80000004) by lia.
Qed.

(** What is known of the processor does not depend on what the instruction answers
    for leaves the processor does not define: no such leaf is used. *)
Theorem cpuid_get_info_defined_leaves c1 c2 :
  0 ≤ r_eax (c1 0 0) → (∀ leaf sub, leaf_defined c1 leaf → c1 leaf sub = c2 leaf sub) → cpuid_get_info c1 = cpuid_get_info c2.
Proof. apply get_info_ext. Qed.

(** * The result *)

Lemma length_le_enc n z : length (le_enc n z) = n.
Proof. revert z. induction n as [|n IH]; intros z; cbn; [done|]. by rewrite IH. Qed.

Lemma caches_from_spec cpuid leaf n sub :
  let cs := caches_from cpuid leaf n sub in
  (length cs ≤ n)%nat ∧ (∀ i c, cs !! i = Some c → c = cache_of (cpuid leaf (sub + Z.of_nat i)) ∧ cache_type c ≠ 0) ∧
  ((length cs < n)%nat → Z.land (r_eax (cpuid leaf (sub + Z.of_nat (length cs)))) 0x1F = 0).
Proof.
  revert sub. induction n as [|n IH]; intros sub; cbn [caches_from].
  { split; [done|]. split; [done|]. cbn. lia. }
  destruct (Z.eqb_spec (Z.land (r_eax (cpuid leaf sub)) 0x1F) 0) as [He|He].
  { split; [cbn; lia|]. split; [done|]. intros _. by rewrite Z.add_0_r. }
  destruct (IH (sub + 1)) as (H1 & H2 & H3). split; [cbn; lia|]. split.
  - intros [|i] c Hc; cbn in Hc.
    + injection Hc as <-. by rewrite Z.add_0_r.
    + apply H2 in Hc. by replace (sub + Z.of_nat (S i)) with (sub + 1 + Z.of_nat i) by lia.
  - cbn [length]. intros Hl. replace (sub + Z.of_nat (S (length (caches_from cpuid leaf n (sub + 1)))))
      with (sub + 1 + Z.of_nat (length (caches_from cpuid leaf n (sub + 1)))) by lia. apply H3. lia.
Qed.

Definition vendor_name_bytes (v : cpu_vendor_t) : option (list Z) :=
  match v with
  | CPU_VENDOR_INTEL => Some (sig_of "GenuineIntel")
  | CPU_VENDOR_AMD => Some (sig_of "AuthenticAMD")
  | CPU_VENDOR_KVM => Some (sig_of "KVMKVMKVM" ++ [0; 0; 0])
  | CPU_VENDOR_HYPERV => Some (sig_of "Microsoft Hv")
  | CPU_VENDOR_VMWARE => Some (sig_of "VMwareVMware")
  | CPU_VENDOR_UNKNOWN => None
  end.

Lemma vendor_of_spec s v : v ≠ CPU_VENDOR_UNKNOWN → vendor_of s = v ↔ vendor_name_bytes v = Some (take 12 s).
Proof.
  intros Hv. unfold vendor_of. generalize (take 12 s). intros x. split.
  - intros <-. repeat case_bool_decide; subst; done.
  - destruct v; [done|..]; intros Hx; apply (inj Some) in Hx; subst x; by vm_compute.
Qed.

(** The record is well formed: the strings end with a zero byte at their full
    length, a vendor is named exactly when its twelve characters were reported, at
    most eight caches are listed and they are the sub-leaves up to the first that
    reports none, the other entries are zero. *)
Theorem cpuid_get_info_well_formed cpuid :
  0 ≤ r_eax (cpuid 0 0) →
  let info := cpuid_get_info cpuid in
  length (vendor_string info) = 13%nat ∧ last (vendor_string info) = Some 0 ∧
  length (brand_string info) = 49%nat ∧ last (brand_string info) = Some 0 ∧
  (∀ v, v ≠ CPU_VENDOR_UNKNOWN → vendor info = v ↔ vendor_name_bytes v = Some (take 12 (vendor_string info))) ∧
  length (caches info) = 8%nat ∧ 0 ≤ cache_count info ≤ 8 ∧
  (∀ i, cache_count info ≤ Z.of_nat i < 8 → caches info !! i = Some zero_cache) ∧
  (0 < cache_count info → ∃ leaf, leaf_defined cpuid leaf ∧
    (∀ i, Z.of_nat i < cache_count info → caches info !! i = Some (cache_of (cpuid leaf (Z.of_nat i))) ∧ Z.land (r_eax (cpuid leaf (Z.of_nat i))) 0x1F ≠ 0) ∧
    (cache_count info < 8 → Z.land (r_eax (cpuid leaf (cache_count info))) 0x1F = 0)).
Proof.
  intros Hpos. assert (∀ l, (length l ≤ 8)%nat → length (padded l) = 8%nat ∧
    (∀ i, (length l ≤ i < 8)%nat → padded l !! i = Some zero_cache) ∧ (∀ i, (i < length l)%nat → padded l !! i = l !! i)) as Hpad.
  { intros l Hl. unfold padded, CPUID_MAX_CACHES. rewrite length_app, length_replicate. split; [lia|]. split; intros i Hi.
    - rewrite lookup_app_r by lia. apply lookup_replicate_2. lia.
    - by rewrite lookup_app_l by lia. }
  assert (∃ brand cs leaf, (brand_string (cpuid_get_info cpuid) = brand ∧ caches (cpuid_get_info cpuid) = padded cs ∧
    cache_count (cpuid_get_info cpuid) = Z.of_nat (length cs)) ∧ length brand = 49%nat ∧ last brand = Some 0 ∧
    (cs = [] ∨ cs = caches_from cpuid leaf 8 0 ∧ leaf_defined cpuid leaf)) as (brand & cs & leaf & (E1 & E2 & E3) & B1 & B2 & Hcs).
  { unfold cpuid_get_info. destruct (Z.eqb_spec (r_eax (cpuid 0 0)) 0) as [H0|H0].
    { exists (replicate 49 0), [], 0. split; [done|]. auto. }
    cbv zeta. set (bc := if 4 <=? r_eax (cpuid 0 0) then _ else []).
    assert (bc = [] ∨ bc = caches_from cpuid 4 8 0 ∧ leaf_defined cpuid 4) as Hbc.
    { unfold bc. destruct (Z.leb_spec 4 (r_eax (cpuid 0 0))); [right|by left]. split; [done|]. unfold leaf_defined. lia. }
    destruct (Z.ltb_spec (r_eax (cpuid 0x80000000 0)) 0x80000001) as [Hx|Hx].
    { exists (replicate 49 0), bc, 4. auto. }
    set (br := if 0x80000004 <=? _ then _ else _).
    assert (length br = 49%nat ∧ last br = Some 0) as [Hb1 Hb2].
    { unfold br. destruct (0x80000004 <=? r_eax (cpuid 0x80000000 0)); [|done]. split; [|apply last_snoc]. rewrite length_app. cbn [fmap list_fmap concat].
      rewrite !length_app, !length_le_enc. done. }
    set (amd := bool_decide _ && _ && _).
    exists br, (if amd then caches_from cpuid 0x8000001D CPUID_MAX_CACHES 0 else bc), (if amd then 0x8000001D else 4).
    split; [done|]. split; [done|]. split; [done|]. destruct amd eqn:Ha; [|done]. right. split; [done|].
    apply andb_true_iff in Ha as [[_ Ha%Z.leb_le]%andb_true_iff _]. unfold leaf_defined. lia. }
  cbv zeta. rewrite E1, E2, E3.
  assert (∃ r, vendor_string (cpuid_get_info cpuid) = vendor_bytes r ∧ vendor (cpuid_get_info cpuid) = vendor_of (vendor_bytes r)) as (r & -> & ->).
  { exists (cpuid 0 0). unfold cpuid_get_info. cbv zeta. by repeat case_match. }
  destruct (caches_from_spec cpuid leaf 8 0) as (C1 & C2 & C3).
  assert (length cs ≤ 8)%nat as Hlen by (destruct Hcs as [-> | [-> _]]; [cbn; lia|done]). destruct (Hpad cs Hlen) as (P1 & P2 & P3).
  split; [unfold vendor_bytes; by rewrite !length_app, !length_le_enc|]. split; [unfold vendor_bytes; rewrite !app_assoc; apply last_snoc|].
  split; [done|]. split; [done|]. split; [intros v Hv; by apply vendor_of_spec|]. split; [done|]. split; [lia|]. split; [intros i Hi; apply P2; lia|].
  intros Hne. destruct Hcs as [-> | [-> Hl]]; [cbn in Hne; lia|]. exists leaf. split; [done|]. split.
  - intros i Hi. rewrite P3 by lia. destruct (lookup_lt_is_Some_2 (caches_from cpuid leaf 8 0) i ltac:(lia)) as [c Hc].
    rewrite Hc. apply C2 in Hc as [-> Ht]. rewrite Z.add_0_l in *. done.
  - intros Hlt. rewrite Z.add_0_l in C3. apply C3. lia.
Qed.

(** * A processor *)

(** Two caches, leaves up to 7, no extended features but the address sizes. *)
Definition intel_cpuid (junk : cpuid_regs) (leaf sub : Z) : cpuid_regs :=
  if leaf =? 0 then mkRegs 7 (le (sig_of "Genu")) (le (sig_of "ntel")) (le (sig_of "ineI"))
  else if leaf =? 1 then mkRegs 0x906EA 0x00100800 (2 ^ 21) (2 ^ 9 + 2 ^ 5)
  else if leaf =? 4 then
    if sub =? 0 then mkRegs 0x121 0x01C0003F 63 0 else if sub =? 1 then mkRegs 0x143 0x00C0003F 1023 0 else zero_regs
  else if leaf =? 7 then mkRegs 0 (2 ^ 7) 0 0
  else if leaf =? 0x80000000 then mkRegs 0x80000008 0 0 0
  else if leaf =? 0x80000001 then mkRegs 0 0 0 (2 ^ 20 + 2 ^ 29)
  else if leaf =? 0x80000008 then mkRegs 0x3027 0 0 0
  else if (0x80000001 <? leaf) && (leaf <? 0x80000008) then zero_regs
  else if (1 <? leaf) && (leaf <? 7) then zero_regs
  else junk.

Lemma cpuid_get_info_defined_leaves_witness :
  cpuid_get_info (intel_cpuid zero_regs) = cpuid_get_info (intel_cpuid (mkRegs 1 2 3 4)).
Proof.
  apply cpuid_get_info_defined_leaves; [by vm_compute|]. intros leaf sub Hl. unfold leaf_defined in Hl. cbn in Hl. unfold intel_cpuid.
  repeat match goal with |- (if ?c then _ else _) = _ => destruct c eqn:?; [done|] end.
  repeat match goal with H : (_ =? _) = false |- _ => apply Z.eqb_neq in H | H : _ && _ = false |- _ => apply andb_false_iff in H; rewrite !Z.ltb_ge in H end.
  lia.
Defined.

Lemma cpuid_get_info_well_formed_witness :
  let info := cpuid_get_info (intel_cpuid zero_regs) in
  vendor info = CPU_VENDOR_INTEL ∧ x86_cpu_vendor_name (vendor info) = "Intel" ∧ cache_count info = 2 ∧
  length (vendor_string info) = 13%nat ∧ size_kb <$> caches info !! 0%nat = Some 32 ∧
  display_family info = 6 ∧ display_model info = 0x9E ∧ phys_addr_bits info = 39.
Proof.
  destruct (cpuid_get_info_well_formed (intel_cpuid zero_regs)) as (H1 & _ & _ & _ & Hv & _); [by vm_compute|]. cbv zeta.
  split; [apply (Hv CPU_VENDOR_INTEL); [done|by vm_compute]|]. split; [by vm_compute|]. split; [by vm_compute|]. split; [exact H1|]. by vm_compute.
Defined.
